(* ===== verification/_CoqProject ===== *)
-Q . S2P
Prelude.v
Time.v
Codec.v
VarInt.v
PacketNumber.v
SlidingWindow.v
PacketMap.v
MapInterface.v
PacketMapThm.v
SortedMap.v
SortedMapThm.v
Interval.v
IntervalInsert.v
IntervalRemove.v
IntervalIntersect.v
IntervalSet.v
AckRanges.v
StreamId.v
FrameAck.v
Frames.v
FrameCodec.v
Payload.v
ReassemblerSlot.v
Reassembler.v
ReassemblerSpec.v
ReassemblerWrite.v
ReassemblerOps.v
ReassemblerRead.v
ReassemblerThm.v
Transmission.v
TransmissionContext.v
Mtu.v
MtuThm.v
Rtt.v
Recovery.v
RecoveryThm.v
EcnController.v
EcnThm.v
EcnPath.v
Sync.v
FlowControl.v
FlowControlThm.v
VarIntSet.v
SendBuffer.v
SendBufferThm.v
Transmissions.v
TransmissionsThm.v
DataSender.v
AckManager.v
DataWriter.v
TransmitThm.v
DataSenderThm.v
DataSenderTransmit.v
DataSenderReliable.v
AckManagerThm.v
StreamFlow.v
StreamFlowThm.v
SendStreams.v
StreamOps.v
SendStream.v
SendStreamThm.v
SendStreamLife.v
SendStreamWake.v
CryptoStream.v
ReceiveStream.v
ReceiveFlowThm.v
ReceiveStreamThm.v
ReceiveStreams.v
ReceiveCredit.v
ReceiveContent.v
CryptoStreamThm.v
StreamTransfer.v
EndToEnd.v
