(* ===== verification/Prelude.v ===== *)
(** * s2n-quic in Rocq

    A verification of the protocol logic of s2n-quic, an implementation of the
    QUIC transport protocol (RFC 9000, 9001, 9002) in Rust.  The program is a
    library: [common/s2n-codec] reads and writes bytes, [quic/s2n-quic-core] has
    the data types and algorithms of the protocol, [quic/s2n-quic-transport]
    composes them into endpoints, connections, packet spaces and streams, and
    the remaining crates supply cryptography, sockets and the public interface.
    Datagrams come in as bytes, are split into packets and frames, checked for
    duplicates, and their frames handed to the streams and to loss recovery;
    what the streams, the acknowledgements and the path want to send is written
    as frames into packets again.

    ** How the code is modelled

    Every definition translates a function or type of the source and keeps its
    name where that is possible.  Machine integers are [Z] with their width
    written at each operation: [add_c w], [mul_c w] and [sub_c] panic on
    overflow as a build with debug assertions does, [wrap w] is a truncating
    cast, [saturating_add w] saturates.  A function that may panic returns
    [outcome]; a fallible one returns [result], with the notations [let!],
    [let?] and [let+] for sequencing.  [debug_assert!] and [unwrap] are part of
    the model, so a theorem that concludes [Ret] also says that no assertion
    fails.  [&mut self] methods take the state and return it.  Loops are
    structural recursion, or recursion on fuel that the theorems prove enough.

    Code outside the repository is an interface with the behaviour it
    documents: [bytes::BytesMut] is the class [BytesMut] with the laws
    [BytesMutSpec] ([ReassemblerSlot]), discharged by the instance [Plain] of
    [ReassemblerThm]; [bytes::Bytes] is the class [Bytes] with [BytesSpec]
    ([SendBuffer]), discharged by plain lists; the capacity an allocator
    returns, the slice conversions of [zerocopy] and the application's packet
    interceptor are parameters.  Traits of the repository are classes with laws
    that their instances satisfy ([IntervalBound], [DataFlowController],
    [ChunkWriter], [PacketNumberMap]) or records of answers: [Writer] is the
    packet a component writes to, and [TransmissionContext] gives those answers
    from the bytes left in the packet; [ack::Set] is its membership function.
    A controller shared behind [Rc<RefCell<..>>] is state that is passed along,
    and a waker is its identity.

    ** The files

    Bytes, numbers and frames:
    - [Prelude]: outcomes, machine integers, tactics and hints; [Time] ([time]):
      timestamps and timers.
    - [Codec] ([common/s2n-codec]): decoder and encoder buffers.
    - [VarInt] ([s2n-quic-core/src/varint]): arithmetic, the encoding table and
      the codec of variable-length integers.
    - [PacketNumber], [SlidingWindow] ([packet/number]): packing, truncation and
      expansion of packet numbers, their ranges; the duplicate window.
    - [PacketMap], [SortedMap] ([packet/number/map]): the two maps from packet
      numbers to values; [MapInterface] is what both promise, [PacketMapThm] and
      [SortedMapThm] that they keep it.
    - [Interval], [IntervalInsert], [IntervalRemove], [IntervalIntersect],
      [IntervalSet] ([interval_set]): sets of numbers as sorted intervals;
      [VarIntSet]: those of stream offsets.
    - [AckRanges] ([ack/ranges.rs]): the packets to acknowledge.
    - [StreamId] ([stream/id.rs], [type_.rs], [iter.rs]).
    - [FrameAck], [Frames], [FrameCodec] ([frame]): all frame types, their
      codec, and its correctness.
    - [Payload] ([processed_packet.rs], [space/mod.rs] of the transport crate):
      the loop over the frames of a packet.

    Receiving:
    - [ReassemblerSlot], [Reassembler] ([buffer/reassembler]): the receive
      buffer of a stream; [ReassemblerSpec], [ReassemblerWrite],
      [ReassemblerOps], [ReassemblerRead], [ReassemblerThm]: its invariant, the
      bytes it stands for, and the theorems.
    - [StreamOps] ([stream/ops.rs], [stream/error.rs], and the events and
      interests of streams); [ReceiveStream] ([stream/receive_stream.rs]): the
      receiving half of a stream with its flow controller; [ReceiveFlowThm],
      [ReceiveStreamThm]: its operations; [ReceiveStreams]: all the receiving
      streams of a connection; [ReceiveContent]: the bytes they hand out;
      [ReceiveCredit]: two states a receiving stream does not leave.
    - [AckManager], [AckManagerThm] ([ack]): what is acknowledged, and when.

    Sending:
    - [Transmission], [TransmissionContext] ([transmission]): modes,
      constraints, interests, and the packet that is written to.
    - [SendBuffer], [Transmissions], [DataSender] ([sync/data_sender]): the data
      of a stream until it is acknowledged; [SendBufferThm], [TransmissionsThm],
      [DataWriter], [TransmitThm], [DataSenderThm], [DataSenderTransmit] and
      [DataSenderReliable]: its parts, its invariant, and reliable delivery.
    - [StreamFlow], [StreamFlowThm] ([stream/send_stream.rs]): flow control of a
      sending stream; [SendStreams]: the sending streams of a connection.
    - [SendStream] ([stream/send_stream.rs]): the sending half of a stream;
      [SendStreamThm]: its operations; [SendStreamLife]: its life;
      [SendStreamWake]: the writers that wait for it.
    - [CryptoStream], [CryptoStreamThm] ([space/crypto_stream.rs]): handshake
      data, from one end to the other.
    - [StreamTransfer], [EndToEnd]: the senders of one endpoint and the receivers
      of the other.

    Control:
    - [Sync] ([s2n-quic-transport/src/sync]): values kept in sync with the peer.
    - [FlowControl], [FlowControlThm] ([stream/*_connection_flow_controller.rs]
      of the transport crate): connection flow control.
    - [Mtu], [MtuThm] ([path/mtu.rs]): path MTU discovery.
    - [EcnController], [EcnThm], [EcnPath] ([path/ecn.rs], and the ECN counts of
      [recovery/manager.rs]): validation of explicit congestion notification.
    - [Rtt] ([recovery/rtt_estimator.rs], [random.rs]): RTT estimation and the
      timeouts derived from it.
    - [Recovery], [RecoveryThm] ([recovery/loss.rs], [pto.rs],
      [persistent_congestion.rs], [sent_packets.rs]).

    ** What is shown

    - Wire formats: encoding and decoding are inverse for variable-length
      integers, truncated packet numbers and every frame; decoders do not panic
      on arbitrary bytes and yield only well-formed values; the branch-free
      tables agree with those of the RFC; sizing of frames is exact.
    - Duplicate detection refines the set of packet numbers seen, so no packet
      is accepted twice; the evicted set is exact.
    - Interval sets implement set operations on a canonical sorted form, within
      their limit; acknowledgement ranges keep the newest packets.
    - The reassembler, whatever the order, overlap and size of the pieces,
      hands out exactly the stream: writes add the missing bytes and nothing
      else, errors change nothing, reads and skips take the front.
    - Processing a payload terminates on arbitrary bytes, panics only if a
      handler does, and classifies the packet exactly.
    - Both maps of packet numbers refine a finite map, and so agree.
    - The data sender delivers reliably: every byte is kept for retransmission
      until a frame with it was acknowledged, frames are parts of the stream
      within the limits, and no assertion fails.  The streams of a connection
      together respect its flow control.
    - A sending stream never panics, sends nothing but its reset after a reset,
      and never leaves a writer waiting; a receiving stream takes and gives back
      exactly the credit of the connection, and is refused only what breaks a
      limit.
    - End to end, over a network that loses, repeats and reorders packets in
      both directions: what the application reads of a stream is a prefix of
      what was written, and everything once the sender is finished; handshake
      data likewise, within its buffer.
    - Acknowledgements cover only what was received, go out in time, and are
      kept until the peer knows.
    - The MTU controller keeps its invariant on any events, never announces an
      unconfirmed size, and its search ends within 36 probes (three for each of
      the halvings of a [u16] range down to the threshold of 20 bytes).
    - ECN validation fails on a path that drops marked packets, never on one
      that marks and counts as it should.
    - The smoothed RTT stays within the samples, and the timeouts are those of
      RFC 9002 without overflow for round trips up to nine minutes ([MAX_RTT]);
      loss detection and the persistent congestion duration are exact; probes
      are sent as often as due, each ack-eliciting.
    - Connection flow control, both ends over an unreliable network as a step
      relation: the receiver's limit is never exceeded, its memory is bounded,
      and credit is never withheld.

    Where the code does not do what it means to, an [Example] or a lemma beside
    the theorem shows it on a concrete input ([excluded_start_steps_down],
    [low_watermark_starves], [stopped_stream_credit], [reset_after_finish_waits],
    [later_range_clears_error] and others); the theorems name the condition they
    exclude such a case with.

    ** Bounds

    Timestamps are below [2^63] microseconds ([timestamp_ok]), synchronisation
    periods below [2^46] microseconds ([MAX_SYNC_PERIOD]): both exceed any clock
    and any configuration the code accepts.  Chunks of data are at most [2^32 - 1]
    bytes, as the data sender asserts, and flow control windows below [2^32], as
    their type.  Fuel appears only where a loop is not structural; each use is
    followed by a lemma that the given fuel suffices.

    ** Not modelled

    Cryptography and TLS (library calls), sockets and platform code (input and
    output), the generated event code, the atomic rings and wakers (their
    correctness rests on the memory model), the congestion controllers (CUBIC
    computes in floating point), the data center protocol, tools and tests.
    Packet headers and transport parameters (apart from the validation of the
    acknowledgement parameters), the recovery manager apart from its ECN counts,
    connection identifiers, path validation, the stream manager with its
    containers, and the packet spaces build on what is here and tie it to keys
    and sockets. *)

From stdpp Require Export base tactics numbers option list.
From Stdlib Require Export ZArith Lia.

#[global] Open Scope Z_scope.

(** ** Outcomes

    A Rust function that can stop with a panic is a function into [outcome]:
    [Panic] is an explicit [panic!], a failed [assert!]/[debug_assert!], an
    [unwrap]/[expect] of the wrong variant, an index out of range or an
    arithmetic overflow (the build profile with [debug_assertions], which is
    the strict one). *)
Inductive outcome (A : Type) : Type :=
| Ret (a : A)
| Panic.
Arguments Ret {A} a.
Arguments Panic {A}.

(** Rust's [Result]. *)
Inductive result (A E : Type) : Type :=
| Ok (a : A)
| Err (e : E).
Arguments Ok {A E} a.
Arguments Err {A E} e.

Declare Scope rust_scope.
Delimit Scope rust_scope with rust.
#[global] Open Scope rust_scope.

Definition obind {A B} (m : outcome A) (f : A -> outcome B) : outcome B :=
  match m with Ret a => f a | Panic => Panic end.

Definition rbind {A B E} (m : result A E) (f : A -> result B E) : result B E :=
  match m with Ok a => f a | Err e => Err e end.

(** [let! x := e in k]: run [e], stop if it panics. *)
Notation "'let!' x := e 'in' k" := (obind e (fun x => k))
  (at level 10, x name, e at level 100, k at level 200) : rust_scope.
Notation "'let!' ' p := e 'in' k" := (obind e (fun x => match x with p => k end))
  (at level 10, p pattern, e at level 100, k at level 200) : rust_scope.
(** [let? x := e in k]: the [?] operator on a [Result]. *)
Notation "'let?' x := e 'in' k" := (rbind e (fun x => k))
  (at level 10, x name, e at level 100, k at level 200) : rust_scope.
Notation "'let?' ' p := e 'in' k" := (rbind e (fun x => match x with p => k end))
  (at level 10, p pattern, e at level 100, k at level 200) : rust_scope.

(** Calls that may panic and otherwise return a [result]. *)
Definition orbind {A B E} (m : outcome (result A E)) (f : A -> outcome (result B E))
    : outcome (result B E) :=
  match m with
  | Ret (Ok x) => f x
  | Ret (Err e) => Ret (Err e)
  | Panic => Panic
  end.
Notation "'let+' x := e 'in' k" := (orbind e (fun x => k))
  (at level 10, x name, e at level 100, k at level 200) : rust_scope.
Notation "'let+' ' p := e 'in' k" := (orbind e (fun x => match x with p => k end))
  (at level 10, p pattern, e at level 100, k at level 200) : rust_scope.

Definition is_ok {A E} (r : result A E) : bool :=
  match r with Ok _ => true | Err _ => false end.

(** [assert!(b)], [debug_assert!(b)]. *)
Definition rassert (b : bool) : outcome unit := if b then Ret tt else Panic.

(** ** Machine integers

    A [w]-bit unsigned integer is a [Z] between [0] and [2^w - 1]. *)
Definition umax (w : Z) : Z := 2 ^ w - 1.
Definition uint (w z : Z) : Prop := 0 <= z < 2 ^ w.
Definition wrap (w z : Z) : Z := z mod 2 ^ w.

Definition checked_add (w a b : Z) : option Z :=
  if a + b <? 2 ^ w then Some (a + b) else None.
Definition checked_sub (a b : Z) : option Z :=
  if b <=? a then Some (a - b) else None.
Definition checked_mul (w a b : Z) : option Z :=
  if a * b <? 2 ^ w then Some (a * b) else None.
Definition checked_div (a b : Z) : option Z :=
  if b =? 0 then None else Some (a / b).
Definition saturating_add (w a b : Z) : Z := Z.min (a + b) (umax w).
Definition saturating_sub (a b : Z) : Z := Z.max (a - b) 0.
Definition saturating_mul (w a b : Z) : Z := Z.min (a * b) (umax w).

(** A plain [a + b] or [a - b] of [w]-bit operands: out of range is a panic. *)
Definition add_c (w a b : Z) : outcome Z :=
  if a + b <? 2 ^ w then Ret (a + b) else Panic.
Definition sub_c (a b : Z) : outcome Z :=
  if b <=? a then Ret (a - b) else Panic.
Definition mul_c (w a b : Z) : outcome Z :=
  if a * b <? 2 ^ w then Ret (a * b) else Panic.

(** [opt.unwrap()], [opt.expect(..)]. *)
Definition unwrap {A} (o : option A) : outcome A :=
  match o with Some a => Ret a | None => Panic end.

(** ** Vectors

    [Vec]/[VecDeque] operations on lists with [usize] indices; an index out of
    range is a panic where the library panics. *)
Definition vlen {A} (l : list A) : Z := Z.of_nat (length l).

(** [v.get(i)]. *)
Definition vget {A} (l : list A) (i : Z) : option A :=
  if (0 <=? i) && (i <? vlen l) then l !! Z.to_nat i else None.
(** [v[i]]. *)
Definition vindex {A} (l : list A) (i : Z) : outcome A :=
  match vget l i with Some x => Ret x | None => Panic end.
(** [v[i] = x]. *)
Definition vset {A} (l : list A) (i : Z) (x : A) : outcome (list A) :=
  if i <? vlen l then Ret (<[Z.to_nat i:=x]> l) else Panic.
(** [v.insert(i, x)]. *)
Definition vinsert {A} (l : list A) (i : Z) (x : A) : outcome (list A) :=
  if i <=? vlen l then Ret (take (Z.to_nat i) l ++ x :: drop (Z.to_nat i) l) else Panic.
(** [VecDeque::remove(i)]: nothing happens out of range. *)
Definition vremove {A} (l : list A) (i : Z) : list A :=
  if i <? vlen l then take (Z.to_nat i) l ++ drop (S (Z.to_nat i)) l else l.
(** [v.drain(a..b)]. *)
Definition vdrain {A} (l : list A) (a b : Z) : outcome (list A) :=
  if (a <=? b) && (b <=? vlen l) then Ret (take (Z.to_nat a) l ++ drop (Z.to_nat b) l) else Panic.

(** ** Tactics *)

(** Case split on one comparison of integers that a conditional tests. *)
Ltac zcase :=
  match goal with
  | |- context [?a <? ?b] => destruct (Z.ltb_spec a b)
  | |- context [?a <=? ?b] => destruct (Z.leb_spec a b)
  | |- context [?a =? ?b] => destruct (Z.eqb_spec a b)
  | H : context [?a <? ?b] |- _ => destruct (Z.ltb_spec a b)
  | H : context [?a <=? ?b] |- _ => destruct (Z.leb_spec a b)
  | H : context [?a =? ?b] |- _ => destruct (Z.eqb_spec a b)
  end.

(** Case split on all of them, closing the contradictory branches. *)
Ltac zcases := repeat (zcase; try lia).

(** Invert equations between constructors of [outcome], [result], [option]
    and pairs. *)
Ltac rinv :=
  repeat match goal with
  | H : Ret _ = Ret _ |- _ => injection H as H; subst
  | H : Ok _ = Ok _ |- _ => injection H as H; subst
  | H : Err _ = Err _ |- _ => injection H as H; subst
  | H : Some _ = Some _ |- _ => injection H as H; subst
  | H : (_, _) = (_, _) |- _ => injection H as H; subst
  | H : Panic = Ret _ |- _ => discriminate H
  | H : Ret _ = Panic |- _ => discriminate H
  | H : Ok _ = Err _ |- _ => discriminate H
  | H : Err _ = Ok _ |- _ => discriminate H
  | H : Some _ = None |- _ => discriminate H
  | H : None = Some _ |- _ => discriminate H
  end.

(** Split a hypothesis [obind m f = Ret r] (or the [result] one) at [m]. *)
Ltac obind_inv :=
  match goal with
  | H : obind ?m _ = Ret _ |- _ =>
      let E := fresh "E" in destruct m eqn:E; cbn [obind] in H; [|discriminate H]
  | H : rbind ?m _ = Ok _ |- _ =>
      let E := fresh "E" in destruct m eqn:E; cbn [rbind] in H; [|discriminate H]
  end.

Lemma bind_returned {A B} (m : outcome A) (k : A -> outcome B) b : obind m k = Ret b -> exists a, m = Ret a /\ k a = Ret b.
Proof. destruct m; [eauto | done]. Qed.

(** Take a computation that returned apart. *)
Ltac ret_inv H :=
  repeat (first
    [ lazymatch type of H with obind ?m _ = Ret _ => let E := fresh "E" in destruct m eqn:E; cbn [obind] in H; [| discriminate H] end
    | lazymatch type of H with context [let '(_, _) := ?x in _] => is_var x; destruct x end ]).

(** ** Total correctness

    [returns m Q]: [m] does not panic, and its result satisfies [Q]. *)
Definition returns {A} (m : outcome A) (Q : A -> Prop) : Prop := exists x, m = Ret x /\ Q x.

Lemma returns_ret {A} (x : A) (Q : A -> Prop) : Q x -> returns (Ret x) Q.
Proof. by exists x. Qed.
Lemma returns_eq {A} (m : outcome A) x (Q : A -> Prop) : m = Ret x -> Q x -> returns m Q.
Proof. by exists x. Qed.
Lemma returns_bind {A B} (m : outcome A) (k : A -> outcome B) Q :
  returns m (fun x => returns (k x) Q) -> returns (obind m k) Q.
Proof. intros (x & -> & H). exact H. Qed.
Lemma returns_mono {A} (m : outcome A) (P Q : A -> Prop) : returns m P -> (forall x, P x -> Q x) -> returns m Q.
Proof. intros (x & -> & H) HPQ. exists x. auto. Qed.
Lemma returns_Ret {A} (x : A) (Q : A -> Prop) : returns (Ret x) Q -> Q x.
Proof. by intros (y & [= ->] & H). Qed.

(** Run the first step of the program with a lemma about it. *)
Tactic Notation "rstep" uconstr(H) := apply returns_bind; eapply returns_mono; [eapply H | cbv beta].
(** ** Integer lemmas *)

Create HintDb rust discriminated.

Lemma pow2_pos w : 0 <= w -> 0 < 2 ^ w.
Proof. intros. apply Z.pow_pos_nonneg; lia. Qed.

Lemma wrap_range w z : 0 <= w -> uint w (wrap w z).
Proof. intros. apply Z.mod_pos_bound, pow2_pos; done. Qed.

Lemma wrap_small w z : uint w z -> wrap w z = z.
Proof. intros. by apply Z.mod_small. Qed.

Lemma uint_weaken w w' z : uint w z -> w <= w' -> uint w' z.
Proof.
  intros [H0 H1] Hw. split; [done|].
  eapply Z.lt_le_trans; [exact H1|]. apply Z.pow_le_mono_r; lia.
Qed.

Lemma checked_add_Some w a b c :
  checked_add w a b = Some c <-> c = a + b /\ a + b < 2 ^ w.
Proof. unfold checked_add. zcases; intuition (congruence || lia). Qed.

Lemma checked_sub_Some a b c : checked_sub a b = Some c <-> c = a - b /\ b <= a.
Proof. unfold checked_sub. zcases; intuition (congruence || lia). Qed.

Lemma checked_sub_None a b : checked_sub a b = None <-> a < b.
Proof. unfold checked_sub. zcases; intuition (congruence || lia). Qed.

Lemma checked_mul_Some w a b c :
  checked_mul w a b = Some c <-> c = a * b /\ a * b < 2 ^ w.
Proof. unfold checked_mul. zcases; intuition (congruence || lia). Qed.

Lemma add_c_Ret w a b : a + b < 2 ^ w -> add_c w a b = Ret (a + b).
Proof. intros. unfold add_c. by rewrite (proj2 (Z.ltb_lt _ _)). Qed.

Lemma sub_c_Ret a b : b <= a -> sub_c a b = Ret (a - b).
Proof. intros. unfold sub_c. by rewrite (proj2 (Z.leb_le _ _)). Qed.

Lemma land_shiftl_low a b n :
  0 <= n -> 0 <= b < 2 ^ n -> Z.land (Z.shiftl a n) b = 0.
Proof.
  intros Hn Hb. apply Z.bits_inj'. intros i Hi.
  rewrite Z.land_spec, Z.bits_0.
  destruct (Z.lt_ge_cases i n) as [Hlt|Hge].
  - by rewrite Z.shiftl_spec_low.
  - rewrite andb_comm.
    rewrite <- (Z.mod_small b (2 ^ n)), Z.mod_pow2_bits_high by lia. done.
Qed.

(** A number written in the low [n] bits is disjoint from one shifted past
    them, so [lor] is addition. *)
Lemma lor_shiftl_add a b n :
  0 <= n -> 0 <= b < 2 ^ n -> Z.lor (Z.shiftl a n) b = a * 2 ^ n + b.
Proof.
  intros Hn Hb. rewrite <- Z.lxor_lor by by apply land_shiftl_low.
  rewrite <- Z.add_nocarry_lxor by by apply land_shiftl_low.
  by rewrite Z.shiftl_mul_pow2.
Qed.

Lemma land_ones_mod a n : 0 <= n -> Z.land a (2 ^ n - 1) = a mod 2 ^ n.
Proof.
  intros. replace (2 ^ n - 1) with (Z.ones n) by (rewrite Z.ones_equiv; lia).
  by apply Z.land_ones.
Qed.

(** ** Vector lemmas: access at the boundary of an append *)

Lemma vlen_app {A} (l k : list A) : vlen (l ++ k) = vlen l + vlen k.
Proof. unfold vlen. rewrite length_app. lia. Qed.
Lemma vlen_cons {A} (x : A) l : vlen (x :: l) = 1 + vlen l.
Proof. unfold vlen. simpl. lia. Qed.
Lemma vlen_nonneg {A} (l : list A) : 0 <= vlen l.
Proof. unfold vlen. lia. Qed.

Lemma vget_app {A} (l k : list A) x : vget (l ++ x :: k) (vlen l) = Some x.
Proof.
  unfold vget. rewrite vlen_app, vlen_cons. pose proof (vlen_nonneg l). pose proof (vlen_nonneg k).
  zcases. simpl. unfold vlen. rewrite Nat2Z.id. by apply list_lookup_middle.
Qed.

Lemma vget_end {A} (l : list A) i : vlen l <= i -> vget l i = None.
Proof. intros. unfold vget. zcases; by rewrite ?andb_false_r. Qed.

Lemma vget_Some {A} (l : list A) i : 0 <= i < vlen l -> is_Some (vget l i).
Proof.
  intros H. unfold vget, vlen in *. zcases. cbn [andb]. apply lookup_lt_is_Some. lia.
Qed.

Lemma vset_spec {A} (l : list A) i x :
  0 <= i < vlen l ->
  exists l', vset l i x = Ret l' /\ vlen l' = vlen l
    /\ forall j, vget l' j = if decide (j = i) then Some x else vget l j.
Proof.
  intros H. unfold vset. rewrite (proj2 (Z.ltb_lt _ _)) by lia. eexists. split; [done |].
  unfold vget, vlen in *. rewrite length_insert. split; [done |]. intros j. case_decide as Hj; [subst j |].
  - zcases. cbn [andb]. apply list_lookup_insert_eq. lia.
  - zcases; try done. cbn [andb]. apply list_lookup_insert_ne. lia.
Qed.

Lemma vget_snoc {A} (l : list A) x j : vget (l ++ [x]) j = if decide (j = vlen l) then Some x else vget l j.
Proof.
  case_decide as Hj; [subst j; apply vget_app |]. unfold vget. rewrite vlen_app. change (vlen [x]) with 1.
  destruct (Z.leb_spec 0 j), (Z.ltb_spec j (vlen l + 1)), (Z.ltb_spec j (vlen l)); cbn [andb]; try done; try lia.
  apply lookup_app_l. unfold vlen in *. lia.
Qed.

Lemma vset_app {A} (l k : list A) x y : vset (l ++ x :: k) (vlen l) y = Ret (l ++ y :: k).
Proof.
  unfold vset. rewrite vlen_app, vlen_cons. pose proof (vlen_nonneg k). zcases.
  f_equal. unfold vlen. rewrite Nat2Z.id. by rewrite insert_app_r_alt, Nat.sub_diag by lia.
Qed.

Lemma vinsert_app {A} (l k : list A) x : vinsert (l ++ k) (vlen l) x = Ret (l ++ x :: k).
Proof.
  unfold vinsert. rewrite vlen_app. pose proof (vlen_nonneg k). zcases.
  unfold vlen. rewrite Nat2Z.id. by rewrite take_app_length, drop_app_length.
Qed.

Lemma vremove_app {A} (l k : list A) x : vremove (l ++ x :: k) (vlen l) = l ++ k.
Proof.
  unfold vremove. rewrite vlen_app, vlen_cons. pose proof (vlen_nonneg k). zcases.
  unfold vlen. rewrite Nat2Z.id. rewrite take_app_length. f_equal.
  replace (S (length l)) with (length (l ++ [x])) by (rewrite length_app; simpl; lia).
  by rewrite (cons_middle x l k), app_assoc, drop_app_length.
Qed.

Lemma vdrain_app {A} (l m k : list A) :
  vdrain (l ++ m ++ k) (vlen l) (vlen l + vlen m) = Ret (l ++ k).
Proof.
  unfold vdrain. rewrite !vlen_app. pose proof (vlen_nonneg m). pose proof (vlen_nonneg k).
  zcases. simpl. unfold vlen. rewrite <- Nat2Z.inj_add, !Nat2Z.id.
  rewrite take_app_length. rewrite <- length_app, app_assoc. by rewrite drop_app_length.
Qed.

Lemma take_vlen_app {A} (l k : list A) : take (Z.to_nat (vlen l)) (l ++ k) = l.
Proof. unfold vlen. rewrite Nat2Z.id. apply take_app_length. Qed.
Lemma drop_vlen_app {A} (l k : list A) : drop (Z.to_nat (vlen l)) (l ++ k) = k.
Proof. unfold vlen. rewrite Nat2Z.id. apply drop_app_length. Qed.
