(* ===== verification/Time.v ===== *)
(** * Time

    [time/timestamp.rs] and [time/timer.rs], over the standard library's
    [Duration].  A duration is its number of nanoseconds, a timestamp its number
    of microseconds since the epoch of the clock, never zero. *)
From S2P Require Import Prelude.

(** [core::time::Duration]: below [2^64] seconds. *)
Module Duration.
Definition MAX : Z := 2 ^ 64 * 1000000000 - 1.
Definition ZERO : Z := 0.
Definition from_secs (s : Z) : Z := s * 1000000000.
Definition from_millis (m : Z) : Z := m * 1000000.
Definition from_micros (m : Z) : Z := m * 1000.
Definition from_nanos (n : Z) : Z := n.
Definition as_nanos (d : Z) : Z := d.
Definition as_micros (d : Z) : Z := d / 1000.
Definition as_millis (d : Z) : Z := d / 1000000.
Definition checked_add (a b : Z) : option Z := if a + b <=? MAX then Some (a + b) else None.
Definition checked_sub (a b : Z) : option Z := if b <=? a then Some (a - b) else None.
Definition add (a b : Z) : outcome Z := unwrap (checked_add a b).
Definition sub (a b : Z) : outcome Z := unwrap (checked_sub a b).
Definition mul (n d : Z) : outcome Z := if n * d <=? MAX then Ret (n * d) else Panic.
Definition abs_diff (a b : Z) : Z := Z.abs (a - b).
End Duration.

(** [K_GRANULARITY]. *)
Definition K_GRANULARITY : Z := Duration.from_millis 1.

Module Timestamp.
Definition ONE_MICROSECOND : Z := 1.

Definition from_duration_impl (duration : Z) : outcome Z :=
  let! _ := rassert (Duration.as_micros duration <=? umax 64) in
  let micros := wrap 64 (Duration.as_micros duration) in
  Ret (if micros =? 0 then ONE_MICROSECOND else micros).

Definition as_duration_impl (self : Z) : Z := Duration.from_micros self.

Definition checked_add (self duration : Z) : outcome (option Z) :=
  match Duration.checked_add (as_duration_impl self) duration with
  | Some d => let! t := from_duration_impl d in Ret (Some t)
  | None => Ret None
  end.
Definition checked_sub (self duration : Z) : outcome (option Z) :=
  match Duration.checked_sub (as_duration_impl self) duration with
  | Some d => let! t := from_duration_impl d in Ret (Some t)
  | None => Ret None
  end.
Definition saturating_duration_since (self earlier : Z) : outcome Z :=
  let! d := checked_sub self (as_duration_impl earlier) in
  Ret (match d with Some t => as_duration_impl t | None => 0 end).

(** The comparison is at the granularity of timers. *)
Definition has_elapsed (self now : Z) : outcome bool :=
  let! now := add_c 64 now (Duration.as_micros K_GRANULARITY) in
  Ret (self <? now).

Definition add (self rhs : Z) : outcome Z :=
  let! d := Duration.add (as_duration_impl self) rhs in from_duration_impl d.
(** [self - rhs] of two timestamps. *)
Definition sub (self rhs : Z) : outcome Z :=
  Duration.sub (as_duration_impl self) (as_duration_impl rhs).
Definition sub_duration (self rhs : Z) : outcome Z :=
  let! d := Duration.sub (as_duration_impl self) rhs in from_duration_impl d.
End Timestamp.

(** A timestamp of a clock that runs for less than [2^63] microseconds. *)
Definition timestamp_ok (t : Z) : Prop := 1 <= t < 2 ^ 63.

Module Timer.
Record t := mk_timer { expiration : option Z }.

Definition default : t := mk_timer None.
Definition set (self : t) (time : Z) : t := mk_timer (Some time).
Definition cancel (self : t) : t := mk_timer None.
Definition is_expired (self : t) (current_time : Z) : outcome bool :=
  match expiration self with
  | Some timeout => Timestamp.has_elapsed timeout current_time
  | None => Ret false
  end.
Definition is_armed (self : t) : bool := match expiration self with Some _ => true | None => false end.
(** [poll_expiration]: whether it was ready, and the timer. *)
Definition poll_expiration (self : t) (current_time : Z) : outcome (bool * t) :=
  let! expired := is_expired self current_time in
  Ret (if expired then (true, cancel self) else (false, self)).
End Timer.

Lemma timestamp_add_wide t d :
  timestamp_ok t -> 0 <= d <= Duration.from_micros (2 ^ 62) -> Timestamp.add t d = Ret (t + d / 1000).
Proof.
  unfold timestamp_ok, Duration.from_micros. intros Ht Hd.
  unfold Timestamp.add, Duration.add, Duration.checked_add, Timestamp.as_duration_impl, Duration.from_micros.
  destruct (Z.leb_spec (t * 1000 + d) Duration.MAX); [| unfold Duration.MAX in *; lia]. cbn [unwrap obind].
  unfold Timestamp.from_duration_impl, Duration.as_micros, umax.
  rewrite Z.div_add_l by lia. pose proof (Z.div_pos d 1000 ltac:(lia) ltac:(lia)).
  assert (d / 1000 <= 2 ^ 62) by (apply Z.div_le_upper_bound; lia).
  destruct (Z.leb_spec (t + d / 1000) (2 ^ 64 - 1)); [| lia]. cbn [rassert obind].
  rewrite wrap_small by (unfold uint; lia). destruct (Z.eqb_spec (t + d / 1000) 0); [lia | done].
Qed.

Lemma timestamp_add_ok t d :
  timestamp_ok t -> 0 <= d <= Duration.from_secs 1000000 ->
  Timestamp.add t d = Ret (t + d / 1000).
Proof. intros. apply timestamp_add_wide; [done |]. unfold Duration.from_secs, Duration.from_micros in *. lia. Qed.

Lemma timer_poll_ok timer now :
  timestamp_ok now ->
  exists ready timer', Timer.poll_expiration timer now = Ret (ready, timer')
    /\ (ready = true -> timer' = Timer.default) /\ (ready = false -> timer' = timer)
    /\ (ready = true <-> exists t, Timer.expiration timer = Some t /\ t < now + 1000).
Proof.
  intros Hnow. unfold Timer.poll_expiration, Timer.is_expired, Timestamp.has_elapsed.
  change (Duration.as_micros K_GRANULARITY) with 1000. destruct (Timer.expiration timer) as [t |].
  - unfold timestamp_ok in Hnow. rewrite add_c_Ret by lia. cbn [obind].
    destruct (Z.ltb_spec t (now + 1000)); eexists _, _; (split; [reflexivity |]); split_and!; try done; naive_solver lia.
  - cbn [obind]. eexists _, _. split; [reflexivity |]. split_and!; naive_solver.
Qed.
