(* ===== verification/Codec.v ===== *)
(** * Byte codec (common/s2n-codec)

    The decoder is a function on the bytes that are left
    ([DecoderBuffer { bytes: &[u8] }] is the list of its bytes); the encoder is
    the trait [Encoder] with its two implementations, [EncoderBuffer] (a slice
    with a write position) and [EncoderLenEstimator] (counts only).  Lengths
    and positions ([usize], 64 bits) are integers, bytes are integers below
    256. *)

From stdpp Require Import strings.
From S2P Require Import Prelude.

Definition byte_ok (b : Z) : Prop := 0 <= b < 256.
Abbreviation bytes_ok := (Forall byte_ok).

Definition blen {A} (l : list A) : Z := Z.of_nat (length l).

(** ** Big-endian integers (byteorder's [NetworkEndian]) *)

Fixpoint be_bytes (n : nat) (v : Z) : list Z :=
  match n with
  | O => []
  | S m => Z.land (Z.shiftr v (8 * Z.of_nat m)) 255 :: be_bytes m v
  end.

Definition from_be (bs : list Z) : Z :=
  fold_left (fun acc b => Z.lor (Z.shiftl acc 8) b) bs 0.

(** ** Decoder *)
Module Decoder.

Inductive DecoderError : Type :=
| UnexpectedEof (n : Z)
| UnexpectedBytes (n : Z)
| LengthCapacityExceeded
| InvariantViolation (msg : string).

(** [DecoderBufferResult<T>]: the value and the bytes that are left. *)
Abbreviation decoded A := (result (A * list Z) DecoderError).

Definition ensure_len (buf : list Z) (len : Z) : result unit DecoderError :=
  if blen buf <? len then Err (UnexpectedEof len) else Ok tt.

Definition ensure_empty (buf : list Z) : result unit DecoderError :=
  if blen buf =? 0 then Ok tt else Err (UnexpectedBytes (blen buf)).

Definition decode_slice (buf : list Z) (count : Z) : decoded (list Z) :=
  let? _ := ensure_len buf count in
  Ok (take (Z.to_nat count) buf, drop (Z.to_nat count) buf).

Definition skip (buf : list Z) (count : Z) : result (list Z) DecoderError :=
  let? '(_, buf) := decode_slice buf count in
  Ok buf.

Definition peek_byte (buf : list Z) (index : Z) : result Z DecoderError :=
  if index <? blen buf then
    match buf !! Z.to_nat index with
    | Some b => Ok b
    | None => Err (UnexpectedEof index)
    end
  else Err (UnexpectedEof index).

Definition peek_range (buf : list Z) (start end_ : Z) : result (list Z) DecoderError :=
  if (start <=? end_) && (end_ <=? blen buf)
  then Ok (take (Z.to_nat (end_ - start)) (drop (Z.to_nat start) buf))
  else Err (UnexpectedEof end_).

(** [u8], [u16], [u24], [u32], [u48], [u64], [u128]: [size] bytes, network
    byte order. *)
Definition decode_uint (size : nat) (buf : list Z) : decoded Z :=
  let? '(value, buf) := decode_slice buf (Z.of_nat size) in
  Ok (from_be value, buf).

Section WithLength.
(** The [Length] type of a length-prefixed value: its decoder; the conversion
    to [usize] fails above [2^64 - 1]. *)
Variable decode_length : list Z -> decoded Z.

Definition usize_try_from (len : Z) : result Z DecoderError :=
  if len <? 2 ^ 64 then Ok len else Err LengthCapacityExceeded.

Definition decode_slice_with_len_prefix (buf : list Z) : decoded (list Z) :=
  let? '(len, buf) := decode_length buf in
  let? len := usize_try_from len in
  decode_slice buf len.

Definition skip_with_len_prefix (buf : list Z) : result (list Z) DecoderError :=
  let? '(len, buf) := decode_length buf in
  let? len := usize_try_from len in
  skip buf len.

Definition decode_with_len_prefix {T} (decode_value : list Z -> decoded T)
    (buf : list Z) : decoded T :=
  let? '(slice, buf) := decode_slice_with_len_prefix buf in
  let? '(value, slice) := decode_value slice in
  let? _ := ensure_empty slice in
  Ok (value, buf).
End WithLength.

Definition decode_exact {T} (decode_value : list Z -> decoded T) (buf : list Z)
    : result T DecoderError :=
  let? '(value, remaining) := decode_value buf in
  if blen remaining =? 0 then Ok value else Err (UnexpectedBytes (blen remaining)).

(** [Option<T>]: absent exactly when no byte is left. *)
Definition decode_option {T} (decode_value : list Z -> decoded T) (buf : list Z)
    : decoded (option T) :=
  if blen buf =? 0 then Ok (None, buf)
  else
    let? '(value, buf) := decode_value buf in
    Ok (Some value, buf).

End Decoder.
Export Decoder.

(** ** Encoder *)

(** The trait [Encoder].  The closure [write] of [write_sized len write]
    receives a pointer to the current write position; it is a function on all
    the memory behind that pointer, since the code writes through a raw pointer
    and may reach past the [len] bytes it is given. *)
Class Encoder (E : Type) := {
  write_sized : Z -> (list Z -> list Z) -> E -> outcome E;
  write_slice : list Z -> E -> outcome E;
  write_repeated : Z -> Z -> E -> outcome E;
  capacity : E -> Z;
  enc_len : E -> Z
}.

Definition remaining_capacity {E} `{Encoder E} (e : E) : Z :=
  saturating_sub (capacity e) (enc_len e).

(** Copy [src] over the front of [dst]. *)
Definition overwrite (src dst : list Z) : list Z := src ++ drop (length src) dst.

Record EncoderBuffer := mk_eb { eb_bytes : list Z; eb_position : Z }.

Module EncoderBufferOps.

Definition new (bytes : list Z) : EncoderBuffer := mk_eb bytes 0.

Definition set_position (position : Z) (eb : EncoderBuffer) : outcome EncoderBuffer :=
  let! _ := rassert (position <=? blen (eb_bytes eb)) in
  Ret (mk_eb (eb_bytes eb) position).

Definition advance_position (offset : Z) (eb : EncoderBuffer) : outcome EncoderBuffer :=
  let! position := add_c 64 (eb_position eb) offset in
  set_position position eb.

Definition eb_remaining (eb : EncoderBuffer) : Z :=
  saturating_sub (blen (eb_bytes eb)) (eb_position eb).

Definition assert_capacity (len : Z) (eb : EncoderBuffer) : outcome unit :=
  rassert (len <=? eb_remaining eb).

Definition eb_write_sized (len : Z) (write : list Z -> list Z) (eb : EncoderBuffer)
    : outcome EncoderBuffer :=
  let! _ := assert_capacity len eb in
  let! end_ := add_c 64 (eb_position eb) len in
  let p := Z.to_nat (eb_position eb) in
  Ret (mk_eb (take p (eb_bytes eb) ++ write (drop p (eb_bytes eb))) end_).

Definition eb_write_slice (slice : list Z) (eb : EncoderBuffer) : outcome EncoderBuffer :=
  eb_write_sized (blen slice) (overwrite slice) eb.

Definition eb_write_repeated (count value : Z) (eb : EncoderBuffer) : outcome EncoderBuffer :=
  eb_write_sized count (overwrite (replicate (Z.to_nat count) value)) eb.

#[export] Instance Encoder_EncoderBuffer : Encoder EncoderBuffer := {|
  write_sized := eb_write_sized;
  write_slice := eb_write_slice;
  write_repeated := eb_write_repeated;
  capacity eb := blen (eb_bytes eb);
  enc_len eb := eb_position eb
|}.

End EncoderBufferOps.
Export EncoderBufferOps.

Record EncoderLenEstimator := mk_est { est_capacity : Z; est_len : Z }.

Module EstimatorOps.

Definition new (capacity : Z) : EncoderLenEstimator := mk_est capacity 0.

Definition overflowed (est : EncoderLenEstimator) : bool :=
  est_capacity est <? est_len est.

Definition est_add (n : Z) (est : EncoderLenEstimator) : outcome EncoderLenEstimator :=
  let! len := add_c 64 (est_len est) n in
  Ret (mk_est (est_capacity est) len).

#[export] Instance Encoder_Estimator : Encoder EncoderLenEstimator := {|
  write_sized len _ := est_add len;
  write_slice slice := est_add (blen slice);
  write_repeated count _ := est_add count;
  capacity := est_capacity;
  enc_len := est_len
|}.

End EstimatorOps.
Export (hints) EstimatorOps.

(** ** Values with an encoding *)

(** What [EncoderValue::encode] is: a program that writes to any encoder. *)
Definition encoder_prog : Type := forall E, Encoder E -> E -> outcome E.

Definition enc_nop : encoder_prog := fun E _ e => Ret e.
Definition enc_seq (p q : encoder_prog) : encoder_prog :=
  fun E H e => let! e := p E H e in q E H e.
Infix ";;;" := enc_seq (at level 60, right associativity) : rust_scope.

Definition enc_slice (slice : list Z) : encoder_prog := fun E _ => write_slice slice.
Definition enc_repeated (count value : Z) : encoder_prog :=
  fun E _ => write_repeated count value.
(** [u8] .. [u128]: [size] bytes, network byte order. *)
Definition enc_uint (size : nat) (v : Z) : encoder_prog :=
  fun E _ => write_sized (Z.of_nat size) (overwrite (be_bytes size v)).
(** [Option<T>]: nothing for [None]. *)
Definition enc_option {T} (p : T -> encoder_prog) (o : option T) : encoder_prog :=
  match o with Some v => p v | None => enc_nop end.

(** [EncoderValue::encoding_size_for_encoder] and [encoding_size] (the
    provided methods): run the encoder on an estimator. *)
Definition encoding_size_with (capacity : Z) (p : encoder_prog) : outcome Z :=
  let! est := p _ _ (EstimatorOps.new capacity) in
  Ret (est_len est).
Definition encoding_size (p : encoder_prog) : outcome Z := encoding_size_with (umax 64) p.

(** [EncoderValue::encode_with_len_prefix::<Len, _>]: [enc_len_prefix] is
    [Len::try_from(len)] with [Len]'s encoder, [None] for a failed conversion. *)
Definition encode_with_len_prefix (enc_len_prefix : Z -> option encoder_prog)
    (p : encoder_prog) : encoder_prog :=
  fun E H e =>
    let! len := encoding_size_with (remaining_capacity e) p in
    let! q := unwrap (enc_len_prefix len) in
    let! e := q E H e in
    p E H e.

(** [EncoderValue::encode_to_vec]. *)
Definition encode_to_vec (p : encoder_prog) : outcome (list Z) :=
  let! len := encoding_size p in
  let! eb := p _ _ (EncoderBufferOps.new (replicate (Z.to_nat len) 0)) in
  Ret (eb_bytes eb).

(** ** Specification of encoders

    [encodes_as p bs]: on every encoder with room for them, [p] appends the
    bytes [bs] after the ones already written, and nothing else is observable
    (the memory past the write position may change); the estimator counts
    [bs]. *)
Definition eb_wf (eb : EncoderBuffer) : Prop :=
  0 <= eb_position eb <= blen (eb_bytes eb) /\ blen (eb_bytes eb) < 2 ^ 63.

Definition written (eb : EncoderBuffer) : list Z :=
  take (Z.to_nat (eb_position eb)) (eb_bytes eb).

Definition appended (eb : EncoderBuffer) (bs : list Z) (eb' : EncoderBuffer) : Prop :=
  eb_wf eb' /\ blen (eb_bytes eb') = blen (eb_bytes eb)
  /\ written eb' = written eb ++ bs.

Definition encodes_as (p : encoder_prog) (bs : list Z) : Prop :=
  (forall eb, eb_wf eb -> blen bs <= eb_remaining eb ->
     exists eb', p _ _ eb = Ret eb' /\ appended eb bs eb')
  /\ (forall est, est_len est + blen bs < 2 ^ 64 ->
     p _ _ est = Ret (mk_est (est_capacity est) (est_len est + blen bs))).

(** A type with a decoder and an encoder that fit: [wire] is the encoding, and
    decoding it gives the value back and leaves what follows. *)
Class CodecSpec {A : Type} (valid : A -> Prop) (enc : A -> encoder_prog)
    (dec : list Z -> decoded A) (wire : A -> list Z) : Prop := {
  codec_encode : forall a, valid a -> encodes_as (enc a) (wire a);
  codec_decode : forall a rest, valid a -> dec (wire a ++ rest) = Ok (a, rest)
}.

(** ** Lemmas: bytes *)

Lemma blen_app {A} (l k : list A) : blen (l ++ k) = blen l + blen k.
Proof. unfold blen. rewrite length_app. lia. Qed.

Lemma blen_cons {A} (x : A) l : blen (x :: l) = 1 + blen l.
Proof. unfold blen. simpl. lia. Qed.

Lemma blen_nil {A} : blen (@nil A) = 0.
Proof. done. Qed.

Lemma blen_nonneg {A} (l : list A) : 0 <= blen l.
Proof. unfold blen. lia. Qed.

Lemma blen_replicate {A} n (x : A) : blen (replicate n x) = Z.of_nat n.
Proof. unfold blen. by rewrite length_replicate. Qed.

Lemma length_be_bytes n v : length (be_bytes n v) = n.
Proof. induction n; simpl; congruence. Qed.

Lemma blen_be_bytes n v : blen (be_bytes n v) = Z.of_nat n.
Proof. unfold blen. by rewrite length_be_bytes. Qed.

Create Rewrite HintDb blen.
#[export] Hint Rewrite @blen_app @blen_cons @blen_nil @blen_replicate blen_be_bytes : blen.

Lemma be_bytes_ok n v : bytes_ok (be_bytes n v).
Proof.
  induction n as [|n IH]; simpl; constructor; [|done].
  change 255 with (2 ^ 8 - 1). rewrite land_ones_mod by lia.
  apply Z.mod_pos_bound. lia.
Qed.

Lemma from_be_acc bs acc :
  bytes_ok bs ->
  fold_left (fun acc b => Z.lor (Z.shiftl acc 8) b) bs acc
  = acc * 2 ^ (8 * blen bs) + from_be bs.
Proof.
  unfold from_be. revert acc.
  induction bs as [|b bs IH] using rev_ind; intros acc Hbs; simpl; [unfold blen; simpl; lia|].
  apply Forall_app in Hbs as [Hbs Hb]. apply Forall_cons_1 in Hb as [Hb _].
  rewrite !fold_left_app; simpl.
  rewrite (IH acc Hbs), blen_app. change (blen [b]) with 1.
  rewrite !lor_shiftl_add by (unfold byte_ok in Hb; lia).
  replace (8 * (blen bs + 1)) with (8 * blen bs + 8) by lia.
  rewrite Z.pow_add_r by (pose proof (blen_nonneg bs); lia). lia.
Qed.

Lemma from_be_cons b bs :
  byte_ok b -> bytes_ok bs -> from_be (b :: bs) = b * 2 ^ (8 * blen bs) + from_be bs.
Proof.
  intros Hb Hbs. unfold from_be at 1. simpl.
  rewrite from_be_acc by done. done.
Qed.

Lemma from_be_range bs : bytes_ok bs -> 0 <= from_be bs < 2 ^ (8 * blen bs).
Proof.
  induction 1 as [|b bs Hb Hbs IH]; [by vm_compute|].
  rewrite from_be_cons by done. rewrite blen_cons.
  replace (8 * (1 + blen bs)) with (8 + 8 * blen bs) by lia.
  rewrite Z.pow_add_r by (pose proof (blen_nonneg bs); lia).
  unfold byte_ok in Hb. nia.
Qed.

Lemma be_bytes_mod n v : from_be (be_bytes n v) = v mod 2 ^ (8 * Z.of_nat n).
Proof.
  induction n as [|n IH]; [by rewrite Z.mod_1_r|].
  simpl be_bytes. rewrite from_be_cons; [|pose proof (be_bytes_ok (S n) v) as H; by inversion H|apply be_bytes_ok].
  rewrite IH, blen_be_bytes.
  change 255 with (2 ^ 8 - 1). rewrite land_ones_mod, Z.shiftr_div_pow2 by lia.
  replace (8 * Z.of_nat (S n)) with (8 * Z.of_nat n + 8) by lia.
  rewrite Z.pow_add_r, Z.rem_mul_r by lia. lia.
Qed.

Lemma from_be_be_bytes n v : uint (8 * Z.of_nat n) v -> from_be (be_bytes n v) = v.
Proof. intros. rewrite be_bytes_mod. by apply Z.mod_small. Qed.

(** The low [8 * n] bits determine the [n] bytes. *)
Lemma be_bytes_congr n v v' :
  v mod 2 ^ (8 * Z.of_nat n) = v' mod 2 ^ (8 * Z.of_nat n) -> be_bytes n v = be_bytes n v'.
Proof.
  intros H. assert (Hb : forall i, 0 <= i < 8 * Z.of_nat n -> Z.testbit v i = Z.testbit v' i).
  { intros i Hi. rewrite <- (Z.mod_pow2_bits_low v (8 * Z.of_nat n)) by lia.
    rewrite H. apply Z.mod_pow2_bits_low. lia. }
  clear H. induction n as [|n IH]; simpl; [done|]. f_equal.
  - change 255 with (2 ^ 8 - 1). rewrite !land_ones_mod by lia.
    apply Z.bits_inj'. intros i Hi.
    destruct (Z.lt_ge_cases i 8); [|by rewrite !Z.mod_pow2_bits_high by lia].
    rewrite !Z.mod_pow2_bits_low, !Z.shiftr_spec by lia. apply Hb. lia.
  - apply IH. intros i Hi. apply Hb. lia.
Qed.

Lemma be_bytes_from_be bs : bytes_ok bs -> be_bytes (length bs) (from_be bs) = bs.
Proof.
  induction 1 as [|b bs Hb Hbs IH]; [done|].
  rewrite from_be_cons by done. pose proof (from_be_range bs Hbs) as Hr.
  unfold byte_ok in Hb.
  assert (Hpos : 0 < 2 ^ (8 * blen bs)) by (apply pow2_pos; pose proof (blen_nonneg bs); lia).
  simpl. fold (blen bs). f_equal.
  - change 255 with (2 ^ 8 - 1).
    rewrite land_ones_mod, Z.shiftr_div_pow2 by (pose proof (blen_nonneg bs); lia).
    rewrite Z.div_add_l, (Z.div_small (from_be bs)), Z.add_0_r by lia.
    apply Z.mod_small. lia.
  - etransitivity; [|exact IH]. apply be_bytes_congr. fold (blen bs).
    by rewrite Z.add_comm, Z.mod_add by lia.
Qed.

(** ** Lemmas: decoding *)

Lemma decode_slice_app bs rest :
  decode_slice (bs ++ rest) (blen bs) = Ok (bs, rest).
Proof.
  unfold decode_slice, ensure_len. rewrite blen_app.
  pose proof (blen_nonneg rest). zcases. simpl. unfold blen. rewrite Nat2Z.id.
  by rewrite take_app_length, drop_app_length.
Qed.

Lemma decode_slice_ok buf n v rest :
  0 <= n -> decode_slice buf n = Ok (v, rest) -> buf = v ++ rest /\ blen v = n.
Proof.
  intros Hn. unfold decode_slice, ensure_len, blen. zcases; simpl; intros; rinv.
  rewrite take_drop, length_take. split; [done|]. lia.
Qed.

Lemma decode_slice_err buf n :
  blen buf < n -> decode_slice buf n = Err (UnexpectedEof n).
Proof. intros. unfold decode_slice, ensure_len. zcases. done. Qed.

Lemma decode_uint_app n v rest :
  uint (8 * Z.of_nat n) v -> decode_uint n (be_bytes n v ++ rest) = Ok (v, rest).
Proof.
  intros Hv. unfold decode_uint. rewrite <- (blen_be_bytes n v), decode_slice_app. simpl.
  by rewrite from_be_be_bytes.
Qed.

Lemma decode_uint_ok n buf v rest :
  bytes_ok buf -> decode_uint n buf = Ok (v, rest) ->
  buf = be_bytes n v ++ rest /\ uint (8 * Z.of_nat n) v /\ bytes_ok rest.
Proof.
  unfold decode_uint. intros Hbuf H. obind_inv. destruct a as [bs r]. rinv.
  apply decode_slice_ok in E as [-> Hlen]; [|lia]. apply Forall_app in Hbuf as [Hbs Hr].
  split_and!; [|rewrite <- Hlen; by apply from_be_range|done].
  unfold blen in Hlen. apply Nat2Z.inj in Hlen. subst n. by rewrite be_bytes_from_be.
Qed.

Lemma peek_byte_cons b rest : peek_byte (b :: rest) 0 = Ok b.
Proof. unfold peek_byte. rewrite blen_cons. pose proof (blen_nonneg rest). by zcases. Qed.

(** ** Lemmas: encoding *)

Lemma eb_remaining_wf eb : eb_wf eb -> eb_remaining eb = blen (eb_bytes eb) - eb_position eb.
Proof. unfold eb_wf, eb_remaining, saturating_sub. lia. Qed.

(** The one lemma on raw writes: a closure that puts [bs] at the write
    position appends [bs], whatever it does to the memory behind. *)
Lemma eb_write_sized_spec eb n write bs tail :
  eb_wf eb -> blen bs = n -> n <= eb_remaining eb ->
  write (drop (Z.to_nat (eb_position eb)) (eb_bytes eb)) = bs ++ tail ->
  length (bs ++ tail) = length (drop (Z.to_nat (eb_position eb)) (eb_bytes eb)) ->
  exists eb', eb_write_sized n write eb = Ret eb' /\ appended eb bs eb'.
Proof.
  intros Hwf <- Hrem Hw Hl. unfold eb_write_sized, assert_capacity, rassert, add_c.
  rewrite eb_remaining_wf in * by done. destruct Hwf as [Hp Hb]. zcases. simpl.
  eexists; split; [done|]. rewrite Hw. rewrite length_drop in Hl.
  set (p := Z.to_nat (eb_position eb)) in *.
  assert (Hp' : length (take p (eb_bytes eb)) = p)
    by (rewrite length_take; unfold p, blen in *; lia).
  assert (Hlen : blen (take p (eb_bytes eb) ++ bs ++ tail) = blen (eb_bytes eb))
    by (unfold blen in *; rewrite length_app, Hp', Hl; unfold p in *; lia).
  unfold appended, eb_wf, written; simpl. rewrite Hlen. pose proof (blen_nonneg bs).
  split_and!; try lia. fold p. rewrite app_assoc.
  replace (Z.to_nat (eb_position eb + blen bs)) with (length (take p (eb_bytes eb) ++ bs)).
  - apply take_app_length.
  - rewrite length_app, Hp'. unfold blen, p in *. lia.
Qed.

Lemma encodes_as_write (p : encoder_prog) bs :
  (forall eb, p _ _ eb = eb_write_sized (blen bs) (overwrite bs) eb) ->
  (forall est, p _ _ est = EstimatorOps.est_add (blen bs) est) ->
  encodes_as p bs.
Proof.
  intros Hp He. split.
  - intros eb Hwf Hrem. rewrite Hp.
    eapply eb_write_sized_spec; [done|done|done|reflexivity|].
    rewrite eb_remaining_wf in Hrem by done. destruct Hwf.
    rewrite length_app, !length_drop. unfold blen in *. lia.
  - intros est Hest. rewrite He. unfold EstimatorOps.est_add. by rewrite add_c_Ret.
Qed.

Lemma encodes_as_slice bs : encodes_as (enc_slice bs) bs.
Proof. by apply encodes_as_write. Qed.

Lemma encodes_as_repeated n v :
  0 <= n -> encodes_as (enc_repeated n v) (replicate (Z.to_nat n) v).
Proof.
  intros. apply encodes_as_write; intros; unfold enc_repeated; simpl;
    rewrite blen_replicate, Z2Nat.id by done; done.
Qed.

Lemma encodes_as_uint n v : encodes_as (enc_uint n v) (be_bytes n v).
Proof.
  apply encodes_as_write; intros; unfold enc_uint; simpl; by rewrite blen_be_bytes.
Qed.

Lemma encodes_as_nop : encodes_as enc_nop [].
Proof.
  split.
  - intros eb Hwf _. exists eb. split; [done|]. unfold appended. by rewrite app_nil_r.
  - intros [c l] _. unfold enc_nop. simpl. do 2 f_equal. unfold blen. simpl. lia.
Qed.

Lemma encodes_as_seq p q bs cs :
  encodes_as p bs -> encodes_as q cs -> encodes_as (p ;;; q) (bs ++ cs).
Proof.
  intros [Hp Hp'] [Hq Hq']. split.
  - intros eb Hwf Hrem. rewrite blen_app in Hrem.
    pose proof (blen_nonneg bs). pose proof (blen_nonneg cs).
    destruct (Hp eb Hwf) as (eb1 & E1 & Hwf1 & Hl1 & Hw1); [lia|].
    destruct (Hq eb1 Hwf1) as (eb2 & E2 & Hwf2 & Hl2 & Hw2).
    { rewrite eb_remaining_wf in * by done.
      assert (eb_position eb1 = eb_position eb + blen bs); [|lia].
      apply (f_equal blen) in Hw1. unfold written in Hw1. rewrite blen_app in Hw1.
      destruct Hwf, Hwf1. unfold blen in *. rewrite !length_take in Hw1. lia. }
    exists eb2. unfold enc_seq. rewrite E1; simpl. split; [done|].
    split_and!; [done|lia|]. by rewrite Hw2, Hw1, app_assoc.
  - intros est Hest. rewrite blen_app in Hest.
    pose proof (blen_nonneg bs). pose proof (blen_nonneg cs).
    unfold enc_seq. rewrite Hp' by lia. simpl. rewrite Hq' by (simpl; lia). simpl.
    do 2 f_equal. rewrite blen_app. lia.
Qed.

Lemma encodes_as_option {T} (p : T -> encoder_prog) (w : T -> list Z) o :
  (forall v, o = Some v -> encodes_as (p v) (w v)) ->
  encodes_as (enc_option p o) (from_option w [] o).
Proof. destruct o; simpl; [naive_solver|intros; apply encodes_as_nop]. Qed.

Lemma encoding_size_with_spec c p bs :
  encodes_as p bs -> blen bs < 2 ^ 64 -> encoding_size_with c p = Ret (blen bs).
Proof. intros [_ H] Hlt. unfold encoding_size_with. rewrite H by (simpl; lia). done. Qed.

Lemma encodes_as_len_prefix q_of p q ls bs :
  encodes_as p bs -> blen bs < 2 ^ 64 -> q_of (blen bs) = Some q -> encodes_as q ls ->
  encodes_as (encode_with_len_prefix q_of p) (ls ++ bs).
Proof.
  intros Hp Hlt Hq Hls. pose proof (encodes_as_seq _ _ _ _ Hls Hp) as [H1 H2].
  split; intros; unfold encode_with_len_prefix;
    rewrite (encoding_size_with_spec _ _ _ Hp Hlt); simpl; rewrite Hq; simpl; eauto.
Qed.

Lemma decode_slice_with_len_prefix_app dec ls bs rest :
  dec (ls ++ bs ++ rest) = Ok (blen bs, bs ++ rest) -> blen bs < 2 ^ 64 ->
  decode_slice_with_len_prefix dec (ls ++ bs ++ rest) = Ok (bs, rest).
Proof.
  intros Hd Hlt. unfold decode_slice_with_len_prefix. rewrite Hd. simpl.
  unfold usize_try_from. zcases. simpl. apply decode_slice_app.
Qed.

Lemma decode_with_len_prefix_app {T} dec (decv : list Z -> decoded T) ls bs rest v :
  dec (ls ++ bs ++ rest) = Ok (blen bs, bs ++ rest) -> blen bs < 2 ^ 64 ->
  decv bs = Ok (v, []) ->
  decode_with_len_prefix dec decv (ls ++ bs ++ rest) = Ok (v, rest).
Proof.
  intros. unfold decode_with_len_prefix.
  rewrite decode_slice_with_len_prefix_app by done. simpl.
  match goal with H : decv _ = _ |- _ => rewrite H end. done.
Qed.

(** A buffer allocated with the estimated size receives exactly the encoding. *)
Lemma encode_to_vec_spec p bs :
  encodes_as p bs -> blen bs < 2 ^ 63 -> encode_to_vec p = Ret bs.
Proof.
  intros Hp Hlt. unfold encode_to_vec, encoding_size.
  rewrite (encoding_size_with_spec _ _ _ Hp) by lia. simpl.
  pose proof (blen_nonneg bs).
  assert (Hl : blen (replicate (Z.to_nat (blen bs)) 0) = blen bs)
    by (rewrite blen_replicate; lia).
  destruct (proj1 Hp (EncoderBufferOps.new (replicate (Z.to_nat (blen bs)) 0)))
    as (eb & E & Hwf & Hlen & Hw).
  - unfold eb_wf. simpl. lia.
  - unfold eb_remaining, saturating_sub. simpl. lia.
  - rewrite E. simpl. f_equal. unfold written in Hw. simpl in *.
    pose proof (f_equal length Hw) as Hn. rewrite length_take in Hn.
    rewrite take_ge in Hw; [done|]. destruct Hwf. unfold blen in *. lia.
Qed.

(** Encoders that run alike encode alike. *)
Lemma encodes_as_ext (p q : encoder_prog) bs :
  (forall E H e, p E H e = q E H e) -> encodes_as q bs -> encodes_as p bs.
Proof. intros Hpq [H1 H2]. split; intros; rewrite Hpq; eauto. Qed.

(** ** Decoding untrusted bytes

    A decoder run on arbitrary bytes: it returns (an error or a value), never
    panics, a value satisfies [valid], and what is left is a suffix of the
    input. *)
Definition consumes {A} (valid : A -> Prop) (buf : list Z) (d : outcome (decoded A)) : Prop :=
  match d with
  | Ret (Ok (a, rest)) => valid a /\ exists pre, buf = pre ++ rest
  | Ret (Err _) => True
  | Panic => False
  end.

Lemma consumes_bind {A B} (V : A -> Prop) (W : B -> Prop) buf d f :
  bytes_ok buf -> consumes V buf d ->
  (forall a rest, V a -> bytes_ok rest -> blen rest <= blen buf -> consumes W rest (f (a, rest))) ->
  consumes W buf (orbind d f).
Proof.
  intros Hb. destruct d as [[[a rest] | err] |]; [| done | done].
  intros [Ha [pre ->]] Hf. apply Forall_app in Hb as [_ Hr]. rewrite blen_app in Hf.
  specialize (Hf a rest Ha Hr ltac:(pose proof (blen_nonneg pre); lia)). simpl.
  destruct (f (a, rest)) as [[[b rest'] | err] |]; [| done | done].
  destruct Hf as [Hw [pre' ->]]. split; [done |]. exists (pre ++ pre'). by rewrite app_assoc.
Qed.

(** A check that leaves the bytes alone. *)
Lemma consumes_guard {A B} (V : A -> Prop) buf (d : outcome (result B DecoderError)) f :
  (forall b, d = Ret (Ok b) -> consumes V buf (f b)) -> d <> Panic ->
  consumes V buf (orbind d f).
Proof. destruct d as [[b | err] |]; [| done | done]. intros Hf _. by apply Hf. Qed.

Lemma consumes_ret {A} (V : A -> Prop) buf a : V a -> consumes V buf (Ret (Ok (a, buf))).
Proof. split; [done |]. by exists []. Qed.

Lemma consumes_weaken {A} (V W : A -> Prop) buf d :
  (forall a, V a -> W a) -> consumes V buf d -> consumes W buf d.
Proof. destruct d as [[[a rest] | err] |]; [| done | done]. intros HVW [H ?]. by split; [apply HVW |]. Qed.

Lemma consumes_slice buf n :
  0 <= n -> bytes_ok buf ->
  consumes (fun bs => bytes_ok bs /\ blen bs = n) buf (Ret (decode_slice buf n)).
Proof.
  intros Hn Hb. destruct (decode_slice buf n) as [[v rest] |] eqn:Hd; [| done].
  apply decode_slice_ok in Hd as [-> Hv]; [| done]. apply Forall_app in Hb as [Hb _].
  split; [done |]. by exists v.
Qed.

Lemma consumes_uint n buf :
  bytes_ok buf -> consumes (uint (8 * Z.of_nat n)) buf (Ret (decode_uint n buf)).
Proof.
  intros Hb. destruct (decode_uint n buf) as [[v rest] |] eqn:Hd; [| done].
  apply decode_uint_ok in Hd as (-> & Hv & _); [| done]. split; [done |]. by eexists.
Qed.

(** The same for a decoder that consumes at least a byte, as one run in a loop
    has to. *)
Definition progresses {A} (valid : A -> Prop) (buf : list Z) (d : outcome (decoded A)) : Prop :=
  match d with
  | Ret (Ok (a, rest)) => valid a /\ exists pre, pre <> [] /\ buf = pre ++ rest
  | Ret (Err _) => True
  | Panic => False
  end.

Lemma progresses_cons {A} (V : A -> Prop) b buf d : consumes V buf d -> progresses V (b :: buf) d.
Proof.
  destruct d as [[[a rest] | err] |]; [| done | done]. intros [Ha [pre ->]].
  split; [done |]. by exists (b :: pre).
Qed.
