(* ===== verification/VarInt.v ===== *)
(** * Variable-length integers (quic/s2n-quic-core/src/varint)

    [VarInt(u64)] with its checked arithmetic, the lookup table of encodings
    (the RFC 9000 table and the branch-free one the code runs), the formatter
    that writes eight bytes but advances by the encoded length, and the
    decoder.  The target's byte order is the parameter [big_endian]: the table
    keeps its two-bit prefixes in memory order. *)

From S2P Require Import Prelude Codec.

Definition MAX_VARINT_VALUE : Z := 4611686018427387903.

(** [VarInt] is the [u64] it wraps; the type's invariant. *)
Definition varint_ok (v : Z) : Prop := 0 <= v <= MAX_VARINT_VALUE.

Module VarInt.

Inductive VarIntError : Type := mk_VarIntError.

Definition MAX : Z := MAX_VARINT_VALUE.
Definition ZERO : Z := 0.

Definition new (v : Z) : result Z VarIntError :=
  if MAX_VARINT_VALUE <? v then Err mk_VarIntError else Ok v.

Definition ok {A E} (r : result A E) : option A :=
  match r with Ok a => Some a | Err _ => None end.

Definition unwrap_or {A E} (r : result A E) (d : A) : A :=
  match r with Ok a => a | Err _ => d end.

Definition checked_add (self value : Z) : option Z :=
  match Prelude.checked_add 64 self value with
  | Some s => ok (new s)
  | None => None
  end.

Definition checked_add_usize (self value : Z) : option Z :=
  match ok (new value) with
  | Some value => checked_add self value
  | None => None
  end.

Definition saturating_add (self value : Z) : Z :=
  unwrap_or (new (Prelude.saturating_add 64 self value)) MAX.

Definition checked_sub (self value : Z) : option Z := Prelude.checked_sub self value.

Definition saturating_sub (self value : Z) : Z := Prelude.saturating_sub self value.

Definition checked_mul (self value : Z) : option Z :=
  match Prelude.checked_mul 64 self value with
  | Some s => ok (new s)
  | None => None
  end.

Definition saturating_mul (self value : Z) : Z :=
  unwrap_or (new (Prelude.saturating_mul 64 self value)) MAX.

Definition checked_div (self value : Z) : option Z := Prelude.checked_div self value.

(** The operators of [core::ops] ([debug_assertions] on). *)
Definition add (self rhs : Z) : outcome Z := unwrap (checked_add self rhs).
Definition add_usize (self rhs : Z) : outcome Z :=
  let! rhs := unwrap (ok (new rhs)) in unwrap (checked_add self rhs).
Definition sub (self rhs : Z) : outcome Z := sub_c self rhs.
Definition mul (self rhs : Z) : outcome Z := unwrap (checked_mul self rhs).
Definition mul_usize (self rhs : Z) : outcome Z :=
  let! rhs := unwrap (ok (new rhs)) in unwrap (checked_mul self rhs).
Definition div (self rhs : Z) : outcome Z :=
  if rhs =? 0 then Panic else Ret (self / rhs).
Definition rem (self rhs : Z) : outcome Z :=
  if rhs =? 0 then Panic else Ret (self mod rhs).

(** [TryFrom<u128>]. *)
Definition try_from_u128 (value : Z) : result Z VarIntError :=
  if MAX_VARINT_VALUE <? value then Err mk_VarIntError else Ok value.

End VarInt.

(** ** Byte order of the target *)
Section Endian.
Variable big_endian : bool.

(** [u64::swap_bytes], [u64::to_be], [u64::to_ne_bytes]. *)
Definition swap_bytes (x : Z) : Z := from_be (rev (be_bytes 8 x)).
Definition to_be (x : Z) : Z := if big_endian then x else swap_bytes x.
Definition to_ne_bytes (x : Z) : list Z :=
  if big_endian then be_bytes 8 x else rev (be_bytes 8 x).
End Endian.

(** ** The encoding table (table.rs) *)
Module Table.

Record Entry := mk_entry {
  two_bit : Z;
  two_bit_be : Z;
  len : Z;
  usable_bits : Z;
  shift : Z
}.

Record Formatted := mk_formatted { encoded_be : Z; f_len : Z }.

Section WithEndian.
Variable big_endian : bool.

Definition read_rfc (x : Z) : outcome Entry :=
  if x <=? 63 then Ret (mk_entry 0 0 1 6 56)
  else if x <=? 16383 then
    Ret (mk_entry 1 (to_be big_endian (Z.shiftl 1 62)) 2 14 48)
  else if x <=? 1073741823 then
    Ret (mk_entry 2 (to_be big_endian (Z.shiftl 2 62)) 4 30 32)
  else if x <=? 4611686018427387903 then
    Ret (mk_entry 3 (to_be big_endian (Z.shiftl 3 62)) 8 62 0)
  else Panic.

(** One row of the branch-free table: [if x <= max { .. }], with the two
    subtractions checked. *)
Definition table_row (x : Z) (row : Z * Z * Z * Z) (e : outcome Entry) : outcome Entry :=
  let '(_, length, usable, max_value) := row in
  let! e := e in
  if x <=? max_value then
    let! shift := sub_c 62 usable in
    let! tb := sub_c (two_bit e) 1 in
    let! tbe := sub_c (two_bit_be e) (to_be big_endian (Z.shiftl 1 62)) in
    Ret (mk_entry tb tbe length usable shift)
  else Ret e.

(** [call_table!]. *)
Definition table : list (Z * Z * Z * Z) :=
  [(2, 4, 30, 1073741823); (1, 2, 14, 16383); (0, 1, 6, 63)].

Definition read_optimized (x : Z) : outcome Entry :=
  fold_left (fun e row => table_row x row e) table
    (Ret (mk_entry 3 (to_be big_endian (Z.shiftl 3 62)) 8 62 0)).

#[global] Instance Entry_eq_dec : EqDecision Entry.
Proof. solve_decision. Defined.

Definition read (x : Z) : outcome Entry :=
  let! optimized := read_optimized x in
  let! rfc := read_rfc x in
  let! _ := rassert (bool_decide (optimized = rfc)) in
  Ret optimized.

Definition format (e : Entry) (value : Z) : Formatted :=
  mk_formatted
    (Z.lor (to_be big_endian (wrap 64 (Z.shiftl value (shift e)))) (two_bit_be e))
    (len e).

(** [Formatted::new]; the three variables of the loop are those of [read]. *)
Definition new_row (x : Z) (row : Z * Z * Z * Z) (acc : outcome (Z * Z * Z))
    : outcome (Z * Z * Z) :=
  let '(_, length, usable, max_value) := row in
  let! '(shift, two_bit, len) := acc in
  if x <=? max_value then
    let! shift := sub_c 62 usable in
    let! two_bit := sub_c two_bit (to_be big_endian (Z.shiftl 1 62)) in
    Ret (shift, two_bit, length)
  else Ret (shift, two_bit, len).

Definition invariants (f : Formatted) : outcome unit :=
  rassert ((f_len f =? 1) || (f_len f =? 2) || (f_len f =? 4) || (f_len f =? 8)).

Definition new (x : Z) : outcome Formatted :=
  let! _ := rassert (x <=? MAX_VARINT_VALUE) in
  let! '(shift_, two_bit_, len_) :=
    fold_left (fun acc row => new_row x row acc) table
      (Ret (0, to_be big_endian (Z.shiftl 3 62), 8)) in
  let! entry := read_rfc x in
  let! _ := rassert (shift entry =? shift_) in
  let! _ := rassert (two_bit_be entry =? two_bit_) in
  let! _ := rassert (len entry =? len_) in
  let v := mk_formatted
    (Z.lor (to_be big_endian (wrap 64 (Z.shiftl x shift_))) two_bit_) len_ in
  let! _ := invariants v in
  Ret v.

(** Writes all eight bytes of the formatted word and advances by its length. *)
Definition encode_oversized (f : Formatted) : encoder_prog := fun E _ e =>
  let! _ := rassert (8 <=? remaining_capacity e) in
  let! _ := invariants f in
  write_sized (f_len f) (overwrite (to_ne_bytes big_endian (encoded_be f))) e.

Definition encode_maybe_undersized (f : Formatted) : encoder_prog := fun E _ e =>
  let! _ := invariants f in
  write_sized (f_len f)
    (overwrite (take (Z.to_nat (f_len f)) (to_ne_bytes big_endian (encoded_be f)))) e.

Definition encode (f : Formatted) : encoder_prog := fun E H e =>
  let! _ := invariants f in
  if 8 <=? remaining_capacity e then encode_oversized f E H e
  else encode_maybe_undersized f E H e.

End WithEndian.
End Table.

(** ** [EncoderValue] and [DecoderValue] for [VarInt] *)
Module VarIntCodec.
Section WithEndian.
Variable big_endian : bool.

Definition encode (self : Z) : encoder_prog := fun E H e =>
  let! f := Table.new big_endian self in
  Table.encode big_endian f E H e.

Definition encoding_size (self : Z) : outcome Z :=
  let! f := Table.new big_endian self in
  Ret (Table.f_len f).

(** Overwrites a placeholder [self] with [replacement], keeping its length. *)
Definition encode_updated (self replacement : Z) : encoder_prog := fun E H e =>
  let! a := Table.read big_endian self in
  let! b := Table.read big_endian replacement in
  let! _ := rassert (Table.len b <=? Table.len a) in
  Table.encode_maybe_undersized big_endian (Table.format big_endian a replacement) E H e.
End WithEndian.

Definition decode (buffer : list Z) : decoded Z :=
  let? header := peek_byte buffer 0 in
  match Z.land (Z.shiftr header 6) 3 with
  | 0 =>
      let value := Z.land header (2 ^ 6 - 1) in
      let? buffer := skip buffer 1 in
      Ok (value, buffer)
  | 1 =>
      let? '(value, buffer) := decode_uint 2 buffer in
      Ok (Z.land value (2 ^ 14 - 1), buffer)
  | 2 =>
      let? '(value, buffer) := decode_uint 4 buffer in
      Ok (Z.land value (2 ^ 30 - 1), buffer)
  | _ =>
      let? '(value, buffer) := decode_uint 8 buffer in
      Ok (Z.land value (2 ^ 62 - 1), buffer)
  end.

(** The encoding of RFC 9000, section 16: [k] bytes, the two high bits hold
    the logarithm of [k], the value is in the low bits. *)
Definition wire_with (k prefix : Z) (v : Z) : list Z :=
  be_bytes (Z.to_nat k) (prefix * 2 ^ (8 * k - 2) + v).

Definition wire (v : Z) : list Z :=
  if v <=? 63 then wire_with 1 0 v
  else if v <=? 16383 then wire_with 2 1 v
  else if v <=? 1073741823 then wire_with 4 2 v
  else wire_with 8 3 v.

End VarIntCodec.

(** ** Lemmas: bytes of a word *)

Lemma be_bytes_lor n a b :
  be_bytes n (Z.lor a b) = zip_with Z.lor (be_bytes n a) (be_bytes n b).
Proof.
  induction n as [|n IH]; simpl; [done|].
  by rewrite IH, Z.shiftr_lor, Z.land_lor_distr_l.
Qed.

Lemma rev_zip_with {A B C} (f : A -> B -> C) l k :
  length l = length k -> zip_with f (rev l) (rev k) = rev (zip_with f l k).
Proof.
  revert k. induction l as [|x l IH]; intros [|y k] Hl; simplify_eq/=; [done|].
  rewrite zip_with_app by (rewrite !length_rev; lia). by rewrite IH.
Qed.

Lemma be_bytes_swap x : be_bytes 8 (swap_bytes x) = rev (be_bytes 8 x).
Proof.
  unfold swap_bytes. apply (be_bytes_from_be (rev (be_bytes 8 x))).
  apply Forall_rev, be_bytes_ok.
Qed.

(** Writing a word assembled in memory order is writing it big-endian. *)
Lemma to_ne_bytes_lor be a b :
  to_ne_bytes be (Z.lor (to_be be a) (to_be be b)) = be_bytes 8 (Z.lor a b).
Proof.
  unfold to_ne_bytes, to_be. destruct be; [done|].
  rewrite be_bytes_lor, !be_bytes_swap, rev_zip_with, rev_involutive by done.
  by rewrite be_bytes_lor.
Qed.

Lemma take_be_bytes k m w :
  take k (be_bytes (k + m) w) = be_bytes k (Z.shiftr w (8 * Z.of_nat m)).
Proof.
  induction k as [|k IH]; simpl; [done|].
  rewrite IH, Z.shiftr_shiftr by lia. do 3 f_equal. lia.
Qed.

(** ** The table *)

Lemma to_be_0 be : to_be be (Z.shiftl 0 62) = 0.
Proof. by destruct be. Qed.

Lemma read_optimized_eq be x :
  varint_ok x -> Table.read_optimized be x = Table.read_rfc be x.
Proof.
  intros [H0 H1]. unfold MAX_VARINT_VALUE in H1.
  unfold Table.read_optimized, Table.read_rfc, Table.table.
  cbn [fold_left]. unfold Table.table_row.
  zcases; destruct be; vm_compute; done.
Qed.

(** The row of the table a value falls in, as the length and the prefix. *)
Definition wire_len (v : Z) : Z * Z :=
  if v <=? 63 then (1, 0)
  else if v <=? 16383 then (2, 1)
  else if v <=? 1073741823 then (4, 2)
  else (8, 3).

Lemma wire_eq v : VarIntCodec.wire v = VarIntCodec.wire_with (wire_len v).1 (wire_len v).2 v.
Proof. unfold VarIntCodec.wire, wire_len. by zcases. Qed.

Lemma wire_len_cases v :
  varint_ok v ->
  exists k p, wire_len v = (k, p) /\ 0 <= v < 2 ^ (8 * k - 2) /\
    ((k = 1 /\ p = 0) \/ (k = 2 /\ p = 1) \/ (k = 4 /\ p = 2) \/ (k = 8 /\ p = 3)).
Proof.
  intros [H0 H1]. unfold MAX_VARINT_VALUE in H1. unfold wire_len.
  zcases; eexists _, _; (split; [reflexivity|]); (split; [lia|]); lia.
Qed.

Lemma read_rfc_spec be v k p :
  varint_ok v -> wire_len v = (k, p) ->
  Table.read_rfc be v
  = Ret (Table.mk_entry p (to_be be (Z.shiftl p 62)) k (8 * k - 2) (64 - 8 * k)).
Proof.
  intros [H0 H1] Hw. unfold MAX_VARINT_VALUE in H1. unfold wire_len in Hw.
  unfold Table.read_rfc. zcases; injection Hw as <- <-; destruct be; done.
Qed.

Lemma read_spec be v k p :
  varint_ok v -> wire_len v = (k, p) ->
  Table.read be v
  = Ret (Table.mk_entry p (to_be be (Z.shiftl p 62)) k (8 * k - 2) (64 - 8 * k)).
Proof.
  intros Hv Hw. unfold Table.read.
  rewrite read_optimized_eq, (read_rfc_spec be v k p) by done. cbn [obind].
  by rewrite bool_decide_eq_true_2.
Qed.

(** The first [k] bytes of a formatted word, for a prefix [p] and a value that
    fits in [8 * k - 2] bits. *)
Lemma formatted_bytes be k p v :
  k = 1 \/ k = 2 \/ k = 4 \/ k = 8 -> 0 <= p < 4 -> 0 <= v < 2 ^ (8 * k - 2) ->
  take (Z.to_nat k)
    (to_ne_bytes be (Z.lor (to_be be (wrap 64 (Z.shiftl v (64 - 8 * k))))
                           (to_be be (Z.shiftl p 62))))
  = VarIntCodec.wire_with k p v.
Proof.
  intros Hk Hp Hv.
  assert (Hpos : 0 < 2 ^ (64 - 8 * k)) by (apply pow2_pos; lia).
  assert (H62 : 2 ^ 62 = 2 ^ (8 * k - 2) * 2 ^ (64 - 8 * k))
    by (rewrite <- Z.pow_add_r by lia; f_equal; lia).
  rewrite to_ne_bytes_lor, wrap_small; [|split; rewrite Z.shiftl_mul_pow2 by lia; nia].
  rewrite Z.lor_comm, lor_shiftl_add by (rewrite ?Z.shiftl_mul_pow2 by lia; nia).
  replace 8%nat with (Z.to_nat k + (8 - Z.to_nat k))%nat by lia.
  rewrite take_be_bytes. unfold VarIntCodec.wire_with. f_equal.
  rewrite Z.shiftr_div_pow2, Z.shiftl_mul_pow2 by lia.
  replace (8 * Z.of_nat (8 - Z.to_nat k)) with (64 - 8 * k) by lia.
  rewrite H62, Z.mul_assoc, <- Z.mul_add_distr_r. apply Z.div_mul. lia.
Qed.

Lemma new_spec be v k p :
  varint_ok v -> wire_len v = (k, p) ->
  Table.new be v
  = Ret (Table.format be
      (Table.mk_entry p (to_be be (Z.shiftl p 62)) k (8 * k - 2) (64 - 8 * k)) v).
Proof.
  intros Hv Hw. unfold Table.new. rewrite (read_rfc_spec be v k p) by done.
  destruct Hv as [H0 H1]. unfold MAX_VARINT_VALUE in *. unfold rassert at 1.
  zcases. unfold Table.format. cbn [obind Table.len Table.shift Table.two_bit_be].
  assert (Hf : fold_left (fun acc row => Table.new_row be v row acc) Table.table
    (Ret (0, to_be be (Z.shiftl 3 62), 8)) = Ret (64 - 8 * k, to_be be (Z.shiftl p 62), k)).
  { unfold wire_len in Hw. unfold Table.table. cbn [fold_left]. unfold Table.new_row.
    zcases; injection Hw as <- <-; destruct be; vm_compute; done. }
  rewrite Hf. cbn [obind]. unfold rassert at 1 2 3. rewrite !Z.eqb_refl. cbn [obind].
  destruct (wire_len_cases v) as (k' & p' & Hw' & _ & Hk); [done|].
  rewrite Hw in Hw'. injection Hw' as <- <-.
  unfold Table.invariants. cbn [Table.f_len].
  destruct Hk as [[-> _]|[[-> _]|[[-> _]|[-> _]]]]; done.
Qed.

Lemma length_to_ne_bytes be x : length (to_ne_bytes be x) = 8%nat.
Proof. unfold to_ne_bytes. destruct be; rewrite ?length_rev, length_be_bytes; done. Qed.

(** Writing the whole word or only its first bytes: both append the same
    bytes. *)
Lemma encodes_as_formatted be f bs :
  Table.f_len f = 1 \/ Table.f_len f = 2 \/ Table.f_len f = 4 \/ Table.f_len f = 8 ->
  take (Z.to_nat (Table.f_len f)) (to_ne_bytes be (Table.encoded_be f)) = bs ->
  encodes_as (Table.encode be f) bs /\ encodes_as (Table.encode_maybe_undersized be f) bs.
Proof.
  intros Hk Hbs. set (k := Table.f_len f) in *. set (w := to_ne_bytes be (Table.encoded_be f)) in *.
  assert (Hinv : Table.invariants f = Ret tt)
    by (unfold Table.invariants; fold k; destruct Hk as [-> | [-> | [-> | ->]]]; done).
  assert (Hw : length w = 8%nat) by apply length_to_ne_bytes.
  assert (Hl : blen bs = k) by (subst bs; unfold blen; rewrite length_take; lia).
  assert (Hu : encodes_as (Table.encode_maybe_undersized be f) bs).
  { apply encodes_as_write; intros; unfold Table.encode_maybe_undersized;
      rewrite Hinv; cbn [obind]; fold k w; rewrite Hbs, Hl; done. }
  split; [|done]. split.
  - intros eb Hwf Hrem. unfold Table.encode. rewrite Hinv. cbn [obind].
    destruct (Z.leb_spec 8 (remaining_capacity eb)) as [H8|_]; [|by apply Hu].
    unfold Table.encode_oversized. rewrite (proj2 (Z.leb_le _ _) H8), Hinv. cbn [obind rassert].
    fold k w. change (remaining_capacity eb) with (eb_remaining eb) in H8.
    rewrite eb_remaining_wf in H8 by done. destruct Hwf as [Hwf1 Hwf2].
    eapply eb_write_sized_spec with (tail := drop (Z.to_nat k) w ++ drop 8 _); [done|done|lia| |].
    + unfold overwrite. rewrite Hw, <- Hbs, app_assoc, take_drop. reflexivity.
    + rewrite app_assoc, <- Hbs, take_drop, length_app, !length_drop, Hw.
      unfold blen in *. lia.
  - intros est Hest. unfold Table.encode. rewrite Hinv. cbn [obind].
    destruct (Z.leb_spec 8 (remaining_capacity est)) as [H8|_]; [|by apply Hu].
    unfold Table.encode_oversized. rewrite (proj2 (Z.leb_le _ _) H8), Hinv. cbn [obind rassert].
    fold k. rewrite Hl in *. simpl. unfold EstimatorOps.est_add. by rewrite add_c_Ret.
Qed.

Lemma encodes_as_varint be v :
  varint_ok v -> encodes_as (VarIntCodec.encode be v) (VarIntCodec.wire v).
Proof.
  intros Hv. destruct (wire_len_cases v Hv) as (k & p & Hw & Hv' & Hk).
  rewrite wire_eq, Hw. simpl.
  edestruct (encodes_as_formatted be) as [[H1 H2] _]; cycle 2.
  - split; intros; unfold VarIntCodec.encode; rewrite (new_spec be v k p) by done;
      cbn [obind]; [apply H1|apply H2]; done.
  - unfold Table.format. simpl. lia.
  - unfold Table.format. simpl. apply formatted_bytes; lia.
Qed.

(** ** Decoding *)

Lemma wire_with_head k p v :
  k = 1 \/ k = 2 \/ k = 4 \/ k = 8 -> 0 <= p < 4 -> 0 <= v < 2 ^ (8 * k - 2) ->
  exists h t, VarIntCodec.wire_with k p v = h :: t /\ Z.land (Z.shiftr h 6) 3 = p
    /\ (k = 1 -> h = p * 64 + v).
Proof.
  intros Hk Hp Hv. unfold VarIntCodec.wire_with.
  replace (Z.to_nat k) with (S (Z.to_nat (k - 1))) by lia. simpl be_bytes.
  eexists _, _. split; [reflexivity|].
  set (w := p * 2 ^ (8 * k - 2) + v).
  assert (Hw : Z.shiftr w (8 * Z.of_nat (Z.to_nat (k - 1)))
    = p * 64 + v / 2 ^ (8 * k - 8)).
  { rewrite Z.shiftr_div_pow2 by lia. rewrite Z2Nat.id by lia. unfold w.
    replace (8 * (k - 1)) with (8 * k - 8) by lia.
    replace (8 * k - 2) with (6 + (8 * k - 8)) by lia.
    rewrite Z.pow_add_r, Z.mul_assoc, Z.div_add_l by (try apply Z.pow_nonzero; lia). lia. }
  assert (Hq : 0 <= v / 2 ^ (8 * k - 8) < 64).
  { split; [apply Z.div_pos; [lia|apply pow2_pos; lia]|].
    apply Z.div_lt_upper_bound; [apply pow2_pos; lia|].
    replace (2 ^ (8 * k - 8) * 64) with (2 ^ (8 * k - 2)); [lia|].
    change 64 with (2 ^ 6). rewrite <- Z.pow_add_r by lia. f_equal. lia. }
  rewrite Hw. change 255 with (2 ^ 8 - 1). rewrite land_ones_mod by lia.
  rewrite Z.mod_small by lia. split.
  - change 3 with (2 ^ 2 - 1). rewrite land_ones_mod, Z.shiftr_div_pow2 by lia.
    change (2 ^ 6) with 64. rewrite Z.div_add_l, Z.div_small, Z.add_0_r by lia.
    apply Z.mod_small. lia.
  - intros ->. simpl. by rewrite Z.div_1_r.
Qed.

Lemma decode_wire_with k p v rest :
  (k = 1 /\ p = 0) \/ (k = 2 /\ p = 1) \/ (k = 4 /\ p = 2) \/ (k = 8 /\ p = 3) ->
  0 <= v < 2 ^ (8 * k - 2) ->
  VarIntCodec.decode (VarIntCodec.wire_with k p v ++ rest) = Ok (v, rest).
Proof.
  intros Hk Hv.
  destruct (wire_with_head k p v) as (h & t & Hw & Hh & H1); [lia|lia|done|].
  unfold VarIntCodec.decode. rewrite Hw. simpl app at 1. rewrite peek_byte_cons.
  cbn [rbind]. rewrite Hh, <- Hw.
  assert (Hval : forall n, n = k -> 1 < k ->
    decode_uint (Z.to_nat n) (VarIntCodec.wire_with k p v ++ rest)
    = Ok (p * 2 ^ (8 * k - 2) + v, rest)).
  { intros n -> Hn. apply decode_uint_app. split; [nia|].
    replace (8 * Z.of_nat (Z.to_nat k)) with (2 + (8 * k - 2)) by lia.
    rewrite Z.pow_add_r by lia. nia. }
  assert (Hmask : Z.land (p * 2 ^ (8 * k - 2) + v) (2 ^ (8 * k - 2) - 1) = v).
  { rewrite land_ones_mod by lia. rewrite Z.add_comm, Z.mod_add by (apply Z.pow_nonzero; lia).
    by apply Z.mod_small. }
  destruct Hk as [[-> ->]|[[-> ->]|[[-> ->]|[-> ->]]]].
  - rewrite H1 in * by done. rewrite Hw.
    assert (t = []) as ->.
    { apply (f_equal length) in Hw. unfold VarIntCodec.wire_with in Hw.
      rewrite length_be_bytes in Hw. destruct t; simpl in Hw; [done|lia]. }
    unfold skip. change 1 with (blen [0 * 64 + v]). rewrite decode_slice_app. simpl.
    do 2 f_equal. exact Hmask.
  - change 2%nat with (Z.to_nat 2). rewrite (Hval 2) by lia.
    cbn [rbind]. do 2 f_equal. exact Hmask.
  - change 4%nat with (Z.to_nat 4). rewrite (Hval 4) by lia.
    cbn [rbind]. do 2 f_equal. exact Hmask.
  - change 8%nat with (Z.to_nat 8). rewrite (Hval 8) by lia.
    cbn [rbind]. do 2 f_equal. exact Hmask.
Qed.

#[export] Instance varint_codec be :
  CodecSpec varint_ok (VarIntCodec.encode be) VarIntCodec.decode VarIntCodec.wire.
Proof.
  split.
  - intros. by apply encodes_as_varint.
  - intros v rest Hv. destruct (wire_len_cases v Hv) as (k & p & Hw & Hv' & Hk).
    rewrite wire_eq, Hw. by apply decode_wire_with.
Qed.

Lemma varint_add_Ret a b : a + b <= MAX_VARINT_VALUE -> VarInt.add a b = Ret (a + b).
Proof.
  intros. unfold VarInt.add, VarInt.checked_add, checked_add, VarInt.new, MAX_VARINT_VALUE in *.
  zcases. simpl. zcases. done.
Qed.
Lemma varint_add_usize_Ret a b : 0 <= a -> a + b <= MAX_VARINT_VALUE -> VarInt.add_usize a b = Ret (a + b).
Proof.
  intros. unfold VarInt.add_usize, VarInt.checked_add, checked_add, VarInt.new, MAX_VARINT_VALUE in *.
  zcases. simpl. zcases. simpl. zcases. done.
Qed.

Lemma varint_clamp x : VarInt.unwrap_or (VarInt.new x) VarInt.MAX = Z.min x VarInt.MAX.
Proof. unfold VarInt.new, VarInt.MAX. zcases; simpl; lia. Qed.

(** ** Decoding untrusted bytes *)

Lemma header_top h : byte_ok h -> Z.land (Z.shiftr h 6) 3 = h / 64.
Proof.
  intros Hh. unfold byte_ok in Hh. change 3 with (2 ^ 2 - 1).
  rewrite land_ones_mod, Z.shiftr_div_pow2 by lia. change (2 ^ 6) with 64.
  apply Z.mod_small. split; [apply Z.div_pos; lia|apply Z.div_lt_upper_bound; lia].
Qed.

(** The number of bytes the header announces: 1, 2, 4 or 8. *)
Definition header_len (h : Z) : Z := 2 ^ (h / 64).

Lemma header_cases h :
  byte_ok h ->
  (h / 64 = 0 /\ header_len h = 1) \/ (h / 64 = 1 /\ header_len h = 2)
  \/ (h / 64 = 2 /\ header_len h = 4) \/ (h / 64 = 3 /\ header_len h = 8).
Proof.
  intros Hh. unfold byte_ok in Hh. unfold header_len.
  assert (0 <= h / 64 < 4) by (split; [apply Z.div_pos; lia|apply Z.div_lt_upper_bound; lia]).
  assert (h / 64 = 0 \/ h / 64 = 1 \/ h / 64 = 2 \/ h / 64 = 3) as [-> | [-> | [-> | ->]]] by lia;
    lia.
Qed.

(** A first byte with enough bytes behind it always decodes, to the low bits of
    the bytes it spans; a short buffer is an end-of-file error, never a
    panic. *)
Lemma decode_header_spec h t :
  bytes_ok (h :: t) ->
  VarIntCodec.decode (h :: t) =
    (if blen (h :: t) <? header_len h then Err (UnexpectedEof (header_len h))
     else Ok (from_be (take (Z.to_nat (header_len h)) (h :: t)) mod 2 ^ (8 * header_len h - 2),
              drop (Z.to_nat (header_len h)) (h :: t))).
Proof.
  intros Hb. pose proof (Forall_cons_1 _ _ _ Hb) as [Hh Ht].
  unfold VarIntCodec.decode. rewrite peek_byte_cons. cbn [rbind].
  rewrite header_top by done. pose proof (blen_nonneg t).
  destruct (header_cases h Hh) as [[-> ->]|[[-> ->]|[[-> ->]|[-> ->]]]].
  - unfold skip, decode_slice, ensure_len. rewrite blen_cons. zcases. cbn [rbind].
    by rewrite land_ones_mod.
  - unfold decode_uint, decode_slice, ensure_len. change (Z.of_nat 2) with 2.
    zcases; cbn [rbind]; [done|]. by rewrite land_ones_mod.
  - unfold decode_uint, decode_slice, ensure_len. change (Z.of_nat 4) with 4.
    zcases; cbn [rbind]; [done|]. by rewrite land_ones_mod.
  - unfold decode_uint, decode_slice, ensure_len. change (Z.of_nat 8) with 8.
    zcases; cbn [rbind]; [done|]. by rewrite land_ones_mod.
Qed.

(** A successful decode looks at a non-empty prefix only. *)
Lemma varint_decode_prefix buf v rest :
  bytes_ok buf -> VarIntCodec.decode buf = Ok (v, rest) ->
  varint_ok v /\ exists pre, pre <> [] /\ buf = pre ++ rest
    /\ forall rest', bytes_ok rest' -> VarIntCodec.decode (pre ++ rest') = Ok (v, rest').
Proof.
  intros Hb Hd. destruct buf as [| h t]; [done |].
  pose proof (Forall_cons_1 _ _ _ Hb) as [Hh Ht]. rewrite decode_header_spec in Hd by done.
  assert (Hn : 1 <= header_len h <= 8) by (destruct (header_cases h Hh); lia).
  destruct (Z.ltb_spec (blen (h :: t)) (header_len h)); [done |]. injection Hd as <- <-.
  set (n := Z.to_nat (header_len h)).
  assert (Hpre : length (take n (h :: t)) = n).
  { rewrite length_take. unfold n, blen in *. lia. }
  split.
  - set (x := from_be _).
    assert (0 <= x mod 2 ^ (8 * header_len h - 2) < 2 ^ (8 * header_len h - 2))
      by (apply Z.mod_pos_bound, pow2_pos; lia).
    assert (2 ^ (8 * header_len h - 2) <= 2 ^ 62) by (apply Z.pow_le_mono_r; lia).
    unfold varint_ok, MAX_VARINT_VALUE. lia.
  - exists (take n (h :: t)). destruct n as [| n'] eqn:En; [unfold n in En; lia |].
    rewrite take_drop. split_and!; [done | done |]. intros rest' Hr.
    cbn [take]. rewrite <- app_comm_cons. rewrite decode_header_spec.
    + rewrite app_comm_cons. change (h :: take n' t) with (take (S n') (h :: t)).
      rewrite <- En in *. rewrite blen_app. pose proof (blen_nonneg rest').
      assert (blen (take n (h :: t)) = header_len h) by (unfold blen; rewrite Hpre; unfold n; lia).
      zcases. rewrite take_app_le, drop_app_le by (unfold n in *; lia).
      rewrite take_take, Nat.min_id. f_equal. f_equal. rewrite drop_ge; [done |]. unfold n in *; lia.
    + constructor; [done |]. apply Forall_app. split; [by apply Forall_take | done].
Qed.

Lemma consumes_varint buf : bytes_ok buf -> consumes varint_ok buf (Ret (VarIntCodec.decode buf)).
Proof.
  intros Hb. destruct (VarIntCodec.decode buf) as [[v rest] |] eqn:Hd; [| done].
  destruct (varint_decode_prefix _ _ _ Hb Hd) as (Hv & pre & _ & -> & _). split; [done |]. by exists pre.
Qed.

Lemma progresses_varint {A} (W : A -> Prop) buf f :
  bytes_ok buf ->
  (forall v rest, varint_ok v -> bytes_ok rest -> consumes W rest (f (v, rest))) ->
  progresses W buf (orbind (Ret (VarIntCodec.decode buf)) f).
Proof.
  intros Hb Hf. destruct (VarIntCodec.decode buf) as [[v rest] |] eqn:Hd; [| done].
  destruct (varint_decode_prefix _ _ _ Hb Hd) as (Hv & pre & Hp & -> & _).
  apply Forall_app in Hb as [_ Hr]. specialize (Hf v rest Hv Hr). simpl.
  destruct (f (v, rest)) as [[[b rest'] | err] |]; [| done | done]. destruct Hf as [Hw [pre' ->]].
  split; [done |]. exists (pre ++ pre'). split; [by destruct pre | by rewrite app_assoc].
Qed.

(** Decoding a prefix of [wire_len] bytes that the encoder wrote: the value
    placed in a wider field decodes too. *)
Lemma encodes_as_updated be v r k p kr pr :
  varint_ok v -> varint_ok r -> wire_len v = (k, p) -> wire_len r = (kr, pr) -> kr <= k ->
  encodes_as (VarIntCodec.encode_updated be v r) (VarIntCodec.wire_with k p r).
Proof.
  intros Hv Hr Hw Hwr Hle.
  destruct (wire_len_cases v Hv) as (k' & p' & Hw' & Hv' & Hk).
  destruct (wire_len_cases r Hr) as (kr' & pr' & Hwr' & Hr' & Hkr).
  rewrite Hw in Hw'. injection Hw' as <- <-. rewrite Hwr in Hwr'. injection Hwr' as <- <-.
  assert (Hfit : 0 <= r < 2 ^ (8 * k - 2)).
  { split; [lia|]. eapply Z.lt_le_trans; [apply Hr'|]. apply Z.pow_le_mono_r; lia. }
  edestruct (encodes_as_formatted be) as [_ [H1 H2]]; cycle 2.
  - split; intros; unfold VarIntCodec.encode_updated;
      rewrite (read_spec be v k p), (read_spec be r kr pr) by done;
      cbn [obind Table.len]; unfold rassert; rewrite (proj2 (Z.leb_le _ _) Hle); cbn [obind];
      [apply H1|apply H2]; done.
  - unfold Table.format. simpl. lia.
  - unfold Table.format. simpl. apply formatted_bytes; lia.
Qed.

Lemma blen_wire v : varint_ok v -> blen (VarIntCodec.wire v) = (wire_len v).1.
Proof.
  intros Hv. destruct (wire_len_cases v Hv) as (k & p & Hw & _ & Hk).
  rewrite wire_eq, Hw. unfold VarIntCodec.wire_with. rewrite blen_be_bytes. simpl. lia.
Qed.

Lemma varint_encoding_size be v :
  varint_ok v -> VarIntCodec.encoding_size be v = Ret (blen (VarIntCodec.wire v)).
Proof.
  intros Hv. destruct (wire_len_cases v Hv) as (k & p & Hwl & _ & _).
  unfold VarIntCodec.encoding_size. rewrite (new_spec be v k p) by done.
  by rewrite blen_wire, Hwl by done.
Qed.

(** The size grows with the value, and a value of at least one is no shorter
    than its size. *)
Lemma blen_wire_mono v v' :
  0 <= v <= v' -> v' <= MAX_VARINT_VALUE ->
  1 <= blen (VarIntCodec.wire v) <= blen (VarIntCodec.wire v')
  /\ blen (VarIntCodec.wire v') <= Z.max 1 v' /\ blen (VarIntCodec.wire v') <= 8.
Proof. intros Hv Hv'. rewrite !blen_wire by (split; lia). unfold wire_len. zcases; simpl; lia. Qed.

Lemma wire_bytes_ok v : bytes_ok (VarIntCodec.wire v).
Proof. rewrite wire_eq. apply be_bytes_ok. Qed.

(** ** Properties *)

(** C12: encoding a VarInt into any buffer with room appends its RFC 9000
    encoding (whichever of the two write paths runs, on either byte order),
    and decoding the appended bytes gives the value back and leaves the bytes
    that follow. *)
Theorem varint_roundtrip be v eb rest :
  varint_ok v -> eb_wf eb -> blen (VarIntCodec.wire v) <= eb_remaining eb ->
  exists eb', VarIntCodec.encode be v _ _ eb = Ret eb'
    /\ appended eb (VarIntCodec.wire v) eb'
    /\ VarIntCodec.encoding_size be v = Ret (eb_position eb' - eb_position eb)
    /\ VarIntCodec.decode (drop (Z.to_nat (eb_position eb)) (written eb') ++ rest) = Ok (v, rest).
Proof.
  intros Hv Hwf Hrem. destruct (proj1 (encodes_as_varint be v Hv) eb Hwf Hrem) as (eb' & E & Ha).
  exists eb'. split; [done|]. split; [done|]. destruct Ha as (Hwf' & Hl & Hw).
  assert (Hpos : length (written eb) = Z.to_nat (eb_position eb)).
  { unfold written. rewrite length_take. destruct Hwf. unfold blen in *. lia. }
  split.
  - destruct (wire_len_cases v Hv) as (k & p & Hwl & _ & Hk).
    unfold VarIntCodec.encoding_size. rewrite (new_spec be v k p) by done. simpl. f_equal.
    apply (f_equal blen) in Hw. rewrite blen_app, blen_wire, Hwl in Hw by done. simpl in Hw.
    unfold written in Hw. unfold blen in Hw. rewrite !length_take in Hw.
    destruct Hwf, Hwf'. unfold blen in *. lia.
  - rewrite Hw, <- Hpos, drop_app_length. by apply (codec_decode (enc := VarIntCodec.encode be)).
Qed.

Lemma varint_roundtrip_witness :
  exists eb', VarIntCodec.encode false 15293 _ _ (mk_eb [7; 0; 0; 0; 0; 0; 0; 0; 0; 0] 1) = Ret eb'
    /\ written eb' = [7; 123; 189].
Proof.
  destruct (varint_roundtrip false 15293 (mk_eb [7; 0; 0; 0; 0; 0; 0; 0; 0; 0] 1) [])
    as (eb' & E & Ha & _); [by vm_compute..|].
  exists eb'. split; [exact E|]. exact (proj2 (proj2 Ha)).
Defined.

(** C30: decoding any bytes either fails with an end-of-file error, exactly when
    fewer bytes are left than the two high bits announce, or returns a value
    within the VarInt range made of the low bits, consuming exactly those
    bytes. *)
Theorem varint_decode_total buf :
  bytes_ok buf ->
  match buf with
  | [] => VarIntCodec.decode buf = Err (UnexpectedEof 0)
  | h :: _ =>
      let n := header_len h in
      (n = 1 \/ n = 2 \/ n = 4 \/ n = 8) /\
      (blen buf < n -> VarIntCodec.decode buf = Err (UnexpectedEof n)) /\
      (n <= blen buf -> exists v,
         VarIntCodec.decode buf = Ok (v, drop (Z.to_nat n) buf)
         /\ v = from_be (take (Z.to_nat n) buf) mod 2 ^ (8 * n - 2)
         /\ varint_ok v /\ blen (VarIntCodec.wire v) <= n)
  end.
Proof.
  intros Hb. destruct buf as [|h t]; [done|]. cbn zeta.
  pose proof (Forall_cons_1 _ _ _ Hb) as [Hh _].
  rewrite decode_header_spec by done. split; [destruct (header_cases h Hh); lia|].
  split; intros Hn; [by rewrite (proj2 (Z.ltb_lt _ _) Hn)|].
  rewrite (proj2 (Z.ltb_ge _ _)) by done. eexists. split; [done|]. split; [done|].
  assert (Hhl : header_len h = 1 \/ header_len h = 2 \/ header_len h = 4 \/ header_len h = 8)
    by (destruct (header_cases h Hh); lia).
  set (x := from_be _). set (m := header_len h) in *.
  assert (Hx : 0 <= x mod 2 ^ (8 * m - 2) < 2 ^ (8 * m - 2))
    by (apply Z.mod_pos_bound, pow2_pos; lia).
  assert (Hok : varint_ok (x mod 2 ^ (8 * m - 2))).
  { split; [lia|]. assert (2 ^ (8 * m - 2) <= 2 ^ 62) by (apply Z.pow_le_mono_r; lia).
    unfold MAX_VARINT_VALUE. lia. }
  split; [done|]. rewrite blen_wire by done. revert Hx. unfold wire_len.
  destruct Hhl as [-> | [-> | [-> | ->]]]; intros; zcases; simpl; lia.
Qed.

Lemma varint_decode_total_witness :
  VarIntCodec.decode [0x7b; 0xbd; 9] = Ok (15293, [9]).
Proof.
  destruct (varint_decode_total [0x7b; 0xbd; 9]) as (_ & _ & H).
  - repeat constructor; by vm_compute.
  - destruct H as (v & E & Hv & _); [by vm_compute|]. rewrite E, Hv. by vm_compute.
Defined.

(** The branch-free table lookup the code runs returns the entry of the RFC
    table for every VarInt, so the lookup with its self-check never fails. *)
Theorem read_optimized_rfc be x :
  varint_ok x ->
  Table.read_optimized be x = Table.read_rfc be x
  /\ Table.read be x = Table.read_rfc be x
  /\ exists e, Table.read_rfc be x = Ret e.
Proof.
  intros Hx. destruct (wire_len_cases x Hx) as (k & p & Hw & _ & _).
  rewrite read_optimized_eq, (read_spec be x k p), (read_rfc_spec be x k p) by done. eauto.
Qed.

Lemma read_optimized_rfc_witness :
  Table.read_optimized true 16384 = Table.read_rfc true 16384.
Proof. apply (read_optimized_rfc true 16384). by vm_compute. Defined.

(** Overwriting a placeholder with a replacement that needs no more bytes
    writes exactly as many bytes as the placeholder took, and they decode to
    the replacement. *)
Theorem encode_updated_in_place be v r rest :
  varint_ok v -> varint_ok r -> blen (VarIntCodec.wire r) <= blen (VarIntCodec.wire v) ->
  exists bs, encodes_as (VarIntCodec.encode_updated be v r) bs
    /\ blen bs = blen (VarIntCodec.wire v)
    /\ VarIntCodec.decode (bs ++ rest) = Ok (r, rest).
Proof.
  intros Hv Hr Hle. rewrite !blen_wire in Hle by done.
  destruct (wire_len_cases v Hv) as (k & p & Hw & Hv' & Hk).
  destruct (wire_len_cases r Hr) as (kr & pr & Hwr & Hr' & Hkr).
  rewrite Hw, Hwr in Hle. simpl in Hle.
  exists (VarIntCodec.wire_with k p r). split; [by eapply encodes_as_updated|].
  rewrite blen_wire, Hw by done. split.
  - unfold VarIntCodec.wire_with. rewrite blen_be_bytes. simpl. lia.
  - apply decode_wire_with; [done|]. split; [lia|].
    eapply Z.lt_le_trans; [apply Hr'|]. apply Z.pow_le_mono_r; lia.
Qed.

(** The checked, saturating and panicking operations agree with integer
    arithmetic: they return the exact result when it is a VarInt, and otherwise
    report, clamp or panic; no operation returns a value outside the range. *)
Theorem varint_arith_exact a b :
  varint_ok a -> varint_ok b ->
  VarInt.checked_add a b = (if bool_decide (varint_ok (a + b)) then Some (a + b) else None)
  /\ VarInt.checked_mul a b = (if bool_decide (varint_ok (a * b)) then Some (a * b) else None)
  /\ VarInt.checked_sub a b = (if bool_decide (varint_ok (a - b)) then Some (a - b) else None)
  /\ VarInt.saturating_add a b = Z.min (a + b) VarInt.MAX
  /\ VarInt.saturating_mul a b = Z.min (a * b) VarInt.MAX
  /\ VarInt.saturating_sub a b = Z.max (a - b) 0
  /\ VarInt.add a b = (if bool_decide (varint_ok (a + b)) then Ret (a + b) else Panic)
  /\ VarInt.add_usize a b = (if bool_decide (varint_ok (a + b)) then Ret (a + b) else Panic)
  /\ VarInt.sub a b = (if bool_decide (varint_ok (a - b)) then Ret (a - b) else Panic)
  /\ VarInt.mul a b = (if bool_decide (varint_ok (a * b)) then Ret (a * b) else Panic).
Proof.
  intros [Ha Ha'] [Hb Hb'].
  unfold VarInt.add_usize, VarInt.sub, VarInt.mul, sub_c, VarInt.checked_add, VarInt.checked_mul, VarInt.checked_sub,
    VarInt.saturating_add, VarInt.saturating_mul, VarInt.saturating_sub, VarInt.add,
    VarInt.checked_add, checked_add, checked_sub, checked_mul, saturating_add,
    saturating_sub, saturating_mul, VarInt.new, VarInt.MAX, MAX_VARINT_VALUE, umax in *.
  repeat case_bool_decide; unfold varint_ok, MAX_VARINT_VALUE in *;
    zcases; cbn -[Z.min Z.max]; zcases; split_and!; try done; lia.
Qed.

