(* ===== verification/PacketNumber.v ===== *)
(** * Packet numbers (quic/s2n-quic-core/src/packet/number)

    A packet number is kept packed in one non-zero [u64] with its packet number
    space in the top two bits.  On the wire it is truncated to one to four
    bytes, relative to the largest acknowledged packet number, and expanded
    again relative to the largest received one. *)

From S2P Require Import Prelude Codec VarInt.

(** ** Packet number spaces (packet_number_space.rs) *)

Inductive PacketNumberSpace : Type := Initial | Handshake | ApplicationData.

#[export] Instance PacketNumberSpace_eq_dec : EqDecision PacketNumberSpace.
Proof. solve_decision. Defined.

Module Space.

Definition as_tag (self : PacketNumberSpace) : Z :=
  match self with Initial => 1 | Handshake => 2 | ApplicationData => 3 end.

Definition from_tag (tag : Z) : outcome PacketNumberSpace :=
  match tag with
  | 1 => Ret Initial
  | 2 => Ret Handshake
  | 3 => Ret ApplicationData
  | _ => Panic
  end.

Definition assert_eq (self other : PacketNumberSpace) : outcome unit :=
  rassert (bool_decide (self = other)).

End Space.

(** ** Packed packet numbers (packet_number.rs) *)
Module PacketNumber.

Definition PACKET_SPACE_BITLEN : Z := 2.
Definition PACKET_SPACE_SHIFT : Z := 64 - PACKET_SPACE_BITLEN.
Definition PACKET_NUMBER_MASK : Z := Z.shiftr (umax 64) PACKET_SPACE_BITLEN.

Definition from_varint (value : Z) (space : PacketNumberSpace) : Z :=
  Z.lor (wrap 64 (Z.shiftl (Space.as_tag space) PACKET_SPACE_SHIFT)) value.

Definition space (self : Z) : outcome PacketNumberSpace :=
  Space.from_tag (wrap 8 (Z.shiftr self PACKET_SPACE_SHIFT)).

Definition as_u64 (self : Z) : Z := Z.land self PACKET_NUMBER_MASK.
Definition as_varint (self : Z) : Z := as_u64 self.
Definition as_crypto_nonce (self : Z) : Z := as_u64 self.

Definition next (self : Z) : outcome (option Z) :=
  match VarInt.checked_add (as_varint self) 1 with
  | Some value => let! sp := space self in Ret (Some (from_varint value sp))
  | None => Ret None
  end.

Definition prev (self : Z) : outcome (option Z) :=
  match VarInt.checked_sub (as_varint self) 1 with
  | Some value => let! sp := space self in Ret (Some (from_varint value sp))
  | None => Ret None
  end.

(** [Ord::cmp]: comparing across spaces is a panic. *)
Definition cmp (self other : Z) : outcome comparison :=
  let! s := space self in
  let! o := space other in
  let! _ := Space.assert_eq s o in
  Ret (self ?= other).

Definition checked_distance (self rhs : Z) : outcome (option Z) :=
  let! s := space self in
  let! o := space rhs in
  let! _ := Space.assert_eq s o in
  Ret (checked_sub (as_u64 self) (as_u64 rhs)).

End PacketNumber.

(** [a == b] on packet numbers: they are compared. *)
Definition pn_eq (a b : Z) : outcome bool :=
  let! c := PacketNumber.cmp a b in Ret (match c with Eq => true | _ => false end).

(** ** Encoded lengths (packet_number_len.rs) *)

Inductive PacketNumberLenValue : Type := LU8 | LU16 | LU24 | LU32.

Record PacketNumberLen := mk_pnl { pnl_space : PacketNumberSpace; pnl_value : PacketNumberLenValue }.

(** ** Truncated packet numbers (truncated_packet_number.rs) *)

Inductive TruncatedPacketNumberValue : Type :=
| TU8 (value : Z) | TU16 (value : Z) | TU24 (value : Z) | TU32 (value : Z).

Record TruncatedPacketNumber :=
  mk_tpn { tpn_space : PacketNumberSpace; tpn_value : TruncatedPacketNumberValue }.

Module LenValue.

(** The discriminant, [self as u8]. *)
Definition into_packet_tag_mask (self : PacketNumberLenValue) : Z :=
  match self with LU8 => 0 | LU16 => 1 | LU24 => 2 | LU32 => 3 end.

Definition bytesize (self : PacketNumberLenValue) : Z := into_packet_tag_mask self + 1.
Definition bitsize (self : PacketNumberLenValue) : Z := bytesize self * 8.

Definition PACKET_NUMBER_LEN_MASK : Z := 3.

Definition from_packet_tag (tag : Z) : outcome PacketNumberLenValue :=
  match Z.land tag PACKET_NUMBER_LEN_MASK with
  | 0 => Ret LU8
  | 1 => Ret LU16
  | 2 => Ret LU24
  | 3 => Ret LU32
  | _ => Panic
  end.

Definition from_varint (value : Z) : option PacketNumberLenValue :=
  if value <=? 2 ^ 8 - 1 then Some LU8
  else if value <=? 2 ^ 16 - 1 then Some LU16
  else if value <=? 2 ^ 24 - 1 then Some LU24
  else if value <=? 2 ^ 32 - 1 then Some LU32
  else None.

(** [value as u8], [as u16], [u24::new_truncated(value as u32)], [as u32]. *)
Definition truncate_packet_number (self : PacketNumberLenValue) (value : Z)
    (space : PacketNumberSpace) : TruncatedPacketNumber :=
  match self with
  | LU8 => mk_tpn space (TU8 (wrap 8 value))
  | LU16 => mk_tpn space (TU16 (wrap 16 value))
  | LU24 => mk_tpn space (TU24 (Z.land (wrap 32 value) (2 ^ 24 - 1)))
  | LU32 => mk_tpn space (TU32 (wrap 32 value))
  end.

Definition decode_truncated_packet_number (self : PacketNumberLenValue) (buffer : list Z)
    (space : PacketNumberSpace) : decoded TruncatedPacketNumber :=
  match self with
  | LU8 => let? '(v, buffer) := decode_uint 1 buffer in Ok (mk_tpn space (TU8 v), buffer)
  | LU16 => let? '(v, buffer) := decode_uint 2 buffer in Ok (mk_tpn space (TU16 v), buffer)
  | LU24 =>
      let? '(v, buffer) := decode_uint 3 buffer in
      Ok (mk_tpn space (TU24 (Z.land v (2 ^ 24 - 1))), buffer)
  | LU32 => let? '(v, buffer) := decode_uint 4 buffer in Ok (mk_tpn space (TU32 v), buffer)
  end.

End LenValue.

Module Truncated.

Definition into_u64 (self : TruncatedPacketNumberValue) : Z :=
  match self with TU8 v | TU16 v | TU24 v | TU32 v => v end.

Definition len (self : TruncatedPacketNumber) : PacketNumberLen :=
  mk_pnl (tpn_space self)
    match tpn_value self with
    | TU8 _ => LU8 | TU16 _ => LU16 | TU24 _ => LU24 | TU32 _ => LU32
    end.

Definition bitsize (self : TruncatedPacketNumber) : Z := LenValue.bitsize (pnl_value (len self)).

Definition encode (self : TruncatedPacketNumber) : encoder_prog :=
  match tpn_value self with
  | TU8 v => enc_uint 1 v
  | TU16 v => enc_uint 2 v
  | TU24 v => enc_uint 3 v
  | TU32 v => enc_uint 4 v
  end.

End Truncated.

(** ** Truncation and expansion (mod.rs) *)

Definition derive_truncation_range (largest_acknowledged_packet_number packet_number : Z)
    : outcome (option PacketNumberLen) :=
  let! space := PacketNumber.space packet_number in
  let! la_space := PacketNumber.space largest_acknowledged_packet_number in
  let! _ := Space.assert_eq space la_space in
  Ret (value ← checked_sub (PacketNumber.as_u64 packet_number)
                 (PacketNumber.as_u64 largest_acknowledged_packet_number);
       value ← checked_mul 64 value 2;
       value ← VarInt.ok (VarInt.new value);
       value ← LenValue.from_varint value;
       Some (mk_pnl space value)).

Definition truncate (self largest_acknowledged_packet_number : Z)
    : outcome (option TruncatedPacketNumber) :=
  let! r := derive_truncation_range largest_acknowledged_packet_number self in
  Ret (l ← r;
       Some (LenValue.truncate_packet_number (pnl_value l) (PacketNumber.as_varint self)
               (pnl_space l))).

(** [opt.filter(p).is_some()]. *)
Definition filter_is_some (o : option Z) (p : Z -> bool) : bool :=
  match o with Some v => p v | None => false end.

Definition decode_packet_number (largest_pn : Z) (truncated_pn : TruncatedPacketNumber)
    : outcome Z :=
  let! space := PacketNumber.space largest_pn in
  let! _ := Space.assert_eq space (tpn_space truncated_pn) in
  let pn_nbits := Truncated.bitsize truncated_pn in
  let! expected_pn := add_c 64 (PacketNumber.as_u64 largest_pn) 1 in
  let pn_win := wrap 64 (Z.shiftl 1 pn_nbits) in
  let pn_hwin := pn_win / 2 in
  let! pn_mask := sub_c pn_win 1 in
  let candidate_pn :=
    Z.lor (Z.land expected_pn (wrap 64 (Z.lnot pn_mask)))
          (Truncated.into_u64 (tpn_value truncated_pn)) in
  let a := filter_is_some (checked_sub expected_pn pn_hwin) (fun v => candidate_pn <=? v) in
  let b := filter_is_some (checked_sub (Z.shiftl 1 62) pn_win) (fun v => candidate_pn <? v) in
  let c := filter_is_some (checked_add 64 expected_pn pn_hwin) (fun v => v <? candidate_pn) in
  let d := pn_win <=? candidate_pn in
  let ab := a && b in
  let cd := negb ab && c && d in
  let! candidate_pn := if ab then add_c 64 candidate_pn pn_win else Ret candidate_pn in
  let! candidate_pn := if cd then sub_c candidate_pn pn_win else Ret candidate_pn in
  let candidate_pn := VarInt.unwrap_or (VarInt.new candidate_pn) VarInt.MAX in
  Ret (PacketNumber.from_varint candidate_pn space).

Definition expand (self : TruncatedPacketNumber) (largest_acknowledged_packet_number : Z)
    : outcome Z :=
  decode_packet_number largest_acknowledged_packet_number self.

(** ** Ranges of packet numbers (packet_number_range.rs) *)
Module PacketNumberRange.

Record t := mk { start : Z; end_ : Z; exhausted : bool }.

(** [a <= b] on packet numbers. *)
Definition pn_le (a b : Z) : outcome bool :=
  let! c := PacketNumber.cmp a b in
  Ret (match c with Gt => false | _ => true end).

Definition new (start end_ : Z) : outcome t :=
  let! le := pn_le start end_ in
  let! _ := rassert le in
  Ret (mk start end_ false).

Definition contains (self : t) (packet_number : Z) : outcome bool :=
  let! lo := pn_le (start self) packet_number in
  if lo then pn_le packet_number (end_ self) else Ret false.

(** [Iterator::next]. *)
Definition next (self : t) : outcome (option Z * t) :=
  let! more := if exhausted self then Ret false else pn_le (start self) (end_ self) in
  if more then
    let current := start self in
    let! n := PacketNumber.next current in
    match n with
    | Some n => Ret (Some current, mk n (end_ self) (exhausted self))
    | None => Ret (Some current, mk (start self) (end_ self) true)
    end
  else Ret (None, mk (start self) (end_ self) true).

(** [DoubleEndedIterator::next_back]. *)
Definition next_back (self : t) : outcome (option Z * t) :=
  let! more := if exhausted self then Ret false else pn_le (start self) (end_ self) in
  if more then
    let current := end_ self in
    let! p := PacketNumber.prev current in
    match p with
    | Some p =>
        let! le := pn_le (start self) p in
        Ret (Some current, mk (start self) p (negb le))
    | None => Ret (Some current, mk (start self) (end_ self) true)
    end
  else Ret (None, mk (start self) (end_ self) true).

(** [for pn in range] (and [range.rev()]): call [step] until it returns
    [None]; running out of fuel is a panic. *)
Fixpoint drain (step : t -> outcome (option Z * t)) (fuel : nat) (self : t)
    : outcome (list Z) :=
  match fuel with
  | O => Panic
  | S fuel =>
      let! '(item, self) := step self in
      match item with
      | Some pn => let! rest := drain step fuel self in Ret (pn :: rest)
      | None => Ret []
      end
  end.

End PacketNumberRange.

(** ** Lemmas: packing *)

Section Packing.
Variables (v : Z) (s : PacketNumberSpace).
Hypothesis Hv : varint_ok v.

Lemma from_varint_eq : PacketNumber.from_varint v s = Space.as_tag s * 2 ^ 62 + v.
Proof.
  unfold PacketNumber.from_varint, PacketNumber.PACKET_SPACE_SHIFT,
    PacketNumber.PACKET_SPACE_BITLEN. destruct Hv. unfold MAX_VARINT_VALUE in *.
  rewrite wrap_small by (destruct s; by vm_compute).
  apply lor_shiftl_add; lia.
Qed.

Lemma pn_space_from_varint : PacketNumber.space (PacketNumber.from_varint v s) = Ret s.
Proof.
  unfold PacketNumber.space, PacketNumber.PACKET_SPACE_SHIFT, PacketNumber.PACKET_SPACE_BITLEN.
  rewrite from_varint_eq. destruct Hv. unfold MAX_VARINT_VALUE in *.
  change (64 - 2) with 62. rewrite Z.shiftr_div_pow2 by lia.
  rewrite Z.div_add_l, Z.div_small, Z.add_0_r by lia. by destruct s.
Qed.

Lemma pn_as_u64_from_varint : PacketNumber.as_u64 (PacketNumber.from_varint v s) = v.
Proof.
  unfold PacketNumber.as_u64, PacketNumber.PACKET_NUMBER_MASK. rewrite from_varint_eq.
  destruct Hv. unfold MAX_VARINT_VALUE in *.
  change (Z.shiftr (umax 64) PacketNumber.PACKET_SPACE_BITLEN) with (2 ^ 62 - 1).
  rewrite land_ones_mod, Z.add_comm, Z.mod_add by lia. apply Z.mod_small. lia.
Qed.

Lemma pn_as_varint_from_varint : PacketNumber.as_varint (PacketNumber.from_varint v s) = v.
Proof. apply pn_as_u64_from_varint. Qed.

Lemma pn_next_from_varint :
  PacketNumber.next (PacketNumber.from_varint v s)
  = Ret (if v <? MAX_VARINT_VALUE then Some (PacketNumber.from_varint (v + 1) s) else None).
Proof.
  unfold PacketNumber.next. rewrite pn_as_varint_from_varint.
  destruct Hv. unfold VarInt.checked_add, checked_add, VarInt.new, MAX_VARINT_VALUE in *.
  zcases; cbn [VarInt.ok]; by rewrite ?pn_space_from_varint.
Qed.

Lemma pn_prev_from_varint :
  PacketNumber.prev (PacketNumber.from_varint v s)
  = Ret (if 0 <? v then Some (PacketNumber.from_varint (v - 1) s) else None).
Proof.
  unfold PacketNumber.prev. rewrite pn_as_varint_from_varint.
  destruct Hv. unfold VarInt.checked_sub, checked_sub, MAX_VARINT_VALUE in *.
  zcases; by rewrite ?pn_space_from_varint.
Qed.

End Packing.

Create Rewrite HintDb pn.
#[export] Hint Rewrite pn_space_from_varint pn_as_u64_from_varint pn_as_varint_from_varint
  pn_next_from_varint pn_prev_from_varint using (unfold varint_ok in *; lia) : pn.

Lemma assert_eq_refl s : Space.assert_eq s s = Ret tt.
Proof. unfold Space.assert_eq. by rewrite bool_decide_eq_true_2. Qed.

Lemma pn_cmp_from_varint v w s :
  varint_ok v -> varint_ok w ->
  PacketNumber.cmp (PacketNumber.from_varint v s) (PacketNumber.from_varint w s) = Ret (v ?= w).
Proof.
  intros. unfold PacketNumber.cmp. rewrite !pn_space_from_varint by done. cbn [obind].
  rewrite assert_eq_refl. cbn [obind]. rewrite !from_varint_eq by done.
  by rewrite Z.add_compare_mono_l.
Qed.

Lemma pn_distance_from_varint v w s :
  varint_ok v -> varint_ok w ->
  PacketNumber.checked_distance (PacketNumber.from_varint v s) (PacketNumber.from_varint w s)
  = Ret (checked_sub v w).
Proof.
  intros. unfold PacketNumber.checked_distance. rewrite !pn_space_from_varint by done.
  cbn [obind]. rewrite assert_eq_refl. cbn [obind]. by rewrite !pn_as_u64_from_varint.
Qed.

Lemma pn_le_from_varint v w s :
  varint_ok v -> varint_ok w ->
  PacketNumberRange.pn_le (PacketNumber.from_varint v s) (PacketNumber.from_varint w s)
  = Ret (v <=? w).
Proof.
  intros. unfold PacketNumberRange.pn_le. rewrite pn_cmp_from_varint by done. cbn [obind].
  unfold Z.leb. by destruct (v ?= w).
Qed.

(** ** Lemmas: truncation *)

Lemma bitsize_cases l :
  LenValue.bitsize l = 8 \/ LenValue.bitsize l = 16 \/ LenValue.bitsize l = 24 \/ LenValue.bitsize l = 32.
Proof. destruct l; vm_compute; auto. Qed.

(** The chosen length is the least one that holds twice the distance. *)
Lemma from_varint_len_spec x l :
  0 <= x ->
  LenValue.from_varint x = Some l <->
  x < 2 ^ LenValue.bitsize l /\ (8 < LenValue.bitsize l -> 2 ^ (LenValue.bitsize l - 8) <= x).
Proof.
  intros Hx. unfold LenValue.from_varint.
  destruct l;
    [change (LenValue.bitsize LU8) with 8|change (LenValue.bitsize LU16) with 16
    |change (LenValue.bitsize LU24) with 24|change (LenValue.bitsize LU32) with 32];
    simpl (_ - 8); zcases; intuition (congruence || lia).
Qed.

Lemma from_varint_len_None x : 0 <= x -> LenValue.from_varint x = None <-> 2 ^ 32 <= x.
Proof.
  intros Hx. unfold LenValue.from_varint. zcases; intuition (congruence || lia).
Qed.

Lemma derive_truncation_range_spec v la s :
  varint_ok v -> varint_ok la ->
  derive_truncation_range (PacketNumber.from_varint la s) (PacketNumber.from_varint v s)
  = Ret (if la <=? v then mk_pnl s <$> LenValue.from_varint (2 * (v - la)) else None).
Proof.
  intros Hv Hla. unfold derive_truncation_range. autorewrite with pn. cbn [obind].
  rewrite assert_eq_refl. cbn [obind]. f_equal.
  destruct Hv, Hla. unfold MAX_VARINT_VALUE in *.
  destruct (Z.leb_spec la v) as [Hle|Hlt].
  - rewrite (proj2 (checked_sub_Some v la (v - la))) by lia. simpl.
    rewrite (proj2 (checked_mul_Some 64 (v - la) 2 _)) by (split; [reflexivity|lia]). simpl.
    unfold VarInt.new, MAX_VARINT_VALUE. replace ((v - la) * 2) with (2 * (v - la)) by lia.
    zcases; simpl; [|by destruct (LenValue.from_varint _)].
    by rewrite (proj2 (from_varint_len_None (2 * (v - la)) ltac:(lia))) by lia.
  - by rewrite (proj2 (checked_sub_None v la)) by lia.
Qed.

Lemma truncated_value l v s :
  0 <= v ->
  Truncated.into_u64 (tpn_value (LenValue.truncate_packet_number l v s))
  = v mod 2 ^ LenValue.bitsize l.
Proof.
  intros Hv. destruct l; simpl; try done.
  rewrite land_ones_mod by lia. unfold wrap. change (2 ^ 32) with (2 ^ 24 * 2 ^ 8).
  rewrite Z.rem_mul_r, Z.mul_comm, Z.mod_add, Z.mod_mod by lia. done.
Qed.

Lemma truncated_len l v s :
  Truncated.len (LenValue.truncate_packet_number l v s) = mk_pnl s l.
Proof. by destruct l. Qed.

(** ** Lemmas: expansion *)

(** A truncated value fits its width. *)
Definition tpn_ok (t : TruncatedPacketNumber) : Prop :=
  uint (Truncated.bitsize t) (Truncated.into_u64 (tpn_value t)).

Lemma candidate_eq e n t :
  0 <= e < 2 ^ 63 -> 0 < n <= 32 -> uint n t ->
  Z.lor (Z.land e (wrap 64 (Z.lnot (2 ^ n - 1)))) t = e - e mod 2 ^ n + t.
Proof.
  intros He Hn Ht.
  assert (Hm : Z.land e (wrap 64 (Z.lnot (2 ^ n - 1))) = Z.shiftl (e / 2 ^ n) n).
  { apply Z.bits_inj'. intros i Hi. rewrite Z.land_spec.
    assert (Hb : 64 <= i -> Z.testbit e i = false).
    { intros. rewrite <- (Z.mod_small e (2 ^ 64)) by lia. apply Z.mod_pow2_bits_high. lia. }
    rewrite <- Z.shiftr_div_pow2 by lia.
    replace (2 ^ n - 1) with (Z.ones n) by (rewrite Z.ones_equiv; lia).
    destruct (Z.lt_ge_cases i n).
    - rewrite Z.shiftl_spec_low by done. unfold wrap.
      rewrite Z.mod_pow2_bits_low, Z.lnot_spec, Z.ones_spec_low by lia. apply andb_false_r.
    - rewrite Z.shiftl_spec, Z.shiftr_spec by lia. replace (i - n + n) with i by lia.
      destruct (Z.lt_ge_cases i 64); [|by rewrite Hb].
      unfold wrap. rewrite Z.mod_pow2_bits_low, Z.lnot_spec, Z.ones_spec_high by lia.
      apply andb_true_r. }
  rewrite Hm, lor_shiftl_add by (unfold uint in Ht; lia).
  pose proof (Z.div_mod e (2 ^ n) ltac:(apply Z.pow_nonzero; lia)). lia.
Qed.

(** DecodePacketNumber of RFC 9000, appendix A.3, on unbounded integers. *)
Definition rfc_decode (largest_pn truncated_pn pn_nbits : Z) : Z :=
  let expected_pn := largest_pn + 1 in
  let pn_win := 2 ^ pn_nbits in
  let pn_hwin := pn_win / 2 in
  let candidate_pn := expected_pn - expected_pn mod pn_win + truncated_pn in
  if (candidate_pn <=? expected_pn - pn_hwin) && (candidate_pn <? 2 ^ 62 - pn_win)
  then candidate_pn + pn_win
  else if (expected_pn + pn_hwin <? candidate_pn) && (pn_win <=? candidate_pn)
  then candidate_pn - pn_win
  else candidate_pn.

Lemma decode_packet_number_rfc lr t :
  varint_ok lr -> tpn_ok t ->
  decode_packet_number (PacketNumber.from_varint lr (tpn_space t)) t
  = Ret (PacketNumber.from_varint
      (Z.min (rfc_decode lr (Truncated.into_u64 (tpn_value t)) (Truncated.bitsize t)) VarInt.MAX)
      (tpn_space t)).
Proof.
  intros Hlr Ht. unfold decode_packet_number. autorewrite with pn. cbn [obind].
  rewrite assert_eq_refl. cbn [obind].
  assert (Hn : 8 <= Truncated.bitsize t <= 32)
    by (unfold Truncated.bitsize; destruct (bitsize_cases (pnl_value (Truncated.len t))); lia).
  unfold tpn_ok in Ht. set (n := Truncated.bitsize t) in *.
  set (x := Truncated.into_u64 (tpn_value t)) in *.
  destruct Hlr as [H0 H1]. unfold MAX_VARINT_VALUE in H1.
  assert (Hw : 2 ^ 8 <= 2 ^ n <= 2 ^ 32) by (split; apply Z.pow_le_mono_r; lia).
  rewrite add_c_Ret by lia. cbn [obind].
  replace (wrap 64 (Z.shiftl 1 n)) with (2 ^ n)
    by (rewrite wrap_small; rewrite Z.shiftl_1_l; [done|unfold uint; lia]).
  rewrite sub_c_Ret by lia. cbn [obind]. rewrite candidate_eq by (done || lia).
  unfold rfc_decode. set (w := 2 ^ n) in *. set (e := lr + 1).
  set (h := w / 2). assert (Hh : 0 <= h <= w) by (unfold h; split; [apply Z.div_pos|apply Z.div_le_upper_bound]; lia).
  set (c := e - e mod w + x).
  assert (Hc : 0 <= c <= e + w).
  { pose proof (Z.mod_pos_bound e w). assert (e mod w <= e) by (apply Z.mod_le; lia).
    destruct Ht. unfold c. lia. }
  unfold filter_is_some, checked_sub, checked_add. change (Z.shiftl 1 62) with (2 ^ 62).
  unfold add_c, sub_c.
  zcases; cbn [andb negb obind]; zcases; cbn [obind]; by rewrite varint_clamp.
Qed.

Lemma rfc_decode_unique lr p n :
  0 < n <= 32 -> 0 <= lr -> 0 <= p < 2 ^ 62 ->
  lr + 1 - 2 ^ n / 2 < p <= lr + 1 + 2 ^ n / 2 ->
  rfc_decode lr (p mod 2 ^ n) n = p.
Proof.
  intros Hn Hlr Hp Hwin. unfold rfc_decode.
  assert (Hw : 2 ^ n = 2 * (2 ^ n / 2)).
  { replace n with (1 + (n - 1)) by lia. rewrite Z.pow_add_r by lia.
    change (2 ^ 1) with 2. by rewrite (Z.mul_comm 2 (2 ^ (n - 1))), Z.div_mul, Z.mul_comm by lia. }
  assert (Hpos : 0 < 2 ^ n) by (apply pow2_pos; lia).
  set (w := 2 ^ n) in *. set (h := w / 2) in *. set (e := lr + 1) in *.
  pose proof (Z.div_mod e w ltac:(lia)) as He. pose proof (Z.mod_pos_bound e w Hpos) as Hr.
  pose proof (Z.div_mod p w ltac:(lia)) as Hpd. pose proof (Z.mod_pos_bound p w Hpos) as Ht.
  set (q := e / w) in *. set (a := p / w) in *.
  assert (Ha : a = q + 1 \/ a = q \/ a = q - 1) by nia.
  destruct Ha as [-> | [-> | ->]]; zcases; cbn [andb]; zcases; nia.
Qed.

(** ** Lemmas: iteration over a range *)

Section Drain.
Variable s : PacketNumberSpace.
Abbreviation pn := (fun v => PacketNumber.from_varint v s).

Lemma drain_exhausted step fuel a b :
  (step = PacketNumberRange.next \/ step = PacketNumberRange.next_back) -> (0 < fuel)%nat ->
  PacketNumberRange.drain step fuel (PacketNumberRange.mk a b true) = Ret [].
Proof. intros [-> | ->] Hf; (destruct fuel as [|fuel]; [lia|done]). Qed.

Lemma drain_next n fuel a b :
  b - a + 1 = Z.of_nat n -> (n < fuel)%nat -> 0 <= a -> varint_ok b -> a <= MAX_VARINT_VALUE ->
  PacketNumberRange.drain PacketNumberRange.next fuel (PacketNumberRange.mk (PacketNumber.from_varint a s) (PacketNumber.from_varint b s) false)
  = Ret (pn <$> seqZ a (b - a + 1)).
Proof.
  intros Hn Hf Ha Hb Ha'. revert n a Hn Hf Ha Ha'.
  induction fuel as [|fuel IH]; intros n a Hn Hf Ha Ha'; [lia|].
  cbn [PacketNumberRange.drain]. unfold PacketNumberRange.next at 1.
  cbn [PacketNumberRange.exhausted PacketNumberRange.start PacketNumberRange.end_].
  rewrite pn_le_from_varint by (unfold varint_ok in *; lia). cbn [obind].
  destruct Hb as [Hb0 Hb1].
  destruct (Z.leb_spec a b) as [Hle|Hlt]; cbn [obind].
  - autorewrite with pn. cbn [obind]. rewrite (seqZ_cons a) by lia.
    destruct (Z.ltb_spec a MAX_VARINT_VALUE) as [Hlt|Hge]; cbn [obind].
    + rewrite (IH (n - 1)%nat (a + 1)) by lia. cbn [obind fmap list_fmap].
      do 2 f_equal. by replace (b - (a + 1) + 1) with (Z.pred (b - a + 1)) by lia.
    + rewrite drain_exhausted by (auto || lia). cbn [obind fmap list_fmap].
      by rewrite (seqZ_nil (Z.succ a)) by lia.
  - by rewrite seqZ_nil by lia.
Qed.

Lemma drain_next_back n fuel a b :
  b - a + 1 = Z.of_nat n -> (n < fuel)%nat -> varint_ok a -> 0 <= b -> b <= MAX_VARINT_VALUE ->
  PacketNumberRange.drain PacketNumberRange.next_back fuel
    (PacketNumberRange.mk (PacketNumber.from_varint a s) (PacketNumber.from_varint b s) false)
  = Ret (rev (pn <$> seqZ a (b - a + 1))).
Proof.
  intros Hn Hf Ha Hb Hb'. revert n b Hn Hf Hb Hb'.
  induction fuel as [|fuel IH]; intros n b Hn Hf Hb Hb'; [lia|].
  cbn [PacketNumberRange.drain]. unfold PacketNumberRange.next_back at 1.
  cbn [PacketNumberRange.exhausted PacketNumberRange.start PacketNumberRange.end_].
  rewrite pn_le_from_varint by (unfold varint_ok in *; lia). cbn [obind].
  destruct Ha as [Ha0 Ha1].
  destruct (Z.leb_spec a b) as [Hle|Hlt]; cbn [obind]; [|by rewrite seqZ_nil by lia].
  autorewrite with pn. cbn [obind].
  replace (b - a + 1) with (Z.of_nat n) by lia.
  destruct n as [|n]; [lia|].
  rewrite seqZ_S, fmap_app, rev_app_distr. cbn [fmap list_fmap rev app].
  replace (a + Z.of_nat n) with b by lia.
  destruct (Z.ltb_spec 0 b) as [Hlt|Hge]; cbn [obind].
  - rewrite pn_le_from_varint by (unfold varint_ok; lia). cbn [obind].
    destruct (Z.leb_spec a (b - 1)); cbn [negb].
    + rewrite (IH n) by lia. cbn [obind].
      replace (b - 1 - a + 1) with (Z.of_nat n) by lia. done.
    + rewrite drain_exhausted by (auto || lia). cbn [obind].
      by replace (Z.of_nat n) with 0 by lia.
  - rewrite drain_exhausted by (auto || lia). cbn [obind].
    by replace (Z.of_nat n) with 0 by lia.
Qed.
End Drain.

(** ** Properties *)

(** Packing a value and a space into one word loses nothing: the word is a
    non-zero 64-bit integer, both parts are read back, and within a space the
    order of words is the order of packet numbers. *)
Theorem packet_number_packing v w s :
  varint_ok v -> varint_ok w ->
  PacketNumber.from_varint v s <> 0
  /\ uint 64 (PacketNumber.from_varint v s)
  /\ PacketNumber.space (PacketNumber.from_varint v s) = Ret s
  /\ PacketNumber.as_varint (PacketNumber.from_varint v s) = v
  /\ PacketNumber.cmp (PacketNumber.from_varint v s) (PacketNumber.from_varint w s) = Ret (v ?= w).
Proof.
  intros Hv Hw. rewrite pn_cmp_from_varint by done. autorewrite with pn.
  rewrite from_varint_eq by done. destruct Hv. unfold MAX_VARINT_VALUE, uint in *.
  split_and!; try done; destruct s; simpl; lia.
Qed.

(** Truncation succeeds exactly when the packet number is not below the
    largest acknowledged one and twice the distance fits in 32 bits; the length
    chosen is the smallest of 1 to 4 bytes that holds twice the distance, as
    RFC 9000 17.1 demands of the sender. *)
Theorem truncate_minimal v la s :
  varint_ok v -> varint_ok la ->
  (truncate (PacketNumber.from_varint v s) (PacketNumber.from_varint la s) = Ret None
     <-> v < la \/ 2 ^ 32 <= 2 * (v - la))
  /\ forall t, truncate (PacketNumber.from_varint v s) (PacketNumber.from_varint la s)
               = Ret (Some t) ->
     tpn_space t = s /\ tpn_ok t
     /\ Truncated.into_u64 (tpn_value t) = v mod 2 ^ Truncated.bitsize t
     /\ la <= v /\ 2 * (v - la) < 2 ^ Truncated.bitsize t
     /\ (8 < Truncated.bitsize t -> 2 ^ (Truncated.bitsize t - 8) <= 2 * (v - la)).
Proof.
  intros Hv Hla. unfold truncate. rewrite derive_truncation_range_spec by done.
  cbn [obind]. autorewrite with pn. destruct Hv as [Hv _], Hla.
  destruct (Z.leb_spec la v) as [Hle|Hlt]; cbn [mbind option_bind fmap option_fmap option_map].
  2: { split; [split; [auto|done]|]. intros; rinv. }
  pose proof (from_varint_len_None (2 * (v - la)) ltac:(lia)) as HN.
  destruct (LenValue.from_varint (2 * (v - la))) as [l|] eqn:El;
    cbn [mbind option_bind fmap option_fmap option_map pnl_value pnl_space].
  - split. { split; [done|]. intros [|H']; [lia|]. by apply HN in H'. }
    intros t Ht. rinv. apply from_varint_len_spec in El as [El1 El2]; [|lia].
    unfold tpn_ok, Truncated.bitsize. rewrite truncated_len. cbn [pnl_value].
    rewrite truncated_value by done. split_and!; try done; [by destruct l|].
    apply Z.mod_pos_bound, pow2_pos. destruct (bitsize_cases l); lia.
  - split; [|intros; rinv]. split; [|done]. intros _. right. by apply HN.
Qed.

(** C27: expanding a truncated packet number is the decoding procedure of RFC
    9000 appendix A.3 (clamped to the packet number range), never panics, and
    any packet number with the truncated bits that lies in the window of
    [2^bits] numbers around the next expected one is recovered exactly. *)
Theorem decode_packet_number_window lr t :
  varint_ok lr -> tpn_ok t ->
  (exists r, decode_packet_number (PacketNumber.from_varint lr (tpn_space t)) t
             = Ret (PacketNumber.from_varint r (tpn_space t))
     /\ varint_ok r
     /\ r = Z.min (rfc_decode lr (Truncated.into_u64 (tpn_value t)) (Truncated.bitsize t)) VarInt.MAX)
  /\ forall p, varint_ok p -> p mod 2 ^ Truncated.bitsize t = Truncated.into_u64 (tpn_value t) ->
     lr + 1 - 2 ^ Truncated.bitsize t / 2 < p <= lr + 1 + 2 ^ Truncated.bitsize t / 2 ->
     decode_packet_number (PacketNumber.from_varint lr (tpn_space t)) t
     = Ret (PacketNumber.from_varint p (tpn_space t)).
Proof.
  intros Hlr Ht. rewrite decode_packet_number_rfc by done.
  assert (Hn : 8 <= Truncated.bitsize t <= 32)
    by (unfold Truncated.bitsize; destruct (bitsize_cases (pnl_value (Truncated.len t))); lia).
  destruct Hlr as [Hlr0 Hlr1]. split.
  - eexists; split; [done|]. split; [|done]. unfold varint_ok, VarInt.MAX.
    split; [|lia]. apply Z.min_glb; [|by vm_compute].
    unfold rfc_decode. destruct Ht as [Ht _].
    assert ((lr + 1) mod 2 ^ Truncated.bitsize t <= lr + 1)
      by (apply Z.mod_le; [lia|apply pow2_pos; lia]).
    assert (0 < 2 ^ Truncated.bitsize t) by (apply pow2_pos; lia).
    zcases; cbn [andb]; lia.
  - intros p [Hp0 Hp1] Hmod Hwin. rewrite <- Hmod, rfc_decode_unique; [|unfold MAX_VARINT_VALUE in *; lia..].
    unfold VarInt.MAX. by rewrite Z.min_l.
Qed.

Lemma decode_packet_number_window_witness :
  decode_packet_number (PacketNumber.from_varint 0xa82f30ea Initial) (mk_tpn Initial (TU16 0x9b32))
  = Ret (PacketNumber.from_varint 0xa82f9b32 Initial).
Proof.
  apply (proj2 (decode_packet_number_window 0xa82f30ea (mk_tpn Initial (TU16 0x9b32))
    ltac:(by vm_compute) ltac:(by vm_compute))); by vm_compute.
Defined.

(** C13: a packet number truncated against the largest acknowledged packet number
    and expanded by a receiver whose largest received packet number is at least
    that one, and ahead of the packet by less than half the window, comes back
    unchanged. *)
Theorem truncate_expand v la lr s t :
  varint_ok v -> varint_ok la -> varint_ok lr ->
  truncate (PacketNumber.from_varint v s) (PacketNumber.from_varint la s) = Ret (Some t) ->
  la <= lr < v + 2 ^ Truncated.bitsize t / 2 - 1 ->
  expand t (PacketNumber.from_varint lr s) = Ret (PacketNumber.from_varint v s).
Proof.
  intros Hv Hla Hlr Ht Hwin. pose proof Hv as [Hv0 Hv1]. pose proof Hla as [Hla0 Hla1].
  unfold truncate in Ht. rewrite derive_truncation_range_spec in Ht by done.
  cbn [obind] in Ht. autorewrite with pn in Ht.
  destruct (Z.leb_spec la v) as [Hle|]; [|done].
  destruct (LenValue.from_varint (2 * (v - la))) as [l|] eqn:El; [|done].
  apply from_varint_len_spec in El as [El _]; [|lia].
  cbn in Ht. rinv.
  assert (Hbs : Truncated.bitsize (LenValue.truncate_packet_number l v s) = LenValue.bitsize l)
    by (unfold Truncated.bitsize; by rewrite truncated_len).
  assert (Hsp : tpn_space (LenValue.truncate_packet_number l v s) = s) by by destruct l.
  assert (Hok : tpn_ok (LenValue.truncate_packet_number l v s)).
  { unfold tpn_ok. rewrite Hbs, truncated_value by done.
    apply Z.mod_pos_bound, pow2_pos. destruct (bitsize_cases l); lia. }
  unfold expand. pose proof (decode_packet_number_rfc lr _ Hlr Hok) as Hd. rewrite Hsp in Hd.
  rewrite Hd, Hbs, truncated_value by done. rewrite Hbs in Hwin.
  assert (2 ^ LenValue.bitsize l = 2 * (2 ^ LenValue.bitsize l / 2)) by by destruct l.
  rewrite rfc_decode_unique; [|destruct (bitsize_cases l); lia|lia|unfold MAX_VARINT_VALUE in *; lia|lia].
  unfold VarInt.MAX. by rewrite Z.min_l.
Qed.

Lemma truncate_expand_witness :
  exists t, truncate (PacketNumber.from_varint 1000 Handshake) (PacketNumber.from_varint 900 Handshake)
            = Ret (Some t)
    /\ expand t (PacketNumber.from_varint 1050 Handshake) = Ret (PacketNumber.from_varint 1000 Handshake).
Proof.
  eexists. split; [vm_compute; reflexivity|].
  apply (truncate_expand 1000 900 1050 Handshake); by vm_compute.
Defined.

(** A truncated packet number is written in exactly the number of bytes its
    tag mask announces, and a reader that takes the length from the packet tag
    reads the same truncated packet number back. *)
Theorem truncated_wire_roundtrip t tag rest :
  tpn_ok t -> Z.land tag 3 = LenValue.into_packet_tag_mask (pnl_value (Truncated.len t)) ->
  exists bs l,
    encodes_as (Truncated.encode t) bs
    /\ blen bs = LenValue.bytesize (pnl_value (Truncated.len t))
    /\ LenValue.from_packet_tag tag = Ret l
    /\ LenValue.decode_truncated_packet_number l (bs ++ rest) (tpn_space t) = Ok (t, rest).
Proof.
  intros Hok Htag. destruct t as [s [v|v|v|v]];
    unfold Truncated.encode, LenValue.from_packet_tag, LenValue.PACKET_NUMBER_LEN_MASK in *;
    cbn [tpn_value tpn_space Truncated.len pnl_value] in *; rewrite Htag;
    (eexists (be_bytes _ v), _; split; [apply encodes_as_uint|]; rewrite blen_be_bytes;
     split; [reflexivity|]; split; [reflexivity|]; unfold LenValue.decode_truncated_packet_number;
     rewrite decode_uint_app by exact Hok; cbn [rbind]; try reflexivity).
  rewrite land_ones_mod, Z.mod_small by (lia || exact Hok). reflexivity.
Qed.

(** Iterating a packet number range, forwards or backwards, terminates and
    yields every packet number from the start to the end once, in order, also
    when the range touches the smallest or the largest packet number. *)
Theorem packet_number_range_drain a b s fuel :
  varint_ok a -> varint_ok b -> a <= b -> (Z.to_nat (b - a + 1) < fuel)%nat ->
  exists r, PacketNumberRange.new (PacketNumber.from_varint a s) (PacketNumber.from_varint b s) = Ret r
    /\ PacketNumberRange.drain PacketNumberRange.next fuel r
       = Ret ((fun v => PacketNumber.from_varint v s) <$> seqZ a (b - a + 1))
    /\ PacketNumberRange.drain PacketNumberRange.next_back fuel r
       = Ret (rev ((fun v => PacketNumber.from_varint v s) <$> seqZ a (b - a + 1))).
Proof.
  intros Ha Hb Hle Hf. unfold PacketNumberRange.new. rewrite pn_le_from_varint by done.
  cbn [obind]. rewrite (proj2 (Z.leb_le _ _) Hle). cbn [rassert obind].
  eexists; split; [done|].
  split; [apply (drain_next s (Z.to_nat (b - a + 1)))|apply (drain_next_back s (Z.to_nat (b - a + 1)))];
    destruct Ha, Hb; unfold varint_ok; lia.
Qed.
