(* ===== verification/SlidingWindow.v ===== *)
(** * Duplicate detection (quic/s2n-quic-core/src/packet/number/sliding_window.rs)

    A 128-bit window behind the largest packet number seen.  The model keeps
    the [u128] bit field and the optional right edge; the loops of the evicted
    set's iterator and of the self-check that debug builds run after every
    insertion are included.  The abstract specification is the set of all
    packet numbers inserted so far. *)

From stdpp Require Import gmap.
From S2P Require Import Prelude Codec VarInt PacketNumber.

Record SlidingWindow := mk_sw { window : Z; right_edge : option Z }.

Inductive SlidingWindowError : Type := Duplicate | TooOld.

#[export] Instance SlidingWindowError_eq_dec : EqDecision SlidingWindowError.
Proof. solve_decision. Defined.

Inductive WindowPosition : Type :=
| Left | Right (delta : Z) | RightEdge | Within (delta : Z) | Empty.

Record EvictedSet := mk_ev { ev_window : Z; ev_right_edge : Z }.

Definition WINDOW_WIDTH : Z := 1 + 16 * 8.

(** [u128] operations. *)
Definition not128 (x : Z) : Z := umax 128 - x.
Definition shl128 (a n : Z) : outcome Z :=
  if n <? 128 then Ret (wrap 128 (Z.shiftl a n)) else Panic.
Definition checked_shl128 (a n : Z) : option Z :=
  if n <? 128 then Some (wrap 128 (Z.shiftl a n)) else None.
Definition leading_zeros128 (x : Z) : Z := if x =? 0 then 128 else 127 - Z.log2 x.

Module Evicted.

(** [EvictedSet::default()]. *)
Definition default : EvictedSet := mk_ev 0 (PacketNumber.from_varint 0 Initial).

(** One turn of the loop in [Iterator::next]: [inl] is a [return], [inr] is a
    [continue]. *)
Definition next_turn (self : EvictedSet) : outcome (option Z * EvictedSet + EvictedSet) :=
  if ev_window self =? 0 then Ret (inl (None, self))
  else
    let shift := leading_zeros128 (ev_window self) + 1 in
    let! v := VarInt.add (PacketNumber.as_varint (ev_right_edge self)) shift in
    let! sp := PacketNumber.space (ev_right_edge self) in
    let edge := PacketNumber.from_varint v sp in
    let! w := if shift =? 128 then Ret 0 else shl128 (ev_window self) shift in
    let self := mk_ev w edge in
    match VarInt.checked_sub (PacketNumber.as_varint edge) WINDOW_WIDTH with
    | Some left_edge =>
        let! sp := PacketNumber.space edge in
        Ret (inl (Some (PacketNumber.from_varint left_edge sp), self))
    | None => Ret (inr self)
    end.

Fixpoint next (fuel : nat) (self : EvictedSet) : outcome (option Z * EvictedSet) :=
  match fuel with
  | O => Panic
  | S fuel =>
      let! r := next_turn self in
      match r with
      | inl res => Ret res
      | inr self => next fuel self
      end
  end.

(** Every bit of the window is examined at most once. *)
Definition loop_fuel : nat := 129.

(** [evicted.clone()] as an iterator: all its items, in order. *)
Fixpoint items (fuel : nat) (self : EvictedSet) : outcome (list Z) :=
  match fuel with
  | O => Panic
  | S fuel =>
      let! '(item, self) := next loop_fuel self in
      match item with
      | Some pn => let! rest := items fuel self in Ret (pn :: rest)
      | None => Ret []
      end
  end.

End Evicted.

Module Window.

Definition default : SlidingWindow := mk_sw 0 None.

Definition window_position (self : SlidingWindow) (packet_number : Z) : outcome WindowPosition :=
  match right_edge self with
  | Some right_edge =>
      let! d := PacketNumber.checked_distance right_edge packet_number in
      match d with
      | Some 0 => Ret RightEdge
      | Some delta => if WINDOW_WIDTH <=? delta then Ret Left else Ret (Within delta)
      | None =>
          let! d := PacketNumber.checked_distance packet_number right_edge in
          let! delta := unwrap d in
          Ret (Right delta)
      end
  | None => Ret Empty
  end.

Definition check (self : SlidingWindow) (packet_number : Z)
    : outcome (result unit SlidingWindowError) :=
  let! p := window_position self packet_number in
  match p with
  | Left => Ret (Err TooOld)
  | RightEdge => Ret (Err Duplicate)
  | Right _ | Empty => Ret (Ok tt)
  | Within delta =>
      let! n := sub_c delta 1 in
      let! mask := shl128 1 n in
      Ret (if Z.land (window self) mask =? 0 then Ok tt else Err Duplicate)
  end.

Definition insert_with_evicted_inner (self : SlidingWindow) (packet_number : Z)
    : outcome (result EvictedSet SlidingWindowError * SlidingWindow) :=
  let! p := window_position self packet_number in
  match p with
  | Left => Ret (Err TooOld, self)
  | RightEdge => Ret (Err Duplicate, self)
  | Right delta =>
      let! '(removed, win) :=
        if delta <? WINDOW_WIDTH then
          let removed_mask :=
            if delta =? 128 then umax 128
            else not128 (Z.shiftr (umax 128) (delta mod 128)) in
          let removed := Z.land (not128 (window self)) removed_mask in
          let win := match checked_shl128 (window self) delta with Some w => w | None => 0 end in
          let! n := sub_c delta 1 in
          let! bit := shl128 1 n in
          Ret (removed, Z.lor win bit)
        else Ret (not128 (window self), 0) in
      let self' := mk_sw win (Some packet_number) in
      match right_edge self with
      | Some prev_right_edge => Ret (Ok (mk_ev removed prev_right_edge), self')
      | None =>
          let! _ := rassert (removed =? 0) in
          Ret (Ok Evicted.default, self')
      end
  | Within delta =>
      let! n := sub_c delta 1 in
      let! mask := shl128 1 n in
      let duplicate := negb (Z.land (window self) mask =? 0) in
      let self' := mk_sw (Z.lor (window self) mask) (right_edge self) in
      if duplicate then Ret (Err Duplicate, self') else Ret (Ok Evicted.default, self')
  | Empty => Ret (Ok Evicted.default, mk_sw (window self) (Some packet_number))
  end.

(** [Option<PacketNumber>] and [PacketNumber] equality, through [cmp]. *)
Definition pn_eq (a b : Z) : outcome bool :=
  let! c := PacketNumber.cmp a b in
  Ret (match c with Eq => true | _ => false end).
Definition opt_pn_eq (a b : option Z) : outcome bool :=
  match a, b with
  | Some a, Some b => pn_eq a b
  | None, None => Ret true
  | _, _ => Ret false
  end.

(** [iter.any(|e| e == pn)]. *)
Fixpoint any_eq (pn : Z) (l : list Z) : outcome bool :=
  match l with
  | [] => Ret false
  | e :: l => let! b := pn_eq e pn in if b then Ret true else any_eq pn l
  end.

Fixpoint for_each {A} (f : A -> outcome unit) (l : list A) : outcome unit :=
  match l with
  | [] => Ret tt
  | x :: l => let! _ := f x in for_each f l
  end.

(** The assertions debug builds make after an insertion. *)
Definition check_insert_result (self : SlidingWindow) (packet_number : Z)
    (initial : SlidingWindow) (res : result EvictedSet SlidingWindowError) : outcome unit :=
  match res with
  | Err _ =>
      let! _ := rassert (window self =? window initial) in
      let! b := opt_pn_eq (right_edge self) (right_edge initial) in
      rassert b
  | Ok evicted =>
      let! evicted := Evicted.items 130 evicted in
      let! _ := for_each (fun pn =>
        let! a := check initial pn in
        let! _ := rassert (is_ok a) in
        let! b := check self pn in
        rassert (match b with Err TooOld => true | _ => false end)) evicted in
      let lo := saturating_sub
        (match right_edge initial with Some e => PacketNumber.as_u64 e | None => 0 end)
        WINDOW_WIDTH in
      let hi := match right_edge initial with Some e => PacketNumber.as_u64 e | None => WINDOW_WIDTH end in
      for_each (fun pn =>
        let! v := unwrap (VarInt.ok (VarInt.new pn)) in
        let! sp := PacketNumber.space packet_number in
        let pn := PacketNumber.from_varint v sp in
        let! c := check self pn in
        match c with
        | Ok _ | Err Duplicate =>
            let! b := any_eq pn evicted in
            rassert (negb b)
        | Err TooOld =>
            let! i := check initial pn in
            let! p := window_position initial pn in
            if is_ok i && negb (match p with Empty => true | _ => false end) then
              let! b := any_eq pn evicted in
              rassert b
            else Ret tt
        end) (seqZ lo (hi - lo))
  end.

Definition insert_with_evicted (self : SlidingWindow) (packet_number : Z)
    : outcome (result EvictedSet SlidingWindowError * SlidingWindow) :=
  let! '(res, self') := insert_with_evicted_inner self packet_number in
  let! _ := check_insert_result self' packet_number self res in
  Ret (res, self').

Definition insert (self : SlidingWindow) (packet_number : Z)
    : outcome (result unit SlidingWindowError * SlidingWindow) :=
  let! '(res, self) := insert_with_evicted self packet_number in
  Ret (match res with Ok _ => Ok tt | Err e => Err e end, self).

End Window.

(** ** Abstract specification

    The state is the set [S] of the packet numbers inserted so far.  A packet
    number is too old once one at least [WINDOW_WIDTH] larger was inserted, a
    duplicate when it was inserted before, and new otherwise. *)
Module Spec.

Definition insert (S : gset Z) (v : Z) : result unit SlidingWindowError :=
  if bool_decide (set_Exists (fun u => v + WINDOW_WIDTH <= u) S) then Err TooOld
  else if bool_decide (v ∈ S) then Err Duplicate
  else Ok tt.

Definition after (S : gset Z) (v : Z) : gset Z :=
  match insert S v with Ok _ => {[v]} ∪ S | Err _ => S end.

(** What the window stores of [S], in the space [s]. *)
Definition repr (S : gset Z) (s : PacketNumberSpace) (sw : SlidingWindow) : Prop :=
  match right_edge sw with
  | None => S = ∅ /\ window sw = 0
  | Some e => exists R, varint_ok R /\ e = PacketNumber.from_varint R s
      /\ R ∈ S /\ (forall u, u ∈ S -> 0 <= u <= R)
      /\ uint 128 (window sw)
      /\ forall i, 0 <= i < 128 -> Z.testbit (window sw) i = bool_decide (R - 1 - i ∈ S)
  end.

End Spec.

(** ** Lemmas: bits *)

Lemma uint_high w n i : uint n w -> 0 <= n <= i -> Z.testbit w i = false.
Proof.
  intros Hw Hi. rewrite <- (Z.mod_small w (2 ^ n)) by exact Hw.
  apply Z.mod_pow2_bits_high. lia.
Qed.

Lemma uint_of_bits w n : 0 <= n -> 0 <= w -> (forall i, n <= i -> Z.testbit w i = false) -> uint n w.
Proof.
  intros Hn Hw Hb. assert (w = w mod 2 ^ n) as ->; [|apply Z.mod_pos_bound, pow2_pos; lia].
  apply Z.bits_inj'. intros i Hi. destruct (Z.lt_ge_cases i n).
  - by rewrite Z.mod_pow2_bits_low.
  - rewrite Z.mod_pow2_bits_high by lia. by apply Hb.
Qed.

Lemma bits_zero w n : uint n w -> 0 <= n -> (forall i, 0 <= i < n -> Z.testbit w i = false) -> w = 0.
Proof.
  intros Hw Hn Hb. apply Z.bits_inj'. intros i Hi. rewrite Z.bits_0.
  destruct (Z.lt_ge_cases i n); [by apply Hb|]. by apply (uint_high w n).
Qed.

Lemma land_pow2 w n : 0 <= n -> (Z.land w (2 ^ n) =? 0) = negb (Z.testbit w n).
Proof.
  intros Hn. destruct (Z.eqb_spec (Z.land w (2 ^ n)) 0) as [E|E].
  - apply (f_equal (fun x => Z.testbit x n)) in E.
    rewrite Z.land_spec, Z.pow2_bits_true, andb_true_r, Z.bits_0 in E by done. by rewrite E.
  - destruct (Z.testbit w n) eqn:Et; [done|]. exfalso. apply E. apply Z.bits_inj'.
    intros i Hi. rewrite Z.land_spec, Z.bits_0, Z.pow2_bits_eqb by done.
    destruct (Z.eqb_spec n i); [subst; by rewrite Et|by rewrite andb_false_r].
Qed.

Lemma shl128_1 n : 0 <= n < 128 -> shl128 1 n = Ret (2 ^ n).
Proof.
  intros Hn. unfold shl128. rewrite (proj2 (Z.ltb_lt n 128)) by lia.
  rewrite Z.shiftl_1_l, wrap_small; [done|]. split; [apply Z.pow_nonneg; lia|].
  apply Z.pow_lt_mono_r; lia.
Qed.

Lemma shl128_bits w n i :
  0 <= n -> 0 <= i < 128 ->
  Z.testbit (wrap 128 (Z.shiftl w n)) i = if n <=? i then Z.testbit w (i - n) else false.
Proof.
  intros Hn Hi. unfold wrap. rewrite Z.mod_pow2_bits_low by lia.
  destruct (Z.leb_spec n i); [apply Z.shiftl_spec_high|apply Z.shiftl_spec_low]; lia.
Qed.

Lemma not128_bits x i : uint 128 x -> 0 <= i < 128 -> Z.testbit (not128 x) i = negb (Z.testbit x i).
Proof.
  intros Hx Hi. assert (not128 x = wrap 128 (Z.lnot x)) as ->.
  { unfold not128, umax, wrap. unfold Z.lnot. apply Z.mod_unique with (-1); unfold uint in Hx; lia. }
  unfold wrap. rewrite Z.mod_pow2_bits_low by lia. apply Z.lnot_spec. lia.
Qed.

Lemma not128_uint x : uint 128 x -> uint 128 (not128 x).
Proof. unfold uint, not128, umax. lia. Qed.

Lemma removed_mask_bits delta i :
  1 <= delta <= 128 -> 0 <= i < 128 ->
  Z.testbit (if delta =? 128 then umax 128 else not128 (Z.shiftr (umax 128) (delta mod 128))) i
  = (128 - delta <=? i).
Proof.
  intros Hd Hi. assert (Hones : umax 128 = Z.ones 128) by done.
  destruct (Z.eqb_spec delta 128) as [->|Hne].
  - rewrite Hones, Z.ones_spec_low by lia. symmetry. apply Z.leb_le. lia.
  - rewrite Z.mod_small by lia. rewrite not128_bits; [|split|done].
    + rewrite Hones, Z.shiftr_spec by lia. destruct (Z.leb_spec (128 - delta) i).
      * by rewrite Z.ones_spec_high by lia.
      * by rewrite Z.ones_spec_low by lia.
    + apply Z.shiftr_nonneg. by vm_compute.
    + rewrite Z.shiftr_div_pow2 by lia. apply Z.div_lt_upper_bound; [apply pow2_pos; lia|].
      assert (0 < 2 ^ delta) by (apply pow2_pos; lia). unfold umax. nia.
Qed.

Lemma removed_mask_uint delta :
  1 <= delta <= 128 ->
  uint 128 (if delta =? 128 then umax 128 else not128 (Z.shiftr (umax 128) (delta mod 128))).
Proof.
  intros Hd. destruct (Z.eqb_spec delta 128); [by vm_compute|].
  apply not128_uint. rewrite Z.mod_small by lia. split.
  - apply Z.shiftr_nonneg. by vm_compute.
  - rewrite Z.shiftr_div_pow2 by lia. apply Z.div_lt_upper_bound; [apply pow2_pos; lia|].
    assert (0 < 2 ^ delta) by (apply pow2_pos; lia). unfold umax. nia.
Qed.

(** ** Lemmas: the evicted set's iterator *)

Section Items.
Variable s : PacketNumberSpace.

(** The packet numbers a set [(w, R)] stands for. *)
Definition in_evicted (w R u : Z) : Prop :=
  0 <= u /\ 0 <= R - 1 - u < 128 /\ Z.testbit w (R - 1 - u) = true.

(** No step runs past the largest packet number. *)
Definition edge_ok (w R : Z) : Prop :=
  forall i, 0 <= i < 128 -> Z.testbit w i = true -> R + 128 - i <= MAX_VARINT_VALUE.

Section Step.
Variables (w R : Z).
Hypotheses (Hw : uint 128 w) (Hne : w <> 0) (HR : varint_ok R) (Hedge : edge_ok w R).

(** The highest bit, the window after the shift, the edge after the shift. *)
Definition top : Z := Z.log2 w.
Definition shifted : Z := if top =? 0 then 0 else wrap 128 (Z.shiftl w (128 - top)).
Definition moved : Z := R + (128 - top).

Lemma top_range : 0 <= top < 128.
Proof.
  split; [apply Z.log2_nonneg|]. apply Z.log2_lt_pow2; [unfold uint in Hw; lia|apply Hw].
Qed.

Lemma top_bit : Z.testbit w top = true.
Proof. apply Z.bit_log2. unfold uint in Hw. lia. Qed.

Lemma shifted_bits j :
  0 <= j < 128 ->
  Z.testbit shifted j = if 128 - top <=? j then Z.testbit w (j - (128 - top)) else false.
Proof.
  intros Hj. pose proof top_range. unfold shifted. destruct (Z.eqb_spec top 0).
  - rewrite Z.bits_0. destruct (Z.leb_spec (128 - top) j); [lia|done].
  - apply shl128_bits; lia.
Qed.

Lemma shifted_uint : uint 128 shifted.
Proof. unfold shifted. destruct (top =? 0); [by vm_compute|apply wrap_range; lia]. Qed.

Lemma moved_ok : varint_ok moved.
Proof.
  pose proof top_range. pose proof (Hedge top top_range top_bit).
  unfold varint_ok, moved in *. lia.
Qed.

Lemma shifted_edge_ok : edge_ok shifted moved.
Proof.
  intros j Hj. rewrite shifted_bits by done. pose proof top_range.
  destruct (Z.leb_spec (128 - top) j); [|done].
  intros Hb. specialize (Hedge (j - (128 - top)) ltac:(lia) Hb). unfold moved. lia.
Qed.

(** The low zero bits grow with every step. *)
Lemma shifted_low c :
  0 <= c -> (forall j, 0 <= j < c -> Z.testbit w j = false) ->
  forall j, 0 <= j < c + 1 -> Z.testbit shifted j = false.
Proof.
  intros Hc Hlow j Hj. pose proof top_range.
  destruct (Z.lt_ge_cases j 128); [|apply (uint_high shifted 128); [apply shifted_uint|lia]].
  rewrite shifted_bits by lia. destruct (Z.leb_spec (128 - top) j); [|done]. apply Hlow. lia.
Qed.

Lemma in_evicted_step u :
  in_evicted w R u <-> (u = R - 1 - top /\ 0 <= u) \/ in_evicted shifted moved u.
Proof.
  pose proof top_range. unfold in_evicted, moved. split.
  - intros (Hu & Hr & Hb). destruct (Z.eq_dec u (R - 1 - top)) as [->|Hn]; [auto|right].
    assert (R - 1 - u < top).
    { destruct (Z.lt_ge_cases top (R - 1 - u)) as [Hlt|]; [|lia].
      rewrite Z.bits_above_log2 in Hb; [done|unfold uint in Hw; lia|exact Hlt]. }
    split; [done|]. split; [lia|]. rewrite shifted_bits by lia.
    destruct (Z.leb_spec (128 - top) (R + (128 - top) - 1 - u)); [|lia].
    rewrite <- Hb. f_equal. lia.
  - intros [[-> Hu]|(Hu & Hr & Hb)].
    + split; [done|]. split; [lia|]. rewrite <- top_bit. f_equal. lia.
    + rewrite shifted_bits in Hb by lia.
      destruct (Z.leb_spec (128 - top) (R + (128 - top) - 1 - u)); [|done].
      split; [done|]. split; [lia|]. rewrite <- Hb. f_equal. lia.
Qed.

Lemma next_turn_eq :
  Evicted.next_turn (mk_ev w (PacketNumber.from_varint R s))
  = Ret (let self := mk_ev shifted (PacketNumber.from_varint moved s) in
         if 0 <=? R - 1 - top
         then inl (Some (PacketNumber.from_varint (R - 1 - top) s), self)
         else inr self).
Proof.
  pose proof top_range. pose proof moved_ok as Hm. unfold Evicted.next_turn.
  cbn [ev_window ev_right_edge]. rewrite (proj2 (Z.eqb_neq w 0) Hne). unfold leading_zeros128.
  rewrite (proj2 (Z.eqb_neq w 0) Hne). fold top. replace (127 - top + 1) with (128 - top) by lia.
  autorewrite with pn. rewrite varint_add_Ret by (apply Hm). cbn [obind]. fold moved.
  assert (Hs : (if 128 - top =? 128 then Ret 0 else shl128 w (128 - top)) = Ret shifted).
  { unfold shifted, shl128. zcases; done. }
  rewrite Hs. cbn [obind]. autorewrite with pn. cbn [obind].
  unfold VarInt.checked_sub, checked_sub, WINDOW_WIDTH, moved.
  destruct (Z.leb_spec (1 + 16 * 8) (R + (128 - top))), (Z.leb_spec 0 (R - 1 - top)); try lia; [|done].
  do 5 f_equal. lia.
Qed.

End Step.

(** The low [c] bits are clear; [128 - c] bits are left to examine. *)
Definition low_clear (c : Z) (w : Z) : Prop :=
  0 <= c <= 128 /\ forall j, 0 <= j < c -> Z.testbit w j = false.

Lemma low_clear_nonzero w c : uint 128 w -> low_clear c w -> w <> 0 -> c < 128.
Proof.
  intros Hw [Hc Hl] Hne. destruct (Z.lt_ge_cases c 128); [done|].
  exfalso. apply Hne, (bits_zero w 128); [done|lia|]. intros. apply Hl. lia.
Qed.

(** What one call of [next] returns: nothing, when no packet number is in the
    set, or one, and the rest of the set. *)
Lemma next_spec fuel w R c :
  uint 128 w -> varint_ok R -> edge_ok w R -> low_clear c w -> 128 - c < Z.of_nat fuel ->
  exists item self', Evicted.next fuel (mk_ev w (PacketNumber.from_varint R s)) = Ret (item, self')
  /\ match item with
     | None => forall u, ~ in_evicted w R u
     | Some e => exists u w' R' c', e = PacketNumber.from_varint u s /\ varint_ok u
         /\ self' = mk_ev w' (PacketNumber.from_varint R' s)
         /\ uint 128 w' /\ varint_ok R' /\ edge_ok w' R' /\ low_clear c' w' /\ c < c'
         /\ (forall x, in_evicted w R x <-> x = u \/ in_evicted w' R' x)
     end.
Proof.
  revert w R c. induction fuel as [|fuel IH]; intros w R c Hw HR He Hc Hf.
  { destruct Hc. lia. }
  cbn [Evicted.next]. destruct (Z.eq_dec w 0) as [->|Hne].
  { eexists _, _. split; [reflexivity|]. intros u (_ & _ & Hb). by rewrite Z.bits_0 in Hb. }
  pose proof (low_clear_nonzero w c Hw Hc Hne) as Hc'.
  rewrite (next_turn_eq w R) by done. cbn [obind].
  assert (Hlow : low_clear (c + 1) (shifted w)).
  { destruct Hc as [? Hl]. split; [lia|]. apply shifted_low; done || lia. }
  pose proof (in_evicted_step w R Hw Hne) as Hin.
  destruct (Z.leb_spec 0 (R - 1 - top w)) as [Hle|Hlt].
  - eexists _, _. split; [reflexivity|].
    exists (R - 1 - top w), (shifted w), (moved w R), (c + 1).
    pose proof (top_range w Hw Hne).
    split_and!; try done; [unfold varint_ok in *; lia|apply shifted_uint|by apply moved_ok
      |by apply shifted_edge_ok|lia|].
    intros x. rewrite Hin. split; [intros [[-> _]|]|intros [-> |]]; auto.
  - destruct (IH (shifted w) (moved w R) (c + 1)) as (item & self' & E & Hi);
      [apply shifted_uint|by apply moved_ok|by apply shifted_edge_ok|done|lia|].
    exists item, self'. split; [exact E|]. destruct item as [e|].
    + destruct Hi as (u & w' & R' & c' & ? & ? & ? & ? & ? & ? & ? & ? & Hx).
      exists u, w', R', c'. split_and!; try done; [lia|].
      intros x. rewrite Hin, <- Hx. split; [intros [[-> ?]|?]; [lia|done]|auto].
    + intros u Hu. rewrite Hin in Hu. destruct Hu as [[-> ?]|Hu]; [lia|]. by apply (Hi u).
Qed.

(** All the items: the packet numbers of the set, and nothing else. *)
Lemma evicted_items_spec fuel w R c :
  uint 128 w -> varint_ok R -> edge_ok w R -> low_clear c w -> 128 - c < Z.of_nat fuel ->
  exists us, Evicted.items fuel (mk_ev w (PacketNumber.from_varint R s))
             = Ret ((fun u => PacketNumber.from_varint u s) <$> us)
    /\ (forall u, u ∈ us <-> in_evicted w R u) /\ Forall varint_ok us.
Proof.
  revert w R c. induction fuel as [|fuel IH]; intros w R c Hw HR He Hc Hf.
  { destruct Hc. lia. }
  cbn [Evicted.items].
  destruct (next_spec Evicted.loop_fuel w R c Hw HR He Hc) as (item & self' & E & Hi).
  { destruct Hc. unfold Evicted.loop_fuel. lia. }
  rewrite E. cbn [obind]. destruct item as [e|].
  - destruct Hi as (u & w' & R' & c' & -> & Hu & -> & Hw' & HR' & He' & Hc' & Hlt & Hx).
    destruct (IH w' R' c' Hw' HR' He' Hc' ltac:(lia)) as (us & Eus & Hus & Hok).
    exists (u :: us). rewrite Eus. cbn [obind]. split; [done|]. split; [|by constructor].
    intros x. rewrite elem_of_cons, Hx, Hus. done.
  - exists []. split; [done|]. split; [|constructor]. intros u. rewrite elem_of_nil.
    split; [done|]. apply Hi.
Qed.

End Items.

(** ** Lemmas: positions and checks *)

Section Insert.
Variable s : PacketNumberSpace.
Abbreviation pn v := (PacketNumber.from_varint v s).

Lemma window_position_spec w R v :
  varint_ok R -> varint_ok v ->
  Window.window_position (mk_sw w (Some (pn R))) (pn v)
  = Ret (if v =? R then RightEdge
         else if R <? v then Right (v - R)
         else if WINDOW_WIDTH <=? R - v then Left else Within (R - v)).
Proof.
  intros HR Hv. unfold Window.window_position. cbn [right_edge].
  rewrite !pn_distance_from_varint by done. cbn [obind]. unfold checked_sub.
  destruct (Z.leb_spec v R) as [Hle|Hlt].
  - destruct (R - v) eqn:E; zcases; done.
  - zcases. done.
Qed.

Lemma check_spec S sw v :
  Spec.repr S s sw -> varint_ok v -> Window.check sw (pn v) = Ret (Spec.insert S v).
Proof.
  intros Hr Hv. unfold Window.check, Spec.insert. destruct sw as [w [e|]]; cbn in Hr.
  2: { destruct Hr as [-> _]. unfold Window.window_position. cbn [obind right_edge].
    rewrite !bool_decide_eq_false_2; [done|set_solver|].
    intros (u & Hu & _). set_solver. }
  destruct Hr as (R & HR & -> & HRS & HS & Hw & Hbits).
  rewrite window_position_spec by done. cbn [obind].
  assert (Hold : set_Exists (fun u => v + WINDOW_WIDTH <= u) S <-> v + WINDOW_WIDTH <= R).
  { split; [intros (u & Hu & Hle); specialize (HS u Hu); lia|]. intros. by exists R. }
  unfold WINDOW_WIDTH in *.
  destruct (Z.eqb_spec v R) as [->|Hne]; [|destruct (Z.ltb_spec R v) as [Hlt|Hle]].
  - rewrite bool_decide_eq_false_2 by (rewrite Hold; lia).
    by rewrite bool_decide_eq_true_2.
  - rewrite bool_decide_eq_false_2 by (rewrite Hold; lia).
    rewrite bool_decide_eq_false_2; [done|]. intros Hin. specialize (HS v Hin). lia.
  - destruct (Z.leb_spec (1 + 16 * 8) (R - v)).
    + by rewrite bool_decide_eq_true_2 by (rewrite Hold; lia).
    + rewrite bool_decide_eq_false_2 by (rewrite Hold; lia).
      rewrite sub_c_Ret by lia. cbn [obind]. rewrite shl128_1 by lia. cbn [obind window].
      rewrite land_pow2, Hbits by lia. replace (R - 1 - (R - v - 1)) with v by lia.
      by destruct (bool_decide (v ∈ S)).
Qed.

Lemma repr_right_edge_ok S sw R :
  Spec.repr S s sw -> right_edge sw = Some (pn R) -> varint_ok R -> R ∈ S /\ forall u, u ∈ S -> 0 <= u <= R.
Proof.
  unfold Spec.repr. intros Hr E HR. rewrite E in Hr.
  destruct Hr as (R' & HR' & Heq & Hin & HS & _).
  apply (f_equal PacketNumber.as_u64) in Heq. rewrite !pn_as_u64_from_varint in Heq by done. by subst.
Qed.

(** The window after a jump of [delta] to the right. *)
Lemma insert_right_window S w R v :
  Spec.repr S s (mk_sw w (Some (pn R))) -> varint_ok R -> varint_ok v -> R < v ->
  exists removed w',
    Window.insert_with_evicted_inner (mk_sw w (Some (pn R))) (pn v)
    = Ret (Ok (mk_ev removed (pn R)), mk_sw w' (Some (pn v)))
    /\ uint 128 removed /\ uint 128 w'
    /\ (forall i, 0 <= i < 128 ->
          Z.testbit removed i = negb (Z.testbit w i) && (128 - (v - R) <=? i))
    /\ (forall i, 0 <= i < 128 ->
          Z.testbit w' i = if v - R <=? i then Z.testbit w (i - (v - R)) else i =? v - R - 1).
Proof.
  intros Hr HR Hv Hlt. cbn in Hr. destruct Hr as (R' & HR' & Heq & _ & _ & Hw & _).
  unfold Window.insert_with_evicted_inner. rewrite window_position_spec by done. cbn [obind].
  rewrite (proj2 (Z.eqb_neq v R)) by lia. rewrite (proj2 (Z.ltb_lt R v)) by lia.
  cbn [window right_edge]. set (d := v - R). unfold WINDOW_WIDTH.
  destruct (Z.ltb_spec d (1 + 16 * 8)) as [Hd|Hd].
  - rewrite sub_c_Ret by lia. cbn [obind]. rewrite shl128_1 by lia. cbn [obind].
    eexists _, _. split; [reflexivity|].
    pose proof (removed_mask_uint d ltac:(lia)) as Hm.
    assert (Hshl : uint 128 (match checked_shl128 w d with Some w => w | None => 0 end)).
    { unfold checked_shl128. destruct (d <? 128); [apply wrap_range; lia|by vm_compute]. }
    split_and!.
    + apply uint_of_bits; [lia|apply Z.land_nonneg; left; apply not128_uint, Hw|].
      intros i Hi. rewrite Z.land_spec, (uint_high _ 128 i Hm) by lia. apply andb_false_r.
    + apply uint_of_bits; [lia|apply Z.lor_nonneg; split; [apply Hshl|apply Z.pow_nonneg; lia]|].
      intros i Hi. rewrite Z.lor_spec, (uint_high _ 128 i Hshl), Z.pow2_bits_false by lia. done.
    + intros i Hi. rewrite Z.land_spec, not128_bits, removed_mask_bits by (done || lia). done.
    + intros i Hi. rewrite Z.lor_spec, Z.pow2_bits_eqb by lia. unfold checked_shl128.
      destruct (Z.ltb_spec d 128); [rewrite shl128_bits by lia|rewrite Z.bits_0];
        destruct (Z.leb_spec d i); try lia; cbn [orb];
        try (by destruct (Z.eqb_spec (d - 1) i), (Z.eqb_spec i (d - 1)); lia || done).
      destruct (Z.eqb_spec (d - 1) i); [lia|]. apply orb_false_r.
  - cbn [obind]. eexists _, _. split; [reflexivity|].
    split_and!; [by apply not128_uint|by vm_compute| |].
    + intros i Hi. rewrite not128_bits by done. destruct (Z.leb_spec (128 - d) i); [|lia].
      by rewrite andb_true_r.
    + intros i Hi. rewrite Z.bits_0. destruct (Z.leb_spec d i); [lia|].
      symmetry. apply Z.eqb_neq. lia.
Qed.

(** The packet numbers below the right edge that were still acceptable before
    the insertion of [v] and are too old after it. *)
Definition slid_past (S : gset Z) (v u : Z) : Prop :=
  0 <= u /\ Spec.insert S u = Ok tt /\ (exists m, m ∈ S /\ u < m) /\ u + WINDOW_WIDTH <= v.

Lemma spec_ok S u :
  Spec.insert S u = Ok tt <-> (u ∉ S) /\ forall m, m ∈ S -> m < u + WINDOW_WIDTH.
Proof.
  unfold Spec.insert.
  destruct (bool_decide_reflect (set_Exists (fun m => u + WINDOW_WIDTH <= m) S)) as [(m & Hin & Hle)|H].
  - split; [done|]. intros [_ Hm]. specialize (Hm m Hin). lia.
  - destruct (bool_decide_reflect (u ∈ S)); [split; [done|tauto]|]. split; [|done]. intros _. split; [done|].
    intros m Hin. apply Z.nle_gt. intros Hle. apply H. by exists m.
Qed.

Lemma spec_insert_empty v : Spec.insert ∅ v = Ok tt.
Proof. apply spec_ok. split; set_solver. Qed.

(** What an insertion must return and leave behind. *)
Definition insert_ok (S : gset Z) (sw : SlidingWindow) (v : Z)
    (res : result EvictedSet SlidingWindowError) (sw' : SlidingWindow) : Prop :=
  (match res with Ok _ => Ok tt | Err e => Err e end) = Spec.insert S v
  /\ Spec.repr (Spec.after S v) s sw'
  /\ match res with
     | Err _ => sw' = sw
     | Ok ev => exists us, Evicted.items 130 ev = Ret ((fun u => pn u) <$> us)
         /\ (forall u, u ∈ us <-> slid_past S v u) /\ Forall varint_ok us
     end.

Lemma items_default : Evicted.items 130 Evicted.default = Ret [].
Proof. done. Qed.

Section Jump.
Variables (S : gset Z) (w R v : Z).
Hypotheses (HR : varint_ok R) (Hv : varint_ok v) (Hlt : R < v) (HRS : R ∈ S)
  (HS : forall u, u ∈ S -> 0 <= u <= R)
  (Hbits : forall i, 0 <= i < 128 -> Z.testbit w i = bool_decide (R - 1 - i ∈ S)).

Lemma jump_new : Spec.insert S v = Ok tt.
Proof.
  apply spec_ok. unfold WINDOW_WIDTH.
  split; [intros Hin|intros m Hin]; specialize (HS _ Hin); lia.
Qed.

Lemma jump_repr w' :
  uint 128 w' ->
  (forall i, 0 <= i < 128 ->
     Z.testbit w' i = if v - R <=? i then Z.testbit w (i - (v - R)) else i =? v - R - 1) ->
  Spec.repr ({[v]} ∪ S) s (mk_sw w' (Some (pn v))).
Proof.
  intros Hw' Hwb. exists v. cbn [window]. split_and!; try done; [set_solver| |].
  - intros u [->%elem_of_singleton|Hu]%elem_of_union; [destruct Hv; lia|].
    specialize (HS u Hu). lia.
  - intros i Hi. rewrite Hwb by done. destruct (Z.leb_spec (v - R) i).
    + rewrite Hbits by lia. apply bool_decide_ext.
      replace (R - 1 - (i - (v - R))) with (v - 1 - i) by lia. split; [set_solver|].
      intros [Hu%elem_of_singleton|Hu]%elem_of_union; [lia|done].
    + symmetry. destruct (Z.eqb_spec i (v - R - 1)) as [->|Hni].
      * apply bool_decide_eq_true_2. replace (v - 1 - (v - R - 1)) with R by lia. set_solver.
      * apply bool_decide_eq_false_2. intros [Hu%elem_of_singleton|Hu]%elem_of_union; [lia|].
        specialize (HS _ Hu). lia.
Qed.

Lemma jump_evicted removed :
  uint 128 removed ->
  (forall i, 0 <= i < 128 ->
     Z.testbit removed i = negb (Z.testbit w i) && (128 - (v - R) <=? i)) ->
  exists us, Evicted.items 130 (mk_ev removed (pn R)) = Ret ((fun u => pn u) <$> us)
    /\ (forall u, u ∈ us <-> slid_past S v u) /\ Forall varint_ok us.
Proof.
  intros Hrem Hrb.
  destruct (evicted_items_spec s 130 removed R 0) as (us & Eus & Hus & Hok); [done|done| |split; [lia|lia]|lia|].
  { intros i Hi Hb. rewrite Hrb in Hb by done. apply andb_true_iff in Hb as [_ Hb].
    apply Z.leb_le in Hb. destruct Hv. lia. }
  exists us. split; [done|]. split; [|done]. intros u. rewrite Hus.
  unfold in_evicted, slid_past. rewrite spec_ok. unfold WINDOW_WIDTH. split.
  - intros (Hu & Hr' & Hb). rewrite Hrb in Hb by done. apply andb_true_iff in Hb as [Hb1 Hb2].
    apply Z.leb_le in Hb2. rewrite Hbits in Hb1 by done.
    replace (R - 1 - (R - 1 - u)) with u in Hb1 by lia.
    apply negb_true_iff, bool_decide_eq_false in Hb1.
    split_and!; [done|done|intros m Hm; specialize (HS m Hm); lia|exists R; split; [done|lia]|lia].
  - intros (Hu & [Hnin Hm] & (m & Hin & Hlt') & Hold).
    specialize (HS m Hin) as Hm'. specialize (Hm R HRS).
    split; [done|]. split; [lia|]. rewrite Hrb, Hbits by lia. apply andb_true_iff.
    replace (R - 1 - (R - 1 - u)) with u by lia. rewrite bool_decide_eq_false_2 by done.
    split; [done|]. apply Z.leb_le. lia.
Qed.
End Jump.

Lemma insert_within_ok S w R v :
  varint_ok R -> varint_ok v -> R ∈ S -> (forall u, u ∈ S -> 0 <= u <= R) -> uint 128 w ->
  (forall i, 0 <= i < 128 -> Z.testbit w i = bool_decide (R - 1 - i ∈ S)) ->
  v < R -> R - v < WINDOW_WIDTH ->
  let w' := Z.lor w (2 ^ (R - v - 1)) in
  (v ∈ S -> w' = w) /\ Spec.repr ({[v]} ∪ S) s (mk_sw w' (Some (pn R))).
Proof.
  intros HR Hv HRS HS Hw Hbits Hlt Hwin w'. unfold WINDOW_WIDTH in Hwin.
  assert (Hw' : uint 128 w').
  { apply uint_of_bits; [lia|apply Z.lor_nonneg; split; [apply Hw|apply Z.pow_nonneg; lia]|].
    intros i Hi. unfold w'. by rewrite Z.lor_spec, (uint_high _ 128 i Hw), Z.pow2_bits_false by lia. }
  split.
  - intros Hin. apply Z.bits_inj'. intros i Hi. unfold w'. rewrite Z.lor_spec, Z.pow2_bits_eqb by lia.
    destruct (Z.eqb_spec (R - v - 1) i) as [<-|]; [|apply orb_false_r].
    rewrite Hbits by lia. replace (R - 1 - (R - v - 1)) with v by lia.
    by rewrite bool_decide_eq_true_2.
  - exists R. cbn [window]. split_and!; try done; [set_solver| |].
    + intros u [->%elem_of_singleton|Hu]%elem_of_union; [destruct Hv; lia|by apply HS].
    + intros i Hi. unfold w'. rewrite Z.lor_spec, Hbits, Z.pow2_bits_eqb by lia.
      destruct (Z.eqb_spec (R - v - 1) i) as [<-|Hne].
      * rewrite orb_true_r. symmetry. apply bool_decide_eq_true_2.
        replace (R - 1 - (R - v - 1)) with v by lia. set_solver.
      * rewrite orb_false_r. apply bool_decide_ext. split; [set_solver|].
        intros [Hu%elem_of_singleton|Hu]%elem_of_union; [lia|done].
Qed.

Lemma inner_ok S sw v :
  Spec.repr S s sw -> varint_ok v ->
  exists res sw', Window.insert_with_evicted_inner sw (pn v) = Ret (res, sw')
    /\ insert_ok S sw v res sw'.
Proof.
  intros Hr Hv. pose proof (check_spec S sw v Hr Hv) as Hc. unfold Window.check in Hc.
  destruct sw as [w [e|]].
  2: { destruct Hr as [-> Hw]. cbn in Hw. subst w. eexists _, _. split; [reflexivity|].
    unfold insert_ok, Spec.after. rewrite spec_insert_empty. split; [done|]. split.
    - exists v. cbn [window]. split_and!; try done; [set_solver|..].
      + intros u [->%elem_of_singleton|Hu]%elem_of_union; [destruct Hv; lia|set_solver].
      + intros i Hi'. rewrite Z.bits_0. symmetry. apply bool_decide_eq_false_2.
        intros [Hu%elem_of_singleton|Hu]%elem_of_union; [lia|set_solver].
    - exists []. split; [apply items_default|]. split; [|constructor]. intros u. unfold slid_past.
      split; [set_solver|]. intros (_ & _ & (m & Hm & _) & _). set_solver. }
  pose proof Hr as (R & HR & -> & HRS & HS & Hw & Hbits). cbn [window] in *.
  destruct (Z.lt_ge_cases R v) as [Hlt|Hge].
  { destruct (insert_right_window S w R v Hr HR Hv Hlt) as (removed & w' & E & Hrem & Hw' & Hrb & Hwb).
    eexists _, _. split; [exact E|]. unfold insert_ok, Spec.after.
    rewrite (jump_new S R v) by done. split; [done|]. split; [by apply (jump_repr S w R v)|].
    by apply (jump_evicted S w R v). }
  unfold Window.insert_with_evicted_inner. rewrite window_position_spec in * by done.
  cbn [obind] in *. unfold insert_ok, Spec.after.
  destruct (Z.eqb_spec v R) as [->|Hne].
  { injection Hc as Hc. rewrite <- Hc. by eexists _, _. }
  rewrite (proj2 (Z.ltb_ge R v)) in * by lia.
  destruct (Z.leb_spec WINDOW_WIDTH (R - v)) as [Hl|Hl].
  { injection Hc as Hc. rewrite <- Hc. by eexists _, _. }
  destruct (insert_within_ok S w R v) as [Hdup Hrep]; try done; [lia|].
  unfold WINDOW_WIDTH in *. rewrite sub_c_Ret in * by lia. cbn [obind] in *.
  rewrite shl128_1 in * by lia. cbn [obind window right_edge] in *.
  injection Hc as Hc. rewrite land_pow2, Hbits in * by lia.
  replace (R - 1 - (R - v - 1)) with v in * by lia.
  destruct (bool_decide_reflect (v ∈ S)) as [Hin|Hnin]; cbn [negb] in *; rewrite <- Hc.
  - rewrite Hdup by done. by eexists _, _.
  - eexists _, _. split; [reflexivity|]. split; [done|]. split; [done|].
    exists []. split; [apply items_default|]. split; [|constructor]. intros u. unfold slid_past.
    rewrite spec_ok. split; [set_solver|]. intros (_ & [_ Hm] & _ & Hle). specialize (Hm R HRS).
    unfold WINDOW_WIDTH in *. lia.
Qed.

(** ** The self-check of debug builds *)

Lemma for_each_Ret {A} (f : A -> outcome unit) l :
  (forall x, x ∈ l -> f x = Ret tt) -> Window.for_each f l = Ret tt.
Proof.
  induction l as [|x l IH]; intros H; cbn [Window.for_each]; [done|].
  rewrite H by set_solver. cbn [obind]. apply IH. intros. apply H. set_solver.
Qed.

Lemma any_eq_spec v us :
  varint_ok v -> Forall varint_ok us ->
  Window.any_eq (pn v) ((fun u => pn u) <$> us) = Ret (bool_decide (v ∈ us)).
Proof.
  intros Hv. induction 1 as [|u us Hu Hus IH]; [done|]. cbn [fmap list_fmap Window.any_eq].
  unfold Window.pn_eq. rewrite pn_cmp_from_varint by done. cbn [obind].
  destruct (Z.compare_spec u v) as [->|Hlt|Hlt].
  - symmetry. f_equal. apply bool_decide_eq_true_2. set_solver.
  - etransitivity; [exact IH|]. f_equal. apply bool_decide_ext.
    rewrite elem_of_cons. split; [auto|]. intros [-> |]; [lia|done].
  - etransitivity; [exact IH|]. f_equal. apply bool_decide_ext.
    rewrite elem_of_cons. split; [auto|]. intros [-> |]; [lia|done].
Qed.

Lemma spec_too_old S u : Spec.insert S u = Err TooOld <-> exists m, m ∈ S /\ u + WINDOW_WIDTH <= m.
Proof.
  unfold Spec.insert.
  destruct (bool_decide_reflect (set_Exists (fun m => u + WINDOW_WIDTH <= m) S)) as [H|H].
  - split; [|done]. intros _. destruct H as (m & ? & ?). eauto.
  - split; [by case_bool_decide|]. intros (m & Hin & Hle). exfalso. apply H. by exists m.
Qed.

Lemma check_evicted_Ret S sw v sw' u :
  Spec.repr S s sw -> Spec.repr (Spec.after S v) s sw' -> Spec.insert S v = Ok tt ->
  varint_ok u -> slid_past S v u ->
  (let! a := Window.check sw (pn u) in
   let! _ := rassert (is_ok a) in
   let! b := Window.check sw' (pn u) in
   rassert (match b with Err TooOld => true | _ => false end)) = Ret tt.
Proof.
  intros Hr Hr' Hok Hu (Hu0 & Hins & _ & Hle).
  rewrite (check_spec S sw u), (check_spec (Spec.after S v) sw' u), Hins by done. cbn.
  assert (Spec.insert (Spec.after S v) u = Err TooOld) as ->; [|done].
  apply spec_too_old. exists v. split; [|done]. unfold Spec.after. rewrite Hok. set_solver.
Qed.

Lemma too_old_after S v x R :
  Spec.insert S v = Ok tt -> Spec.insert (Spec.after S v) x = Err TooOld ->
  Spec.insert S x = Ok tt -> R ∈ S -> x < R -> 0 <= x -> slid_past S v x.
Proof.
  intros Hok Hold Hx HR Hlt Hx0. split; [done|]. split; [done|]. split; [eauto|].
  apply spec_too_old in Hold as (m & Hin & Hle). unfold Spec.after in Hin. rewrite Hok in Hin.
  apply elem_of_union in Hin as [->%elem_of_singleton|Hin]; [done|].
  apply spec_ok in Hx as [_ Hx]. specialize (Hx m Hin). lia.
Qed.

Lemma not_slid_past_after S v x :
  Spec.insert S v = Ok tt -> slid_past S v x -> Spec.insert (Spec.after S v) x = Err TooOld.
Proof.
  intros Hok (_ & _ & _ & Hle). apply spec_too_old. exists v. split; [|done].
  unfold Spec.after. rewrite Hok. set_solver.
Qed.

(** The packet numbers the self-check visits lie below the right edge. *)
Lemma checked_range_ok S sw x :
  Spec.repr S s sw ->
  let lo := saturating_sub
    (match right_edge sw with Some e => PacketNumber.as_u64 e | None => 0 end) WINDOW_WIDTH in
  let hi := match right_edge sw with Some e => PacketNumber.as_u64 e | None => WINDOW_WIDTH end in
  x ∈ seqZ lo (hi - lo) ->
  varint_ok x /\ (right_edge sw = None \/
    exists w R, sw = mk_sw w (Some (pn R)) /\ varint_ok R /\ R ∈ S /\ x < R).
Proof.
  intros Hr lo hi Hx%elem_of_seqZ. subst lo hi. destruct sw as [w [e|]]; cbn [right_edge] in *.
  - destruct Hr as (R & HR & -> & HRS & _). autorewrite with pn in Hx.
    unfold saturating_sub, WINDOW_WIDTH in Hx. destruct HR as [HR0 HR1].
    split; [unfold varint_ok; lia|right]. exists w, R. split_and!; try done; lia.
  - unfold saturating_sub, WINDOW_WIDTH in Hx. split; [|by left].
    unfold varint_ok, MAX_VARINT_VALUE. lia.
Qed.

Lemma check_insert_result_Ret S sw v res sw' :
  Spec.repr S s sw -> varint_ok v -> insert_ok S sw v res sw' ->
  Window.check_insert_result sw' (pn v) sw res = Ret tt.
Proof.
  intros Hr Hv (Hres & Hr' & Hm). unfold Window.check_insert_result. destruct res as [ev|e].
  2: { subst sw'. rewrite Z.eqb_refl. cbn [rassert obind]. destruct sw as [w [e'|]]; [|done].
    destruct Hr as (R & HR & -> & _). cbn [right_edge Window.opt_pn_eq]. unfold Window.pn_eq.
    rewrite pn_cmp_from_varint, Z.compare_refl by done. done. }
  symmetry in Hres. destruct Hm as (us & Eus & Hus & Hok). rewrite Eus. cbn [obind].
  rewrite for_each_Ret; cbn [obind].
  2: { intros x (u & -> & Hu)%list_elem_of_fmap. rewrite Forall_forall in Hok.
    apply (check_evicted_Ret S sw v sw' u); try done; [by apply Hok|by apply Hus]. }
  apply for_each_Ret. intros x Hx.
  destruct (checked_range_ok S sw x Hr Hx) as [Hxok Hedge].
  unfold VarInt.new. rewrite (proj2 (Z.ltb_ge _ _) (proj2 Hxok)). cbn [VarInt.ok unwrap obind].
  rewrite pn_space_from_varint by done. cbn [obind].
  rewrite (check_spec (Spec.after S v)), any_eq_spec by done. cbn [obind].
  assert (Hnot : Spec.insert (Spec.after S v) x <> Err TooOld -> (x ∉ us)).
  { intros Hne Hin. by apply Hne, not_slid_past_after, Hus. }
  destruct (Spec.insert (Spec.after S v) x) as [[]|[]] eqn:Ex;
    [by rewrite bool_decide_eq_false_2 by (by apply Hnot)..|].
  rewrite (check_spec S) by done. cbn [obind].
  destruct Hedge as [E|(w & R & -> & HR & HRS & Hlt)].
  { unfold Window.window_position. rewrite E. cbn [obind]. by rewrite andb_false_r. }
  rewrite window_position_spec by done. cbn [obind].
  destruct (Spec.insert S x) as [[]|] eqn:Esx; cbn [is_ok andb]; [|done].
  rewrite bool_decide_eq_true_2; [by zcases|]. apply Hus. destruct Hxok.
  by apply (too_old_after S v x R).
Qed.

Lemma insert_with_evicted_ok S sw v :
  Spec.repr S s sw -> varint_ok v ->
  exists res sw', Window.insert_with_evicted sw (pn v) = Ret (res, sw')
    /\ insert_ok S sw v res sw'.
Proof.
  intros Hr Hv. destruct (inner_ok S sw v Hr Hv) as (res & sw' & E & Hi).
  exists res, sw'. split; [|done]. unfold Window.insert_with_evicted. rewrite E. cbn [obind].
  by rewrite (check_insert_result_Ret S sw v res sw').
Qed.

End Insert.

(** A connection's sequence of insertions, from the empty window. *)
Fixpoint insert_all (sw : SlidingWindow) (pns : list Z)
    : outcome (list (result unit SlidingWindowError) * SlidingWindow) :=
  match pns with
  | [] => Ret ([], sw)
  | pn :: pns =>
      let! '(r, sw) := Window.insert sw pn in
      let! '(rs, sw) := insert_all sw pns in
      Ret (r :: rs, sw)
  end.

(** The same on the abstract state. *)
Fixpoint spec_all (S : gset Z) (vs : list Z) : list (result unit SlidingWindowError) * gset Z :=
  match vs with
  | [] => ([], S)
  | v :: vs => let '(rs, S') := spec_all (Spec.after S v) vs in (Spec.insert S v :: rs, S')
  end.

Lemma window_insert_spec s S sw v :
  Spec.repr S s sw -> varint_ok v ->
  exists sw', Window.insert sw (PacketNumber.from_varint v s) = Ret (Spec.insert S v, sw')
    /\ Spec.repr (Spec.after S v) s sw'.
Proof.
  intros Hr Hv. destruct (insert_with_evicted_ok s S sw v Hr Hv) as (res & sw' & E & H1 & H2 & _).
  exists sw'. split; [|done]. unfold Window.insert. rewrite E. cbn [obind]. by rewrite <- H1.
Qed.

Lemma insert_all_spec s S sw vs :
  Spec.repr S s sw -> Forall varint_ok vs ->
  exists sw', insert_all sw ((fun v => PacketNumber.from_varint v s) <$> vs)
              = Ret ((spec_all S vs).1, sw')
    /\ Spec.repr (spec_all S vs).2 s sw'.
Proof.
  intros Hr Hvs. revert S sw Hr. induction Hvs as [|v vs Hv Hvs IH]; intros S sw Hr.
  - exists sw. done.
  - cbn [fmap list_fmap insert_all spec_all].
    destruct (window_insert_spec s S sw v Hr Hv) as (sw1 & E1 & Hr1). rewrite E1. cbn [obind].
    destruct (IH (Spec.after S v) sw1 Hr1) as (sw2 & E2 & Hr2).
    destruct (spec_all (Spec.after S v) vs) as [rs S'] eqn:Es. cbn in *.
    rewrite E2. cbn [obind]. eauto.
Qed.

Lemma after_mono S v u : u ∈ S -> u ∈ Spec.after S v.
Proof. unfold Spec.after. destruct (Spec.insert S v); set_solver. Qed.

Lemma spec_all_seen S vs v j :
  v ∈ S -> vs !! j = Some v -> exists e, (spec_all S vs).1 !! j = Some (Err e).
Proof.
  revert S j. induction vs as [|w vs IH]; intros S j Hin Hj; [done|].
  cbn [spec_all]. destruct (spec_all (Spec.after S w) vs) as [rs S'] eqn:Es.
  destruct j as [|j]; cbn in *.
  - injection Hj as ->. destruct (Spec.insert S v) as [[]|e] eqn:E; [|eauto].
    apply spec_ok in E as [Hn _]. done.
  - specialize (IH (Spec.after S w) j (after_mono _ _ _ Hin) Hj). by rewrite Es in IH.
Qed.

(** ** Properties *)

(** C7: the bit-field window refines the set of packet numbers inserted so far:
    [insert] (with its debug-build self-check, which never fires) and [check]
    return exactly what the set says (new, duplicate, or too old), and the
    window keeps representing the set. *)
Theorem sliding_window_refines s S sw v :
  Spec.repr S s sw -> varint_ok v ->
  Window.check sw (PacketNumber.from_varint v s) = Ret (Spec.insert S v)
  /\ exists sw', Window.insert sw (PacketNumber.from_varint v s) = Ret (Spec.insert S v, sw')
     /\ Spec.repr (Spec.after S v) s sw'
     /\ (is_ok (Spec.insert S v) = false -> sw' = sw).
Proof.
  intros Hr Hv. split; [by apply check_spec|].
  destruct (insert_with_evicted_ok s S sw v Hr Hv) as (res & sw' & E & H1 & H2 & H3).
  exists sw'. split_and!; [|done|].
  - unfold Window.insert. rewrite E. cbn [obind]. by rewrite <- H1.
  - rewrite <- H1. by destruct res.
Qed.

Lemma sliding_window_refines_witness :
  exists sw', Window.insert Window.default (PacketNumber.from_varint 5 Initial) = Ret (Ok tt, sw').
Proof.
  destruct (sliding_window_refines Initial ∅ Window.default 5) as [_ (sw' & E & _)].
  - done.
  - by vm_compute.
  - exists sw'. rewrite <- (spec_insert_empty 5). exact E.
Defined.

(** The evicted set an insertion reports holds exactly the packet numbers
    below the old right edge that would have been accepted before and are too
    old after, and iterating it terminates without overflow. *)
Theorem evicted_exact s S sw v ev sw' :
  Spec.repr S s sw -> varint_ok v ->
  Window.insert_with_evicted sw (PacketNumber.from_varint v s) = Ret (Ok ev, sw') ->
  exists us, Evicted.items 130 ev = Ret ((fun u => PacketNumber.from_varint u s) <$> us)
    /\ forall u, u ∈ us <->
         0 <= u /\ Spec.insert S u = Ok tt /\ (exists m, m ∈ S /\ u < m)
         /\ Spec.insert (Spec.after S v) u = Err TooOld.
Proof.
  intros Hr Hv E.
  destruct (insert_with_evicted_ok s S sw v Hr Hv) as (res & sw2 & E2 & H1 & _ & H3).
  rewrite E in E2. injection E2 as <- <-. destruct H3 as (us & Eus & Hus & _).
  exists us. split; [done|]. intros u. rewrite Hus. split.
  - intros Hs. pose proof (not_slid_past_after S v u (eq_sym H1) Hs) as Ho.
    by destruct Hs as (? & ? & ? & _).
  - intros (Hu & Hins & (m & Hm & Hlt) & Ho). by apply (too_old_after S v u m).
Qed.

(** Over any sequence of packets on a connection, starting from the empty
    window, no packet number is accepted twice. *)
Theorem no_packet_accepted_twice s vs :
  Forall varint_ok vs ->
  exists rs sw, insert_all Window.default ((fun v => PacketNumber.from_varint v s) <$> vs) = Ret (rs, sw)
    /\ length rs = length vs
    /\ forall i j v, (i < j)%nat -> vs !! i = Some v -> vs !! j = Some v ->
         rs !! i = Some (Ok tt) -> exists e, rs !! j = Some (Err e).
Proof.
  intros Hvs. destruct (insert_all_spec s ∅ Window.default vs) as (sw & E & _); [done|done|].
  eexists _, sw. split; [exact E|]. clear E Hvs. generalize (∅ : gset Z).
  induction vs as [|w vs IH]; intros S.
  - split; [done|]. intros i j v _ Hi. done.
  - cbn [spec_all]. destruct (IH (Spec.after S w)) as [Hl Hd].
    pose proof (spec_all_seen (Spec.after S w) vs) as Hseen.
    destruct (spec_all (Spec.after S w) vs) as [rs S'] eqn:Es. cbn in *.
    split; [lia|]. intros [|i] [|j] v Hij Hi Hj Hr; try lia; cbn in *.
    + injection Hi as ->. injection Hr as Hr. apply (Hseen v); [|done].
      unfold Spec.after. rewrite Hr. set_solver.
    + apply (Hd i j v); done || lia.
Qed.

(** The packet numbers between the old right edge and the new window are slid
    past without being reported: after packet 0, packet 1000 makes packet 5 too
    old, and the evicted set is empty. *)
Example evicted_skips_gap :
  match Window.insert_with_evicted (mk_sw 0 (Some (PacketNumber.from_varint 0 Initial)))
          (PacketNumber.from_varint 1000 Initial) with
  | Ret (Ok ev, sw') =>
      Evicted.items 130 ev = Ret []
      /\ Window.check (mk_sw 0 (Some (PacketNumber.from_varint 0 Initial)))
           (PacketNumber.from_varint 5 Initial) = Ret (Ok tt)
      /\ Window.check sw' (PacketNumber.from_varint 5 Initial) = Ret (Err TooOld)
  | _ => False
  end.
Proof. vm_compute. done. Qed.
