(* ===== verification/PacketMap.v ===== *)
(** * The map of packet numbers in flight

    [packet/number/map/mod.rs]: a ring buffer of values indexed by packet number,
    with a moving range of the packet numbers it holds.  [capacity n] is the
    capacity [Vec::with_capacity(n)] returns, which is at least [n]; failure of
    the allocation is not modelled. *)
From stdpp Require Import gmap.
From S2P Require Import Prelude Codec VarInt PacketNumber.

Module PacketMap.
Section Map.
Context {V : Type} (capacity : Z -> Z).

Record Map := mk_map {
  values : list (option V);
  start : Z;
  end_ : Z;
  index : Z
}.

Definition DEFAULT_CAPACITY : Z := 8.

Definition default : Map :=
  let base := PacketNumber.from_varint 0 Initial in
  let values := replicate (Z.to_nat (capacity DEFAULT_CAPACITY)) None in
  mk_map values base base (vlen values).

Definition is_empty (self : Map) : bool := index self =? vlen (values self).

(** [new_len *= 2] until [len < new_len]. *)
Fixpoint grow (fuel : nat) (new_len len : Z) : outcome Z :=
  match fuel with
  | O => Panic
  | S fuel =>
      let! new_len := mul_c 64 new_len 2 in
      if len <? new_len then Ret new_len else grow fuel new_len len
  end.
Definition resize (self : Map) (len : Z) : outcome Map :=
  let! new_len := grow 64 (vlen (values self)) len in
  let rotated := drop (Z.to_nat (index self)) (values self) ++ take (Z.to_nat (index self)) (values self) in
  let padding := Z.to_nat (capacity new_len - vlen rotated) in
  Ret (mk_map (rotated ++ replicate padding None) (start self) (end_ self) 0).

Definition pn_gt (a b : Z) : outcome bool :=
  let! c := PacketNumber.cmp a b in Ret (match c with Gt => true | _ => false end).
Definition pn_ge (a b : Z) : outcome bool :=
  let! c := PacketNumber.cmp a b in Ret (match c with Lt => false | _ => true end).

(** The slot for a packet number, growing the ring if it is beyond it. *)
Definition insert_index (self : Map) (packet_number : Z) : outcome (Map * Z) :=
  let! distance := sub_c (PacketNumber.as_u64 packet_number) (PacketNumber.as_u64 (start self)) in
  if vlen (values self) <=? distance then
    let! self := resize self distance in Ret (self, distance)
  else
    let! i := add_c 64 (index self) distance in
    Ret (self, i mod vlen (values self)).

Definition insert_first (self : Map) (packet_number : Z) (value : V) : outcome Map :=
  let! values := vset (values self) 0 (Some value) in
  Ret (mk_map values packet_number packet_number 0).

Definition insert (self : Map) (packet_number : Z) (value : V) : outcome Map :=
  if is_empty self then insert_first self packet_number value else
  let! gt_start := pn_gt packet_number (start self) in
  let! gt_end := if gt_start then pn_gt packet_number (end_ self) else Ret false in
  let! _ := rassert gt_end in
  let! '(self, index') := insert_index self packet_number in
  let! values := vset (values self) index' (Some value) in
  Ret (mk_map values (start self) packet_number (index self)).

(** [update] is a closure over a state of its own. *)
Definition insert_or_update {S} (self : Map) (packet_number : Z) (value : V) (update : S -> V -> outcome (S * V)) (s : S)
    : outcome (Map * S) :=
  if is_empty self then let! self := insert_first self packet_number value in Ret (self, s) else
  let! ge := pn_ge packet_number (start self) in
  let! _ := rassert ge in
  let! '(self, index') := insert_index self packet_number in
  let! entry := vindex (values self) index' in
  let! '(s, entry) := match entry with Some prev => update s prev | None => Ret (s, value) end in
  let! values := vset (values self) index' (Some entry) in
  let! gt := pn_gt packet_number (end_ self) in
  Ret (mk_map values (start self) (if gt then packet_number else end_ self) (index self), s).

Definition pn_index (self : Map) (packet_number : Z) : outcome (option Z) :=
  if is_empty self then Ret None else
  let! beyond := pn_gt packet_number (end_ self) in
  if beyond then Ret None else
  let! offset := PacketNumber.checked_distance packet_number (start self) in
  match offset with
  | None => Ret None
  | Some offset =>
      match checked_add 64 (index self) offset with
      | None => Ret None
      | Some i => Ret (Some (i mod vlen (values self)))
      end
  end.

Definition get (self : Map) (packet_number : Z) : outcome (option V) :=
  let! i := pn_index self packet_number in
  match i with None => Ret None | Some i => vindex (values self) i end.

(** [if let Some(v) = map.get_mut(pn) { *v = f(v) }]. *)
Definition get_mut (self : Map) (packet_number : Z) (f : V -> V) : outcome Map :=
  let! i := pn_index self packet_number in
  match i with
  | None => Ret self
  | Some i =>
      let! entry := vindex (values self) i in
      match entry with
      | None => Ret self
      | Some v =>
          let! values := vset (values self) i (Some (f v)) in
          Ret (mk_map values (start self) (end_ self) (index self))
      end
  end.

Definition logical_clear (self : Map) : Map :=
  mk_map (values self) (start self) (end_ self) (vlen (values self)).

(** [for packet_number in range { if self.get(packet_number).is_some() {..} }]. *)
Fixpoint first_occupied (self : Map) (pns : list Z) : outcome Z :=
  match pns with
  | [] => Panic
  | pn :: pns =>
      let! v := get self pn in
      match v with Some _ => Ret pn | None => first_occupied self pns end
  end.

(** Enough iterations for any range within the ring. *)
Definition ring_fuel (self : Map) : nat := S (S (length (values self))).

Definition check_bounds (self : Map) (packet_number : Z) : outcome unit :=
  let! _ := rassert (negb (is_empty self)) in
  let! ge := pn_ge packet_number (start self) in
  let! _ := rassert ge in
  let! le := pn_ge (end_ self) packet_number in
  rassert le.

Definition set_start (self : Map) (packet_number : Z) : outcome Map :=
  let! _ := check_bounds self packet_number in
  let! range := PacketNumberRange.new packet_number (end_ self) in
  let! pns := PacketNumberRange.drain PacketNumberRange.next (ring_fuel self) range in
  let! packet_number := first_occupied self pns in
  let! i := pn_index self packet_number in
  let! i := unwrap i in
  let self := mk_map (values self) packet_number (end_ self) i in
  let! le := pn_ge (end_ self) (start self) in
  let! _ := rassert le in
  let! again := pn_index self packet_number in
  let! _ := rassert (match again with Some j => j =? i | None => false end) in
  Ret self.

Definition set_end (self : Map) (packet_number : Z) : outcome Map :=
  let! _ := check_bounds self packet_number in
  let! range := PacketNumberRange.new (start self) packet_number in
  let! pns := PacketNumberRange.drain PacketNumberRange.next_back (ring_fuel self) range in
  let! packet_number := first_occupied self pns in
  let self := mk_map (values self) (start self) packet_number (index self) in
  let! le := pn_ge (end_ self) (start self) in
  let! _ := rassert le in
  Ret self.

Definition pn_eqb (a b : Z) : outcome bool :=
  let! c := PacketNumber.cmp a b in Ret (match c with Eq => true | _ => false end).

Definition remove (self : Map) (packet_number : Z) : outcome (Map * option V) :=
  let! i := pn_index self packet_number in
  match i with
  | None => Ret (self, None)
  | Some i =>
      let! info := vindex (values self) i in
      match info with
      | None => Ret (self, None)
      | Some info =>
          let! values := vset (values self) i None in
          let self := mk_map values (start self) (end_ self) (index self) in
          let! at_start := pn_eqb (start self) packet_number in
          let! at_end := pn_eqb (end_ self) packet_number in
          let! self :=
            match at_start, at_end with
            | true, true => Ret (logical_clear self)
            | true, false =>
                let! next := PacketNumber.next packet_number in
                let! next := unwrap next in
                set_start self next
            | false, true =>
                let! prev := PacketNumber.prev packet_number in
                let! prev := unwrap prev in
                set_end self prev
            | false, false => Ret self
            end in
          Ret (self, Some info)
      end
  end.

Definition get_range (self : Map) : outcome PacketNumberRange.t := PacketNumberRange.new (start self) (end_ self).

(** [RemoveIter]: the map, the next packet number and slot, and how many to go. *)
Record RemoveIter := mk_remove_iter {
  packets : Map;
  packet_number : option Z;
  ri_index : Z;
  remaining : Z
}.

Definition remove_iter_new (self : Map) (range : PacketNumberRange.t) : outcome RemoveIter :=
  let iter := mk_remove_iter self None (index self) 0 in
  if is_empty self then Ret iter else
  let! below := pn_gt (start self) (PacketNumberRange.end_ range) in
  let! above := if below then Ret false else pn_gt (PacketNumberRange.start range) (end_ self) in
  if below || above then Ret iter else
  let! c_start := PacketNumber.cmp (PacketNumberRange.start range) (start self) in
  let! c_end := PacketNumber.cmp (PacketNumberRange.end_ range) (end_ self) in
  let! '(self', first, last, i) :=
    match c_start, c_end with
    | Lt, Eq | Lt, Gt | Eq, Gt | Eq, Eq => Ret (logical_clear self, start self, end_ self, index self)
    | Lt, Lt | Eq, Lt =>
        let last := PacketNumberRange.end_ range in
        let! next := PacketNumber.next last in
        let! next := unwrap next in
        let! self' := set_start self next in
        Ret (self', start self, last, index self)
    | Gt, Gt | Gt, Eq =>
        let first := PacketNumberRange.start range in
        let! i := pn_index self first in
        let! i := unwrap i in
        let! prev := PacketNumber.prev first in
        let! prev := unwrap prev in
        let! self' := set_end self prev in
        Ret (self', first, end_ self, i)
    | Gt, Lt =>
        let first := PacketNumberRange.start range in
        let! i := pn_index self first in
        let! i := unwrap i in
        Ret (self, first, PacketNumberRange.end_ range, i)
    end in
  let! n := sub_c (PacketNumber.as_u64 last) (PacketNumber.as_u64 first) in
  let! n := add_c 64 n 1 in
  let! _ := rassert (n <=? vlen (values self')) in
  Ret (mk_remove_iter self' (Some first) i n).

(** The iterator consumed (or dropped): the entries it yields, and the map. *)
Fixpoint remove_iter_drain (fuel : nat) (values : list (option V)) (packet_number : option Z) (i : Z)
    : outcome (list (Z * V) * list (option V)) :=
  match fuel with
  | O => Ret ([], values)
  | S fuel =>
      match packet_number with
      | None => Ret ([], values)
      | Some pn =>
          let! next := PacketNumber.next pn in
          let! i1 := add_c 64 i 1 in
          let! info := vindex values i in
          let! values' := vset values i None in
          let! '(rest, values') := remove_iter_drain fuel values' next (i1 mod vlen values) in
          Ret (match info with Some info => (pn, info) :: rest | None => rest end, values')
      end
  end.
Definition remove_range (self : Map) (range : PacketNumberRange.t) : outcome (list (Z * V) * Map) :=
  let! iter := remove_iter_new self range in
  let m := packets iter in
  let! '(removed, values) :=
    remove_iter_drain (Z.to_nat (remaining iter)) (values m) (packet_number iter) (ri_index iter) in
  Ret (removed, mk_map values (start m) (end_ m) (index m)).

(** [Iter]: the entries in the order of their packet numbers. *)
Fixpoint iter_loop (ring : list (option V)) (packet_number : option Z) (remaining : nat) : outcome (list (Z * V)) :=
  match remaining with
  | O => Ret []
  | S remaining =>
      match packet_number with
      | None => Ret []
      | Some pn =>
          let! next := PacketNumber.next pn in
          match ring with
          | [] => iter_loop [] next remaining
          | slot :: ring =>
              let! rest := iter_loop ring next remaining in
              Ret (match slot with Some info => (pn, info) :: rest | None => rest end)
          end
      end
  end.
Definition iter (self : Map) : outcome (list (Z * V)) :=
  let ring := drop (Z.to_nat (index self)) (values self) ++ take (Z.to_nat (index self)) (values self) in
  if is_empty self then Ret [] else
  let! n := sub_c (PacketNumber.as_u64 (end_ self)) (PacketNumber.as_u64 (start self)) in
  let! n := add_c 64 n 1 in
  let! _ := rassert (n <=? vlen (values self)) in
  iter_loop ring (Some (start self)) (Z.to_nat n).

Fixpoint clear_loop (self : Map) (pns : list Z) : outcome Map :=
  match pns with
  | [] => Ret self
  | pn :: pns =>
      let! i := pn_index self pn in
      let! self :=
        match i with
        | Some i =>
            let! values := vset (values self) i None in
            Ret (mk_map values (start self) (end_ self) (index self))
        | None => Ret self
        end in
      clear_loop self pns
  end.
Definition clear (self : Map) : outcome Map :=
  if is_empty self then Ret self else
  let! range := PacketNumberRange.new (start self) (end_ self) in
  let! pns := PacketNumberRange.drain PacketNumberRange.next (ring_fuel self) range in
  let! self := clear_loop self pns in
  Ret (logical_clear self).
End Map.
End PacketMap.
