(* ===== verification/MapInterface.v ===== *)
(** * What a map of packet numbers promises

    The interface the two maps of packet numbers share: their operations, and
    the finite map each of them stands for.  Sequences of operations are run
    against the interface. *)
From stdpp Require Import gmap.
From S2P Require Import Prelude Codec VarInt PacketNumber.

Section Entries.
Context {V : Type} (sp : PacketNumberSpace).

Local Abbreviation pn := (fun n => PacketNumber.from_varint n sp).

(** The entries of a map with keys from [a] to [b], in order. *)
Definition entries (M : gmap Z V) (a b : Z) : list (Z * V) :=
  omap (fun k => (fun v => (pn k, v)) <$> M !! k) (seqZ a (b - a + 1)).

Lemma omap_cons_match {A B} (f : A -> option B) x l :
  omap f (x :: l) = match f x with Some y => y :: omap f l | None => omap f l end.
Proof. done. Qed.

Lemma omap_seqZ_ext {B} (f g : Z -> option B) a n :
  (forall k, a <= k < a + n -> f k = g k) -> omap f (seqZ a n) = omap g (seqZ a n).
Proof.
  intros H. apply list_omap_ext, Forall_Forall2_diag, Forall_forall. intros k Hk%elem_of_seqZ. by apply H.
Qed.

(** A map without the keys from [a] to [b]. *)
Definition without (M : gmap Z V) (a b : Z) : gmap Z V := filter (fun kv => ~ (a <= kv.1 <= b)) M.

Lemma lookup_without M a b k : without M a b !! k = if decide (a <= k <= b) then None else M !! k.
Proof.
  unfold without. rewrite map_lookup_filter. destruct (M !! k) as [v |]; cbn; [| by case_decide].
  repeat case_guard; case_decide; done.
Qed.

Lemma entries_none (M : gmap Z V) x n :
  (forall k, x <= k < x + n -> M !! k = None) -> omap (fun k => (fun v => (pn k, v)) <$> M !! k) (seqZ x n) = [].
Proof.
  intros H. rewrite (omap_seqZ_ext _ (fun _ => None)) by (intros k Hk; by rewrite H). by induction (seqZ x n).
Qed.

(** Only the keys that are present matter. *)
Lemma entries_restrict M a b a' b' :
  a <= a' -> b' <= b -> a' <= b' + 1 -> (forall k, a <= k <= b -> ~ (a' <= k <= b') -> M !! k = None) ->
  entries M a b = entries M a' b'.
Proof.
  intros Ha Hb Hab Hno. unfold entries.
  replace (b - a + 1) with (a' - a + (b' - a' + 1) + (b - b')) by lia.
  rewrite !seqZ_app, !omap_app by lia. replace (a + (a' - a)) with a' by lia.
  rewrite (entries_none M a) by (intros; apply Hno; lia). rewrite (entries_none M (a + (a' - a + (b' - a' + 1)))) by (intros; apply Hno; lia).
  by rewrite app_nil_r.
Qed.

(** Every entry, in the order of the packet numbers. *)
Definition all_entries (M : gmap Z V) : list (Z * V) := entries M 0 MAX_VARINT_VALUE.

Lemma all_entries_empty : all_entries ∅ = [].
Proof.
  unfold all_entries. rewrite (entries_restrict ∅ 0 MAX_VARINT_VALUE 0 (-1)); [reflexivity | lia | unfold MAX_VARINT_VALUE; lia | lia | done].
Qed.

Definition range (a b : Z) : PacketNumberRange.t := PacketNumberRange.mk (pn a) (pn b) false.

Lemma range_new a b : varint_ok a -> varint_ok b -> a <= b -> PacketNumberRange.new (pn a) (pn b) = Ret (range a b).
Proof.
  intros. unfold PacketNumberRange.new. rewrite pn_le_from_varint by done. cbn [obind].
  by rewrite (proj2 (Z.leb_le _ _)) by lia.
Qed.
End Entries.

(** ** The interface *)

(** The operations, with packet numbers in their packed form. *)
Class PacketNumberMap (T V : Type) := {
  m_insert : T -> Z -> V -> outcome T;
  m_insert_or_update : forall S, T -> Z -> V -> (S -> V -> outcome (S * V)) -> S -> outcome (T * S);
  m_get : T -> Z -> outcome (option V);
  m_get_mut : T -> Z -> (V -> V) -> outcome T;
  m_remove : T -> Z -> outcome (T * option V);
  m_remove_range : T -> PacketNumberRange.t -> outcome (list (Z * V) * T);
  m_iter : T -> outcome (list (Z * V));
  m_is_empty : T -> bool;
  m_clear : T -> outcome T
}.

(** A representation of finite maps that every operation respects, with packet
    numbers inserted in order. *)
Class PacketNumberMapLaws {T V : Type} `{PacketNumberMap T V} (sp : PacketNumberSpace) (rep : T -> gmap Z V -> Prop) := {
  insert_law m M n x : rep m M -> varint_ok n -> (forall k, is_Some (M !! k) -> k < n) ->
    exists m', m_insert m (PacketNumber.from_varint n sp) x = Ret m' /\ rep m' (<[n:=x]> M);
  insert_or_update_law S m M n x upd (s s' : S) y :
    rep m M -> varint_ok n -> (M = ∅ \/ exists k, is_Some (M !! k) /\ k <= n) ->
    match M !! n with Some p => upd s p = Ret (s', y) | None => s' = s /\ y = x end ->
    exists m', m_insert_or_update S m (PacketNumber.from_varint n sp) x upd s = Ret (m', s') /\ rep m' (<[n:=y]> M);
  get_law m M n : rep m M -> varint_ok n -> m_get m (PacketNumber.from_varint n sp) = Ret (M !! n);
  get_mut_law m M n f : rep m M -> varint_ok n ->
    exists m', m_get_mut m (PacketNumber.from_varint n sp) f = Ret m' /\ rep m' (alter f n M);
  remove_law m M n : rep m M -> varint_ok n ->
    exists m', m_remove m (PacketNumber.from_varint n sp) = Ret (m', M !! n) /\ rep m' (delete n M);
  remove_range_law m M a b : rep m M -> varint_ok a -> varint_ok b -> a <= b ->
    exists m', m_remove_range m (range sp a b) = Ret (entries sp M a b, m') /\ rep m' (without M a b);
  iter_law m M : rep m M -> m_iter m = Ret (all_entries sp M);
  is_empty_law m M : rep m M -> m_is_empty m = bool_decide (M = ∅);
  clear_law m M : rep m M -> exists m', m_clear m = Ret m' /\ rep m' ∅
}.

(** ** Sequences of operations *)

Section Run.
Context {T V : Type} `{PacketNumberMap T V} (sp : PacketNumberSpace).

Local Abbreviation pn := (fun n => PacketNumber.from_varint n sp).

Inductive op :=
  | Insert (n : Z) (x : V)
  | InsertOrUpdate (n : Z) (x : V) (update : V -> V)
  | Get (n : Z)
  | GetMut (n : Z) (f : V -> V)
  | Remove (n : Z)
  | RemoveRange (a b : Z)
  | Iter
  | IsEmpty
  | Clear.

Inductive answer :=
  | Done
  | Value (v : option V)
  | Entries (l : list (Z * V))
  | Flag (b : bool).

Definition exec (m : T) (o : op) : outcome (T * answer) :=
  match o with
  | Insert n x => let! m := m_insert m (pn n) x in Ret (m, Done)
  | InsertOrUpdate n x update =>
      let! '(m, _) := m_insert_or_update unit m (pn n) x (fun s v => Ret (s, update v)) tt in Ret (m, Done)
  | Get n => let! v := m_get m (pn n) in Ret (m, Value v)
  | GetMut n f => let! m := m_get_mut m (pn n) f in Ret (m, Done)
  | Remove n => let! '(m, v) := m_remove m (pn n) in Ret (m, Value v)
  | RemoveRange a b =>
      let! r := PacketNumberRange.new (pn a) (pn b) in
      let! '(l, m) := m_remove_range m r in Ret (m, Entries l)
  | Iter => let! l := m_iter m in Ret (m, Entries l)
  | IsEmpty => Ret (m, Flag (m_is_empty m))
  | Clear => let! m := m_clear m in Ret (m, Done)
  end.

Fixpoint exec_all (m : T) (os : list op) : outcome (list answer) :=
  match os with
  | [] => Ret []
  | o :: os => let! '(m, a) := exec m o in let! rest := exec_all m os in Ret (a :: rest)
  end.

(** What the operations mean on a finite map. *)
Definition spec_state (M : gmap Z V) (o : op) : gmap Z V :=
  match o with
  | Insert n x => <[n := x]> M
  | InsertOrUpdate n x update => <[n := match M !! n with Some v => update v | None => x end]> M
  | GetMut n f => alter f n M
  | Remove n => delete n M
  | RemoveRange a b => without M a b
  | Clear => ∅
  | Get _ | Iter | IsEmpty => M
  end.
Definition spec_answer (M : gmap Z V) (o : op) : answer :=
  match o with
  | Get n | Remove n => Value (M !! n)
  | RemoveRange a b => Entries (entries sp M a b)
  | Iter => Entries (all_entries sp M)
  | IsEmpty => Flag (bool_decide (M = ∅))
  | Insert _ _ | InsertOrUpdate _ _ _ | GetMut _ _ | Clear => Done
  end.
Fixpoint spec_all (M : gmap Z V) (os : list op) : list answer :=
  match os with [] => [] | o :: os => spec_answer M o :: spec_all (spec_state M o) os end.

(** The order the code asks for: a new packet number is above every one in the
    map, an updated one is not below every one. *)
Definition in_order (M : gmap Z V) (o : op) : Prop :=
  match o with
  | Insert n _ => varint_ok n /\ map_Forall (fun k _ => k < n) M
  | InsertOrUpdate n _ _ => varint_ok n /\ (M = ∅ \/ map_Exists (fun k _ => k <= n) M)
  | Get n | GetMut n _ | Remove n => varint_ok n
  | RemoveRange a b => varint_ok a /\ varint_ok b /\ a <= b
  | Iter | IsEmpty | Clear => True
  end.
Fixpoint all_in_order (M : gmap Z V) (os : list op) : Prop :=
  match os with [] => True | o :: os => in_order M o /\ all_in_order (spec_state M o) os end.

(** Any map with the laws answers as the finite map does. *)
Context (rep : T -> gmap Z V -> Prop) `{!PacketNumberMapLaws sp rep}.

(** One operation simulates its meaning. *)
Lemma exec_ok m M o :
  rep m M -> in_order M o -> exists m', exec m o = Ret (m', spec_answer M o) /\ rep m' (spec_state M o).
Proof.
  intros HM Ho. destruct o as [n x | n x update | n | n f | n | a b | | |]; cbn [exec spec_answer spec_state in_order] in *.
  - destruct Ho as [Hn Hmax]. destruct (insert_law m M n x) as (m' & -> & Hr); [done.. | intros k [v Hk]; by eapply Hmax |]. by exists m'.
  - destruct Ho as [Hn Hmin].
    destruct (insert_or_update_law unit m M n x (fun s v => Ret (s, update v)) tt tt (match M !! n with Some v => update v | None => x end))
      as (m' & -> & Hr); [done.. | | by destruct (M !! n) | by exists m'].
    destruct Hmin as [-> | (k & v & Hk & Hle)]; [by left | right; exists k; by rewrite Hk].
  - exists m. by rewrite (get_law m M).
  - destruct (get_mut_law m M n f) as (m' & -> & Hr); [done.. |]. by exists m'.
  - destruct (remove_law m M n) as (m' & -> & Hr); [done.. |]. by exists m'.
  - destruct Ho as (Ha & Hb & Hab). rewrite range_new by done. cbn [obind].
    destruct (remove_range_law m M a b) as (m' & -> & Hr); [done.. |]. by exists m'.
  - exists m. by rewrite (iter_law m M).
  - exists m. by rewrite (is_empty_law m M).
  - destruct (clear_law m M) as (m' & -> & Hr); [done |]. by exists m'.
Qed.

Lemma exec_all_ok os : forall m M, rep m M -> all_in_order M os -> exec_all m os = Ret (spec_all M os).
Proof.
  induction os as [| o os IH]; intros m M HM Hos; [done |]. destruct Hos as [Ho Hos].
  destruct (exec_ok m M o) as (m' & E & Hr); [done.. |]. cbn [exec_all spec_all]. rewrite E. cbn [obind].
  by rewrite (IH m' (spec_state M o)).
Qed.
End Run.
