(* ===== verification/PacketMapThm.v ===== *)
(** * The packet number map is a finite map

    The ring buffer implements a finite map from packet numbers to values: every
    operation returns what the finite map does, and none of its assertions
    fails, as long as packet numbers are inserted in the order the code asks
    for. *)
From stdpp Require Import gmap.
From S2P Require Import Prelude Codec VarInt PacketNumber PacketMap MapInterface.
Import PacketMap.

#[export] Instance map_interface {V} (capacity : Z -> Z) : PacketNumberMap (@Map V) V := {
  m_insert := insert capacity;
  m_insert_or_update S := insert_or_update capacity;
  m_get := get;
  m_get_mut := get_mut;
  m_remove := remove;
  m_remove_range := remove_range;
  m_iter := iter;
  m_is_empty := is_empty;
  m_clear := clear
}.

Section MapThm.
Context {V : Type} (capacity : Z -> Z) (sp : PacketNumberSpace).
(** [Vec::with_capacity]: at least what was asked for, below [isize::MAX]. *)
Hypothesis capacity_ok : forall n, 0 < n < 2 ^ 63 -> n <= capacity n < 2 ^ 63.

Local Abbreviation Map := (@Map V).
Local Abbreviation pn := (fun n => PacketNumber.from_varint n sp).
Local Abbreviation len m := (vlen (values m)).

(** ** Positions in the ring *)

Definition pos (m : Map) (k : Z) : Z := (index m + k) mod len m.
Definition slot (m : Map) (k : Z) : option V := mjoin (vget (values m) (pos m k)).

Lemma mod_ring i k n :
  0 <= i < n -> 0 <= k < n -> (i + k) mod n = if decide (i + k < n) then i + k else i + k - n.
Proof.
  intros Hi Hk. case_decide.
  - apply Z.mod_small. lia.
  - symmetry. apply (Z.mod_unique_pos _ _ 1); lia.
Qed.

Lemma pos_range m k : 0 <= index m < len m -> 0 <= pos m k < len m.
Proof. intros H. apply Z.mod_pos_bound. lia. Qed.

Lemma pos_inj m j k :
  0 <= index m < len m -> 0 <= j < len m -> 0 <= k < len m -> pos m j = pos m k -> j = k.
Proof.
  intros Hi Hj Hk. unfold pos. rewrite !mod_ring by lia. repeat case_decide; lia.
Qed.

Lemma vget_slot m k : 0 <= index m < len m -> vget (values m) (pos m k) = Some (slot m k).
Proof.
  intros H. destruct (vget_Some (values m) (pos m k)) as [x E]; [by apply pos_range |].
  unfold slot. by rewrite E.
Qed.

Lemma vindex_slot m k : 0 <= index m < len m -> vindex (values m) (pos m k) = Ret (slot m k).
Proof. intros H. unfold vindex. by rewrite vget_slot. Qed.

(** Writing the slot of an offset changes that slot alone. *)
Lemma set_slot m k x :
  0 <= index m < len m -> 0 <= k < len m ->
  exists vs, vset (values m) (pos m k) x = Ret vs /\ vlen vs = len m
    /\ forall s e j, 0 <= j < len m ->
         slot (mk_map vs s e (index m)) j = if decide (j = k) then x else slot m j.
Proof.
  intros Hi Hk. destruct (vset_spec (values m) (pos m k) x) as (vs & E & L & G); [by apply pos_range |].
  exists vs. split; [done |]. split; [done |]. intros s e j Hj. unfold slot, pos. cbn [values index]. rewrite L, G.
  fold (pos m j). case_decide as Hp; case_decide as Hjk; try done.
  - destruct Hjk. by apply (pos_inj m).
  - subst j. done.
Qed.

(** ** The invariant *)

(** The ring holds packet numbers from [s] to [e]; [slot] counts from [s]. *)
Definition ring_ok (m : Map) (s e : Z) : Prop :=
  start m = pn s /\ end_ m = pn e /\ varint_ok s /\ varint_ok e /\ s <= e /\ e - s < len m
  /\ 0 <= index m < len m /\ len m < 2 ^ 63.

Definition holds (m : Map) (s e : Z) (M : gmap Z V) : Prop :=
  ring_ok m s e /\ slot m 0 <> None /\ slot m (e - s) <> None
  /\ (forall k, e - s < k < len m -> slot m k = None)
  /\ forall n, M !! n = if decide (s <= n <= e) then slot m (n - s) else None.

Definition vacant (m : Map) : Prop := forall i, 0 <= i < len m -> vget (values m) i = Some None.

Definition map_ok (m : Map) (M : gmap Z V) : Prop :=
  0 < len m < 2 ^ 63 /\ ((index m = len m /\ M = ∅ /\ vacant m) \/ exists s e, holds m s e M).

Lemma is_empty_ring m s e : ring_ok m s e -> is_empty m = false.
Proof. intros (_ & _ & _ & _ & _ & _ & H & _). unfold is_empty. apply Z.eqb_neq. lia. Qed.

Lemma pn_gt_spec a b : varint_ok a -> varint_ok b -> pn_gt (pn a) (pn b) = Ret (b <? a).
Proof.
  intros. unfold pn_gt. rewrite pn_cmp_from_varint by done. cbn [obind]. f_equal.
  destruct (Z.compare_spec a b), (Z.ltb_spec b a); done || lia.
Qed.
Lemma pn_ge_spec a b : varint_ok a -> varint_ok b -> pn_ge (pn a) (pn b) = Ret (b <=? a).
Proof.
  intros. unfold pn_ge. rewrite pn_cmp_from_varint by done. cbn [obind]. f_equal.
  destruct (Z.compare_spec a b), (Z.leb_spec b a); done || lia.
Qed.
Lemma pn_eqb_spec a b : varint_ok a -> varint_ok b -> pn_eqb (pn a) (pn b) = Ret (a =? b).
Proof.
  intros. unfold pn_eqb. rewrite pn_cmp_from_varint by done. cbn [obind]. f_equal.
  destruct (Z.compare_spec a b), (Z.eqb_spec a b); done || lia.
Qed.

Lemma pn_index_ring m s e n :
  ring_ok m s e -> varint_ok n ->
  pn_index m (pn n) = Ret (if decide (s <= n <= e) then Some (pos m (n - s)) else None).
Proof.
  intros Hr Hn. pose proof Hr as (Es & Ee & Hs & He & Hse & Hlen & Hi & Hl). unfold pn_index.
  rewrite (is_empty_ring m s e) by done. rewrite Ee, pn_gt_spec by done. cbn [obind].
  destruct (Z.ltb_spec e n); [rewrite decide_False by lia; done |].
  rewrite Es, pn_distance_from_varint by done. cbn [obind]. unfold checked_sub.
  destruct (Z.leb_spec s n); [| rewrite decide_False by lia; done]. rewrite decide_True by lia.
  unfold checked_add. rewrite (proj2 (Z.ltb_lt _ _)) by lia. done.
Qed.

Lemma get_ring m s e n :
  ring_ok m s e -> varint_ok n ->
  get m (pn n) = Ret (if decide (s <= n <= e) then slot m (n - s) else None).
Proof.
  intros Hr Hn. unfold get. rewrite (pn_index_ring m s e) by done. cbn [obind]. case_decide; [| done].
  apply vindex_slot. apply Hr.
Qed.

(** Looking up a packet number. *)
Lemma get_ok m M n : map_ok m M -> varint_ok n -> get m (pn n) = Ret (M !! n).
Proof.
  intros [Hl [(Hi & -> & _) | (s & e & Hr & _ & _ & _ & HM)]] Hn.
  - unfold get, pn_index, is_empty. by rewrite Hi, Z.eqb_refl.
  - rewrite (get_ring m s e) by done. by rewrite HM.
Qed.

(** ** Inserting *)

Lemma grow_spec fuel : forall n d,
  0 < n <= d -> d < 2 ^ 62 -> d < n * 2 ^ Z.of_nat fuel ->
  exists n', grow fuel n d = Ret n' /\ d < n' < 2 ^ 63.
Proof.
  induction fuel as [| fuel IH]; intros n d Hn Hd Hf; [cbn in Hf; lia |]. cbn [grow].
  unfold mul_c. rewrite (proj2 (Z.ltb_lt _ _)) by lia. cbn [obind].
  destruct (Z.ltb_spec d (n * 2)); [exists (n * 2); split; [done | lia] |].
  apply IH; [lia | lia |]. rewrite Nat2Z.inj_succ, Z.pow_succ_r in Hf by lia. lia.
Qed.

(** The ring turned so that it begins at the index. *)
Definition rotated (m : Map) : list (option V) :=
  drop (Z.to_nat (index m)) (values m) ++ take (Z.to_nat (index m)) (values m).

Lemma rotated_spec m k :
  0 <= index m < len m -> 0 <= k < len m ->
  vlen (rotated m) = len m /\ rotated m !! Z.to_nat k = Some (slot m k).
Proof.
  intros Hi Hk. pose proof (vget_slot m k Hi) as Hs. revert Hs. unfold pos, rotated, vlen in *.
  rewrite length_app, length_drop, length_take. split; [lia |]. revert Hs.
  rewrite mod_ring by (unfold vlen; lia). unfold vget, vlen. case_decide as Hd.
  - zcases; cbn [andb]; try done. intros Hs. rewrite lookup_app_l by (rewrite length_drop; lia).
    rewrite lookup_drop. rewrite <- Hs. f_equal. lia.
  - zcases; cbn [andb]; try done; try lia. intros Hs. rewrite lookup_app_r by (rewrite length_drop; lia).
    rewrite length_drop, lookup_take_lt by lia. rewrite <- Hs. f_equal. lia.
Qed.

Lemma resize_ring m s e d :
  ring_ok m s e -> len m <= d -> d < 2 ^ 62 ->
  exists m', resize capacity m d = Ret m' /\ ring_ok m' s e /\ index m' = 0 /\ d < len m'
    /\ (forall k, 0 <= k < len m -> slot m' k = slot m k)
    /\ (forall k, len m <= k < len m' -> slot m' k = None).
Proof.
  intros (Es & Ee & Hs & He & Hse & Hlen & Hi & Hl) Hd Hd'. unfold resize.
  destruct (grow_spec 64 (len m) d) as (n & -> & Hn); [lia | lia | lia |]. cbn [obind].
  destruct (capacity_ok n) as [Hc Hc']; [lia |]. fold (rotated m).
  destruct (rotated_spec m 0) as [Hrl _]; [done | lia |]. rewrite Hrl.
  eexists. split; [reflexivity |].
  set (m' := mk_map _ _ _ _). assert (Hlen' : len m' = capacity n).
  { unfold m'. cbn [values]. rewrite vlen_app, Hrl. unfold vlen at 2. rewrite length_replicate. lia. }
  assert (Hslot : forall k, 0 <= k < len m' ->
    Some (slot m' k) = (rotated m ++ replicate (Z.to_nat (capacity n - len m)) None) !! Z.to_nat k).
  { intros k Hk. rewrite <- (vget_slot m' k) by (change (index m') with 0; lia). unfold pos. change (index m') with 0.
    rewrite Z.add_0_l, Z.mod_small by lia. unfold vget. rewrite (proj2 (Z.leb_le _ _)), (proj2 (Z.ltb_lt _ _)) by lia. done. }
  split; [| split; [done |]; split; [lia |]].
  - unfold ring_ok. rewrite Hlen'. change (index m') with 0. do 5 (split; [done |]). lia.
  - split; intros k Hk.
    + destruct (rotated_spec m k) as [_ Hr]; [done | done |]. specialize (Hslot k ltac:(lia)).
      rewrite lookup_app_l, Hr in Hslot by (unfold vlen in *; lia). congruence.
    + specialize (Hslot k ltac:(lia)). rewrite lookup_app_r in Hslot by (unfold vlen in *; lia).
      rewrite lookup_replicate_2 in Hslot by (unfold vlen in *; lia). congruence.
Qed.

(** The slot for a packet number at or beyond the start: an offset of a ring that
    holds the same packets. *)
Lemma insert_index_ring m s e n :
  ring_ok m s e -> varint_ok n -> s <= n ->
  exists m', insert_index capacity m (pn n) = Ret (m', pos m' (n - s)) /\ ring_ok m' s e /\ n - s < len m'
    /\ len m <= len m' /\ (forall k, 0 <= k < len m -> slot m' k = slot m k)
    /\ (forall k, len m <= k < len m' -> slot m' k = None).
Proof.
  intros Hr Hn Hsn. pose proof Hr as (Es & Ee & Hs & He & Hse & Hlen & Hi & Hl). unfold insert_index.
  rewrite Es, !pn_as_u64_from_varint by done. rewrite sub_c_Ret by lia. cbn [obind].
  destruct (Z.leb_spec (len m) (n - s)).
  - unfold varint_ok, MAX_VARINT_VALUE in *.
    destruct (resize_ring m s e (n - s)) as (m' & -> & Hr' & Hi' & Hd & H1 & H2); [done | lia | lia |].
    cbn [obind]. exists m'. unfold pos. rewrite Hi', Z.add_0_l, Z.mod_small by lia.
    split; [done |]. split; [done |]. split; [lia |]. split; [lia | done].
  - rewrite add_c_Ret by lia. cbn [obind]. exists m. split; [done |]. split; [done |]. split; [lia |]. split; [lia |].
    split; [done |]. intros; lia.
Qed.

Lemma holds_ok m s e M : holds m s e M -> map_ok m M.
Proof. intros H. pose proof H as [(_ & _ & _ & _ & _ & _ & H1 & H2) _]. split; [lia |]. right. by exists s, e. Qed.

(** Writing a value at or beyond the start. *)
Lemma holds_insert m s e M n x m' :
  holds m s e M -> varint_ok n -> s <= n ->
  ring_ok m' s e -> n - s < len m' -> len m <= len m' ->
  (forall k, 0 <= k < len m -> slot m' k = slot m k) -> (forall k, len m <= k < len m' -> slot m' k = None) ->
  exists vs, vset (values m') (pos m' (n - s)) (Some x) = Ret vs
    /\ holds (mk_map vs (start m') (pn (Z.max e n)) (index m')) s (Z.max e n) (<[n:=x]> M).
Proof.
  intros ((_ & _ & _ & _ & _ & Hlen & _ & _) & H0 & Hl & Hout & HM) Hn Hsn Hr' Hn' Hle Hsame Hnew.
  pose proof Hr' as (Es & Ee & Hs & He & Hse & Hlen' & Hi & Hb).
  destruct (set_slot m' (n - s) (Some x)) as (vs & E & L & G); [done | lia |]. exists vs. split; [done |].
  assert (Hsl : forall k, e - s < k < len m' -> slot m' k = None).
  { intros k Hk. destruct (Z.lt_ge_cases k (len m)); [rewrite Hsame by lia; apply Hout; lia | apply Hnew; lia]. }
  unfold holds. rewrite !G by lia. split; [| split; [| split; [| split]]].
  - unfold ring_ok. cbn. rewrite L. do 3 (split; [done |]). unfold varint_ok in *. lia.
  - case_decide; [done |]. by rewrite Hsame by lia.
  - case_decide; [done |]. rewrite Hsame by lia. by replace (Z.max e n) with e by lia.
  - cbn. rewrite L. intros k Hk. rewrite G, decide_False by lia. apply Hsl. lia.
  - intros k. destruct (decide (k = n)) as [-> | Hk].
    + rewrite lookup_insert_eq, decide_True by lia. by rewrite G, decide_True by lia.
    + rewrite lookup_insert_ne, HM by done. repeat case_decide; try lia; try done.
      * rewrite G, decide_False, Hsame by lia. done.
      * rewrite G, decide_False by lia. symmetry. apply Hsl. lia.
Qed.

(** The first value of an empty map. *)
Lemma insert_first_ok m n x :
  0 < len m < 2 ^ 63 -> vacant m -> varint_ok n ->
  exists m', insert_first m (pn n) x = Ret m' /\ holds m' n n {[n := x]}.
Proof.
  intros Hl Hv Hn. unfold insert_first. destruct (vset_spec (values m) 0 (Some x)) as (vs & -> & L & G); [lia |].
  cbn [obind]. eexists. split; [reflexivity |].
  assert (Hs : forall k, 0 <= k < len m -> slot (mk_map vs (pn n) (pn n) 0) k = if decide (k = 0) then Some x else None).
  { intros k Hk. unfold slot, pos. cbn [values index]. rewrite L, Z.add_0_l, Z.mod_small, G by lia. case_decide; [done |]. by rewrite Hv. }
  unfold holds. rewrite Z.sub_diag, Hs by lia. cbn. rewrite L.
  split; [unfold ring_ok; cbn; rewrite L; do 4 (split; [done |]); lia |].
  do 2 (split; [done |]). split; [intros k Hk; by rewrite Hs, decide_False by lia |].
  intros k. case_decide.
  - replace k with n by lia. by rewrite lookup_singleton_eq, Z.sub_diag, Hs by lia.
  - apply lookup_singleton_ne. lia.
Qed.

Lemma is_empty_ok m M : map_ok m M -> is_empty m = bool_decide (M = ∅).
Proof.
  intros [Hl [(Hi & -> & _) | (s & e & Hr & H0 & _ & _ & HM)]].
  - unfold is_empty. by rewrite Hi, Z.eqb_refl.
  - rewrite (is_empty_ring m s e) by done. symmetry. apply bool_decide_eq_false. intros ->.
    specialize (HM s). destruct Hr as (_ & _ & _ & _ & ? & _). rewrite lookup_empty, decide_True, Z.sub_diag in HM by lia. done.
Qed.

Lemma insert_ok m M n x :
  map_ok m M -> varint_ok n -> (forall k, is_Some (M !! k) -> k < n) ->
  exists m', insert capacity m (pn n) x = Ret m' /\ map_ok m' (<[n:=x]> M).
Proof.
  intros [Hl [(Hi & -> & Hv) | (s & e & H)]] Hn Hmono; unfold insert.
  - unfold is_empty. rewrite Hi, Z.eqb_refl. destruct (insert_first_ok m n x Hl Hv Hn) as (m' & E & H').
    exists m'. split; [done |]. by apply (holds_ok m' n n).
  - pose proof H as (Hr & H0 & He' & _ & HM). pose proof Hr as (Es & Ee & Hs & He & Hse & Hlen & Hi & Hb).
    assert (e < n). { apply Hmono. rewrite HM, decide_True by lia. by apply not_eq_None_Some. }
    rewrite (is_empty_ring m s e) by done. rewrite Es, pn_gt_spec by done. cbn [obind].
    rewrite (proj2 (Z.ltb_lt _ _)) by lia. cbn [obind]. rewrite Ee, pn_gt_spec by done. cbn [obind].
    rewrite (proj2 (Z.ltb_lt _ _)) by lia. cbn [rassert obind].
    destruct (insert_index_ring m s e n) as (m' & -> & Hr' & Hd & Hle & Hsame & Hnew); [done | done | lia |]. cbn [obind].
    destruct (holds_insert m s e M n x m') as (vs & -> & H'); [done | done | lia | done.. |]. cbn [obind].
    eexists. split; [reflexivity |]. rewrite Z.max_r in H' by lia. by apply (holds_ok _ s n).
Qed.

Lemma insert_or_update_ok S m M n x upd (st st' : S) y :
  map_ok m M -> varint_ok n -> (M = ∅ \/ exists k, is_Some (M !! k) /\ k <= n) ->
  match M !! n with Some p => upd st p = Ret (st', y) | None => st' = st /\ y = x end ->
  exists m', insert_or_update capacity m (pn n) x upd st = Ret (m', st') /\ map_ok m' (<[n:=y]> M).
Proof.
  intros [Hl [(Hi & -> & Hv) | (s & e & H)]] Hn Hge Hy; unfold insert_or_update.
  - unfold is_empty. rewrite Hi, Z.eqb_refl. rewrite lookup_empty in Hy. destruct Hy as [-> ->].
    destruct (insert_first_ok m n x Hl Hv Hn) as (m' & -> & H').
    exists m'. split; [done |]. by apply (holds_ok m' n n).
  - pose proof H as (Hr & H0 & He' & Hout & HM). pose proof Hr as (Es & Ee & Hs & He & Hse & Hlen & Hi & Hb).
    assert (s <= n).
    { destruct Hge as [-> | (k & [v Hk] & Hkn)].
      - specialize (HM s). rewrite lookup_empty, decide_True, Z.sub_diag in HM by lia. done.
      - rewrite HM in Hk. case_decide; [lia | done]. }
    rewrite (is_empty_ring m s e) by done. rewrite Es, pn_ge_spec by done. cbn [obind].
    rewrite (proj2 (Z.leb_le _ _)) by lia. cbn [rassert obind].
    destruct (insert_index_ring m s e n) as (m' & -> & Hr' & Hd & Hle & Hsame & Hnew); [done | done | lia |]. cbn [obind].
    assert (Hold : slot m' (n - s) = M !! n).
    { rewrite HM. case_decide; [by rewrite Hsame by lia |].
      destruct (Z.lt_ge_cases (n - s) (len m)); [rewrite Hsame by lia; apply Hout; lia | apply Hnew; lia]. }
    rewrite vindex_slot by apply Hr'. cbn [obind]. rewrite Hold.
    replace (match M !! n with Some p => upd st p | None => Ret (st, x) end) with (Ret (st', y))
      by (destruct (M !! n); [done | by destruct Hy as [-> ->]]).
    cbn [obind]. destruct (holds_insert m s e M n y m') as (vs & -> & H'); [done | done | lia | done.. |]. cbn [obind].
    destruct Hr' as (Es' & Ee' & _). rewrite Ee', pn_gt_spec by done. cbn [obind]. eexists. split; [reflexivity |].
    apply (holds_ok _ s (Z.max e n)). destruct (Z.ltb_spec e n); [by rewrite Z.max_r in * by lia |].
    by rewrite Z.max_l in * by lia.
Qed.

(** ** Moving the bounds *)

Lemma slot_shift m d k s e : 0 < len m -> slot (mk_map (values m) s e (pos m d)) k = slot m (d + k).
Proof.
  intros H. unfold slot, pos. cbn. by rewrite Z.add_mod_idemp_l, Z.add_assoc by lia.
Qed.

Lemma slot_wrap m k : 0 < len m -> slot m (k + len m) = slot m k.
Proof. intros H. unfold slot, pos. rewrite Z.add_assoc, <- (Z.mul_1_l (len m)) at 1. by rewrite Z.mod_add by lia. Qed.

Lemma first_occupied_next m s e n : forall a b,
  ring_ok m s e -> b - a = Z.of_nat n -> s <= a -> b <= e -> slot m (b - s) <> None ->
  exists f, first_occupied m (pn <$> seqZ a (b - a + 1)) = Ret (pn f) /\ a <= f <= b
    /\ slot m (f - s) <> None /\ forall k, a <= k < f -> slot m (k - s) = None.
Proof.
  induction n as [| n IH]; intros a b Hr Hn Ha Hb Hocc; rewrite seqZ_cons by lia; cbn [fmap list_fmap first_occupied];
    (rewrite (get_ring m s e) by (unfold ring_ok, varint_ok in *; done || lia)); cbn [obind]; rewrite decide_True by lia;
    destruct (slot m (a - s)) eqn:E.
  1, 3: exists a; split; [done |]; split; [lia |]; split; [by rewrite E | intros; lia].
  - by replace b with a in Hocc by lia.
  - destruct (IH (a + 1) b) as (f & Ef & Hf & Hs & Hk); [done | lia | lia | done | done |].
    exists f. replace (Z.pred (b - a + 1)) with (b - (a + 1) + 1) by lia. split; [exact Ef |]. split; [lia |]. split; [done |].
    intros k Hka. destruct (Z.eq_dec k a) as [-> | ?]; [done | apply Hk; lia].
Qed.

Lemma first_occupied_back m s e n : forall a b,
  ring_ok m s e -> b - a = Z.of_nat n -> s <= a -> b <= e -> slot m (a - s) <> None ->
  exists f, first_occupied m (rev (pn <$> seqZ a (b - a + 1))) = Ret (pn f) /\ a <= f <= b
    /\ slot m (f - s) <> None /\ forall k, f < k <= b -> slot m (k - s) = None.
Proof.
  induction n as [| n IH]; intros a b Hr Hn Ha Hb Hocc; replace (b - a + 1) with (Z.of_nat (S (Z.to_nat (b - a)))) by lia;
    rewrite seqZ_S, fmap_app, rev_app_distr; cbn [fmap list_fmap rev app first_occupied];
    replace (a + Z.of_nat (Z.to_nat (b - a))) with b by lia;
    (rewrite (get_ring m s e) by (unfold ring_ok, varint_ok in *; done || lia)); cbn [obind]; rewrite decide_True by lia;
    destruct (slot m (b - s)) eqn:E.
  1, 3: exists b; split; [done |]; split; [lia |]; split; [by rewrite E | intros; lia].
  - by replace a with b in Hocc by lia.
  - destruct (IH a (b - 1)) as (f & Ef & Hf & Hs & Hk); [done | lia | lia | lia | done |].
    exists f. replace (Z.of_nat (Z.to_nat (b - a))) with (b - 1 - a + 1) by lia. split; [exact Ef |]. split; [lia |]. split; [done |].
    intros k Hka. destruct (Z.eq_dec k b) as [-> | ?]; [done | apply Hk; lia].
Qed.

Lemma check_bounds_ring m s e t : ring_ok m s e -> s <= t <= e -> check_bounds m (pn t) = Ret tt.
Proof.
  intros Hr Ht. pose proof Hr as (Es & Ee & Hs & He & Hse & _). unfold check_bounds.
  assert (varint_ok t) by (unfold varint_ok in *; lia).
  rewrite (is_empty_ring m s e) by done. cbn [negb rassert obind]. rewrite Es, pn_ge_spec by done. cbn [obind].
  rewrite (proj2 (Z.leb_le _ _)) by lia. cbn [rassert obind]. rewrite Ee, pn_ge_spec by done. cbn [obind].
  by rewrite (proj2 (Z.leb_le _ _)) by lia.
Qed.

Lemma set_start_ring m s e t :
  ring_ok m s e -> s <= t <= e -> slot m (e - s) <> None ->
  exists f, set_start m (pn t) = Ret (mk_map (values m) (pn f) (pn e) (pos m (f - s))) /\ t <= f <= e
    /\ slot m (f - s) <> None /\ forall k, t <= k < f -> slot m (k - s) = None.
Proof.
  intros Hr Ht Hocc. pose proof Hr as (Es & Ee & Hs & He & Hse & Hlen & Hi & Hb). assert (Hvt : varint_ok t) by (unfold varint_ok in *; lia).
  unfold set_start. rewrite (check_bounds_ring m s e) by done. cbn [obind].
  rewrite Ee, range_new by (done || lia). unfold range. cbn [obind].
  rewrite (drain_next sp (Z.to_nat (e - t + 1))) by (unfold ring_fuel, varint_ok, vlen in *; done || lia). cbn [obind].
  destruct (first_occupied_next m s e (Z.to_nat (e - t)) t e) as (f & -> & Hf & Hsf & Hk); [done | lia | lia | lia | done |].
  cbn [obind]. assert (Hvf : varint_ok f) by (unfold varint_ok in *; lia).
  rewrite (pn_index_ring m s e) by done. rewrite decide_True by lia. cbn [obind unwrap].
  set (m' := mk_map _ _ _ _). assert (Hr' : ring_ok m' f e).
  { unfold ring_ok, m'. cbn. pose proof (pos_range m (f - s) Hi). do 4 (split; [done |]). lia. }
  unfold m' at 1 2. cbn [start end_]. rewrite pn_ge_spec by done. cbn [obind]. rewrite (proj2 (Z.leb_le _ _)) by lia. cbn [rassert obind].
  rewrite (pn_index_ring m' f e) by done. rewrite decide_True by lia. cbn [obind].
  replace (pos m' (f - f)) with (pos m (f - s)).
  2: { unfold m', pos at 2. cbn. rewrite Z.sub_diag, Z.add_0_r. symmetry. apply Z.mod_small. by apply pos_range. }
  rewrite Z.eqb_refl. cbn [rassert obind]. exists f. done.
Qed.

Lemma set_end_ring m s e t :
  ring_ok m s e -> s <= t <= e -> slot m 0 <> None ->
  exists f, set_end m (pn t) = Ret (mk_map (values m) (pn s) (pn f) (index m)) /\ s <= f <= t
    /\ slot m (f - s) <> None /\ forall k, f < k <= t -> slot m (k - s) = None.
Proof.
  intros Hr Ht Hocc. pose proof Hr as (Es & Ee & Hs & He & Hse & Hlen & Hi & Hb). assert (Hvt : varint_ok t) by (unfold varint_ok in *; lia).
  unfold set_end. rewrite (check_bounds_ring m s e) by done. cbn [obind].
  rewrite Es, range_new by (done || lia). unfold range. cbn [obind].
  rewrite (drain_next_back sp (Z.to_nat (t - s + 1))) by (unfold ring_fuel, varint_ok, vlen in *; done || lia). cbn [obind].
  destruct (first_occupied_back m s e (Z.to_nat (t - s)) s t) as (f & -> & Hf & Hsf & Hk); [done | lia | lia | lia | by rewrite Z.sub_diag |].
  cbn [obind start end_]. rewrite pn_ge_spec by (unfold varint_ok in *; done || lia). cbn [obind].
  rewrite (proj2 (Z.leb_le _ _)) by lia. cbn [rassert obind]. by exists f.
Qed.

Lemma pos_zero m : 0 <= index m < len m -> pos m 0 = index m.
Proof. intros H. unfold pos. rewrite Z.add_0_r. by apply Z.mod_small. Qed.

(** The same values with narrower bounds. *)
Lemma holds_narrow m s e f g M :
  ring_ok m s e -> s <= f -> f <= g -> g <= e -> slot m (f - s) <> None -> slot m (g - s) <> None ->
  (forall k, 0 <= k < len m -> ~ (f - s <= k <= g - s) -> slot m k = None) ->
  (forall n, M !! n = if decide (f <= n <= g) then slot m (n - s) else None) ->
  holds (mk_map (values m) (pn f) (pn g) (pos m (f - s))) f g M.
Proof.
  intros (Es & Ee & Hs & He & Hse & Hlen & Hi & Hb) Hf Hfg Hg Sf Sg Hout HM. unfold varint_ok in *.
  pose proof (pos_range m (f - s) Hi). unfold holds. rewrite !slot_shift by lia.
  split; [unfold ring_ok, varint_ok; cbn [start end_ index values]; split; [done |]; split; [done |]; lia |].
  split; [by rewrite Z.add_0_r |]. split; [by replace (f - s + (g - f)) with (g - s) by lia |].
  cbn [values]. split.
  - intros k Hk. rewrite slot_shift by lia. destruct (Z.lt_ge_cases (f - s + k) (len m)); [apply Hout; lia |].
    replace (f - s + k) with (f - s + k - len m + len m) by lia. rewrite slot_wrap by lia. apply Hout; lia.
  - intros n. rewrite HM. case_decide; [| done]. rewrite slot_shift by lia. f_equal. lia.
Qed.

Lemma vacant_slots m :
  0 <= index m < len m -> (forall k, 0 <= k < len m -> slot m k = None) -> vacant m.
Proof.
  intros Hi H i Hir. pose proof (Z.mod_pos_bound (i - index m) (len m) ltac:(lia)) as Hk.
  specialize (H _ Hk). revert H. unfold slot, pos. rewrite Z.add_mod_idemp_r by lia.
  replace (index m + (i - index m)) with i by lia. rewrite Z.mod_small by lia.
  destruct (vget_Some (values m) i) as [x ->]; [lia |]. cbn. by intros ->.
Qed.

Lemma lookup_delete_if (M : gmap Z V) n k : delete n M !! k = if decide (k = n) then None else M !! k.
Proof. case_decide; [subst; apply lookup_delete_eq | by apply lookup_delete_ne]. Qed.

Lemma ring_eta m s e : ring_ok m s e -> m = mk_map (values m) (pn s) (pn e) (pos m (s - s)).
Proof. intros (Es & Ee & _ & _ & _ & _ & Hi & _). rewrite Z.sub_diag, pos_zero by done. destruct m. cbn in *. congruence. Qed.

(** One slot cleared, under bounds that are occupied and cover what is left. *)
Lemma remove_narrow m m1 s e M n f g :
  holds m s e M -> ring_ok m1 s e -> len m1 = len m ->
  (forall k, 0 <= k < len m -> slot m1 k = if decide (k = n - s) then None else slot m k) ->
  s <= f -> f <= g -> g <= e -> slot m1 (f - s) <> None -> slot m1 (g - s) <> None ->
  (forall k, s <= k <= e -> ~ (f <= k <= g) -> slot m1 (k - s) = None) ->
  map_ok (mk_map (values m1) (pn f) (pn g) (pos m1 (f - s))) (delete n M).
Proof.
  intros (Hr & _ & _ & Hout & HMl) Hr1 Hl1 Hs1 Hf Hfg Hg Sf Sg Hno. destruct Hr as (_ & _ & _ & _ & Hse & Hlen & _).
  apply (holds_ok _ f g). apply (holds_narrow m1 s e); [done.. | |].
  - intros k Hk Hk'. rewrite Hl1 in Hk. destruct (Z.le_gt_cases k (e - s)).
    + replace k with (k + s - s) by lia. apply Hno; lia.
    + rewrite Hs1 by lia. case_decide; [done |]. apply Hout. lia.
  - intros k. rewrite lookup_delete_if, HMl. destruct (decide (s <= k <= e)).
    + assert (slot m1 (k - s) = if decide (k = n) then None else slot m (k - s)) as E.
      { rewrite Hs1 by lia. destruct (decide (k = n)); [rewrite decide_True by lia | rewrite decide_False by lia]; done. }
      rewrite <- E. clear E. case_decide; [done |]. apply Hno; lia.
    + rewrite (decide_False (P := f <= k <= g)) by lia. by case_decide.
Qed.

Lemma remove_ok m M n :
  map_ok m M -> varint_ok n -> exists m', remove m (pn n) = Ret (m', M !! n) /\ map_ok m' (delete n M).
Proof.
  intros HM Hn. pose proof HM as [Hl [(Hi & -> & Hv) | (s & e & H)]]; unfold remove.
  { unfold pn_index, is_empty. rewrite Hi, Z.eqb_refl. cbn [obind]. exists m. by rewrite delete_empty. }
  pose proof H as (Hr & H0 & He' & Hout & HMl). pose proof Hr as (Es & Ee & Hs & He & Hse & Hlen & Hi & Hb).
  assert (Hnone : M !! n = None -> exists m', Ret (m, None) = Ret (m', M !! n) /\ map_ok m' (delete n M)).
  { intros E. exists m. by rewrite E, delete_id. }
  rewrite (pn_index_ring m s e) by done. specialize (HMl n) as En. case_decide as Hin; [| by apply Hnone]. cbn [obind].
  rewrite vindex_slot by done. cbn [obind]. destruct (slot m (n - s)) as [v |] eqn:Esl; [| by apply Hnone]. rewrite En.
  destruct (set_slot m (n - s) None) as (vs & -> & L & G); [done | lia |]. cbn [obind].
  set (m1 := mk_map vs (start m) (end_ m) (index m)).
  assert (Hr1 : ring_ok m1 s e) by (unfold ring_ok, m1; cbn; rewrite L; done).
  assert (Hl1 : len m1 = len m) by done. specialize (G (start m) (end_ m)). fold m1 in G. clearbody m1.
  pose proof Hr1 as (Es1 & Ee1 & _ & _ & _ & _ & Hi1 & _).
  rewrite Es1, pn_eqb_spec by done. cbn [obind]. rewrite Ee1, pn_eqb_spec by done. cbn [obind].
  assert (Hsn : slot m1 (n - s) = None) by (rewrite G, decide_True by lia; done).
  assert (Hsx : forall k, s <= k <= e -> k <> n -> slot m1 (k - s) = slot m (k - s)) by (intros; rewrite G, decide_False by lia; done).
  destruct (Z.eqb_spec s n) as [-> | Hsn']; destruct (Z.eqb_spec e n) as [-> | Hen'].
  - eexists. split; [reflexivity |]. split; [cbn; lia |]. left. split; [done |]. split.
    + apply map_eq. intros k. rewrite lookup_delete_if, HMl, lookup_empty. repeat case_decide; try done. lia.
    + intros i. apply (vacant_slots m1 Hi1). intros k Hk. rewrite G by lia. case_decide; [done |]. apply Hout. lia.
  - rewrite pn_next_from_varint by done. rewrite (proj2 (Z.ltb_lt _ _)) by (unfold varint_ok in *; lia). cbn [obind unwrap].
    destruct (set_start_ring m1 n e (n + 1)) as (f & -> & Hf & Sf & Hk); [done | lia | rewrite Hsx by lia; done |].
    cbn [obind]. eexists. split; [reflexivity |].
    apply (remove_narrow m m1 n e M n); try done; try lia; [rewrite Hsx by lia; done |].
    intros k Hk1 Hk2. destruct (Z.eq_dec k n) as [-> | ?]; [done | apply Hk; lia].
  - rewrite pn_prev_from_varint by done. rewrite (proj2 (Z.ltb_lt _ _)) by (unfold varint_ok in *; lia). cbn [obind unwrap].
    destruct (set_end_ring m1 s n (n - 1)) as (f & -> & Hf & Sf & Hk); [done | lia | rewrite G, decide_False by lia; done |].
    cbn [obind]. eexists. split; [reflexivity |]. rewrite <- (pos_zero m1), <- (Z.sub_diag s) by done.
    apply (remove_narrow m m1 s n M n); try done; try lia; [rewrite Hsx, Z.sub_diag by lia; done |].
    intros k Hk1 Hk2. destruct (Z.eq_dec k n) as [-> | ?]; [done | apply Hk; lia].
  - cbn [obind]. eexists. split; [reflexivity |]. rewrite (ring_eta m1 s e) by done.
    apply (remove_narrow m m1 s e M n); try done; try lia; rewrite Hsx by lia; [by rewrite Z.sub_diag | done].
Qed.

(** ** Removing a range *)

(** Clearing [n] slots from offset [d] yields their values in order. *)
Lemma drain_ring n : forall m s d,
  0 <= index m < len m -> len m < 2 ^ 63 -> 0 <= d -> d + Z.of_nat n <= len m -> 0 <= s + d ->
  s + d + Z.of_nat n <= MAX_VARINT_VALUE + 1 ->
  exists vs, remove_iter_drain n (values m) (Some (pn (s + d))) (pos m d)
      = Ret (omap (fun k => (fun v => (pn k, v)) <$> slot m (k - s)) (seqZ (s + d) (Z.of_nat n)), vs)
    /\ vlen vs = len m
    /\ forall st en k, 0 <= k < len m ->
         slot (mk_map vs st en (index m)) k = if decide (d <= k < d + Z.of_nat n) then None else slot m k.
Proof.
  induction n as [| n IH]; intros m s d Hi Hb Hd Hn Hs Hmax.
  { exists (values m). split; [done |]. split; [done |]. intros st en k Hk. rewrite decide_False by lia. done. }
  cbn [remove_iter_drain]. rewrite pn_next_from_varint by (unfold varint_ok; lia). cbn [obind].
  pose proof (pos_range m d Hi). rewrite add_c_Ret by lia. cbn [obind]. rewrite vindex_slot by done. cbn [obind].
  destruct (set_slot m d None) as (vs1 & -> & L1 & G1); [done | lia |]. cbn [obind].
  set (m1 := mk_map vs1 (start m) (end_ m) (index m)). assert (Hl1 : len m1 = len m) by done.
  destruct (IH m1 s (d + 1)) as (vs & E & L & G); [cbn; lia | by rewrite Hl1 | lia | lia | lia | lia |].
  assert (Er : remove_iter_drain n vs1 (if s + d <? MAX_VARINT_VALUE then Some (pn (s + d + 1)) else None)
      ((pos m d + 1) mod len m) = remove_iter_drain n (values m1) (Some (pn (s + (d + 1)))) (pos m1 (d + 1))).
  { destruct n as [| n]; [done |]. rewrite (proj2 (Z.ltb_lt _ _)) by lia. rewrite <- Z.add_assoc. f_equal.
    unfold pos at 2. rewrite Hl1. cbn [m1 index]. unfold pos. by rewrite Z.add_mod_idemp_l, Z.add_assoc by lia. }
  rewrite Er, E. cbn [obind]. exists vs. split; [| split; [congruence |]].
  - rewrite (seqZ_cons (s + d)) by lia. rewrite omap_cons_match. replace (s + d - s) with d by lia.
    replace (Z.pred (Z.of_nat (S n))) with (Z.of_nat n) by lia. replace (Z.succ (s + d)) with (s + (d + 1)) by lia.
    rewrite (omap_seqZ_ext _ (fun k => (fun v => (pn k, v)) <$> slot m (k - s))).
    + by destruct (slot m d).
    + intros k Hk. f_equal. unfold m1. by rewrite G1, decide_False by lia.
  - intros st en k Hk. rewrite G by (rewrite Hl1; lia). unfold m1. rewrite G1 by lia. repeat case_decide; done || lia.
Qed.

(** The entries of a range cleared, the bounds not yet moved. *)
Lemma drain_holds m s e M a b :
  holds m s e M -> s <= a -> a <= b -> b <= e ->
  exists vs, remove_iter_drain (Z.to_nat (b - a + 1)) (values m) (Some (pn a)) (pos m (a - s)) = Ret (entries sp M a b, vs)
    /\ vlen vs = len m /\ ring_ok (mk_map vs (start m) (end_ m) (index m)) s e
    /\ (forall d, pos (mk_map vs (start m) (end_ m) (index m)) d = pos m d)
    /\ forall k, 0 <= k < len m ->
         slot (mk_map vs (start m) (end_ m) (index m)) k = if decide (a - s <= k <= b - s) then None else slot m k.
Proof.
  intros (Hr & _ & _ & _ & HM) Ha Hab Hb. pose proof Hr as (Es & Ee & Hs & He & Hse & Hlen & Hi & Hbd).
  unfold varint_ok in *.
  destruct (drain_ring (Z.to_nat (b - a + 1)) m s (a - s)) as (vs & E & L & G); [done | done | lia | lia | lia | lia |].
  exists vs. replace (s + (a - s)) with a in E by lia. rewrite E. split; [| split; [done |]; split; [| split]].
  - do 2 f_equal. unfold entries. rewrite Z2Nat.id by lia. apply omap_seqZ_ext. intros k Hk. by rewrite HM, decide_True by lia.
  - unfold ring_ok, varint_ok. cbn [start end_ index values]. by rewrite L.
  - intros d. unfold pos. cbn [index values]. by rewrite L.
  - intros k Hk. rewrite G by done. repeat case_decide; done || lia.
Qed.

(** The range does not meet the map. *)
Lemma remove_range_none m M a b :
  map_ok m M -> (forall k, a <= k <= b -> M !! k = None) -> a <= b ->
  Ret ([], m) = Ret (entries sp M a b, m) /\ map_ok m (without M a b).
Proof.
  intros HM Hno Hab. rewrite (entries_restrict sp M a b a (a - 1)) by (lia || (intros; apply Hno; lia)).
  unfold entries. rewrite seqZ_nil by lia. split; [done |].
  replace (without M a b) with M; [done |]. apply map_eq. intros k. rewrite lookup_without. case_decide; [by apply Hno | done].
Qed.

(** The bounds an iterator over a range leaves: what remains once the range is
    cleared. *)
Definition left_over (m : Map) (s e a b : Z) (m0 : Map) : Prop :=
  (a <= s /\ e <= b /\ m0 = logical_clear m)
  \/ exists f g, s <= f /\ f <= g /\ g <= e /\ slot m (f - s) <> None /\ slot m (g - s) <> None
       /\ ~ (a <= f <= b) /\ ~ (a <= g <= b)
       /\ (forall k, s <= k <= e -> ~ (f <= k <= g) -> a <= k <= b \/ slot m (k - s) = None)
       /\ m0 = mk_map (values m) (pn f) (pn g) (pos m (f - s)).

Lemma remove_iter_finish (m0 : Map) first last i :
  varint_ok first -> varint_ok last -> first <= last -> last - first + 1 <= len m0 ->
  (let! n := sub_c (PacketNumber.as_u64 (pn last)) (PacketNumber.as_u64 (pn first)) in
   let! n := add_c 64 n 1 in
   let! _ := rassert (n <=? len m0) in
   Ret (mk_remove_iter m0 (Some (pn first)) i n)) = Ret (mk_remove_iter m0 (Some (pn first)) i (last - first + 1)).
Proof.
  intros Hf Hl Hle Hlen. cbv beta. rewrite !pn_as_u64_from_varint by done. rewrite sub_c_Ret by lia. cbn [obind].
  unfold varint_ok, MAX_VARINT_VALUE in *. rewrite add_c_Ret by lia. cbn [obind]. by rewrite (proj2 (Z.leb_le _ _)) by lia.
Qed.

Lemma left_over_start m s e a b :
  ring_ok m s e -> slot m (e - s) <> None -> a <= s -> s <= b -> b < e ->
  exists m0, set_start m (pn (b + 1)) = Ret m0 /\ values m0 = values m /\ left_over m s e a b m0.
Proof.
  intros Hr He Ha Hsb Hb. destruct (set_start_ring m s e (b + 1)) as (f & -> & Hf & Sf & Hk); [done | lia | done |].
  eexists. split; [reflexivity |]. split; [done |]. right. exists f, e. repeat (split; [done || lia |]). split; [| done].
  intros k Hk1 Hk2. destruct (Z.le_gt_cases k b); [left; lia | right; apply Hk; lia].
Qed.
Lemma left_over_end m s e a b :
  ring_ok m s e -> slot m 0 <> None -> s < a -> a <= e -> e <= b ->
  exists m0, set_end m (pn (a - 1)) = Ret m0 /\ values m0 = values m /\ left_over m s e a b m0.
Proof.
  intros Hr H0 Ha Hae Hb. destruct (set_end_ring m s e (a - 1)) as (g & -> & Hg & Sg & Hk); [done | lia | done |].
  eexists. split; [reflexivity |]. split; [done |]. right. exists s, g. rewrite Z.sub_diag, pos_zero by apply Hr.
  repeat (split; [done || lia |]). split; [| done].
  intros k Hk1 Hk2. destruct (Z.le_gt_cases a k); [left; lia | right; apply Hk; lia].
Qed.

Lemma remove_iter_new_ring m s e M a b :
  holds m s e M -> varint_ok a -> varint_ok b -> a <= b -> s <= b -> a <= e ->
  exists m0, remove_iter_new m (range sp a b)
      = Ret (mk_remove_iter m0 (Some (pn (Z.max a s))) (pos m (Z.max a s - s)) (Z.min b e - Z.max a s + 1))
    /\ values m0 = values m /\ left_over m s e a b m0.
Proof.
  intros (Hr & H0 & He' & _ & HM) Ha Hb Hab Hsb Hae. pose proof Hr as (Es & Ee & Hs & He & Hse & Hlen & Hi & Hbd).
  unfold remove_iter_new, range. rewrite (is_empty_ring m s e) by done. cbn [PacketNumberRange.start PacketNumberRange.end_].
  rewrite Es, Ee. rewrite pn_gt_spec by done. cbn [obind]. destruct (Z.ltb_spec b s); [lia |]. cbn [obind].
  rewrite pn_gt_spec by done. cbn [obind]. destruct (Z.ltb_spec e a); [lia |]. cbn [orb obind].
  rewrite !pn_cmp_from_varint by done. cbn [obind].
  assert (Hpos : index m = pos m (s - s)) by (by rewrite Z.sub_diag, pos_zero).
  assert (Hfin : forall m0 f l, values m0 = values m -> left_over m s e a b m0 -> f = Z.max a s -> l = Z.min b e ->
    exists m0', (let! n := sub_c (PacketNumber.as_u64 (pn l)) (PacketNumber.as_u64 (pn f)) in
       let! n := add_c 64 n 1 in
       let! _ := rassert (n <=? len m0) in
       Ret (mk_remove_iter m0 (Some (pn f)) (pos m (f - s)) n))
      = Ret (mk_remove_iter m0' (Some (pn (Z.max a s))) (pos m (Z.max a s - s)) (Z.min b e - Z.max a s + 1))
      /\ values m0' = values m /\ left_over m s e a b m0').
  { intros m0 f l Hv Hlo -> ->. exists m0. split; [| done]. apply remove_iter_finish; unfold varint_ok in *; rewrite ?Hv; lia. }
  assert (Hmid : s < a -> pn_index m (pn a) = Ret (Some (pos m (a - s)))).
  { intros. rewrite (pn_index_ring m s e), decide_True by (done || lia). done. }
  destruct (Z.compare_spec a s), (Z.compare_spec b e); cbn [obind];
    try (rewrite Hmid by lia; cbn [obind unwrap]);
    rewrite ?pn_next_from_varint, ?pn_prev_from_varint by done;
    rewrite ?(proj2 (Z.ltb_lt _ _)) by (unfold varint_ok in *; lia); cbn [obind unwrap].
  all: try (destruct (left_over_start m s e a b) as (m0 & -> & Hv & Hlo); [done | done | lia.. |];
            cbn [obind]; rewrite Hpos; apply Hfin; done || lia).
  all: try (destruct (left_over_end m s e a b) as (m0 & -> & Hv & Hlo); [done | done | lia.. |];
            cbn [obind]; apply Hfin; done || lia).
  all: try (rewrite Hpos; apply Hfin; [done | left; split; [lia |]; split; [lia | done] | lia | lia]).
  apply Hfin; [done | | lia | lia]. right. exists s, e. rewrite Z.sub_diag.
  do 7 (split; [done || lia |]). split; [lia |]. rewrite <- (Z.sub_diag s). by apply ring_eta.
Qed.

(** The cleared values under the bounds that are left. *)
Lemma left_over_ok m s e M a b m0 vs :
  holds m s e M -> left_over m s e a b m0 -> vlen vs = len m ->
  ring_ok (mk_map vs (start m) (end_ m) (index m)) s e ->
  (forall k, 0 <= k < len m -> slot (mk_map vs (start m) (end_ m) (index m)) k
     = if decide (Z.max a s - s <= k <= Z.min b e - s) then None else slot m k) ->
  map_ok (mk_map vs (start m0) (end_ m0) (index m0)) (without M a b).
Proof.
  set (m1 := mk_map vs (start m) (end_ m) (index m)).
  intros (Hr & H0 & He' & Hout & HM) Hlo L Hr1 G. pose proof Hr as (_ & _ & _ & _ & Hse & Hlen & Hi & Hbd).
  assert (Hp : forall d, pos m1 d = pos m d) by (intros d; unfold pos; cbn; by rewrite L).
  destruct Hlo as [(Ha & Hb & ->) | (f & g & Hsf & Hfg & Hge & Sf & Sg & Nf & Ng & Hk & ->)].
  - split; [cbn [values]; lia |]. left. split; [cbn; lia |]. split.
    + apply map_eq. intros k. rewrite lookup_without, HM, lookup_empty. repeat case_decide; done || lia.
    + apply (vacant_slots m1); cbn [values index m1]; [by rewrite L |]. rewrite L. intros k Hk. rewrite G by done.
      case_decide; [done | apply Hout; lia].
  - cbn [start end_ index]. rewrite <- Hp. apply (holds_ok _ f g). apply (holds_narrow m1 s e); try done.
    + rewrite G by lia. by rewrite decide_False by lia.
    + rewrite G by lia. by rewrite decide_False by lia.
    + cbn [values m1]. rewrite L. intros k Hk1 Hk2. rewrite G by done. case_decide; [done |].
      destruct (Z.le_gt_cases k (e - s)); [| apply Hout; lia].
      destruct (Hk (k + s)) as [? | E]; [lia | lia | lia |]. by replace (k + s - s) with k in E by lia.
    + intros n. rewrite lookup_without, HM. destruct (decide (s <= n <= e)) as [Hn |].
      * rewrite (G (n - s)) by lia. specialize (Hk n). repeat case_decide; try done; try lia.
        destruct Hk as [? | ->]; done || lia.
      * by repeat case_decide; try lia.
Qed.

(** Removing a range yields its entries in order and leaves the others. *)
Lemma remove_range_ok m M a b :
  map_ok m M -> varint_ok a -> varint_ok b -> a <= b ->
  exists m', remove_range m (range sp a b) = Ret (entries sp M a b, m') /\ map_ok m' (without M a b).
Proof.
  intros HM Ha Hb Hab. pose proof HM as [Hl [(Hi & EM & Hv) | (s & e & H)]]; unfold remove_range.
  { unfold remove_iter_new, is_empty. rewrite Hi, Z.eqb_refl. cbn [obind remaining remove_iter_drain packets values].
    exists m. destruct m. apply remove_range_none; try done. intros k _. by rewrite EM. }
  pose proof H as (Hr & H0 & He' & Hout & HMl). pose proof Hr as (Es & Ee & Hs & He & Hse & Hlen & Hi & Hbd).
  destruct (Z.lt_ge_cases b s) as [Hbs | Hbs]; [| destruct (Z.lt_ge_cases e a) as [Hea | Hea]].
  1, 2: unfold remove_iter_new; rewrite (is_empty_ring m s e) by done; unfold range; cbn [PacketNumberRange.start PacketNumberRange.end_];
    rewrite Es, Ee, !pn_gt_spec by done.
  - rewrite (proj2 (Z.ltb_lt _ _)) by lia. cbn. exists m. destruct m. apply remove_range_none; try done.
    intros k Hk. rewrite HMl. by rewrite decide_False by lia.
  - rewrite (proj2 (Z.ltb_ge _ _)), (proj2 (Z.ltb_lt _ _)) by lia. cbn. exists m. destruct m. apply remove_range_none; try done.
    intros k Hk. rewrite HMl. by rewrite decide_False by lia.
  - destruct (remove_iter_new_ring m s e M a b) as (m0 & -> & Hv & Hlo); [done.. |].
    cbn [obind remaining packets packet_number ri_index]. rewrite Hv.
    destruct (drain_holds m s e M (Z.max a s) (Z.min b e)) as (vs & -> & L & Hr1 & _ & G); [done | lia.. |].
    cbn [obind]. eexists. split; [| by apply (left_over_ok m s e M)].
    rewrite (entries_restrict sp M a b (Z.max a s) (Z.min b e)); [done | lia.. |].
    intros k Hk1 Hk2. rewrite HMl. by rewrite decide_False by lia.
Qed.

(** ** Visiting, clearing, and the empty map *)

Lemma all_entries_holds m s e M : holds m s e M -> all_entries sp M = entries sp M s e.
Proof.
  intros ((_ & _ & Hs & He & Hse & _) & _ & _ & _ & HM). unfold varint_ok in *.
  unfold all_entries. rewrite (entries_restrict sp M 0 MAX_VARINT_VALUE s e); [reflexivity | lia.. |].
  intros k _ Hk. by rewrite HM, decide_False by lia.
Qed.
Lemma iter_loop_ring n : forall ring s (f : Z -> option V),
  (n <= length ring)%nat -> 0 <= s -> s + Z.of_nat n <= MAX_VARINT_VALUE + 1 ->
  (forall k, (k < n)%nat -> ring !! k = Some (f (s + Z.of_nat k))) ->
  iter_loop ring (Some (pn s)) n = Ret (omap (fun k => (fun v => (pn k, v)) <$> f k) (seqZ s (Z.of_nat n))).
Proof.
  induction n as [| n IH]; intros ring s f Hl Hs Hmax Hf; [done |]. destruct ring as [| x ring]; [cbn in Hl; lia |].
  cbn [iter_loop]. rewrite pn_next_from_varint by (unfold varint_ok; lia). cbn [obind].
  assert (E : iter_loop ring (if s <? MAX_VARINT_VALUE then Some (pn (s + 1)) else None) n = iter_loop ring (Some (pn (s + 1))) n).
  { destruct n as [| n]; [done |]. by rewrite (proj2 (Z.ltb_lt _ _)) by lia. }
  rewrite E, (IH ring (s + 1) f); [| cbn in Hl; lia | lia | lia |].
  - cbn [obind]. rewrite (seqZ_cons s) by lia. rewrite omap_cons_match.
    replace (Z.pred (Z.of_nat (S n))) with (Z.of_nat n) by lia.
    specialize (Hf 0%nat ltac:(lia)). rewrite Z.add_0_r in Hf. cbn in Hf. injection Hf as ->. by destruct (f s).
  - intros k Hk. specialize (Hf (S k) ltac:(lia)). etransitivity; [exact Hf |]. do 2 f_equal. lia.
Qed.

Lemma iter_ok m M : map_ok m M -> iter m = Ret (all_entries sp M).
Proof.
  intros [Hl [(Hi & -> & Hv) | (s & e & H)]]; unfold iter.
  { unfold is_empty. by rewrite Hi, Z.eqb_refl, all_entries_empty. }
  rewrite (all_entries_holds m s e M) by done.
  destruct H as (Hr & H0 & He' & Hout & HM). pose proof Hr as (Es & Ee & Hs & He & Hse & Hlen & Hi & Hb).
  rewrite (is_empty_ring m s e) by done. rewrite Es, Ee, !pn_as_u64_from_varint by done.
  rewrite sub_c_Ret by lia. cbn [obind]. unfold varint_ok in *. rewrite add_c_Ret by lia. cbn [obind].
  rewrite (proj2 (Z.leb_le _ _)) by lia. cbn [rassert obind]. fold (rotated m).
  rewrite (iter_loop_ring _ _ _ (fun k => M !! k)).
  - unfold entries. by rewrite Z2Nat.id by lia.
  - destruct (rotated_spec m 0) as [L _]; [done | lia |]. unfold vlen in L, Hlen. lia.
  - lia.
  - lia.
  - intros k Hk. destruct (rotated_spec m (Z.of_nat k)) as [_ E]; [done | lia |]. rewrite Nat2Z.id in E. rewrite E, HM, decide_True by lia.
    do 2 f_equal. lia.
Qed.

Lemma clear_loop_ring n : forall m s e a,
  ring_ok m s e -> s <= a -> a + Z.of_nat n <= e + 1 ->
  exists vs, clear_loop m (pn <$> seqZ a (Z.of_nat n)) = Ret (mk_map vs (start m) (end_ m) (index m)) /\ vlen vs = len m
    /\ forall k, 0 <= k < len m ->
         slot (mk_map vs (start m) (end_ m) (index m)) k = if decide (a - s <= k < a - s + Z.of_nat n) then None else slot m k.
Proof.
  induction n as [| n IH]; intros m s e a Hr Ha Hn.
  { exists (values m). split; [by destruct m |]. split; [done |]. intros k Hk. by rewrite decide_False by lia. }
  pose proof Hr as (Es & Ee & Hs & He & Hse & Hlen & Hi & Hb). rewrite seqZ_cons by lia. cbn [fmap list_fmap clear_loop].
  rewrite (pn_index_ring m s e), decide_True by (unfold varint_ok in *; done || lia). cbn [obind].
  destruct (set_slot m (a - s) None) as (vs1 & -> & L1 & G1); [done | lia |]. cbn [obind].
  destruct (IH (mk_map vs1 (start m) (end_ m) (index m)) s e (a + 1)) as (vs & E & L & G);
    [unfold ring_ok; cbn [values start end_ index]; by rewrite L1 | lia | lia |].
  replace (Z.pred (Z.of_nat (S n))) with (Z.of_nat n) by lia. exists vs. split; [exact E |].
  cbn [values start end_ index] in *. rewrite L1 in *. split; [done |].
  intros k Hk. rewrite G, G1 by done. repeat case_decide; done || lia.
Qed.

Lemma clear_ok m M : map_ok m M -> exists m', clear m = Ret m' /\ map_ok m' ∅.
Proof.
  intros HM. pose proof HM as [Hl [(Hi & EM & Hv) | (s & e & H)]]; unfold clear.
  { unfold is_empty. rewrite Hi, Z.eqb_refl. exists m. by rewrite <- EM. }
  destruct H as (Hr & H0 & He' & Hout & _). pose proof Hr as (Es & Ee & Hs & He & Hse & Hlen & Hi & Hb).
  rewrite (is_empty_ring m s e) by done. rewrite Es, Ee, range_new by done. unfold range. cbn [obind].
  rewrite (drain_next sp (Z.to_nat (e - s + 1))) by (unfold ring_fuel, varint_ok, vlen in *; done || lia). cbn [obind].
  destruct (clear_loop_ring (Z.to_nat (e - s + 1)) m s e s) as (vs & E & L & G); [done | lia | lia |].
  rewrite Z2Nat.id in E, G by lia. rewrite E. cbn [obind].
  eexists. split; [reflexivity |]. split; [cbn [values logical_clear]; lia |]. left. split; [done |]. split; [done |].
  apply (vacant_slots (mk_map vs (start m) (end_ m) (index m))); cbn [values index]; [by rewrite L |].
  intros k Hk. rewrite L in Hk. rewrite G by done. case_decide; [done | apply Hout; lia].
Qed.

Lemma get_mut_ok m M n f :
  map_ok m M -> varint_ok n -> exists m', get_mut m (pn n) f = Ret m' /\ map_ok m' (alter f n M).
Proof.
  intros HM Hn. pose proof HM as [Hl [(Hi & -> & Hv) | (s & e & H)]]; unfold get_mut.
  { unfold pn_index, is_empty. rewrite Hi, Z.eqb_refl. exists m. split; [done |].
    replace (alter f n ∅) with (∅ : gmap Z V); [done |]. apply map_eq. intros k. by rewrite lookup_alter, lookup_empty; case_decide. }
  pose proof H as (Hr & H0 & He' & Hout & HMl). pose proof Hr as (Es & Ee & Hs & He & Hse & Hlen & Hi & Hb).
  assert (Hnone : M !! n = None -> exists m', Ret m = Ret m' /\ map_ok m' (alter f n M)).
  { intros E. exists m. split; [done |]. by rewrite alter_id by congruence. }
  rewrite (pn_index_ring m s e) by done. specialize (HMl n) as En. case_decide; [| by apply Hnone]. cbn [obind].
  rewrite vindex_slot by done. cbn [obind]. destruct (slot m (n - s)) as [v |]; [| by apply Hnone].
  destruct (holds_insert m s e M n (f v) m) as (vs & -> & H'); [done | done | lia | done | lia | lia | done | lia |].
  cbn [obind]. eexists. split; [reflexivity |]. apply (holds_ok _ s (Z.max e n)).
  rewrite Z.max_l in H' |- * by lia. rewrite <- Ee in H'.
  replace (alter f n M) with (<[n:=f v]> M); [done |]. apply map_eq. intros k.
  rewrite lookup_alter, lookup_insert. case_decide; [subst; by rewrite En | done].
Qed.

Lemma default_ok : map_ok (default capacity) ∅.
Proof.
  destruct (capacity_ok DEFAULT_CAPACITY) as [H1 H2]; [unfold DEFAULT_CAPACITY; lia |].
  set (m := default capacity : Map). unfold DEFAULT_CAPACITY in H1.
  assert (L : len m = capacity DEFAULT_CAPACITY).
  { unfold m, default, vlen. cbn [values]. rewrite length_replicate. unfold DEFAULT_CAPACITY. lia. }
  split; [unfold DEFAULT_CAPACITY in *; lia |]. left. split; [done |]. split; [done |]. intros i Hi.
  destruct (vget_Some (values m) i) as [x E]; [done |]. rewrite E. f_equal.
  revert E. unfold vget. case_match; [| done]. unfold m, default. cbn [values]. intros E%lookup_replicate. apply E.
Qed.

#[export] Instance map_laws : PacketNumberMapLaws (H := map_interface capacity) sp map_ok := {
  insert_law := insert_ok;
  insert_or_update_law := insert_or_update_ok;
  get_law := get_ok;
  get_mut_law := get_mut_ok;
  remove_law := remove_ok;
  remove_range_law := remove_range_ok;
  iter_law := iter_ok;
  is_empty_law := is_empty_ok;
  clear_law := clear_ok
}.
End MapThm.

(** C16: the packet number map refines a finite map: whatever sequence of
    insertions, updates, lookups, removals of one or a range of packet numbers,
    visits and clearings is run from the empty map, with packet numbers inserted
    in the order the code asks for, every answer is the finite map's, entries are
    visited in the order of their packet numbers, and no assertion, overflow or
    out-of-range index stops the program, however often the ring wraps or grows. *)
Theorem packet_map_refines {V} (capacity : Z -> Z) (space : PacketNumberSpace) (os : list (@op V)) :
  (forall n, 0 < n < 2 ^ 63 -> n <= capacity n < 2 ^ 63) -> all_in_order ∅ os ->
  exec_all (H := map_interface capacity) space (default capacity) os = Ret (spec_all space ∅ os).
Proof.
  intros Hc Hos. pose proof (map_laws (V := V) capacity space Hc). apply (exec_all_ok space (map_ok space)); [by apply default_ok | done].
Qed.

Lemma packet_map_refines_witness :
  exec_all (H := map_interface id) ApplicationData (default id)
    [Insert 5 50; Insert 7 70; Insert 20 200; Remove 5; Get 7; InsertOrUpdate 9 90 Z.succ; RemoveRange 8 20; IsEmpty]
  = Ret (spec_all ApplicationData ∅
      [Insert 5 50; Insert 7 70; Insert 20 200; Remove 5; Get 7; InsertOrUpdate 9 90 Z.succ; RemoveRange 8 20; IsEmpty]).
Proof.
  apply (packet_map_refines id ApplicationData); [unfold id; lia |].
  cbn [all_in_order in_order]. unfold varint_ok, MAX_VARINT_VALUE.
  repeat match goal with |- _ /\ _ => split end; try exact I; apply (bool_decide_unpack _); vm_compute; exact I.
Defined.
