(* ===== verification/SortedMap.v ===== *)
(** * The sorted map of packet numbers

    [packet/number/map/sorted_vec.rs]: the entries in a deque sorted by packet
    number.  The deque is the list of its entries; what its own searches return
    on a sorted deque is modelled by a scan, the searches written in the file
    are modelled as they are. *)
From stdpp Require Import gmap.
From S2P Require Import Prelude Codec VarInt PacketNumber PacketMap.

Module SortedVecMap.
Section Map.
Context {V : Type}.

Definition SortedVecMap : Type := list (Z * V).

Definition default : SortedVecMap := [].

Definition insert (self : SortedVecMap) (packet_number : Z) (value : V) : outcome SortedVecMap :=
  let! monotonic :=
    match last self with
    | None => Ret true
    | Some (last, _) => PacketMap.pn_gt packet_number last
    end in
  let! _ := rassert monotonic in
  Ret (self ++ [(packet_number, value)]).

(** [VecDeque::binary_search_by_key]: [inl] the index of the key, or [inr] where
    it could be inserted. *)
Fixpoint scan (entries : SortedVecMap) (i : Z) (packet_number : Z) : outcome (Z + Z) :=
  match entries with
  | [] => Ret (inr i)
  | (pn, _) :: entries =>
      let! c := PacketNumber.cmp pn packet_number in
      match c with
      | Lt => scan entries (i + 1) packet_number
      | Eq => Ret (inl i)
      | Gt => Ret (inr i)
      end
  end.
Definition search (self : SortedVecMap) (packet_number : Z) : outcome (Z + Z) := scan self 0 packet_number.

(** [VecDeque::partition_point]. *)
Fixpoint partition_point (entries : SortedVecMap) (target : Z) : outcome Z :=
  match entries with
  | [] => Ret 0
  | (pn, _) :: entries =>
      let! c := PacketNumber.cmp pn target in
      match c with
      | Lt => let! i := partition_point entries target in Ret (i + 1)
      | _ => Ret 0
      end
  end.

(** [while lo < hi { .. }] over a test of an index. *)
Fixpoint bisect (fuel : nat) (test : Z -> outcome bool) (lo hi : Z) : outcome Z :=
  if lo <? hi then
    match fuel with
    | O => Panic
    | S fuel =>
        let! d := sub_c hi lo in
        let! mid := add_c 64 lo (d / 2) in
        let! b := test mid in
        if b then let! lo := add_c 64 mid 1 in bisect fuel test lo hi
        else bisect fuel test lo mid
    end
  else Ret lo.

Definition partition_point_from (self : SortedVecMap) (from target : Z) : outcome Z :=
  let! len := sub_c (vlen self) from in
  bisect (length self) (fun mid =>
    let! i := add_c 64 from mid in
    let! '(pn, _) := vindex self i in
    PacketMap.pn_ge target pn) 0 len.

Definition insert_or_update {S} (self : SortedVecMap) (packet_number : Z) (value : V) (update : S -> V -> outcome (S * V)) (s : S)
    : outcome (SortedVecMap * S) :=
  let! found := search self packet_number in
  match found with
  | inl idx =>
      let! '(pn, prev) := vindex self idx in
      let! '(s, entry) := update s prev in
      let! self := vset self idx (pn, entry) in
      Ret (self, s)
  | inr idx => Ret (take (Z.to_nat idx) self ++ (packet_number, value) :: drop (Z.to_nat idx) self, s)
  end.

Definition get (self : SortedVecMap) (packet_number : Z) : outcome (option V) :=
  let! found := search self packet_number in
  match found with
  | inl idx => let! '(_, value) := vindex self idx in Ret (Some value)
  | inr _ => Ret None
  end.

(** [if let Some(v) = map.get_mut(pn) { *v = f(v) }]. *)
Definition get_mut (self : SortedVecMap) (packet_number : Z) (f : V -> V) : outcome SortedVecMap :=
  let! found := search self packet_number in
  match found with
  | inl idx => let! '(pn, value) := vindex self idx in vset self idx (pn, f value)
  | inr _ => Ret self
  end.

Definition remove (self : SortedVecMap) (packet_number : Z) : outcome (SortedVecMap * option V) :=
  let! found := search self packet_number in
  match found with
  | inl idx =>
      let! '(_, value) := vindex self idx in
      Ret (take (Z.to_nat idx) self ++ drop (S (Z.to_nat idx)) self, Some value)
  | inr _ => Ret (self, None)
  end.

(** [remove_range] with its iterator consumed or dropped. *)
Definition remove_range (self : SortedVecMap) (range : PacketNumberRange.t) : outcome (list (Z * V) * SortedVecMap) :=
  let! start_idx := partition_point self (PacketNumberRange.start range) in
  let! n := partition_point_from self start_idx (PacketNumberRange.end_ range) in
  let! end_idx := add_c 64 start_idx n in
  Ret (take (Z.to_nat n) (drop (Z.to_nat start_idx) self),
       take (Z.to_nat start_idx) self ++ drop (Z.to_nat end_idx) self).

Definition get_range (self : SortedVecMap) : outcome PacketNumberRange.t :=
  match head self, last self with
  | Some (start, _), Some (end_, _) => PacketNumberRange.new start end_
  | _, _ => let base := PacketNumber.from_varint 0 Initial in PacketNumberRange.new base base
  end.

Definition iter (self : SortedVecMap) : list (Z * V) := self.

Definition is_empty (self : SortedVecMap) : bool := match self with [] => true | _ => false end.

Definition len (self : SortedVecMap) : Z := vlen self.

Definition clear (self : SortedVecMap) : SortedVecMap := [].

Definition LINEAR_SCAN_LIMIT : Z := 16.

(** [for idx in 1..upper_bound { .. }]: the last index of the run. *)
Fixpoint linear_cutoff (n : nat) (test : Z -> outcome bool) (idx cutoff_idx : Z) : outcome Z :=
  match n with
  | O => Ret cutoff_idx
  | S n =>
      let! b := test idx in
      if b then linear_cutoff n test (idx + 1) idx else Ret cutoff_idx
  end.

Definition contiguous_prefix_cutoff (self : SortedVecMap) (max_packet_number : Z) (predicate : Z -> V -> bool)
    : outcome (option Z) :=
  let! upper_bound := partition_point_from self 0 max_packet_number in
  if upper_bound =? 0 then Ret None else
  let test idx := let! '(pn, value) := vindex self idx in Ret (predicate pn value) in
  let! first := test 0 in
  if negb first then Ret None else
  let! cutoff_idx :=
    if upper_bound <=? LINEAR_SCAN_LIMIT then linear_cutoff (Z.to_nat (upper_bound - 1)) test 1 0
    else
      let! lo := bisect (length self) test 1 upper_bound in
      sub_c lo 1 in
  let! '(pn, _) := vindex self cutoff_idx in
  Ret (Some pn).
End Map.
End SortedVecMap.
