(* ===== verification/SortedMapThm.v ===== *)
(** * The sorted packet number map is a finite map

    The sorted deque keeps the promises of the interface, its searches find what
    a scan finds, and so it gives the answers the ring buffer gives. *)
From stdpp Require Import gmap sorting.
From S2P Require Import Prelude Codec VarInt PacketNumber PacketMap MapInterface PacketMapThm SortedMap.
Import SortedVecMap.

#[export] Instance sorted_interface {V} : PacketNumberMap (@SortedVecMap V) V := {
  m_insert := insert;
  m_insert_or_update S := insert_or_update;
  m_get := get;
  m_get_mut := get_mut;
  m_remove := remove;
  m_remove_range := remove_range;
  m_iter self := Ret (iter self);
  m_is_empty := is_empty;
  m_clear self := Ret (clear self)
}.

(** ** Bisection *)

(** A test that is true below [c] and false from [c] on is cut at [c]. *)
Lemma bisect_spec test c fuel : forall lo hi,
  0 <= lo <= c -> c <= hi < 2 ^ 63 -> hi - lo <= Z.of_nat fuel ->
  (forall i, lo <= i < c -> test i = Ret true) -> (forall i, c <= i < hi -> test i = Ret false) ->
  bisect fuel test lo hi = Ret c.
Proof.
  induction fuel as [| fuel IH]; intros lo hi Hlo Hhi Hf Ht Hn; cbn [bisect]; destruct (Z.ltb_spec lo hi); try (f_equal; lia).
  rewrite sub_c_Ret by lia. cbn [obind]. pose proof (Z.div_lt (hi - lo) 2 ltac:(lia) ltac:(lia)).
  pose proof (Z.div_pos (hi - lo) 2 ltac:(lia) ltac:(lia)). rewrite add_c_Ret by lia. cbn [obind].
  destruct (Z.lt_ge_cases (lo + (hi - lo) / 2) c).
  - rewrite Ht by lia. cbn [obind]. rewrite add_c_Ret by lia. cbn [obind]. apply IH; try lia.
    + intros i Hi. apply Ht. lia.
    + done.
  - rewrite Hn by lia. cbn [obind]. apply IH; try lia.
    + done.
    + intros i Hi. apply Hn. lia.
Qed.

Section SortedThm.
Context {V : Type} (sp : PacketNumberSpace).

Local Abbreviation pn := (fun n => PacketNumber.from_varint n sp).
Local Abbreviation lm l := (list_to_map l : gmap Z V).

(** ** Sorted lists and the maps they stand for *)

Definition raw (l : list (Z * V)) : list (Z * V) := (fun kv => (pn kv.1, kv.2)) <$> l.
Definition sorted (l : list (Z * V)) : Prop := StronglySorted Z.lt l.*1 /\ Forall varint_ok l.*1.
Definition below (n : Z) : list (Z * V) -> Prop := Forall (fun kv => kv.1 < n).
Definition above (n : Z) : list (Z * V) -> Prop := Forall (fun kv => n <= kv.1).

Lemma raw_app l1 l2 : raw (l1 ++ l2) = raw l1 ++ raw l2.
Proof. apply fmap_app. Qed.
Lemma vlen_raw l : vlen (raw l) = vlen l.
Proof. unfold vlen, raw. by rewrite length_fmap. Qed.

Lemma sorted_cons k v l : sorted ((k, v) :: l) <-> varint_ok k /\ above (k + 1) l /\ sorted l.
Proof.
  unfold sorted, above. cbn. split.
  - intros [[Hs Hk]%StronglySorted_inv [Hv Hl]%Forall_cons]. split; [done |]. split; [| done].
    rewrite Forall_fmap in Hk. eapply Forall_impl; [exact Hk |]. cbn. intros. lia.
  - intros (Hv & Hk & Hs & Hl). split; [| by constructor]. constructor; [done |]. rewrite Forall_fmap.
    eapply Forall_impl; [exact Hk |]. cbn. intros. lia.
Qed.

Lemma sorted_app l1 l2 : sorted (l1 ++ l2) <-> sorted l1 /\ sorted l2 /\ Forall (fun kv => above (kv.1 + 1) l2) l1.
Proof.
  induction l1 as [| [k v] l1 IH]; cbn [app].
  - split; [intros H; split; [split; constructor |]; split; [done | constructor] | by intros (_ & H & _)].
  - rewrite !sorted_cons, IH, Forall_cons. unfold above. rewrite Forall_app. naive_solver.
Qed.

(** The list splits at any packet number. *)
Lemma sorted_split n l : sorted l -> exists l1 l2, l = l1 ++ l2 /\ below n l1 /\ above n l2.
Proof.
  induction l as [| [k v] l IH]; intros H; [by exists [], []; repeat constructor |].
  apply sorted_cons in H as (_ & Hk & Hs). destruct (Z.lt_ge_cases k n) as [Hkn | Hkn].
  - destruct (IH Hs) as (l1 & l2 & -> & H1 & H2). exists ((k, v) :: l1), l2. split; [done |]. split; [by constructor | done].
  - exists [], ((k, v) :: l). split; [done |]. split; [constructor |]. constructor; [done |].
    eapply Forall_impl; [exact Hk |]. cbn. intros. lia.
Qed.

Lemma sorted_len l : sorted l -> vlen l <= MAX_VARINT_VALUE + 1.
Proof.
  intros H. assert (G : forall l a, sorted l -> above a l -> 0 <= a <= MAX_VARINT_VALUE + 1 -> vlen l <= MAX_VARINT_VALUE + 1 - a).
  { clear. induction l as [| [k v] l IH]; intros a Hs Ha Hr; [unfold vlen; cbn; lia |].
    apply sorted_cons in Hs as (Hv & Hk & Hs). apply Forall_cons in Ha as [Ha _]. cbn in Ha. unfold varint_ok in Hv.
    rewrite vlen_cons. specialize (IH (k + 1) Hs Hk). lia. }
  specialize (G l 0 H). unfold MAX_VARINT_VALUE in *. rewrite Z.sub_0_r in G. apply G; [| lia].
  destruct H as [_ Hv]. rewrite Forall_fmap in Hv. eapply Forall_impl; [exact Hv |]. unfold varint_ok. cbn. intros. lia.
Qed.

(** ** The searches *)

Lemma sorted_varint l1 k v l2 : sorted (l1 ++ (k, v) :: l2) -> varint_ok k.
Proof. intros (_ & H & _)%sorted_app. by apply sorted_cons in H as [H _]. Qed.

(** Where a packet number is, or would be. *)
Definition found (l1 l2 : list (Z * V)) (n : Z) (i : Z) : Z + Z :=
  match l2 with
  | (k, _) :: _ => if k =? n then inl (i + vlen l1) else inr (i + vlen l1)
  | [] => inr (i + vlen l1)
  end.

Lemma scan_raw l1 l2 n i :
  sorted (l1 ++ l2) -> varint_ok n -> below n l1 -> above n l2 -> scan (raw (l1 ++ l2)) i (pn n) = Ret (found l1 l2 n i).
Proof.
  intros Hs Hn H1 H2. revert i. induction l1 as [| [k v] l1 IH]; intros i.
  - unfold found. rewrite Z.add_0_r. destruct l2 as [| [k v] l2]; [done |]. cbn [app raw fmap list_fmap scan fst snd].
    apply sorted_cons in Hs as [Hk _]. apply Forall_cons in H2 as [H2 _]. cbn in H2.
    rewrite pn_cmp_from_varint by done. cbn [obind]. destruct (Z.compare_spec k n), (Z.eqb_spec k n); done || lia.
  - cbn [app raw fmap list_fmap scan fst snd]. apply sorted_cons in Hs as (Hk & _ & Hs). apply Forall_cons in H1 as [Hkn H1]. cbn in Hkn.
    rewrite pn_cmp_from_varint by done. cbn [obind]. destruct (Z.compare_spec k n); try lia.
    rewrite (IH Hs H1). unfold found. rewrite vlen_cons. replace (i + 1 + vlen l1) with (i + (1 + vlen l1)) by lia. done.
Qed.

Lemma partition_point_raw l1 l2 n :
  sorted (l1 ++ l2) -> varint_ok n -> below n l1 -> above n l2 -> partition_point (raw (l1 ++ l2)) (pn n) = Ret (vlen l1).
Proof.
  intros Hs Hn H1 H2. induction l1 as [| [k v] l1 IH].
  - destruct l2 as [| [k v] l2]; [done |]. cbn [app raw fmap list_fmap partition_point fst snd].
    apply sorted_cons in Hs as [Hk _]. apply Forall_cons in H2 as [H2 _]. cbn in H2.
    rewrite pn_cmp_from_varint by done. cbn [obind]. destruct (Z.compare_spec k n); done || lia.
  - cbn [app raw fmap list_fmap partition_point fst snd]. apply sorted_cons in Hs as (Hk & _ & Hs). apply Forall_cons in H1 as [Hkn H1]. cbn in Hkn.
    rewrite pn_cmp_from_varint by done. cbn [obind]. destruct (Z.compare_spec k n); try lia.
    fold (raw (l1 ++ l2)). rewrite (IH Hs H1). cbn [obind]. rewrite vlen_cons. f_equal. lia.
Qed.

Lemma vindex_raw l i : 0 <= i < vlen l ->
  exists k v, l !! Z.to_nat i = Some (k, v) /\ vindex (raw l) i = Ret (pn k, v).
Proof.
  intros Hi. destruct (lookup_lt_is_Some_2 l (Z.to_nat i)) as [[k v] E]; [unfold vlen in Hi; lia |].
  exists k, v. split; [done |]. unfold vindex, vget. rewrite vlen_raw.
  rewrite (proj2 (Z.leb_le 0 i)), (proj2 (Z.ltb_lt i (vlen l))) by lia. unfold raw. cbn [andb]. by rewrite list_lookup_fmap, E.
Qed.

(** Bisection counts the entries up to a packet number. *)
Lemma partition_point_from_raw l0 l1 l2 b :
  sorted (l0 ++ l1 ++ l2) -> varint_ok b -> below (b + 1) l1 -> above (b + 1) l2 ->
  partition_point_from (raw (l0 ++ l1 ++ l2)) (vlen l0) (pn b) = Ret (vlen l1).
Proof.
  intros Hs Hb H1 H2. pose proof (sorted_len _ Hs) as Hl. unfold MAX_VARINT_VALUE in Hl. unfold partition_point_from.
  rewrite vlen_raw. rewrite !vlen_app in *. pose proof (vlen_nonneg l0). pose proof (vlen_nonneg l1). pose proof (vlen_nonneg l2).
  rewrite sub_c_Ret by lia. cbn [obind].
  assert (Hp : forall i, 0 <= i < vlen l1 + vlen l2 -> exists k v, (l1 ++ l2) !! Z.to_nat i = Some (k, v) /\
    (let! i0 := add_c 64 (vlen l0) i in let! '(p, _) := vindex (raw (l0 ++ l1 ++ l2)) i0 in PacketMap.pn_ge (pn b) p) = Ret (k <=? b)).
  { intros i Hi. rewrite add_c_Ret by lia. cbn [obind].
    destruct (vindex_raw (l0 ++ l1 ++ l2) (vlen l0 + i)) as (k & v & E & ->); [rewrite !vlen_app; lia |]. cbn [obind].
    exists k, v. split.
    - rewrite <- E. rewrite (lookup_app_r l0) by (unfold vlen; lia). f_equal. unfold vlen. lia.
    - apply pn_ge_spec; [done |]. destruct Hs as [_ Hv]. rewrite Forall_fmap in Hv. apply (Forall_lookup_1 _ _ _ _ Hv E). }
  apply bisect_spec.
  - lia.
  - lia.
  - unfold raw, vlen. rewrite length_fmap, !length_app. lia.
  - intros i Hi. destruct (Hp i) as (k & v & E & ->); [lia |]. rewrite lookup_app_l in E by (unfold vlen in Hi; lia).
    f_equal. apply Z.leb_le. pose proof (Forall_lookup_1 _ _ _ _ H1 E) as Hk. cbn in Hk. lia.
  - intros i Hi. destruct (Hp i) as (k & v & E & ->); [lia |]. rewrite lookup_app_r in E by (unfold vlen in Hi; lia).
    f_equal. apply Z.leb_gt. pose proof (Forall_lookup_1 _ _ _ _ H2 E) as Hk. cbn in Hk. lia.
Qed.

(** ** The finite map of a list *)

Lemma lm_none l n : Forall (fun kv => kv.1 <> n) l -> lm l !! n = None.
Proof.
  intros H. apply not_elem_of_list_to_map. intros (kv & -> & Hin)%list_elem_of_fmap.
  rewrite Forall_forall in H. by apply (H kv).
Qed.
Lemma lm_below l n m : below n l -> n <= m -> lm l !! m = None.
Proof. intros H Hm. apply lm_none. eapply Forall_impl; [exact H |]. cbn. intros. lia. Qed.
Lemma lm_above l n m : above n l -> m < n -> lm l !! m = None.
Proof. intros H Hm. apply lm_none. eapply Forall_impl; [exact H |]. cbn. intros. lia. Qed.

Lemma lm_insert l1 l2 n x : below n l1 -> lm (l1 ++ (n, x) :: l2) = <[n:=x]> (lm (l1 ++ l2)).
Proof.
  intros H1. rewrite !list_to_map_app, list_to_map_cons. rewrite insert_union_r; [done |]. apply (lm_below _ n); [done | lia].
Qed.

Lemma entries_list l : forall (M : gmap Z V) a n,
  sorted l -> above a l -> below (a + n) l -> 0 <= n -> (forall k, a <= k < a + n -> M !! k = lm l !! k) ->
  omap (fun k => (fun v => (pn k, v)) <$> M !! k) (seqZ a n) = raw l.
Proof.
  induction l as [| [k v] l IH]; intros M a n Hs Ha Hb Hn HM.
  { apply (entries_none sp). intros k Hk. by rewrite HM. }
  apply sorted_cons in Hs as (Hk & Hal & Hs). apply Forall_cons in Ha as [Ha _]. apply Forall_cons in Hb as [Hb Hbl]. cbn in Ha, Hb.
  replace n with (k - a + (n - (k - a))) by lia. rewrite seqZ_app, omap_app by lia.
  rewrite (entries_none sp).
  2: { intros j Hj. rewrite HM by lia. apply lm_none. constructor; [cbn; lia |]. eapply Forall_impl; [exact Hal |]. cbn. intros. lia. }
  replace (a + (k - a)) with k by lia. rewrite (seqZ_cons k) by lia. rewrite omap_cons_match. rewrite HM by lia.
  rewrite list_to_map_cons, lookup_insert_eq. cbn [fmap option_fmap option_map app].
  unfold raw. cbn [fmap list_fmap fst snd]. f_equal.
  replace (Z.succ k) with (k + 1) by lia. apply IH; [done | done | | lia |].
  - eapply Forall_impl; [exact Hbl |]. cbn. intros. lia.
  - intros j Hj. rewrite HM by lia. rewrite list_to_map_cons, lookup_insert_ne by lia. done.
Qed.

(** ** The operations *)

Definition rep (es : SortedVecMap) (M : gmap Z V) : Prop := exists l, sorted l /\ es = raw l /\ M = lm l.

(** A search either finds the entry or the gap it belongs to. *)
Lemma search_rep l n :
  sorted l -> varint_ok n ->
  (exists l1 v l2, l = l1 ++ (n, v) :: l2 /\ search (raw l) (pn n) = Ret (inl (vlen l1)) /\ below n l1 /\ above (n + 1) l2)
  \/ (exists l1 l2, l = l1 ++ l2 /\ search (raw l) (pn n) = Ret (inr (vlen l1)) /\ below n l1 /\ above (n + 1) l2).
Proof.
  intros Hs Hn. destruct (sorted_split n l Hs) as (l1 & l2 & -> & H1 & H2). unfold search.
  rewrite scan_raw by done. unfold found. rewrite Z.add_0_l. destruct l2 as [| [k v] l2].
  { right. exists l1, []. do 3 (split; [done |]). constructor. }
  apply Forall_cons in H2 as [Hk H2]. cbn in Hk. apply sorted_app in Hs as (_ & (_ & Ha & _)%sorted_cons & _).
  destruct (Z.eqb_spec k n) as [-> |]; [left; by exists l1, v, l2 |]. right. exists l1, ((k, v) :: l2).
  do 3 (split; [done |]). constructor; [cbn; lia |]. eapply Forall_impl; [exact Ha |]. cbn. intros. lia.
Qed.

Lemma lm_gap l1 l2 n : below n l1 -> above (n + 1) l2 -> lm (l1 ++ l2) !! n = None.
Proof.
  intros H1 H2. rewrite list_to_map_app, lookup_union_None. split; [apply (lm_below _ n) | apply (lm_above _ (n + 1))]; done || lia.
Qed.
Lemma lm_hit l1 v l2 n : below n l1 -> lm (l1 ++ (n, v) :: l2) !! n = Some v.
Proof. intros H1. rewrite lm_insert by done. apply lookup_insert_eq. Qed.

Lemma vindex_hit l1 n v l2 : vindex (raw (l1 ++ (n, v) :: l2)) (vlen l1) = Ret (pn n, v).
Proof. rewrite raw_app, <- (vlen_raw l1). unfold vindex. cbn. by rewrite vget_app. Qed.
Lemma vset_hit l1 n v l2 y : vset (raw (l1 ++ (n, v) :: l2)) (vlen l1) (pn n, y) = Ret (raw (l1 ++ (n, y) :: l2)).
Proof. rewrite !raw_app, <- (vlen_raw l1). apply vset_app. Qed.

Lemma below_trans n m l : below n l -> n <= m -> below m l.
Proof. intros H Hm. eapply Forall_impl; [exact H |]. cbn. intros. lia. Qed.
Lemma above_trans n m l : above n l -> m <= n -> above m l.
Proof. intros H Hm. eapply Forall_impl; [exact H |]. cbn. intros. lia. Qed.

(** Keys in order around a packet number. *)
Lemma sorted_middle l1 n x l2 :
  sorted (l1 ++ l2) -> varint_ok n -> below n l1 -> above (n + 1) l2 -> sorted (l1 ++ (n, x) :: l2).
Proof.
  rewrite !sorted_app, sorted_cons. intros (Hs1 & Hs2 & H12) Hn H1 H2. do 2 (split; [done |]).
  apply Forall_forall. intros kv Hkv. unfold below in H1. rewrite Forall_forall in H1, H12. specialize (H1 kv Hkv). specialize (H12 kv Hkv).
  constructor; [cbn; lia | done].
Qed.
Lemma sorted_drop l1 l2 l3 : sorted (l1 ++ l2 ++ l3) -> sorted (l1 ++ l3).
Proof.
  rewrite !sorted_app. intros (H1 & (_ & H3 & _) & H). do 2 (split; [done |]).
  eapply Forall_impl; [exact H |]. intros kv. unfold above. rewrite Forall_app. naive_solver.
Qed.

Lemma sorted_insert_ok m M n x :
  rep m M -> varint_ok n -> (forall k, is_Some (M !! k) -> k < n) ->
  exists m', insert m (pn n) x = Ret m' /\ rep m' (<[n:=x]> M).
Proof.
  intros (l & Hs & -> & ->) Hn Hmax. unfold insert.
  assert (Hb : below n l).
  { apply Forall_forall. intros [k v] Hin. apply Hmax. exists v. apply elem_of_list_to_map; [| done].
    destruct Hs as [Hs _]. clear -Hs. induction Hs as [| k ks Hs IH Hk]; constructor; [| done].
    intros Hin. rewrite Forall_forall in Hk. specialize (Hk k Hin). lia. }
  assert (E : (let! monotonic := match last (raw l) with None => Ret true | Some (last, _) => PacketMap.pn_gt (pn n) last end in
      rassert monotonic) = Ret tt).
  { destruct l as [| [k v] l' _] using rev_ind; [done |]. rewrite raw_app, last_app. cbn [raw fmap list_fmap last fst snd].
    pose proof (sorted_varint _ _ _ _ Hs). rewrite pn_gt_spec by done. cbn [obind].
    apply Forall_app in Hb as [_ [Hk _]%Forall_cons]. cbn in Hk. by rewrite (proj2 (Z.ltb_lt _ _)) by lia. }
  destruct (match last (raw l) with None => _ | Some _ => _ end) as [b |]; [| done]. cbn [obind] in *. rewrite E. cbn [obind].
  eexists. split; [reflexivity |]. exists (l ++ [(n, x)]).
  split; [apply sorted_middle; rewrite ?app_nil_r; done || constructor |]. split; [by rewrite raw_app |].
  by rewrite lm_insert, app_nil_r by done.
Qed.

Lemma sorted_insert_or_update_ok S m M n x upd (st st' : S) y :
  rep m M -> varint_ok n -> match M !! n with Some p => upd st p = Ret (st', y) | None => st' = st /\ y = x end ->
  exists m', insert_or_update m (pn n) x upd st = Ret (m', st') /\ rep m' (<[n:=y]> M).
Proof.
  intros (l & Hs & -> & ->) Hn Hy. unfold insert_or_update.
  destruct (search_rep l n Hs Hn) as [(l1 & v & l2 & -> & -> & H1 & H2) | (l1 & l2 & -> & -> & H1 & H2)]; cbn [obind].
  - rewrite lm_hit in Hy by done. rewrite vindex_hit. cbn [obind]. rewrite Hy. cbn [obind]. rewrite vset_hit. cbn [obind].
    eexists. split; [reflexivity |]. exists (l1 ++ (n, y) :: l2).
    split; [apply sorted_middle; try done; by apply (sorted_drop l1 [(n, v)]) |]. split; [done |].
    rewrite !lm_insert by done. by rewrite insert_insert_eq.
  - rewrite lm_gap in Hy by done. destruct Hy as [-> ->]. rewrite raw_app. unfold vlen. rewrite Nat2Z.id.
    replace (length l1) with (length (raw l1)) by apply length_fmap. rewrite take_app_length, drop_app_length.
    eexists. split; [reflexivity |]. exists (l1 ++ (n, x) :: l2). split; [by apply sorted_middle |].
    split; [by rewrite raw_app | by rewrite lm_insert].
Qed.

Lemma sorted_get_ok m M n : rep m M -> varint_ok n -> get m (pn n) = Ret (M !! n).
Proof.
  intros (l & Hs & -> & ->) Hn. unfold get.
  destruct (search_rep l n Hs Hn) as [(l1 & v & l2 & -> & -> & H1 & H2) | (l1 & l2 & -> & -> & H1 & H2)]; cbn [obind].
  - rewrite vindex_hit. cbn [obind]. by rewrite lm_hit.
  - by rewrite lm_gap.
Qed.

Lemma sorted_get_mut_ok m M n f :
  rep m M -> varint_ok n -> exists m', get_mut m (pn n) f = Ret m' /\ rep m' (alter f n M).
Proof.
  intros (l & Hs & -> & ->) Hn. unfold get_mut.
  destruct (search_rep l n Hs Hn) as [(l1 & v & l2 & -> & -> & H1 & H2) | (l1 & l2 & -> & E & H1 & H2)]; cbn [obind].
  - rewrite vindex_hit. cbn [obind]. rewrite vset_hit. eexists. split; [reflexivity |]. exists (l1 ++ (n, f v) :: l2).
    split; [apply sorted_middle; try done; by apply (sorted_drop l1 [(n, v)]) |]. split; [done |].
    rewrite !lm_insert by done. by rewrite alter_insert_eq.
  - rewrite E. cbn [obind]. eexists. split; [reflexivity |]. exists (l1 ++ l2). do 2 (split; [done |]).
    apply alter_id. intros v. by rewrite lm_gap.
Qed.

Lemma sorted_remove_ok m M n :
  rep m M -> varint_ok n -> exists m', remove m (pn n) = Ret (m', M !! n) /\ rep m' (delete n M).
Proof.
  intros (l & Hs & -> & ->) Hn. unfold remove.
  destruct (search_rep l n Hs Hn) as [(l1 & v & l2 & -> & -> & H1 & H2) | (l1 & l2 & -> & E & H1 & H2)]; cbn [obind].
  - rewrite vindex_hit. cbn [obind]. rewrite lm_hit by done. eexists. split; [reflexivity |]. exists (l1 ++ l2).
    split; [by apply (sorted_drop l1 [(n, v)]) |]. split.
    + rewrite !raw_app. unfold vlen. rewrite Nat2Z.id. replace (length l1) with (length (raw l1)) by apply length_fmap.
      rewrite take_app_length. f_equal. rewrite drop_app_ge by lia. by replace (S (length (raw l1)) - length (raw l1))%nat with 1%nat by lia.
    + rewrite lm_insert by done. apply delete_insert_id. by apply lm_gap.
  - rewrite E. cbn [obind]. rewrite lm_gap by done. eexists. split; [reflexivity |]. exists (l1 ++ l2). do 2 (split; [done |]).
    apply delete_id. by apply lm_gap.
Qed.

Lemma take_drop_raw l1 l2 l3 n :
  n = vlen l1 ->
  take (Z.to_nat (vlen l2)) (drop (Z.to_nat n) (raw (l1 ++ l2 ++ l3))) = raw l2
  /\ take (Z.to_nat n) (raw (l1 ++ l2 ++ l3)) ++ drop (Z.to_nat (n + vlen l2)) (raw (l1 ++ l2 ++ l3)) = raw (l1 ++ l3).
Proof.
  intros ->. rewrite <- (vlen_raw l1), <- (vlen_raw l2), <- vlen_app, !raw_app. unfold vlen. rewrite !Nat2Z.id.
  rewrite drop_app_length, !take_app_length. split; [done |]. by rewrite app_assoc, drop_app_length.
Qed.

Lemma sorted_remove_range_ok m M a b :
  rep m M -> varint_ok a -> varint_ok b -> a <= b ->
  exists m', remove_range m (range sp a b) = Ret (entries sp M a b, m') /\ rep m' (without M a b).
Proof.
  intros (l & Hs & -> & ->) Ha Hb Hab. unfold remove_range, range. cbn [PacketNumberRange.start PacketNumberRange.end_].
  destruct (sorted_split a l Hs) as (l1 & l' & -> & H1 & H'). pose proof Hs as (_ & Hs' & _)%sorted_app.
  destruct (sorted_split (b + 1) l' Hs') as (l2 & l3 & -> & H2 & H3). apply Forall_app in H' as [H2' H3'].
  rewrite partition_point_raw by (done || by apply Forall_app). cbn [obind].
  rewrite partition_point_from_raw by done. cbn [obind].
  pose proof (sorted_len _ Hs) as Hl. rewrite !vlen_app in Hl. unfold MAX_VARINT_VALUE in Hl. pose proof (vlen_nonneg l3).
  pose proof (vlen_nonneg l1). pose proof (vlen_nonneg l2). rewrite add_c_Ret by lia. cbn [obind].
  destruct (take_drop_raw l1 l2 l3 (vlen l1) eq_refl) as [-> ->]. eexists. split; [do 2 f_equal | exists (l1 ++ l3); split; [by eapply sorted_drop | split; [done |]]].
  - symmetry. unfold entries. apply entries_list; [by apply sorted_app in Hs' as [] | done | by replace (a + (b - a + 1)) with (b + 1) by lia | lia |].
    intros k Hk. rewrite !list_to_map_app. rewrite lookup_union_r by (apply (lm_below _ a); done || lia).
    apply lookup_union_l. apply (lm_above _ (b + 1)); done || lia.
  - apply map_eq. intros k. rewrite lookup_without, !list_to_map_app, !lookup_union.
    case_decide as Hk.
    + rewrite (lm_below l1 a), (lm_above l3 (b + 1)) by (done || lia). done.
    + rewrite (lm_none l2); [by rewrite (left_id None _) |]. apply Forall_forall. intros kv Hin <-. apply Hk.
      unfold below, above in *. rewrite Forall_forall in H2, H2'. specialize (H2 kv Hin). specialize (H2' kv Hin). lia.
Qed.

Lemma sorted_iter_ok m M : rep m M -> Ret (iter m) = Ret (all_entries sp M).
Proof.
  intros (l & Hs & -> & ->). unfold iter, all_entries, entries. f_equal. symmetry.
  assert (Hv : Forall (fun kv => varint_ok kv.1) l) by (destruct Hs as [_ Hv]; by rewrite Forall_fmap in Hv).
  apply entries_list; [done | | | unfold MAX_VARINT_VALUE; lia | done]; eapply Forall_impl; try exact Hv; unfold varint_ok; cbn; intros; lia.
Qed.

Lemma sorted_is_empty_ok m M : rep m M -> is_empty m = bool_decide (M = ∅).
Proof.
  intros (l & Hs & -> & ->). destruct l as [| [k v] l]; [done |]. symmetry. apply bool_decide_eq_false. cbn [list_to_map].
  apply insert_non_empty.
Qed.

Lemma rep_empty : rep [] ∅.
Proof. exists []. split; [split; constructor | done]. Qed.

#[export] Instance sorted_laws : PacketNumberMapLaws sp rep.
Proof.
  split.
  - apply sorted_insert_ok.
  - intros. by apply sorted_insert_or_update_ok.
  - apply sorted_get_ok.
  - apply sorted_get_mut_ok.
  - apply sorted_remove_ok.
  - apply sorted_remove_range_ok.
  - apply sorted_iter_ok.
  - apply sorted_is_empty_ok.
  - intros m M _. eexists. split; [reflexivity | apply rep_empty].
Qed.

(** ** The end of a run of entries *)

Lemma linear_cutoff_spec test c n : forall i d,
  0 <= i -> (forall j, i <= j < c -> test j = Ret true) -> (forall j, c <= j < i + Z.of_nat n -> test j = Ret false) ->
  i <= c <= i + Z.of_nat n -> linear_cutoff n test i d = Ret (if decide (c = i) then d else c - 1).
Proof.
  induction n as [| n IH]; intros i d Hi Ht Hf Hc; cbn [linear_cutoff]; [by rewrite decide_True by lia |].
  destruct (decide (c = i)) as [-> | Hci]; [by rewrite Hf by lia |]. rewrite Ht by lia. cbn [obind]. rewrite IH.
  - f_equal. case_decide; lia.
  - lia.
  - intros j Hj. apply Ht. lia.
  - intros j Hj. apply Hf. lia.
  - lia.
Qed.

(** The scan and the bisection both find the last entry of the run of entries,
    up to a packet number, that satisfy a predicate. *)
Theorem contiguous_prefix_cutoff_spec l1 l2 l3 n P :
  sorted (l1 ++ l2 ++ l3) -> varint_ok n -> below (n + 1) (l1 ++ l2) -> above (n + 1) l3 ->
  Forall (fun kv => P (pn kv.1) kv.2 = true) l1 -> Forall (fun kv => P (pn kv.1) kv.2 = false) l2 ->
  contiguous_prefix_cutoff (raw (l1 ++ l2 ++ l3)) (pn n) P = Ret ((fun kv => pn kv.1) <$> last l1).
Proof.
  intros Hs Hn Hb Ha H1 H2. unfold contiguous_prefix_cutoff. pose proof (sorted_len _ Hs) as Hl. unfold MAX_VARINT_VALUE in Hl.
  assert (Eu : partition_point_from (raw (l1 ++ l2 ++ l3)) 0 (pn n) = Ret (vlen (l1 ++ l2))).
  { rewrite app_assoc in *. by apply (partition_point_from_raw [] (l1 ++ l2) l3). }
  rewrite Eu. cbn [obind]. clear Eu. cbv zeta.
  set (test := fun idx => let! '(p, value) := vindex (raw (l1 ++ l2 ++ l3)) idx in Ret (P p value)).
  change (let! x := vindex (raw (l1 ++ l2 ++ l3)) 0 in let (pn, value) := x in Ret (P pn value)) with (test 0).
  assert (Ht : forall i, 0 <= i < vlen l1 -> test i = Ret true).
  { intros i Hi. unfold test. destruct (vindex_raw (l1 ++ l2 ++ l3) i) as (k & v & E & ->); [rewrite !vlen_app; pose proof (vlen_nonneg l2); pose proof (vlen_nonneg l3); lia |].
    cbn [obind]. rewrite lookup_app_l in E by (unfold vlen in Hi; lia). f_equal. apply (Forall_lookup_1 _ _ _ _ H1 E). }
  assert (Hf : forall i, vlen l1 <= i < vlen (l1 ++ l2) -> test i = Ret false).
  { intros i Hi. rewrite vlen_app in Hi. unfold test. destruct (vindex_raw (l1 ++ l2 ++ l3) i) as (k & v & E & ->); [rewrite !vlen_app; pose proof (vlen_nonneg l1); pose proof (vlen_nonneg l3); lia |].
    cbn [obind]. rewrite lookup_app_r, lookup_app_l in E by (unfold vlen in Hi; lia). f_equal. apply (Forall_lookup_1 _ _ _ _ H2 E). }
  rewrite !vlen_app in *. pose proof (vlen_nonneg l1). pose proof (vlen_nonneg l2). pose proof (vlen_nonneg l3).
  destruct (Z.eqb_spec (vlen l1 + vlen l2) 0) as [E0 |]; [by destruct l1; [| rewrite vlen_cons in E0; pose proof (vlen_nonneg l1); lia] |].
  destruct (decide (vlen l1 = 0)) as [E1 |]; [rewrite Hf by lia; by destruct l1; [| rewrite vlen_cons in E1; pose proof (vlen_nonneg l1); lia] |].
  rewrite Ht by lia. cbn [obind negb].
  assert (Ec : (if vlen l1 + vlen l2 <=? LINEAR_SCAN_LIMIT then linear_cutoff (Z.to_nat (vlen l1 + vlen l2 - 1)) test 1 0
      else let! lo := bisect (length (raw (l1 ++ l2 ++ l3))) test 1 (vlen l1 + vlen l2) in sub_c lo 1) = Ret (vlen l1 - 1)).
  { destruct (vlen l1 + vlen l2 <=? LINEAR_SCAN_LIMIT).
    - rewrite (linear_cutoff_spec _ (vlen l1)); [f_equal; case_decide; lia | lia | intros; apply Ht; lia | intros; apply Hf; lia | lia].
    - rewrite (bisect_spec _ (vlen l1)); [cbn [obind]; apply sub_c_Ret; lia | lia | lia | | intros; apply Ht; lia | intros; apply Hf; lia].
      unfold raw. rewrite length_fmap, !length_app. unfold vlen. lia. }
  rewrite Ec. cbn [obind]. destruct (vindex_raw (l1 ++ l2 ++ l3) (vlen l1 - 1)) as (k & v & E & ->); [rewrite !vlen_app; lia |].
  cbn [obind]. rewrite lookup_app_l in E by (unfold vlen in *; lia). f_equal. rewrite last_lookup.
  replace (pred (length l1)) with (Z.to_nat (vlen l1 - 1)) by (unfold vlen; lia). by rewrite E.
Qed.
End SortedThm.

(** C39: the two maps of packet numbers are interchangeable: over any sequence of
    operations with packet numbers inserted in order, the sorted deque gives the
    answers the ring buffer gives, neither panics, and both answers are those of
    a finite map. *)
Theorem packet_maps_agree {V} (capacity : Z -> Z) (space : PacketNumberSpace) (os : list (@op V)) :
  (forall n, 0 < n < 2 ^ 63 -> n <= capacity n < 2 ^ 63) -> all_in_order ∅ os ->
  exec_all (T := SortedVecMap) space SortedVecMap.default os = Ret (spec_all space ∅ os)
  /\ exec_all (T := SortedVecMap) space SortedVecMap.default os
    = exec_all (H := map_interface capacity) space (PacketMap.default capacity) os.
Proof.
  intros Hc Hos. assert (E : exec_all (T := SortedVecMap) space SortedVecMap.default os = Ret (spec_all space ∅ os)).
  { apply (exec_all_ok space (rep space)); [apply rep_empty | done]. }
  split; [done |]. pose proof (map_laws (V := V) capacity space Hc). rewrite E. symmetry.
  apply (exec_all_ok space (map_ok space)); [by apply default_ok | done].
Qed.

Lemma packet_maps_agree_witness :
  exec_all (T := SortedVecMap) Handshake SortedVecMap.default
    [Insert 5 50; Insert 7 70; Insert 20 200; Remove 5; Get 7; InsertOrUpdate 9 90 Z.succ; RemoveRange 8 20; IsEmpty]
  = exec_all (H := map_interface id) Handshake (PacketMap.default id)
    [Insert 5 50; Insert 7 70; Insert 20 200; Remove 5; Get 7; InsertOrUpdate 9 90 Z.succ; RemoveRange 8 20; IsEmpty].
Proof.
  apply (packet_maps_agree id Handshake); [unfold id; lia |].
  cbn [all_in_order in_order]. unfold varint_ok, MAX_VARINT_VALUE.
  repeat match goal with |- _ /\ _ => split end; try exact I; apply (bool_decide_unpack _); vm_compute; exact I.
Defined.
