(* ===== verification/Interval.v ===== *)
(** * Intervals

    [interval_set/interval.rs]: the trait [IntervalBound] as a class of
    operations, the laws its implementations satisfy as a second class, the
    three implementations the stack uses (unsigned integers, [VarInt] and
    [PacketNumber]) with those laws proved, and [Interval] with its
    constructors, comparisons and double-ended iterator. *)
From S2P Require Import Prelude VarInt PacketNumber.

Inductive IntervalSetError := LimitExceeded | InvalidInterval.

(** [core::ops::Bound]. *)
Inductive Bound (T : Type) := Included (x : T) | Excluded (x : T) | Unbounded.
Arguments Included {T} x.
Arguments Excluded {T} x.
Arguments Unbounded {T}.

Record Interval (T : Type) := mk_iv { istart : T; iend : T }.
Arguments mk_iv {T} istart iend.
Arguments istart {T} i.
Arguments iend {T} i.

(** ** The trait *)

(** [trait IntervalBound: Copy + Ord]; [cmp] is the [Ord] supertrait. *)
Class IntervalBound (T : Type) := {
  cmp : T -> T -> comparison;
  step_up : T -> option T;
  step_down : T -> option T;
  steps_between : T -> T -> outcome Z;
  steps_between_len : T -> Z -> outcome T
}.

Definition lt_b {T} `{IntervalBound T} (a b : T) : bool :=
  match cmp a b with Lt => true | _ => false end.
Definition le_b {T} `{IntervalBound T} (a b : T) : bool :=
  match cmp a b with Gt => false | _ => true end.

Definition step_up_saturating {T} `{IntervalBound T} (self : T) : T := default self (step_up self).
Definition step_down_saturating {T} `{IntervalBound T} (self : T) : T :=
  default self (step_down self).

Definition USIZE_MAX : Z := umax 64.

(** ** [Interval] *)
Module Interval.
Section Ops.
Context {T : Type} `{IntervalBound T}.

Definition start_inclusive (self : Interval T) : T := istart self.
Definition start_exclusive (self : Interval T) : T := step_down_saturating (istart self).
Definition end_inclusive (self : Interval T) : T := iend self.
Definition end_exclusive (self : Interval T) : T := step_up_saturating (iend self).

Definition is_valid (self : Interval T) : bool := le_b (istart self) (iend self).

Definition from_range_bounds (start_bound end_bound : Bound T)
    : result (Interval T) IntervalSetError :=
  let? start := match start_bound with
                | Included start => Ok start
                | Excluded start =>
                    match step_down start with Some s => Ok s | None => Err InvalidInterval end
                | Unbounded => Err InvalidInterval
                end in
  let? end_ := match end_bound with
               | Included end_ => Ok end_
               | Excluded end_ =>
                   match step_down end_ with Some e => Ok e | None => Err InvalidInterval end
               | Unbounded => Err InvalidInterval
               end in
  let interval := mk_iv start end_ in
  if is_valid interval then Ok interval else Err InvalidInterval.

Definition len (self : Interval T) : outcome Z :=
  let! steps := steps_between (istart self) (iend self) in
  add_c 64 1 steps.

Definition set_len (self : Interval T) (len : Z) : outcome (Interval T) :=
  let! _ := rassert (negb (len =? 0)) in
  let! end_ := steps_between_len (istart self) len in
  Ret (mk_iv (istart self) end_).

Definition should_coalesce (self other : Interval T) : bool :=
  le_b (istart self) (end_exclusive other).

(** [PartialOrd<T> for Interval<T>]: where the interval lies relative to a
    value. *)
Definition partial_cmp (self : Interval T) (value : T) : comparison :=
  match cmp (istart self) value, cmp (iend self) value with
  | Eq, _ => Eq
  | _, Eq => Eq
  | Gt, Lt => Eq
  | Lt, Gt => Eq
  | Lt, Lt => Lt
  | Gt, Gt => Gt
  end.

(** [From<Range<T>>]. *)
Definition from_range (start end_ : T) : Interval T := mk_iv start (step_down_saturating end_).
(** [From<Interval<T>> for Range<T>]. *)
Definition into_range (self : Interval T) : T * T := (istart self, end_exclusive self).

(** [Iterator::next]: the item, if any, and the interval left. *)
Definition next (self : Interval T) : option T * Interval T :=
  let current := istart self in
  if lt_b (iend self) current then (None, self) else
  match step_up current with
  | Some next => (Some current, mk_iv next (iend self))
  | None =>
      match step_down current with
      | Some e => (Some current, mk_iv (istart self) e)
      | None => (None, self)
      end
  end.

(** [DoubleEndedIterator::next_back]. *)
Definition next_back (self : Interval T) : option T * Interval T :=
  let current := iend self in
  if lt_b current (istart self) then (None, self) else
  match step_down current with
  | Some next => (Some current, mk_iv (istart self) next)
  | None =>
      match step_up current with
      | Some s => (Some current, mk_iv s (iend self))
      | None => (None, self)
      end
  end.

(** [self.collect()]: the first [fuel] items and the interval left. *)
Fixpoint items (fuel : nat) (self : Interval T) : list T :=
  match fuel with
  | O => []
  | S fuel =>
      match next self with
      | (Some x, self) => x :: items fuel self
      | (None, _) => []
      end
  end.

(** [self.rev().collect()]. *)
Fixpoint items_back (fuel : nat) (self : Interval T) : list T :=
  match fuel with
  | O => []
  | S fuel =>
      match next_back self with
      | (Some x, self) => x :: items_back fuel self
      | (None, _) => []
      end
  end.

End Ops.
End Interval.

(** ** Implementations of the trait *)

(** [integer_bounds!] at an unsigned width: [steps_between] saturates at
    [usize::MAX], [steps_between_len] panics on overflow. *)
Definition uint_bound (w : Z) : IntervalBound Z := {|
  cmp := Z.compare;
  step_up := fun self => checked_add w self 1;
  step_down := fun self => checked_sub self 1;
  steps_between := fun self upper =>
    let! d := sub_c upper self in Ret (if d <=? USIZE_MAX then d else USIZE_MAX);
  steps_between_len := fun self len =>
    let! l := sub_c len 1 in
    if l <=? umax w then add_c w self l else Panic
|}.

Definition varint_bound : IntervalBound Z := {|
  cmp := Z.compare;
  step_up := fun self => VarInt.checked_add self 1;
  step_down := fun self => VarInt.checked_sub self 1;
  steps_between := steps_between (IntervalBound := uint_bound 64);
  steps_between_len := fun self len =>
    let! l := sub_c len 1 in VarInt.add_usize self l
|}.

(** The result of a call that does not panic: the packet number operations
    assert that both numbers belong to the same space, which is the domain the
    laws below are proved on. *)
Definition no_panic {A} (d : A) (m : outcome A) : A :=
  match m with Ret x => x | Panic => d end.

Definition packet_number_step_down (self : Z) : outcome (option Z) :=
  let! space := PacketNumber.space self in
  let value := PacketNumber.as_varint self in
  Ret (match step_down (IntervalBound := varint_bound) value with
       | Some v => Some (PacketNumber.from_varint v space)
       | None => None
       end).

Definition packet_number_bound : IntervalBound Z := {|
  cmp := fun a b => no_panic Eq (PacketNumber.cmp a b);
  step_up := fun self => no_panic None (PacketNumber.next self);
  step_down := fun self => no_panic None (packet_number_step_down self);
  steps_between := fun self upper =>
    let lower := PacketNumber.as_varint self in
    let upper := PacketNumber.as_varint upper in
    steps_between (IntervalBound := varint_bound) lower upper;
  steps_between_len := fun self len =>
    let start := PacketNumber.as_varint self in
    let! end_ := steps_between_len (IntervalBound := varint_bound) start len in
    let! space := PacketNumber.space self in
    Ret (PacketNumber.from_varint end_ space)
|}.

(** ** What the trait promises

    On its domain [dom] an implementation is a finite chain of values: [val]
    embeds it in [lo..hi], [cmp] is the order of the integers, and the steps
    move by one and stop at the ends. *)
Class IntervalBoundSpec {T} (B : IntervalBound T) (dom : T -> Prop) (val : T -> Z) (lo hi : Z)
    : Prop := {
  val_range : forall a, dom a -> lo <= val a <= hi;
  val_inj : forall a b, dom a -> dom b -> val a = val b -> a = b;
  cmp_val : forall a b, dom a -> dom b -> cmp a b = (val a ?= val b);
  step_up_lt : forall a, dom a -> val a < hi ->
    exists b, step_up a = Some b /\ dom b /\ val b = val a + 1;
  step_up_hi : forall a, dom a -> val a = hi -> step_up a = None;
  step_down_lt : forall a, dom a -> lo < val a ->
    exists b, step_down a = Some b /\ dom b /\ val b = val a - 1;
  step_down_lo : forall a, dom a -> val a = lo -> step_down a = None;
  steps_between_val : forall a b, dom a -> dom b -> val a <= val b ->
    steps_between a b = Ret (Z.min (val b - val a) USIZE_MAX);
  steps_between_len_val : forall a n, dom a -> 1 <= n -> val a + (n - 1) <= hi ->
    exists b, steps_between_len a n = Ret b /\ dom b /\ val b = val a + (n - 1)
}.

Definition pn_in (s : PacketNumberSpace) (pn : Z) : Prop :=
  exists v, varint_ok v /\ pn = PacketNumber.from_varint v s.

Lemma uint_bound_spec w : 0 < w -> IntervalBoundSpec (uint_bound w) (uint w) id 0 (umax w).
Proof.
  intros Hw. split; unfold uint, umax, id; simpl; unfold checked_add, checked_sub, sub_c, umax.
  - lia.
  - done.
  - done.
  - intros a Ha Hlt. exists (a + 1). zcases. split; [done | lia].
  - intros a Ha ->. zcases. done.
  - intros a Ha Hlt. exists (a - 1). zcases. split; [done | lia].
  - intros a Ha ->. done.
  - intros a b Ha Hb Hab. zcases. simpl. zcases; f_equal; lia.
  - intros a n Ha Hn Hhi. zcases. simpl. unfold add_c, umax. zcases.
    exists (a + (n - 1)). split; [done | lia].
Qed.

Lemma varint_bound_spec : IntervalBoundSpec varint_bound varint_ok id 0 VarInt.MAX.
Proof.
  unfold varint_ok, VarInt.MAX, MAX_VARINT_VALUE.
  split; unfold id; simpl; unfold VarInt.checked_add, VarInt.checked_sub, checked_add, checked_sub,
    VarInt.new, MAX_VARINT_VALUE.
  - lia.
  - done.
  - done.
  - intros a Ha Hlt. exists (a + 1). zcases. simpl. zcases. split; [done | lia].
  - intros a Ha ->. done.
  - intros a Ha Hlt. exists (a - 1). zcases. split; [done | lia].
  - intros a Ha ->. done.
  - intros a b Ha Hb Hab. unfold sub_c. zcases. simpl. zcases; f_equal; lia.
  - intros a n Ha Hn Hhi. unfold sub_c. zcases. simpl. exists (a + (n - 1)).
    unfold VarInt.add_usize, VarInt.new, MAX_VARINT_VALUE. zcases. cbn [VarInt.ok unwrap obind].
    change (unwrap (VarInt.checked_add a (n - 1))) with (VarInt.add a (n - 1)).
    rewrite varint_add_Ret by (unfold MAX_VARINT_VALUE; lia). split; [done | lia].
Qed.

Lemma packet_number_bound_spec s :
  IntervalBoundSpec packet_number_bound (pn_in s) PacketNumber.as_u64 0 VarInt.MAX.
Proof.
  pose proof varint_bound_spec as V.
  split; cbn [cmp step_up step_down steps_between steps_between_len packet_number_bound];
    unfold pn_in.
  - intros a (v & Hv & ->). rewrite pn_as_u64_from_varint by done. exact (@val_range _ _ _ _ _ _ V v Hv).
  - intros a b (v & Hv & ->) (u & Hu & ->). rewrite !pn_as_u64_from_varint by done. by intros ->.
  - intros a b (v & Hv & ->) (u & Hu & ->). rewrite pn_cmp_from_varint by done.
    by rewrite !pn_as_u64_from_varint.
  - intros a (v & Hv & ->). rewrite pn_as_u64_from_varint by done. unfold VarInt.MAX. intros Hlt.
    rewrite pn_next_from_varint by done. zcases.
    exists (PacketNumber.from_varint (v + 1) s).
    assert (varint_ok (v + 1)) by (unfold varint_ok in *; lia).
    rewrite pn_as_u64_from_varint by done. eauto.
  - intros a (v & Hv & ->). rewrite pn_as_u64_from_varint by done. unfold VarInt.MAX. intros Heq.
    rewrite pn_next_from_varint by done. zcases. done.
  - intros a (v & Hv & ->). rewrite pn_as_u64_from_varint by done. intros Hlt.
    destruct (@step_down_lt _ _ _ _ _ _ V v Hv Hlt) as (b & Hb & Hok & Hval).
    exists (PacketNumber.from_varint b s). unfold packet_number_step_down.
    rewrite pn_space_from_varint, pn_as_varint_from_varint by done. cbn [obind no_panic].
    rewrite Hb. rewrite pn_as_u64_from_varint by done. eauto.
  - intros a (v & Hv & ->). rewrite pn_as_u64_from_varint by done. intros Heq.
    unfold packet_number_step_down.
    rewrite pn_space_from_varint, pn_as_varint_from_varint by done. cbn [obind no_panic].
    by rewrite (@step_down_lo _ _ _ _ _ _ V v Hv Heq).
  - intros a b (v & Hv & ->) (u & Hu & ->). rewrite !pn_as_u64_from_varint by done. intros.
    by apply (@steps_between_val _ _ _ _ _ _ V v u).
  - intros a n (v & Hv & ->). rewrite !pn_as_u64_from_varint by done. intros Hn Hhi.
    destruct (@steps_between_len_val _ _ _ _ _ _ V v n Hv Hn Hhi) as (b & Hb & Hok & Hval).
    rewrite Hb. cbn [obind]. rewrite pn_space_from_varint by done. cbn [obind].
    exists (PacketNumber.from_varint b s). rewrite pn_as_u64_from_varint by done. eauto.
Qed.

(** ** Consequences of the laws *)
Section Laws.
Context {T : Type} {B : IntervalBound T} {dom : T -> Prop} {val : T -> Z} {lo hi : Z}.
Context `{!IntervalBoundSpec B dom val lo hi}.

(** A non-empty interval of the domain. *)
Definition iv_ok (i : Interval T) : Prop :=
  dom (istart i) /\ dom (iend i) /\ val (istart i) <= val (iend i).

(** The values an interval covers. *)
Definition in_iv (i : Interval T) (x : Z) : Prop := val (istart i) <= x <= val (iend i).

Lemma iv_bounds i : iv_ok i -> lo <= val (istart i) /\ val (istart i) <= val (iend i)
  /\ val (iend i) <= hi.
Proof.
  intros (Hs & He & ?). pose proof (val_range _ Hs). pose proof (val_range _ He). lia.
Qed.

Lemma le_b_val a b : dom a -> dom b -> le_b a b = (val a <=? val b).
Proof. intros. unfold le_b. rewrite cmp_val by done. unfold Z.leb. by destruct (_ ?= _). Qed.

Lemma lt_b_val a b : dom a -> dom b -> lt_b a b = (val a <? val b).
Proof. intros. unfold lt_b. rewrite cmp_val by done. unfold Z.ltb. by destruct (_ ?= _). Qed.

Lemma step_up_saturating_val a :
  dom a -> dom (step_up_saturating a) /\ val (step_up_saturating a) = Z.min (val a + 1) hi.
Proof.
  intros Ha. pose proof (val_range _ Ha). unfold step_up_saturating.
  destruct (Z.eq_dec (val a) hi) as [E | E].
  - rewrite step_up_hi by done. simpl. split; [done | lia].
  - destruct (step_up_lt a) as (b & -> & Hb & Hv); [done | lia |]. simpl. split; [done | lia].
Qed.

Lemma step_down_saturating_val a :
  dom a -> dom (step_down_saturating a) /\ val (step_down_saturating a) = Z.max (val a - 1) lo.
Proof.
  intros Ha. pose proof (val_range _ Ha). unfold step_down_saturating.
  destruct (Z.eq_dec (val a) lo) as [E | E].
  - rewrite step_down_lo by done. simpl. split; [done | lia].
  - destruct (step_down_lt a) as (b & -> & Hb & Hv); [done | lia |]. simpl. split; [done | lia].
Qed.

Lemma end_exclusive_val i :
  iv_ok i -> dom (Interval.end_exclusive i)
             /\ val (Interval.end_exclusive i) = Z.min (val (iend i) + 1) hi.
Proof. intros (_ & He & _). by apply step_up_saturating_val. Qed.

Lemma start_exclusive_val i :
  iv_ok i -> dom (Interval.start_exclusive i)
             /\ val (Interval.start_exclusive i) = Z.max (val (istart i) - 1) lo.
Proof. intros (Hs & _ & _). by apply step_down_saturating_val. Qed.

Lemma is_valid_ok i :
  dom (istart i) -> dom (iend i) -> Interval.is_valid i = true <-> iv_ok i.
Proof.
  intros. unfold Interval.is_valid, iv_ok. rewrite le_b_val by done. rewrite Z.leb_le. tauto.
Qed.

Lemma should_coalesce_val a b :
  iv_ok a -> iv_ok b ->
  Interval.should_coalesce a b = (val (istart a) <=? Z.min (val (iend b) + 1) hi).
Proof.
  intros (Hs & _ & _) Hb. destruct (end_exclusive_val b Hb) as [Hd Hv].
  unfold Interval.should_coalesce. by rewrite le_b_val, Hv.
Qed.

Lemma partial_cmp_val i v :
  iv_ok i -> dom v ->
  Interval.partial_cmp i v
  = if val (iend i) <? val v then Lt else if val v <? val (istart i) then Gt else Eq.
Proof.
  intros (Hs & He & Hle) Hv. unfold Interval.partial_cmp. rewrite !cmp_val by done.
  destruct (Z.compare_spec (val (istart i)) (val v)), (Z.compare_spec (val (iend i)) (val v));
    zcases; done.
Qed.

Lemma from_range_bounds_closed a b :
  dom a -> dom b ->
  Interval.from_range_bounds (Included a) (Included b)
  = if val a <=? val b then Ok (mk_iv a b) else Err InvalidInterval.
Proof.
  intros. unfold Interval.from_range_bounds, Interval.is_valid. simpl. by rewrite le_b_val.
Qed.

Lemma next_val i :
  lo < hi -> iv_ok i ->
  exists i', Interval.next i = (Some (istart i), i') /\ dom (istart i') /\ dom (iend i')
    /\ val (iend i') - val (istart i') = val (iend i) - val (istart i) - 1
    /\ (val (istart i) < val (iend i) -> val (istart i') = val (istart i) + 1).
Proof.
  intros Hlh Hi. pose proof (iv_bounds i Hi). destruct Hi as (Hs & He & Hle).
  unfold Interval.next. rewrite lt_b_val by done. zcases.
  destruct (Z.eq_dec (val (istart i)) hi) as [E | E].
  - rewrite step_up_hi by done. destruct (step_down_lt (istart i)) as (b & -> & Hb & Hv); [done | lia |].
    eexists; split; [done |]. simpl. split_and!; [done | done | lia | lia].
  - destruct (step_up_lt (istart i)) as (b & -> & Hb & Hv); [done | lia |].
    eexists; split; [done |]. simpl. split_and!; [done | done | lia | lia].
Qed.

Lemma next_back_val i :
  lo < hi -> iv_ok i ->
  exists i', Interval.next_back i = (Some (iend i), i') /\ dom (istart i') /\ dom (iend i')
    /\ val (iend i') - val (istart i') = val (iend i) - val (istart i) - 1
    /\ (val (istart i) < val (iend i) -> val (iend i') = val (iend i) - 1).
Proof.
  intros Hlh Hi. pose proof (iv_bounds i Hi). destruct Hi as (Hs & He & Hle).
  unfold Interval.next_back. rewrite lt_b_val by done. zcases.
  destruct (Z.eq_dec (val (iend i)) lo) as [E | E].
  - rewrite step_down_lo by done. destruct (step_up_lt (iend i)) as (b & -> & Hb & Hv); [done | lia |].
    eexists; split; [done |]. simpl. split_and!; [done | done | lia | lia].
  - destruct (step_down_lt (iend i)) as (b & -> & Hb & Hv); [done | lia |].
    eexists; split; [done |]. simpl. split_and!; [done | done | lia | lia].
Qed.

Lemma next_empty i :
  dom (istart i) -> dom (iend i) -> val (iend i) < val (istart i) ->
  Interval.next i = (None, i) /\ Interval.next_back i = (None, i).
Proof.
  intros. unfold Interval.next, Interval.next_back. rewrite !lt_b_val by done. by zcases.
Qed.

End Laws.

Arguments iv_ok {T} dom val i.
Arguments in_iv {T} val i x.

(** ** Correctness of the iterator and the constructors *)
Section Correct.
Context {T : Type} {B : IntervalBound T} (dom : T -> Prop) (val : T -> Z) (lo hi : Z).
Context `{HB : !IntervalBoundSpec B dom val lo hi}.

Lemma items_empty fuel i :
  dom (istart i) -> dom (iend i) -> val (iend i) < val (istart i) ->
  Interval.items fuel i = [] /\ Interval.items_back fuel i = [].
Proof.
  intros. destruct fuel; [done |]. simpl. by destruct (next_empty i) as [-> ->].
Qed.

Lemma items_spec n fuel i :
  lo < hi -> iv_ok dom val i -> val (iend i) - val (istart i) = Z.of_nat n -> (n < fuel)%nat ->
  val <$> Interval.items fuel i = seqZ (val (istart i)) (Z.of_nat (S n)).
Proof.
  intros Hlh. revert fuel i. induction n as [| n IH]; intros [| fuel] i Hi Hn Hf; try lia;
    destruct (next_val i Hlh Hi) as (i' & Hnx & Hs & He & Hd & Hup);
    cbn [Interval.items]; rewrite Hnx, fmap_cons, seqZ_cons by lia; f_equal.
  - destruct (items_empty fuel i') as [-> _]; [done | done | lia | done].
  - replace (Z.succ (val (istart i))) with (val (istart i')) by lia.
    replace (Z.pred (Z.of_nat (S (S n)))) with (Z.of_nat (S n)) by lia.
    apply IH; [| lia | lia]. repeat split; [done | done | lia].
Qed.

Lemma items_back_spec n fuel i :
  lo < hi -> iv_ok dom val i -> val (iend i) - val (istart i) = Z.of_nat n -> (n < fuel)%nat ->
  val <$> Interval.items_back fuel i = rev (seqZ (val (istart i)) (Z.of_nat (S n))).
Proof.
  intros Hlh. revert fuel i. induction n as [| n IH]; intros [| fuel] i Hi Hn Hf; try lia;
    destruct (next_back_val i Hlh Hi) as (i' & Hnx & Hs & He & Hd & Hup);
    cbn [Interval.items_back]; rewrite Hnx, fmap_cons.
  - destruct (items_empty fuel i') as [_ ->]; [done | done | lia |]. simpl. f_equal. lia.
  - replace (Z.of_nat (S (S n))) with (Z.of_nat (S n) + 1) by lia.
    rewrite seqZ_app by lia. rewrite rev_app_distr. cbn [seqZ]. simpl rev at 1. simpl app.
    f_equal; [lia |]. replace (val (istart i)) with (val (istart i')) by lia.
    apply IH; [| lia | lia]. repeat split; [done | done | lia].
Qed.

(** Every item lies in the interval. *)
Lemma items_in fuel i :
  lo < hi -> iv_ok dom val i ->
  Forall (fun v => dom v /\ in_iv val i (val v)) (Interval.items fuel i)
  /\ Forall (fun v => dom v /\ in_iv val i (val v)) (Interval.items_back fuel i).
Proof.
  intros Hlh. revert i. induction fuel as [| fuel IH]; intros i Hi; [done |].
  pose proof Hi as (Hs & He & Hle). cbn [Interval.items Interval.items_back].
  destruct (next_val i Hlh Hi) as (j & -> & Hjs & Hje & Hj & Hup).
  destruct (next_back_val i Hlh Hi) as (k & -> & Hks & Hke & Hk & Hdn).
  assert (Hmono : forall P Q : T -> Prop, (forall v, P v -> Q v) -> forall l, Forall P l -> Forall Q l)
    by (intros; by eapply Forall_impl).
  split; constructor; try (unfold in_iv; split; [done | lia]).
  - destruct (Z.le_gt_cases (val (istart j)) (val (iend j))) as [Hn | Hn].
    + destruct (IH j) as [Hj' _]; [done |]. revert Hj'. apply Hmono. unfold in_iv.
      intros v [? ?]. split; [done | lia].
    + by destruct (items_empty fuel j) as [-> _].
  - destruct (Z.le_gt_cases (val (istart k)) (val (iend k))) as [Hn | Hn].
    + destruct (IH k) as [_ Hk']; [done |]. revert Hk'. apply Hmono. unfold in_iv.
      intros v [? ?]. split; [done | lia].
    + by destruct (items_empty fuel k) as [_ ->].
Qed.

(** For every implementation of [IntervalBound] that meets the laws,
    iterating a valid interval forwards yields exactly the values between its
    bounds in ascending order and then stops, iterating it backwards yields
    them in descending order (also at the ends of the type's range, where a
    step is impossible), and [len] is their number. *)
Theorem interval_iteration i fuel :
  lo < hi -> iv_ok dom val i ->
  val (iend i) - val (istart i) < Z.of_nat fuel ->
  let n := val (iend i) - val (istart i) + 1 in
  val <$> Interval.items fuel i = seqZ (val (istart i)) n
  /\ val <$> Interval.items_back fuel i = rev (seqZ (val (istart i)) n)
  /\ (n <= USIZE_MAX -> Interval.len i = Ret n).
Proof.
  intros Hlh Hi Hf n. pose proof (iv_bounds i Hi).
  pose proof (items_spec (Z.to_nat (n - 1)) fuel i) as Hfw.
  pose proof (items_back_spec (Z.to_nat (n - 1)) fuel i) as Hbw.
  replace (Z.of_nat (S (Z.to_nat (n - 1)))) with n in * by lia.
  split_and!; [apply Hfw; [done.. | lia | lia] | apply Hbw; [done.. | lia | lia] |].
  intros Hn. destruct Hi as (Hs & He & Hle). unfold Interval.len.
  rewrite steps_between_val by done. cbn [obind]. unfold USIZE_MAX, add_c, umax in *.
  zcases. f_equal. lia.
Qed.
End Correct.
