(* ===== verification/IntervalInsert.v ===== *)
(** * Inserting an interval into a sorted list of intervals

    [interval_set/insert.rs].  [Insertion.scan] walks the intervals from a
    start index, growing the inserted range and recording which slots it
    replaces; [Insertion.apply] edits the vector.  The pair is proved equal to
    a one-pass reference insertion, which is then proved to compute the union
    and to keep the list sorted with gaps. *)
From S2P Require Import Prelude Interval.

(** ** Definitions *)
Module Insertion.
Section Ops.
Context {T : Type} `{IntervalBound T}.

(** [Insertion::replace_range]. *)
Definition replace_range : Type := Z * Z.

Definition set_start (r : replace_range) (start : Z) : replace_range := (Z.min r.1 start, r.2).
Definition set_end (r : replace_range) (end_ : Z) : replace_range := (r.1, Z.max r.2 end_).

(** How the loop of [scan] ends: [Some(index)] is returned when the interval
    is already present, otherwise the state and the grown interval are left
    for [apply]. *)
Inductive scanned :=
| Present (index : Z)
| Absent (r : replace_range) (range_a : Interval T).

Fixpoint scan (slot_index : Z) (ranges : list (Interval T)) (r : replace_range)
    (range_a : Interval T) : scanned :=
  match ranges with
  | [] => Absent r range_a
  | range_b :: ranges =>
      match cmp (istart range_a) (istart range_b), cmp (iend range_a) (iend range_b) with
      | Eq, Eq | Gt, Eq => Present (slot_index + 1)
      | Eq, Lt | Gt, Lt => Present slot_index
      | Gt, Gt =>
          if Interval.should_coalesce range_a range_b then
            scan (slot_index + 1) ranges (set_end (set_start r slot_index) (slot_index + 1))
                 (mk_iv (istart range_b) (iend range_a))
          else scan (slot_index + 1) ranges r range_a
      | Eq, Gt | Lt, Gt =>
          scan (slot_index + 1) ranges (set_end (set_start r slot_index) (slot_index + 1)) range_a
      | Lt, Eq => Absent (set_end (set_start r slot_index) (slot_index + 1)) range_a
      | Lt, Lt =>
          if Interval.should_coalesce range_b range_a then
            Absent (set_end (set_start r slot_index) (slot_index + 1))
                   (mk_iv (istart range_a) (iend range_b))
          else Absent (set_end (set_start r slot_index) slot_index) range_a
      end
  end.

Definition ensure_can_insert (limit : option Z) (prev_len : Z) : result unit IntervalSetError :=
  let under_limit := match limit with Some limit => prev_len <? limit | None => true end in
  if under_limit then Ok tt else Err LimitExceeded.

Definition apply (r : replace_range) (ranges : list (Interval T)) (range : Interval T)
    (limit : option Z) : outcome (result Z IntervalSetError * list (Interval T)) :=
  let prev_len := vlen ranges in
  let index := r.1 in
  match checked_sub r.2 index with
  | None =>
      match ensure_can_insert limit prev_len with
      | Err e => Ret (Err e, ranges)
      | Ok _ => Ret (Ok prev_len, ranges ++ [range])
      end
  | Some replace_count =>
      if replace_count =? 0 then
        match ensure_can_insert limit prev_len with
        | Err e => Ret (Err e, ranges)
        | Ok _ => let! ranges := vinsert ranges index range in Ret (Ok index, ranges)
        end
      else if replace_count =? 1 then
        let! ranges := vset ranges index range in Ret (Ok index, ranges)
      else if replace_count =? 2 then
        let! ranges := vset ranges index range in Ret (Ok index, vremove ranges (index + 1))
      else
        let! ranges := vset ranges index range in
        let! ranges := vdrain ranges (index + 1) r.2 in
        Ret (Ok index, ranges)
  end.

End Ops.
End Insertion.
Arguments Insertion.scanned T : clear implicits.

(** [insert]: the index and the modified flag, or an error, with the vector
    left behind. *)
Definition insert {T} `{IntervalBound T} (ranges : list (Interval T)) (range : Interval T)
    (start_index : Z) (limit : option Z)
    : outcome (result (Z * bool) IntervalSetError * list (Interval T)) :=
  match Insertion.scan start_index (drop (Z.to_nat start_index) ranges) (USIZE_MAX, 0) range with
  | Insertion.Present index => Ret (Ok (index, false), ranges)
  | Insertion.Absent r range =>
      let! '(res, ranges) := Insertion.apply r ranges range limit in
      Ret (match res with Ok index => Ok (index, true) | Err e => Err e end, ranges)
  end.

(** ** Sorted lists of intervals *)
Section Sorted.
Context {T : Type} (dom : T -> Prop) (val : T -> Z).

(** Every interval starts at [lb] or later, and each next one leaves a gap. *)
Fixpoint sorted_from (lb : Z) (l : list (Interval T)) : Prop :=
  match l with
  | [] => True
  | i :: l => iv_ok dom val i /\ lb <= val (istart i) /\ sorted_from (val (iend i) + 2) l
  end.

(** The invariant of an [IntervalSet]: valid intervals in ascending order, no
    two of them touching. *)
Definition sorted (l : list (Interval T)) : Prop :=
  match l with
  | [] => True
  | i :: _ => sorted_from (val (istart i)) l
  end.

(** The values of the set. *)
Definition mem (l : list (Interval T)) (x : Z) : Prop := Exists (fun i => in_iv val i x) l.

(** The reference insertion. *)
Definition merge (a b : Interval T) : Interval T :=
  mk_iv (if val (istart b) <? val (istart a) then istart b else istart a)
        (if val (iend a) <? val (iend b) then iend b else iend a).

Fixpoint ref_insert (a : Interval T) (l : list (Interval T)) : list (Interval T) :=
  match l with
  | [] => [a]
  | b :: l' =>
      if val (iend b) + 1 <? val (istart a) then b :: ref_insert a l'
      else if val (iend a) + 1 <? val (istart b) then a :: l
      else ref_insert (merge a b) l'
  end.
End Sorted.

(** ** The reference insertion computes the union *)
Section Reference.
Context {T : Type} {B : IntervalBound T} {dom : T -> Prop} {val : T -> Z} {lo hi : Z}.
Context `{HB : !IntervalBoundSpec B dom val lo hi}.

Abbreviation ok := (iv_ok dom val).
Abbreviation srt := (sorted_from dom val).
Abbreviation ref := (ref_insert val).

Lemma sorted_from_cons lb i l :
  ok i -> lb <= val (istart i) -> srt (val (iend i) + 2) l -> srt lb (i :: l).
Proof. by intros. Qed.

Lemma sorted_from_weaken lb lb' l : srt lb l -> lb' <= lb -> srt lb' l.
Proof. destruct l; simpl; [done |]. intros (? & ? & ?) ?. split_and!; [done | lia | done]. Qed.

Lemma sorted_sorted_from l : sorted dom val l <-> exists lb, srt lb l.
Proof.
  destruct l as [| i l]; simpl; [by split; [exists 0 |] |].
  split; [intros (? & ? & ?); eauto | intros (lb & ? & ? & ?)]. split_and!; [done | lia | done].
Qed.

Lemma sorted_from_app lb l k :
  srt lb (l ++ k) <-> srt lb l /\ srt (match last l with Some i => val (iend i) + 2 | None => lb end) k.
Proof.
  revert lb. induction l as [| i l IH]; intros lb; simpl; [tauto |].
  rewrite IH. destruct l as [| j l]; cbn [last].
  - split; [intros (?&?&?&?) | intros ((?&?&?)&?)]; split_and!; done.
  - destruct (proj2 (last_is_Some (j :: l))) as [z ->]; [done |].
    split; [intros (?&?&?&?) | intros ((?&?&?)&?)]; split_and!; done.
Qed.

Lemma sorted_from_Forall lb l : srt lb l -> Forall ok l.
Proof.
  revert lb. induction l as [| i l IH]; intros lb; simpl; [by constructor |].
  intros (? & ? & ?). constructor; eauto.
Qed.

Lemma merge_ok a b : ok a -> ok b -> ok (merge val a b).
Proof.
  intros (? & ? & ?) (? & ? & ?). unfold merge, iv_ok. simpl. zcases; split_and!; try done; lia.
Qed.

Lemma merge_start a b : val (istart (merge val a b)) = Z.min (val (istart a)) (val (istart b)).
Proof. unfold merge. simpl. zcases; lia. Qed.
Lemma merge_end a b : val (iend (merge val a b)) = Z.max (val (iend a)) (val (iend b)).
Proof. unfold merge. simpl. zcases; lia. Qed.

Lemma ref_insert_sorted lb a l :
  srt lb l -> ok a -> lb <= val (istart a) -> srt lb (ref a l).
Proof.
  revert lb a. induction l as [| b l IH]; intros lb a; simpl; [tauto |].
  intros (Hb & Hlb & Hl) Ha Hlba. zcases; simpl.
  - split_and!; [done | lia |]. apply IH; [done | done | lia].
  - split_and!; [done | lia | done | lia | done].
  - apply IH; [| by apply merge_ok | rewrite merge_start; lia].
    apply sorted_from_weaken with (1 := Hl). destruct Hb as (_ & _ & ?). lia.
Qed.

Lemma mem_cons i l x : mem val (i :: l) x <-> in_iv val i x \/ mem val l x.
Proof. apply Exists_cons. Qed.
Lemma mem_app l k x : mem val (l ++ k) x <-> mem val l x \/ mem val k x.
Proof. apply Exists_app. Qed.
Lemma mem_nil x : mem val ([] : list (Interval T)) x <-> False.
Proof. apply Exists_nil. Qed.

Lemma ref_insert_mem a l x :
  ok a -> Forall ok l -> mem val (ref a l) x <-> in_iv val a x \/ mem val l x.
Proof.
  intros Ha Hl. revert a Ha. induction Hl as [| b l Hb Hl IH]; intros a Ha; simpl.
  - by rewrite mem_cons, !mem_nil.
  - zcases; rewrite ?mem_cons.
    + rewrite IH by done. tauto.
    + done.
    + rewrite IH by (by apply merge_ok). unfold in_iv. rewrite merge_start, merge_end.
      destruct Ha as (_ & _ & ?), Hb as (_ & _ & ?).
      split; [intros [?|?] | intros [?|[?|?]]]; (by right; right) || (by right) || lia.
Qed.

Lemma ref_insert_past a p l :
  Forall (fun b => val (iend b) + 1 < val (istart a)) p -> ref a (p ++ l) = p ++ ref a l.
Proof. induction 1; simpl; [done |]. zcases. by f_equal. Qed.

Lemma ref_insert_hd b l : srt (val (iend b) + 2) l -> ok b -> ref b l = b :: l.
Proof.
  destruct l as [| c l]; simpl; [done |]. intros (Hc & ? & _) (_ & _ & ?).
  destruct Hc as (_ & _ & ?). zcases. done.
Qed.

Lemma merge_absorbed a b :
  ok a -> ok b -> val (istart b) <= val (istart a) -> val (iend a) <= val (iend b) ->
  merge val a b = b.
Proof.
  intros (? & ? & ?) (? & ? & ?) ? ?. unfold merge. destruct b as [sb eb]. simpl in *.
  zcases; f_equal; apply val_inj; try done; lia.
Qed.

Lemma merge_absorbs a b :
  val (istart a) <= val (istart b) -> val (iend b) <= val (iend a) -> merge val a b = a.
Proof.
  intros ? ?. unfold merge. destruct a as [sb eb]. simpl in *.
  by zcases.
Qed.

Lemma ref_insert_length a l : (length (ref a l) <= S (length l))%nat.
Proof.
  revert a. induction l as [| b l IH]; intros a; simpl; [lia |].
  zcases; simpl; [specialize (IH a); lia | lia | specialize (IH (merge val a b)); lia].
Qed.

Lemma ref_insert_grow a x l : ok a -> ref a l = x :: l -> x = a.
Proof.
  intros (_ & _ & Ha). revert x. induction l as [| b l IH]; intros x; simpl; [congruence |]. zcases.
  - intros [= -> E]. apply IH in E. subst. lia.
  - congruence.
  - intros E. pose proof (ref_insert_length (merge val a b) l). rewrite E in H1. simpl in H1. lia.
Qed.

(** An interval inside one of the list's is absorbed. *)
Lemma ref_insert_absorbed a b l :
  ok a -> ok b -> srt (val (iend b) + 2) l ->
  val (istart b) <= val (istart a) -> val (iend a) <= val (iend b) ->
  ref a (b :: l) = b :: l.
Proof.
  intros Ha Hb Hl Hs He. pose proof Ha as (_ & _ & ?). pose proof Hb as (_ & _ & ?).
  simpl. zcases. rewrite merge_absorbed by done. by apply ref_insert_hd.
Qed.

End Reference.

(** Case analysis on the two comparisons a scan makes of the bounds of two
    valid intervals. *)
Ltac bounds_cases a b :=
  rewrite !cmp_val by done;
  match goal with
  | |- context [?v (istart a) ?= ?v (istart b)] =>
      let Hs := fresh "Hs" in let He := fresh "He" in
      destruct (Z.compare_spec (v (istart a)) (v (istart b))) as [Hs | Hs | Hs],
        (Z.compare_spec (v (iend a)) (v (iend b))) as [He | He | He]
  end.

(** ** The scan finds what the reference insertion replaces *)
Section Scan.
Context {T : Type} {B : IntervalBound T} {dom : T -> Prop} {val : T -> Z} {lo hi : Z}.
Context `{HB : !IntervalBoundSpec B dom val lo hi}.

Abbreviation ok := (iv_ok dom val).
Abbreviation srt := (sorted_from dom val).
Abbreviation ref := (ref_insert val).

(** Once a slot is being replaced, the scan extends the replaced run. *)
Lemma scan_grow l i rs a :
  0 <= rs < i -> ok a -> srt (val (istart a) + 1) l ->
  exists m q a', l = m ++ q
    /\ Insertion.scan i l (rs, i) a = Insertion.Absent (rs, i + vlen m) a'
    /\ ref a l = a' :: q.
Proof.
  revert i a. induction l as [| b l IH]; intros i a Hi Ha Hl.
  { exists [], [], a. split_and!; [done | | done]. simpl. do 2 f_equal. unfold vlen; simpl; lia. }
  destruct Hl as (Hb & Hlb & Hl). pose proof (iv_bounds b Hb) as Hbb. pose proof (iv_bounds a Ha) as Haa.
  pose proof Ha as (Hsa & Hea & _). pose proof Hb as (Hsb & Heb & _).
  assert (Hw : srt (val (istart a) + 1) l) by (eapply sorted_from_weaken; [exact Hl | lia]).
  assert (Hset : forall r : Z * Z, r = (rs, i) ->
    Insertion.set_end (Insertion.set_start r i) (i + 1) = (rs, i + 1)).
  { intros r ->. unfold Insertion.set_end, Insertion.set_start. simpl. f_equal; lia. }
  cbn [Insertion.scan ref_insert]. rewrite !Hset by done. rewrite !cmp_val by done.
  rewrite (proj2 (Z.compare_lt_iff _ _)) by lia.
  destruct (Z.compare_spec (val (iend a)) (val (iend b))) as [He | He | He].
  - exists [b], l, a. split_and!; [done | done |]. zcases.
    rewrite merge_absorbs by lia. eapply ref_insert_hd; [by rewrite He | done].
  - rewrite should_coalesce_val by done.
    destruct (Z.leb_spec (val (istart b)) (Z.min (val (iend a) + 1) hi)).
    + exists [b], l, (mk_iv (istart a) (iend b)). split_and!; [done | done |]. zcases.
      replace (merge val a b) with (mk_iv (istart a) (iend b))
        by (unfold merge; by zcases).
      eapply ref_insert_hd; [done | split_and!; simpl; done || lia].
    + exists [], (b :: l), a. split_and!; [done | | by zcases].
      unfold Insertion.set_end, Insertion.set_start. simpl. do 2 f_equal; unfold vlen; simpl; lia.
  - destruct (IH (i + 1) a ltac:(lia) Ha Hw) as (m & q & a' & -> & -> & Href).
    exists (b :: m), q, a'. split_and!; [done | rewrite vlen_cons; do 2 f_equal; lia |].
    zcases. by rewrite merge_absorbs by lia.
Qed.

(** What a scan of [l], whose first slot has index [i], leaves for [apply]. *)
Inductive scan_post (i : Z) (a : Interval T) (l : list (Interval T)) : Insertion.scanned T -> Prop :=
| scan_present p b q j :
    l = p ++ b :: q ->
    Forall (fun b => val (iend b) + 1 < val (istart a)) p ->
    val (istart b) <= val (istart a) -> val (iend a) <= val (iend b) ->
    j = i + vlen p + (if val (iend a) =? val (iend b) then 1 else 0) ->
    scan_post i a l (Insertion.Present j)
| scan_append :
    Forall (fun b => val (iend b) + 1 < val (istart a)) l ->
    scan_post i a l (Insertion.Absent (USIZE_MAX, 0) a)
| scan_replace p m q a' :
    l = p ++ m ++ q ->
    Forall (fun b => val (iend b) + 1 < val (istart a)) p ->
    ref a (m ++ q) = a' :: q ->
    scan_post i a l (Insertion.Absent (i + vlen p, i + vlen p + vlen m) a').

Lemma scan_post_cons i a b l s :
  val (iend b) + 1 < val (istart a) -> scan_post (i + 1) a l s -> scan_post i a (b :: l) s.
Proof.
  intros Hb Hs. destruct Hs as [p c q j -> Hp Hcs Hce -> | Hl | p m q a' -> Hp Hm].
  - eapply (scan_present _ _ _ (b :: p)); [done | by constructor | done | done |].
    rewrite vlen_cons. lia.
  - apply scan_append. by constructor.
  - replace (i + 1 + vlen p) with (i + vlen (b :: p)) by (rewrite vlen_cons; lia).
    eapply scan_replace; [done | by constructor | done].
Qed.

(** A scan that starts replacing at slot [i] with the merged interval [a1]. *)
Lemma scan_post_grow i a a1 b l :
  0 <= i -> ok a1 -> srt (val (istart a1) + 1) l ->
  ref a (b :: l) = ref a1 l ->
  scan_post i a (b :: l) (Insertion.scan (i + 1) l (i, i + 1) a1).
Proof.
  intros Hi Ha1 Hl Href.
  destruct (scan_grow l (i + 1) i a1 ltac:(lia) Ha1 Hl) as (m & q & a' & -> & -> & E).
  pose proof (scan_replace i a (b :: m ++ q) [] (b :: m) q a') as Hp.
  replace (i + vlen [] + vlen (b :: m)) with (i + 1 + vlen m) in Hp
    by (rewrite vlen_cons; unfold vlen; simpl; lia).
  replace (i + vlen []) with i in Hp by (unfold vlen; simpl; lia).
  apply Hp; [done | constructor |]. simpl app. by rewrite Href.
Qed.

Lemma set_first i : 0 <= i <= USIZE_MAX ->
  Insertion.set_end (Insertion.set_start (USIZE_MAX, 0) i) (i + 1) = (i, i + 1).
Proof. intros. unfold Insertion.set_end, Insertion.set_start. simpl. f_equal; lia. Qed.

Lemma scan_spec l i a lb :
  0 <= i -> i + vlen l <= USIZE_MAX -> ok a -> srt lb l ->
  scan_post i a l (Insertion.scan i l (USIZE_MAX, 0) a).
Proof.
  revert i lb. induction l as [| b l IH]; intros i lb Hi Hlen Ha Hl; [apply scan_append; constructor |].
  destruct Hl as (Hb & _ & Hl). pose proof (iv_bounds b Hb) as Hbb. pose proof (iv_bounds a Ha) as Haa.
  pose proof Ha as (Hsa & Hea & _). pose proof Hb as (Hsb & Heb & _).
  rewrite vlen_cons in Hlen. pose proof (vlen_nonneg l).
  assert (Hpres : forall j, val (istart b) <= val (istart a) -> val (iend a) <= val (iend b) ->
    j = i + (if val (iend a) =? val (iend b) then 1 else 0) ->
    scan_post i a (b :: l) (Insertion.Present j)).
  { intros j ? ? ->. eapply (scan_present _ _ _ []); try done. unfold vlen. simpl. lia. }
  assert (Hmerge : forall a1, ok a1 -> a1 = merge val a b -> val (istart a1) <= val (istart b) ->
    val (istart a) <= val (iend b) + 1 -> val (istart b) <= val (iend a) + 1 ->
    scan_post i a (b :: l) (Insertion.scan (i + 1) l (i, i + 1) a1)).
  { intros a1 Ha1 -> ? ? ?. apply scan_post_grow; [done | done | |].
    - eapply sorted_from_weaken; [exact Hl | lia].
    - cbn [ref_insert]. by zcases. }
  assert (Hstop : forall a', ref a (b :: l) = a' :: l ->
    scan_post i a (b :: l) (Insertion.Absent (i, i + 1) a')).
  { intros a' E. pose proof (scan_replace i a (b :: l) [] [b] l a') as Hp.
    replace (i + vlen []) with i in Hp by (unfold vlen; simpl; lia). by apply Hp. }
  cbn [Insertion.scan]. rewrite set_first by lia.
  bounds_cases a b.
  - apply Hpres; zcases.
  - apply Hpres; zcases.
  - apply Hmerge; try done; try lia. symmetry. apply merge_absorbs; lia.
  - apply Hstop. cbn [ref_insert]. zcases. rewrite merge_absorbs by lia.
    eapply ref_insert_hd; [by rewrite He | done].
  - rewrite should_coalesce_val by done.
    destruct (Z.leb_spec (val (istart b)) (Z.min (val (iend a) + 1) hi)).
    + apply Hstop. cbn [ref_insert]. zcases.
      replace (merge val a b) with (mk_iv (istart a) (iend b)) by (unfold merge; by zcases).
      eapply ref_insert_hd; [done | split_and!; simpl; done || lia].
    + pose proof (scan_replace i a (b :: l) [] [] (b :: l) a) as Hp.
      unfold Insertion.set_end, Insertion.set_start. simpl fst. simpl snd.
      replace (Z.min USIZE_MAX i) with (i + 0) by lia.
      replace (Z.max 0 i) with (i + 0 + 0) by lia.
      apply Hp; [done | constructor |]. cbn [ref_insert app]. by zcases.
  - apply Hmerge; try done; try lia. symmetry. apply merge_absorbs; lia.
  - apply Hpres; zcases.
  - apply Hpres; zcases.
  - rewrite should_coalesce_val by done.
    destruct (Z.leb_spec (val (istart a)) (Z.min (val (iend b) + 1) hi)).
    + apply Hmerge; simpl; try lia; [split_and!; simpl; done || lia | unfold merge; by zcases].
    + apply scan_post_cons; [lia |]. eapply IH; [lia | lia | done | exact Hl].
Qed.

(** ** Applying the scan's result *)

(** [apply] on the replaced run [m]: refused only when it would add an
    interval beyond the limit. *)
Lemma apply_replace p m q (a' : Interval T) limit :
  Insertion.apply (vlen p, vlen p + vlen m) (p ++ m ++ q) a' limit
  = match m, Insertion.ensure_can_insert limit (vlen (p ++ m ++ q)) with
    | [], Err e => Ret (Err e, p ++ m ++ q)
    | _, _ => Ret (Ok (vlen p), p ++ a' :: q)
    end.
Proof.
  unfold Insertion.apply. simpl fst. simpl snd. pose proof (vlen_nonneg p). pose proof (vlen_nonneg m).
  assert (Hsub : checked_sub (vlen p + vlen m) (vlen p) = Some (vlen m)).
  { unfold checked_sub. zcases. f_equal. lia. }
  rewrite Hsub. destruct m as [| x [| y [| z m]]].
  - simpl app. destruct (Insertion.ensure_can_insert _ _); [| done].
    change (vlen [] =? 0) with true. cbv iota. by rewrite vinsert_app.
  - simpl app. change (vlen [x] =? 0) with false. change (vlen [x] =? 1) with true. cbv iota.
    by rewrite vset_app.
  - simpl app. change (vlen [x; y] =? 0) with false. change (vlen [x; y] =? 1) with false.
    change (vlen [x; y] =? 2) with true. cbv iota. rewrite vset_app. cbn [obind].
    replace (vlen p + 1) with (vlen (p ++ [a'])) by (rewrite vlen_app; done).
    change (a' :: y :: q) with ([a'] ++ y :: q). by rewrite app_assoc, vremove_app, <- app_assoc.
  - rewrite !vlen_cons in *. pose proof (vlen_nonneg m). zcases.
    simpl app. rewrite vset_app. cbn [obind].
    replace (vlen p + 1) with (vlen (p ++ [a'])) by (rewrite vlen_app; done).
    change (a' :: y :: z :: m ++ q) with ([a'] ++ (y :: z :: m) ++ q). rewrite app_assoc.
    replace (vlen p + (1 + (1 + (1 + vlen m)))) with (vlen (p ++ [a']) + vlen (y :: z :: m))
      by (rewrite vlen_app, !vlen_cons; unfold vlen; simpl; lia).
    rewrite vdrain_app. cbn [obind]. by rewrite <- app_assoc.
Qed.

Lemma apply_append (l : list (Interval T)) a limit :
  Insertion.apply (USIZE_MAX, 0) l a limit
  = match Insertion.ensure_can_insert limit (vlen l) with
    | Err e => Ret (Err e, l)
    | Ok _ => Ret (Ok (vlen l), l ++ [a])
    end.
Proof. done. Qed.
End Scan.

(** ** The whole insertion *)
Section Insert.
Context {T : Type} {B : IntervalBound T} {dom : T -> Prop} {val : T -> Z} {lo hi : Z}.
Context `{HB : !IntervalBoundSpec B dom val lo hi}.

Abbreviation ok := (iv_ok dom val).
Abbreviation srt := (sorted_from dom val).
Abbreviation ref := (ref_insert val).

Definition inside (a b : Interval T) : Prop :=
  val (istart b) <= val (istart a) /\ val (iend a) <= val (iend b).

Lemma mem_sorted_from lb l x : srt lb l -> mem val l x -> lb <= x.
Proof.
  revert lb. induction l as [| b l IH]; intros lb; [by intros _ ?%mem_nil |].
  intros ((_ & _ & ?) & ? & Hl) [Hx | Hx]%mem_cons; [unfold in_iv in Hx; lia |].
  apply (IH _ Hl) in Hx. lia.
Qed.

(** The first interval decides the lower bound. *)
Lemma sorted_from_raise lb lb' l :
  srt lb l -> (forall x, mem val l x -> lb' <= x) -> srt lb' l.
Proof.
  destruct l as [| b l]; [done |]. intros (Hb & Hlb & Hl) Hx. apply sorted_from_cons; [done | | done].
  apply Hx, mem_cons. left. destruct Hb as (_ & _ & ?). unfold in_iv. lia.
Qed.

Lemma mem_tail i l x :
  srt (val (iend i) + 2) l -> mem val l x <-> mem val (i :: l) x /\ val (iend i) < x.
Proof.
  intros Hl. rewrite mem_cons. pose proof (mem_sorted_from _ _ x Hl). unfold in_iv. intuition lia.
Qed.

(** The representation is canonical: equal sets have equal lists. *)
Lemma sorted_ext lb lb' l l' :
  srt lb l -> srt lb' l' -> (forall x, mem val l x <-> mem val l' x) -> l = l'.
Proof.
  revert lb lb' l'. induction l as [| a l IH]; intros lb lb' [| b l'] Hl Hl' Hx; [done | | |].
  - destruct Hl' as ((_ & _ & ?) & _ & _). destruct (proj1 (mem_nil (val := val) (val (istart b)))).
    apply Hx, mem_cons. left. unfold in_iv. lia.
  - destruct Hl as ((_ & _ & ?) & _ & _). destruct (proj1 (mem_nil (val := val) (val (istart a)))).
    apply Hx, mem_cons. left. unfold in_iv. lia.
  - destruct Hl as (Ha & _ & Hl), Hl' as (Hb & _ & Hl').
    pose proof (iv_bounds a Ha). pose proof (iv_bounds b Hb).
    assert (Hc : forall y, in_iv val a y \/ (mem val l y /\ val (iend a) + 2 <= y)
                       <-> in_iv val b y \/ (mem val l' y /\ val (iend b) + 2 <= y)).
    { intros y. pose proof (mem_sorted_from _ _ y Hl). pose proof (mem_sorted_from _ _ y Hl').
      specialize (Hx y). rewrite !mem_cons in Hx. tauto. }
    unfold in_iv in Hc. assert (Hs : val (istart a) = val (istart b)).
    { pose proof (Hc (val (istart a))). pose proof (Hc (val (istart b))). lia. }
    assert (He : val (iend a) = val (iend b)).
    { pose proof (Hc (val (iend a) + 1)). pose proof (Hc (val (iend b) + 1)). lia. }
    assert (a = b) as ->.
    { destruct a, b, Ha as (? & ? & _), Hb as (? & ? & _). simpl in *.
      f_equal; by apply val_inj. }
    f_equal. eapply IH; [exact Hl | exact Hl' |]. intros x.
    by rewrite (mem_tail b l), (mem_tail b l'), Hx.
Qed.

(** A contiguous range covered by the set lies in one of its intervals. *)
Lemma covered_inside lb a l :
  srt lb l -> ok a -> (forall x, in_iv val a x -> mem val l x) -> Exists (inside a) l.
Proof.
  revert lb. induction l as [| b l IH]; intros lb Hl (Hsa & Hea & Hle) Hc.
  { destruct (mem_nil (val := val) (val (istart a))) as [[] _]. apply Hc. unfold in_iv. lia. }
  destruct Hl as (Hb & Hlb & Hl).
  assert (Hcase : forall x, in_iv val a x -> in_iv val b x \/ val (iend b) + 2 <= x).
  { intros x Hx. destruct (proj1 (mem_cons _ _ _) (Hc x Hx)) as [? | Hm]; [by left | right].
    by eapply mem_sorted_from. }
  unfold in_iv in Hcase. destruct (Hcase (val (istart a))) as [Hin | Hout]; [lia | |].
  - apply Exists_cons_hd. split; [lia |].
    destruct (Z.le_gt_cases (val (iend a)) (val (iend b))); [done |].
    destruct (Hcase (val (iend b) + 1)); lia.
  - apply Exists_cons_tl. eapply IH; [exact Hl | done |]. intros x Hx.
    destruct (proj1 (mem_cons _ _ _) (Hc x Hx)) as [Hx' | ?]; [unfold in_iv in *; lia | done].
Qed.

Lemma scan_contained lb l i r a :
  srt lb l -> ok a -> Exists (inside a) l -> exists j, Insertion.scan i l r a = Insertion.Present j.
Proof.
  revert lb i. induction l as [| b l IH]; intros lb i Hl Ha Hex; [by apply Exists_nil in Hex |].
  destruct Hl as (Hb & _ & Hl). pose proof (iv_bounds b Hb) as Hbb. pose proof (iv_bounds a Ha) as Haa.
  pose proof Ha as (Hsa & Hea & _). pose proof Hb as (Hsb & Heb & _).
  cbn [Insertion.scan]. apply Exists_cons in Hex as [[? ?] | Hex].
  - bounds_cases a b; try lia; eauto.
  - assert (val (iend b) + 2 <= val (istart a)).
    { apply Exists_exists in Hex as (c & Hc & Hin & _).
      assert (mem val l (val (istart c))).
      { apply Exists_exists. exists c. split; [done |].
        pose proof (sorted_from_Forall _ _ Hl) as Hf. rewrite Forall_forall in Hf.
        destruct (Hf c Hc) as (_ & _ & ?). unfold in_iv. lia. }
      pose proof (mem_sorted_from _ _ _ Hl H). lia. }
    bounds_cases a b; try lia. rewrite should_coalesce_val by done.
    destruct (Z.leb_spec (val (istart a)) (Z.min (val (iend b) + 1) hi)); [lia |]. eauto.
Qed.

(** What [insert] promises, from any start index whose earlier intervals end
    before the inserted one. *)
Record insert_post (l : list (Interval T)) (a : Interval T) (limit : option Z)
    (res : result (Z * bool) IntervalSetError) (l' : list (Interval T)) : Prop := {
  insert_ok : forall j modified, res = Ok (j, modified) ->
    l' = ref a l
    /\ (modified = false <-> forall x, in_iv val a x -> mem val l x)
    /\ 0 <= j <= vlen l' /\ Forall (fun b => val (iend b) <= val (iend a)) (take (Z.to_nat j) l')
    /\ (forall n, limit = Some n -> vlen l <= n -> vlen l' <= n);
  insert_err : forall e, res = Err e ->
    e = LimitExceeded /\ l' = l
    /\ exists n, limit = Some n /\ n <= vlen l /\ vlen (ref a l) = vlen l + 1
}.

Lemma ensure_cases limit n :
  Insertion.ensure_can_insert limit n = Ok tt /\ (forall m, limit = Some m -> n < m)
  \/ Insertion.ensure_can_insert limit n = Err LimitExceeded /\ exists m, limit = Some m /\ m <= n.
Proof.
  unfold Insertion.ensure_can_insert. destruct limit as [m |]; [| by left].
  destruct (Z.ltb_spec n m); [left | right]; (split; [done |]); [by intros ? [= <-] | eauto].
Qed.

(** Earlier intervals end before [a] starts, so before it ends. *)
Lemma past_ends a p :
  ok a -> Forall (fun b => val (iend b) + 1 < val (istart a)) p ->
  Forall (fun b => val (iend b) <= val (iend a)) p.
Proof. intros (_ & _ & ?) Hp. eapply Forall_impl; [exact Hp |]. simpl. lia. Qed.

(** The modified flag is [true] only if some value was missing. *)
Lemma absent_not_covered lb pre suf i r a s r' :
  srt lb (pre ++ suf) -> ok a ->
  Forall (fun b => val (iend b) + 1 < val (istart a)) pre ->
  Insertion.scan i suf r a = Insertion.Absent r' s ->
  ~ (forall x, in_iv val a x -> mem val (pre ++ suf) x).
Proof.
  intros Hl Ha Hp Hsc Hc. pose proof (covered_inside _ _ _ Hl Ha Hc) as Hex.
  apply sorted_from_app in Hl as [_ Hl].
  apply Exists_app in Hex as [Hex | Hex].
  - apply Exists_exists in Hex as (b & Hb & [Hs He]). rewrite Forall_forall in Hp.
    specialize (Hp b Hb). destruct Ha as (_ & _ & ?). lia.
  - destruct (scan_contained _ _ i r a Hl Ha Hex) as [j Hj]. by rewrite Hj in Hsc.
Qed.

Lemma post_present lb p b q a limit j :
  srt lb (p ++ b :: q) -> ok a ->
  Forall (fun b => val (iend b) + 1 < val (istart a)) p -> inside a b ->
  j = vlen p + (if val (iend a) =? val (iend b) then 1 else 0) ->
  insert_post (p ++ b :: q) a limit (Ok (j, false)) (p ++ b :: q).
Proof.
  intros Hl Ha Hp [Hs He] ->. split; [| done]. intros j modified [= <- <-].
  pose proof (vlen_nonneg p). pose proof (vlen_nonneg q). pose proof Ha as (_ & _ & Hle).
  apply sorted_from_app in Hl as (_ & Hb & _ & Hq).
  split_and!; [| split; [intros _ x Hx | done] | | | | by auto].
  - rewrite ref_insert_past by done. f_equal. symmetry. eapply ref_insert_absorbed; eassumption.
  - apply mem_app. right. apply mem_cons. left. unfold in_iv in *. lia.
  - zcases.
  - rewrite vlen_app, vlen_cons. zcases.
  - zcases; [| rewrite Z.add_0_r, take_vlen_app; by apply past_ends].
    rewrite cons_middle, app_assoc.
    replace (vlen p + 1) with (vlen (p ++ [b])) by (rewrite vlen_app; done).
    rewrite take_vlen_app. apply Forall_app. split; [by apply past_ends |]. constructor; [lia | done].
Qed.

(** The two outcomes when an interval is added between [p] and [q]. *)
Lemma post_added p q a limit e :
  ok a -> Forall (fun b => val (iend b) + 1 < val (istart a)) p ->
  ref a q = a :: q -> ~ (forall x, in_iv val a x -> mem val (p ++ q) x) ->
  match Insertion.ensure_can_insert limit (vlen (p ++ q)) with
  | Err e => insert_post (p ++ q) a limit (Err e) (p ++ q)
  | Ok _ => e = vlen p -> insert_post (p ++ q) a limit (Ok (e, true)) (p ++ a :: q)
  end.
Proof.
  intros Ha Hp Hq Hnc. pose proof (vlen_nonneg p). pose proof (vlen_nonneg q).
  assert (Hr : ref a (p ++ q) = p ++ a :: q) by (rewrite ref_insert_past by done; by rewrite Hq).
  destruct (ensure_cases limit (vlen (p ++ q))) as [[-> Hm] | [-> Hm]]; rewrite vlen_app in *.
  - intros ->. split; [| done]. intros j modified [= <- <-]. rewrite vlen_app, vlen_cons.
    split_and!; try done; try lia.
    + rewrite take_vlen_app. by apply past_ends.
    + intros n Hn _. specialize (Hm n Hn). lia.
  - split; [done |]. intros e' [= <-]. destruct Hm as (m & Hm & ?).
    split_and!; [done | done |]. exists m. rewrite Hr, !vlen_app, vlen_cons.
    split_and!; [done | lia | lia].
Qed.

Lemma post_replaced p m q a a' limit :
  ok a -> m <> [] -> Forall (fun b => val (iend b) + 1 < val (istart a)) p ->
  ref a (m ++ q) = a' :: q -> ~ (forall x, in_iv val a x -> mem val (p ++ m ++ q) x) ->
  insert_post (p ++ m ++ q) a limit (Ok (vlen p, true)) (p ++ a' :: q).
Proof.
  intros Ha Hm Hp Hq Hnc. pose proof (vlen_nonneg p). pose proof (vlen_nonneg q).
  split; [| done]. intros j modified [= <- <-]. rewrite !vlen_app, vlen_cons.
  split_and!; try done; try lia.
  - rewrite ref_insert_past by done. by rewrite Hq.
  - rewrite take_vlen_app. by apply past_ends.
  - intros n _ Hn. destruct m; [done |]. rewrite vlen_cons in Hn. pose proof (vlen_nonneg m). lia.
Qed.

Lemma insert_spec lb pre suf a limit :
  srt lb (pre ++ suf) -> ok a -> vlen (pre ++ suf) <= USIZE_MAX ->
  Forall (fun b => val (iend b) + 1 < val (istart a)) pre ->
  exists res l', insert (pre ++ suf) a (vlen pre) limit = Ret (res, l')
    /\ insert_post (pre ++ suf) a limit res l'.
Proof.
  intros Hl Ha Hlen Hpre. pose proof (vlen_nonneg pre). rewrite vlen_app in Hlen.
  assert (Hsuf := proj2 (proj1 (sorted_from_app _ _ _) Hl)).
  unfold insert. rewrite drop_vlen_app.
  pose proof (scan_spec suf (vlen pre) a _ ltac:(lia) Hlen Ha Hsuf) as Hscan.
  pose proof (fun s r => absent_not_covered lb pre suf (vlen pre) (USIZE_MAX, 0) a s r Hl Ha Hpre)
    as Hnc.
  remember (Insertion.scan _ _ _ _) as sc eqn:Esc. clear Esc.
  destruct Hscan as [p b q j -> Hp Hs He -> | Happ | p m q a' -> Hp Hm].
  - do 2 eexists. split; [done |]. rewrite app_assoc in *. eapply post_present; try done.
    + by apply Forall_app.
    + by rewrite vlen_app.
  - rewrite apply_append. pose proof (post_added (pre ++ suf) [] a limit (vlen (pre ++ suf)) Ha) as Hp.
    rewrite app_nil_r in Hp. destruct (Insertion.ensure_can_insert _ _);
      (do 2 eexists; split; [done |]); apply Hp; try done; try (by apply Forall_app); by eapply Hnc.
  - specialize (Hnc _ _ eq_refl). rewrite app_assoc in *. rewrite <- vlen_app in *.
    assert (Hpp : Forall (fun b => val (iend b) + 1 < val (istart a)) (pre ++ p)) by (by apply Forall_app).
    rewrite apply_replace. destruct m as [| x m].
    + pose proof (post_added (pre ++ p) q a limit (vlen (pre ++ p)) Ha Hpp) as Hq.
      simpl app in *. rewrite Hm in Hq. assert (a' = a) as -> by (by eapply ref_insert_grow).
      destruct (Insertion.ensure_can_insert _ _);
        (do 2 eexists; split; [done |]); by apply Hq.
    + do 2 eexists. split; [done |]. by apply post_replaced.
Qed.
End Insert.
