(* ===== verification/IntervalRemove.v ===== *)
(** * Removing an interval from a sorted list of intervals

    [interval_set/remove.rs].  [Removal.scan] shortens the partly covered
    intervals in place and records the slots that are covered completely;
    [Removal.apply] drains those or inserts the second half of a split.  The
    pair is proved equal to a one-pass reference removal, which is proved to
    compute the set difference. *)
From S2P Require Import Prelude Interval IntervalInsert.

(** ** Definitions *)
Module Removal.
Section Ops.
Context {T : Type} `{IntervalBound T}.

(** [Removal<T>]. *)
Record t := mk {
  replace_range : Z * Z;
  push_range : option (Interval T);
  can_push_range : bool
}.

Definition set_start (self : t) (start : Z) : t :=
  mk (Z.min (replace_range self).1 start, (replace_range self).2) (push_range self)
     (can_push_range self).
Definition set_end (self : t) (end_ : Z) : t :=
  mk ((replace_range self).1, Z.max (replace_range self).2 end_) (push_range self)
     (can_push_range self).

(** [push_range]: whether the range may be pushed; it is recorded either way. *)
Definition do_push_range (self : t) (start end_ : T) : outcome (bool * t) :=
  let! _ := rassert (match push_range self with None => true | Some _ => false end) in
  let self := mk (replace_range self) (Some (mk_iv start end_)) (can_push_range self) in
  Ret (can_push_range self, self).

(** [scan]: the early return, the state and the intervals as modified through
    [iter_mut]. *)
Fixpoint scan (slot_index : Z) (ranges : list (Interval T)) (self : t) (range_a : Interval T)
    : outcome (option Z * t * list (Interval T)) :=
  match ranges with
  | [] => Ret (None, self, [])
  | range_b :: rest =>
      let continue (range_b : Interval T) (self : t) :=
        let! '(ret, self, rest) := scan (slot_index + 1) rest self range_a in
        Ret (ret, self, range_b :: rest) in
      match cmp (istart range_a) (istart range_b), cmp (iend range_a) (iend range_b) with
      | Eq, Lt =>
          Ret (Some slot_index, self,
               mk_iv (Interval.end_exclusive range_a) (iend range_b) :: rest)
      | Gt, Eq =>
          Ret (Some (slot_index + 1), self,
               mk_iv (istart range_b) (Interval.start_exclusive range_a) :: rest)
      | Gt, Lt =>
          let! '(pushed, self) :=
            do_push_range self (Interval.end_exclusive range_a) (iend range_b) in
          if pushed then
            let range_b := mk_iv (istart range_b) (Interval.start_exclusive range_a) in
            Ret (None, set_end (set_start self (slot_index + 1)) (slot_index + 1), range_b :: rest)
          else Ret (None, self, ranges)
      | Gt, Gt =>
          if Interval.should_coalesce range_a range_b then
            continue (mk_iv (istart range_b) (Interval.start_exclusive range_a))
                     (set_start self (slot_index + 1))
          else continue range_b self
      | Eq, Gt | Lt, Gt =>
          continue range_b (set_end (set_start self slot_index) (slot_index + 1))
      | Eq, Eq | Lt, Eq =>
          Ret (None, set_end (set_start self slot_index) (slot_index + 1), ranges)
      | Lt, Lt =>
          if Interval.should_coalesce range_b range_a then
            Ret (None, set_end self slot_index,
                 mk_iv (Interval.end_exclusive range_a) (iend range_b) :: rest)
          else Ret (None, self, ranges)
      end
  end.

Definition apply (self : t) (ranges : list (Interval T))
    : outcome (result Z IntervalSetError * list (Interval T)) :=
  let index := (replace_range self).1 in
  match push_range self with
  | Some interval =>
      if can_push_range self then
        let! ranges := vinsert ranges index interval in Ret (Ok index, ranges)
      else Ret (Err LimitExceeded, ranges)
  | None =>
      match checked_sub (replace_range self).2 index with
      | None => Ret (Ok 0, ranges)
      | Some n =>
          if n =? 0 then Ret (Ok index, ranges)
          else if n =? 1 then Ret (Ok index, vremove ranges index)
          else let! ranges := vdrain ranges index (replace_range self).2 in Ret (Ok index, ranges)
      end
  end.

End Ops.
End Removal.
Arguments Removal.t T : clear implicits.

Definition remove {T} `{IntervalBound T} (ranges : list (Interval T)) (range : Interval T)
    (start_index : Z) (limit : option Z)
    : outcome (result Z IntervalSetError * list (Interval T)) :=
  let can_push_range := match limit with Some l => vlen ranges + 1 <? l | None => true end in
  let removal := Removal.mk (USIZE_MAX, 0) None can_push_range in
  let skipped := take (Z.to_nat start_index) ranges in
  let! '(ret, removal, scanned) :=
    Removal.scan start_index (drop (Z.to_nat start_index) ranges) removal range in
  let ranges := skipped ++ scanned in
  match ret with
  | Some index => Ret (Ok index, ranges)
  | None => Removal.apply removal ranges
  end.

(** ** The reference removal *)
Section Reference.
Context {T : Type} `{B : IntervalBound T} (val : T -> Z).

(** What is left of [b] before and after [a]. *)
Definition left_of (a b : Interval T) : list (Interval T) :=
  if val (istart b) <? val (istart a)
  then [mk_iv (istart b) (Interval.start_exclusive a)] else [].
Definition right_of (a b : Interval T) : Interval T :=
  mk_iv (Interval.end_exclusive a) (iend b).

Fixpoint ref_remove (a : Interval T) (l : list (Interval T)) : list (Interval T) :=
  match l with
  | [] => []
  | b :: l' =>
      if val (iend b) <? val (istart a) then b :: ref_remove a l'
      else if val (iend a) <? val (istart b) then l
      else left_of a b
           ++ (if val (iend a) <? val (iend b) then right_of a b :: l' else ref_remove a l')
  end.
End Reference.

(** ** The reference removal computes the difference *)
Section Difference.
Context {T : Type} {B : IntervalBound T} {dom : T -> Prop} {val : T -> Z} {lo hi : Z}.
Context `{HB : !IntervalBoundSpec B dom val lo hi}.

Abbreviation ok := (iv_ok dom val).
Abbreviation srt := (sorted_from dom val).
Abbreviation ref := (ref_remove val).

Lemma left_of_spec a b :
  ok a -> ok b -> val (istart a) <= val (iend b) ->
  (val (istart b) < val (istart a) /\ exists c, left_of val a b = [c] /\ ok c
     /\ val (istart c) = val (istart b) /\ val (iend c) = val (istart a) - 1)
  \/ (val (istart a) <= val (istart b) /\ left_of val a b = []).
Proof.
  intros Ha Hb Hab. pose proof (iv_bounds a Ha). pose proof (iv_bounds b Hb).
  destruct (start_exclusive_val a Ha) as [Hd Hv]. destruct Hb as (? & ? & ?).
  unfold left_of. zcases; [left | by right]. split; [done |].
  eexists; split; [done |]. unfold iv_ok. simpl. split_and!; try done; lia.
Qed.

Lemma right_of_spec a b :
  ok a -> ok b -> val (iend a) < val (iend b) ->
  ok (right_of a b) /\ val (istart (right_of a b)) = val (iend a) + 1.
Proof.
  intros Ha Hb Hab. pose proof (iv_bounds a Ha). pose proof (iv_bounds b Hb).
  destruct (end_exclusive_val a Ha) as [Hd Hv]. destruct Hb as (? & ? & ?).
  unfold right_of, iv_ok. simpl. split_and!; try done; lia.
Qed.

Lemma ref_remove_hd a l : srt (val (iend a) + 1) l -> ok a -> ref a l = l.
Proof.
  destruct l as [| b l]; simpl; [done |]. intros ((_ & _ & ?) & ? & _) (_ & _ & ?). by zcases.
Qed.

Lemma ref_remove_sorted lb a l : srt lb l -> ok a -> srt lb (ref a l).
Proof.
  intros Hl Ha. revert lb Hl. induction l as [| b l IH]; intros lb; simpl; [done |].
  intros (Hb & Hlb & Hl). pose proof (iv_bounds a Ha). pose proof (iv_bounds b Hb). zcases.
  - apply sorted_from_cons; [done | done |]. by apply IH.
  - by simpl.
  - destruct (right_of_spec a b) as [? ?]; [done.. |].
    destruct (left_of_spec a b) as [(Hs & c & -> & Hc & Hcs & Hce) | (Hs & ->)]; [done | done | lia | |].
    + apply sorted_from_cons; [done | lia |]. apply sorted_from_cons; [done | lia | done].
    + apply sorted_from_cons; [done | lia | done].
  - destruct (left_of_spec a b) as [(Hs & c & -> & Hc & Hcs & Hce) | (Hs & ->)]; [done | done | lia | |].
    + apply sorted_from_cons; [done | lia |]. eapply sorted_from_weaken; [apply IH, Hl | lia].
    + eapply sorted_from_weaken; [apply IH, Hl | lia].
Qed.

Lemma ref_remove_mem lb a l x :
  srt lb l -> ok a -> mem val (ref a l) x <-> mem val l x /\ ~ in_iv val a x.
Proof.
  intros Hl Ha. revert lb Hl. induction l as [| b l IH]; intros lb; simpl.
  { intros _. rewrite mem_nil. tauto. }
  intros (Hb & Hlb & Hl). pose proof (iv_bounds a Ha). pose proof (iv_bounds b Hb).
  pose proof (fun y => mem_sorted_from _ _ y Hl) as Hlow. specialize (IH _ Hl).
  assert (Hleft : val (istart a) <= val (iend b) ->
    mem val (left_of val a b) x <-> in_iv val b x /\ x < val (istart a)).
  { intros. destruct (left_of_spec a b) as [(Hs & c & -> & Hc & Hcs & Hce) | (Hs & ->)]; [done.. | |];
      rewrite ?mem_cons, mem_nil; unfold in_iv; lia. }
  zcases.
  - rewrite !mem_cons, IH. unfold in_iv. intuition lia.
  - rewrite mem_cons. unfold in_iv. specialize (Hlow x). intuition lia.
  - rewrite mem_app, Hleft by lia. destruct (right_of_spec a b) as [_ Hrs]; [done.. |].
    rewrite !mem_cons. specialize (Hlow x). unfold in_iv. rewrite Hrs. unfold right_of; simpl.
    intuition lia.
  - rewrite mem_app, Hleft by lia. rewrite mem_cons, IH. specialize (Hlow x). unfold in_iv. intuition lia.
Qed.

Lemma ref_remove_past a p l :
  Forall (fun b => val (iend b) < val (istart a)) p -> ref a (p ++ l) = p ++ ref a l.
Proof. induction 1; simpl; [done |]. zcases. by f_equal. Qed.

(** Cutting at a bound that already coincides changes nothing. *)
Lemma cut_end_same a b :
  ok a -> ok b -> val (istart a) = val (iend b) + 1 ->
  mk_iv (istart b) (Interval.start_exclusive a) = b.
Proof.
  intros Ha Hb E. pose proof (iv_bounds a Ha). pose proof (iv_bounds b Hb).
  destruct (start_exclusive_val a Ha) as [Hd Hv]. destruct Hb as (? & ? & ?).
  destruct b as [sb eb]; simpl in *. f_equal. apply val_inj; [done | done | lia].
Qed.

Lemma cut_start_same a b :
  ok a -> ok b -> val (istart b) = val (iend a) + 1 -> right_of a b = b.
Proof.
  intros Ha Hb E. pose proof (iv_bounds a Ha). pose proof (iv_bounds b Hb).
  destruct (end_exclusive_val a Ha) as [Hd Hv]. destruct Hb as (? & ? & ?).
  destruct b as [sb eb]; unfold right_of; simpl in *. f_equal. apply val_inj; [done | done | lia].
Qed.
End Difference.

(** ** The scan cuts what the reference removal cuts *)
Section Scan.
Context {T : Type} {B : IntervalBound T} {dom : T -> Prop} {val : T -> Z} {lo hi : Z}.
Context `{HB : !IntervalBoundSpec B dom val lo hi}.

Abbreviation ok := (iv_ok dom val).
Abbreviation srt := (sorted_from dom val).
Abbreviation ref := (ref_remove val).

(** Once past the start of [a], the scan extends the run of covered slots. *)
Lemma remove_grow l i rs re a can :
  0 <= rs <= i -> ok a -> srt (val (istart a) + 1) l -> re = i \/ (rs = i /\ re = 0) ->
  exists m q re',
    Removal.scan i l (Removal.mk (rs, re) None can) a
    = Ret (None, Removal.mk (rs, re') None can, m ++ q)
    /\ ref a l = q /\ (re' = i + vlen m \/ (m = [] /\ re' = re)).
Proof.
  revert i re. induction l as [| b l IH]; intros i re Hi Ha Hl Hre.
  { exists [], [], re. split_and!; [done | done | by right]. }
  destruct Hl as (Hb & Hlb & Hl). pose proof (iv_bounds b Hb) as Hbb. pose proof (iv_bounds a Ha) as Haa.
  pose proof Ha as (Hsa & Hea & _). pose proof Hb as (Hsb & Heb & _).
  assert (Hw : srt (val (istart a) + 1) l) by (eapply sorted_from_weaken; [exact Hl | lia]).
  assert (Hset : Removal.set_end (Removal.set_start (Removal.mk (rs, re) None can) i) (i + 1)
                 = Removal.mk (rs, i + 1) (None : option (Interval T)) can).
  { unfold Removal.set_end, Removal.set_start. simpl. do 2 f_equal; lia. }
  cbn [Removal.scan ref_remove]. rewrite !Hset. rewrite !cmp_val by done.
  rewrite (proj2 (Z.compare_lt_iff _ _)) by lia.
  assert (Hleft : left_of val a b = []) by (unfold left_of; by zcases).
  rewrite Hleft. simpl app. destruct (Z.compare_spec (val (iend a)) (val (iend b))) as [He | He | He].
  - exists [b], l, (i + 1). split_and!; [done | | by left]. zcases.
    eapply ref_remove_hd; [| done]. eapply sorted_from_weaken; [exact Hl | lia].
  - rewrite should_coalesce_val by done.
    destruct (Z.leb_spec (val (istart b)) (Z.min (val (iend a) + 1) hi)).
    + exists [], (right_of a b :: l), i. split_and!.
      * unfold Removal.set_end. simpl. repeat f_equal. lia.
      * zcases; [| done]. rewrite cut_start_same by (done || lia). done.
      * left. unfold vlen. simpl. lia.
    + exists [], (b :: l), re. split_and!; [done | by zcases | by right].
  - destruct (IH (i + 1) (i + 1)) as (m & q & re' & -> & Href & Hre'); [lia | done | done | by left |].
    exists (b :: m), q, re'. split_and!; [done | by zcases |].
    left. rewrite vlen_cons. destruct Hre' as [-> | [-> ->]]; unfold vlen; simpl; lia.
Qed.

(** What a scan of [l], whose first slot has index [i], leaves for [apply]. *)
Inductive removal_post (i : Z) (a : Interval T) (l : list (Interval T)) (can : bool)
    : option Z * Removal.t T * list (Interval T) -> Prop :=
| removal_single p q :
    ref a l = p ++ q ->
    Forall (fun b => val (iend b) <= val (iend a)) p ->
    removal_post i a l can (Some (i + vlen p), Removal.mk (USIZE_MAX, 0) None can, p ++ q)
| removal_refused r iv :
    can = false -> vlen (ref a l) = vlen l + 1 ->
    removal_post i a l can (None, Removal.mk r (Some iv) can, l)
| removal_split p iv q :
    can = true -> ref a l = p ++ iv :: q ->
    Forall (fun b => val (iend b) <= val (iend a)) p ->
    removal_post i a l can
      (None, Removal.mk (i + vlen p, i + vlen p) (Some iv) can, p ++ q)
| removal_none r :
    r.2 < r.1 -> removal_post i a l can (None, Removal.mk r None can, ref a l)
| removal_drain p m q :
    ref a l = p ++ q ->
    Forall (fun b => val (iend b) <= val (iend a)) p ->
    removal_post i a l can (None, Removal.mk (i + vlen p, i + vlen p + vlen m) None can, p ++ m ++ q).

Lemma removal_post_cons i a b l can ret st l' :
  ok a -> val (iend b) < val (istart a) ->
  removal_post (i + 1) a l can (ret, st, l') -> removal_post i a (b :: l) can (ret, st, b :: l').
Proof.
  intros (_ & _ & Ha) Hb. assert (Hbe : val (iend b) <= val (iend a)) by lia.
  assert (Href : ref a (b :: l) = b :: ref a l) by (simpl; by zcases).
  assert (Hi : forall p, i + 1 + vlen p = i + vlen (b :: p)) by (intros; rewrite vlen_cons; lia).
  intros Hp. inversion Hp as [p q Hr | | p iv q Hc Hr | | p m q Hr]; subst; rewrite ?Hi.
  - apply (removal_single _ _ _ _ (b :: p)); [by rewrite Href, Hr | by constructor].
  - apply removal_refused; [done |]. rewrite Href, !vlen_cons. lia.
  - apply (removal_split _ _ _ _ (b :: p)); [done | by rewrite Href, Hr | by constructor].
  - rewrite <- Href. by apply removal_none.
  - apply (removal_drain _ _ _ _ (b :: p)); [by rewrite Href, Hr | by constructor].
Qed.

(** The reference removal at a slot [b] that [a] overlaps. *)
Lemma ref_overlap a b l :
  ok a -> ok b -> val (istart a) <= val (iend b) -> val (istart b) <= val (iend a) ->
  ref a (b :: l)
  = (if val (istart b) <? val (istart a) then [mk_iv (istart b) (Interval.start_exclusive a)] else [])
    ++ (if val (iend a) <? val (iend b) then right_of a b :: l else ref a l).
Proof. intros. cbn [ref_remove]. fold (left_of val a b). zcases; done. Qed.

(** The cases of the scan at a slot [b] that [a] reaches. *)
Lemma scan_covered i a b l can :
  0 <= i -> i + 1 <= USIZE_MAX -> ok a -> ok b -> srt (val (iend b) + 2) l ->
  val (istart a) <= val (istart b) -> val (iend b) < val (iend a) ->
  exists out, (let! '(ret, st, rest) :=
      Removal.scan (i + 1) l (Removal.set_end (Removal.set_start
        (Removal.mk (USIZE_MAX, 0) None can) i) (i + 1)) a in Ret (ret, st, b :: rest)) = Ret out
    /\ removal_post i a (b :: l) can out.
Proof.
  intros Hi Hmax Ha Hb Hl Hs He. pose proof (iv_bounds b Hb).
  replace (Removal.set_end _ _) with (Removal.mk (i, i + 1) (None : option (Interval T)) can)
    by (unfold Removal.set_end, Removal.set_start; simpl; do 2 f_equal; lia).
  destruct (remove_grow l (i + 1) i (i + 1) a can) as (m & q & re' & -> & Href & Hre);
    [lia | done | eapply sorted_from_weaken; [exact Hl | lia] | by left |].
  eexists; split; [done |].
  assert (Hr : ref a (b :: l) = q).
  { simpl. zcases. replace (left_of val a b) with ([] : list (Interval T)); [done |].
    unfold left_of. by zcases. }
  pose proof (removal_drain i a (b :: l) can [] (b :: m) q) as Hp.
  replace (i + vlen []) with i in Hp by (unfold vlen; simpl; lia).
  replace re' with (i + vlen (b :: m)) by (rewrite vlen_cons; destruct Hre as [-> | [-> ->]];
    unfold vlen; simpl; lia).
  by apply Hp.
Qed.

Lemma scan_cut_end i a b l can :
  0 <= i -> i + 1 <= USIZE_MAX -> ok a -> ok b -> srt (val (iend b) + 2) l ->
  val (istart b) < val (istart a) -> val (istart a) <= val (iend b) + 1 ->
  val (iend b) < val (iend a) ->
  exists out, (let! '(ret, st, rest) :=
      Removal.scan (i + 1) l (Removal.set_start (Removal.mk (USIZE_MAX, 0) None can) (i + 1)) a in
      Ret (ret, st, mk_iv (istart b) (Interval.start_exclusive a) :: rest)) = Ret out
    /\ removal_post i a (b :: l) can out.
Proof.
  intros Hi Hmax Ha Hb Hl Hs Hco He. pose proof (iv_bounds a Ha).
  replace (Removal.set_start _ _) with (Removal.mk (i + 1, 0) (None : option (Interval T)) can)
    by (unfold Removal.set_start; simpl; do 2 f_equal; lia).
  set (c := mk_iv (istart b) (Interval.start_exclusive a)).
  destruct (remove_grow l (i + 1) (i + 1) 0 a can) as (m & q & re' & -> & Href & Hre);
    [lia | done | | by right |].
  { destruct (Z.eq_dec (val (istart a)) (val (iend b) + 1));
      (eapply sorted_from_weaken; [exact Hl | lia]). }
  eexists; split; [done |].
  assert (Hr : ref a (b :: l) = c :: q).
  { simpl. zcases; [unfold c; rewrite cut_end_same by (done || lia); by f_equal |].
    unfold left_of. zcases. simpl. by f_equal. }
  assert (Hc : Forall (fun b => val (iend b) <= val (iend a)) [c]).
  { constructor; [| done]. destruct (start_exclusive_val a Ha) as [_ Hv]. simpl. lia. }
  destruct Hre as [-> | [-> ->]].
  - apply (removal_drain i a (b :: l) can [c] m q Hr Hc).
  - simpl app. rewrite <- Hr. apply removal_none. simpl. lia.
Qed.

Lemma removal_scan_spec l i a lb can :
  0 <= i -> i + vlen l <= USIZE_MAX -> ok a -> srt lb l ->
  exists out, Removal.scan i l (Removal.mk (USIZE_MAX, 0) None can) a = Ret out
    /\ removal_post i a l can out.
Proof.
  revert i lb. induction l as [| b l IH]; intros i lb Hi Hlen Ha Hl.
  { eexists. split; [done |]. by apply removal_none. }
  destruct Hl as (Hb & _ & Hl). pose proof (iv_bounds b Hb) as Hbb. pose proof (iv_bounds a Ha) as Haa.
  pose proof Ha as (Hsa & Hea & _). pose proof Hb as (Hsb & Heb & _).
  rewrite vlen_cons in Hlen. pose proof (vlen_nonneg l).
  assert (Htl : val (iend a) <= val (iend b) -> ref a l = l).
  { intros. eapply ref_remove_hd; [| done]. eapply sorted_from_weaken; [exact Hl | lia]. }
  assert (Hcover : val (istart a) <= val (istart b) -> val (iend a) = val (iend b) ->
    exists out, Ret (None, Removal.set_end (Removal.set_start
        (Removal.mk (USIZE_MAX, 0) None can) i) (i + 1), b :: l) = Ret out
      /\ removal_post i a (b :: l) can out).
  { intros. eexists; split; [done |]. pose proof (removal_drain i a (b :: l) can [] [b] l) as Hp.
    replace (i + vlen []) with i in Hp by (unfold vlen; simpl; lia).
    unfold Removal.set_end, Removal.set_start. simpl fst. simpl snd.
    replace (Z.min USIZE_MAX i) with i by lia. replace (Z.max 0 (i + 1)) with (i + vlen [b])
      by (unfold vlen; simpl; lia).
    apply Hp; [| done]. simpl. zcases. rewrite Htl by lia. unfold left_of. by zcases. }
  assert (Hsat : val (Interval.start_exclusive a) <= val (iend a)).
  { destruct (start_exclusive_val a Ha). lia. }
  cbn [Removal.scan]. cbv zeta. bounds_cases a b.
  - by apply Hcover; [lia |].
  - eexists; split; [done |]. replace i with (i + vlen (A := Interval T) []) at 2
      by (unfold vlen; simpl; lia).
    apply (removal_single i a _ can [] (right_of a b :: l)); [| done].
    rewrite ref_overlap by (done || lia). by zcases.
  - by apply scan_covered; [| lia | | | | lia |].
  - by apply Hcover; [lia |].
  - rewrite should_coalesce_val by done.
    destruct (Z.leb_spec (val (istart b)) (Z.min (val (iend a) + 1) hi));
      (eexists; split; [done |]); pose proof (removal_none i a (b :: l) can) as Hp.
    + specialize (Hp (USIZE_MAX, Z.max 0 i) ltac:(simpl; lia)).
      replace (ref a (b :: l)) with (right_of a b :: l) in Hp; [done |]. cbn [ref_remove]. zcases.
      * by rewrite cut_start_same by (done || lia).
      * unfold left_of. by zcases.
    + replace (ref a (b :: l)) with (b :: l) in Hp by (simpl; by zcases). by apply Hp.
  - by apply scan_covered; [| lia | | | | lia |].
  - eexists; split; [done |].
    apply (removal_single i a _ can [mk_iv (istart b) (Interval.start_exclusive a)] l).
    + rewrite ref_overlap by (done || lia). zcases. by rewrite Htl by lia.
    + by constructor.
  - assert (Hr : ref a (b :: l) = [mk_iv (istart b) (Interval.start_exclusive a)] ++ right_of a b :: l)
      by (rewrite ref_overlap by (done || lia); by zcases).
    unfold Removal.do_push_range. cbn [obind rassert Removal.push_range Removal.can_push_range].
    destruct can; (eexists; split; [done |]).
    + unfold Removal.set_end, Removal.set_start. simpl fst. simpl snd.
      replace (Z.min USIZE_MAX (i + 1)) with (i + 1) by lia. replace (Z.max 0 (i + 1)) with (i + 1) by lia.
      apply (removal_split i a (b :: l) true [_] _ _ eq_refl Hr). by constructor.
    + apply removal_refused; [done |]. rewrite Hr. simpl app. rewrite !vlen_cons. lia.
  - rewrite should_coalesce_val by done.
    destruct (Z.leb_spec (val (istart a)) (Z.min (val (iend b) + 1) hi)).
    + by apply scan_cut_end; [| lia | | | | | lia |].
    + destruct (IH (i + 1) _ ltac:(lia) ltac:(lia) Ha Hl) as ([[ret st] l'] & -> & Hp).
      eexists; split; [done |]. by apply removal_post_cons; [| lia |].
Qed.
End Scan.

(** ** The whole removal *)
Section Remove.
Context {T : Type} {B : IntervalBound T} {dom : T -> Prop} {val : T -> Z} {lo hi : Z}.
Context `{HB : !IntervalBoundSpec B dom val lo hi}.

Abbreviation ok := (iv_ok dom val).
Abbreviation srt := (sorted_from dom val).
Abbreviation ref := (ref_remove val).

(** What [remove] promises, from any start index whose earlier intervals end
    before the removed one. *)
Record remove_post (l : list (Interval T)) (a : Interval T) (limit : option Z)
    (res : result Z IntervalSetError) (l' : list (Interval T)) : Prop := {
  remove_ok : forall j, res = Ok j ->
    l' = ref a l /\ 0 <= j <= vlen l'
    /\ Forall (fun b => val (iend b) <= val (iend a)) (take (Z.to_nat j) l')
    /\ (forall n, limit = Some n -> vlen l <= n -> vlen l' <= n);
  remove_err : forall e, res = Err e ->
    e = LimitExceeded /\ l' = l
    /\ exists n, limit = Some n /\ n <= vlen l + 1 /\ vlen (ref a l) = vlen l + 1
}.

Lemma removal_scan_length l i st (a : Interval T) ret st' l' :
  Removal.scan i l st a = Ret (ret, st', l') -> vlen l' = vlen l.
Proof.
  revert i st l'. induction l as [| b l IH]; intros i st l'; cbn [Removal.scan]; cbv zeta.
  { by intros [= <- <- <-]. }
  assert (Hk : forall st2 c, (let! '(ret, st, rest) := Removal.scan (i + 1) l st2 a in
      Ret (ret, st, c :: rest)) = Ret (ret, st', l') -> vlen l' = vlen (b :: l)).
  { intros st2 c. destruct (Removal.scan (i + 1) l st2 a) as [[[r s] t] |] eqn:E; [| done].
    cbn [obind]. intros [= <- <- <-]. apply IH in E. rewrite !vlen_cons. lia. }
  destruct (cmp (istart a) (istart b)), (cmp (iend a) (iend b)); repeat case_match; intros E;
    try (by eapply Hk, E); try (by injection E as <- <- <-; rewrite ?vlen_cons).
  unfold Removal.do_push_range in E. destruct (Removal.push_range st); [done |].
  cbn [obind rassert Removal.can_push_range] in E.
  case_match; injection E as <- <- <-; by rewrite ?vlen_cons.
Qed.

(** [apply] when nothing is pushed: the covered run [m] is drained. *)
Lemma removal_apply_drain p m q (can : bool) :
  Removal.apply (Removal.mk (vlen p, vlen p + vlen m) None can) (p ++ m ++ q)
  = Ret (Ok (vlen p), p ++ q : list (Interval T)).
Proof.
  unfold Removal.apply. cbn [Removal.replace_range Removal.push_range]. simpl fst. simpl snd.
  pose proof (vlen_nonneg p). pose proof (vlen_nonneg m).
  replace (checked_sub _ _) with (Some (vlen m)) by (unfold checked_sub; zcases; f_equal; lia).
  destruct m as [| x [| y m]].
  - done.
  - simpl app. change (vlen [x] =? 0) with false. change (vlen [x] =? 1) with true. cbv iota.
    by rewrite vremove_app.
  - assert (2 <= vlen (x :: y :: m)) by (rewrite !vlen_cons; pose proof (vlen_nonneg m); lia).
    zcases. by rewrite vdrain_app.
Qed.

Lemma remove_post_ok l p q a limit :
  ref a l = p ++ q -> Forall (fun b => val (iend b) <= val (iend a)) p ->
  (forall n, limit = Some n -> vlen l <= n -> vlen (p ++ q) <= n) ->
  remove_post l a limit (Ok (vlen p)) (p ++ q).
Proof.
  intros Hr Hp Hn. pose proof (vlen_nonneg p). pose proof (vlen_nonneg q).
  split; [| done]. intros j [= <-]. rewrite take_vlen_app.
  split_and!; [done | lia | rewrite vlen_app; lia | done | done].
Qed.

Lemma remove_spec lb pre suf a limit :
  srt lb (pre ++ suf) -> ok a -> vlen (pre ++ suf) <= USIZE_MAX ->
  Forall (fun b => val (iend b) < val (istart a)) pre ->
  exists res l', remove (pre ++ suf) a (vlen pre) limit = Ret (res, l')
    /\ remove_post (pre ++ suf) a limit res l'.
Proof.
  intros Hl Ha Hlen Hpre. pose proof (vlen_nonneg pre). rewrite vlen_app in Hlen.
  assert (Hsuf := proj2 (proj1 (sorted_from_app _ _ _) Hl)).
  assert (Hpast : forall k, ref a (pre ++ k) = pre ++ ref a k) by (intros; by apply ref_remove_past).
  assert (Hends : forall p, Forall (fun b => val (iend b) <= val (iend a)) p ->
    Forall (fun b => val (iend b) <= val (iend a)) (pre ++ p)).
  { intros p Hp. apply Forall_app; split; [| done]. destruct Ha as (_ & _ & ?).
    eapply Forall_impl; [exact Hpre |]. simpl. lia. }
  unfold remove. rewrite drop_vlen_app, take_vlen_app. set (can := match limit with Some _ => _ | None => _ end).
  destruct (removal_scan_spec suf (vlen pre) a _ can ltac:(lia) Hlen Ha Hsuf) as (out & Hout & Hp).
  rewrite Hout. cbn [obind]. destruct Hp as [p q Hr Hp | r iv Hc Hv | p iv q Hc Hr Hp | r Hr | p m q Hr Hp].
  - apply removal_scan_length in Hout.
    do 2 eexists; split; [done |]. rewrite app_assoc, <- vlen_app. apply remove_post_ok.
    + by rewrite Hpast, Hr, app_assoc.
    + by apply Hends.
    + intros n _. rewrite <- app_assoc, !vlen_app in *. lia.
  - unfold Removal.apply. cbn [Removal.push_range Removal.can_push_range]. rewrite Hc.
    do 2 eexists; split; [done |]. split; [done |]. intros e [= <-]. split_and!; [done | done |].
    rewrite Hpast, !vlen_app in *. unfold can in Hc. destruct limit as [n |]; [| done].
    exists n. apply Z.ltb_ge in Hc. rewrite vlen_app in Hc. split_and!; [done | lia | lia].
  - apply removal_scan_length in Hout.
    unfold Removal.apply. cbn [Removal.push_range Removal.can_push_range Removal.replace_range fst].
    rewrite Hc, app_assoc, <- vlen_app, vinsert_app. do 2 eexists; split; [done |].
    apply remove_post_ok; [by rewrite Hpast, Hr, app_assoc | by apply Hends |].
    intros n -> _. unfold can in Hc. apply Z.ltb_lt in Hc. rewrite !vlen_app, ?vlen_cons in *. lia.
  - apply removal_scan_length in Hout.
    unfold Removal.apply. cbn [Removal.push_range Removal.can_push_range Removal.replace_range fst snd].
    replace (checked_sub r.2 r.1) with (@None Z) by (unfold checked_sub; by zcases).
    do 2 eexists; split; [done |]. apply (remove_post_ok _ [] (pre ++ ref a suf)); [by rewrite Hpast | done |].
    intros n _. rewrite app_nil_l, !vlen_app. lia.
  - apply removal_scan_length in Hout.
    rewrite app_assoc, <- vlen_app, removal_apply_drain. do 2 eexists; split; [done |].
    apply remove_post_ok; [by rewrite Hpast, Hr, app_assoc | by apply Hends |].
    intros n _. rewrite !vlen_app in *. pose proof (vlen_nonneg m). lia.
Qed.
End Remove.
