(* ===== verification/IntervalIntersect.v ===== *)
(** * Intersecting two sorted lists of intervals

    [interval_set/intersection.rs]: the lazy iterator [Intersection] and the
    in-place [apply].  Both are proved to compute the intersection, in the
    canonical form of the set, so they agree. *)
From S2P Require Import Prelude Interval IntervalInsert.

(** ** The iterator *)
Module Intersection.
Section Ops.
Context {T : Type} `{IntervalBound T}.

Record t := mk {
  set_a : list (Interval T);
  set_b : list (Interval T);
  interval_a : option (Interval T);
  interval_b : option (Interval T)
}.

Definition new (a b : list (Interval T)) : t := mk (tail a) (tail b) (head a) (head b).

(** The [loop] of [next]; every turn that does not return consumes an interval
    of one of the two sets. *)
Fixpoint next_loop (fuel : nat) (set_a set_b : list (Interval T)) (a b : Interval T)
    : outcome (option (Interval T) * t) :=
  match fuel with
  | O => Panic
  | S fuel =>
      let advance_set_a (b : Interval T) := mk (tail set_a) set_b (head set_a) (Some b) in
      let advance_set_b (a : Interval T) := mk set_a (tail set_b) (Some a) (head set_b) in
      let advance_both := mk (tail set_a) (tail set_b) (head set_a) (head set_b) in
      let next_b :=
        match set_b with
        | b :: set_b => next_loop fuel set_a set_b a b
        | [] => Ret (None, mk set_a set_b (Some a) (Some b))
        end in
      let next_a :=
        match set_a with
        | a :: set_a => next_loop fuel set_a set_b a b
        | [] => Ret (None, mk set_a set_b (Some a) (Some b))
        end in
      match cmp (istart a) (istart b), cmp (iend a) (iend b) with
      | Eq, Lt | Gt, Lt =>
          Ret (Some a, advance_set_a (mk_iv (Interval.end_exclusive a) (iend b)))
      | Eq, Gt | Lt, Gt =>
          Ret (Some b, advance_set_b (mk_iv (Interval.end_exclusive b) (iend a)))
      | Gt, Eq | Eq, Eq => Ret (Some a, advance_both)
      | Lt, Eq => Ret (Some b, advance_both)
      | Gt, Gt =>
          if le_b (istart a) (iend b) then
            let item := mk_iv (istart a) (iend b) in
            Ret (Some item, advance_set_b (mk_iv (Interval.end_exclusive item) (iend a)))
          else next_b
      | Lt, Lt =>
          if le_b (istart b) (iend a) then
            let item := mk_iv (istart b) (iend a) in
            Ret (Some item, advance_set_a (mk_iv (Interval.end_exclusive item) (iend b)))
          else next_a
      end
  end.

Definition next (self : t) : outcome (option (Interval T) * t) :=
  match interval_a self, interval_b self with
  | Some a, Some b =>
      next_loop (S (length (set_a self) + length (set_b self))) (set_a self) (set_b self) a b
  | _, _ => Ret (None, self)
  end.

(** [self.collect()]. *)
Fixpoint collect (fuel : nat) (self : t) : outcome (list (Interval T)) :=
  match fuel with
  | O => Panic
  | S fuel =>
      let! '(item, self) := next self in
      match item with
      | Some i => let! l := collect fuel self in Ret (i :: l)
      | None => Ret []
      end
  end.

(** ** The in-place intersection *)

(** The [while let] of [apply] at the current interval of [set_b]. *)
Fixpoint apply_loop (fuel : nat) (set_a : list (Interval T)) (a_index : Z) (b : Interval T)
    (set_b : list (Interval T)) : outcome (list (Interval T)) :=
  match fuel with
  | O => Panic
  | S fuel =>
      match vget set_a a_index with
      | None => Ret set_a
      | Some a =>
          let advance_set_b (set_a : list (Interval T)) (a_index : Z) :=
            match set_b with
            | b :: set_b => apply_loop fuel set_a a_index b set_b
            | [] => Ret (take (Z.to_nat a_index) set_a)
            end in
          let split_off_a :=
            let new_interval_a := mk_iv (step_up_saturating (Interval.end_exclusive b)) (iend a) in
            if Interval.is_valid new_interval_a then vinsert set_a (a_index + 1) new_interval_a
            else Ret set_a in
          match cmp (istart a) (istart b), cmp (iend a) (iend b) with
          | Eq, Lt | Gt, Lt => apply_loop fuel set_a (a_index + 1) b set_b
          | Eq, Gt | Lt, Gt =>
              let! set_a := split_off_a in
              let! set_a := vset set_a a_index b in
              advance_set_b set_a (a_index + 1)
          | Gt, Eq | Eq, Eq => advance_set_b set_a (a_index + 1)
          | Lt, Eq =>
              let! set_a := vset set_a a_index (mk_iv (istart b) (iend a)) in
              advance_set_b set_a (a_index + 1)
          | Gt, Gt =>
              if le_b (istart a) (iend b) then
                let! set_a := split_off_a in
                let! set_a := vset set_a a_index (mk_iv (istart a) (iend b)) in
                advance_set_b set_a (a_index + 1)
              else advance_set_b set_a a_index
          | Lt, Lt =>
              if le_b (istart b) (iend a) then
                let! set_a := vset set_a a_index (mk_iv (istart b) (iend a)) in
                apply_loop fuel set_a (a_index + 1) b set_b
              else apply_loop fuel (vremove set_a a_index) a_index b set_b
          end
      end
  end.

Definition apply (set_a set_b : list (Interval T)) : outcome (list (Interval T)) :=
  match set_a, set_b with
  | [], _ => Ret set_a
  | _, [] => Ret []
  | _, b :: set_b => apply_loop (S (length set_a + length set_b)) set_a 0 b set_b
  end.

End Ops.
End Intersection.
Arguments Intersection.t T : clear implicits.

(** ** Correctness *)
Section Correct.
Context {T : Type} {B : IntervalBound T} {dom : T -> Prop} {val : T -> Z} {lo hi : Z}.
Context `{HB : !IntervalBoundSpec B dom val lo hi}.

Abbreviation ok := (iv_ok dom val).
Abbreviation srt := (sorted_from dom val).

(** [r] is the intersection of [a] and [b], sorted from [lb]. *)
Definition inter_ok (lb : Z) (a b r : list (Interval T)) : Prop :=
  srt lb r /\ forall x, mem val r x <-> mem val a x /\ mem val b x.

Lemma inter_nil lb a : inter_ok lb a [] [].
Proof. split; [done |]. intros x. rewrite mem_nil. tauto. Qed.

(** Emitting [c] as the first interval of the intersection. *)
Lemma inter_emit lb a b c a2 b2 r :
  ok c -> lb <= val (istart c) -> inter_ok (val (iend c) + 2) a2 b2 r ->
  (forall x, mem val a x /\ mem val b x <-> in_iv val c x \/ (mem val a2 x /\ mem val b2 x)) ->
  inter_ok lb a b (c :: r).
Proof.
  intros Hc Hlb [Hr Hm] Hx. split; [by apply sorted_from_cons |].
  intros x. by rewrite mem_cons, Hm, Hx.
Qed.

Lemma inter_skip lb a b a2 b2 r :
  inter_ok lb a2 b2 r ->
  (forall x, mem val a x /\ mem val b x <-> mem val a2 x /\ mem val b2 x) -> inter_ok lb a b r.
Proof. intros [Hr Hm] Hx. split; [done |]. intros x. by rewrite Hm, Hx. Qed.

(** Decide membership in lists whose heads are known intervals. *)
Ltac inter_mem Ha Hb :=
  let x := fresh "x" in
  intros x; rewrite ?mem_cons;
  let H1 := fresh in let H2 := fresh in
  pose proof (mem_sorted_from _ _ x Ha) as H1; pose proof (mem_sorted_from _ _ x Hb) as H2;
  unfold in_iv; cbn [istart iend]; intuition lia.

(** The part of [a] after [b] and a gap, as [split_off_a] leaves it. *)
Lemma split_spec pre a suf b bs :
  ok a -> ok b -> srt (val (iend a) + 2) suf -> srt (val (iend b) + 2) bs ->
  val (iend b) < val (iend a) ->
  let n := mk_iv (step_up_saturating (Interval.end_exclusive b)) (iend a) in
  exists s2, (if Interval.is_valid n then vinsert (pre ++ a :: suf) (vlen pre + 1) n
              else Ret (pre ++ a :: suf)) = Ret (pre ++ a :: s2)
    /\ (length s2 <= S (length suf))%nat
    /\ (bs <> [] -> srt (val (iend b) + 2) s2
        /\ forall x, mem val s2 x <-> mem val suf x \/ (val (iend b) + 2 <= x <= val (iend a))).
Proof.
  intros Ha Hb Hsuf Hbs Hlt n. pose proof (iv_bounds a Ha). pose proof (iv_bounds b Hb).
  destruct (end_exclusive_val b Hb) as [Hd Hv]. destruct (step_up_saturating_val _ Hd) as [Hd2 Hv2].
  pose proof Ha as (_ & Hea & _).
  assert (Hn : bs <> [] -> val (istart n) = val (iend b) + 2).
  { destruct bs as [| c bs]; [done |]. intros _. destruct Hbs as (Hc & ? & _).
    pose proof (iv_bounds c Hc). unfold n. simpl. lia. }
  pose proof (is_valid_ok (val := val) n Hd2 Hea) as Hval.
  destruct (Interval.is_valid n).
  - exists (n :: suf). split_and!; [| done |].
    + replace (vlen pre + 1) with (vlen (pre ++ [a])) by (rewrite vlen_app; done).
      rewrite cons_middle, app_assoc, vinsert_app. by rewrite <- app_assoc.
    + intros Hne. specialize (Hn Hne). destruct Hval as [Hval _]. specialize (Hval eq_refl). split.
      * apply sorted_from_cons; [done | lia | done].
      * intros x. rewrite mem_cons. unfold in_iv. rewrite Hn. simpl. tauto.
  - exists suf. split_and!; [done | lia |]. intros Hne. specialize (Hn Hne).
    assert (val (iend a) < val (iend b) + 2).
    { apply Z.nle_gt. intros Hle. destruct Hval as [_ Hval].
      discriminate Hval. split_and!; [done | done |]. rewrite Hn. simpl. lia. }
    split; [eapply sorted_from_weaken; [exact Hsuf | lia] |]. intros x. intuition lia.
Qed.

(** What the loop promises at every state it can reach. *)
Definition loop_ok (fuel : nat) : Prop := forall pre suf b bs lb lbb,
  srt lb suf -> srt lbb (b :: bs) -> (length suf + length bs < fuel)%nat ->
  exists r, Intersection.apply_loop fuel (pre ++ suf) (vlen pre) b bs = Ret (pre ++ r)
    /\ inter_ok lb suf (b :: bs) r.

(** [advance_set_b!]: the rest of [set_b], or the truncation at its end. *)
Lemma advance_b_spec fuel pre suf bs lb lbb :
  loop_ok fuel -> (bs <> [] -> srt lb suf) -> srt lbb bs -> (length suf + length bs < S fuel)%nat ->
  exists r, match bs with
            | b :: bs => Intersection.apply_loop fuel (pre ++ suf) (vlen pre) b bs
            | [] => Ret (take (Z.to_nat (vlen pre)) (pre ++ suf))
            end = Ret (pre ++ r) /\ inter_ok lb suf bs r.
Proof.
  intros IH Hsuf Hbs Hf. destruct bs as [| b bs].
  - exists []. rewrite take_vlen_app, app_nil_r. split; [done | apply inter_nil].
  - simpl in Hf. eapply IH; [by apply Hsuf | exact Hbs | lia].
Qed.

(** Replacing the current interval [a] by [c] and advancing both sets. *)
Lemma emit_advance fuel pre a c s2 b bs suf lb :
  loop_ok fuel -> ok c -> lb <= val (istart c) -> srt (val (iend b) + 2) bs ->
  val (iend c) = val (iend b) ->
  (bs <> [] -> srt (val (iend c) + 2) s2) -> (length s2 + length bs < S fuel)%nat ->
  (forall x, mem val (a :: suf) x /\ mem val (b :: bs) x
             <-> in_iv val c x \/ (mem val s2 x /\ mem val bs x)) ->
  exists r,
    (let! set_a := vset (pre ++ a :: s2) (vlen pre) c in
     match bs with
     | b :: bs => Intersection.apply_loop fuel set_a (vlen pre + 1) b bs
     | [] => Ret (take (Z.to_nat (vlen pre + 1)) set_a)
     end) = Ret (pre ++ r) /\ inter_ok lb (a :: suf) (b :: bs) r.
Proof.
  intros IH Hc Hlb Hbs Hend Hs2 Hf Hx. rewrite vset_app. cbn [obind].
  replace (vlen pre + 1) with (vlen (pre ++ [c])) by (rewrite vlen_app; done).
  replace (pre ++ c :: s2) with ((pre ++ [c]) ++ s2) by (by rewrite <- app_assoc).
  destruct (advance_b_spec fuel (pre ++ [c]) s2 bs _ _ IH Hs2 Hbs Hf) as (r & -> & Hr).
  exists (c :: r). rewrite <- app_assoc. split; [done |]. by eapply inter_emit.
Qed.

(** One turn of the loop at the intervals [a] and [b]. *)
Section Turn.
Context (fuel : nat) (pre : list (Interval T)) (a b : Interval T) (suf bs : list (Interval T)) (lb : Z).
Context (IH : loop_ok fuel) (Ha : ok a) (Hb : ok b) (Hlb : lb <= val (istart a)).
Context (Hsuf : srt (val (iend a) + 2) suf) (Hbs : srt (val (iend b) + 2) bs).
Context (Hf : (S (length suf) + length bs < S fuel)%nat).

(** The common part [c] of [a] and [b]. *)
Definition common (c : Interval T) (e : Z) : Prop :=
  ok c /\ val (istart c) = Z.max (val (istart a)) (val (istart b)) /\ val (iend c) = e.

Definition advance (set_a : list (Interval T)) (a_index : Z) : outcome (list (Interval T)) :=
  match bs with
  | b :: bs => Intersection.apply_loop fuel set_a a_index b bs
  | [] => Ret (take (Z.to_nat a_index) set_a)
  end.

Lemma turn_next c :
  common c (val (iend a)) -> val (iend a) < val (iend b) ->
  exists r, Intersection.apply_loop fuel (pre ++ c :: suf) (vlen pre + 1) b bs = Ret (pre ++ r)
    /\ inter_ok lb (a :: suf) (b :: bs) r.
Proof.
  intros (Hc & Hcs & Hce) Hlt. pose proof (iv_bounds b Hb).
  replace (vlen pre + 1) with (vlen (pre ++ [c])) by (rewrite vlen_app; done).
  replace (pre ++ c :: suf) with ((pre ++ [c]) ++ suf) by (by rewrite <- app_assoc).
  destruct (IH (pre ++ [c]) suf b bs (val (iend c) + 2) (val (istart b))) as (r & -> & Hr);
    [by rewrite Hce | by apply sorted_from_cons | lia |].
  exists (c :: r). rewrite <- app_assoc. split; [done |].
  eapply inter_emit; [done | lia | done |]. inter_mem Hsuf Hbs.
Qed.

Lemma turn_both c :
  common c (val (iend b)) -> val (iend b) = val (iend a) ->
  exists r, (let! set_a := vset (pre ++ a :: suf) (vlen pre) c in advance set_a (vlen pre + 1))
            = Ret (pre ++ r) /\ inter_ok lb (a :: suf) (b :: bs) r.
Proof.
  intros (Hc & Hcs & Hce) Heq. apply emit_advance; try done; try lia.
  - intros _. eapply sorted_from_weaken; [exact Hsuf | lia].
  - inter_mem Hsuf Hbs.
Qed.

Lemma turn_cut c :
  common c (val (iend b)) -> val (iend b) < val (iend a) ->
  let n := mk_iv (step_up_saturating (Interval.end_exclusive b)) (iend a) in
  exists r,
    (let! set_a := (if Interval.is_valid n then vinsert (pre ++ a :: suf) (vlen pre + 1) n
                    else Ret (pre ++ a :: suf)) in
     let! set_a := vset set_a (vlen pre) c in advance set_a (vlen pre + 1))
    = Ret (pre ++ r) /\ inter_ok lb (a :: suf) (b :: bs) r.
Proof.
  intros (Hc & Hcs & Hce) Hlt. cbv zeta.
  destruct (split_spec pre a suf b bs Ha Hb Hsuf Hbs Hlt) as (s2 & -> & Hlen & Hs2). cbn [obind].
  apply emit_advance; try done; try lia.
  - rewrite Hce. intros Hne. apply (Hs2 Hne).
  - pose proof (iv_bounds c Hc).
    intros x. pose proof (mem_sorted_from _ _ x Hsuf). pose proof (mem_sorted_from _ _ x Hbs).
    destruct bs as [| b2 bs2].
    + rewrite !mem_cons, mem_nil. unfold in_iv. intuition lia.
    + destruct Hs2 as [_ Hs2]; [done |]. rewrite Hs2, (mem_cons a), (mem_cons b). unfold in_iv.
      intuition lia.
Qed.

Lemma turn_skip_b :
  val (iend b) < val (istart a) ->
  exists r, advance (pre ++ a :: suf) (vlen pre) = Ret (pre ++ r)
            /\ inter_ok lb (a :: suf) (b :: bs) r.
Proof.
  intros Hlt. pose proof (iv_bounds a Ha). destruct (advance_b_spec fuel pre (a :: suf) bs lb (val (iend b) + 2) IH) as (r & Hr & Hi);
    [intros _; by apply sorted_from_cons | exact Hbs | simpl; lia |].
  exists r. split; [exact Hr |]. eapply inter_skip; [exact Hi |]. inter_mem Hsuf Hbs.
Qed.

Lemma turn_skip_a :
  val (iend a) < val (istart b) ->
  exists r, Intersection.apply_loop fuel (vremove (pre ++ a :: suf) (vlen pre)) (vlen pre) b bs
            = Ret (pre ++ r) /\ inter_ok lb (a :: suf) (b :: bs) r.
Proof.
  intros Hlt. rewrite vremove_app. pose proof (iv_bounds a Ha).
  destruct (IH pre suf b bs lb (val (istart b))) as (r & Hr & Hi);
    [eapply sorted_from_weaken; [exact Hsuf | lia] | by apply sorted_from_cons | lia |].
  exists r. split; [exact Hr |]. eapply inter_skip; [exact Hi |]. pose proof (iv_bounds b Hb).
  inter_mem Hsuf Hbs.
Qed.
End Turn.

Lemma apply_loop_spec fuel : loop_ok fuel.
Proof.
  induction fuel as [| fuel IH]; intros pre suf b bs lb lbb Hsuf Hb Hf; [lia |].
  destruct suf as [| a suf].
  { exists []. cbn [Intersection.apply_loop]. rewrite app_nil_r, vget_end by done.
    split; [done |]. split; [done |]. intros x. rewrite mem_nil. tauto. }
  destruct Hsuf as (Ha & Hlb & Hsuf), Hb as (Hb & _ & Hbs).
  pose proof Ha as (Hsa & Hea & Hla). pose proof Hb as (Hsb & Heb & Hlb').
  cbn [Intersection.apply_loop]. rewrite vget_app. cbv zeta. simpl in Hf.
  assert (Hself : vset (pre ++ a :: suf) (vlen pre) a = Ret (pre ++ a :: suf)) by apply vset_app.
  pose proof (turn_both fuel pre a b suf bs lb IH Hlb Hsuf Hbs Hf a) as Hboth.
  rewrite Hself in Hboth. cbn [obind] in Hboth. unfold advance, common, iv_ok in Hboth.
  rewrite ?le_b_val by done.
  bounds_cases a b; try (apply Hboth; [split_and!; done || lia | lia]);
    try (apply turn_next; [done.. | split_and!; done || lia | done]);
    try (apply turn_cut; [done.. | split_and!; done || lia | done]).
  - apply turn_both; [done.. | | lia]. unfold common, iv_ok; simpl; split_and!; done || lia.
  - destruct (Z.leb_spec (val (istart b)) (val (iend a))).
    + rewrite vset_app. apply turn_next; [done.. | | done]. unfold common, iv_ok; simpl; split_and!; done || lia.
    + by apply turn_skip_a.
  - destruct (Z.leb_spec (val (istart a)) (val (iend b))).
    + apply turn_cut; [done.. | | done]. unfold common, iv_ok; simpl; split_and!; done || lia.
    + by apply turn_skip_b.
Qed.
End Correct.

(** ** The iterator *)
Section Iterator.
Context {T : Type} {B : IntervalBound T} {dom : T -> Prop} {val : T -> Z} {lo hi : Z}.
Context `{HB : !IntervalBoundSpec B dom val lo hi}.

Abbreviation ok := (iv_ok dom val).
Abbreviation srt := (sorted_from dom val).

(** The intervals of the two sets an iterator has still to look at. *)
Definition left_a (st : Intersection.t T) : list (Interval T) :=
  option_list (Intersection.interval_a st) ++ Intersection.set_a st.
Definition left_b (st : Intersection.t T) : list (Interval T) :=
  option_list (Intersection.interval_b st) ++ Intersection.set_b st.

Lemma head_tail {A} (l : list A) : option_list (head l) ++ tail l = l.
Proof. by destruct l. Qed.

(** A set without a current interval is used up. *)
Definition normal (st : Intersection.t T) : Prop :=
  (Intersection.interval_a st = None -> Intersection.set_a st = [])
  /\ (Intersection.interval_b st = None -> Intersection.set_b st = []).

Lemma head_None {A} (l : list A) : head l = None -> tail l = [].
Proof. by destruct l. Qed.

Definition both (a b : list (Interval T)) (x : Z) : Prop := mem val a x /\ mem val b x.

(** One item [c] taken off the intersection of [a] and [b]. *)
Record taken (a b : list (Interval T)) (c : Interval T) (st : Intersection.t T) : Prop := {
  taken_ok : ok c;
  taken_normal : normal st;
  taken_srt_a : exists lb, srt lb (left_a st);
  taken_srt_b : exists lb, srt lb (left_b st);
  taken_mem : forall x, both a b x <-> in_iv val c x \/ both (left_a st) (left_b st) x;
  taken_gap : forall x, both (left_a st) (left_b st) x -> val (iend c) + 2 <= x;
  taken_len : (length (left_a st) + length (left_b st) < length a + length b)%nat
}.

Section Turn.
Context (a b : Interval T) (sa sb : list (Interval T)) (Ha : ok a) (Hb : ok b).
Context (Hsa : srt (val (iend a) + 2) sa) (Hsb : srt (val (iend b) + 2) sb).

Lemma taken_both c :
  common (dom := dom) (val := val) a b c (val (iend a)) -> val (iend a) = val (iend b) ->
  taken (a :: sa) (b :: sb) c (Intersection.mk (tail sa) (tail sb) (head sa) (head sb)).
Proof.
  intros (Hc & Hs & He) Heq. split; unfold left_a, left_b; cbn; rewrite ?head_tail; eauto.
  - split; apply head_None.
  - intros x. unfold both. rewrite !mem_cons. pose proof (mem_sorted_from _ _ x Hsa).
    pose proof (mem_sorted_from _ _ x Hsb). unfold in_iv. intuition lia.
  - intros x [Hx _]. apply (mem_sorted_from _ _ x Hsa) in Hx. lia.
  - lia.
Qed.

Lemma taken_a c d :
  common (dom := dom) (val := val) a b c (val (iend a)) -> val (iend a) < val (iend b) ->
  dom d -> val d = val (iend a) + 1 ->
  taken (a :: sa) (b :: sb) c
    (Intersection.mk (tail sa) sb (head sa) (Some (mk_iv d (iend b)))).
Proof.
  intros (Hc & Hs & He) Hlt Hd Hv. pose proof Hb as (? & ? & ?).
  pose proof (iv_bounds c Hc).
  split; unfold left_a, left_b; cbn [Intersection.interval_a Intersection.interval_b
    Intersection.set_a Intersection.set_b option_list app]; rewrite ?head_tail; simpl length; eauto; try lia.
  - by split; [apply head_None |].
  - exists (val d). apply sorted_from_cons; [split_and!; simpl; done || lia | simpl; lia | done].
  - intros x. unfold both. simpl. rewrite !mem_cons. pose proof (mem_sorted_from _ _ x Hsa).
    pose proof (mem_sorted_from _ _ x Hsb). unfold in_iv. simpl. rewrite Hv. intuition lia.
  - intros x [Hx _]. apply (mem_sorted_from _ _ x Hsa) in Hx. lia.
Qed.

Lemma taken_b c d :
  common (dom := dom) (val := val) a b c (val (iend b)) -> val (iend b) < val (iend a) ->
  dom d -> val d = val (iend b) + 1 ->
  taken (a :: sa) (b :: sb) c
    (Intersection.mk sa (tail sb) (Some (mk_iv d (iend a))) (head sb)).
Proof.
  intros (Hc & Hs & He) Hlt Hd Hv. pose proof Ha as (? & ? & ?).
  pose proof (iv_bounds c Hc).
  split; unfold left_a, left_b; cbn [Intersection.interval_a Intersection.interval_b
    Intersection.set_a Intersection.set_b option_list app]; rewrite ?head_tail; simpl length; eauto; try lia.
  - by split; [| apply head_None].
  - exists (val d). apply sorted_from_cons; [split_and!; simpl; done || lia | simpl; lia | done].
  - intros x. unfold both. simpl. rewrite !mem_cons. pose proof (mem_sorted_from _ _ x Hsa).
    pose proof (mem_sorted_from _ _ x Hsb). unfold in_iv. simpl. rewrite Hv. intuition lia.
  - intros x [_ Hx]. apply (mem_sorted_from _ _ x Hsb) in Hx. lia.
Qed.
End Turn.

(** Skipping an interval that meets nothing of the other set. *)
Lemma taken_weaken a b a' b' item (st : Intersection.t T) :
  (forall x, both a b x <-> both a' b' x) -> (length a' + length b' <= length a + length b)%nat ->
  match item with Some c => taken a' b' c st | None => forall x, ~ both a' b' x end ->
  match item with Some c => taken a b c st | None => forall x, ~ both a b x end.
Proof.
  intros Hx Hlen. destruct item; [| intros Hn x; rewrite Hx; apply Hn].
  intros []. split; try done; [| lia]. intros x. by rewrite Hx.
Qed.

Ltac commonize := unfold common, iv_ok; simpl; split_and!; done || lia.

Lemma next_loop_spec fuel sa sb a b lba lbb :
  srt lba (a :: sa) -> srt lbb (b :: sb) -> (length sa + length sb < fuel)%nat ->
  exists item st, Intersection.next_loop fuel sa sb a b = Ret (item, st)
    /\ match item with
       | Some c => taken (a :: sa) (b :: sb) c st
       | None => forall x, ~ both (a :: sa) (b :: sb) x
       end.
Proof.
  revert sa sb a b lba lbb. induction fuel as [| fuel IH]; intros sa sb a b lba lbb Hla Hlb Hf; [lia |].
  pose proof Hla as (Ha & _ & Hsa). pose proof Hlb as (Hb & _ & Hsb).
  pose proof (iv_bounds a Ha). pose proof (iv_bounds b Hb).
  pose proof Ha as (? & ? & ?). pose proof Hb as (? & ? & ?).
  destruct (end_exclusive_val a Ha) as [Hda Hva]. destruct (end_exclusive_val b Hb) as [Hdb Hvb].
  cbn [Intersection.next_loop]. cbv zeta. rewrite !le_b_val by done.
  bounds_cases a b;
    try (do 2 eexists; split; [done |]; apply taken_both; [done.. | commonize | lia]);
    try (do 2 eexists; split; [done |]; apply taken_a; [done.. | commonize | done | done | lia]);
    try (do 2 eexists; split; [done |]; apply taken_b; [done.. | commonize | done | done | lia]).
  - destruct (Z.leb_spec (val (istart b)) (val (iend a))).
    + do 2 eexists; split; [done |]. apply taken_a; [done.. | commonize | done | done |].
      unfold Interval.end_exclusive in *. simpl. lia.
    + destruct sa as [| a2 sa].
      * do 2 eexists; split; [done |]. intros x [Hx Hy]. apply mem_cons in Hx as [Hx | Hx%mem_nil]; [| done].
        apply (mem_sorted_from (dom := dom) (val (istart b))) in Hy; [unfold in_iv in Hx; lia |].
        by apply sorted_from_cons.
      * simpl in Hf. destruct (IH sa sb a2 b _ _ Hsa Hlb) as (item & st & -> & Hi); [lia |].
        do 2 eexists; split; [done |]. eapply taken_weaken; [| | exact Hi]; [| simpl; lia].
        intros x. unfold both. rewrite (mem_cons a), (mem_cons b).
        pose proof (mem_sorted_from _ _ x Hsb). unfold in_iv. intuition lia.
  - destruct (Z.leb_spec (val (istart a)) (val (iend b))).
    + do 2 eexists; split; [done |]. apply taken_b; [done.. | commonize | done | done |].
      unfold Interval.end_exclusive in *. simpl. lia.
    + destruct sb as [| b2 sb].
      * do 2 eexists; split; [done |]. intros x [Hy Hx]. apply mem_cons in Hx as [Hx | Hx%mem_nil]; [| done].
        apply (mem_sorted_from (dom := dom) (val (istart a))) in Hy; [unfold in_iv in Hx; lia |].
        by apply sorted_from_cons.
      * simpl in Hf. destruct (IH sa sb a b2 _ _ Hla Hsb) as (item & st & -> & Hi); [lia |].
        do 2 eexists; split; [done |]. eapply taken_weaken; [| | exact Hi]; [| simpl; lia].
        intros x. unfold both. rewrite (mem_cons b), (mem_cons a).
        pose proof (mem_sorted_from _ _ x Hsa). unfold in_iv. intuition lia.
Qed.

(** [collect] ends, and yields the intersection in canonical form. *)
Lemma collect_spec fuel st lba lbb :
  srt lba (left_a st) -> srt lbb (left_b st) -> normal st ->
  (length (left_a st) + length (left_b st) < fuel)%nat ->
  exists r lb, Intersection.collect fuel st = Ret r
    /\ inter_ok (dom := dom) (val := val) lb (left_a st) (left_b st) r.
Proof.
  revert st lba lbb. induction fuel as [| fuel IH]; intros st lba lbb Ha Hb [Hna Hnb] Hf; [lia |].
  cbn [Intersection.collect]. unfold Intersection.next.
  assert (Hnil : left_a st = [] \/ left_b st = [] -> inter_ok (dom := dom) (val := val) 0
    (left_a st) (left_b st) []).
  { intros E. split; [done |]. intros x. rewrite mem_nil.
    destruct E as [-> | ->]; rewrite mem_nil; tauto. }
  destruct st as [sa sb [a |] [b |]]; cbn [Intersection.interval_a Intersection.interval_b Intersection.set_a Intersection.set_b] in *;
    try (exists [], 0; split; [done |]; apply Hnil; unfold left_a, left_b; simpl;
         rewrite ?Hna, ?Hnb by done; by auto).
  destruct (next_loop_spec (S (length sa + length sb)) sa sb a b _ _ Ha Hb)
    as (item & st & -> & Hi); [lia |]. cbn [obind]. destruct item as [c |].
  - destruct Hi as [Hok Hnorm [la Hla] [lb Hlb] Hmem Hgap Hlen].
    destruct (IH st _ _ Hla Hlb Hnorm) as (r & lr & -> & Hr & Hrm).
    { change (left_a (Intersection.mk sa sb (Some a) (Some b))) with (a :: sa) in Hf.
      change (left_b (Intersection.mk sa sb (Some a) (Some b))) with (b :: sb) in Hf. lia. }
    exists (c :: r), (val (istart c)). split; [done |]. eapply inter_emit; [done | lia | | exact Hmem].
    split; [| done]. eapply sorted_from_raise; [exact Hr |]. intros x Hx. by apply Hgap, Hrm.
  - exists [], 0. split; [done |]. split; [done |]. intros x. rewrite mem_nil.
    specialize (Hi x). unfold both in Hi. tauto.
Qed.
End Iterator.
