(* ===== verification/IntervalSet.v ===== *)
(** * Interval sets

    [interval_set/mod.rs]: [IntervalSet], the set of numbers kept as a sorted
    queue of disjoint intervals that ack tracking, packet number tracking and
    the stream reassembly statistics are built on.  The operations of the
    struct are composed from the vector algorithms of [IntervalInsert],
    [IntervalRemove] and [IntervalIntersect]; the theorems state what each does
    to the set of values. *)
From S2P Require Import Prelude VarInt PacketNumber Interval.
From S2P Require Import IntervalInsert IntervalRemove IntervalIntersect.

(** ** Definitions *)
Record IntervalSet (T : Type) := mk_set { limit : option Z; intervals : list (Interval T) }.
Arguments mk_set {T} limit intervals.
Arguments limit {T} i.
Arguments intervals {T} i.

Module IntervalSetOps.
Section Ops.
Context {T : Type} `{IntervalBound T}.

Definition new : IntervalSet T := mk_set None [].
Definition set_limit (self : IntervalSet T) (limit : Z) : IntervalSet T :=
  mk_set (Some limit) (intervals self).
Definition with_limit (limit : Z) : IntervalSet T := set_limit new limit.
Definition remove_limit (self : IntervalSet T) : IntervalSet T := mk_set None (intervals self).
Definition interval_len (self : IntervalSet T) : Z := vlen (intervals self).
Definition clear (self : IntervalSet T) : IntervalSet T := mk_set (limit self) [].

Definition pop_min (self : IntervalSet T) : option (Interval T) * IntervalSet T :=
  match intervals self with
  | [] => (None, self)
  | i :: l => (Some i, mk_set (limit self) l)
  end.

(** [count]: the sum of the lengths, which overflows beyond [usize::MAX]. *)
Fixpoint sum_len (l : list (Interval T)) (acc : Z) : outcome Z :=
  match l with
  | [] => Ret acc
  | i :: l => let! n := Interval.len i in let! acc := add_c 64 acc n in sum_len l acc
  end.
Definition count (self : IntervalSet T) : outcome Z := sum_len (intervals self) 0.

Definition is_empty (self : IntervalSet T) : bool :=
  match intervals self with [] => true | _ => false end.

Definition min_value (self : IntervalSet T) : option T :=
  match intervals self with [] => None | i :: _ => Some (istart i) end.
Definition max_value (self : IntervalSet T) : option T :=
  match last (intervals self) with None => None | Some i => Some (iend i) end.

(** The [while size > 1] loop of [binary_search_with]; every turn at least
    halves [size], so its initial value is enough fuel. *)
Fixpoint search_loop {V} (fuel : nat) (l : list (Interval T)) (value : T) (base size : Z)
    (on_equal on_greater on_less : Z -> V) : outcome V :=
  let finish :=
    let! subject := vindex l base in
    Ret (match Interval.partial_cmp subject value with
         | Eq => on_equal base
         | Gt => on_greater base
         | Lt => on_less base
         end) in
  match fuel with
  | O => finish
  | S fuel =>
      if 1 <? size then
        let half := size / 2 in
        let mid := base + half in
        let! subject := vindex l mid in
        match Interval.partial_cmp subject value with
        | Eq => Ret (on_equal mid)
        | Gt => search_loop fuel l value base (size - half) on_equal on_greater on_less
        | Lt => search_loop fuel l value mid (size - half) on_equal on_greater on_less
        end
      else finish
  end.

Definition binary_search_with {V} (self : IntervalSet T) (value : T)
    (on_equal on_greater on_less : Z -> V) : outcome V :=
  let size := vlen (intervals self) in
  if size =? 0 then Ret (on_greater 0)
  else search_loop (length (intervals self)) (intervals self) value 0 size
         on_equal on_greater on_less.

Definition contains (self : IntervalSet T) (value : T) : outcome bool :=
  binary_search_with self value (fun _ => true) (fun _ => false) (fun _ => false).

Definition index_for (self : IntervalSet T) (interval : Interval T) : outcome Z :=
  if interval_len self <? 16 then Ret 0
  else binary_search_with self (istart interval) id id id.

Definition insert (self : IntervalSet T) (start end_ : Bound T)
    : outcome (result bool IntervalSetError * IntervalSet T) :=
  match Interval.from_range_bounds start end_ with
  | Err e => Ret (Err e, self)
  | Ok interval =>
      if is_empty self then Ret (Ok true, mk_set (limit self) [interval]) else
      let! index := index_for self interval in
      let! '(res, l) := IntervalInsert.insert (intervals self) interval index (limit self) in
      Ret (let? '(_, modified) := res in Ok modified, mk_set (limit self) l)
  end.

Definition insert_front (self : IntervalSet T) (start end_ : Bound T)
    : outcome (result bool IntervalSetError * IntervalSet T) :=
  match Interval.from_range_bounds start end_ with
  | Err e => Ret (Err e, self)
  | Ok interval =>
      if is_empty self then Ret (Ok true, mk_set (limit self) [interval]) else
      let! '(res, l) := IntervalInsert.insert (intervals self) interval 0 (limit self) in
      Ret (let? '(_, modified) := res in Ok modified, mk_set (limit self) l)
  end.

Definition insert_value (self : IntervalSet T) (value : T)
    : outcome (result bool IntervalSetError * IntervalSet T) :=
  insert self (Included value) (Included value).

Definition remove (self : IntervalSet T) (start end_ : Bound T)
    : outcome (result unit IntervalSetError * IntervalSet T) :=
  match Interval.from_range_bounds start end_ with
  | Err e => Ret (Err e, self)
  | Ok interval =>
      if is_empty self then Ret (Ok tt, self) else
      let! index := index_for self interval in
      let! '(res, l) := IntervalRemove.remove (intervals self) interval index (limit self) in
      Ret (let? _ := res in Ok tt, mk_set (limit self) l)
  end.

Definition remove_value (self : IntervalSet T) (value : T)
    : outcome (result unit IntervalSetError * IntervalSet T) :=
  remove self (Included value) (Included value).

(** The vector operation that [set_operation] applies: it returns the index to
    continue from. *)
Definition set_op : Type :=
  list (Interval T) -> Interval T -> Z -> option Z
  -> outcome (result Z IntervalSetError * list (Interval T)).

(** The [for] loop of [set_operation]; an error leaves the intervals applied
    so far in place. *)
Fixpoint apply_all (apply : set_op) (l : list (Interval T)) (others : list (Interval T))
    (index : Z) (limit : option Z) : outcome (result unit IntervalSetError * list (Interval T)) :=
  match others with
  | [] => Ret (Ok tt, l)
  | interval :: others =>
      let! '(res, l) := apply l interval index limit in
      match res with
      | Err e => Ret (Err e, l)
      | Ok index => apply_all apply l others index limit
      end
  end.

Definition set_operation (self other : IntervalSet T) (apply : set_op)
    : outcome (result unit IntervalSetError * IntervalSet T) :=
  match intervals other with
  | [] => Ret (Ok tt, self)
  | interval :: _ =>
      let! index := index_for self interval in
      let! '(res, l) := apply_all apply (intervals self) (intervals other) index (limit self) in
      Ret (res, mk_set (limit self) l)
  end.

Definition union_op : set_op := fun ranges interval index limit =>
  let! '(res, ranges) := IntervalInsert.insert ranges interval index limit in
  Ret (let? '(idx, _) := res in Ok idx, ranges).

Definition union (self other : IntervalSet T)
    : outcome (result unit IntervalSetError * IntervalSet T) :=
  if is_empty self then Ret (Ok tt, mk_set (limit self) (intervals other))
  else set_operation self other union_op.

Definition difference (self other : IntervalSet T)
    : outcome (result unit IntervalSetError * IntervalSet T) :=
  if is_empty self then Ret (Ok tt, self)
  else set_operation self other IntervalRemove.remove.

Definition intersection (self other : IntervalSet T)
    : outcome (result unit IntervalSetError * IntervalSet T) :=
  let! l := Intersection.apply (intervals self) (intervals other) in
  Ret (Ok tt, mk_set (limit self) l).

Definition intersection_iter (self other : IntervalSet T) : Intersection.t T :=
  Intersection.new (intervals self) (intervals other).

(** [check_integrity], the assertions the crate's tests run after every
    operation. *)
Fixpoint all_contained (self : IntervalSet T) (values : list T) : outcome unit :=
  match values with
  | [] => Ret tt
  | value :: values =>
      let! c := contains self value in let! _ := rassert c in all_contained self values
  end.

Fixpoint check_intervals (self : IntervalSet T) (l : list (Interval T)) (prev_end : option T)
    : outcome unit :=
  match l with
  | [] => Ret tt
  | interval :: l =>
      let! _ := all_contained self (Interval.items 3 interval) in
      let! _ := all_contained self (Interval.items_back 3 interval) in
      let! _ := match prev_end with
                | Some prev_end => rassert (lt_b prev_end (Interval.start_exclusive interval))
                | None => Ret tt
                end in
      let! _ := rassert (Interval.is_valid interval) in
      check_intervals self l (Some (iend interval))
  end.

Definition check_integrity (self : IntervalSet T) : outcome unit :=
  check_intervals self (intervals self) None.

End Ops.
End IntervalSetOps.

(** ** Binary search *)
Section Search.
Context {T : Type} {B : IntervalBound T} {dom : T -> Prop} {val : T -> Z} {lo hi : Z}.
Context `{HB : !IntervalBoundSpec B dom val lo hi}.

Abbreviation srt := (sorted_from dom val).

Lemma sorted_lookup lb l i j a b :
  srt lb l -> l !! i = Some a -> l !! j = Some b -> (i < j)%nat ->
  val (iend a) + 2 <= val (istart b).
Proof.
  revert lb i j. induction l as [| c l IH]; intros lb i j; [done |].
  intros (Hc & _ & Hl). destruct i as [| i], j as [| j]; simpl; try lia.
  - intros [= ->] Hj _. apply (mem_sorted_from _ _ (val (istart b)) Hl).
    apply Exists_exists. exists b. split; [by eapply list_elem_of_lookup_2 |].
    pose proof (sorted_from_Forall _ _ Hl) as Hf. rewrite Forall_lookup in Hf.
    destruct (Hf _ _ Hj) as (_ & _ & ?). unfold in_iv. lia.
  - intros ? ? ?. eapply IH; [exact Hl | done | done | lia].
Qed.

Lemma vget_lookup {A} (l : list A) i x : vget l i = Some x <-> 0 <= i /\ l !! Z.to_nat i = Some x.
Proof.
  unfold vget, vlen. destruct (Z.leb_spec 0 i), (Z.ltb_spec i (Z.of_nat (length l))); simpl.
  - tauto.
  - split; [done |]. intros [_ Hx]. apply lookup_lt_Some in Hx. lia.
  - split; [done | lia].
  - split; [done | lia].
Qed.

Lemma vget_is_Some {A} (l : list A) i : 0 <= i < vlen l -> exists x, vget l i = Some x.
Proof.
  intros. destruct (lookup_lt_is_Some_2 l (Z.to_nat i)) as [x Hx]; [unfold vlen in *; lia |].
  exists x. apply vget_lookup. split; [lia | done].
Qed.

(** Where a binary search for [v] may end. *)
Inductive search_post (l : list (Interval T)) (v : Z) : comparison -> Z -> Prop :=
| search_equal k i : vget l k = Some i -> in_iv val i v -> search_post l v Eq k
| search_greater i : vget l 0 = Some i -> v < val (istart i) -> search_post l v Gt 0
| search_less k i :
    vget l k = Some i -> val (iend i) < v ->
    (forall j b, k < j -> vget l j = Some b -> v < val (istart b)) -> search_post l v Lt k.

Definition pick {V} (f g h : Z -> V) (c : comparison) (k : Z) : V :=
  match c with Eq => f k | Gt => g k | Lt => h k end.

Section Loop.
Context (l : list (Interval T)) (lb : Z) (value : T) (Hl : srt lb l) (Hv : dom value).

Lemma vget_ok k i : vget l k = Some i -> iv_ok dom val i.
Proof.
  intros [_ Hi]%vget_lookup. pose proof (sorted_from_Forall _ _ Hl) as Hok.
  rewrite Forall_lookup in Hok. by eapply Hok.
Qed.

Lemma vget_mono j k a b :
  j < k -> vget l j = Some a -> vget l k = Some b -> val (iend a) + 2 <= val (istart b).
Proof. intros ? [? Ha]%vget_lookup [? Hb]%vget_lookup. eapply sorted_lookup; eauto. lia. Qed.

Lemma vget_cmp k i :
  vget l k = Some i ->
  (Interval.partial_cmp i value = Lt /\ val (iend i) < val value)
  \/ (Interval.partial_cmp i value = Gt /\ val value < val (istart i))
  \/ (Interval.partial_cmp i value = Eq /\ in_iv val i (val value)).
Proof.
  intros Hi. rewrite partial_cmp_val by eauto using vget_ok.
  pose proof (vget_ok _ _ Hi) as (_ & _ & ?). unfold in_iv. zcases; auto.
Qed.

(** What the loop knows about the indices outside [base..base + size]. *)
Definition narrowed (base size : Z) : Prop :=
  0 <= base /\ 1 <= size /\ base + size <= vlen l
  /\ (base = 0 \/ exists i, vget l base = Some i /\ val (iend i) < val value)
  /\ (forall j b, base + size <= j -> vget l j = Some b -> val value < val (istart b)).

Lemma search_finish base :
  narrowed base 1 ->
  exists i, vget l base = Some i
    /\ search_post l (val value) (Interval.partial_cmp i value) base.
Proof.
  intros (H0 & _ & Hlen & Hb & Hup). destruct (vget_is_Some l base) as [i Hi]; [lia |].
  exists i. split; [done |]. destruct (vget_cmp _ _ Hi) as [[-> ?] | [[-> ?] | [-> ?]]].
  - eapply search_less; [done | done |]. intros j b ? Hj. eapply Hup; [| exact Hj]. lia.
  - destruct Hb as [-> | (i' & Hi' & ?)]; [by eapply search_greater |].
    pose proof (vget_ok _ _ Hi) as (_ & _ & ?). simplify_eq. lia.
  - by eapply search_equal.
Qed.

Lemma search_loop_spec {V} fuel base size (f g h : Z -> V) :
  narrowed base size -> size <= Z.of_nat fuel + 1 ->
  exists c k, IntervalSetOps.search_loop fuel l value base size f g h = Ret (pick f g h c k)
    /\ search_post l (val value) c k.
Proof.
  assert (Hfin : forall base, narrowed base 1 -> exists c k,
    (let! subject := vindex l base in Ret (match Interval.partial_cmp subject value with
       | Eq => f base | Lt => h base | Gt => g base end)) = Ret (pick f g h c k)
    /\ search_post l (val value) c k).
  { intros b (i & Hi & Hp)%search_finish. unfold vindex. rewrite Hi. do 2 eexists. split; [| exact Hp].
    simpl. by destruct (Interval.partial_cmp i value). }
  revert base size. induction fuel as [| fuel IH]; intros base size Hn Hf; pose proof Hn as (H0 & Hs & Hlen & Hb & Hup);
    cbn [IntervalSetOps.search_loop]; cbv zeta.
  { assert (size = 1) as -> by lia. by apply Hfin. }
  destruct (Z.ltb_spec 1 size); [| assert (size = 1) as -> by lia; by apply Hfin].
  assert (1 <= size / 2 < size) by (split; [apply Z.div_le_lower_bound | apply Z.div_lt]; lia).
  destruct (vget_is_Some l (base + size / 2)) as [i Hi]; [lia |].
  unfold vindex at 1. rewrite Hi. cbn [obind].
  destruct (vget_cmp _ _ Hi) as [[-> ?] | [[-> ?] | [-> ?]]].
  - apply IH; [| lia]. split_and!; try lia; [right; eauto |].
    intros j b ? Hj. eapply Hup; [| exact Hj]. lia.
  - apply IH; [| lia]. split_and!; try lia; [done |]. intros j b ? Hj.
    pose proof (vget_ok _ _ Hi) as (_ & _ & ?).
    assert (2 * (size / 2) <= size) by (apply Z.mul_div_le; lia).
    destruct (Z.le_gt_cases j (base + size / 2)) as [Hle | Hgt].
    + assert (j = base + size / 2) as -> by lia. by simplify_eq.
    + pose proof (vget_mono _ _ _ _ Hgt Hi Hj). lia.
  - exists Eq, (base + size / 2). split; [done | by eapply search_equal].
Qed.
End Loop.

Lemma mem_vget l x : mem val l x <-> exists j b, vget l j = Some b /\ in_iv val b x.
Proof.
  unfold mem. rewrite Exists_exists. split.
  - intros (b & [j Hj]%list_elem_of_lookup & Hb). exists (Z.of_nat j), b. split; [| done].
    apply vget_lookup. rewrite Nat2Z.id. split; [lia | done].
  - intros (j & b & [_ Hj]%vget_lookup & Hb). exists b. split; [by eapply list_elem_of_lookup_2 | done].
Qed.

Lemma search_post_mem l lb v c k :
  srt lb l -> search_post l v c k -> mem val l v <-> c = Eq.
Proof.
  intros Hl Hp. rewrite mem_vget. destruct Hp as [k i Hi Hin | i Hi Hlt | k i Hi Hlt Hup].
  - split; eauto.
  - split; [| done]. intros (j & b & Hj & Hb). pose proof (vget_ok _ _ Hl _ _ Hi) as (_ & _ & ?).
    assert (0 <= j) by (by apply vget_lookup in Hj as [? _]). unfold in_iv in Hb.
    destruct (Z.eq_dec j 0) as [-> | ?]; [simplify_eq; lia |].
    pose proof (vget_mono _ _ Hl 0 j i b ltac:(lia) Hi Hj). lia.
  - split; [| done]. intros (j & b & Hj & Hb). unfold in_iv in Hb.
    pose proof (vget_ok _ _ Hl _ _ Hi) as (_ & _ & ?).
    destruct (Z.lt_total j k) as [Hjk | [-> | Hjk]].
    + pose proof (vget_mono _ _ Hl j k b i Hjk Hj Hi). lia.
    + simplify_eq. lia.
    + specialize (Hup j b Hjk Hj). lia.
Qed.

Lemma binary_search_spec {V} (s : IntervalSet T) lb value (f g h : Z -> V) :
  srt lb (intervals s) -> dom value -> intervals s <> [] ->
  exists c k, IntervalSetOps.binary_search_with s value f g h = Ret (pick f g h c k)
    /\ search_post (intervals s) (val value) c k.
Proof.
  intros Hl Hv Hne. unfold IntervalSetOps.binary_search_with.
  assert (1 <= vlen (intervals s)).
  { destruct (intervals s); [done |]. rewrite vlen_cons. pose proof (vlen_nonneg l). lia. }
  zcases. eapply search_loop_spec; [done | done | | unfold vlen; lia].
  split_and!; try lia. intros j b Hj Hb. rewrite vget_end in Hb by lia. done.
Qed.

Lemma contains_spec s lb value :
  srt lb (intervals s) -> dom value ->
  exists b, IntervalSetOps.contains s value = Ret b
    /\ (b = true <-> mem val (intervals s) (val value)).
Proof.
  intros Hl Hv. destruct (decide (intervals s = [])) as [E | E].
  - exists false. unfold IntervalSetOps.contains, IntervalSetOps.binary_search_with. rewrite E, mem_nil.
    by split.
  - destruct (binary_search_spec s lb value (fun _ => true) (fun _ => false) (fun _ => false) Hl Hv E)
      as (c & k & Hc & Hp).
    exists (pick (fun _ : Z => true) (fun _ => false) (fun _ => false) c k).
    split; [exact Hc |]. rewrite (search_post_mem _ _ _ _ _ Hl Hp). by destruct c.
Qed.

(** The index a scan may start from: everything before it ends, with a gap,
    before the interval starts. *)
Lemma index_for_spec s lb a :
  srt lb (intervals s) -> iv_ok dom val a ->
  exists pre suf, intervals s = pre ++ suf
    /\ IntervalSetOps.index_for s a = Ret (vlen pre)
    /\ Forall (fun b => val (iend b) + 1 < val (istart a)) pre.
Proof.
  intros Hl (Hs & _ & _). unfold IntervalSetOps.index_for, IntervalSetOps.interval_len.
  destruct (Z.ltb_spec (vlen (intervals s)) 16) as [Hlt | Hge]; [by exists [], (intervals s) |].
  destruct (binary_search_spec s lb (istart a) id id id Hl Hs) as (c & k & -> & Hp).
  { intros E. rewrite E in Hge. done. }
  assert (Hpick : pick id id id c k = k) by (by destruct c). rewrite Hpick.
  assert (Hk : 0 <= k < vlen (intervals s) /\ forall j b, j < k -> vget (intervals s) j = Some b ->
    val (iend b) + 1 < val (istart a)).
  { assert (Hr : forall k i, vget (intervals s) k = Some i -> 0 <= k < vlen (intervals s)).
    { intros k' i [? Hx%lookup_lt_Some]%vget_lookup. unfold vlen. lia. }
    destruct Hp as [k i Hi Hin | i Hi _ | k i Hi Hlt _]; (split; [by eapply Hr |]); intros j b Hj Hb.
    - pose proof (vget_mono _ _ Hl _ _ _ _ Hj Hb Hi). unfold in_iv in Hin. lia.
    - apply vget_lookup in Hb as [? _]. lia.
    - pose proof (vget_mono _ _ Hl _ _ _ _ Hj Hb Hi). pose proof (vget_ok _ _ Hl _ _ Hi) as (_ & _ & ?). lia. }
  destruct Hk as [Hk Hpre]. exists (take (Z.to_nat k) (intervals s)), (drop (Z.to_nat k) (intervals s)).
  rewrite take_drop. split_and!; [done | |].
  - f_equal. unfold vlen in *. rewrite length_take. lia.
  - apply Forall_lookup. intros j b Hj. apply lookup_take_Some in Hj as [Hj Hlt].
    apply (Hpre (Z.of_nat j)); [lia |]. apply vget_lookup. rewrite Nat2Z.id. split; [lia | done].
Qed.
End Search.

(** ** Operations on the set of values *)
Section Sets.
Context {T : Type} {B : IntervalBound T} {dom : T -> Prop} {val : T -> Z} {lo hi : Z}.
Context `{HB : !IntervalBoundSpec B dom val lo hi}.

Abbreviation ok := (iv_ok dom val).
Abbreviation srt := (sorted_from dom val).

(** The type invariant: sorted intervals with gaps, and a non-zero limit. *)
Definition set_ok (s : IntervalSet T) : Prop :=
  sorted dom val (intervals s) /\ (forall n, limit s = Some n -> 1 <= n).

Definition members (s : IntervalSet T) (x : Z) : Prop := mem val (intervals s) x.

(** The scans may start at [k]. *)
Definition start_ok (l : list (Interval T)) (k : Z) (a : Interval T) : Prop :=
  0 <= k <= vlen l /\ Forall (fun b => val (iend b) + 1 < val (istart a)) (take (Z.to_nat k) l).

Lemma split_at (l : list (Interval T)) k :
  0 <= k <= vlen l -> exists pre suf, l = pre ++ suf /\ k = vlen pre /\ take (Z.to_nat k) l = pre.
Proof.
  intros Hk. exists (take (Z.to_nat k) l), (drop (Z.to_nat k) l). rewrite take_drop.
  split_and!; [done | | done]. unfold vlen in *. rewrite length_take. lia.
Qed.

Lemma insert_at lb l k a lim :
  srt lb l -> ok a -> vlen l <= USIZE_MAX -> start_ok l k a ->
  exists res l', IntervalInsert.insert l a k lim = Ret (res, l')
    /\ insert_post (val := val) l a lim res l'.
Proof.
  intros Hl Ha Hlen [Hk Hpre]. destruct (split_at l k Hk) as (pre & suf & -> & -> & E).
  rewrite E in Hpre. by eapply insert_spec.
Qed.

Lemma remove_at lb l k a lim :
  srt lb l -> ok a -> vlen l <= USIZE_MAX -> start_ok l k a ->
  exists res l', IntervalRemove.remove l a k lim = Ret (res, l')
    /\ remove_post (val := val) l a lim res l'.
Proof.
  intros Hl Ha Hlen [Hk Hpre]. destruct (split_at l k Hk) as (pre & suf & -> & -> & E).
  rewrite E in Hpre. eapply remove_spec; [done.. |].
  eapply Forall_impl; [exact Hpre |]. simpl. lia.
Qed.

Lemma index_for_start s lb a :
  srt lb (intervals s) -> ok a ->
  exists k, IntervalSetOps.index_for s a = Ret k /\ start_ok (intervals s) k a.
Proof.
  intros Hl Ha. destruct (index_for_spec s lb a Hl Ha) as (pre & suf & E & -> & Hpre).
  exists (vlen pre). split; [done |]. unfold start_ok. rewrite E, take_vlen_app, vlen_app.
  pose proof (vlen_nonneg pre). pose proof (vlen_nonneg suf). split; [lia | done].
Qed.

(** The index an operation returns is a start for the intervals after it. *)
Lemma start_next l j a b :
  0 <= j <= vlen l -> Forall (fun b => val (iend b) <= val (iend a)) (take (Z.to_nat j) l) ->
  val (iend a) + 2 <= val (istart b) -> start_ok l j b.
Proof. intros Hj Hp Hab. split; [done |]. eapply Forall_impl; [exact Hp |]. simpl. lia. Qed.

Lemma ref_insert_lb lb a l : srt lb l -> ok a -> exists lb', srt lb' (ref_insert val a l).
Proof.
  intros Hl Ha. exists (Z.min lb (val (istart a))). apply ref_insert_sorted; [| done | lia].
  eapply sorted_from_weaken; [exact Hl | lia].
Qed.

(** The outcome of inserting [a] into [s]. *)
Definition inserted (s : IntervalSet T) (a : Interval T) (res : result bool IntervalSetError)
    (s' : IntervalSet T) : Prop :=
  set_ok s' /\ limit s' = limit s
  /\ match res with
     | Ok modified =>
         (forall x, members s' x <-> members s x \/ in_iv val a x)
         /\ (modified = false <-> forall x, in_iv val a x -> members s x)
         /\ (forall n, limit s = Some n -> vlen (intervals s) <= n -> vlen (intervals s') <= n)
     | Err e =>
         e = LimitExceeded /\ s' = s
         /\ exists n, limit s = Some n /\ n <= vlen (intervals s)
                     /\ vlen (ref_insert val a (intervals s)) = vlen (intervals s) + 1
     end.

Lemma insert_main s k a :
  set_ok s -> vlen (intervals s) <= USIZE_MAX -> ok a -> start_ok (intervals s) k a ->
  exists res s',
    (let! '(res, l) := IntervalInsert.insert (intervals s) a k (limit s) in
     Ret (let? '(_, modified) := res in Ok modified, mk_set (limit s) l)) = Ret (res, s')
    /\ inserted s a res s'.
Proof.
  intros [Hs Hlim] Hlen Ha Hk. pose proof Hs as [lb Hl]%sorted_sorted_from.
  destruct (insert_at lb _ k a (limit s) Hl Ha Hlen Hk) as (res & l' & -> & [Hok Herr]).
  do 2 eexists; split; [done |]. unfold inserted, set_ok, members. simpl.
  destruct res as [[j modified] | e]; simpl.
  - destruct (Hok j modified eq_refl) as (-> & Hmod & _ & _ & Hn).
    split_and!; try done.
    + apply sorted_sorted_from. by eapply ref_insert_lb.
    + intros x. rewrite (ref_insert_mem (dom := dom)); [tauto | done | by eapply sorted_from_Forall].
  - destruct (Herr e eq_refl) as (-> & -> & Hn). destruct s. done.
Qed.

Lemma insert_empty lim a :
  ok a -> (forall n, lim = Some n -> 1 <= n) ->
  inserted (mk_set lim []) a (Ok true) (mk_set lim [a]).
Proof.
  intros Ha Hlim. pose proof Ha as (_ & _ & Hle).
  unfold inserted, set_ok, members. simpl. split_and!; try done; try lia.
  - intros x. rewrite mem_cons, mem_nil. tauto.
  - split; [done |]. intros Hx. destruct (proj1 (mem_nil (val := val) (T := T) (val (istart a)))).
    apply Hx. unfold in_iv. lia.
  - intros n Hn _. by apply Hlim.
Qed.

Definition set_insert (front : bool) (s : IntervalSet T) (start end_ : Bound T) :=
  if front then IntervalSetOps.insert_front s start end_ else IntervalSetOps.insert s start end_.

Lemma set_insert_spec front s start end_ a :
  set_ok s -> vlen (intervals s) <= USIZE_MAX ->
  Interval.from_range_bounds start end_ = Ok a -> ok a ->
  exists res s', set_insert front s start end_ = Ret (res, s') /\ inserted s a res s'.
Proof.
  intros Hs Hlen Hbounds Ha. pose proof Hs as [[lb Hl]%sorted_sorted_from Hlim].
  unfold set_insert, IntervalSetOps.insert_front, IntervalSetOps.insert. rewrite Hbounds.
  unfold IntervalSetOps.is_empty. destruct s as [lim [| i l]]; cbn [intervals limit] in *.
  { destruct front; do 2 eexists; (split; [done | by apply insert_empty]). }
  destruct front.
  - apply (insert_main (mk_set lim (i :: l)) 0 a Hs Hlen Ha). split; [| constructor].
    pose proof (vlen_nonneg (i :: l)). simpl. lia.
  - destruct (index_for_start (mk_set lim (i :: l)) lb a Hl Ha) as (k & -> & Hk).
    by apply (insert_main (mk_set lim (i :: l)) k a).
Qed.

(** C14: Inserting a range into an interval set, from either end, yields the
    union of the set and the range, keeps the intervals sorted, disjoint and
    separated by gaps, and reports [false] exactly when every value of the
    range was already present; an accepted insertion never takes the set over
    its limit, and it is refused only when a new interval would exceed the
    limit, leaving the set unchanged. *)
Theorem interval_set_insert front s start end_ a :
  set_ok s -> vlen (intervals s) <= USIZE_MAX ->
  Interval.from_range_bounds start end_ = Ok a -> ok a ->
  exists res s', set_insert front s start end_ = Ret (res, s') /\ inserted s a res s'.
Proof. apply set_insert_spec. Qed.

(** The outcome of removing [a] from [s]. *)
Definition removed (s : IntervalSet T) (a : Interval T) (res : result unit IntervalSetError)
    (s' : IntervalSet T) : Prop :=
  set_ok s' /\ limit s' = limit s
  /\ match res with
     | Ok _ =>
         (forall x, members s' x <-> members s x /\ ~ in_iv val a x)
         /\ (forall n, limit s = Some n -> vlen (intervals s) <= n -> vlen (intervals s') <= n)
     | Err e =>
         e = LimitExceeded /\ s' = s
         /\ exists n, limit s = Some n /\ n <= vlen (intervals s) + 1
                     /\ vlen (ref_remove val a (intervals s)) = vlen (intervals s) + 1
     end.

(** Removing a range from an interval set yields the set difference, keeps
    the intervals sorted, disjoint and separated by gaps and within the limit;
    it is refused only when the range is strictly inside an interval, so that
    the interval would be split, and the set is at its limit or one interval
    short of it, and then the set is unchanged. *)
Lemma set_remove_spec s start end_ a :
  set_ok s -> vlen (intervals s) <= USIZE_MAX ->
  Interval.from_range_bounds start end_ = Ok a -> ok a ->
  exists res s', IntervalSetOps.remove s start end_ = Ret (res, s') /\ removed s a res s'.
Proof.
  intros [Hs Hlim] Hlen Hbounds Ha. pose proof Hs as [lb Hl]%sorted_sorted_from.
  unfold IntervalSetOps.remove. rewrite Hbounds. unfold IntervalSetOps.is_empty.
  destruct (intervals s) as [| i l] eqn:E.
  { do 2 eexists; split; [done |]. unfold removed, members, set_ok. rewrite E. split_and!; try done.
    intros x. rewrite mem_nil. tauto. }
  rewrite <- E in *.
  destruct (index_for_start s lb a Hl Ha) as (k & -> & Hk). cbn [obind].
  destruct (remove_at lb _ k a (limit s) Hl Ha Hlen Hk) as (res & l' & -> & [Hok Herr]).
  do 2 eexists; split; [done |]. unfold removed, set_ok, members. simpl.
  destruct res as [j | e]; simpl.
  - destruct (Hok j eq_refl) as (-> & _ & _ & Hn). split_and!; try done.
    + apply sorted_sorted_from. exists lb. by apply ref_remove_sorted.
    + intros x. by apply (ref_remove_mem lb).
  - destruct (Herr e eq_refl) as (-> & -> & Hn). destruct s. done.
Qed.

Lemma ref_insert_vlen a l : vlen (ref_insert val a l) <= vlen l + 1.
Proof. unfold vlen. pose proof (ref_insert_length (val := val) a l). lia. Qed.

Lemma union_all lim others l k lb lbo :
  srt lb l -> srt lbo others -> vlen l + vlen others <= USIZE_MAX ->
  (forall a, head others = Some a -> start_ok l k a) ->
  exists res l', IntervalSetOps.apply_all IntervalSetOps.union_op l others k lim = Ret (res, l')
    /\ (exists lb', srt lb' l')
    /\ match res with
       | Ok _ => forall x, mem val l' x <-> mem val l x \/ mem val others x
       | Err e => e = LimitExceeded /\ forall x, mem val l x -> mem val l' x
                  /\ (mem val l' x -> mem val l x \/ mem val others x)
       end.
Proof.
  revert l k lb lbo. induction others as [| a others IH]; intros l k lb lbo Hl Ho Hlen Hk.
  { do 2 eexists; split; [done |]. split; [eauto |]. intros x. rewrite mem_nil. tauto. }
  destruct Ho as (Ha & _ & Ho). specialize (Hk a eq_refl). rewrite vlen_cons in Hlen.
  pose proof (vlen_nonneg others). cbn [IntervalSetOps.apply_all]. unfold IntervalSetOps.union_op at 1.
  destruct (insert_at lb l k a lim Hl Ha ltac:(lia) Hk) as (res & l' & -> & [Hok Herr]).
  cbn [obind]. destruct res as [[j m] | e]; cbn [rbind].
  - destruct (Hok j m eq_refl) as (-> & _ & Hj & Hpre & _).
    destruct (ref_insert_lb lb a l Hl Ha) as [lb' Hl'].
    assert (Hm : forall x, mem val (ref_insert val a l) x <-> in_iv val a x \/ mem val l x).
    { intros x. apply (ref_insert_mem (dom := dom)); [done | by eapply sorted_from_Forall]. }
    destruct (IH _ j _ _ Hl' Ho) as (res & l2 & -> & Hsrt & Hres).
    + pose proof (ref_insert_vlen a l). lia.
    + intros b Hb. destruct others as [| ? ?]; [done |]. injection Hb as ->.
      destruct Ho as (_ & ? & _). by eapply start_next.
    + do 2 eexists; split; [done |]. split; [done |]. destruct res as [u | e].
      * intros x. rewrite Hres, Hm, mem_cons. tauto.
      * destruct Hres as [-> Hres]. split; [done |]. intros x. specialize (Hres x).
        rewrite Hm in Hres. rewrite mem_cons. tauto.
  - destruct (Herr e eq_refl) as (-> & -> & _). do 2 eexists; split; [done |]. split; [eauto |].
    split; [done |]. tauto.
Qed.

Lemma ref_remove_vlen a l : vlen (ref_remove val a l) <= vlen l + 1.
Proof.
  induction l as [| b l IH]; cbn [ref_remove]; [done |]. rewrite !vlen_cons.
  unfold left_of. zcases; simpl app; rewrite ?vlen_cons; try lia.
Qed.

Lemma difference_all lim others l k lb lbo :
  srt lb l -> srt lbo others -> vlen l + vlen others <= USIZE_MAX ->
  (forall a, head others = Some a -> start_ok l k a) ->
  exists res l', IntervalSetOps.apply_all IntervalRemove.remove l others k lim = Ret (res, l')
    /\ (exists lb', srt lb' l')
    /\ match res with
       | Ok _ => forall x, mem val l' x <-> mem val l x /\ ~ mem val others x
       | Err e => e = LimitExceeded /\ forall x, (mem val l' x -> mem val l x)
                  /\ (mem val l x -> ~ mem val others x -> mem val l' x)
       end.
Proof.
  revert l k lb lbo. induction others as [| a others IH]; intros l k lb lbo Hl Ho Hlen Hk.
  { do 2 eexists; split; [done |]. split; [eauto |]. intros x. rewrite mem_nil. tauto. }
  destruct Ho as (Ha & _ & Ho). specialize (Hk a eq_refl). rewrite vlen_cons in Hlen.
  pose proof (vlen_nonneg others). cbn [IntervalSetOps.apply_all].
  destruct (remove_at lb l k a lim Hl Ha ltac:(lia) Hk) as (res & l' & -> & [Hok Herr]).
  cbn [obind]. destruct res as [j | e].
  - destruct (Hok j eq_refl) as (-> & Hj & Hpre & _).
    assert (Hm : forall x, mem val (ref_remove val a l) x <-> mem val l x /\ ~ in_iv val a x).
    { intros x. by apply (ref_remove_mem lb). }
    destruct (IH (ref_remove val a l) j lb _ ltac:(by apply ref_remove_sorted) Ho)
      as (res & l2 & -> & Hsrt & Hres).
    + pose proof (ref_remove_vlen a l). lia.
    + intros b Hb. destruct others as [| ? ?]; [done |]. injection Hb as ->.
      destruct Ho as (_ & ? & _). by eapply start_next.
    + do 2 eexists; split; [done |]. split; [done |]. destruct res as [u | e].
      * intros x. rewrite Hres, Hm, mem_cons. tauto.
      * destruct Hres as [-> Hres]. split; [done |]. intros x. specialize (Hres x).
        rewrite Hm in Hres. rewrite mem_cons. tauto.
  - destruct (Herr e eq_refl) as (-> & -> & _). do 2 eexists; split; [done |]. split; [eauto |].
    split; [done |]. tauto.
Qed.

(** C28: [union] and [difference] with another set compute the union and the
    difference of the sets of values and keep the invariant, although every
    interval is applied only from the index the previous one stopped at; when
    the limit stops them half way, the set is still sorted, [union] has lost
    no value and gained only values of the other set, and [difference] has
    gained none and lost only values of the other set. *)
Theorem interval_set_union_difference s other :
  set_ok s -> set_ok other ->
  vlen (intervals s) + vlen (intervals other) <= USIZE_MAX ->
  (exists res s', IntervalSetOps.union s other = Ret (res, s') /\ set_ok s' /\ limit s' = limit s
     /\ match res with
        | Ok _ => forall x, members s' x <-> members s x \/ members other x
        | Err e => e = LimitExceeded /\ forall x, members s x -> members s' x
                   /\ (members s' x -> members s x \/ members other x)
        end)
  /\ (exists res s', IntervalSetOps.difference s other = Ret (res, s') /\ set_ok s' /\ limit s' = limit s
     /\ match res with
        | Ok _ => forall x, members s' x <-> members s x /\ ~ members other x
        | Err e => e = LimitExceeded /\ forall x, (members s' x -> members s x)
                   /\ (members s x -> ~ members other x -> members s' x)
        end).
Proof.
  intros [Hs Hlim] [Ho _] Hlen. pose proof Hs as [lb Hl]%sorted_sorted_from.
  pose proof Ho as [lbo Hlo]%sorted_sorted_from.
  unfold IntervalSetOps.union, IntervalSetOps.difference, IntervalSetOps.set_operation,
    IntervalSetOps.is_empty, set_ok, members.
  destruct (intervals s) as [| i l] eqn:E.
  { split; (do 2 eexists; split; [done |]); simpl; rewrite ?E; (split; [done |]); (split; [done |]);
      intros x; rewrite mem_nil; tauto. }
  rewrite <- E in *. destruct (intervals other) as [| a others] eqn:Eo.
  { split; (do 2 eexists; split; [done |]); (split; [done |]); (split; [done |]);
      intros x; rewrite mem_nil; tauto. }
  pose proof Hlo as (Ha & _ & _).
  destruct (index_for_start s lb a Hl Ha) as (k & -> & Hk). cbn [obind].
  assert (Hk' : forall b, head (a :: others) = Some b -> start_ok (intervals s) k b)
    by (by intros b [= <-]).
  split.
  - destruct (union_all (limit s) _ _ k lb lbo Hl Hlo Hlen Hk') as (res & l' & -> & Hsrt & Hres).
    do 2 eexists; split; [done |]. simpl. split; [split; [by apply sorted_sorted_from | done] |].
    by split; [| destruct res].
  - destruct (difference_all (limit s) _ _ k lb lbo Hl Hlo Hlen Hk') as (res & l' & -> & Hsrt & Hres).
    do 2 eexists; split; [done |]. simpl. split; [split; [by apply sorted_sorted_from | done] |].
    by split; [| destruct res].
Qed.

Lemma apply_spec la lb a b :
  srt la a -> srt lb b ->
  exists r l, Intersection.apply a b = Ret r /\ inter_ok (dom := dom) (val := val) l a b r.
Proof.
  intros Ha Hb. unfold Intersection.apply. destruct a as [| i a].
  { exists [], 0. split; [done |]. split; [done |]. intros x. rewrite mem_nil. tauto. }
  destruct b as [| j b]; [exists [], 0; split; [done | apply inter_nil] |].
  destruct (apply_loop_spec (S (length (i :: a) + length b)) [] (i :: a) j b _ _ Ha Hb ltac:(lia))
    as (r & Hr & Hi). eauto.
Qed.

Lemma left_new (a b : list (Interval T)) :
  left_a (Intersection.new a b) = a /\ left_b (Intersection.new a b) = b
  /\ normal (Intersection.new a b).
Proof.
  unfold left_a, left_b, normal. simpl. rewrite !head_tail. split_and!; try done; apply head_None.
Qed.

Lemma set_intersection_spec s other fuel :
  set_ok s -> set_ok other ->
  (length (intervals s) + length (intervals other) < fuel)%nat ->
  exists s', IntervalSetOps.intersection s other = Ret (Ok tt, s')
    /\ set_ok s' /\ limit s' = limit s
    /\ (forall x, members s' x <-> members s x /\ members other x)
    /\ Intersection.collect fuel (IntervalSetOps.intersection_iter s other) = Ret (intervals s').
Proof.
  intros [Hs Hlim] [Ho _] Hf. pose proof Hs as [lb Hl]%sorted_sorted_from.
  pose proof Ho as [lbo Hlo]%sorted_sorted_from.
  destruct (apply_spec _ _ _ _ Hl Hlo) as (r & l & Hr & Hsr & Hm).
  unfold IntervalSetOps.intersection, IntervalSetOps.intersection_iter. rewrite Hr.
  destruct (left_new (intervals s) (intervals other)) as (Ela & Elb & Hn).
  pose proof (collect_spec fuel (Intersection.new (intervals s) (intervals other))) as Hc.
  rewrite Ela, Elb in Hc. destruct (Hc _ _ Hl Hlo Hn Hf) as (r' & l' & -> & Hsr' & Hm').
  eexists; split; [done |]. unfold set_ok, members. simpl. split_and!; try done.
  - apply sorted_sorted_from. eauto.
  - f_equal. eapply sorted_ext; [exact Hsr' | exact Hsr |]. intros x. by rewrite Hm, Hm'.
Qed.

(** C29: Intersecting two interval sets in place terminates without a panic and
    leaves exactly the common values, in the sorted form with gaps; the lazy
    intersection iterator, run to its end, yields the same intervals. *)
Theorem interval_set_intersection s other fuel :
  set_ok s -> set_ok other ->
  (length (intervals s) + length (intervals other) < fuel)%nat ->
  exists s', IntervalSetOps.intersection s other = Ret (Ok tt, s')
    /\ set_ok s' /\ limit s' = limit s
    /\ (forall x, members s' x <-> members s x /\ members other x)
    /\ Intersection.collect fuel (IntervalSetOps.intersection_iter s other) = Ret (intervals s').
Proof. apply set_intersection_spec. Qed.

Lemma all_contained_spec s lb l :
  srt lb (intervals s) -> Forall (fun v => dom v /\ members s (val v)) l ->
  IntervalSetOps.all_contained s l = Ret tt.
Proof.
  intros Hl. induction 1 as [| v l [Hd Hm] _ IH]; [done |]. cbn [IntervalSetOps.all_contained].
  destruct (contains_spec s lb v Hl Hd) as (b & -> & Hb). rewrite (proj2 Hb Hm). exact IH.
Qed.

Lemma check_intervals_spec s lb l lbl prev :
  lo < hi -> srt lb (intervals s) -> srt lbl l -> (forall x, mem val l x -> members s x) ->
  match prev with Some p => dom p /\ val p + 2 <= lbl | None => True end ->
  IntervalSetOps.check_intervals s l prev = Ret tt.
Proof.
  intros Hlh Hs. revert lbl prev. induction l as [| i l IH]; intros lbl prev Hl Hsub Hprev; [done |].
  destruct Hl as (Hi & Hlb & Hl). cbn [IntervalSetOps.check_intervals].
  destruct (items_in dom val lo hi 3 i Hlh Hi) as [Hf Hb].
  assert (Hin : forall k, Forall (fun v => dom v /\ in_iv val i (val v)) k ->
    IntervalSetOps.all_contained s k = Ret tt).
  { intros k Hk. eapply all_contained_spec; [exact Hs |]. eapply Forall_impl; [exact Hk |].
    intros v [? ?]. split; [done |]. apply Hsub, mem_cons. by left. }
  rewrite (Hin _ Hf), (Hin _ Hb). cbn [obind].
  assert (Hp : match prev with
               | Some p => rassert (lt_b p (Interval.start_exclusive i)) | None => Ret tt end = Ret tt).
  { destruct prev as [p |]; [| done]. destruct Hprev as [Hd Hp].
    destruct (start_exclusive_val i Hi) as [Hd' Hv]. pose proof (val_range _ Hd).
    rewrite lt_b_val, Hv by done. unfold rassert. by zcases. }
  rewrite Hp. cbn [obind]. pose proof Hi as (Hsd & Hed & _).
  rewrite (proj2 (is_valid_ok i Hsd Hed) Hi). cbn [obind rassert].
  eapply IH; [exact Hl | | split; [done | lia]]. intros x Hx. apply Hsub, mem_cons. by right.
Qed.

(** [contains] finds a value by binary search exactly when it is a member
    of the set, so on every set that meets the invariant the integrity check
    that the tests run after each operation (its values are found, its
    intervals are valid and separated by gaps) passes. *)
Theorem interval_set_contains s :
  lo < hi -> set_ok s ->
  (forall value, dom value ->
    exists b, IntervalSetOps.contains s value = Ret b /\ (b = true <-> members s (val value)))
  /\ IntervalSetOps.check_integrity s = Ret tt.
Proof.
  intros Hlh [[lb Hl]%sorted_sorted_from _]. split.
  - intros value Hv. exact (contains_spec s lb value Hl Hv).
  - by apply (check_intervals_spec s lb _ lb None).
Qed.
End Sets.

Arguments set_ok {T} dom val s.
Arguments members {T} val s x.
Arguments inserted {T} dom val s a res s'.
Arguments removed {T} {B} dom val s a res s'.

(** ** Witnesses: sets of [u64] and of packet numbers *)

Definition u64_set (lim : option Z) (l : list (Z * Z)) : IntervalSet Z :=
  mk_set lim ((fun p => mk_iv p.1 p.2) <$> l).

Definition u64_spec := uint_bound_spec 64 eq_refl.

Lemma interval_set_insert_witness :
  exists res s',
    set_insert (B := uint_bound 64) false (u64_set (Some 2) [(1, 3); (7, 9)]) (Included 4) (Excluded 7)
    = Ret (res, s')
    /\ inserted (uint 64) id (u64_set (Some 2) [(1, 3); (7, 9)]) (mk_iv 4 6) res s'.
Proof.
  apply (interval_set_insert (HB := u64_spec)); [| done | done |].
  - unfold set_ok, sorted, sorted_from, iv_ok, uint. simpl. split; [lia | by intros n [= <-]].
  - unfold iv_ok, uint, id. simpl. lia.
Defined.

Lemma interval_set_union_difference_witness :
  exists res s',
    IntervalSetOps.union (H := uint_bound 64) (u64_set None [(1, 3); (7, 9)]) (u64_set None [(4, 4); (9, 12)])
    = Ret (res, s') /\ set_ok (uint 64) id s'.
Proof.
  destruct (interval_set_union_difference (HB := u64_spec) (u64_set None [(1, 3); (7, 9)])
    (u64_set None [(4, 4); (9, 12)])) as [(res & s' & Hu & Hs & _) _].
  - unfold set_ok, sorted, sorted_from, iv_ok, uint. simpl. split; [lia | done].
  - unfold set_ok, sorted, sorted_from, iv_ok, uint. simpl. split; [lia | done].
  - done.
  - by exists res, s'.
Defined.

Lemma interval_set_intersection_witness :
  exists s', IntervalSetOps.intersection (H := uint_bound 64) (u64_set None [(1, 30)])
               (u64_set None [(0, 4); (9, 12); (30, 40)]) = Ret (Ok tt, s')
    /\ intervals s' = [mk_iv 1 4; mk_iv 9 12; mk_iv 30 30].
Proof.
  destruct (interval_set_intersection (HB := u64_spec) (u64_set None [(1, 30)])
    (u64_set None [(0, 4); (9, 12); (30, 40)]) 5) as (s' & Hi & _ & _ & _ & Hc).
  - unfold set_ok, sorted, sorted_from, iv_ok, uint. simpl. split; [lia | done].
  - unfold set_ok, sorted, sorted_from, iv_ok, uint. simpl. split; [lia | done].
  - simpl. lia.
  - exists s'. split; [exact Hi |]. injection Hi as <-. reflexivity.
Defined.

(** ** Edge cases of the code *)

(** An excluded start bound is stepped down: the range after 5 starts at 4. *)
Example excluded_start_steps_down :
  Interval.from_range_bounds (H := uint_bound 64) (Excluded 5) (Included 7) = Ok (mk_iv 4 7).
Proof. reflexivity. Qed.

(** Splitting an interval is refused one interval short of the limit, although
    inserting would still be accepted there. *)
Example remove_refused_below_limit :
  IntervalSetOps.remove (H := uint_bound 64) (u64_set (Some 2) [(1, 9)]) (Included 4) (Included 6)
  = Ret (Err LimitExceeded, u64_set (Some 2) [(1, 9)])
  /\ IntervalSetOps.insert (H := uint_bound 64) (u64_set (Some 2) [(1, 9)]) (Included 11) (Included 12)
     = Ret (Ok true, u64_set (Some 2) [(1, 9); (11, 12)]).
Proof. by vm_compute. Qed.

(** A union into an empty set copies the other set whatever the limit. *)
Example union_ignores_limit_when_empty :
  IntervalSetOps.union (H := uint_bound 64) (u64_set (Some 1) []) (u64_set None [(1, 2); (4, 5)])
  = Ret (Ok tt, u64_set (Some 1) [(1, 2); (4, 5)]).
Proof. reflexivity. Qed.
