(* ===== verification/AckRanges.v ===== *)
(** * Acknowledged packet number ranges

    [ack/ranges.rs]: [Ranges], the limited interval set of packet numbers an
    endpoint acknowledges.  When the limit is reached the lowest range gives
    way to a higher one. *)
From S2P Require Import Prelude VarInt PacketNumber Interval.
From S2P Require Import IntervalInsert IntervalRemove IntervalSet.

(** ** Definitions *)
Module AckRanges.

#[local] Existing Instance packet_number_bound.

Abbreviation Ranges := (IntervalSet Z).

Inductive Error :=
| RangeInsertionFailed (min max : Z)
| LowestRangeDropped (min max : Z).

(** [new]: [NonZeroUsize::new(limit).expect(..)]. *)
Definition new (limit : Z) : outcome Ranges :=
  if limit =? 0 then Panic else Ret (IntervalSetOps.with_limit limit).

Definition insert_packet_number_range (self : Ranges) (pn_range : PacketNumberRange.t)
    : outcome (result unit Error * Ranges) :=
  let start := PacketNumberRange.start pn_range in
  let end_ := PacketNumberRange.end_ pn_range in
  let! '(res, self) := IntervalSetOps.insert self (Included start) (Included end_) in
  match res with
  | Ok _ => Ret (Ok tt, self)
  | Err _ =>
      match IntervalSetOps.pop_min self with
      | (Some min, self) =>
          match Interval.partial_cmp min start with
          | Lt =>
              let! '(insert_res, self) :=
                IntervalSetOps.insert self (Included start) (Included end_) in
              let! _ := rassert (is_ok insert_res) in
              match insert_res with
              | Err _ => Ret (Err (RangeInsertionFailed start end_), self)
              | Ok _ => Ret (Err (LowestRangeDropped (istart min) (iend min)), self)
              end
          | _ =>
              let! '(_, self) :=
                IntervalSetOps.insert_front self (Included (istart min)) (Included (iend min)) in
              Ret (Err (RangeInsertionFailed start end_), self)
          end
      | (None, self) => Panic
      end
  end.

Definition insert_packet_number (self : Ranges) (packet_number : Z)
    : outcome (result unit Error * Ranges) :=
  let! range := PacketNumberRange.new packet_number packet_number in
  insert_packet_number_range self range.

Definition spread (self : Ranges) : outcome Z :=
  match IntervalSetOps.min_value self, IntervalSetOps.max_value self with
  | Some min, Some max =>
      let! d := VarInt.sub (PacketNumber.as_varint max) (PacketNumber.as_varint min) in
      Ret (if d <=? USIZE_MAX then d else USIZE_MAX)
  | _, _ => Ret 0
  end.

(** [ack_ranges]: the ranges from the largest to the smallest, as the ACK frame
    wants them. *)
Definition ack_ranges (self : Ranges) : list (Z * Z) :=
  rev ((fun i => (PacketNumber.as_varint (istart i), PacketNumber.as_varint (iend i)))
         <$> intervals self).

End AckRanges.

(** ** Correctness *)
Section Correct.
Context (s : PacketNumberSpace).

#[local] Existing Instance packet_number_bound.
#[local] Instance pn_spec : IntervalBoundSpec packet_number_bound (pn_in s) PacketNumber.as_u64 0 VarInt.MAX
  := packet_number_bound_spec s.

Abbreviation val := PacketNumber.as_u64.
Abbreviation ok := (iv_ok (pn_in s) val).
Abbreviation srt := (sorted_from (pn_in s) val).

(** The type invariant: the ranges never exceed the limit. *)
Definition ranges_ok (n : Z) (r : IntervalSet Z) : Prop :=
  set_ok (pn_in s) val r /\ limit r = Some n /\ 1 <= n <= USIZE_MAX /\ vlen (intervals r) <= n.

(** A range that adds an interval touches none of the others. *)
Lemma ref_insert_disjoint lb a l :
  srt lb l -> ok a -> vlen (ref_insert val a l) = vlen l + 1 ->
  Forall (fun b => val (iend b) + 1 < val (istart a) \/ val (iend a) + 1 < val (istart b)) l.
Proof.
  intros Hl (Hs & He & Hle). revert lb Hl. induction l as [| b l IH]; intros lb; [by constructor |].
  intros (Hb & _ & Hl). cbn [ref_insert]. rewrite (vlen_cons b l). zcases.
  - rewrite vlen_cons. intros Hv. constructor; [by left |]. eapply IH; [exact Hl | lia].
  - intros _. constructor; [by right |]. apply Forall_forall. intros c Hc. right.
    assert (Hm : mem val l (val (istart c))).
    { apply Exists_exists. exists c. split; [done |]. pose proof (sorted_from_Forall _ _ Hl) as Hf.
      rewrite Forall_forall in Hf. destruct (Hf c Hc) as (_ & _ & ?). unfold in_iv. lia. }
    apply (mem_sorted_from _ _ _ Hl) in Hm. destruct Hb as (_ & _ & ?). lia.
  - intros Hv. pose proof (ref_insert_vlen (val := val) (merge val a b) l). lia.
Qed.

(** Adding to a set below its limit succeeds. *)
Lemma insert_below_limit front r n a :
  set_ok (pn_in s) val r -> limit r = Some n -> vlen (intervals r) < n <= USIZE_MAX -> ok a ->
  exists b r', set_insert front r (Included (istart a)) (Included (iend a)) = Ret (Ok b, r')
    /\ ranges_ok n r' /\ (forall x, members val r' x <-> members val r x \/ in_iv val a x).
Proof.
  intros Hr Hlim Hn Ha. pose proof Ha as (Hs & He & Hle).
  destruct (set_insert_spec (dom := pn_in s) (val := val) front r (Included (istart a)) (Included (iend a)) a)
    as (res & r' & Hins & Hok & Hl' & Hres); [done | lia | | done |].
  { rewrite (from_range_bounds_closed (dom := pn_in s) (val := val)) by done. by destruct a; zcases. }
  destruct res as [b | e].
  - exists b, r'. split; [done |]. destruct Hres as (Hm & _ & Hlen). split; [| done].
    pose proof (vlen_nonneg (intervals r)). specialize (Hlen n Hlim ltac:(lia)).
    split_and!; [done | congruence | lia | lia | done].
  - destruct Hres as (_ & _ & m & Hm & ? & _). simplify_eq. lia.
Qed.

(** What an insertion into the acknowledged ranges does. *)
Definition ranges_inserted (n : Z) (r : IntervalSet Z) (a : Interval Z)
    (res : result unit AckRanges.Error) (r' : IntervalSet Z) : Prop :=
  ranges_ok n r'
  /\ match res with
     | Ok _ => forall x, members val r' x <-> members val r x \/ in_iv val a x
     | Err (AckRanges.LowestRangeDropped min max) =>
         vlen (intervals r) = n /\ head (intervals r) = Some (mk_iv min max)
         /\ val max + 1 < val (istart a)
         /\ forall x, members val r' x
              <-> (members val r x /\ ~ val min <= x <= val max) \/ in_iv val a x
     | Err (AckRanges.RangeInsertionFailed min max) =>
         r' = r /\ a = mk_iv min max /\ vlen (intervals r) = n
         /\ forall x, members val r x -> val max + 1 < x
     end.

(** The lowest range is replaced by a higher one. *)
Lemma drop_lowest lim n i l a :
  ranges_ok n (mk_set lim (i :: l)) -> vlen (i :: l) = n -> ok a ->
  val (iend i) + 1 < val (istart a) ->
  exists r', (let! '(insert_res, self) := IntervalSetOps.insert (mk_set lim l)
                (Included (istart a)) (Included (iend a)) in
              let! _ := rassert (is_ok insert_res) in
              match insert_res with
              | Err _ => Ret (Err (AckRanges.RangeInsertionFailed (istart a) (iend a)), self)
              | Ok _ => Ret (Err (AckRanges.LowestRangeDropped (istart i) (iend i)), self)
              end) = Ret (Err (AckRanges.LowestRangeDropped (istart i) (iend i)) : result unit _, r')
    /\ ranges_inserted n (mk_set lim (i :: l)) a
         (Err (AckRanges.LowestRangeDropped (istart i) (iend i))) r'.
Proof.
  intros (Hok & Hlim & Hn & _) Hfull Ha Hlt. simpl in Hlim. rewrite vlen_cons in Hfull.
  destruct Hok as [(Hi & _ & Hl) Hpos].
  destruct (insert_below_limit false (mk_set lim l) n a) as (b & r' & Hins & Hr' & Hm);
    [split; [apply sorted_sorted_from; eauto | done] | done | simpl; lia | done |].
  simpl in Hins. rewrite Hins. exists r'. split; [done |]. split; [done |].
  simpl. rewrite vlen_cons. split_and!; [lia | by destruct i | done |].
  intros x. rewrite Hm. unfold members. simpl. rewrite mem_cons.
  pose proof (mem_sorted_from _ _ x Hl). unfold in_iv. destruct Hi as (_ & _ & ?). intuition lia.
Qed.

(** A range below all others is refused; the lowest one is put back. *)
Lemma restore_lowest lim n i l a :
  ranges_ok n (mk_set lim (i :: l)) -> vlen (i :: l) = n -> ok a ->
  val (iend a) + 1 < val (istart i) ->
  exists r', (let! '(_, self) := IntervalSetOps.insert_front (mk_set lim l)
                (Included (istart i)) (Included (iend i)) in
              Ret (Err (AckRanges.RangeInsertionFailed (istart a) (iend a)), self))
             = Ret (Err (AckRanges.RangeInsertionFailed (istart a) (iend a)) : result unit _, r')
    /\ ranges_inserted n (mk_set lim (i :: l)) a
         (Err (AckRanges.RangeInsertionFailed (istart a) (iend a))) r'.
Proof.
  intros Hr Hfull Ha Hlt. pose proof Hr as (Hok & Hlim & Hn & _). simpl in Hlim. rewrite vlen_cons in Hfull.
  destruct Hok as [Hs Hpos]. pose proof Hs as (Hi & _ & Hl).
  destruct (insert_below_limit true (mk_set lim l) n i) as (b & r' & Hins & Hr' & Hm);
    [split; [apply sorted_sorted_from; eauto | done] | done | simpl; lia | done |].
  simpl in Hins. rewrite Hins. exists r'. split; [done |].
  assert (r' = mk_set lim (i :: l)) as ->.
  { destruct Hr' as ([Hs' _] & Hlim' & _). destruct r' as [lim' l']. simpl in *. f_equal; [congruence |].
    apply sorted_sorted_from in Hs' as [lb' Hl']. eapply sorted_ext; [exact Hl' | exact Hs |].
    intros x. unfold members in Hm. simpl in Hm. rewrite Hm, mem_cons. tauto. }
  split; [done |]. simpl. rewrite vlen_cons. split_and!; [done | by destruct a | lia |].
  intros x [Hx | Hx]%mem_cons; [unfold in_iv in Hx; lia |].
  apply (mem_sorted_from _ _ _ Hl) in Hx. destruct Hi as (_ & _ & ?). lia.
Qed.

Lemma insert_range_ok n r a ex :
  ranges_ok n r -> ok a ->
  exists res r',
    AckRanges.insert_packet_number_range r (PacketNumberRange.mk (istart a) (iend a) ex) = Ret (res, r')
    /\ ranges_inserted n r a res r'.
Proof.
  intros Hr Ha. pose proof Hr as (Hok & Hlim & Hn & Hlen). pose proof Ha as (Hs & He & Hle).
  unfold AckRanges.insert_packet_number_range. cbn [PacketNumberRange.start PacketNumberRange.end_].
  destruct (set_insert_spec (dom := pn_in s) (val := val) false r (Included (istart a)) (Included (iend a)) a)
    as (res & r' & Hins & Hok' & Hl' & Hres); [done | lia | | done |].
  { rewrite (from_range_bounds_closed (dom := pn_in s) (val := val)) by done. by destruct a; zcases. }
  simpl in Hins. rewrite Hins. cbn [obind]. destruct res as [b | e].
  - do 2 eexists. split; [done |]. destruct Hres as (Hm & _ & Hlen'). split; [| done].
    split_and!; [done | congruence | lia | lia | by apply Hlen'].
  - destruct Hres as (-> & -> & m & Hm & Hfull & Hgrow). assert (m = n) as -> by congruence.
    destruct r as [lim [| i l]]; [simpl in *; unfold vlen in Hfull; simpl in *; lia |].
    cbn [IntervalSetOps.pop_min intervals limit] in *. destruct Hok as [Hsrt _].
    pose proof (ref_insert_disjoint _ _ _ Hsrt Ha Hgrow) as Hd. apply Forall_cons_1 in Hd as [Hd _].
    pose proof Hsrt as (Hi & _ & _).
    rewrite (partial_cmp_val (dom := pn_in s) (val := val)) by done.
    destruct (Z.ltb_spec (val (iend i)) (val (istart a))).
    + destruct (drop_lowest lim n i l a) as (r' & -> & Hr'); [done | lia | done | |].
      { destruct Hi as (_ & _ & ?). lia. }
      eauto.
    + destruct (restore_lowest lim n i l a) as (r' & Hre & Hr'); [done | lia | done | lia |].
      exists (Err (AckRanges.RangeInsertionFailed (istart a) (iend a))), r'. split; [| done].
      destruct (val (istart a) <? val (istart i)); exact Hre.
Qed.

(** C34: Recording a received packet number range never panics and keeps the
    ranges sorted and within the limit: the range is added; or, at the limit,
    exactly the lowest range is given up for a higher one and reported; or the
    range lies below everything recorded and is refused without changing
    anything. *)
Theorem ack_ranges_insert n r a ex :
  ranges_ok n r -> ok a ->
  exists res r',
    AckRanges.insert_packet_number_range r (PacketNumberRange.mk (istart a) (iend a) ex) = Ret (res, r')
    /\ ranges_inserted n r a res r'.
Proof. apply insert_range_ok. Qed.
End Correct.

Lemma ack_ranges_insert_witness :
  let pn v := PacketNumber.from_varint v ApplicationData in
  let r := mk_set (Some 2) [mk_iv (pn 1) (pn 2); mk_iv (pn 5) (pn 6)] in
  exists res r',
    AckRanges.insert_packet_number_range r (PacketNumberRange.mk (pn 8) (pn 9) false) = Ret (res, r')
    /\ ranges_inserted ApplicationData 2 r (mk_iv (pn 8) (pn 9)) res r'.
Proof.
  intros pn r.
  assert (Hpn : forall v, (0 <=? v) && (v <=? 100) = true -> pn_in ApplicationData (pn v)).
  { intros v Hv. exists v. split; [| done]. apply andb_prop in Hv as [?%Z.leb_le ?%Z.leb_le].
    split; [done |]. unfold MAX_VARINT_VALUE. lia. }
  apply (ack_ranges_insert ApplicationData 2 r (mk_iv (pn 8) (pn 9)) false).
  - split_and!; try done. split; [| by intros n [= <-]].
    repeat (split_and!; try apply Hpn; try done).
  - split_and!; [by apply Hpn | by apply Hpn | done].
Defined.
