(* ===== verification/StreamId.v ===== *)
(** * Stream identifiers

    [stream/id.rs], [stream/type_.rs], [stream/iter.rs] and the endpoint type of
    [endpoint/mod.rs]: the two low bits of a stream id name its initiator and
    its direction, and the rest counts the streams of that kind. *)
From S2P Require Import Prelude VarInt.

(** ** Definitions *)

(** [endpoint::Type]. *)
Inductive EndpointType := Client | Server.
(** [endpoint::Location]. *)
Inductive Location := Local | Remote.
Inductive StreamType := Bidirectional | Unidirectional.

#[export] Instance EndpointType_eq_dec : EqDecision EndpointType.
Proof. solve_decision. Defined.
#[export] Instance Location_eq_dec : EqDecision Location.
Proof. solve_decision. Defined.
#[export] Instance StreamType_eq_dec : EqDecision StreamType.
Proof. solve_decision. Defined.

Definition peer_type (self : EndpointType) : EndpointType :=
  match self with Client => Server | Server => Client end.

Module StreamId.

(** [StreamId(VarInt)]. *)
Definition initial (initiator : EndpointType) (stream_type : StreamType) : Z :=
  match bool_decide (stream_type = Bidirectional), bool_decide (initiator = Client) with
  | true, true => 0
  | true, false => 1
  | false, true => 2
  | false, false => 3
  end.

Definition nth (initiator : EndpointType) (stream_type : StreamType) (n : Z) : option Z :=
  match checked_mul 64 n 4 with
  | None => None
  | Some m =>
      match checked_add 64 m (initial initiator stream_type) with
      | None => None
      | Some v => VarInt.ok (VarInt.new v)
      end
  end.

Definition next_of_type (self : Z) : option Z := VarInt.checked_add self 4.

Definition initiator (self : Z) : EndpointType :=
  if Z.land self 1 =? 0 then Client else Server.

Definition stream_type (self : Z) : StreamType :=
  if Z.land self 2 =? 0 then Bidirectional else Unidirectional.

End StreamId.

Module StreamIter.

Record t := mk { start_stream_id : Z; max_stream_id : Z; finished : bool }.

Definition new (start_stream_id max_stream_id : Z) : outcome t :=
  let! _ := rassert (bool_decide (StreamId.stream_type start_stream_id
                                  = StreamId.stream_type max_stream_id)) in
  let! _ := rassert (bool_decide (StreamId.initiator start_stream_id
                                  = StreamId.initiator max_stream_id)) in
  let! _ := rassert (start_stream_id <=? max_stream_id) in
  Ret (mk start_stream_id max_stream_id false).

Definition next (self : t) : outcome (option Z * t) :=
  if finished self then Ret (None, self) else
  match start_stream_id self ?= max_stream_id self with
  | Lt =>
      let ret := start_stream_id self in
      let! next := unwrap (StreamId.next_of_type (start_stream_id self)) in
      Ret (Some ret, mk next (max_stream_id self) false)
  | Eq => Ret (Some (start_stream_id self), mk (start_stream_id self) (max_stream_id self) true)
  | Gt => Panic
  end.

(** [self.collect()]. *)
Fixpoint collect (fuel : nat) (self : t) : outcome (list Z) :=
  match fuel with
  | O => Panic
  | S fuel =>
      let! '(item, self) := next self in
      match item with
      | Some i => let! l := collect fuel self in Ret (i :: l)
      | None => Ret []
      end
  end.

End StreamIter.

(** ** Lemmas *)

Lemma stream_id_bits id :
  0 <= id -> id mod 4 = StreamId.initial (StreamId.initiator id) (StreamId.stream_type id).
Proof.
  intros Hid. unfold StreamId.initiator, StreamId.stream_type.
  assert (Hm : 0 <= id mod 4 < 4) by (apply Z.mod_pos_bound; lia).
  assert (H1 : Z.land id 1 = Z.land (id mod 4) 1).
  { change 4 with (2 ^ 2). rewrite <- Z.land_ones, <- Z.land_assoc by lia. done. }
  assert (H2 : Z.land id 2 = Z.land (id mod 4) 2).
  { change 4 with (2 ^ 2). rewrite <- Z.land_ones, <- Z.land_assoc by lia. done. }
  rewrite H1, H2.
  assert (E : id mod 4 = 0 \/ id mod 4 = 1 \/ id mod 4 = 2 \/ id mod 4 = 3) by lia.
  by destruct E as [-> | [-> | [-> | ->]]].
Qed.

Lemma initial_kind i t n :
  0 <= n ->
  StreamId.initiator (4 * n + StreamId.initial i t) = i
  /\ StreamId.stream_type (4 * n + StreamId.initial i t) = t.
Proof.
  intros Hn. set (k := StreamId.initial i t).
  assert (Hk : 0 <= k < 4) by (by destruct i, t).
  pose proof (stream_id_bits (4 * n + k) ltac:(lia)) as Hb.
  rewrite (Z.add_comm (4 * n)), (Z.mul_comm 4), Z.mod_add, Z.mod_small in Hb by lia.
  rewrite (Z.add_comm (4 * n)), (Z.mul_comm 4).
  revert Hb. unfold k.
  by destruct (StreamId.initiator _), (StreamId.stream_type _), i, t.
Qed.

Lemma stream_nth_eq i t n :
  0 <= n ->
  StreamId.nth i t n
  = if 4 * n + StreamId.initial i t <=? VarInt.MAX then Some (4 * n + StreamId.initial i t) else None.
Proof.
  intros Hn. assert (Hk : 0 <= StreamId.initial i t < 4) by (by destruct i, t).
  unfold StreamId.nth, checked_mul, checked_add, VarInt.new, VarInt.MAX, MAX_VARINT_VALUE, umax.
  zcases; cbn [VarInt.ok]; try done; try (f_equal; lia).
Qed.

Lemma next_of_type_eq id :
  varint_ok id -> StreamId.next_of_type id = if id + 4 <=? VarInt.MAX then Some (id + 4) else None.
Proof.
  intros [? ?]. unfold StreamId.next_of_type, VarInt.checked_add, checked_add, VarInt.new, VarInt.MAX,
    MAX_VARINT_VALUE in *.
  zcases; done.
Qed.

Lemma stream_iter_collect n fuel a :
  0 <= a -> a + 4 * Z.of_nat n <= VarInt.MAX -> (S n < fuel)%nat ->
  StreamIter.collect fuel (StreamIter.mk a (a + 4 * Z.of_nat n) false)
  = Ret ((fun k => a + 4 * k) <$> seqZ 0 (Z.of_nat (S n))).
Proof.
  revert fuel a. induction n as [| n IH]; intros fuel a Ha Hmax Hf;
    (destruct fuel as [| fuel]; [lia |]); cbn [StreamIter.collect]; unfold StreamIter.next;
    cbn [StreamIter.finished StreamIter.start_stream_id StreamIter.max_stream_id].
  - replace (a + 4 * Z.of_nat 0) with a by lia. rewrite Z.compare_refl. cbn [obind].
    destruct fuel as [| fuel]; [lia |]. simpl. do 2 f_equal. lia.
  - rewrite (proj2 (Z.compare_lt_iff _ _)) by lia.
    rewrite next_of_type_eq by (split; unfold VarInt.MAX in *; lia). zcases. cbn [unwrap obind].
    replace (a + 4 * Z.of_nat (S n)) with ((a + 4) + 4 * Z.of_nat n) by lia.
    rewrite IH by lia. cbn [obind].
    rewrite (seqZ_cons 0 (Z.of_nat (S (S n)))) by lia. rewrite fmap_cons. do 2 f_equal; [lia |].
    replace (Z.pred (Z.of_nat (S (S n)))) with (Z.of_nat (S n)) by lia.
    rewrite <- (fmap_add_seqZ 1 0), <- list_fmap_compose. apply list_fmap_ext. intros i x _. simpl. lia.
Qed.

(** ** Property *)

(** Stream ids are numbered consistently: the [n]-th id of a kind exists
    exactly when it fits a VarInt, it has that initiator and direction, every
    id is the [id / 4]-th of its own kind, [next_of_type] is the next of the
    same kind, and a stream iterator yields exactly the ids of the kind from
    its start to its maximum. *)
Theorem stream_id_numbering i t n m fuel :
  0 <= n <= m -> (Z.to_nat (m - n) + 1 < fuel)%nat ->
  (StreamId.nth i t n = None <-> VarInt.MAX < 4 * n + StreamId.initial i t)
  /\ (forall id, varint_ok id ->
        StreamId.nth (StreamId.initiator id) (StreamId.stream_type id) (id / 4) = Some id)
  /\ (forall id, StreamId.nth i t n = Some id ->
        StreamId.initiator id = i /\ StreamId.stream_type id = t /\ id / 4 = n
        /\ StreamId.next_of_type id = StreamId.nth i t (n + 1))
  /\ (forall a b, StreamId.nth i t n = Some a -> StreamId.nth i t m = Some b ->
        exists it ids, StreamIter.new a b = Ret it /\ StreamIter.collect fuel it = Ret ids
          /\ Some <$> ids = StreamId.nth i t <$> seqZ n (m - n + 1)).
Proof.
  intros Hnm Hf. assert (Hk : 0 <= StreamId.initial i t < 4) by (by destruct i, t).
  split_and!.
  - rewrite stream_nth_eq by lia. zcases; split; try done; lia.
  - intros id [Hid Hmax]. pose proof (stream_id_bits id Hid) as Hb.
    assert (0 <= id / 4) by (apply Z.div_pos; lia).
    rewrite stream_nth_eq, <- Hb by done. rewrite <- (Z.div_mod id 4) by lia.
    unfold VarInt.MAX. by zcases.
  - intros id. rewrite !stream_nth_eq by lia. zcases; intros; rinv; (split_and!; [apply initial_kind; lia..| |]);
      try (rewrite next_of_type_eq by (split; unfold VarInt.MAX in *; lia); by zcases; try (f_equal; lia)).
    all: rewrite Z.mul_comm, Z.div_add_l, Z.div_small by lia; lia.
  - intros a b. rewrite !stream_nth_eq by lia. zcases; intros; rinv.
    destruct (initial_kind i t n ltac:(lia)) as [Hi1 Ht1], (initial_kind i t m ltac:(lia)) as [Hi2 Ht2].
    set (a := 4 * n + StreamId.initial i t) in *. set (b := 4 * m + StreamId.initial i t) in *.
    exists (StreamIter.mk a b false), ((fun k => a + 4 * k) <$> seqZ 0 (m - n + 1)).
    unfold StreamIter.new. rewrite Hi1, Hi2, Ht1, Ht2, !bool_decide_eq_true_2 by done.
    cbn [obind rassert]. split_and!.
    + unfold rassert. by zcases.
    + replace b with (a + 4 * Z.of_nat (Z.to_nat (m - n))) by lia.
      rewrite stream_iter_collect by lia. do 2 f_equal. f_equal. lia.
    + rewrite <- list_fmap_compose. rewrite <- (Z.add_0_r n) at 2. rewrite <- (fmap_add_seqZ n 0).
      rewrite <- list_fmap_compose. apply list_fmap_ext. intros j x Hx. simpl.
      apply lookup_seqZ in Hx as [-> Hx]. rewrite stream_nth_eq by lia. zcases. f_equal. lia.
Qed.

