(* ===== verification/FrameAck.v ===== *)
(** * The ACK frame

    [frame/ack.rs]: the ranges of an ACK frame, written as alternating gaps and
    lengths below the largest acknowledged packet number, and the ECN counts.
    The decoder validates all ranges once and keeps the bytes; iterating them
    later decodes them again. *)
From stdpp Require Import strings.
From S2P Require Import Prelude Codec VarInt.

(** ** ECN counts *)

(** [inet::ExplicitCongestionNotification]. *)
Inductive ExplicitCongestionNotification := NotEct | Ect1 | Ect0 | Ce.

Record EcnCounts := mk_ecn { ect_0_count : Z; ect_1_count : Z; ce_count : Z }.

#[export] Instance EcnCounts_eq_dec : EqDecision EcnCounts.
Proof. solve_decision. Defined.

Module Ecn.

Definition default : EcnCounts := mk_ecn 0 0 0.

Definition increment (self : EcnCounts) (ecn : ExplicitCongestionNotification) : EcnCounts :=
  match ecn with
  | Ect0 => mk_ecn (VarInt.saturating_add (ect_0_count self) 1) (ect_1_count self) (ce_count self)
  | Ect1 => mk_ecn (ect_0_count self) (VarInt.saturating_add (ect_1_count self) 1) (ce_count self)
  | Ce => mk_ecn (ect_0_count self) (ect_1_count self) (VarInt.saturating_add (ce_count self) 1)
  | NotEct => self
  end.

Definition as_option (self : EcnCounts) : option EcnCounts :=
  if bool_decide (self = default) then None else Some self.

Definition max (self other : EcnCounts) : EcnCounts :=
  mk_ecn (Z.max (ect_0_count self) (ect_0_count other))
         (Z.max (ect_1_count self) (ect_1_count other))
         (Z.max (ce_count self) (ce_count other)).

Definition sub_assign (self rhs : EcnCounts) : EcnCounts :=
  mk_ecn (VarInt.saturating_sub (ect_0_count self) (ect_0_count rhs))
         (VarInt.saturating_sub (ect_1_count self) (ect_1_count rhs))
         (VarInt.saturating_sub (ce_count self) (ce_count rhs)).

Definition checked_sub (self rhs : EcnCounts) : option EcnCounts :=
  match VarInt.checked_sub (ect_0_count self) (ect_0_count rhs),
        VarInt.checked_sub (ect_1_count self) (ect_1_count rhs),
        VarInt.checked_sub (ce_count self) (ce_count rhs) with
  | Some a, Some b, Some c => Some (mk_ecn a b c)
  | _, _, _ => None
  end.

Definition decode (buffer : list Z) : decoded EcnCounts :=
  let? '(ect_0_count, buffer) := VarIntCodec.decode buffer in
  let? '(ect_1_count, buffer) := VarIntCodec.decode buffer in
  let? '(ce_count, buffer) := VarIntCodec.decode buffer in
  Ok (mk_ecn ect_0_count ect_1_count ce_count, buffer).

Definition encode (be : bool) (self : EcnCounts) : encoder_prog :=
  VarIntCodec.encode be (ect_0_count self) ;;;
  VarIntCodec.encode be (ect_1_count self) ;;;
  VarIntCodec.encode be (ce_count self).

End Ecn.

(** ** The ranges *)

(** [AckRangesDecoder], and [AckRangesIter], which has the same fields. *)
Record AckRangesDecoder := mk_ard {
  largest_acknowledged : Z;
  ack_range_count : Z;
  range_buffer : list Z
}.

Module AckRangesIter.

(** [next]: the range, if any, and the iterator as it is left, also on the
    early returns. *)
Definition next (self : AckRangesDecoder) : option (Z * Z) * AckRangesDecoder :=
  match VarInt.checked_sub (ack_range_count self) 1 with
  | None => (None, self)
  | Some count =>
      let largest := largest_acknowledged self in
      let self := mk_ard largest count (range_buffer self) in
      match VarIntCodec.decode (range_buffer self) with
      | Err _ => (None, self)
      | Ok (ack_range, buffer) =>
          match VarInt.checked_sub largest ack_range with
          | None => (None, self)
          | Some start =>
              if negb (count =? 0) then
                match VarIntCodec.decode buffer with
                | Err _ => (None, self)
                | Ok (gap, buffer) =>
                    match VarInt.checked_sub start gap with
                    | None => (None, self)
                    | Some l =>
                        match VarInt.checked_sub l 2 with
                        | None => (None, self)
                        | Some l => (Some (start, largest), mk_ard l count buffer)
                        end
                    end
                end
              else (Some (start, largest), mk_ard largest count buffer)
          end
      end
  end.

(** The ranges an iterator yields until its first [None]; every range takes at
    least one byte, so the bytes bound their number. *)
Fixpoint collect (fuel : nat) (self : AckRangesDecoder) : list (Z * Z) :=
  match fuel with
  | O => []
  | S fuel =>
      match next self with
      | (Some range, self) => range :: collect fuel self
      | (None, _) => []
      end
  end.

End AckRangesIter.

Definition ACK_RANGE_DECODING_ERROR : DecoderError := InvariantViolation "invalid ACK ranges".

Module AckRangesDec.

(** [for _ in 0..*ack_range_count { iter.next().ok_or(..)?; }]; an iteration
    without bytes left fails, so the bytes bound the successful ones. *)
Fixpoint validate (fuel : nat) (n : Z) (iter : AckRangesDecoder)
    : result AckRangesDecoder DecoderError :=
  if n =? 0 then Ok iter else
  match fuel with
  | O => Err ACK_RANGE_DECODING_ERROR
  | S fuel =>
      match AckRangesIter.next iter with
      | (Some _, iter) => validate fuel (n - 1) iter
      | (None, _) => Err ACK_RANGE_DECODING_ERROR
      end
  end.

Definition decode (largest_acknowledged : Z) (buffer : list Z) : outcome (decoded AckRangesDecoder) :=
  let+ '(count, buffer) := Ret (VarIntCodec.decode buffer) in
  let+ count := Ret (match VarInt.checked_add count 1 with
                     | Some c => Ok c
                     | None => Err ACK_RANGE_DECODING_ERROR
                     end) in
  let+ iter := Ret (validate (S (length buffer)) count (mk_ard largest_acknowledged count buffer)) in
  let peek_len := blen (range_buffer iter) in
  let buffer_len := blen buffer in
  let! _ := rassert (peek_len <=? buffer_len) in
  let! len := sub_c buffer_len peek_len in
  let+ '(range_buffer, remaining) := Ret (decode_slice buffer len) in
  Ret (Ok (mk_ard largest_acknowledged count range_buffer, remaining)).

(** [AckRanges::ack_ranges] of the decoded frame, run to its end. *)
Definition ack_ranges (self : AckRangesDecoder) : list (Z * Z) :=
  AckRangesIter.collect (S (length (range_buffer self))) self.

End AckRangesDec.

(** ** The frame *)
Module Ack.

Definition ACK_TAG : Z := 2.
Definition ACK_W_ECN_TAG : Z := 3.

(** [Ack<AckRanges>]. *)
Record t (A : Type) := mk { ack_delay : Z; ack_ranges : A; ecn_counts : option EcnCounts }.
Arguments mk {A} ack_delay ack_ranges ecn_counts.
Arguments ack_delay {A} t.
Arguments ack_ranges {A} t.
Arguments ecn_counts {A} t.

Definition tag {A} (self : t A) : Z :=
  match ecn_counts self with Some _ => ACK_W_ECN_TAG | None => ACK_TAG end.

Definition decode (tag : Z) (buffer : list Z) : outcome (decoded (t AckRangesDecoder)) :=
  let+ '(largest_acknowledged, buffer) := Ret (VarIntCodec.decode buffer) in
  let+ '(ack_delay, buffer) := Ret (VarIntCodec.decode buffer) in
  let+ '(ack_ranges, buffer) := AckRangesDec.decode largest_acknowledged buffer in
  let+ '(ecn_counts, buffer) :=
    Ret (if tag =? ACK_W_ECN_TAG then
           let? '(ecn_counts, buffer) := Ecn.decode buffer in Ok (Some ecn_counts, buffer)
         else Ok (None, buffer)) in
  Ret (Ok (mk ack_delay ack_ranges ecn_counts, buffer)).

(** [encode_ack_range]: writes one gap and one length and returns the new
    smallest packet number. *)
Definition encode_ack_range (be : bool) (range : Z * Z) (smallest : Z)
    : forall E, Encoder E -> E -> outcome (E * Z) := fun E H e =>
  let '(start, end_) := range in
  let! d := VarInt.sub smallest end_ in
  let! gap := sub_c d 2 in
  let! ack_range := VarInt.sub end_ start in
  let! e := VarIntCodec.encode be gap E H e in
  let! e := VarIntCodec.encode be ack_range E H e in
  Ret (e, start).

Fixpoint encode_ranges (be : bool) (iter : list (Z * Z)) (smallest : Z) : encoder_prog :=
  fun E H e =>
  match iter with
  | [] => Ret e
  | range :: iter =>
      let! '(e, smallest) := encode_ack_range be range smallest E H e in
      encode_ranges be iter smallest E H e
  end.

(** [encode], for any [AckRanges] given by the ranges it iterates over. *)
Definition encode (be : bool) (self : t (list (Z * Z))) : encoder_prog := fun E H e =>
  let! e := enc_uint 1 (tag self) E H e in
  match ack_ranges self with
  | [] => Panic
  | (smallest, largest_acknowledged) :: iter =>
      let! first_ack_range := VarInt.sub largest_acknowledged smallest in
      let! ack_range_count := unwrap (VarInt.ok (VarInt.new (vlen iter))) in
      let! e := VarIntCodec.encode be largest_acknowledged E H e in
      let! e := VarIntCodec.encode be (ack_delay self) E H e in
      let! e := VarIntCodec.encode be ack_range_count E H e in
      let! e := VarIntCodec.encode be first_ack_range E H e in
      let! e := encode_ranges be iter smallest E H e in
      enc_option (Ecn.encode be) (ecn_counts self) E H e
  end.

End Ack.

(** ** Specification of the ranges *)

(** Ranges in descending order below [hi], each separated from the next by at
    least one packet number. *)
Fixpoint descending (hi : Z) (l : list (Z * Z)) : Prop :=
  match l with
  | [] => True
  | (s, e) :: l => 0 <= s <= e /\ e <= hi /\ descending (s - 2) l
  end.

(** The ranges an ACK frame can carry. *)
Definition ack_ranges_ok (l : list (Z * Z)) : Prop := l <> [] /\ descending VarInt.MAX l.

Fixpoint gaps_wire (smallest : Z) (l : list (Z * Z)) : list Z :=
  match l with
  | [] => []
  | (s, e) :: l =>
      VarIntCodec.wire (smallest - e - 2) ++ VarIntCodec.wire (e - s) ++ gaps_wire s l
  end.

(** The bytes after the range count. *)
Definition ranges_wire (l : list (Z * Z)) : list Z :=
  match l with
  | [] => []
  | (s, e) :: l => VarIntCodec.wire (e - s) ++ gaps_wire s l
  end.

Lemma descending_len hi l : descending hi l -> l <> [] -> 2 * vlen l <= hi + 2.
Proof.
  revert hi. induction l as [| [s e] l IH]; intros hi; [done |]. intros (Hs & He & Hl) _.
  rewrite vlen_cons. destruct l as [| r l]; [unfold vlen; simpl; lia |].
  specialize (IH _ Hl ltac:(done)). lia.
Qed.

Lemma varint_sub_Ret a b : b <= a -> VarInt.sub a b = Ret (a - b).
Proof. intros. unfold VarInt.sub, sub_c. by zcases. Qed.

Lemma varint_checked_sub_Some a b : b <= a -> VarInt.checked_sub a b = Some (a - b).
Proof. intros. unfold VarInt.checked_sub, checked_sub. by zcases. Qed.

Lemma varint_checked_add_Some a b c :
  VarInt.checked_add a b = Some c <-> c = a + b /\ a + b <= MAX_VARINT_VALUE.
Proof.
  unfold VarInt.checked_add, checked_add, VarInt.ok, VarInt.new, umax, MAX_VARINT_VALUE.
  zcases; split; (intros [= <-]; lia) || (intros [-> ?]; done || lia) || done.
Qed.

Lemma varint_decode_wire v rest :
  varint_ok v -> VarIntCodec.decode (VarIntCodec.wire v ++ rest) = Ok (v, rest).
Proof. apply (codec_decode (CodecSpec := varint_codec true)). Qed.

Lemma encodes_as_gaps be l smallest :
  smallest <= VarInt.MAX -> descending (smallest - 2) l ->
  encodes_as (Ack.encode_ranges be l smallest) (gaps_wire smallest l).
Proof.
  revert smallest. induction l as [| [s e] l IH]; intros sm Hsm; [intros _; apply encodes_as_nop |].
  intros (Hs & He & Hl). cbn [gaps_wire].
  apply (encodes_as_ext _ (VarIntCodec.encode be (sm - e - 2) ;;; VarIntCodec.encode be (e - s)
                           ;;; Ack.encode_ranges be l s)).
  - intros E H x. cbn [Ack.encode_ranges]. unfold Ack.encode_ack_range, enc_seq.
    unfold VarInt.sub. rewrite !(sub_c_Ret sm), (sub_c_Ret e) by lia. cbn [obind].
    rewrite sub_c_Ret by lia. cbn [obind].
    destruct (VarIntCodec.encode be (sm - e - 2) E H x) as [y |]; [| done]. cbn [obind].
    by destruct (VarIntCodec.encode be (e - s) E H y).
  - unfold VarInt.MAX in *. repeat apply encodes_as_seq; [apply encodes_as_varint; split; lia .. |].
    apply IH; [lia | done].
Qed.

(** One step of the iterator over written ranges. *)
Lemma next_written s e l rest :
  0 <= s <= e -> e <= VarInt.MAX -> descending (s - 2) l ->
  AckRangesIter.next (mk_ard e (vlen ((s, e) :: l)) (ranges_wire ((s, e) :: l) ++ rest))
  = (Some (s, e), mk_ard (match l with [] => e | (_, e2) :: _ => e2 end) (vlen l)
                         (ranges_wire l ++ rest)).
Proof.
  intros Hs He Hl. unfold AckRangesIter.next. cbn [ack_range_count largest_acknowledged range_buffer].
  rewrite vlen_cons. pose proof (vlen_nonneg l). rewrite varint_checked_sub_Some by lia.
  replace (1 + vlen l - 1) with (vlen l) by lia. cbv zeta. cbn [ranges_wire range_buffer].
  rewrite <- !app_assoc. unfold VarInt.MAX in *.
  rewrite varint_decode_wire by (split; lia). rewrite varint_checked_sub_Some by lia.
  replace (e - (e - s)) with s by lia. destruct l as [| [s2 e2] l]; [done |].
  destruct Hl as (Hs2 & He2 & Hl). rewrite vlen_cons in *. pose proof (vlen_nonneg l). zcases. cbn [negb gaps_wire ranges_wire].
  rewrite <- !app_assoc. rewrite varint_decode_wire by (split; lia).
  rewrite !varint_checked_sub_Some by lia. do 2 f_equal. lia.
Qed.

Lemma wire_nonempty v : varint_ok v -> (1 <= length (VarIntCodec.wire v))%nat.
Proof.
  intros Hv. destruct (wire_len_cases v Hv) as (k & p & Hw & _ & Hk).
  rewrite wire_eq, Hw. unfold VarIntCodec.wire_with. rewrite length_be_bytes. simpl. lia.
Qed.

(** Every range takes a byte. *)
Lemma ranges_wire_length hi l :
  hi <= VarInt.MAX -> descending hi l -> (length l <= length (ranges_wire l))%nat.
Proof.
  unfold VarInt.MAX. intros Hhi. destruct l as [| [s e] l]; [simpl; lia |]. intros (Hs & He & Hl).
  cbn [ranges_wire length]. rewrite length_app.
  pose proof (wire_nonempty (e - s) ltac:(split; lia)).
  assert (Hg : forall l s, s <= MAX_VARINT_VALUE -> descending (s - 2) l ->
    (length l <= length (gaps_wire s l))%nat).
  { clear. induction l as [| [s e] l IH]; intros sm Hsm; [simpl; lia |]. intros (Hs & He & Hl).
    cbn [gaps_wire length]. rewrite !length_app. specialize (IH s ltac:(lia) Hl).
    pose proof (wire_nonempty (e - s) ltac:(split; lia)). lia. }
  specialize (Hg l s ltac:(lia) Hl). lia.
Qed.

Lemma validate_written l hi fuel rest :
  hi <= VarInt.MAX -> descending hi l -> l <> [] -> (length l <= fuel)%nat ->
  exists big, AckRangesDec.validate fuel (vlen l)
      (mk_ard (match l with [] => 0 | (_, e) :: _ => e end) (vlen l) (ranges_wire l ++ rest))
    = Ok (mk_ard big 0 rest).
Proof.
  revert hi fuel. induction l as [| [s e] l IH]; intros hi fuel Hhi; [done |].
  intros (Hs & He & Hl) _ Hf. simpl in Hf. destruct fuel as [| fuel]; [lia |].
  pose proof (vlen_nonneg l). cbn [AckRangesDec.validate]. rewrite next_written by (done || lia).
  rewrite vlen_cons. zcases. replace (1 + vlen l - 1) with (vlen l) by lia.
  destruct l as [| [s2 e2] l]; [exists e; by destruct fuel |].
  apply (IH (s - 2)); [lia | done | done | lia].
Qed.

Lemma collect_written l hi fuel rest :
  hi <= VarInt.MAX -> descending hi l -> (length l < fuel)%nat ->
  AckRangesIter.collect fuel
    (mk_ard (match l with [] => 0 | (_, e) :: _ => e end) (vlen l) (ranges_wire l ++ rest)) = l.
Proof.
  revert hi fuel. induction l as [| [s e] l IH]; intros hi fuel Hhi.
  { intros _ Hf. by destruct fuel. }
  intros (Hs & He & Hl) Hf. simpl in Hf. destruct fuel as [| fuel]; [lia |].
  cbn [AckRangesIter.collect]. rewrite next_written by (done || lia). f_equal.
  destruct l as [| [s2 e2] l]; [by destruct fuel |].
  apply (IH (s - 2)); [lia | done | lia].
Qed.

(** ** Decoding arbitrary bytes *)

(** A range the iterator yields ends at the largest packet number left, and
    the step looks at a non-empty prefix only. *)
Lemma next_sound la c buf s e it :
  varint_ok la -> 0 <= c -> bytes_ok buf ->
  AckRangesIter.next (mk_ard la c buf) = (Some (s, e), it) ->
  e = la /\ 0 <= s <= e /\ ack_range_count it = c - 1 /\ 1 <= c
  /\ (c - 1 <> 0 -> 0 <= largest_acknowledged it <= s - 2)
  /\ exists pre, pre <> [] /\ buf = pre ++ range_buffer it
     /\ forall rest, bytes_ok rest ->
        AckRangesIter.next (mk_ard la c (pre ++ rest))
        = (Some (s, e), mk_ard (largest_acknowledged it) (c - 1) rest).
Proof.
  intros [Hla1 Hla2] Hc Hb. unfold AckRangesIter.next, VarInt.checked_sub.
  cbn [ack_range_count range_buffer largest_acknowledged]. cbv zeta. cbn [range_buffer].
  destruct (checked_sub c 1) as [c' |] eqn:Ec; [| done]. apply checked_sub_Some in Ec as [-> Hc1].
  destruct (VarIntCodec.decode buf) as [[r buf1] |] eqn:Hd; [| done].
  destruct (varint_decode_prefix _ _ _ Hb Hd) as ([Hr _] & p1 & Hp1 & -> & Hd1).
  apply Forall_app in Hb as [Hb1 Hb2].
  destruct (checked_sub la r) as [st |] eqn:Es; [| done]. apply checked_sub_Some in Es as [-> Hs].
  destruct (Z.eqb_spec (c - 1) 0); cbn [negb].
  - intros [= <- <- <-]. cbn [ack_range_count range_buffer largest_acknowledged].
    split_and!; [done | lia .. |]. exists p1. split_and!; [done | done |]. intros rest Hrest.
    rewrite Hd1 by done. unfold checked_sub. by zcases.
  - destruct (VarIntCodec.decode buf1) as [[g buf2] |] eqn:Hd2; [| done].
    destruct (varint_decode_prefix _ _ _ Hb2 Hd2) as ([Hg _] & p2 & Hp2 & -> & Hd2').
    apply Forall_app in Hb2 as [Hb2 Hb3].
    destruct (checked_sub (la - r) g) as [l1 |] eqn:E1; [| done]. apply checked_sub_Some in E1 as [-> E1].
    destruct (checked_sub (la - r - g) 2) as [l2 |] eqn:E2; [| done].
    apply checked_sub_Some in E2 as [-> E2]. intros [= <- <- <-].
    cbn [ack_range_count range_buffer largest_acknowledged].
    split_and!; [done | lia .. |]. exists (p1 ++ p2). split_and!.
    + by destruct p1.
    + by rewrite app_assoc.
    + intros rest Hrest. rewrite <- app_assoc, Hd1 by (by apply Forall_app).
      unfold checked_sub. rewrite Hd2' by done. by zcases.
Qed.

(** What validation accepts is what iterating the validated bytes yields. *)
Lemma validate_sound fuel n la buf it :
  varint_ok la -> 0 <= n -> bytes_ok buf ->
  AckRangesDec.validate fuel n (mk_ard la n buf) = Ok it ->
  exists l pre, vlen l = n /\ descending la l /\ (forall r l', l = r :: l' -> r.2 = la)
    /\ buf = pre ++ range_buffer it /\ (length l <= length pre)%nat
    /\ forall fuel' rest, (length l < fuel')%nat -> bytes_ok rest ->
       AckRangesIter.collect fuel' (mk_ard la n (pre ++ rest)) = l.
Proof.
  revert n la buf. induction fuel as [| fuel IH]; intros n la buf Hla Hn Hb; cbn [AckRangesDec.validate];
    (destruct (Z.eqb_spec n 0) as [-> |];
     [intros [= <-]; exists [], []; split_and!; [done .. | by intros [| f]] |]); [done |].
  destruct (AckRangesIter.next (mk_ard la n buf)) as [[[s e] |] it'] eqn:Hnx; [| done].
  destruct (next_sound _ _ _ _ _ _ Hla Hn Hb Hnx) as (-> & Hs & Hc & Hn1 & Hlo & pre & Hp & -> & Hnx').
  apply Forall_app in Hb as [Hbp Hbr]. destruct it' as [la' c' buf']. simpl in *. subst c'.
  destruct (Z.eqb_spec (n - 1) 0) as [Hz | Hz].
  - replace n with 1 in * by lia. destruct fuel; simpl; intros [= <-]; exists [(s, la)], pre;
      (split_and!; [done | simpl; lia .. | by intros r l' [= <- <-] | done | destruct pre; [done | simpl; lia] |]);
      intros [| [| fuel']] rest Hf Hrest; simpl in *; try lia; by rewrite Hnx'.
  - intros Hv. destruct Hla. specialize (Hlo ltac:(lia)).
    destruct (IH (n - 1) la' buf' ltac:(split; lia) ltac:(lia) Hbr Hv)
      as (l & pre' & Hl & Hd & Hhd & -> & Hlen & Hcol).
    exists ((s, la) :: l), (pre ++ pre'). split_and!; [rewrite vlen_cons; lia | lia .. | | | | |].
    + destruct l as [| [s2 e2] l]; [done |]. destruct Hd as (H1 & H2 & H3). by repeat split; try lia.
    + by intros r l' [= <- <-].
    + by rewrite app_assoc.
    + rewrite length_app. destruct pre; [done |]. simpl. lia.
    + intros [| fuel'] rest Hf Hrest; simpl in Hf; [lia |]. cbn [AckRangesIter.collect].
      rewrite <- app_assoc, Hnx' by (apply Forall_app; split; [by apply Forall_app in Hbr as [? _] | done]).
      f_equal. apply Hcol; [lia | done].
Qed.

(** ** The frame *)

Definition ecn_ok (c : EcnCounts) : Prop :=
  varint_ok (ect_0_count c) /\ varint_ok (ect_1_count c) /\ varint_ok (ce_count c).

Definition ecn_wire (c : EcnCounts) : list Z :=
  VarIntCodec.wire (ect_0_count c) ++ VarIntCodec.wire (ect_1_count c)
  ++ VarIntCodec.wire (ce_count c).

#[export] Instance ecn_codec be : CodecSpec ecn_ok (Ecn.encode be) Ecn.decode ecn_wire.
Proof.
  split.
  - intros c (H0 & H1 & H2). by repeat apply encodes_as_seq; apply encodes_as_varint.
  - intros [a b c] rest (H0 & H1 & H2). unfold ecn_wire, Ecn.decode. simpl in *.
    rewrite <- !app_assoc. by do 3 (rewrite varint_decode_wire by done; cbn [rbind]).
Qed.

Lemma consumes_ecn buf : bytes_ok buf -> consumes ecn_ok buf (Ret (Ecn.decode buf)).
Proof.
  intros Hb.
  enough (consumes ecn_ok buf
    (let+ '(a, buf) := Ret (VarIntCodec.decode buf) in
     let+ '(b, buf) := Ret (VarIntCodec.decode buf) in
     let+ '(c, buf) := Ret (VarIntCodec.decode buf) in
     Ret (Ok (mk_ecn a b c, buf)))) as H.
  { unfold Ecn.decode. destruct (VarIntCodec.decode buf) as [[a b1] |]; [| done]. simpl in *.
    destruct (VarIntCodec.decode b1) as [[b b2] |]; [| done]. simpl in *.
    by destruct (VarIntCodec.decode b2) as [[c b3] |]. }
  do 3 (eapply consumes_bind; [done | by apply consumes_varint | intros ? ? ? ? _]).
  by apply consumes_ret.
Qed.

(** The largest packet number of the ranges. *)
Definition ranges_largest (l : list (Z * Z)) : Z := match l with [] => 0 | (_, e) :: _ => e end.

Definition ranges_decoder (l : list (Z * Z)) : AckRangesDecoder :=
  mk_ard (ranges_largest l) (vlen l) (ranges_wire l).

Definition ack_map {A B} (f : A -> B) (a : Ack.t A) : Ack.t B :=
  Ack.mk (Ack.ack_delay a) (f (Ack.ack_ranges a)) (Ack.ecn_counts a).

Definition ack_ok (a : Ack.t (list (Z * Z))) : Prop :=
  varint_ok (Ack.ack_delay a) /\ ack_ranges_ok (Ack.ack_ranges a)
  /\ forall c, Ack.ecn_counts a = Some c -> ecn_ok c.

Definition ecn_opt_wire (o : option EcnCounts) : list Z :=
  match o with Some c => ecn_wire c | None => [] end.

(** The bytes of an ACK frame after its tag. *)
Definition ack_body (a : Ack.t (list (Z * Z))) : list Z :=
  VarIntCodec.wire (ranges_largest (Ack.ack_ranges a)) ++ VarIntCodec.wire (Ack.ack_delay a)
  ++ VarIntCodec.wire (vlen (Ack.ack_ranges a) - 1) ++ ranges_wire (Ack.ack_ranges a)
  ++ ecn_opt_wire (Ack.ecn_counts a).

Lemma encodes_as_ack be a : ack_ok a -> encodes_as (Ack.encode be a) (Ack.tag a :: ack_body a).
Proof.
  destruct a as [delay l ecn]. intros (Hdelay & [Hne Hdesc] & Hecn). unfold ack_body. simpl in *.
  pose proof (descending_len _ _ Hdesc Hne) as Hlen. destruct l as [| [s e] l]; [done |].
  destruct Hdesc as (Hs & He & Hl). rewrite vlen_cons in *. pose proof (vlen_nonneg l).
  unfold VarInt.MAX in *. assert (Hl' : varint_ok (vlen l)) by (split; unfold MAX_VARINT_VALUE in *; lia).
  set (tag := Ack.tag _).
  apply (encodes_as_ext _ (enc_uint 1 tag ;;; VarIntCodec.encode be e ;;; VarIntCodec.encode be delay
    ;;; VarIntCodec.encode be (vlen l) ;;; VarIntCodec.encode be (e - s)
    ;;; Ack.encode_ranges be l s ;;; enc_option (Ecn.encode be) ecn)).
  - intros E H' x. unfold Ack.encode, enc_seq. cbn [Ack.ack_ranges Ack.ack_delay Ack.ecn_counts].
    fold tag. unfold VarInt.sub. rewrite sub_c_Ret by lia. cbn [obind].
    unfold VarInt.new, VarInt.ok, unwrap. destruct Hl'. by zcases.
  - replace (1 + vlen l - 1) with (vlen l) by lia.
    change (tag :: ?x) with ([tag] ++ x). cbn [ranges_wire ranges_largest]. rewrite <- !app_assoc.
    apply encodes_as_seq.
    { replace [tag] with (be_bytes 1 tag); [apply encodes_as_uint |]. by destruct ecn. }
    repeat apply encodes_as_seq; try (apply encodes_as_varint; done || (split; lia)).
    + apply encodes_as_gaps; [unfold VarInt.MAX; lia | done].
    + apply (encodes_as_option _ ecn_wire). intros c ->. apply (codec_encode (CodecSpec := ecn_codec be)).
      by apply Hecn.
Qed.

Lemma ranges_decode l rest :
  ack_ranges_ok l ->
  AckRangesDec.decode (ranges_largest l) (VarIntCodec.wire (vlen l - 1) ++ ranges_wire l ++ rest)
  = Ret (Ok (ranges_decoder l, rest)).
Proof.
  intros [Hne Hd]. pose proof (descending_len _ _ Hd Hne) as Hlen. unfold AckRangesDec.decode.
  pose proof (vlen_nonneg l). assert (1 <= vlen l) by (destruct l; [done |]; unfold vlen; simpl; lia).
  unfold VarInt.MAX, MAX_VARINT_VALUE in Hlen.
  rewrite varint_decode_wire by (split; unfold MAX_VARINT_VALUE; lia). cbn [orbind obind].
  assert (VarInt.checked_add (vlen l - 1) 1 = Some (vlen l)) as ->.
  { apply varint_checked_add_Some. unfold MAX_VARINT_VALUE. lia. }
  cbn [orbind obind]. pose proof (ranges_wire_length _ _ (Z.le_refl _) Hd).
  destruct (validate_written l VarInt.MAX (S (length (ranges_wire l ++ rest))) rest)
    as [big Hv]; [lia | done | done | rewrite length_app; lia |].
  unfold ranges_largest at 1. rewrite Hv. cbn [orbind obind range_buffer].
  rewrite blen_app. pose proof (blen_nonneg (ranges_wire l)). zcases. simpl obind.
  rewrite sub_c_Ret by lia. cbn [obind]. replace (blen (ranges_wire l) + blen rest - blen rest)
    with (blen (ranges_wire l)) by lia. by rewrite decode_slice_app.
Qed.

Lemma ranges_decoder_ranges l : ack_ranges_ok l -> AckRangesDec.ack_ranges (ranges_decoder l) = l.
Proof.
  intros [Hne Hd]. unfold AckRangesDec.ack_ranges, ranges_decoder. cbn [range_buffer].
  pose proof (ranges_wire_length _ _ (Z.le_refl _) Hd).
  rewrite <- (app_nil_r (ranges_wire l)) at 2. by apply (collect_written l VarInt.MAX); [lia | | lia].
Qed.

Lemma ack_decode_body a rest :
  ack_ok a ->
  Ack.decode (Ack.tag a) (ack_body a ++ rest) = Ret (Ok (ack_map ranges_decoder a, rest)).
Proof.
  destruct a as [delay l ecn]. intros (Hdelay & Hl & Hecn). unfold Ack.decode, ack_body, ack_map.
  cbn [Ack.ack_ranges Ack.ack_delay Ack.ecn_counts] in *. rewrite <- !app_assoc.
  assert (varint_ok (ranges_largest l)).
  { destruct Hl as [Hne Hd]. destruct l as [| [s e] l]; [done |]. destruct Hd as (? & ? & ?).
    unfold VarInt.MAX in *. split; simpl; lia. }
  do 2 (rewrite varint_decode_wire by done; cbn [orbind obind]).
  rewrite ranges_decode by done. cbn [orbind obind]. destruct ecn as [c |]; [| done].
  cbn [Ack.tag Ack.ecn_counts]. change (Ack.ACK_W_ECN_TAG =? Ack.ACK_W_ECN_TAG) with true.
  cbv iota. cbn [ecn_opt_wire]. by rewrite (codec_decode (CodecSpec := ecn_codec true)) by (by apply Hecn).
Qed.

(** What the decoder accepts: its ranges are those of a well-formed frame. *)
Definition decoded_ranges_ok (d : AckRangesDecoder) : Prop :=
  ack_ranges_ok (AckRangesDec.ack_ranges d)
  /\ vlen (AckRangesDec.ack_ranges d) = ack_range_count d
  /\ ranges_largest (AckRangesDec.ack_ranges d) = largest_acknowledged d.

Lemma consumes_ranges la buf :
  varint_ok la -> bytes_ok buf -> consumes decoded_ranges_ok buf (AckRangesDec.decode la buf).
Proof.
  intros Hla Hb. unfold AckRangesDec.decode.
  eapply consumes_bind; [done | by apply consumes_varint | intros c buf' Hc Hb' _].
  apply consumes_guard; [| done]. intros n Hn.
  destruct (VarInt.checked_add c 1) as [n' |] eqn:En; [| done]. injection Hn as ->.
  apply varint_checked_add_Some in En as [-> _]. destruct Hc.
  apply consumes_guard; [| done]. intros it Hit. injection Hit as Hit.
  destruct (validate_sound (S (length buf')) (c + 1) _ _ _ Hla ltac:(lia) Hb' Hit)
    as (l & pre & Hl & Hd & Hhd & -> & Hlen & Hcol).
  rewrite blen_app. pose proof (blen_nonneg pre). zcases. cbn [rassert obind].
  rewrite sub_c_Ret by lia. cbn [obind]. replace (blen pre + blen (range_buffer it) - blen (range_buffer it))
    with (blen pre) by lia. rewrite decode_slice_app. cbn [orbind obind]. split; [| by exists pre].
  specialize (Hcol (S (length pre)) [] ltac:(lia) ltac:(constructor)). rewrite app_nil_r in Hcol.
  unfold decoded_ranges_ok, AckRangesDec.ack_ranges. cbn [range_buffer ack_range_count largest_acknowledged].
  rewrite Hcol. destruct l as [| [s e] l]; [unfold vlen in Hl; simpl in Hl; lia |].
  pose proof (Hhd _ _ eq_refl) as He. simpl in He. subst e. split_and!; [split; [done |] | done | done].
  destruct Hd as (HA & HB & HC). destruct Hla. repeat split; try done; unfold VarInt.MAX; lia.
Qed.

(** The fuel of [validate] is enough: more of it gives the same result. *)
Lemma validate_fuel k fuel n la buf :
  varint_ok la -> 0 <= n -> bytes_ok buf -> (length buf < fuel)%nat ->
  AckRangesDec.validate (fuel + k) n (mk_ard la n buf) = AckRangesDec.validate fuel n (mk_ard la n buf).
Proof.
  revert n la buf. induction fuel as [| fuel IH]; intros n la buf Hla Hn Hb Hf; [lia |].
  cbn [AckRangesDec.validate Nat.add]. destruct (Z.eqb_spec n 0); [done |].
  destruct (AckRangesIter.next (mk_ard la n buf)) as [[[s e] |] it'] eqn:Hnx; [| done].
  destruct (next_sound _ _ _ _ _ _ Hla Hn Hb Hnx) as (-> & Hs & Hc & Hn1 & Hlo & pre & Hp & -> & Hnx').
  destruct it' as [la' c' buf']. simpl in *. subst c'. rewrite length_app in Hf.
  destruct (Z.eqb_spec (n - 1) 0) as [-> | Hz]; [by destruct fuel, k |]. destruct Hla.
  destruct pre; [done |]. simpl in Hf. apply Forall_app in Hb as [_ Hb].
  apply IH; [split; lia | lia | done | lia].
Qed.

Definition decoded_ack_ok (a : Ack.t AckRangesDecoder) : Prop :=
  varint_ok (Ack.ack_delay a) /\ decoded_ranges_ok (Ack.ack_ranges a)
  /\ forall c, Ack.ecn_counts a = Some c -> ecn_ok c.

Lemma consumes_ack tag buf :
  bytes_ok buf ->
  consumes (fun a => decoded_ack_ok a /\ (tag = Ack.ACK_TAG \/ tag = Ack.ACK_W_ECN_TAG -> Ack.tag a = tag))
    buf (Ack.decode tag buf).
Proof.
  intros Hb. unfold Ack.decode.
  eapply consumes_bind; [done | by apply consumes_varint | intros la b1 Hla Hb1 _].
  eapply consumes_bind; [done | by apply consumes_varint | intros delay b2 Hdelay Hb2 _].
  eapply consumes_bind; [done | by apply consumes_ranges | intros r b3 Hr Hb3 _].
  eapply (consumes_bind (fun o => (forall c, o = Some c -> ecn_ok c)
    /\ (tag = Ack.ACK_W_ECN_TAG <-> is_Some o))); [done | |].
  - pose proof (consumes_ecn b3 Hb3) as He. destruct (Z.eqb_spec tag Ack.ACK_W_ECN_TAG).
    + destruct (Ecn.decode b3) as [[c b4] |]; [| done]. destruct He as [He Hpre]. simpl.
      split; [| done]. split; [by intros ? [= <-] | by eauto].
    + apply consumes_ret. split; [done |]. split; [done | by intros [? ?]].
  - intros o b4 [Ho Htag] _ _. apply consumes_ret. split; [by split_and! |].
    unfold Ack.tag, Ack.ACK_TAG, Ack.ACK_W_ECN_TAG in *. cbn [Ack.ecn_counts].
    destruct Htag as [H1 H2]. destruct o; intros [-> | ->]; try done.
    + by specialize (H2 ltac:(eauto)).
    + by destruct (H1 eq_refl).
Qed.

(** C32: An ACK frame survives the wire: for ranges in descending order with a
    gap between them, below 2^62, the frame is written as its tag and body, and
    decoding the body gives the delay and the ECN counts back and a decoder
    whose iteration yields exactly the ranges, leaving what follows. *)
Theorem ack_frame_roundtrip be a rest :
  ack_ok a ->
  encodes_as (Ack.encode be a) (Ack.tag a :: ack_body a)
  /\ exists d, Ack.decode (Ack.tag a) (ack_body a ++ rest) = Ret (Ok (d, rest))
     /\ ack_map AckRangesDec.ack_ranges d = a.
Proof.
  intros Ha. split; [by apply encodes_as_ack |]. eexists. split; [by apply ack_decode_body |].
  destruct a as [delay l ecn]. destruct Ha as (_ & Hl & _). unfold ack_map. simpl in *.
  by rewrite ranges_decoder_ranges.
Qed.

Lemma ack_frame_roundtrip_witness :
  let a := Ack.mk 25 [(90, 100); (40, 40); (3, 38)] (Some (mk_ecn 1 0 16384)) in
  exists d, Ack.decode (Ack.tag a) (ack_body a ++ [1; 0]) = Ret (Ok (d, [1; 0]))
     /\ ack_map AckRangesDec.ack_ranges d = a.
Proof.
  apply (ack_frame_roundtrip true). split_and!; [by split | split; [done |] | ].
  - by repeat split.
  - intros c [= <-]. by repeat split.
Defined.

(** C33: An ACK frame decoded from arbitrary bytes is well formed: the decoder
    never panics, its lazily decoded ranges are as many as announced, start at
    the largest acknowledged packet number and descend with a gap between
    neighbours. *)
Theorem ack_frame_decode_sound tag buf :
  bytes_ok buf ->
  consumes decoded_ack_ok buf (Ack.decode tag buf).
Proof. intros Hb. eapply consumes_weaken, consumes_ack; [| done]. by intros a [Ha _]. Qed.

Lemma ack_frame_decode_sound_witness :
  Ack.decode 2 [64; 100; 25; 2; 10; 48; 0; 0; 35; 7]
  = Ret (Ok (Ack.mk 25 (mk_ard 100 3 [10; 48; 0; 0; 35]) None, [7]))
  /\ consumes decoded_ack_ok [64; 100; 25; 2; 10; 48; 0; 0; 35; 7]
       (Ack.decode 2 [64; 100; 25; 2; 10; 48; 0; 0; 35; 7]).
Proof.
  split; [by vm_compute |]. apply ack_frame_decode_sound. by repeat constructor.
Defined.
