(* ===== verification/Frames.v ===== *)
(** * Frames

    [frame/mod.rs] and the files of [frame/], except [ack.rs]: one module per
    frame type with its record, tag, decoder and encoder, the enumeration
    [Frame] of all frames, the dispatch on the tag ([decode_frame],
    [handle_extension_frame]), the classification of the frames and the sizing
    of STREAM and CRYPTO frames ([try_fit]).

    Decoders run inside [outcome] because some of them [expect] what they have
    checked before.  [be] is the byte order of the machine, which the VarInt
    encoder depends on. *)
From stdpp Require Import strings.
From S2P Require Import Prelude Codec VarInt StreamId FrameAck.

(** [decoder_invariant!]. *)
Definition decoder_invariant (b : bool) (msg : string) : outcome (result unit DecoderError) :=
  Ret (if b then Ok tt else Err (InvariantViolation msg)).

(** [DecoderBuffer::decode]: the rest of the buffer. *)
Definition decode_buffer (buffer : list Z) : decoded (list Z) := decode_slice buffer (blen buffer).

(** [VarInt::try_from(len)] and [u8::try_from(len)] as length prefixes. *)
Definition enc_varint_len (be : bool) (len : Z) : option encoder_prog :=
  match VarInt.ok (VarInt.new len) with
  | Some v => Some (VarIntCodec.encode be v)
  | None => None
  end.

Definition enc_u8_len (len : Z) : option encoder_prog :=
  if len <? 256 then Some (enc_uint 1 len) else None.

(** [slice.try_into().expect(..)] for an array of [n] bytes. *)
Definition expect_array (n : Z) (slice : list Z) : outcome (list Z) :=
  if blen slice =? n then Ret slice else Panic.

(** [FitError]. *)
Inductive FitError := mk_FitError.

(** The payload of STREAM and DATAGRAM frames: length-prefixed, or the rest of
    the packet for its last frame. *)
Definition decode_data (is_last_frame : bool) (buffer : list Z) : outcome (decoded (list Z)) :=
  if negb is_last_frame then
    Ret (decode_with_len_prefix VarIntCodec.decode decode_buffer buffer)
  else
    let len := blen buffer in
    let+ '(data, buffer) := Ret (decode_slice buffer len) in
    let+ '(data, remaining) := Ret (decode_buffer data) in
    let+ _ := Ret (ensure_empty remaining) in
    Ret (Ok (data, buffer)).

Definition encode_data (be : bool) (is_last_frame : bool) (data : list Z) : encoder_prog :=
  if is_last_frame then enc_slice data
  else encode_with_len_prefix (enc_varint_len be) (enc_slice data).

(** ** The frame types *)

Module Padding.
Definition TAG : Z := 0.
Record t := mk { length : Z }.
Definition MAX : t := mk (umax 64).
Definition tag (_ : t) : Z := TAG.

(** [while buffer.peek_byte(length) == padding_tag { length += 1 }]; a slice
    has at most [isize::MAX] bytes, so the count does not overflow. *)
Fixpoint scan (fuel : nat) (buffer : list Z) (length : Z) : Z :=
  match fuel with
  | O => length
  | S fuel =>
      match peek_byte buffer length with
      | Ok v => if v =? TAG then scan fuel buffer (length + 1) else length
      | Err _ => length
      end
  end.

Definition decode (_tag : Z) (buffer : list Z) : outcome (decoded t) :=
  let length := scan (S (List.length buffer)) buffer 0 in
  let! buffer := match skip buffer length with Ok b => Ret b | Err _ => Panic end in
  Ret (Ok (mk (length + 1), buffer)).

Definition encode (self : t) : encoder_prog := enc_repeated (length self) 0.
End Padding.

Module Ping.
Definition TAG : Z := 1.
Inductive t := mk.
Definition tag (_ : t) : Z := TAG.
Definition decode (_tag : Z) (buffer : list Z) : outcome (decoded t) := Ret (Ok (mk, buffer)).
Definition encode (self : t) : encoder_prog := enc_uint 1 TAG.
End Ping.

Module ResetStream.
Definition TAG : Z := 4.
Record t := mk { stream_id : Z; application_error_code : Z; final_size : Z }.
Definition tag (_ : t) : Z := TAG.
Definition decode (_tag : Z) (buffer : list Z) : outcome (decoded t) :=
  let+ '(stream_id, buffer) := Ret (VarIntCodec.decode buffer) in
  let+ '(application_error_code, buffer) := Ret (VarIntCodec.decode buffer) in
  let+ '(final_size, buffer) := Ret (VarIntCodec.decode buffer) in
  Ret (Ok (mk stream_id application_error_code final_size, buffer)).
Definition encode (be : bool) (self : t) : encoder_prog :=
  enc_uint 1 TAG ;;; VarIntCodec.encode be (stream_id self) ;;;
  VarIntCodec.encode be (application_error_code self) ;;; VarIntCodec.encode be (final_size self).
End ResetStream.

Module StopSending.
Definition TAG : Z := 5.
Record t := mk { stream_id : Z; application_error_code : Z }.
Definition tag (_ : t) : Z := TAG.
Definition decode (_tag : Z) (buffer : list Z) : outcome (decoded t) :=
  let+ '(stream_id, buffer) := Ret (VarIntCodec.decode buffer) in
  let+ '(application_error_code, buffer) := Ret (VarIntCodec.decode buffer) in
  Ret (Ok (mk stream_id application_error_code, buffer)).
Definition encode (be : bool) (self : t) : encoder_prog :=
  enc_uint 1 TAG ;;; VarIntCodec.encode be (stream_id self) ;;;
  VarIntCodec.encode be (application_error_code self).
End StopSending.

Module Crypto.
Definition TAG : Z := 6.
Record t := mk { offset : Z; data : list Z }.
Definition tag (_ : t) : Z := TAG.

(** [try_fit]: how many bytes of the data fit in [capacity]. *)
Definition try_fit (be : bool) (self : t) (capacity : Z) : outcome (result Z FitError) :=
  let! offset_size := VarIntCodec.encoding_size be (offset self) in
  let! fixed_len := add_c 64 1 offset_size in
  match checked_sub capacity fixed_len with
  | None => Ret (Err mk_FitError)
  | Some remaining_capacity =>
      let! data_len := encoding_size (enc_slice (data self)) in
      let max_data_len := Z.min remaining_capacity data_len in
      match VarInt.new max_data_len with
      | Err _ => Ret (Err mk_FitError)
      | Ok v =>
          let! len_prefix_size := VarIntCodec.encoding_size be v in
          match checked_sub remaining_capacity len_prefix_size with
          | None => Ret (Err mk_FitError)
          | Some prefixed_data_len => Ret (Ok (Z.min prefixed_data_len data_len))
          end
      end
  end.

Definition decode (_tag : Z) (buffer : list Z) : outcome (decoded t) :=
  let+ '(offset, buffer) := Ret (VarIntCodec.decode buffer) in
  let+ '(data, buffer) := Ret (decode_with_len_prefix VarIntCodec.decode decode_buffer buffer) in
  Ret (Ok (mk offset data, buffer)).
Definition encode (be : bool) (self : t) : encoder_prog :=
  enc_uint 1 (tag self) ;;; VarIntCodec.encode be (offset self) ;;;
  encode_with_len_prefix (enc_varint_len be) (enc_slice (data self)).
End Crypto.

Module NewToken.
Definition TAG : Z := 7.
Record t := mk { token : list Z }.
Definition tag (_ : t) : Z := TAG.
Definition decode (_tag : Z) (buffer : list Z) : outcome (decoded t) :=
  let+ '(token, buffer) := Ret (decode_slice_with_len_prefix VarIntCodec.decode buffer) in
  let+ _ := decoder_invariant (negb (blen token =? 0)) "empty Token field" in
  Ret (Ok (mk token, buffer)).
Definition encode (be : bool) (self : t) : encoder_prog :=
  enc_uint 1 (tag self) ;;; encode_with_len_prefix (enc_varint_len be) (enc_slice (token self)).
End NewToken.

Module Stream.
Definition STREAM_TAG : Z := 8.
Definition OFF_BIT : Z := 4.
Definition LEN_BIT : Z := 2.
Definition FIN_BIT : Z := 1.
Record t := mk { stream_id : Z; offset : Z; is_last_frame : bool; is_fin : bool; data : list Z }.

Definition tag (self : t) : Z :=
  let tag := STREAM_TAG in
  let tag := if negb (offset self =? 0) then Z.lor tag OFF_BIT else tag in
  let tag := if negb (is_last_frame self) then Z.lor tag LEN_BIT else tag in
  if is_fin self then Z.lor tag FIN_BIT else tag.

Definition set_last_frame (self : t) (b : bool) : t :=
  mk (stream_id self) (offset self) b (is_fin self) (data self).

(** [try_fit]: how many bytes of the data fit in [capacity], and the frame with
    its [is_last_frame] flag set accordingly (also on the error paths). *)
Definition try_fit (be : bool) (self : t) (capacity : Z) : outcome (result Z FitError * t) :=
  let! id_size := VarIntCodec.encoding_size be (stream_id self) in
  let! fixed_len := add_c 64 1 id_size in
  let! fixed_len :=
    if negb (offset self =? 0) then
      let! offset_size := VarIntCodec.encoding_size be (offset self) in
      add_c 64 fixed_len offset_size
    else Ret fixed_len in
  match checked_sub capacity fixed_len with
  | None => Ret (Err mk_FitError, self)
  | Some remaining_capacity =>
      let! data_len := encoding_size (enc_slice (data self)) in
      let max_data_len := Z.min remaining_capacity data_len in
      if max_data_len =? remaining_capacity then
        Ret (Ok max_data_len, set_last_frame self true)
      else
        let self := set_last_frame self false in
        match VarInt.new max_data_len with
        | Err _ => Ret (Err mk_FitError, self)
        | Ok v =>
            let! len_prefix_size := VarIntCodec.encoding_size be v in
            match checked_sub remaining_capacity len_prefix_size with
            | None => Ret (Err mk_FitError, self)
            | Some prefixed_data_len => Ret (Ok (Z.min prefixed_data_len data_len), self)
            end
        end
  end.

Definition decode (tag : Z) (buffer : list Z) : outcome (decoded t) :=
  let has_offset := Z.land tag OFF_BIT =? OFF_BIT in
  let is_last_frame := negb (Z.land tag LEN_BIT =? LEN_BIT) in
  let is_fin := Z.land tag FIN_BIT =? FIN_BIT in
  let+ '(stream_id, buffer) := Ret (VarIntCodec.decode buffer) in
  let+ '(offset, buffer) :=
    Ret (if has_offset then VarIntCodec.decode buffer else Ok (0, buffer)) in
  let+ '(data, buffer) := decode_data is_last_frame buffer in
  Ret (Ok (mk stream_id offset is_last_frame is_fin data, buffer)).

Definition encode (be : bool) (self : t) : encoder_prog :=
  enc_uint 1 (tag self) ;;; VarIntCodec.encode be (stream_id self) ;;;
  (if negb (offset self =? 0) then VarIntCodec.encode be (offset self) else enc_nop) ;;;
  encode_data be (is_last_frame self) (data self).

(** [encoding_size_for_encoder], with the check against the estimator that
    debug builds make; [capacity] is what the encoder has left. *)
Definition encoding_size_for_encoder (be : bool) (self : t) (capacity : Z) : outcome Z :=
  let! id_size := VarIntCodec.encoding_size be (stream_id self) in
  let! len := add_c 64 1 id_size in
  let! len :=
    if negb (offset self =? 0) then
      let! offset_size := VarIntCodec.encoding_size be (offset self) in
      add_c 64 len offset_size
    else Ret len in
  let! data_len := encoding_size_with capacity (enc_slice (data self)) in
  let! len := add_c 64 len data_len in
  let! len :=
    if negb (is_last_frame self) then
      let! v := unwrap (VarInt.ok (VarInt.new data_len)) in
      let! prefix := VarIntCodec.encoding_size be v in
      add_c 64 len prefix
    else Ret len in
  let! estimator := encode be self _ _ (EstimatorOps.new capacity) in
  let! _ := rassert (est_len estimator =? len) in
  Ret len.
End Stream.

Module MaxData.
Definition TAG : Z := 16.
Record t := mk { maximum_data : Z }.
Definition tag (_ : t) : Z := TAG.
Definition decode (_tag : Z) (buffer : list Z) : outcome (decoded t) :=
  let+ '(maximum_data, buffer) := Ret (VarIntCodec.decode buffer) in
  Ret (Ok (mk maximum_data, buffer)).
Definition encode (be : bool) (self : t) : encoder_prog :=
  enc_uint 1 TAG ;;; VarIntCodec.encode be (maximum_data self).
End MaxData.

Module MaxStreamData.
Definition TAG : Z := 17.
Record t := mk { stream_id : Z; maximum_stream_data : Z }.
Definition tag (_ : t) : Z := TAG.
Definition decode (_tag : Z) (buffer : list Z) : outcome (decoded t) :=
  let+ '(stream_id, buffer) := Ret (VarIntCodec.decode buffer) in
  let+ '(maximum_stream_data, buffer) := Ret (VarIntCodec.decode buffer) in
  Ret (Ok (mk stream_id maximum_stream_data, buffer)).
Definition encode (be : bool) (self : t) : encoder_prog :=
  enc_uint 1 TAG ;;; VarIntCodec.encode be (stream_id self) ;;;
  VarIntCodec.encode be (maximum_stream_data self).
End MaxStreamData.

Module MaxStreams.
Definition BIDIRECTIONAL_TAG : Z := 18.
Definition UNIDIRECTIONAL_TAG : Z := 19.
Record t := mk { stream_type : StreamType; maximum_streams : Z }.
Definition tag (self : t) : Z :=
  match stream_type self with
  | Bidirectional => BIDIRECTIONAL_TAG
  | Unidirectional => UNIDIRECTIONAL_TAG
  end.
Definition decode (tag : Z) (buffer : list Z) : outcome (decoded t) :=
  let stream_type := if BIDIRECTIONAL_TAG =? tag then Bidirectional else Unidirectional in
  let+ '(maximum_streams, buffer) := Ret (VarIntCodec.decode buffer) in
  let+ _ := decoder_invariant (maximum_streams <=? 2 ^ 60) "maximum streams cannot exceed 2^60" in
  Ret (Ok (mk stream_type maximum_streams, buffer)).
Definition encode (be : bool) (self : t) : encoder_prog :=
  enc_uint 1 (tag self) ;;; VarIntCodec.encode be (maximum_streams self).
End MaxStreams.

Module DataBlocked.
Definition TAG : Z := 20.
Record t := mk { data_limit : Z }.
Definition tag (_ : t) : Z := TAG.
Definition decode (_tag : Z) (buffer : list Z) : outcome (decoded t) :=
  let+ '(data_limit, buffer) := Ret (VarIntCodec.decode buffer) in
  Ret (Ok (mk data_limit, buffer)).
Definition encode (be : bool) (self : t) : encoder_prog :=
  enc_uint 1 TAG ;;; VarIntCodec.encode be (data_limit self).
End DataBlocked.

Module StreamDataBlocked.
Definition TAG : Z := 21.
Record t := mk { stream_id : Z; stream_data_limit : Z }.
Definition tag (_ : t) : Z := TAG.
Definition decode (_tag : Z) (buffer : list Z) : outcome (decoded t) :=
  let+ '(stream_id, buffer) := Ret (VarIntCodec.decode buffer) in
  let+ '(stream_data_limit, buffer) := Ret (VarIntCodec.decode buffer) in
  Ret (Ok (mk stream_id stream_data_limit, buffer)).
Definition encode (be : bool) (self : t) : encoder_prog :=
  enc_uint 1 TAG ;;; VarIntCodec.encode be (stream_id self) ;;;
  VarIntCodec.encode be (stream_data_limit self).
End StreamDataBlocked.

Module StreamsBlocked.
Definition BIDIRECTIONAL_TAG : Z := 22.
Definition UNIDIRECTIONAL_TAG : Z := 23.
Record t := mk { stream_type : StreamType; stream_limit : Z }.
Definition tag (self : t) : Z :=
  match stream_type self with
  | Bidirectional => BIDIRECTIONAL_TAG
  | Unidirectional => UNIDIRECTIONAL_TAG
  end.
Definition decode (tag : Z) (buffer : list Z) : outcome (decoded t) :=
  let stream_type := if BIDIRECTIONAL_TAG =? tag then Bidirectional else Unidirectional in
  let+ '(stream_limit, buffer) := Ret (VarIntCodec.decode buffer) in
  let+ _ := decoder_invariant (stream_limit <=? 2 ^ 60) "maximum streams cannot exceed 2^60" in
  Ret (Ok (mk stream_type stream_limit, buffer)).
Definition encode (be : bool) (self : t) : encoder_prog :=
  enc_uint 1 (tag self) ;;; VarIntCodec.encode be (stream_limit self).
End StreamsBlocked.

Module NewConnectionId.
Definition TAG : Z := 24.
Definition STATELESS_RESET_TOKEN_LEN : Z := 16.
Record t := mk {
  sequence_number : Z;
  retire_prior_to : Z;
  connection_id : list Z;
  stateless_reset_token : list Z
}.
Definition tag (_ : t) : Z := TAG.
Definition decode (_tag : Z) (buffer : list Z) : outcome (decoded t) :=
  let+ '(sequence_number, buffer) := Ret (VarIntCodec.decode buffer) in
  let+ '(retire_prior_to, buffer) := Ret (VarIntCodec.decode buffer) in
  let+ _ := decoder_invariant (retire_prior_to <=? sequence_number)
              "invalid retire prior to value" in
  let+ '(connection_id_len, buffer) := Ret (decode_uint 1 buffer) in
  let+ _ := decoder_invariant ((1 <=? connection_id_len) && (connection_id_len <=? 20))
              "invalid connection id length" in
  let+ '(connection_id, buffer) := Ret (decode_slice buffer connection_id_len) in
  let+ '(token, buffer) := Ret (decode_slice buffer STATELESS_RESET_TOKEN_LEN) in
  let! token := expect_array STATELESS_RESET_TOKEN_LEN token in
  Ret (Ok (mk sequence_number retire_prior_to connection_id token, buffer)).
Definition encode (be : bool) (self : t) : encoder_prog :=
  enc_uint 1 (tag self) ;;; VarIntCodec.encode be (sequence_number self) ;;;
  VarIntCodec.encode be (retire_prior_to self) ;;;
  encode_with_len_prefix enc_u8_len (enc_slice (connection_id self)) ;;;
  enc_slice (stateless_reset_token self).
End NewConnectionId.

Module RetireConnectionId.
Definition TAG : Z := 25.
Record t := mk { sequence_number : Z }.
Definition tag (_ : t) : Z := TAG.
Definition decode (_tag : Z) (buffer : list Z) : outcome (decoded t) :=
  let+ '(sequence_number, buffer) := Ret (VarIntCodec.decode buffer) in
  Ret (Ok (mk sequence_number, buffer)).
Definition encode (be : bool) (self : t) : encoder_prog :=
  enc_uint 1 TAG ;;; VarIntCodec.encode be (sequence_number self).
End RetireConnectionId.

Module PathChallenge.
Definition TAG : Z := 26.
Definition DATA_LEN : Z := 8.
Record t := mk { data : list Z }.
Definition tag (_ : t) : Z := TAG.
Definition decode (_tag : Z) (buffer : list Z) : outcome (decoded t) :=
  let+ '(data, buffer) := Ret (decode_slice buffer DATA_LEN) in
  let! data := expect_array DATA_LEN data in
  Ret (Ok (mk data, buffer)).
Definition encode (self : t) : encoder_prog := enc_uint 1 (tag self) ;;; enc_slice (data self).
End PathChallenge.

Module PathResponse.
Definition TAG : Z := 27.
Record t := mk { data : list Z }.
Definition tag (_ : t) : Z := TAG.
(** [From<PathChallenge>]. *)
Definition from (path_challenge : PathChallenge.t) : t := mk (PathChallenge.data path_challenge).
Definition decode (_tag : Z) (buffer : list Z) : outcome (decoded t) :=
  let+ '(path_challenge, buffer) := PathChallenge.decode PathChallenge.TAG buffer in
  Ret (Ok (from path_challenge, buffer)).
Definition encode (self : t) : encoder_prog := enc_uint 1 (tag self) ;;; enc_slice (data self).
End PathResponse.

Module ConnectionClose.
Definition QUIC_ERROR_TAG : Z := 28.
Definition APPLICATION_ERROR_TAG : Z := 29.
Record t := mk { error_code : Z; frame_type : option Z; reason : option (list Z) }.
Definition tag (self : t) : Z :=
  match frame_type self with Some _ => QUIC_ERROR_TAG | None => APPLICATION_ERROR_TAG end.
(** [application::error::TryInto]. *)
Definition application_error (self : t) : option Z :=
  match frame_type self with None => Some (error_code self) | Some _ => None end.
Definition decode (tag : Z) (buffer : list Z) : outcome (decoded t) :=
  let+ '(error_code, buffer) := Ret (VarIntCodec.decode buffer) in
  let+ '(frame_type, buffer) :=
    if tag =? QUIC_ERROR_TAG then
      let+ '(frame_type, buffer) := Ret (VarIntCodec.decode buffer) in
      Ret (Ok (Some frame_type, buffer))
    else Ret (Ok (None, buffer)) in
  let+ '(reason, buffer) := Ret (decode_slice_with_len_prefix VarIntCodec.decode buffer) in
  let reason := if blen reason =? 0 then None else Some reason in
  Ret (Ok (mk error_code frame_type reason, buffer)).
Definition encode (be : bool) (self : t) : encoder_prog :=
  enc_uint 1 (tag self) ;;; VarIntCodec.encode be (error_code self) ;;;
  enc_option (VarIntCodec.encode be) (frame_type self) ;;;
  match reason self with
  | Some reason => encode_with_len_prefix (enc_varint_len be) (enc_slice reason)
  | None => enc_uint 1 0
  end.
End ConnectionClose.

Module HandshakeDone.
Definition TAG : Z := 30.
Inductive t := mk.
Definition tag (_ : t) : Z := TAG.
Definition decode (_tag : Z) (buffer : list Z) : outcome (decoded t) := Ret (Ok (mk, buffer)).
Definition encode (self : t) : encoder_prog := enc_uint 1 TAG.
End HandshakeDone.

Module Datagram.
Definition DATAGRAM_TAG : Z := 48.
Definition LEN_BIT : Z := 1.
Record t := mk { is_last_frame : bool; data : list Z }.
Definition tag (self : t) : Z :=
  let tag := DATAGRAM_TAG in
  if negb (is_last_frame self) then Z.lor tag LEN_BIT else tag.
Definition decode (tag : Z) (buffer : list Z) : outcome (decoded t) :=
  let is_last_frame := negb (Z.land tag LEN_BIT =? LEN_BIT) in
  let+ '(data, buffer) := decode_data is_last_frame buffer in
  Ret (Ok (mk is_last_frame data, buffer)).
Definition encode (be : bool) (self : t) : encoder_prog :=
  enc_uint 1 (tag self) ;;; encode_data be (is_last_frame self) (data self).
End Datagram.

Module DcStatelessResetTokens.
Definition TAG : Z := 14417920.
Definition MAX_STATELESS_RESET_TOKEN_COUNT : Z := 4092.
(** Each token is its 16 bytes. *)
Record t := mk { stateless_reset_tokens : list (list Z) }.
Definition tag (_ : t) : Z := TAG.

Definition new (tokens : list (list Z)) : result t string :=
  if vlen tokens =? 0 then Err "at least one stateless reset token is required"%string
  else if MAX_STATELESS_RESET_TOKEN_COUNT <? vlen tokens
  then Err "too many stateless reset tokens"%string
  else Ok (mk tokens).

Section FromPrefix.
(** zerocopy's [ref_from_prefix_with_elems] / [mut_from_prefix_with_elems] at
    the type [[stateless_reset::Token]]. *)
Variable slice_from_prefix : list Z -> Z -> option (list (list Z) * list Z).

Definition decode (_tag : Z) (buffer : list Z) : outcome (decoded t) :=
  let+ '(count, buffer) := Ret (VarIntCodec.decode buffer) in
  let+ _ := decoder_invariant (0 <? count) "at least one stateless token must be supplied" in
  let+ _ := decoder_invariant (count <=? MAX_STATELESS_RESET_TOKEN_COUNT)
              "too many stateless reset tokens" in
  match slice_from_prefix buffer count with
  | Some (tokens, remaining) => Ret (Ok (mk tokens, remaining))
  | None => Ret (Err (InvariantViolation "invalid encoding"))
  end.
End FromPrefix.

Definition encode (be : bool) (self : t) : encoder_prog := fun E H e =>
  let! e := VarIntCodec.encode be TAG E H e in
  let! count := unwrap (VarInt.ok (VarInt.new (vlen (stateless_reset_tokens self)))) in
  let! e := VarIntCodec.encode be count E H e in
  enc_slice (List.concat (stateless_reset_tokens self)) E H e.
End DcStatelessResetTokens.

Module MtuProbingComplete.
Definition TAG : Z := 14417922.
Record t := mk { mtu : Z }.
Definition tag (_ : t) : Z := TAG.
Definition decode (_tag : Z) (buffer : list Z) : outcome (decoded t) :=
  let+ '(mtu, buffer) := Ret (decode_uint 2 buffer) in
  Ret (Ok (mk mtu, buffer)).
Definition encode (be : bool) (self : t) : encoder_prog :=
  VarIntCodec.encode be TAG ;;; enc_uint 2 (mtu self).
End MtuProbingComplete.

(** ** All frames *)
Module Frame.

Inductive t (AckRanges : Type) :=
| Padding (frame : Padding.t)
| Ping (frame : Ping.t)
| Ack (frame : Ack.t AckRanges)
| ResetStream (frame : ResetStream.t)
| StopSending (frame : StopSending.t)
| Crypto (frame : Crypto.t)
| NewToken (frame : NewToken.t)
| Stream (frame : Stream.t)
| MaxData (frame : MaxData.t)
| MaxStreamData (frame : MaxStreamData.t)
| MaxStreams (frame : MaxStreams.t)
| DataBlocked (frame : DataBlocked.t)
| StreamDataBlocked (frame : StreamDataBlocked.t)
| StreamsBlocked (frame : StreamsBlocked.t)
| NewConnectionId (frame : NewConnectionId.t)
| RetireConnectionId (frame : RetireConnectionId.t)
| PathChallenge (frame : PathChallenge.t)
| PathResponse (frame : PathResponse.t)
| ConnectionClose (frame : ConnectionClose.t)
| HandshakeDone (frame : HandshakeDone.t)
| Datagram (frame : Datagram.t)
| DcStatelessResetTokens (frame : DcStatelessResetTokens.t)
| MtuProbingComplete (frame : MtuProbingComplete.t).
Arguments Padding {AckRanges}.
Arguments Ping {AckRanges}.
Arguments Ack {AckRanges}.
Arguments ResetStream {AckRanges}.
Arguments StopSending {AckRanges}.
Arguments Crypto {AckRanges}.
Arguments NewToken {AckRanges}.
Arguments Stream {AckRanges}.
Arguments MaxData {AckRanges}.
Arguments MaxStreamData {AckRanges}.
Arguments MaxStreams {AckRanges}.
Arguments DataBlocked {AckRanges}.
Arguments StreamDataBlocked {AckRanges}.
Arguments StreamsBlocked {AckRanges}.
Arguments NewConnectionId {AckRanges}.
Arguments RetireConnectionId {AckRanges}.
Arguments PathChallenge {AckRanges}.
Arguments PathResponse {AckRanges}.
Arguments ConnectionClose {AckRanges}.
Arguments HandshakeDone {AckRanges}.
Arguments Datagram {AckRanges}.
Arguments DcStatelessResetTokens {AckRanges}.
Arguments MtuProbingComplete {AckRanges}.

Definition encode (be : bool) (self : t (list (Z * Z))) : encoder_prog :=
  match self with
  | Padding f => Frames.Padding.encode f
  | Ping f => Frames.Ping.encode f
  | Ack f => FrameAck.Ack.encode be f
  | ResetStream f => Frames.ResetStream.encode be f
  | StopSending f => Frames.StopSending.encode be f
  | Crypto f => Frames.Crypto.encode be f
  | NewToken f => Frames.NewToken.encode be f
  | Stream f => Frames.Stream.encode be f
  | MaxData f => Frames.MaxData.encode be f
  | MaxStreamData f => Frames.MaxStreamData.encode be f
  | MaxStreams f => Frames.MaxStreams.encode be f
  | DataBlocked f => Frames.DataBlocked.encode be f
  | StreamDataBlocked f => Frames.StreamDataBlocked.encode be f
  | StreamsBlocked f => Frames.StreamsBlocked.encode be f
  | NewConnectionId f => Frames.NewConnectionId.encode be f
  | RetireConnectionId f => Frames.RetireConnectionId.encode be f
  | PathChallenge f => Frames.PathChallenge.encode f
  | PathResponse f => Frames.PathResponse.encode f
  | ConnectionClose f => Frames.ConnectionClose.encode be f
  | HandshakeDone f => Frames.HandshakeDone.encode f
  | Datagram f => Frames.Datagram.encode be f
  | DcStatelessResetTokens f => Frames.DcStatelessResetTokens.encode be f
  | MtuProbingComplete f => Frames.MtuProbingComplete.encode be f
  end.

(** [AckElicitable], [CongestionControlled] and [Probing]: the defaults of the
    traits and the frames that override them. *)
Inductive AckElicitation := NonEliciting | Eliciting.
Inductive Probe := NonProbing | Probing.

Definition ack_elicitation {A} (self : t A) : AckElicitation :=
  match self with
  | Ack _ | ConnectionClose _ | Padding _ => NonEliciting
  | _ => Eliciting
  end.

Definition is_congestion_controlled {A} (self : t A) : bool :=
  match self with
  | Ack _ | Padding _ => false
  | _ => true
  end.

Definition path_validation {A} (self : t A) : Probe :=
  match self with
  | NewConnectionId _ | Padding _ | PathChallenge _ | PathResponse _ => Probing
  | _ => NonProbing
  end.

(** [BitOr] of the classifications: what a packet of several frames is. *)
Definition ack_elicitation_or (self rhs : AckElicitation) : AckElicitation :=
  match self, rhs with
  | Eliciting, _ => Eliciting
  | _, Eliciting => Eliciting
  | _, _ => NonEliciting
  end.

Definition probe_or (self rhs : Probe) : Probe :=
  match self, rhs with
  | Probing, Probing => Probing
  | _, _ => NonProbing
  end.

Section Decode.
Variable slice_from_prefix : list Z -> Z -> option (list (list Z) * list Z).

(** The body of one arm of the dispatch: decode the frame, hand it to its
    handler ([BasicFrameDecoder]'s wraps it). *)
Definition arm {T} (decode : Z -> list Z -> outcome (decoded T)) (handler : T -> t AckRangesDecoder)
    (tag : Z) (buffer : list Z) : outcome (decoded (t AckRangesDecoder)) :=
  let+ '(frame, buffer) := decode tag buffer in
  Ret (Ok (handler frame, buffer)).

(** An arm for a one-byte tag first skips the tag. *)
Definition tag_arm {T} (decode : Z -> list Z -> outcome (decoded T)) (handler : T -> t AckRangesDecoder)
    (tag : Z) (buffer : list Z) : outcome (decoded (t AckRangesDecoder)) :=
  let+ buffer := Ret (skip buffer 1) in
  arm decode handler tag buffer.

Definition handle_extension_frame (buffer : list Z) : outcome (decoded (t AckRangesDecoder)) :=
  let+ '(tag, buffer) := Ret (VarIntCodec.decode buffer) in
  if tag =? Frames.DcStatelessResetTokens.TAG then
    arm (Frames.DcStatelessResetTokens.decode slice_from_prefix) DcStatelessResetTokens tag buffer
  else if tag =? Frames.MtuProbingComplete.TAG then
    arm Frames.MtuProbingComplete.decode MtuProbingComplete tag buffer
  else Ret (Err (InvariantViolation "invalid frame")).

Definition in_range (lo hi tag : Z) : bool := (lo <=? tag) && (tag <=? hi).

Definition decode_frame (buffer : list Z) : outcome (decoded (t AckRangesDecoder)) :=
  let+ tag := Ret (peek_byte buffer 0) in
  if in_range 64 255 tag then handle_extension_frame buffer
  else if tag =? 0 then tag_arm Frames.Padding.decode Padding tag buffer
  else if tag =? 1 then tag_arm Frames.Ping.decode Ping tag buffer
  else if in_range 2 3 tag then tag_arm FrameAck.Ack.decode Ack tag buffer
  else if tag =? 4 then tag_arm Frames.ResetStream.decode ResetStream tag buffer
  else if tag =? 5 then tag_arm Frames.StopSending.decode StopSending tag buffer
  else if tag =? 6 then tag_arm Frames.Crypto.decode Crypto tag buffer
  else if tag =? 7 then tag_arm Frames.NewToken.decode NewToken tag buffer
  else if in_range 8 15 tag then tag_arm Frames.Stream.decode Stream tag buffer
  else if tag =? 16 then tag_arm Frames.MaxData.decode MaxData tag buffer
  else if tag =? 17 then tag_arm Frames.MaxStreamData.decode MaxStreamData tag buffer
  else if in_range 18 19 tag then tag_arm Frames.MaxStreams.decode MaxStreams tag buffer
  else if tag =? 20 then tag_arm Frames.DataBlocked.decode DataBlocked tag buffer
  else if tag =? 21 then tag_arm Frames.StreamDataBlocked.decode StreamDataBlocked tag buffer
  else if in_range 22 23 tag then tag_arm Frames.StreamsBlocked.decode StreamsBlocked tag buffer
  else if tag =? 24 then tag_arm Frames.NewConnectionId.decode NewConnectionId tag buffer
  else if tag =? 25 then tag_arm Frames.RetireConnectionId.decode RetireConnectionId tag buffer
  else if tag =? 26 then tag_arm Frames.PathChallenge.decode PathChallenge tag buffer
  else if tag =? 27 then tag_arm Frames.PathResponse.decode PathResponse tag buffer
  else if in_range 28 29 tag then tag_arm Frames.ConnectionClose.decode ConnectionClose tag buffer
  else if tag =? 30 then tag_arm Frames.HandshakeDone.decode HandshakeDone tag buffer
  else if in_range 48 49 tag then tag_arm Frames.Datagram.decode Datagram tag buffer
  else handle_extension_frame buffer.

End Decode.

End Frame.
