(* ===== verification/FrameCodec.v ===== *)
(** * Correctness of the frame codec

    What each frame looks like on the wire ([frame_wire]), which frames can be
    written ([frame_ok]) and what may follow them ([frame_follows]); encoding
    produces the wire form and decoding it gives the frame back, for every
    frame type; decoding arbitrary bytes never panics, consumes at least a byte
    and yields only frames that can be written again. *)
From stdpp Require Import strings.
From S2P Require Import Prelude Codec VarInt StreamId FrameAck Frames.

(** ** Specification *)

Definition prefixed (bs : list Z) : list Z := VarIntCodec.wire (blen bs) ++ bs.

Definition data_wire (is_last_frame : bool) (data : list Z) : list Z :=
  if is_last_frame then data else prefixed data.

Definition data_ok (is_last_frame : bool) (data : list Z) : Prop :=
  blen data < 2 ^ 63 /\ (is_last_frame = false -> blen data <= MAX_VARINT_VALUE).

Definition frame_ok (f : Frame.t (list (Z * Z))) : Prop :=
  match f with
  | Frame.Padding f => 1 <= Padding.length f < 2 ^ 63
  | Frame.Ping _ | Frame.HandshakeDone _ => True
  | Frame.Ack f => ack_ok f
  | Frame.ResetStream f =>
      varint_ok (ResetStream.stream_id f) /\ varint_ok (ResetStream.application_error_code f)
      /\ varint_ok (ResetStream.final_size f)
  | Frame.StopSending f =>
      varint_ok (StopSending.stream_id f) /\ varint_ok (StopSending.application_error_code f)
  | Frame.Crypto f => varint_ok (Crypto.offset f) /\ blen (Crypto.data f) <= MAX_VARINT_VALUE
  | Frame.NewToken f => 1 <= blen (NewToken.token f) <= MAX_VARINT_VALUE
  | Frame.Stream f =>
      varint_ok (Stream.stream_id f) /\ varint_ok (Stream.offset f)
      /\ data_ok (Stream.is_last_frame f) (Stream.data f)
  | Frame.MaxData f => varint_ok (MaxData.maximum_data f)
  | Frame.MaxStreamData f =>
      varint_ok (MaxStreamData.stream_id f) /\ varint_ok (MaxStreamData.maximum_stream_data f)
  | Frame.MaxStreams f => 0 <= MaxStreams.maximum_streams f <= 2 ^ 60
  | Frame.DataBlocked f => varint_ok (DataBlocked.data_limit f)
  | Frame.StreamDataBlocked f =>
      varint_ok (StreamDataBlocked.stream_id f) /\ varint_ok (StreamDataBlocked.stream_data_limit f)
  | Frame.StreamsBlocked f => 0 <= StreamsBlocked.stream_limit f <= 2 ^ 60
  | Frame.NewConnectionId f =>
      varint_ok (NewConnectionId.sequence_number f)
      /\ 0 <= NewConnectionId.retire_prior_to f <= NewConnectionId.sequence_number f
      /\ 1 <= blen (NewConnectionId.connection_id f) <= 20
      /\ blen (NewConnectionId.stateless_reset_token f) = 16
  | Frame.RetireConnectionId f => varint_ok (RetireConnectionId.sequence_number f)
  | Frame.PathChallenge f => blen (PathChallenge.data f) = 8
  | Frame.PathResponse f => blen (PathResponse.data f) = 8
  | Frame.ConnectionClose f =>
      varint_ok (ConnectionClose.error_code f)
      /\ (forall v, ConnectionClose.frame_type f = Some v -> varint_ok v)
      /\ (forall r, ConnectionClose.reason f = Some r -> 1 <= blen r <= MAX_VARINT_VALUE)
  | Frame.Datagram f => data_ok (Datagram.is_last_frame f) (Datagram.data f)
  | Frame.DcStatelessResetTokens f =>
      1 <= vlen (DcStatelessResetTokens.stateless_reset_tokens f) <= 4092
      /\ Forall (fun tok => blen tok = 16) (DcStatelessResetTokens.stateless_reset_tokens f)
  | Frame.MtuProbingComplete f => uint 16 (MtuProbingComplete.mtu f)
  end.

(** The bytes of a frame. *)
Definition frame_wire (f : Frame.t (list (Z * Z))) : list Z :=
  match f with
  | Frame.Padding f => replicate (Z.to_nat (Padding.length f)) 0
  | Frame.Ping _ => [1]
  | Frame.Ack f => Ack.tag f :: ack_body f
  | Frame.ResetStream f =>
      4 :: VarIntCodec.wire (ResetStream.stream_id f)
        ++ VarIntCodec.wire (ResetStream.application_error_code f)
        ++ VarIntCodec.wire (ResetStream.final_size f)
  | Frame.StopSending f =>
      5 :: VarIntCodec.wire (StopSending.stream_id f)
        ++ VarIntCodec.wire (StopSending.application_error_code f)
  | Frame.Crypto f => 6 :: VarIntCodec.wire (Crypto.offset f) ++ prefixed (Crypto.data f)
  | Frame.NewToken f => 7 :: prefixed (NewToken.token f)
  | Frame.Stream f =>
      Stream.tag f :: VarIntCodec.wire (Stream.stream_id f)
        ++ (if negb (Stream.offset f =? 0) then VarIntCodec.wire (Stream.offset f) else [])
        ++ data_wire (Stream.is_last_frame f) (Stream.data f)
  | Frame.MaxData f => 16 :: VarIntCodec.wire (MaxData.maximum_data f)
  | Frame.MaxStreamData f =>
      17 :: VarIntCodec.wire (MaxStreamData.stream_id f)
        ++ VarIntCodec.wire (MaxStreamData.maximum_stream_data f)
  | Frame.MaxStreams f => MaxStreams.tag f :: VarIntCodec.wire (MaxStreams.maximum_streams f)
  | Frame.DataBlocked f => 20 :: VarIntCodec.wire (DataBlocked.data_limit f)
  | Frame.StreamDataBlocked f =>
      21 :: VarIntCodec.wire (StreamDataBlocked.stream_id f)
        ++ VarIntCodec.wire (StreamDataBlocked.stream_data_limit f)
  | Frame.StreamsBlocked f => StreamsBlocked.tag f :: VarIntCodec.wire (StreamsBlocked.stream_limit f)
  | Frame.NewConnectionId f =>
      24 :: VarIntCodec.wire (NewConnectionId.sequence_number f)
        ++ VarIntCodec.wire (NewConnectionId.retire_prior_to f)
        ++ (blen (NewConnectionId.connection_id f) :: NewConnectionId.connection_id f)
        ++ NewConnectionId.stateless_reset_token f
  | Frame.RetireConnectionId f => 25 :: VarIntCodec.wire (RetireConnectionId.sequence_number f)
  | Frame.PathChallenge f => 26 :: PathChallenge.data f
  | Frame.PathResponse f => 27 :: PathResponse.data f
  | Frame.ConnectionClose f =>
      ConnectionClose.tag f :: VarIntCodec.wire (ConnectionClose.error_code f)
        ++ from_option VarIntCodec.wire [] (ConnectionClose.frame_type f)
        ++ from_option prefixed [0] (ConnectionClose.reason f)
  | Frame.HandshakeDone _ => [30]
  | Frame.Datagram f => Datagram.tag f :: data_wire (Datagram.is_last_frame f) (Datagram.data f)
  | Frame.DcStatelessResetTokens f =>
      VarIntCodec.wire DcStatelessResetTokens.TAG
        ++ VarIntCodec.wire (vlen (DcStatelessResetTokens.stateless_reset_tokens f))
        ++ concat (DcStatelessResetTokens.stateless_reset_tokens f)
  | Frame.MtuProbingComplete f =>
      VarIntCodec.wire MtuProbingComplete.TAG ++ be_bytes 2 (MtuProbingComplete.mtu f)
  end.

(** What may follow a frame in a packet: padding extends over further zero
    bytes, and a frame without length is the last one. *)
Definition frame_follows (f : Frame.t (list (Z * Z))) (rest : list Z) : Prop :=
  match f with
  | Frame.Padding _ => head rest <> Some 0
  | Frame.Stream f => Stream.is_last_frame f = true -> rest = []
  | Frame.Datagram f => Datagram.is_last_frame f = true -> rest = []
  | _ => True
  end.

(** A decoded frame with its ACK ranges iterated. *)
Definition frame_view (f : Frame.t AckRangesDecoder) : Frame.t (list (Z * Z)) :=
  match f with
  | Frame.Ack f => Frame.Ack (ack_map AckRangesDec.ack_ranges f)
  | Frame.Padding f => Frame.Padding f
  | Frame.Ping f => Frame.Ping f
  | Frame.ResetStream f => Frame.ResetStream f
  | Frame.StopSending f => Frame.StopSending f
  | Frame.Crypto f => Frame.Crypto f
  | Frame.NewToken f => Frame.NewToken f
  | Frame.Stream f => Frame.Stream f
  | Frame.MaxData f => Frame.MaxData f
  | Frame.MaxStreamData f => Frame.MaxStreamData f
  | Frame.MaxStreams f => Frame.MaxStreams f
  | Frame.DataBlocked f => Frame.DataBlocked f
  | Frame.StreamDataBlocked f => Frame.StreamDataBlocked f
  | Frame.StreamsBlocked f => Frame.StreamsBlocked f
  | Frame.NewConnectionId f => Frame.NewConnectionId f
  | Frame.RetireConnectionId f => Frame.RetireConnectionId f
  | Frame.PathChallenge f => Frame.PathChallenge f
  | Frame.PathResponse f => Frame.PathResponse f
  | Frame.ConnectionClose f => Frame.ConnectionClose f
  | Frame.HandshakeDone f => Frame.HandshakeDone f
  | Frame.Datagram f => Frame.Datagram f
  | Frame.DcStatelessResetTokens f => Frame.DcStatelessResetTokens f
  | Frame.MtuProbingComplete f => Frame.MtuProbingComplete f
  end.

(** zerocopy's documentation of [ref_from_prefix_with_elems] for 16-byte,
    unaligned elements: the first [count] elements and the remaining bytes, or
    an error when the slice is too short. *)
Definition from_prefix_spec (slice_from_prefix : list Z -> Z -> option (list (list Z) * list Z)) : Prop :=
  forall buf count, 0 <= count ->
  match slice_from_prefix buf count with
  | Some (tokens, rest) =>
      buf = concat tokens ++ rest /\ vlen tokens = count /\ Forall (fun tok => blen tok = 16) tokens
  | None => blen buf < 16 * count
  end.

(** ** Encoding *)

Lemma enc_varint_len_spec be n :
  varint_ok n -> enc_varint_len be n = Some (VarIntCodec.encode be n).
Proof. intros [_ Hn]. unfold enc_varint_len, VarInt.new. by zcases. Qed.

Lemma encodes_as_prefixed be bs :
  blen bs <= MAX_VARINT_VALUE ->
  encodes_as (encode_with_len_prefix (enc_varint_len be) (enc_slice bs)) (prefixed bs).
Proof.
  intros Hb. pose proof (blen_nonneg bs). assert (varint_ok (blen bs)) by (by split).
  unfold MAX_VARINT_VALUE in Hb.
  eapply encodes_as_len_prefix; [apply encodes_as_slice | lia | by apply enc_varint_len_spec |].
  by apply encodes_as_varint.
Qed.

Lemma be_bytes_1 b : byte_ok b -> be_bytes 1 b = [b].
Proof.
  intros Hb. simpl. rewrite Z.shiftr_0_r. f_equal. change 255 with (Z.ones 8).
  rewrite Z.land_ones by lia. by apply Z.mod_small.
Qed.

Lemma encodes_as_u8_prefixed bs :
  blen bs < 256 ->
  encodes_as (encode_with_len_prefix enc_u8_len (enc_slice bs)) (blen bs :: bs).
Proof.
  intros Hb. pose proof (blen_nonneg bs). change (blen bs :: bs) with ([blen bs] ++ bs).
  rewrite <- be_bytes_1 by (split; lia).
  eapply encodes_as_len_prefix; [apply encodes_as_slice | lia | | apply encodes_as_uint].
  unfold enc_u8_len. by zcases.
Qed.

Lemma encodes_as_tag tag p bs :
  byte_ok tag -> encodes_as p bs -> encodes_as (enc_uint 1 tag ;;; p) (tag :: bs).
Proof.
  intros Ht Hp. change (tag :: bs) with ([tag] ++ bs). apply encodes_as_seq; [| done].
  rewrite <- be_bytes_1 by done. apply encodes_as_uint.
Qed.

Lemma encodes_as_data be last data :
  data_ok last data -> encodes_as (encode_data be last data) (data_wire last data).
Proof.
  intros [H1 H2]. unfold encode_data, data_wire. destruct last; [apply encodes_as_slice |].
  by apply encodes_as_prefixed, H2.
Qed.

Lemma stream_tag_range f : 8 <= Stream.tag f <= 15.
Proof. unfold Stream.tag. by destruct (_ =? _), (Stream.is_last_frame f), (Stream.is_fin f). Qed.

Lemma datagram_tag_range f : 48 <= Datagram.tag f <= 49.
Proof. unfold Datagram.tag. by destruct (Datagram.is_last_frame f). Qed.

Create HintDb encodes.
#[local] Hint Resolve encodes_as_varint encodes_as_slice encodes_as_prefixed encodes_as_data
  encodes_as_u8_prefixed encodes_as_nop encodes_as_uint : encodes.

Lemma encodes_as_frame be f : frame_ok f -> encodes_as (Frame.encode be f) (frame_wire f).
Proof.
  destruct f as [f | f | f | f | f | f | f | f | f | f | f | f | f | f | f | f | f | f | f | f | f | f | f];
    cbn [frame_ok frame_wire Frame.encode]; intros Hok;
    try (repeat match goal with H : _ /\ _ |- _ => destruct H end; apply encodes_as_tag; [by split |];
         solve [repeat apply encodes_as_seq; auto with encodes]).
  - apply encodes_as_repeated; lia.
  - apply encodes_as_uint.
  - by apply encodes_as_ack.
  - pose proof (stream_tag_range f). apply encodes_as_tag; [split; lia |].
    destruct Hok as (H1 & H2 & H3). repeat apply encodes_as_seq; auto with encodes.
    destruct (negb _); auto with encodes.
  - apply encodes_as_tag; [by destruct f as [[] ?] |]. apply encodes_as_varint.
    split; unfold MAX_VARINT_VALUE; lia.
  - apply encodes_as_tag; [by destruct f as [[] ?] |]. apply encodes_as_varint.
    split; unfold MAX_VARINT_VALUE; lia.
  - destruct Hok as (H1 & H2 & H3 & H4). apply encodes_as_tag; [by split |].
    destruct H1. repeat apply encodes_as_seq; auto with encodes.
    + apply encodes_as_varint. split; lia.
    + apply encodes_as_varint. split; lia.
    + apply encodes_as_u8_prefixed. lia.
  - destruct Hok as (H1 & H2 & H3). apply encodes_as_tag; [by destruct f as [? [] ?] |].
    repeat apply encodes_as_seq; [auto with encodes | |].
    + apply encodes_as_option. auto with encodes.
    + destruct (ConnectionClose.reason f) as [r |]; simpl; [| apply (encodes_as_uint 1 0)].
      apply encodes_as_prefixed. destruct (H3 r eq_refl). lia.
  - apply encodes_as_uint.
  - pose proof (datagram_tag_range f). apply encodes_as_tag; [split; lia |]. auto with encodes.
  - destruct Hok as [H1 H2]. set (n := vlen _) in *.
    apply (encodes_as_ext _ (VarIntCodec.encode be DcStatelessResetTokens.TAG
      ;;; VarIntCodec.encode be n ;;; enc_slice (concat (DcStatelessResetTokens.stateless_reset_tokens f)))).
    + intros E H e. unfold DcStatelessResetTokens.encode, enc_seq, VarInt.new, MAX_VARINT_VALUE.
      fold n. by zcases.
    + repeat apply encodes_as_seq; auto with encodes; apply encodes_as_varint;
        split; unfold DcStatelessResetTokens.TAG, MAX_VARINT_VALUE; lia.
  - apply encodes_as_seq; auto with encodes. by apply encodes_as_varint.
Qed.

(** ** Decoding what was encoded *)

Lemma decode_buffer_all bs : decode_buffer bs = Ok (bs, []).
Proof. unfold decode_buffer. rewrite <- (app_nil_r bs) at 1. apply decode_slice_app. Qed.

Lemma decode_prefixed bs rest :
  blen bs <= MAX_VARINT_VALUE ->
  decode_with_len_prefix VarIntCodec.decode decode_buffer (prefixed bs ++ rest) = Ok (bs, rest)
  /\ decode_slice_with_len_prefix VarIntCodec.decode (prefixed bs ++ rest) = Ok (bs, rest).
Proof.
  intros Hb. pose proof (blen_nonneg bs). unfold prefixed. rewrite <- app_assoc.
  assert (VarIntCodec.decode (VarIntCodec.wire (blen bs) ++ bs ++ rest) = Ok (blen bs, bs ++ rest))
    by (by apply varint_decode_wire; split).
  unfold MAX_VARINT_VALUE in Hb. split.
  - apply decode_with_len_prefix_app; [done | lia | apply decode_buffer_all].
  - apply decode_slice_with_len_prefix_app; [done | lia].
Qed.

Lemma decode_data_wire last data rest :
  data_ok last data -> (last = true -> rest = []) ->
  decode_data last (data_wire last data ++ rest) = Ret (Ok (data, rest)).
Proof.
  intros [H1 H2] Hr. unfold decode_data, data_wire. destruct last; simpl negb; cbv iota.
  - rewrite Hr, app_nil_r by done. rewrite <- (app_nil_r data) at 1. rewrite decode_slice_app.
    cbn [orbind obind]. by rewrite decode_buffer_all.
  - by rewrite (proj1 (decode_prefixed data rest (H2 eq_refl))).
Qed.

Lemma skip_cons b rest : skip (b :: rest) 1 = Ok rest.
Proof.
  unfold skip. change (b :: rest) with ([b] ++ rest). change 1 with (blen [b]).
  by rewrite decode_slice_app.
Qed.

Lemma arm_spec {T} dec (h : T -> Frame.t AckRangesDecoder) tag buf f rest :
  dec tag buf = Ret (Ok (f, rest)) -> Frame.arm dec h tag buf = Ret (Ok (h f, rest)).
Proof. intros Hd. unfold Frame.arm. by rewrite Hd. Qed.

Lemma tag_arm_spec {T} dec (h : T -> Frame.t AckRangesDecoder) tag b buf :
  Frame.tag_arm dec h tag (b :: buf) = Frame.arm dec h tag buf.
Proof. unfold Frame.tag_arm. by rewrite skip_cons. Qed.

(** Evaluate the dispatch on a known tag. *)
Ltac dispatch :=
  unfold Frame.decode_frame; rewrite peek_byte_cons; cbn [orbind obind];
  repeat (match goal with
          | |- (if ?b then _ else _) = _ => let v := eval vm_compute in b in change b with v
          end; cbv iota);
  rewrite tag_arm_spec.

Lemma scan_zeros m : forall fuel k rest, (m < fuel)%nat -> head rest <> Some 0 ->
  Padding.scan fuel (replicate (k + m) 0 ++ rest) (Z.of_nat k) = Z.of_nat (k + m).
Proof.
  induction m as [| m IH]; intros fuel k rest Hf Hr; (destruct fuel as [| fuel]; [lia |]);
    cbn [Padding.scan]; unfold peek_byte; rewrite blen_app, blen_replicate, Nat2Z.id.
  - rewrite Nat.add_0_r. rewrite lookup_app_r, length_replicate, Nat.sub_diag by (rewrite length_replicate; lia).
    destruct rest as [| b rest]; [by zcases |]. simpl in *. destruct (Z.eqb_spec b Padding.TAG) as [-> |]; [done |].
    by zcases.
  - rewrite lookup_app_l, lookup_replicate_2 by (rewrite ?length_replicate; lia).
    pose proof (blen_nonneg rest).
    destruct (Z.ltb_spec (Z.of_nat k) (Z.of_nat (k + S m) + blen rest)); [| lia].
    change (0 =? Padding.TAG) with true. cbv iota.
    replace (Z.of_nat k + 1) with (Z.of_nat (S k)) by lia. replace (k + S m)%nat with (S k + m)%nat by lia.
    apply IH; [lia | done].
Qed.

Lemma padding_decode n rest :
  head rest <> Some 0 ->
  Padding.decode 0 (replicate n 0 ++ rest) = Ret (Ok (Padding.mk (Z.of_nat n + 1), rest)).
Proof.
  intros Hr. unfold Padding.decode.
  pose proof (scan_zeros n (S (length (replicate n 0 ++ rest))) 0 rest) as Hs.
  simpl Nat.add in Hs. change (Z.of_nat 0) with 0 in Hs. rewrite Hs by (rewrite ?length_app, ?length_replicate; done || lia).
  unfold skip. rewrite <- (blen_replicate n 0), decode_slice_app. by rewrite blen_replicate.
Qed.

(** Decode the VarInts at the front. *)
Ltac decode_varints :=
  repeat (rewrite varint_decode_wire
            by (done || (split; unfold MAX_VARINT_VALUE in *; cbn in *; lia)); cbn [orbind obind]).

(** A frame of VarInts only. *)
Ltac simple_frame f :=
  eexists; split;
  [dispatch; apply arm_spec;
   unfold ResetStream.decode, StopSending.decode, MaxData.decode, MaxStreamData.decode,
     DataBlocked.decode, StreamDataBlocked.decode, RetireConnectionId.decode;
   decode_varints; reflexivity
  | by destruct f].

Lemma stream_tag_bits f :
  (Z.land (Stream.tag f) Stream.OFF_BIT =? Stream.OFF_BIT) = negb (Stream.offset f =? 0)
  /\ (Z.land (Stream.tag f) Stream.LEN_BIT =? Stream.LEN_BIT) = negb (Stream.is_last_frame f)
  /\ (Z.land (Stream.tag f) Stream.FIN_BIT =? Stream.FIN_BIT) = Stream.is_fin f.
Proof. unfold Stream.tag. by destruct (Stream.offset f =? 0), (Stream.is_last_frame f), (Stream.is_fin f). Qed.

Lemma stream_decode f rest :
  varint_ok (Stream.stream_id f) -> varint_ok (Stream.offset f) ->
  data_ok (Stream.is_last_frame f) (Stream.data f) ->
  (Stream.is_last_frame f = true -> rest = []) ->
  Stream.decode (Stream.tag f) (VarIntCodec.wire (Stream.stream_id f)
    ++ (if negb (Stream.offset f =? 0) then VarIntCodec.wire (Stream.offset f) else [])
    ++ data_wire (Stream.is_last_frame f) (Stream.data f) ++ rest)
  = Ret (Ok (f, rest)).
Proof.
  intros H1 H2 H3 Hr. unfold Stream.decode. destruct (stream_tag_bits f) as (-> & -> & ->).
  rewrite negb_involutive. decode_varints. destruct f as [id off last fin data]. simpl in *.
  destruct (Z.eqb_spec off 0) as [-> | Hne]; simpl; [| decode_varints];
    rewrite decode_data_wire by done; done.
Qed.

Lemma challenge_decode tag d rest :
  blen d = 8 -> PathChallenge.decode tag (d ++ rest) = Ret (Ok (PathChallenge.mk d, rest)).
Proof.
  intros Hd. unfold PathChallenge.decode, PathChallenge.DATA_LEN. rewrite <- Hd, decode_slice_app.
  cbn [orbind obind]. unfold expect_array. by rewrite Z.eqb_refl.
Qed.

Lemma close_decode f rest :
  varint_ok (ConnectionClose.error_code f) ->
  (forall v, ConnectionClose.frame_type f = Some v -> varint_ok v) ->
  (forall r, ConnectionClose.reason f = Some r -> 1 <= blen r <= MAX_VARINT_VALUE) ->
  ConnectionClose.decode (ConnectionClose.tag f)
    (VarIntCodec.wire (ConnectionClose.error_code f)
     ++ from_option VarIntCodec.wire [] (ConnectionClose.frame_type f)
     ++ from_option prefixed [0] (ConnectionClose.reason f) ++ rest)
  = Ret (Ok (f, rest)).
Proof.
  destruct f as [code ty reason]. simpl. intros H1 H2 H3. unfold ConnectionClose.decode. decode_varints.
  set (body := from_option prefixed [0] reason ++ rest).
  assert (Hb : decode_slice_with_len_prefix VarIntCodec.decode body
               = Ok (default [] reason, rest)).
  { unfold body. destruct reason as [r |]; simpl.
    - apply decode_prefixed. by destruct (H3 r eq_refl).
    - apply (proj2 (decode_prefixed [] rest ltac:(done))). }
  assert (Hr : (if blen (default [] reason) =? 0 then None else Some (default [] reason)) = reason).
  { destruct reason as [r |]; simpl; [| done]. specialize (H3 r eq_refl). by zcases. }
  destruct ty as [v |]; simpl; [rewrite varint_decode_wire by (by apply H2); cbn [orbind obind] |];
    rewrite Hb; cbn [orbind obind]; by rewrite Hr.
Qed.

Lemma new_id_decode tag seq retire cid tok rest :
  varint_ok seq -> 0 <= retire <= seq -> 1 <= blen cid <= 20 -> blen tok = 16 ->
  NewConnectionId.decode tag (VarIntCodec.wire seq ++ VarIntCodec.wire retire
                              ++ (blen cid :: cid) ++ tok ++ rest)
  = Ret (Ok (NewConnectionId.mk seq retire cid tok, rest)).
Proof.
  intros [H1 H1'] H2 H3 H4. unfold NewConnectionId.decode, decoder_invariant.
  rewrite varint_decode_wire by (split; lia). cbn [orbind obind].
  rewrite varint_decode_wire by (split; lia). cbn [orbind obind]. zcases. cbn [orbind obind].
  change (blen cid :: ?x) with ([blen cid] ++ x). rewrite <- app_assoc.
  rewrite <- (be_bytes_1 (blen cid)), decode_uint_app by (split; lia). cbn [orbind obind].
  zcases. cbn [andb orbind obind]. rewrite decode_slice_app. cbn [orbind obind].
  replace NewConnectionId.STATELESS_RESET_TOKEN_LEN with (blen tok) by done.
  rewrite decode_slice_app. cbn [orbind obind]. unfold expect_array. by rewrite Z.eqb_refl.
Qed.

(** The chunks of a concatenation of 16-byte tokens. *)
Lemma concat_tokens_inj (toks toks' : list (list Z)) (rest rest' : list Z) :
  Forall (fun tok => blen tok = 16) toks -> Forall (fun tok => blen tok = 16) toks' ->
  length toks = length toks' -> concat toks ++ rest = concat toks' ++ rest' ->
  toks = toks' /\ rest = rest'.
Proof.
  revert toks'. induction toks as [| t toks IH]; intros [| t' toks'] H H' Hl Hc; try done.
  inversion H; inversion H'; subst. simpl in *. rewrite <- !app_assoc in Hc.
  apply app_inj_1 in Hc as [-> Hc]; [| unfold blen in *; lia].
  by destruct (IH toks' ltac:(done) ltac:(done) ltac:(lia) Hc) as [-> ->].
Qed.

Lemma blen_concat_tokens (toks : list (list Z)) :
  Forall (fun tok => blen tok = 16) toks -> blen (concat toks) = 16 * vlen toks.
Proof.
  induction 1 as [| t toks Ht _ IH]; [done |]. simpl. rewrite blen_app, vlen_cons. lia.
Qed.

Section Decode.
Context (slice_from_prefix : list Z -> Z -> option (list (list Z) * list Z)).
Context (Hprefix : from_prefix_spec slice_from_prefix).

Lemma tokens_decode tag toks rest :
  1 <= vlen toks <= 4092 -> Forall (fun tok => blen tok = 16) toks ->
  DcStatelessResetTokens.decode slice_from_prefix tag
    (VarIntCodec.wire (vlen toks) ++ concat toks ++ rest)
  = Ret (Ok (DcStatelessResetTokens.mk toks, rest)).
Proof.
  intros Hn Ht. unfold DcStatelessResetTokens.decode, decoder_invariant,
    DcStatelessResetTokens.MAX_STATELESS_RESET_TOKEN_COUNT.
  rewrite varint_decode_wire by (split; unfold MAX_VARINT_VALUE; lia). cbn [orbind obind]. zcases.
  cbn [orbind obind]. specialize (Hprefix (concat toks ++ rest) (vlen toks) ltac:(lia)).
  destruct (slice_from_prefix _ _) as [[toks' rest'] |].
  - destruct Hprefix as (H1 & H2 & H3). unfold vlen in H2.
    by destruct (concat_tokens_inj _ _ _ _ Ht H3 ltac:(lia) H1) as [-> ->].
  - rewrite blen_app, blen_concat_tokens in Hprefix by done. pose proof (blen_nonneg rest). lia.
Qed.

Lemma dispatch_ranges tag buf :
  (2 <= tag <= 3 -> Frame.decode_frame slice_from_prefix (tag :: buf)
                    = Frame.arm Ack.decode Frame.Ack tag buf)
  /\ (8 <= tag <= 15 -> Frame.decode_frame slice_from_prefix (tag :: buf)
                        = Frame.arm Stream.decode Frame.Stream tag buf)
  /\ (28 <= tag <= 29 -> Frame.decode_frame slice_from_prefix (tag :: buf)
                         = Frame.arm ConnectionClose.decode Frame.ConnectionClose tag buf)
  /\ (48 <= tag <= 49 -> Frame.decode_frame slice_from_prefix (tag :: buf)
                         = Frame.arm Datagram.decode Frame.Datagram tag buf).
Proof.
  unfold Frame.decode_frame. rewrite peek_byte_cons. cbn [orbind obind]. unfold Frame.in_range.
  split_and!; intros; zcases; cbn [andb]; by rewrite tag_arm_spec.
Qed.

(** The wire forms of the extension tags. *)
Lemma extension_tags :
  VarIntCodec.wire DcStatelessResetTokens.TAG = [128; 220; 0; 0]
  /\ VarIntCodec.wire MtuProbingComplete.TAG = [128; 220; 0; 2].
Proof. by vm_compute. Qed.

Lemma extension_dispatch tag t buf :
  varint_ok tag -> VarIntCodec.wire tag = 128 :: t ->
  Frame.decode_frame slice_from_prefix (VarIntCodec.wire tag ++ buf)
  = (if tag =? DcStatelessResetTokens.TAG then
       Frame.arm (DcStatelessResetTokens.decode slice_from_prefix) Frame.DcStatelessResetTokens tag buf
     else if tag =? MtuProbingComplete.TAG then
       Frame.arm MtuProbingComplete.decode Frame.MtuProbingComplete tag buf
     else Ret (Err (InvariantViolation "invalid frame"))).
Proof.
  intros Hv Ht. unfold Frame.decode_frame. rewrite Ht at 1. simpl app. rewrite peek_byte_cons.
  cbn [orbind obind]. change (Frame.in_range 64 255 128) with true. cbv iota.
  unfold Frame.handle_extension_frame. by rewrite varint_decode_wire.
Qed.

Lemma frame_decode_wire f rest :
  frame_ok f -> frame_follows f rest ->
  exists g, Frame.decode_frame slice_from_prefix (frame_wire f ++ rest) = Ret (Ok (g, rest))
    /\ frame_view g = f.
Proof.
  destruct f as [f | f | f | f | f | f | f | f | f | f | f | f | f | f | f | f | f | f | f | f | f | f | f];
    cbn [frame_ok frame_wire frame_follows]; intros Hok Hf; rewrite <- ?app_comm_cons, <- ?app_assoc;
    rewrite <- ?app_assoc.
  (* Padding *)
  - destruct f as [n]. simpl in *. replace (Z.to_nat n) with (S (Z.to_nat (n - 1))) by lia. simpl.
    eexists. split; [dispatch; apply arm_spec; by apply padding_decode |].
    simpl. do 2 f_equal. lia.
  - eexists. split; [dispatch; by apply arm_spec | by destruct f].
  (* Ack *)
  - exists (Frame.Ack (ack_map ranges_decoder f)). split.
    + assert (2 <= Ack.tag f <= 3) by (by destruct f as [? ? []]).
      rewrite (proj1 (dispatch_ranges _ _)) by done. apply arm_spec. by apply ack_decode_body.
    + simpl. f_equal. destruct f as [delay l ecn]. destruct Hok as (_ & Hl & _).
      unfold ack_map. simpl in *. by rewrite ranges_decoder_ranges.
  - destruct Hok as (H1 & H2 & H3). simple_frame f.
  - destruct Hok as (H1 & H2). simple_frame f.
  (* Crypto *)
  - destruct Hok as (H1 & H2). exists (Frame.Crypto f). split; [| done]. dispatch.
    apply arm_spec. destruct f. unfold Crypto.decode. decode_varints. by rewrite (proj1 (decode_prefixed _ rest H2)).
  (* NewToken *)
  - exists (Frame.NewToken f). split; [| done]. destruct f as [tok]. simpl in Hok. dispatch. apply arm_spec.
    unfold NewToken.decode. simpl NewToken.token. rewrite (proj2 (decode_prefixed tok rest ltac:(lia))).
    cbn [orbind obind]. unfold decoder_invariant. by zcases.
  (* Stream *)
  - destruct Hok as (H1 & H2 & H3). pose proof (stream_tag_range f). exists (Frame.Stream f). split; [| done].
    rewrite (proj1 (proj2 (dispatch_ranges _ _))) by done. apply arm_spec. by apply stream_decode.
  - simple_frame f.
  - destruct Hok as (H1 & H2). simple_frame f.
  (* MaxStreams *)
  - exists (Frame.MaxStreams f). split; [| done]. destruct f as [ty n]. simpl in Hok.
    unfold MaxStreams.tag. destruct ty; simpl; dispatch; apply arm_spec; unfold MaxStreams.decode;
      decode_varints; unfold decoder_invariant; by zcases.
  - simple_frame f.
  - destruct Hok as (H1 & H2). simple_frame f.
  (* StreamsBlocked *)
  - exists (Frame.StreamsBlocked f). split; [| done]. destruct f as [ty n]. simpl in Hok.
    unfold StreamsBlocked.tag. destruct ty; simpl; dispatch; apply arm_spec; unfold StreamsBlocked.decode;
      decode_varints; unfold decoder_invariant; by zcases.
  (* NewConnectionId *)
  - exists (Frame.NewConnectionId f). split; [| done]. dispatch. apply arm_spec.
    destruct f as [seq retire cid tok]. destruct Hok as (H1 & H2 & H3 & H4).
    simpl in *. rewrite <- app_assoc. by apply new_id_decode.
  - simple_frame f.
  (* PathChallenge, PathResponse *)
  - exists (Frame.PathChallenge f). split; [| done]. dispatch. apply arm_spec. destruct f as [d].
    by apply challenge_decode.
  - exists (Frame.PathResponse f). split; [| done]. dispatch. apply arm_spec. destruct f as [d].
    unfold PathResponse.decode. by rewrite challenge_decode.
  (* ConnectionClose *)
  - exists (Frame.ConnectionClose f). split; [| done].
    rewrite (proj1 (proj2 (proj2 (dispatch_ranges _ _)))) by (by destruct f as [? [] ?]).
    destruct Hok as (H1 & H2 & H3). apply arm_spec. by apply close_decode.
  - eexists. split; [dispatch; by apply arm_spec | by destruct f].
  (* Datagram *)
  - exists (Frame.Datagram f). split; [| done].
    rewrite (proj2 (proj2 (proj2 (dispatch_ranges _ _)))) by apply datagram_tag_range.
    apply arm_spec. unfold Datagram.decode. destruct f as [last d]. cbn [Datagram.is_last_frame Datagram.data] in *.
    replace (negb _) with last by (by destruct last). by rewrite decode_data_wire.
  (* DcStatelessResetTokens, MtuProbingComplete *)
  - exists (Frame.DcStatelessResetTokens f). split; [| done]. destruct extension_tags as [Ht _].
    rewrite (extension_dispatch DcStatelessResetTokens.TAG _ _ ltac:(done) Ht), Z.eqb_refl. apply arm_spec.
    destruct f as [toks], Hok. by apply tokens_decode.
  - exists (Frame.MtuProbingComplete f). split; [| done]. destruct extension_tags as [_ Ht].
    rewrite (extension_dispatch MtuProbingComplete.TAG _ _ ltac:(done) Ht). apply arm_spec.
    destruct f as [mtu]. unfold MtuProbingComplete.decode. by rewrite decode_uint_app.
Qed.
(** ** Decoding arbitrary bytes *)

Lemma consumes_prefixed buf :
  bytes_ok buf ->
  consumes (fun bs => blen bs <= MAX_VARINT_VALUE) buf
    (Ret (decode_slice_with_len_prefix VarIntCodec.decode buf))
  /\ consumes (fun bs => blen bs <= MAX_VARINT_VALUE) buf
    (Ret (decode_with_len_prefix VarIntCodec.decode decode_buffer buf)).
Proof.
  intros Hb. assert (H : consumes (fun bs => blen bs <= MAX_VARINT_VALUE) buf
    (Ret (decode_slice_with_len_prefix VarIntCodec.decode buf))).
  { unfold decode_slice_with_len_prefix. pose proof (consumes_varint buf Hb) as Hv.
    destruct (VarIntCodec.decode buf) as [[n b1] |]; [| done]. destruct Hv as [[Hn Hn'] [pre ->]].
    cbn [rbind]. unfold usize_try_from. destruct (n <? 2 ^ 64); [| done]. cbn [rbind].
    destruct (decode_slice b1 n) as [[bs b2] |] eqn:E; [| done].
    apply decode_slice_ok in E as [-> <-]; [| done]. split; [done |]. exists (pre ++ bs). by rewrite app_assoc. }
  split; [done |]. unfold decode_with_len_prefix.
  destruct (decode_slice_with_len_prefix _ _) as [[bs rest] |]; [| done]. cbn [rbind].
  by rewrite decode_buffer_all.
Qed.

Lemma consumes_data last buf :
  bytes_ok buf -> blen buf < 2 ^ 63 -> consumes (data_ok last) buf (decode_data last buf).
Proof.
  intros Hb Hl. unfold decode_data. destruct last; simpl negb; cbv iota.
  - rewrite <- (app_nil_r buf) at 2. rewrite decode_slice_app. cbn [orbind obind].
    rewrite decode_buffer_all. cbn. split; [by split | exists buf; by rewrite app_nil_r].
  - eapply consumes_weaken, consumes_prefixed; [| done]. simpl. intros bs Hbs.
    split; [| done]. unfold MAX_VARINT_VALUE in *. lia.
Qed.

Lemma consumes_arm {T} (V : T -> Prop) W dec (h : T -> Frame.t AckRangesDecoder) tag buf :
  consumes V buf (dec tag buf) -> (forall f, V f -> W (h f)) ->
  consumes W buf (Frame.arm dec h tag buf).
Proof.
  intros Hd HW. unfold Frame.arm. destruct (dec tag buf) as [[[f rest] |] |]; [| done | done].
  destruct Hd as [Hf Hp]. by split; [apply HW |].
Qed.

Definition decoded_ok (f : Frame.t AckRangesDecoder) : Prop := frame_ok (frame_view f).

(** A decoder of VarInts only. *)
Ltac consume_varints :=
  repeat (eapply consumes_bind; [done | by apply consumes_varint | intros ? ? ? ? ?]);
  apply consumes_ret; try done; by repeat split.

Lemma scan_range fuel buf k :
  0 <= k <= blen buf -> k <= Padding.scan fuel buf k <= blen buf.
Proof.
  revert k. induction fuel as [| fuel IH]; intros k Hk; simpl; [lia |].
  unfold peek_byte. destruct (Z.ltb_spec k (blen buf)); [| lia].
  destruct (buf !! Z.to_nat k) as [v |]; [| lia]. destruct (v =? Padding.TAG); [| lia].
  specialize (IH (k + 1)). lia.
Qed.

Lemma consumes_padding tag buf :
  consumes (fun f => 1 <= Padding.length f <= blen buf + 1) buf (Padding.decode tag buf).
Proof.
  unfold Padding.decode. set (n := Padding.scan _ _ _).
  assert (Hn : 0 <= n <= blen buf) by (apply scan_range; pose proof (blen_nonneg buf); lia).
  unfold skip, decode_slice, ensure_len. zcases. cbn [rbind obind].
  split; [simpl; lia |]. exists (take (Z.to_nat n) buf). by rewrite take_drop.
Qed.

Lemma consumes_challenge tag buf :
  bytes_ok buf -> consumes (fun f => blen (PathChallenge.data f) = 8) buf (PathChallenge.decode tag buf).
Proof.
  intros Hb. eapply consumes_bind; [done | by apply consumes_slice |]. intros d rest [_ Hd] _ _.
  unfold expect_array. rewrite Hd, Z.eqb_refl. by apply consumes_ret.
Qed.

Lemma consumes_new_id tag buf :
  bytes_ok buf ->
  consumes (fun f => decoded_ok (Frame.NewConnectionId f)) buf (NewConnectionId.decode tag buf).
Proof.
  intros Hb. unfold NewConnectionId.decode, decoder_invariant.
  eapply consumes_bind; [done | by apply consumes_varint | intros seq b1 Hseq Hb1 _].
  eapply consumes_bind; [done | by apply consumes_varint | intros retire b2 [Hretire _] Hb2 _].
  apply consumes_guard; [| done]. intros ? Hg. destruct (Z.leb_spec retire seq); [| done]. clear Hg.
  eapply consumes_bind; [done | by apply consumes_uint | intros len b3 Hlen Hb3 _].
  apply consumes_guard; [| done]. intros ? Hg.
  destruct (Z.leb_spec 1 len), (Z.leb_spec len 20); try done. clear Hg.
  eapply consumes_bind; [done | apply consumes_slice; [lia | done] | intros cid b4 [_ Hcid] Hb4 _].
  eapply consumes_bind; [done | by apply consumes_slice | intros tok b5 [_ Htok] _ _].
  unfold expect_array. rewrite Htok, Z.eqb_refl. apply consumes_ret.
  unfold decoded_ok. simpl. split_and!; try done; lia.
Qed.

Lemma consumes_close tag buf :
  bytes_ok buf ->
  consumes (fun f => decoded_ok (Frame.ConnectionClose f)) buf (ConnectionClose.decode tag buf).
Proof.
  intros Hb. unfold ConnectionClose.decode.
  eapply consumes_bind; [done | by apply consumes_varint | intros code b1 Hcode Hb1 _].
  eapply (consumes_bind (fun o => forall v, o = Some v -> varint_ok v)); [done | |].
  - destruct (tag =? _); [| by apply consumes_ret].
    eapply consumes_bind; [done | by apply consumes_varint | intros v b2 Hv Hb2 _].
    apply consumes_ret. by intros ? [= <-].
  - intros ty b2 Hty Hb2 _.
    eapply consumes_bind; [done | by apply consumes_prefixed | intros r b3 Hr _ _].
    apply consumes_ret. unfold decoded_ok. simpl. split; [done |]. split; [done |].
    intros r'. pose proof (blen_nonneg r). destruct (Z.eqb_spec (blen r) 0); [done |].
    intros [= <-]. simpl in Hr. lia.
Qed.

Lemma consumes_stream tag buf :
  bytes_ok buf -> blen buf < 2 ^ 63 ->
  consumes (fun f => decoded_ok (Frame.Stream f)) buf (Stream.decode tag buf).
Proof.
  intros Hb Hl. unfold Stream.decode.
  eapply consumes_bind; [done | by apply consumes_varint | intros id b1 Hid Hb1 Hl1].
  eapply (consumes_bind varint_ok); [done | |].
  - destruct (_ =? _); [by apply consumes_varint | by apply consumes_ret].
  - intros off b2 Hoff Hb2 Hl2.
    eapply consumes_bind; [done | apply consumes_data; [done | lia] | intros d b3 Hd _ _].
    by apply consumes_ret.
Qed.

Lemma consumes_tokens tag buf :
  bytes_ok buf ->
  consumes (fun f => decoded_ok (Frame.DcStatelessResetTokens f)) buf
    (DcStatelessResetTokens.decode slice_from_prefix tag buf).
Proof.
  intros Hb. unfold DcStatelessResetTokens.decode, decoder_invariant.
  eapply consumes_bind; [done | by apply consumes_varint | intros n b1 Hn Hb1 _].
  apply consumes_guard; [| done]. intros ? Hg. destruct (Z.ltb_spec 0 n); [| done]. clear Hg.
  apply consumes_guard; [| done]. intros ? Hg.
  destruct (Z.leb_spec n DcStatelessResetTokens.MAX_STATELESS_RESET_TOKEN_COUNT) as [Hm |]; [| done].
  clear Hg. unfold DcStatelessResetTokens.MAX_STATELESS_RESET_TOKEN_COUNT in Hm.
  specialize (Hprefix b1 n ltac:(lia)). destruct (slice_from_prefix b1 n) as [[toks rest] |]; [| done].
  destruct Hprefix as (-> & <- & Ht). split; [| by eexists]. unfold decoded_ok. simpl. split; [lia | done].
Qed.

Lemma consumes_limit {T} (mk : Z -> T) (V : T -> Prop) buf msg :
  bytes_ok buf -> (forall n, 0 <= n <= 2 ^ 60 -> V (mk n)) ->
  consumes V buf
    (let+ '(n, buf) := Ret (VarIntCodec.decode buf) in
     let+ _ := decoder_invariant (n <=? 2 ^ 60) msg in
     Ret (Ok (mk n, buf))).
Proof.
  intros Hb HV. eapply consumes_bind; [done | by apply consumes_varint | intros n b1 [Hn _] Hb1 _].
  apply consumes_guard; [| done]. intros ? Hg. unfold decoder_invariant in Hg.
  destruct (Z.leb_spec n (2 ^ 60)); [| done]. apply consumes_ret, HV. lia.
Qed.

Lemma extension_progresses buf :
  bytes_ok buf -> progresses decoded_ok buf (Frame.handle_extension_frame slice_from_prefix buf).
Proof.
  intros Hb. unfold Frame.handle_extension_frame.
  apply progresses_varint; [done |]. intros tag b1 _ Hb1.
  destruct (tag =? _); [| destruct (tag =? _); [| done]].
  - eapply consumes_arm; [by apply consumes_tokens | done].
  - eapply (consumes_arm (fun f => uint 16 (MtuProbingComplete.mtu f))); [| done].
    eapply consumes_bind; [done | by apply (consumes_uint 2) | intros mtu b2 Hm _ _].
    by apply consumes_ret.
Qed.

(** One arm of the dispatch on a one-byte tag. *)
Lemma tag_arm_progresses {T} (V : T -> Prop) dec h tag b buf :
  consumes V buf (dec tag buf) -> (forall f, V f -> decoded_ok (h f)) ->
  progresses decoded_ok (b :: buf) (Frame.tag_arm dec h tag (b :: buf)).
Proof. intros Hd HV. rewrite tag_arm_spec. by apply progresses_cons, (consumes_arm V). Qed.

Ltac consume_tag V := apply (tag_arm_progresses V); [| done].

Lemma frame_progresses buf :
  bytes_ok buf -> blen buf < 2 ^ 63 ->
  progresses decoded_ok buf (Frame.decode_frame slice_from_prefix buf).
Proof.
  intros Hbb Hl. unfold Frame.decode_frame. destruct buf as [| b buf]; [done |].
  rewrite peek_byte_cons. cbn [orbind obind]. rewrite blen_cons in Hl.
  pose proof (Forall_cons_1 _ _ _ Hbb) as [_ Hb].
  repeat match goal with |- progresses _ _ (if ?c then _ else _) => destruct c eqn:? end;
    try by apply extension_progresses.
  - consume_tag (fun f => 1 <= Padding.length f < 2 ^ 63).
    eapply consumes_weaken, consumes_padding. simpl. lia.
  - consume_tag (fun _ : Ping.t => True). by apply consumes_ret.
  - apply (tag_arm_progresses decoded_ack_ok).
    + eapply consumes_weaken, consumes_ack; [| done]. by intros ? [? _].
    + by intros f (H1 & (H2 & _) & H3).
  - consume_tag (fun f => decoded_ok (Frame.ResetStream f)). consume_varints.
  - consume_tag (fun f => decoded_ok (Frame.StopSending f)). consume_varints.
  - consume_tag (fun f => decoded_ok (Frame.Crypto f)).
    eapply consumes_bind; [done | by apply consumes_varint | intros off b1 Hoff Hb1 _].
    eapply consumes_bind; [done | by apply consumes_prefixed | intros d b2 Hd _ _].
    by apply consumes_ret.
  - consume_tag (fun f => decoded_ok (Frame.NewToken f)).
    eapply consumes_bind; [done | by apply consumes_prefixed | intros t b1 Ht Hb1 _].
    apply consumes_guard; [| done]. intros ? Hg. unfold decoder_invariant in Hg.
    pose proof (blen_nonneg t). destruct (Z.eqb_spec (blen t) 0); [done |].
    apply consumes_ret. unfold decoded_ok. simpl in *. lia.
  - consume_tag (fun f => decoded_ok (Frame.Stream f)). apply consumes_stream; [done | lia].
  - consume_tag (fun f => decoded_ok (Frame.MaxData f)). consume_varints.
  - consume_tag (fun f => decoded_ok (Frame.MaxStreamData f)). consume_varints.
  - consume_tag (fun f => decoded_ok (Frame.MaxStreams f)). by apply consumes_limit.
  - consume_tag (fun f => decoded_ok (Frame.DataBlocked f)). consume_varints.
  - consume_tag (fun f => decoded_ok (Frame.StreamDataBlocked f)). consume_varints.
  - consume_tag (fun f => decoded_ok (Frame.StreamsBlocked f)). by apply consumes_limit.
  - consume_tag (fun f => decoded_ok (Frame.NewConnectionId f)). by apply consumes_new_id.
  - consume_tag (fun f => decoded_ok (Frame.RetireConnectionId f)). consume_varints.
  - consume_tag (fun f => decoded_ok (Frame.PathChallenge f)). by apply consumes_challenge.
  - consume_tag (fun f => decoded_ok (Frame.PathResponse f)).
    eapply consumes_bind; [done | by apply consumes_challenge | intros f b1 Hf _ _].
    by apply consumes_ret.
  - consume_tag (fun f => decoded_ok (Frame.ConnectionClose f)). by apply consumes_close.
  - consume_tag (fun _ : HandshakeDone.t => True). by apply consumes_ret.
  - consume_tag (fun f => decoded_ok (Frame.Datagram f)).
    eapply consumes_bind; [done | apply consumes_data; [done | lia] | intros d b1 Hd _ _].
    by apply consumes_ret.
Qed.
End Decode.

(** ** Sizing *)

Lemma encoding_size_slice bs : blen bs < 2 ^ 64 -> encoding_size (enc_slice bs) = Ret (blen bs).
Proof. intros. apply encoding_size_with_spec; [apply encodes_as_slice | done]. Qed.

(** The frame with the first [n] bytes of its data. *)
Definition stream_truncated (f : Stream.t) (n : Z) : Stream.t :=
  Stream.mk (Stream.stream_id f) (Stream.offset f) (Stream.is_last_frame f) (Stream.is_fin f)
    (take (Z.to_nat n) (Stream.data f)).

(** The bytes before the length and the data. *)
Definition stream_header (f : Stream.t) : Z :=
  1 + blen (VarIntCodec.wire (Stream.stream_id f))
  + (if negb (Stream.offset f =? 0) then blen (VarIntCodec.wire (Stream.offset f)) else 0).

Definition length_prefix (n : Z) : Z := blen (VarIntCodec.wire n).

Lemma blen_take n (l : list Z) : 0 <= n <= blen l -> blen (take (Z.to_nat n) l) = n.
Proof. unfold blen. rewrite length_take. lia. Qed.

Lemma blen_stream_wire f n :
  0 <= n <= blen (Stream.data f) ->
  blen (frame_wire (Frame.Stream (stream_truncated f n)))
  = stream_header f + (if Stream.is_last_frame f then 0 else length_prefix n) + n.
Proof.
  intros Hn. simpl. rewrite blen_cons, !blen_app. unfold data_wire, prefixed, stream_header, length_prefix.
  destruct (Stream.is_last_frame f), (negb (Stream.offset f =? 0));
    rewrite ?blen_app, ?blen_nil, ?blen_take by done; lia.
Qed.

Lemma stream_try_fit_eq be f capacity :
  frame_ok (Frame.Stream (Stream.set_last_frame f false)) -> 0 <= capacity < 2 ^ 63 ->
  let d := blen (Stream.data f) in
  let r := capacity - stream_header f in
  Stream.try_fit be f capacity
  = Ret (if r <? 0 then (Err mk_FitError, f)
         else if r <=? d then (Ok r, Stream.set_last_frame f true)
         else (Ok (Z.min (r - length_prefix d) d), Stream.set_last_frame f false)).
Proof.
  destruct f as [id off last0 fin data]. intros (Hid & Hoff & [Hd1 Hd2]) Hc. simpl in *.
  specialize (Hd2 eq_refl). pose proof (blen_nonneg data). unfold MAX_VARINT_VALUE in Hd2.
  destruct (blen_wire_mono id id ltac:(destruct Hid; lia) ltac:(destruct Hid; lia)) as ([? _] & _ & ?).
  destruct (blen_wire_mono off off ltac:(destruct Hoff; lia) ltac:(destruct Hoff; lia)) as ([? _] & _ & ?).
  destruct (blen_wire_mono (blen data) (blen data) ltac:(lia) ltac:(done)) as (_ & ? & ?).
  unfold Stream.try_fit, stream_header, length_prefix. cbn [Stream.stream_id Stream.offset Stream.data].
  rewrite !varint_encoding_size by done. cbn [obind]. rewrite add_c_Ret by lia. cbn [obind].
  set (h := 1 + blen (VarIntCodec.wire id) + if negb (off =? 0) then blen (VarIntCodec.wire off) else 0).
  assert (Hh : (if negb (off =? 0) then add_c 64 (1 + blen (VarIntCodec.wire id)) (blen (VarIntCodec.wire off))
                else Ret (1 + blen (VarIntCodec.wire id))) = Ret h).
  { unfold h. destruct (negb (off =? 0)); [by rewrite add_c_Ret by lia | f_equal; lia]. }
  rewrite Hh. cbn [obind]. unfold checked_sub at 1. destruct (Z.leb_spec h capacity); [| by zcases].
  rewrite encoding_size_slice by lia. cbn [obind]. destruct (Z.ltb_spec (capacity - h) 0); [lia |].
  destruct (Z.leb_spec (capacity - h) (blen data)).
  - rewrite Z.min_l, Z.eqb_refl by done. done.
  - rewrite (Z.min_r (capacity - h)) by lia. destruct (Z.eqb_spec (blen data) (capacity - h)); [lia |].
    unfold VarInt.new, MAX_VARINT_VALUE. destruct (Z.ltb_spec 4611686018427387903 (blen data)); [lia |].
    rewrite varint_encoding_size by (split; unfold MAX_VARINT_VALUE; lia). cbn [obind].
    unfold checked_sub. destruct (Z.leb_spec (blen (VarIntCodec.wire (blen data))) (capacity - h)); [done |]. lia.
Qed.

Lemma stream_fits be f capacity :
  frame_ok (Frame.Stream (Stream.set_last_frame f false)) -> 0 <= capacity < 2 ^ 63 ->
  (capacity < stream_header f -> Stream.try_fit be f capacity = Ret (Err mk_FitError, f))
  /\ (stream_header f <= capacity -> exists n last,
      let f' := Stream.set_last_frame f last in
      Stream.try_fit be f capacity = Ret (Ok n, f')
      /\ 0 <= n <= blen (Stream.data f)
      /\ blen (frame_wire (Frame.Stream (stream_truncated f' n))) <= capacity
      /\ (last = true -> blen (frame_wire (Frame.Stream (stream_truncated f' n))) = capacity)
      /\ (last = false -> n = blen (Stream.data f)
          \/ stream_header f + length_prefix (blen (Stream.data f)) + n = capacity)).
Proof.
  intros Hok Hc. rewrite stream_try_fit_eq by done. destruct Hok as (_ & _ & [Hd1 Hd2]).
  simpl in Hd1, Hd2. specialize (Hd2 eq_refl). pose proof (blen_nonneg (Stream.data f)).
  split; [intros; by zcases |]. intros Hh. destruct (Z.ltb_spec (capacity - stream_header f) 0); [lia |].
  destruct (Z.leb_spec (capacity - stream_header f) (blen (Stream.data f))).
  - eexists _, true. split; [done |]. rewrite blen_stream_wire by (simpl; lia).
    unfold stream_header in *. simpl. split_and!; try lia; done.
  - set (d := blen (Stream.data f)) in *. set (n := Z.min _ _).
    destruct (blen_wire_mono d d ltac:(lia) ltac:(lia)) as (? & ? & ?). fold (length_prefix d) in *.
    assert (0 <= n <= d) by (unfold n; lia).
    destruct (blen_wire_mono n d ltac:(lia) ltac:(lia)) as (? & _ & _). fold (length_prefix d) (length_prefix n) in *.
    exists n, false. split; [done |]. rewrite blen_stream_wire by done.
    unfold stream_header in *. cbn [Stream.set_last_frame Stream.is_last_frame Stream.offset Stream.stream_id] in *.
    split_and!; try done; lia.
Qed.

(** C35: Sizing a STREAM frame: it is refused exactly when its header alone
    exceeds the capacity.  Otherwise the number of bytes returned, with the
    [is_last_frame] flag it sets, gives a frame that fits: exactly when the
    length is left out, and never more than the capacity when it is written.
    Data is only cut when the capacity is used up, counting the length field of
    the whole data. *)
Theorem stream_try_fit be f capacity :
  frame_ok (Frame.Stream (Stream.set_last_frame f false)) -> 0 <= capacity < 2 ^ 63 ->
  (capacity < stream_header f -> Stream.try_fit be f capacity = Ret (Err mk_FitError, f))
  /\ (stream_header f <= capacity -> exists n last,
      let f' := Stream.set_last_frame f last in
      Stream.try_fit be f capacity = Ret (Ok n, f')
      /\ 0 <= n <= blen (Stream.data f)
      /\ blen (frame_wire (Frame.Stream (stream_truncated f' n))) <= capacity
      /\ (last = true -> blen (frame_wire (Frame.Stream (stream_truncated f' n))) = capacity)
      /\ (last = false -> n = blen (Stream.data f)
          \/ stream_header f + length_prefix (blen (Stream.data f)) + n = capacity)).
Proof. apply stream_fits. Qed.

Lemma stream_try_fit_witness :
  let f := Stream.mk 5 70 false true (replicate 100 7) in
  Stream.try_fit true f 50 = Ret (Ok 46, Stream.set_last_frame f true)
  /\ Stream.try_fit true f 105 = Ret (Ok 99, Stream.set_last_frame f false)
  /\ (exists n last, Stream.try_fit true f 105 = Ret (Ok n, Stream.set_last_frame f last)
      /\ blen (frame_wire (Frame.Stream (stream_truncated (Stream.set_last_frame f last) n))) <= 105).
Proof.
  split; [by vm_compute | split; [by vm_compute |]].
  destruct (stream_try_fit true (Stream.mk 5 70 false true (replicate 100 7)) 105) as [_ H];
    [by repeat split | lia |].
  destruct (H ltac:(by vm_compute)) as (n & last & E & _ & Hle & _). by exists n, last.
Defined.

Definition crypto_truncated (f : Crypto.t) (n : Z) : Crypto.t :=
  Crypto.mk (Crypto.offset f) (take (Z.to_nat n) (Crypto.data f)).

Lemma blen_crypto_wire f n :
  0 <= n <= blen (Crypto.data f) ->
  blen (frame_wire (Frame.Crypto (crypto_truncated f n)))
  = 1 + blen (VarIntCodec.wire (Crypto.offset f)) + length_prefix n + n.
Proof.
  intros Hn. simpl. rewrite blen_cons. unfold prefixed, length_prefix.
  rewrite !blen_app, blen_take by done. lia.
Qed.

Lemma crypto_try_fit_eq be f capacity :
  frame_ok (Frame.Crypto f) -> 0 <= capacity < 2 ^ 63 ->
  let d := blen (Crypto.data f) in
  let r := capacity - (1 + blen (VarIntCodec.wire (Crypto.offset f))) in
  Crypto.try_fit be f capacity
  = Ret (if r <=? 0 then Err mk_FitError
         else Ok (Z.min (r - length_prefix (Z.min r d)) d)).
Proof.
  destruct f as [off data]. intros [Hoff Hd] Hc. simpl in *. pose proof (blen_nonneg data).
  destruct (blen_wire_mono off off ltac:(destruct Hoff; lia) ltac:(destruct Hoff; lia)) as ([? _] & _ & ?).
  unfold Crypto.try_fit, length_prefix. cbn [Crypto.offset Crypto.data].
  rewrite varint_encoding_size by done. cbn [obind]. rewrite add_c_Ret by lia. cbn [obind].
  set (h := 1 + _) in *. unfold checked_sub at 1. destruct (Z.leb_spec h capacity); [| by zcases].
  rewrite encoding_size_slice by (unfold MAX_VARINT_VALUE in *; lia). cbn [obind].
  set (m := Z.min _ _). assert (Hm : 0 <= m <= MAX_VARINT_VALUE) by lia.
  destruct (blen_wire_mono m m ltac:(lia) ltac:(lia)) as (? & ? & ?).
  unfold VarInt.new. destruct (Z.ltb_spec MAX_VARINT_VALUE m); [lia |].
  rewrite varint_encoding_size by done. cbn [obind]. unfold checked_sub.
  destruct (Z.leb_spec (capacity - h) 0), (Z.leb_spec (blen (VarIntCodec.wire m)) (capacity - h)); done || lia.
Qed.

(** Sizing a CRYPTO frame: it is refused exactly when the capacity leaves
    no room for the header and a length; otherwise the frame with the returned
    number of bytes fits, and data is only cut when the capacity is used up,
    counting the length field of what could fit at most. *)
Theorem crypto_try_fit be f capacity :
  frame_ok (Frame.Crypto f) -> 0 <= capacity < 2 ^ 63 ->
  let header := 1 + blen (VarIntCodec.wire (Crypto.offset f)) in
  (capacity <= header -> Crypto.try_fit be f capacity = Ret (Err mk_FitError))
  /\ (header < capacity -> exists n,
      Crypto.try_fit be f capacity = Ret (Ok n)
      /\ 0 <= n <= blen (Crypto.data f)
      /\ blen (frame_wire (Frame.Crypto (crypto_truncated f n))) <= capacity
      /\ (n = blen (Crypto.data f)
          \/ header + length_prefix (Z.min (capacity - header) (blen (Crypto.data f))) + n = capacity)).
Proof.
  intros Hok Hc header. rewrite crypto_try_fit_eq by done. destruct Hok as [_ Hd].
  pose proof (blen_nonneg (Crypto.data f)). fold header. set (d := blen (Crypto.data f)) in *.
  split; [intros; by zcases |]. intros Hh. destruct (Z.leb_spec (capacity - header) 0); [lia |].
  set (m := Z.min (capacity - header) d). set (n := Z.min _ _).
  destruct (blen_wire_mono m m ltac:(lia) ltac:(lia)) as (? & ? & ?). fold (length_prefix m) in *.
  assert (0 <= n <= m) by (unfold n; lia).
  destruct (blen_wire_mono n m ltac:(lia) ltac:(lia)) as (? & _ & _). fold (length_prefix m) (length_prefix n) in *.
  exists n. split; [done |]. rewrite blen_crypto_wire by lia. fold header. split_and!; lia.
Qed.

(** The hand-written size of a STREAM frame is the size of its encoding, so the
    check in debug builds passes. *)
Lemma stream_encoding_size be f capacity :
  frame_ok (Frame.Stream f) ->
  Stream.encoding_size_for_encoder be f capacity = Ret (blen (frame_wire (Frame.Stream f))).
Proof.
  intros Hok. pose proof (encodes_as_frame be _ Hok) as Henc. cbn [Frame.encode] in Henc.
  destruct f as [id off last fin data]. destruct Hok as (Hid & Hoff & [Hd1 Hd2]). simpl in Hid, Hoff, Hd1, Hd2.
  pose proof (blen_nonneg data). set (f := Stream.mk id off last fin data) in *.
  destruct (blen_wire_mono id id ltac:(destruct Hid; lia) ltac:(destruct Hid; lia)) as ([? _] & _ & ?).
  destruct (blen_wire_mono off off ltac:(destruct Hoff; lia) ltac:(destruct Hoff; lia)) as ([? _] & _ & ?).
  pose proof (blen_stream_wire f (blen data) ltac:(simpl; lia)) as Hlen.
  replace (stream_truncated f (blen data)) with f in Hlen
    by (unfold stream_truncated, f, blen; simpl; by rewrite Nat2Z.id, take_ge by lia).
  unfold Stream.encoding_size_for_encoder.
  change (Stream.stream_id f) with id. change (Stream.offset f) with off. change (Stream.data f) with data.
  rewrite !varint_encoding_size by done. cbn [obind]. rewrite add_c_Ret by lia. cbn [obind].
  set (h := stream_header f) in *.
  assert (Hh : (if negb (off =? 0) then add_c 64 (1 + blen (VarIntCodec.wire id)) (blen (VarIntCodec.wire off))
                else Ret (1 + blen (VarIntCodec.wire id))) = Ret h /\ 0 <= h <= 17).
  { unfold h, stream_header. simpl. destruct (negb (off =? 0)); [rewrite add_c_Ret by lia; split; [done | lia] |].
    split; [f_equal |]; lia. }
  destruct Hh as [-> Hh]. cbn [obind]. rewrite (encoding_size_with_spec _ _ data) by (apply encodes_as_slice || lia).
  cbn [obind]. rewrite add_c_Ret by lia. cbn [obind]. change (Stream.is_last_frame f) with last in *.
  assert (Hp : (if negb last
                then let! v := unwrap (VarInt.ok (VarInt.new (blen data))) in
                     let! prefix := VarIntCodec.encoding_size be v in add_c 64 (h + blen data) prefix
                else Ret (h + blen data)) = Ret (blen (frame_wire (Frame.Stream f)))
               /\ blen (frame_wire (Frame.Stream f)) < 2 ^ 64).
  { rewrite Hlen. simpl Stream.is_last_frame. destruct last; simpl negb; cbv iota; [split; [f_equal; lia | lia] |].
    specialize (Hd2 eq_refl). unfold VarInt.new. destruct (Z.ltb_spec MAX_VARINT_VALUE (blen data)); [lia |].
    cbn [VarInt.ok unwrap obind]. destruct (blen_wire_mono (blen data) (blen data) ltac:(lia) ltac:(lia)) as (_ & _ & ?).
    rewrite varint_encoding_size by done. cbn [obind]. rewrite add_c_Ret by lia.
    unfold length_prefix. split; [f_equal; lia | lia]. }
  destruct Hp as [-> Hlt]. cbn [obind]. rewrite (proj2 Henc) by (change (est_len _) with 0; lia). cbn [obind].
  unfold EstimatorOps.new. simpl est_len. rewrite Z.eqb_refl. done.
Qed.

(** zerocopy's conversion for 16-byte elements, as a concrete function. *)
Fixpoint chunks16 (n : nat) (buf : list Z) : list (list Z) :=
  match n with O => [] | S n => take 16 buf :: chunks16 n (drop 16 buf) end.

Definition tokens_from_prefix (buf : list Z) (count : Z) : option (list (list Z) * list Z) :=
  if 16 * count <=? blen buf
  then Some (chunks16 (Z.to_nat count) buf, drop (Z.to_nat (16 * count)) buf) else None.

Lemma chunks16_spec n buf :
  (16 * n <= length buf)%nat ->
  buf = concat (chunks16 n buf) ++ drop (16 * n) buf /\ vlen (chunks16 n buf) = Z.of_nat n
  /\ Forall (fun tok => blen tok = 16) (chunks16 n buf).
Proof.
  revert buf. induction n as [| n IH]; intros buf Hl; [by split; [| split; [| constructor]] |].
  cbn [chunks16]. destruct (IH (drop 16 buf)) as (H1 & H2 & H3); [rewrite length_drop; lia |]. split_and!.
  - simpl concat. rewrite <- app_assoc.
    replace (16 * S n)%nat with (16 + 16 * n)%nat by lia. rewrite <- drop_drop, <- H1. by rewrite take_drop.
  - rewrite vlen_cons. unfold vlen in *. lia.
  - constructor; [unfold blen; rewrite length_take; lia | done].
Qed.

Lemma tokens_from_prefix_spec : from_prefix_spec tokens_from_prefix.
Proof.
  intros buf count Hc. unfold tokens_from_prefix.
  destruct (Z.leb_spec (16 * count) (blen buf)) as [Hle |]; [| done].
  replace (Z.to_nat (16 * count)) with (16 * Z.to_nat count)%nat by lia.
  destruct (chunks16_spec (Z.to_nat count) buf) as (H1 & H2 & H3); [unfold blen in *; lia |].
  split_and!; [done | lia | done].
Qed.

(** ** Claims *)

(** C20: Every frame survives the wire: a well-formed frame of any of the 23
    types is written as its wire form on every encoder, and decoding the wire
    form, followed by what may follow the frame, gives the frame back (with the
    ranges of an ACK frame iterated) and leaves what follows. *)
Theorem frame_roundtrip slice_from_prefix be f rest :
  from_prefix_spec slice_from_prefix -> frame_ok f -> frame_follows f rest ->
  encodes_as (Frame.encode be f) (frame_wire f)
  /\ exists g, Frame.decode_frame slice_from_prefix (frame_wire f ++ rest) = Ret (Ok (g, rest))
       /\ frame_view g = f.
Proof.
  intros Hp Hok Hf. split; [by apply encodes_as_frame | by apply frame_decode_wire].
Qed.

Lemma frame_roundtrip_witness :
  let f := Frame.DcStatelessResetTokens (DcStatelessResetTokens.mk [replicate 16 7; replicate 16 9]) in
  exists g, Frame.decode_frame tokens_from_prefix (frame_wire f ++ [1]) = Ret (Ok (g, [1]))
    /\ frame_view g = f.
Proof.
  apply (frame_roundtrip tokens_from_prefix true); [apply tokens_from_prefix_spec | | done].
  split; [by vm_compute | by repeat constructor].
Defined.

(** C31: Decoding a frame from arbitrary bytes never panics, and a decoded frame
    consumed at least one byte and is well formed (so it can be written again):
    all VarInts in range, stream counts at most 2^60, connection ids of 1 to 20
    bytes with a 16-byte token and no retirement past their own sequence
    number, non-empty tokens and close reasons, 1 to 4092 reset tokens, and
    valid descending ACK ranges. *)
Theorem frame_decode_sound slice_from_prefix buf :
  from_prefix_spec slice_from_prefix -> bytes_ok buf -> blen buf < 2 ^ 63 ->
  match Frame.decode_frame slice_from_prefix buf with
  | Ret (Ok (f, rest)) => frame_ok (frame_view f) /\ exists pre, pre <> [] /\ buf = pre ++ rest
  | Ret (Err _) => True
  | Panic => False
  end.
Proof. intros Hp Hb Hl. by apply frame_progresses. Qed.

Lemma frame_decode_sound_witness :
  let buf := [24; 5; 2; 4; 1; 2; 3; 4] ++ replicate 16 9 ++ [0] in
  exists f, Frame.decode_frame tokens_from_prefix buf = Ret (Ok (f, [0])) /\ frame_ok (frame_view f).
Proof.
  pose proof (frame_decode_sound tokens_from_prefix ([24; 5; 2; 4; 1; 2; 3; 4] ++ replicate 16 9 ++ [0])
    tokens_from_prefix_spec ltac:(by repeat constructor) ltac:(by vm_compute)) as H.
  eexists. split; [by vm_compute |]. exact (proj1 H).
Defined.
