(* ===== verification/Payload.v ===== *)
(** * Processing the frames of a packet

    [processed_packet.rs] and the loop of [PacketSpace::handle_cleartext_payload]
    ([space/mod.rs] of the transport crate): decode a frame, record it, hand it
    to its handler, until the payload is empty; and [AckInterceptContext],
    through which a packet interceptor acknowledges ranges of its own.  The
    handlers, which may fail and may panic, the application's interceptor and the
    path manager are the parameters of the loop. *)
From S2P Require Import Prelude Codec VarInt PacketNumber Interval IntervalInsert IntervalRemove IntervalSet AckRanges StreamId FrameAck Frames FrameCodec.

(** [ProcessedPacket], without the reference to the datagram. *)
Record ProcessedPacket := mk_pp {
  packet_number : Z;
  ack_elicitation : Frame.AckElicitation;
  path_challenge_on_active_path : bool;
  frames : Z;
  path_validation_probing : Frame.Probe;
  bytes_progressed : Z;
  contains_crypto : bool
}.

Module ProcessedPacketOps.

Definition new (packet_number : Z) : ProcessedPacket :=
  mk_pp packet_number Frame.NonEliciting false 0 Frame.Probing 0 false.

(** [on_processed_frame]; the count of frames is bounded by the bytes of the
    packet and does not overflow. *)
Definition on_processed_frame {A} (self : ProcessedPacket) (frame : Frame.t A) : ProcessedPacket :=
  mk_pp (packet_number self)
    (Frame.ack_elicitation_or (ack_elicitation self) (Frame.ack_elicitation frame))
    (path_challenge_on_active_path self) (frames self + 1)
    (Frame.probe_or (path_validation_probing self) (Frame.path_validation frame))
    (bytes_progressed self) (contains_crypto self).

Definition is_ack_eliciting (self : ProcessedPacket) : bool :=
  match ack_elicitation self with Frame.Eliciting => true | Frame.NonEliciting => false end.

Definition set_contains_crypto (self : ProcessedPacket) : ProcessedPacket :=
  mk_pp (packet_number self) (ack_elicitation self) (path_challenge_on_active_path self) (frames self)
    (path_validation_probing self) (bytes_progressed self) true.

Definition set_path_challenge (self : ProcessedPacket) : ProcessedPacket :=
  mk_pp (packet_number self) (ack_elicitation self) true (frames self)
    (path_validation_probing self) (bytes_progressed self) (contains_crypto self).

Definition add_bytes_progressed (self : ProcessedPacket) (n : Z) : ProcessedPacket :=
  mk_pp (packet_number self) (ack_elicitation self) (path_challenge_on_active_path self) (frames self)
    (path_validation_probing self) (bytes_progressed self + n) (contains_crypto self).

End ProcessedPacketOps.

Module Payload.

(** Why a payload is not processed to its end: a frame does not decode, its
    handler fails (with the tag of the frame attached), the peer closed the
    connection, there was no frame at all (PROTOCOL_VIOLATION), or a range of the
    interceptor could not be recorded (INTERNAL_ERROR). *)
Inductive Error (E : Type) :=
| Decode (e : DecoderError)
| Handler (e : E)
| Closed (frame : ConnectionClose.t)
| NoFrames
| InvalidRange.
Arguments Decode {E}.
Arguments Handler {E}.
Arguments Closed {E}.
Arguments NoFrames {E}.
Arguments InvalidRange {E}.

(** [ack::Settings::default().ack_ranges_limit]. *)
Definition RECOMMENDED_RANGES_LIMIT : Z := 10.

Section Loop.
Context {S E : Type}.
(** zerocopy's conversion; the [handle_*_frame] methods of the packet space,
    each of which returns the state and the bytes its STREAM data progressed, and
    [handle_ack_frame] at the type of an injected frame; whether the packet came
    in on the active path; the application's interceptor, by the payload it
    hands back and the ranges it inserts; the path manager's
    [on_processed_packet] (whether the active path got unblocked), and the
    space's [on_amplification_unblocked] and [on_processed_packet]. *)
Variable slice_from_prefix : list Z -> Z -> option (list (list Z) * list Z).
Variable handle_frame : Frame.t AckRangesDecoder -> S -> outcome (result (S * Z) E).
Variable handle_ack_frame : Ack.t (IntervalSet Z) -> S -> outcome (result S E).
Variable on_active_path : S -> bool.
Variable intercept_rx_payload : list Z -> list Z.
Variable intercept_rx_ack : list (Z * Z).
Variable path_on_processed_packet : ProcessedPacket -> S -> outcome (result (bool * S) E).
Variable on_amplification_unblocked : S -> outcome S.
Variable on_processed_packet : ProcessedPacket -> S -> outcome (result S E).

Definition handled {A} (m : outcome (result A E)) : outcome (result A (Error E)) :=
  let! r := m in
  Ret (match r with Ok a => Ok a | Err e => Err (Handler e) end).

(** [AckInterceptContext::insert_range], over the record of the packet, the
    packet space and the context's [error], which the last range decides. *)
Definition insert_range (packet_number : Z) (range : Z * Z) (pp : ProcessedPacket) (st : S)
    (error : option (Error E)) : outcome (ProcessedPacket * S * option (Error E)) :=
  let! ack_ranges := AckRanges.new RECOMMENDED_RANGES_LIMIT in
  let! space := PacketNumber.space packet_number in
  let! pn_range := PacketNumberRange.new (PacketNumber.from_varint range.1 space)
                     (PacketNumber.from_varint range.2 space) in
  let! '(inserted, ack_ranges) := AckRanges.insert_packet_number_range ack_ranges pn_range in
  match inserted with
  | Err _ => Ret (pp, st, Some InvalidRange)
  | Ok _ =>
      let ack_frame := Ack.mk 0 ack_ranges None in
      let pp := ProcessedPacketOps.on_processed_frame pp (Frame.Ack ack_frame) in
      let! res := handled (handle_ack_frame ack_frame st) in
      match res with
      | Ok st => Ret (pp, st, None)
      | Err e => Ret (pp, st, Some e)
      end
  end.

(** The interceptor's calls of [insert_range]. *)
Fixpoint insert_ranges (packet_number : Z) (ranges : list (Z * Z)) (pp : ProcessedPacket) (st : S)
    (error : option (Error E)) : outcome (ProcessedPacket * S * option (Error E)) :=
  match ranges with
  | [] => Ret (pp, st, error)
  | range :: ranges =>
      let! '(pp, st, error) := insert_range packet_number range pp st error in
      insert_ranges packet_number ranges pp st error
  end.

(** The body of the [match frame]. *)
Definition process_frame (frame : Frame.t AckRangesDecoder) (pp : ProcessedPacket) (st : S)
    : outcome (result (ProcessedPacket * S) (Error E)) :=
  let pp := ProcessedPacketOps.on_processed_frame pp frame in
  match frame with
  | Frame.Padding _ | Frame.Ping _ => Ret (Ok (pp, st))
  | Frame.Crypto _ =>
      let+ '(st, _) := handled (handle_frame frame st) in
      Ret (Ok (ProcessedPacketOps.set_contains_crypto pp, st))
  | Frame.ConnectionClose f =>
      let+ '(st, _) := handled (handle_frame frame st) in
      Ret (Err (Closed f))
  | Frame.Stream _ =>
      let+ '(st, n) := handled (handle_frame frame st) in
      Ret (Ok (ProcessedPacketOps.add_bytes_progressed pp n, st))
  | Frame.PathChallenge _ =>
      let pp := if on_active_path st then ProcessedPacketOps.set_path_challenge pp else pp in
      let+ '(st, _) := handled (handle_frame frame st) in
      Ret (Ok (pp, st))
  | _ =>
      let+ '(st, _) := handled (handle_frame frame st) in
      Ret (Ok (pp, st))
  end.

(** [while !payload.is_empty()]; every frame takes a byte, so the bytes bound
    the iterations. *)
Fixpoint process_frames (fuel : nat) (payload : list Z) (pp : ProcessedPacket) (st : S)
    : outcome (result (ProcessedPacket * S) (Error E)) :=
  if blen payload =? 0 then Ret (Ok (pp, st)) else
  match fuel with
  | O => Panic
  | Datatypes.S fuel =>
      let! decoded := Frame.decode_frame slice_from_prefix payload in
      match decoded with
      | Err e => Ret (Err (Decode e))
      | Ok (frame, remaining) =>
          let+ '(pp, st) := process_frame frame pp st in
          process_frames fuel remaining pp st
      end
  end.

Definition handle_cleartext_payload (packet_number : Z) (payload : list Z) (st : S)
    : outcome (result (ProcessedPacket * S) (Error E)) :=
  let payload := intercept_rx_payload payload in
  let pp := ProcessedPacketOps.new packet_number in
  let! '(pp, st, error) := insert_ranges packet_number intercept_rx_ack pp st None in
  match error with
  | Some error => Ret (Err error)
  | None =>
      let+ '(pp, st) := process_frames (length payload) payload pp st in
      if frames pp =? 0 then Ret (Err NoFrames) else
      let+ '(unblocked, st) := handled (path_on_processed_packet pp st) in
      let! st := if unblocked then on_amplification_unblocked st else Ret st in
      let+ st := handled (on_processed_packet pp st) in
      Ret (Ok (pp, st))
  end.

End Loop.
End Payload.

(** ** Specification *)

(** The frames a payload consists of. *)
Inductive consists_of (slice_from_prefix : list Z -> Z -> option (list (list Z) * list Z))
    : list Z -> list (Frame.t AckRangesDecoder) -> Prop :=
| consists_nil : consists_of slice_from_prefix [] []
| consists_cons payload f rest fs :
    Frame.decode_frame slice_from_prefix payload = Ret (Ok (f, rest)) ->
    consists_of slice_from_prefix rest fs ->
    consists_of slice_from_prefix payload (f :: fs).

Definition is_crypto (f : Frame.t AckRangesDecoder) : bool :=
  match f with Frame.Crypto _ => true | _ => false end.
Definition is_close (f : Frame.t AckRangesDecoder) : bool :=
  match f with Frame.ConnectionClose _ => true | _ => false end.

(** What the tracker says after the frames [fs], from what it said before. *)
Definition tracks (pp : ProcessedPacket) (fs : list (Frame.t AckRangesDecoder)) (pp' : ProcessedPacket)
    : Prop :=
  packet_number pp' = packet_number pp
  /\ frames pp' = frames pp + vlen fs
  /\ (ack_elicitation pp' = Frame.Eliciting <->
      ack_elicitation pp = Frame.Eliciting \/ Exists (fun f => Frame.ack_elicitation f = Frame.Eliciting) fs)
  /\ (path_validation_probing pp' = Frame.Probing <->
      path_validation_probing pp = Frame.Probing
      /\ Forall (fun f => Frame.path_validation f = Frame.Probing) fs)
  /\ (contains_crypto pp' = true <-> contains_crypto pp = true \/ Exists (fun f => is_crypto f = true) fs).

Lemma tracks_nil pp : tracks pp [] pp.
Proof.
  unfold tracks. rewrite !Exists_nil, Forall_nil. unfold vlen. simpl. split_and!; try done; try lia; naive_solver.
Qed.

Lemma tracks_cons pp pp1 f fs pp' : tracks pp [f] pp1 -> tracks pp1 fs pp' -> tracks pp (f :: fs) pp'.
Proof.
  unfold tracks. rewrite !Exists_cons, !Forall_cons, !Exists_nil, Forall_nil, (vlen_cons f fs).
  change (vlen [f]) with 1. intros (A1 & A2 & A3 & A4 & A5) (B1 & B2 & B3 & B4 & B5).
  rewrite B3, B4, B5, A3, A4, A5. split_and!; [congruence | lia | tauto ..].
Qed.

(** A computation that may panic, but only with an excuse. *)
Definition runs {A} (excuse : Prop) (m : outcome A) (Q : A -> Prop) : Prop :=
  match m with Ret a => Q a | Panic => excuse end.

Lemma runs_bind {A B} excuse (m : outcome A) (k : A -> outcome B) Q :
  runs excuse m (fun a => runs excuse (k a) Q) -> runs excuse (obind m k) Q.
Proof. by destruct m. Qed.

Lemma runs_orbind {A B E} excuse (m : outcome (result A E)) (k : A -> outcome (result B E)) Q :
  runs excuse m (fun r => match r with Ok a => runs excuse (k a) Q | Err e => Q (Err e) end) ->
  runs excuse (orbind m k) Q.
Proof. by destruct m as [[] |]. Qed.

Lemma runs_mono {A} excuse (m : outcome A) (P Q : A -> Prop) :
  runs excuse m P -> (forall a, P a -> Q a) -> runs excuse m Q.
Proof. destruct m; unfold runs; auto. Qed.

Lemma runs_self {A} (excuse : Prop) (m : outcome A) : (m = Panic -> excuse) -> runs excuse m (fun a => m = Ret a).
Proof. destruct m; unfold runs; auto. Qed.

Lemma runs_handled {A E} excuse (m : outcome (result A E)) Q :
  runs excuse m (fun r => match r with Ok a => Q (Ok a) | Err e => Q (Err (Payload.Handler e)) end) ->
  runs excuse (Payload.handled m) Q.
Proof. by destruct m as [[] |]. Qed.

Section Loop.
Context {S E : Type} (slice_from_prefix : list Z -> Z -> option (list (list Z) * list Z)).
Context (handle_frame : Frame.t AckRangesDecoder -> S -> outcome (result (S * Z) E)).
Context (handle_ack_frame : Ack.t (IntervalSet Z) -> S -> outcome (result S E)).
Context (on_active_path : S -> bool).
Context (path_on_processed : ProcessedPacket -> S -> outcome (result (bool * S) E)).
Context (unblocked : S -> outcome S).
Context (on_processed : ProcessedPacket -> S -> outcome (result S E)).

(** PADDING and PING have no handler. *)
Definition has_handler (f : Frame.t AckRangesDecoder) : bool :=
  match f with Frame.Padding _ | Frame.Ping _ => false | _ => true end.

(** The frames handed to their handlers, one after the other. *)
Fixpoint handle_all (fs : list (Frame.t AckRangesDecoder)) (st : S) : outcome (result S E) :=
  match fs with
  | [] => Ret (Ok st)
  | f :: fs =>
      if has_handler f then let+ '(st, _) := handle_frame f st in handle_all fs st else handle_all fs st
  end.

(** What a run that panics can be blamed on: a handler panicked on a decoded
    frame, an injected ACK frame or the whole packet, or the interceptor inserted
    an inverted range. *)
Definition blamed (ranges : list (Z * Z)) : Prop :=
  (exists f st, decoded_ok f /\ handle_frame f st = Panic)
  \/ (exists f st, handle_ack_frame f st = Panic)
  \/ (exists pp st, path_on_processed pp st = Panic)
  \/ (exists st, unblocked st = Panic)
  \/ (exists pp st, on_processed pp st = Panic)
  \/ Exists (fun r => r.2 < r.1) ranges.

Context (ranges : list (Z * Z)).
Abbreviation excused := (runs (blamed ranges)).

(** What one frame makes of the tracker. *)
Definition counted (pp : ProcessedPacket) (f : Frame.t AckRangesDecoder) (pp' : ProcessedPacket) : Prop :=
  packet_number pp' = packet_number pp /\ frames pp' = frames pp + 1
  /\ ack_elicitation pp' = Frame.ack_elicitation_or (ack_elicitation pp) (Frame.ack_elicitation f)
  /\ path_validation_probing pp' = Frame.probe_or (path_validation_probing pp) (Frame.path_validation f)
  /\ contains_crypto pp' = contains_crypto pp || is_crypto f.

Lemma counted_tracks f pp pp' : counted pp f pp' -> tracks pp [f] pp'.
Proof.
  intros (H1 & H2 & H3 & H4 & H5). unfold tracks.
  rewrite !Exists_cons, Forall_cons, !Exists_nil, Forall_nil, H3, H4, H5, orb_true_iff.
  change (vlen [f]) with 1. split_and!; [done | done | | | naive_solver].
  - by destruct (ack_elicitation pp), (Frame.ack_elicitation f); naive_solver.
  - by destruct (path_validation_probing pp), (Frame.path_validation f); naive_solver.
Qed.

Lemma process_frame_ok f pp st :
  decoded_ok f ->
  excused (Payload.process_frame handle_frame on_active_path f pp st) (fun r =>
    match r with
    | Ok (pp', st') => counted pp f pp' /\ is_close f = false /\ handle_all [f] st = Ret (Ok st')
    | Err e => e <> Payload.NoFrames /\ e <> Payload.InvalidRange
    end).
Proof.
  intros Hok. assert (Hb : handle_frame f st = Panic -> blamed ranges) by (left; eauto).
  unfold counted. rewrite (orb_comm (contains_crypto pp)).
  destruct f; cbn [Payload.process_frame handle_all has_handler]; [done | done | ..];
    destruct (handle_frame _ st) as [[[st1 k] |] |]; cbn; try done; try (by apply Hb);
    by destruct (on_active_path st).
Qed.

Context (Hprefix : from_prefix_spec slice_from_prefix).

Lemma handle_all_cons f fs st st1 st' :
  handle_all [f] st = Ret (Ok st1) -> handle_all fs st1 = Ret (Ok st') -> handle_all (f :: fs) st = Ret (Ok st').
Proof.
  cbn [handle_all]. destruct (has_handler f); [| by intros [= ->]].
  destruct (handle_frame f st) as [[[st2 k] |] |]; cbn [orbind obind]; [by intros [= ->] | done | done].
Qed.

(** The loop consumes the payload, or stops at an error of a frame. *)
Lemma process_frames_ok fuel payload pp st :
  bytes_ok payload -> blen payload < 2 ^ 63 -> (length payload <= fuel)%nat ->
  excused (Payload.process_frames slice_from_prefix handle_frame on_active_path fuel payload pp st) (fun r =>
    match r with
    | Ok (pp', st') =>
        exists fs, consists_of slice_from_prefix payload fs /\ tracks pp fs pp'
          /\ Forall (fun f => decoded_ok f /\ is_close f = false) fs /\ handle_all fs st = Ret (Ok st')
    | Err e => e <> Payload.NoFrames /\ e <> Payload.InvalidRange
    end).
Proof.
  revert payload pp st. induction fuel as [| fuel IH]; intros payload pp st Hb Hl Hf.
  { destruct payload; [| simpl in Hf; lia]. exists []. split_and!; [constructor | apply tracks_nil | done | done]. }
  cbn [Payload.process_frames]. destruct (Z.eqb_spec (blen payload) 0) as [Hz |].
  { destruct payload; [| rewrite blen_cons in Hz; pose proof (blen_nonneg payload); lia].
    exists []. split_and!; [constructor | apply tracks_nil | done | done]. }
  pose proof (frame_progresses _ Hprefix payload Hb Hl) as Hp.
  destruct (Frame.decode_frame slice_from_prefix payload) as [[[f rest] |] |] eqn:Hd; [| done | done].
  destruct Hp as [Hok (pre & Hne & ->)]. cbn [obind]. apply runs_orbind.
  eapply runs_mono; [by apply process_frame_ok |]. intros [[pp1 st1] |]; [| done]. intros (Ht & Hcl & Hst).
  apply Forall_app in Hb as [_ Hb].
  rewrite blen_app in Hl. pose proof (blen_nonneg pre). rewrite length_app in Hf.
  eapply runs_mono; [apply IH; [done | lia | destruct pre; [done | simpl in Hf; lia]] |].
  intros [[pp' st'] |]; [| done]. intros (fs & Hc & Hts & Hall & Hst'). exists (f :: fs).
  split_and!; [by econstructor | eapply tracks_cons; [by apply counted_tracks | done] | by constructor
    | by eapply handle_all_cons].
Qed.

(** *** The ranges of the interceptor *)

Definition range_ok (r : Z * Z) : Prop := varint_ok r.1 /\ varint_ok r.2.

(** The tracker after [n] injected ACK frames. *)
Definition injected (pp : ProcessedPacket) (n : Z) (pp' : ProcessedPacket) : Prop :=
  packet_number pp' = packet_number pp /\ frames pp' = frames pp + n
  /\ ack_elicitation pp' = ack_elicitation pp
  /\ path_validation_probing pp' = (if n =? 0 then path_validation_probing pp else Frame.NonProbing)
  /\ contains_crypto pp' = contains_crypto pp.

Lemma insert_range_counts v s r pp st error :
  varint_ok v -> range_ok r -> r ∈ ranges ->
  excused (Payload.insert_range handle_ack_frame (PacketNumber.from_varint v s) r pp st error)
    (fun '(pp', _, e') => injected pp 1 pp' /\ e' <> Some Payload.NoFrames /\ e' <> Some Payload.InvalidRange).
Proof.
  intros Hv [Ha Hb] Hr. unfold Payload.insert_range.
  change (AckRanges.new Payload.RECOMMENDED_RANGES_LIMIT) with (Ret (IntervalSetOps.with_limit (T := Z) 10)).
  cbn [obind]. rewrite pn_space_from_varint by done. cbn [obind].
  destruct (Z.leb_spec r.1 r.2) as [Hle | Hgt].
  2: { unfold PacketNumberRange.new. rewrite pn_le_from_varint by done. cbn [obind].
       rewrite (proj2 (Z.leb_gt _ _)) by lia. do 5 right. apply Exists_exists. eauto. }
  unfold PacketNumberRange.new. rewrite pn_le_from_varint by done. cbn [obind].
  rewrite (proj2 (Z.leb_le _ _)) by done. cbn [rassert obind].
  destruct (insert_range_ok s 10 (IntervalSetOps.with_limit 10)
    (mk_iv (PacketNumber.from_varint r.1 s) (PacketNumber.from_varint r.2 s)) false) as (res & rs & Hi & _ & Hres).
  { split_and!; try done. split; [done | by intros n [= <-]]. }
  { split_and!; [by exists r.1 | by exists r.2 |]. cbn [istart iend].
    by rewrite !pn_as_u64_from_varint. }
  cbn [istart iend] in Hi. rewrite Hi. cbn [obind]. destruct res as [? | []]; [| by destruct Hres as (_ & _ & ? & _) | by destruct Hres].
  apply runs_bind, runs_handled. eapply runs_mono; [apply runs_self |].
  { right; left; eauto. }
  intros [st' | e] _; unfold injected; cbn;
    by destruct (ack_elicitation pp), (path_validation_probing pp).
Qed.

Lemma insert_ranges_count v s l pp st error :
  varint_ok v -> Forall range_ok l -> l ⊆ ranges -> error <> Some Payload.NoFrames /\ error <> Some Payload.InvalidRange ->
  excused (Payload.insert_ranges handle_ack_frame (PacketNumber.from_varint v s) l pp st error)
    (fun '(pp', _, e') => injected pp (vlen l) pp' /\ e' <> Some Payload.NoFrames /\ e' <> Some Payload.InvalidRange).
Proof.
  intros Hv Hl. revert pp st error. induction Hl as [| r l Hr _ IH]; intros pp st error Hin He.
  { cbn. unfold injected. change (vlen _) with 0. cbn. destruct He. split_and!; try done; lia. }
  cbn [Payload.insert_ranges]. apply runs_bind. eapply runs_mono; [apply insert_range_counts; [done | done |] |].
  { apply Hin. by left. }
  intros [[pp1 st1] e1] [(A1 & A2 & A3 & A4 & A5) He1].
  eapply runs_mono; [apply IH; [| done] |]. { intros x Hx. apply Hin. by right. }
  intros [[pp2 st2] e2] [(B1 & B2 & B3 & B4 & B5) He2]. split; [| done].
  pose proof (vlen_nonneg l). unfold injected. rewrite (vlen_cons r l), B4, A4.
  destruct (Z.eqb_spec (vlen l) 0), (Z.eqb_spec (1 + vlen l) 0); cbn [Z.eqb]; split_and!; try congruence; try lia.
Qed.
End Loop.

(** C21: Processing a packet's payload terminates on arbitrary bytes, and panics
    only when a handler does, on a frame that decoded well, or when the
    application's packet interceptor inserts an inverted range.  When it
    succeeds, the ranges the interceptor inserted were each counted as an ACK
    frame; the payload was a sequence of well-formed frames, none of them a
    CONNECTION_CLOSE, which went to their handlers in order, and there was at
    least one frame or range; the packet is ack-eliciting exactly when one of the
    payload's frames is, a path probe exactly when all of them are and no range
    was inserted, and contains CRYPTO data exactly when one of them is a CRYPTO
    frame.  A packet is refused for having no frames only if it has none and no
    range was inserted. *)
Theorem payload_processed {S E} slice_from_prefix (handle_frame : _ -> S -> outcome (result (S * Z) E))
    handle_ack_frame on_active_path intercept_rx_payload ranges path_on_processed unblocked on_processed
    v s payload st :
  from_prefix_spec slice_from_prefix -> varint_ok v -> Forall range_ok ranges ->
  bytes_ok (intercept_rx_payload payload) -> blen (intercept_rx_payload payload) < 2 ^ 63 ->
  let pn := PacketNumber.from_varint v s in
  match Payload.handle_cleartext_payload slice_from_prefix handle_frame handle_ack_frame on_active_path
          intercept_rx_payload ranges path_on_processed unblocked on_processed pn payload st with
  | Ret (Ok (pp, _)) =>
      exists fs pp0 st0 st1,
        Payload.insert_ranges handle_ack_frame pn ranges (ProcessedPacketOps.new pn) st None = Ret (pp0, st0, None)
        /\ consists_of slice_from_prefix (intercept_rx_payload payload) fs
        /\ Forall (fun f => frame_ok (frame_view f) /\ is_close f = false) fs
        /\ handle_all handle_frame fs st0 = Ret (Ok st1)
        /\ packet_number pp = pn /\ frames pp = vlen ranges + vlen fs /\ frames pp <> 0
        /\ (ack_elicitation pp = Frame.Eliciting <-> Exists (fun f => Frame.ack_elicitation f = Frame.Eliciting) fs)
        /\ (path_validation_probing pp = Frame.Probing <->
            ranges = [] /\ Forall (fun f => Frame.path_validation f = Frame.Probing) fs)
        /\ (contains_crypto pp = true <-> Exists (fun f => is_crypto f = true) fs)
  | Ret (Err Payload.NoFrames) => ranges = [] /\ intercept_rx_payload payload = []
  | Ret (Err Payload.InvalidRange) => False
  | Ret (Err _) => True
  | Panic => blamed handle_frame handle_ack_frame path_on_processed unblocked on_processed ranges
  end.
Proof.
  intros Hp Hv Hr Hb Hl pn. unfold Payload.handle_cleartext_payload. fold pn.
  pose proof (insert_ranges_count handle_frame handle_ack_frame path_on_processed unblocked on_processed ranges
    v s ranges (ProcessedPacketOps.new pn) st None Hv Hr (reflexivity _) ltac:(done)) as Hi.
  fold pn in Hi. destruct (Payload.insert_ranges _ _ _ _ _ _) as [[[pp0 st0] [e |]] |]; [| | exact Hi].
  { destruct Hi as [_ [H1 H2]]. cbn [obind]. by destruct e. }
  destruct Hi as [(I1 & I2 & I3 & I4 & I5) _]. cbn [obind].
  pose proof (process_frames_ok slice_from_prefix handle_frame handle_ack_frame on_active_path path_on_processed
    unblocked on_processed ranges Hp _ _ pp0 st0 Hb Hl (le_n _)) as H.
  destruct (Payload.process_frames _ _ _ _ _ pp0 st0) as [[[pp st1] | e] |]; [| by destruct e, H | exact H].
  cbn [orbind obind]. destruct H as (fs & H1 & (T1 & T2 & T3 & T4 & T5) & H3 & H4).
  rewrite I2 in T2. rewrite I3 in T3. rewrite I5 in T5. cbn in T2, T3, T5.
  pose proof (vlen_nonneg ranges). pose proof (vlen_nonneg fs).
  assert (Hn : vlen ranges = 0 <-> ranges = []) by (destruct ranges; [done | rewrite vlen_cons; split; [pose proof (vlen_nonneg ranges); lia | done]]).
  destruct (Z.eqb_spec (frames pp) 0) as [Hz | Hz].
  { split; [apply Hn; lia |]. destruct H1; [done |]. rewrite vlen_cons in *. pose proof (vlen_nonneg fs). lia. }
  destruct (path_on_processed pp st1) as [[[b st2] |] |] eqn:E1; cbn [Payload.handled orbind obind]; [| done | right; right; left; eauto].
  destruct (if b then unblocked st2 else Ret st2) as [st3 |] eqn:E2; cbn [obind].
  2: { destruct b; [| done]. do 3 right. left. eauto. }
  destruct (on_processed pp st3) as [[st4 |] |] eqn:E3; cbn [Payload.handled orbind obind]; [| done | do 4 right; left; eauto].
  exists fs, pp0, st0, st1. do 4 (split; [done |]). split; [by rewrite T1 |]. split; [lia |]. split; [done |].
  split; [| split].
  - rewrite T3. split; [by intros [? |] | by right].
  - rewrite T4, I4, <- Hn. destruct (Z.eqb_spec (vlen ranges) 0); [| by split; intros []].
    split; intros [? ?]; by split.
  - rewrite T5. split; [by intros [? |] | by right].
Qed.

(** A space that counts the frames its handlers get. *)
Definition counting_run (ranges : list (Z * Z)) (payload : list Z) :=
  Payload.handle_cleartext_payload (S := Z) (E := unit) tokens_from_prefix
    (fun _ n => Ret (Ok (n + 1, 0))) (fun _ n => Ret (Ok (n + 1))) (fun _ => true) (fun p => p) ranges
    (fun _ st => Ret (Ok (true, st))) (fun st => Ret st) (fun _ st => Ret (Ok st))
    (PacketNumber.from_varint 9 ApplicationData) payload 0.

Lemma payload_processed_witness :
  let payload := [0; 0; 6; 0; 1; 5; 26; 1; 2; 3; 4; 5; 6; 7; 8] in
  let pp := mk_pp (PacketNumber.from_varint 9 ApplicationData) Frame.Eliciting true 4 Frame.NonProbing 0 true in
  counting_run [(3, 5)] payload = Ret (Ok (pp, 3))
  /\ exists fs, consists_of tokens_from_prefix payload fs /\ vlen fs = 3.
Proof.
  intros payload pp. assert (E : counting_run [(3, 5)] payload = Ret (Ok (pp, 3))) by (by vm_compute).
  split; [exact E |].
  pose proof (payload_processed (S := Z) (E := unit) tokens_from_prefix
    (fun _ n => Ret (Ok (n + 1, 0))) (fun _ n => Ret (Ok (n + 1))) (fun _ => true) (fun p => p) [(3, 5)]
    (fun _ st => Ret (Ok (true, st))) (fun st => Ret st) (fun _ st => Ret (Ok st)) 9 ApplicationData payload 0
    tokens_from_prefix_spec ltac:(by vm_compute) ltac:(by repeat constructor)
    ltac:(by repeat constructor) ltac:(by vm_compute)) as H.
  cbv zeta in H. unfold counting_run in E. rewrite E in H.
  destruct H as (fs & pp0 & st0 & st1 & _ & Hc & _ & _ & _ & Hf & _). exists fs. split; [exact Hc |].
  simpl in Hf. unfold vlen in Hf at 1. simpl in Hf. lia.
Defined.

(** Only the last range the interceptor inserts decides the context's error: the
    failure of an earlier one is forgotten when a later one succeeds. *)
Example later_range_clears_error :
  let refuses_one (f : Ack.t (IntervalSet Z)) (n : Z) : outcome (result Z unit) :=
    Ret (match AckRanges.ack_ranges (Ack.ack_ranges f) with [(1, 1)] => Err tt | _ => Ok (n + 1) end) in
  let error ranges :=
    let! '(_, _, error) := Payload.insert_ranges refuses_one (PacketNumber.from_varint 9 ApplicationData) ranges
      (ProcessedPacketOps.new (PacketNumber.from_varint 9 ApplicationData)) 0 None in Ret error in
  error [(1, 1)] = Ret (Some (Payload.Handler tt)) /\ error [(1, 1); (3, 5)] = Ret None.
Proof. by vm_compute. Qed.
