(* ===== verification/ReassemblerSlot.v ===== *)
(** * Slots of the stream reassembler

    [buffer/reassembler/slot.rs] and [buffer/reassembler/request.rs]: the
    buffers a receive stream keeps its data in, and the write requests that
    fill them.

    The byte buffers are [bytes::BytesMut], a third-party type: an interface
    ([BytesMut]) with the behaviour its documentation promises
    ([BytesMutSpec]), which the code of the reassembler is modelled over.  The
    debug assertions and the [assume!] conditions of the source (undefined
    behaviour in release builds if they fail) are checks of the model. *)
From S2P Require Import Prelude Codec VarInt.

(** ** The interface of [bytes::BytesMut] *)

Class BytesMut (B : Type) := {
  b_new : B;
  b_len : B -> Z;
  b_capacity : B -> Z;
  b_as_slice : B -> list Z;
  (** [as_ptr()]: the address of the first byte. *)
  b_as_ptr : B -> Z;
  (** Write bytes at an offset of [spare_capacity_mut()]. *)
  b_write_spare : B -> Z -> list Z -> B;
  (** Extend the initialised part over bytes written to the spare capacity. *)
  b_advance_mut : B -> Z -> outcome B;
  (** [Buf::advance]: drop bytes from the front. *)
  b_advance : B -> Z -> outcome B;
  (** [split_off(at)]: the buffer before [at] and the one from [at] on. *)
  b_split_off : B -> Z -> outcome (B * B);
  (** [split_to(at)]: the buffer from [at] on and the one before it. *)
  b_split_to : B -> Z -> outcome (B * B);
  b_unsplit : B -> B -> B
}.

(** What a buffer is: its memory (as long as its capacity), of which the first
    [raw_len] bytes are initialised, at an address, and the allocation it is a
    part of. *)
Record raw := mk_raw { raw_mem : list Z; raw_len : Z; raw_addr : Z; raw_arena : Z }.

Definition raw_ok (r : raw) : Prop := 0 <= raw_len r <= blen (raw_mem r).
Definition raw_bytes (r : raw) : list Z := take (Z.to_nat (raw_len r)) (raw_mem r).

(** Memory with [bs] written at [off]. *)
Definition mem_write (mem : list Z) (off : Z) (bs : list Z) : list Z :=
  take (Z.to_nat off) mem ++ bs ++ drop (Z.to_nat (off + blen bs)) mem.

Definition mem_take (n : Z) (mem : list Z) : list Z := take (Z.to_nat n) mem.
Definition mem_drop (n : Z) (mem : list Z) : list Z := drop (Z.to_nat n) mem.

(** The documented behaviour, in terms of what a buffer is.  [unsplit] joins
    buffers that are adjacent parts of one allocation, of which the first is full,
    without copying. *)
Class BytesMutSpec (B : Type) {HB : BytesMut B} := {
  b_view : B -> raw;
  b_view_ok : forall b, raw_ok (b_view b);
  b_len_spec : forall b, b_len b = raw_len (b_view b);
  b_capacity_spec : forall b, b_capacity b = blen (raw_mem (b_view b));
  b_as_slice_spec : forall b, b_as_slice b = raw_bytes (b_view b);
  b_as_ptr_spec : forall b, b_as_ptr b = raw_addr (b_view b);
  b_new_spec : raw_mem (b_view b_new) = [] /\ raw_len (b_view b_new) = 0;
  b_write_spare_spec : forall b off bs,
    0 <= off -> raw_len (b_view b) + off + blen bs <= blen (raw_mem (b_view b)) ->
    b_view (b_write_spare b off bs)
    = mk_raw (mem_write (raw_mem (b_view b)) (raw_len (b_view b) + off) bs)
             (raw_len (b_view b)) (raw_addr (b_view b)) (raw_arena (b_view b));
  b_advance_mut_spec : forall b n,
    0 <= n -> raw_len (b_view b) + n <= blen (raw_mem (b_view b)) ->
    exists b', b_advance_mut b n = Ret b'
      /\ b_view b' = mk_raw (raw_mem (b_view b)) (raw_len (b_view b) + n) (raw_addr (b_view b)) (raw_arena (b_view b));
  b_advance_spec : forall b n,
    0 <= n <= raw_len (b_view b) ->
    exists b', b_advance b n = Ret b'
      /\ b_view b' = mk_raw (mem_drop n (raw_mem (b_view b))) (raw_len (b_view b) - n)
                            (raw_addr (b_view b) + n) (raw_arena (b_view b));
  b_split_off_spec : forall b at_,
    0 <= at_ <= blen (raw_mem (b_view b)) ->
    exists b1 b2, b_split_off b at_ = Ret (b1, b2)
      /\ b_view b1 = mk_raw (mem_take at_ (raw_mem (b_view b))) (Z.min at_ (raw_len (b_view b)))
                            (raw_addr (b_view b)) (raw_arena (b_view b))
      /\ b_view b2 = mk_raw (mem_drop at_ (raw_mem (b_view b))) (Z.max 0 (raw_len (b_view b) - at_))
                            (raw_addr (b_view b) + at_) (raw_arena (b_view b));
  b_split_to_spec : forall b at_,
    0 <= at_ <= raw_len (b_view b) ->
    exists b1 b2, b_split_to b at_ = Ret (b1, b2)
      /\ b_view b1 = mk_raw (mem_drop at_ (raw_mem (b_view b))) (raw_len (b_view b) - at_)
                            (raw_addr (b_view b) + at_) (raw_arena (b_view b))
      /\ b_view b2 = mk_raw (mem_take at_ (raw_mem (b_view b))) at_ (raw_addr (b_view b)) (raw_arena (b_view b));
  b_unsplit_spec : forall a b,
    raw_len (b_view a) = blen (raw_mem (b_view a)) ->
    raw_addr (b_view a) + raw_len (b_view a) = raw_addr (b_view b) -> raw_arena (b_view a) = raw_arena (b_view b) ->
    b_view (b_unsplit a b)
    = mk_raw (raw_mem (b_view a) ++ raw_mem (b_view b)) (raw_len (b_view a) + raw_len (b_view b))
             (raw_addr (b_view a)) (raw_arena (b_view a))
}.

(** ** Requests *)

(** [Request]: bytes of the stream at an offset. *)
Record Request := mk_req { req_offset : Z; req_data : list Z; req_is_fin : bool }.

(** [buffer::Error] with an infallible reader. *)
Inductive BufferError := OutOfRange | InvalidFin.

Module RequestOps.

Definition new (offset : Z) (data : list Z) (is_fin : bool) : result Request BufferError :=
  match VarInt.checked_add_usize offset (blen data) with
  | None => Err OutOfRange
  | Some _ => Ok (mk_req offset data is_fin)
  end.

Definition current_offset (self : Request) : Z := req_offset self.

Definition final_offset (self : Request) : outcome (option Z) :=
  if req_is_fin self then
    let! off := VarInt.add_usize (current_offset self) (blen (req_data self)) in
    Ret (Some off)
  else Ret None.

Definition buffered_len (self : Request) : Z := blen (req_data self).
Definition buffer_is_empty (self : Request) : bool := buffered_len self =? 0.

(** [read_chunk]: at most [watermark] bytes. *)
Definition read_chunk (self : Request) (watermark : Z) : list Z * Request :=
  let len := Z.min (blen (req_data self)) watermark in
  (take (Z.to_nat len) (req_data self),
   mk_req (req_offset self + len) (drop (Z.to_nat len) (req_data self)) (req_is_fin self)).

(** [copy_into] a destination with room for [capacity] bytes: the bytes
    written. *)
Definition copy_into (self : Request) (capacity : Z) : list Z * Request := read_chunk self capacity.

(** [Reader::skip_until]: the loop reads at least a byte or ends. *)
Fixpoint skip_loop (fuel : nat) (self : Request) (offset : Z) : Request :=
  match fuel with
  | O => self
  | S fuel =>
      match VarInt.checked_sub offset (current_offset self) with
      | None => self
      | Some len =>
          if negb (0 <? len) then self else
          let len := Z.min (umax 64) len in
          let '(_, self) := read_chunk self len in
          if buffer_is_empty self then self else skip_loop fuel self offset
      end
  end.

Definition skip_until (self : Request) (offset : Z) : Request :=
  if negb (current_offset self <? offset) then self
  else skip_loop (S (length (req_data self))) self offset.

End RequestOps.

(** ** Slots *)

Section Slot.
Context {B : Type} {HB : BytesMut B}.

(** [Slot]: the range [start, end) of the stream is allocated, and its front
    part holds data. *)
Record Slot := mk_slot { slot_start : Z; slot_end_allocated : Z; slot_data : B }.

Definition slot_end (self : Slot) : Z := slot_start self + b_len (slot_data self).

Definition slot_invariants (self : Slot) : outcome unit :=
  let! _ := rassert (b_capacity (slot_data self) <=? 2 ^ 16) in
  let! _ := rassert (slot_start self <=? slot_end self) in
  let! _ := rassert (slot_start self <=? slot_end_allocated self) in
  let! _ := rassert (slot_end self <=? slot_end_allocated self) in
  let! _ := rassert (b_capacity (slot_data self) =? slot_end_allocated self - slot_start self) in
  rassert (b_len (slot_data self) =? slot_end self - slot_start self).

Definition slot_new (start end_ : Z) (data : B) : outcome Slot :=
  let v := mk_slot start end_ data in
  let! _ := slot_invariants v in
  Ret v.

Definition slot_is_full (self : Slot) : bool := slot_end self =? slot_end_allocated self.
Definition slot_is_empty (self : Slot) : bool := b_len (slot_data self) =? 0.
Definition slot_is_occupied (self : Slot) (prev_offset : Z) : bool :=
  negb (slot_is_empty self) && (slot_start self =? prev_offset).
Definition slot_should_drop (self : Slot) : bool := slot_start self =? slot_end_allocated self.

(** [write_reader_append]: the slot, the reader, and the flag [filled_slot]. *)
Definition slot_write_reader_append (self : Slot) (reader : Request) (filled_slot : bool)
    : outcome (Slot * Request * bool) :=
  let! _ := rassert (RequestOps.current_offset reader =? slot_end self) in
  let! _ := rassert (b_len (slot_data self) <? b_capacity (slot_data self)) in
  let chunk_len := b_capacity (slot_data self) - b_len (slot_data self) in
  let '(written, reader) := RequestOps.copy_into reader chunk_len in
  let len := blen written in
  let! _ := rassert (b_len (slot_data self) + len <=? b_capacity (slot_data self)) in
  let! data := b_advance_mut (b_write_spare (slot_data self) 0 written) len in
  Ret (mk_slot (slot_start self) (slot_end_allocated self) data, reader,
       filled_slot || (chunk_len =? len)).

(** [write_reader_split]: the data goes behind a gap; the slot keeps the part
    before it, and the part from it on is returned. *)
Definition slot_write_reader_split (self : Slot) (reader : Request) (filled_slot : bool)
    : outcome (Slot * Slot * Request * bool) :=
  let reader_start := RequestOps.current_offset reader in
  let! _ := rassert (slot_end self <? reader_start) in
  let! offset := sub_c reader_start (slot_end self) in
  let spare := b_capacity (slot_data self) - b_len (slot_data self) in
  let! _ := rassert (offset <? spare) in
  let chunk_len := spare - offset in
  let '(written, reader) := RequestOps.copy_into reader chunk_len in
  let filled_len := blen written in
  let data := b_write_spare (slot_data self) offset written in
  let! _ := rassert (b_len data + offset <=? b_capacity data) in
  let! '(data, filled) := b_split_off data (b_len data + offset) in
  let! _ := rassert (b_len filled =? 0) in
  let! _ := rassert (filled_len <=? b_capacity filled - b_len filled) in
  let! filled := b_advance_mut filled filled_len in
  let filled_slot := filled_slot || (chunk_len =? filled_len) in
  let filled := mk_slot reader_start (slot_end_allocated self) filled in
  let! _ := slot_invariants filled in
  let self := mk_slot (slot_start self) reader_start data in
  let! _ := slot_invariants self in
  Ret (self, filled, reader, filled_slot).

(** [try_write_reader]: the slot, the slot split off, the reader and the flag. *)
Definition slot_try_write_reader (self : Slot) (reader : Request) (filled_slot : bool)
    : outcome (Slot * option Slot * Request * bool) :=
  let! _ := rassert (slot_start self <=? RequestOps.current_offset reader) in
  let end_ := slot_end self in
  if negb (end_ <? slot_end_allocated self) then
    let reader := RequestOps.skip_until reader (slot_end_allocated self) in
    Ret (self, None, reader, filled_slot)
  else
    let reader := RequestOps.skip_until reader end_ in
    if RequestOps.buffer_is_empty reader then Ret (self, None, reader, filled_slot) else
    let start := RequestOps.current_offset reader in
    if negb (start <? slot_end_allocated self) then Ret (self, None, reader, filled_slot) else
    if start =? end_ then
      let! '(self, reader, filled_slot) := slot_write_reader_append self reader filled_slot in
      let! _ := slot_invariants self in
      Ret (self, None, reader, filled_slot)
    else
      let! '(self, filled, reader, filled_slot) := slot_write_reader_split self reader filled_slot in
      let! _ := slot_invariants self in
      let! _ := slot_invariants filled in
      Ret (self, Some filled, reader, filled_slot).

Definition slot_unsplit (self next : Slot) : outcome Slot :=
  let! _ := rassert (slot_end self =? slot_end_allocated self) in
  let! _ := rassert (slot_end self =? slot_start next) in
  let! _ := rassert (negb (b_len (slot_data self) =? 0)) in
  let! _ := rassert (0 <? b_capacity (slot_data self)) in
  let! _ := rassert (negb (b_len (slot_data next) =? 0)) in
  let! _ := rassert (0 <? b_capacity (slot_data next)) in
  let! _ := rassert (b_as_ptr (slot_data self) + b_len (slot_data self) =? b_as_ptr (slot_data next)) in
  let self := mk_slot (slot_start self) (slot_end_allocated next)
                (b_unsplit (slot_data self) (slot_data next)) in
  let! _ := slot_invariants self in
  Ret self.

Definition slot_consume (self : Slot) : B * Slot :=
  (slot_data self, mk_slot (slot_end_allocated self) (slot_end_allocated self) b_new).

Definition slot_skip (self : Slot) (len : Z) : outcome Slot :=
  let! _ := rassert (len <=? 2 ^ 16) in
  let! data :=
    match checked_sub len (b_len (slot_data self)) with
    | Some to_advance =>
        let! _ := rassert (to_advance <=? umax 64 - b_len (slot_data self)) in
        b_advance_mut (slot_data self) to_advance
    | None => Ret (slot_data self)
    end in
  let to_advance := Z.min (b_len data) len in
  let! data := b_advance data to_advance in
  let! start := add_c 64 (slot_start self) len in
  let self := mk_slot start (slot_end_allocated self) data in
  let! _ := slot_invariants self in
  Ret self.

Definition slot_skip_until (self : Slot) (offset : Z) : outcome Slot :=
  match checked_sub offset (slot_start self) with
  | Some len => slot_skip self len
  | None => Ret self
  end.

(** [BytesMut::read_chunk] of the storage trait. *)
Definition bytes_read_chunk (self : B) (watermark : Z) : outcome (B * B) :=
  let len := Z.min (b_len self) watermark in
  if negb (0 <? len) then Ret (self, b_new)
  else if b_capacity self =? len then Ret (b_new, self)
  else b_split_to self len.

(** [Slot::read_chunk]: the slot and the chunk. *)
Definition slot_read_chunk (self : Slot) (watermark : Z) : outcome (Slot * B) :=
  let! '(data, chunk) := bytes_read_chunk (slot_data self) watermark in
  let! start := add_c 64 (slot_start self) (b_len chunk) in
  Ret (mk_slot start (slot_end_allocated self) data, chunk).

(** [BytesMut::copy_into] and [Slot::copy_into] a plain slice with room for
    [capacity] bytes: the slot and the bytes written. *)
Definition bytes_copy_into (self : B) (capacity : Z) : outcome (B * list Z) :=
  let watermark := Z.min (b_len self) capacity in
  if watermark =? b_len self then
    let! '(self, chunk) := bytes_read_chunk self watermark in
    Ret (self, b_as_slice chunk)
  else
    let written := take (Z.to_nat watermark) (b_as_slice self) in
    let! self := b_advance self watermark in
    Ret (self, written).

Definition slot_copy_into (self : Slot) (capacity : Z) : outcome (Slot * list Z) :=
  let! '(data, written) := bytes_copy_into (slot_data self) capacity in
  let! start := add_c 64 (slot_start self) (blen written) in
  let self := mk_slot start (slot_end_allocated self) data in
  let! _ := slot_invariants self in
  Ret (self, written).

End Slot.
Arguments Slot : clear implicits.
