(* ===== verification/Reassembler.v ===== *)
(** * The stream reassembler

    [buffer/reassembler.rs] and [buffer/reassembler/reader.rs]: a queue of
    slots that takes pieces of a stream in any order and hands out the
    contiguous data at its front.  [alloc offset size] is the buffer
    [BytesMut::with_capacity(size)] returns for the slot at [offset]: an
    arbitrary function for each call, since the allocator may answer anything. *)
From S2P Require Import Prelude Codec VarInt ReassemblerSlot.

Definition MIN_BUFFER_ALLOCATION_SIZE : Z := 4096.
Definition UNKNOWN_FINAL_SIZE : Z := 18446744073709551615.

Record Cursors := mk_cursors { start_offset : Z; max_recv_offset : Z; final_offset : Z }.

Module CursorsOps.
Definition default : Cursors := mk_cursors 0 0 UNKNOWN_FINAL_SIZE.
Definition final_size (self : Cursors) : option Z :=
  if final_offset self =? UNKNOWN_FINAL_SIZE then None else Some (final_offset self).
End CursorsOps.

(** [align_offset] and [allocation_size]. *)
Definition align_offset (offset alignment : Z) : Z := offset / alignment * alignment.

Fixpoint allocation_loop (pows : list Z) (offset : Z) : Z :=
  match pows with
  | [] => MIN_BUFFER_ALLOCATION_SIZE
  | pow :: pows =>
      let mult := Z.shiftl 1 pow in
      let square := mult * mult in
      let min_offset := MIN_BUFFER_ALLOCATION_SIZE * square in
      let allocation_size := MIN_BUFFER_ALLOCATION_SIZE * mult in
      if min_offset <=? offset then allocation_size else allocation_loop pows offset
  end.
Definition allocation_size (offset : Z) : Z := allocation_loop [4; 3; 2] offset.

Section Reassembler.
Context {B : Type} {HB : BytesMut B}.

Record Reassembler := mk_ra { slots : list (Slot B); cursors : Cursors }.

Definition ra_default : Reassembler := mk_ra [] CursorsOps.default.
Definition ra_new : Reassembler := ra_default.

Definition final_size (self : Reassembler) : option Z := CursorsOps.final_size (cursors self).
Definition consumed_len (self : Reassembler) : Z := start_offset (cursors self).

(** The loop of [total_received_len]: the end of the contiguous data. *)
Fixpoint received_end (l : list (Slot B)) (offset : Z) : Z :=
  match l with
  | [] => offset
  | slot :: l => if slot_is_occupied slot offset then received_end l (slot_end slot) else offset
  end.
Definition total_received_len (self : Reassembler) : Z :=
  received_end (slots self) (start_offset (cursors self)).

(** [Iter]: the chunks that can be read. *)
Fixpoint iter_chunks (l : list (Slot B)) (prev_end : Z) : list (list Z) :=
  match l with
  | [] => []
  | slot :: l =>
      if slot_is_occupied slot prev_end
      then b_as_slice (slot_data slot) :: iter_chunks l (slot_end slot) else []
  end.
Definition ra_iter (self : Reassembler) : list (list Z) :=
  iter_chunks (slots self) (start_offset (cursors self)).

Definition report (self : Reassembler) : Z * Z :=
  (fold_left (fun bytes chunk => bytes + blen chunk) (ra_iter self) 0, vlen (ra_iter self)).
Definition ra_len (self : Reassembler) : Z := (report self).1.
Definition ra_is_empty (self : Reassembler) : bool :=
  match slots self with
  | slot :: _ => negb (slot_is_occupied slot (start_offset (cursors self)))
  | [] => true
  end.

Definition is_writing_complete (self : Reassembler) : bool :=
  match final_size self with Some len => total_received_len self =? len | None => false end.
Definition is_reading_complete (self : Reassembler) : bool :=
  match final_size self with Some len => len =? start_offset (cursors self) | None => false end.

(** Whether a full slot and its successor should have been joined. *)
Definition unmerged (slot : Slot B) (next : option (Slot B)) : bool :=
  slot_is_full slot &&
  match next with
  | None => false
  | Some next =>
      (slot_start next =? slot_end slot)
      && (align_offset (slot_start slot) (allocation_size (slot_start slot))
          =? align_offset (slot_start next) (allocation_size (slot_start next)))
  end.

Fixpoint check_slots (l : list (Slot B)) (prev_end : Z) : outcome unit :=
  match l with
  | [] => Ret tt
  | slot :: l =>
      let! _ := rassert (prev_end <=? slot_start slot) in
      let! _ := rassert (negb (slot_should_drop slot)) in
      let! _ := rassert (negb (unmerged slot (head l))) in
      check_slots l (slot_end_allocated slot)
  end.

Definition invariants (self : Reassembler) : outcome unit :=
  let! total := add_c 64 (consumed_len self) (ra_len self) in
  let! _ := rassert (total_received_len self =? total) in
  let '(actual_len, chunks) := report self in
  let! _ := rassert (Bool.eqb (actual_len =? 0) (ra_is_empty self)) in
  let! _ := rassert (vlen (ra_iter self) =? chunks) in
  check_slots (slots self) (start_offset (cursors self)).

(** [check_reader_fin]: the new cursors. *)
Definition check_reader_fin (self : Cursors) (reader : Request) : outcome (result Cursors BufferError) :=
  match VarInt.checked_add_usize (RequestOps.current_offset reader) (RequestOps.buffered_len reader) with
  | None => Ret (Err OutOfRange)
  | Some buffered_offset =>
      let! reader_final := RequestOps.final_offset reader in
      let+ final :=
        Ret (match reader_final, CursorsOps.final_size self with
             | Some actual, Some expected =>
                 if actual =? expected then Ok (final_offset self) else Err InvalidFin
             | Some final_offset, None =>
                 if max_recv_offset self <=? final_offset then Ok final_offset else Err InvalidFin
             | None, Some expected =>
                 if buffered_offset <=? expected then Ok (final_offset self) else Err InvalidFin
             | None, None => Ok (final_offset self)
             end) in
      Ret (Ok (mk_cursors (start_offset self) (Z.max (max_recv_offset self) buffered_offset) final))
  end.

(** [insert]. *)
Definition insert_slot (l : list (Slot B)) (idx : Z) (slot : Slot B) : outcome (list (Slot B)) :=
  if vlen l <? idx then
    let! _ := rassert (vlen l + 1 =? idx) in
    Ret (l ++ [slot])
  else vinsert l idx slot.

Section Alloc.
Variable alloc : Z -> Z -> B.

Definition allocate_slot (cur : Cursors) (reader : Request) : outcome (Slot B) :=
  let start := RequestOps.current_offset reader in
  let size := allocation_size start in
  let offset := align_offset start size in
  let! '(offset, size) :=
    match checked_sub (start_offset cur) offset with
    | Some diff =>
        if 0 <? diff then
          let! _ := rassert (start_offset cur <=? RequestOps.current_offset reader) in
          let! size := sub_c size diff in
          Ret (start_offset cur, size)
        else Ret (offset, size)
    | None => Ret (offset, size)
    end in
  let! left_ := sub_c (final_offset cur) (RequestOps.current_offset reader) in
  let! left_ := sub_c left_ (RequestOps.buffered_len reader) in
  let! size :=
    if left_ =? 0 then
      let! before := sub_c start offset in
      let! size_candidate := add_c 64 before (RequestOps.buffered_len reader) in
      Ret (if size_candidate <? size then size_candidate else size)
    else Ret size in
  let buffer := alloc offset size in
  let! end_ := add_c 64 offset size in
  slot_new offset end_ buffer.

(** The selection of the slot to write to: the last one that starts at or
    before the reader. *)
Fixpoint select_slot (l : list (Slot B)) (n : nat) (offset : Z) : option Z :=
  match n with
  | O => None
  | S n =>
      match l !! n with
      | Some slot => if slot_start slot <=? offset then Some (Z.of_nat n) else select_slot l n offset
      | None => None
      end
  end.

(** [write_reader_with_alloc]: allocate slots until the reader is empty or
    reaches the next slot.  Every slot takes a byte of the reader.  Indices into
    the queue count objects in memory and do not overflow. *)
Fixpoint write_reader_with_alloc (fuel : nat) (cur : Cursors) (l : list (Slot B)) (reader : Request)
    (idx : Z) (filled_slot : bool) : outcome (list (Slot B) * Request * Z * bool) :=
  if RequestOps.buffer_is_empty reader then Ret (l, reader, idx, filled_slot) else
  if (match vget l idx with
      | Some next => negb (RequestOps.current_offset reader <? slot_start next)
      | None => false
      end) then Ret (l, reader, idx, filled_slot) else
  match fuel with
  | O => Panic
  | S fuel =>
      let! slot := allocate_slot cur reader in
      let! '(slot, filled, reader, filled_slot) := slot_try_write_reader slot reader filled_slot in
      let! l := insert_slot l idx slot in
      let idx := idx + 1 in
      match filled with
      | Some slot =>
          let! l := insert_slot l idx slot in
          let idx := idx + 1 in
          write_reader_with_alloc fuel cur l reader idx filled_slot
      | None => write_reader_with_alloc fuel cur l reader idx filled_slot
      end
  end.

(** The loop of [write_reader_at]: fill existing slots, with new ones between
    them.  Every iteration moves to a later slot. *)
Fixpoint write_slots (fuel : nat) (cur : Cursors) (l : list (Slot B)) (reader : Request)
    (idx : Z) (filled_slot : bool) : outcome (list (Slot B) * Request * Z * bool) :=
  if RequestOps.buffer_is_empty reader then Ret (l, reader, idx, filled_slot) else
  match fuel with
  | O => Panic
  | S fuel =>
      let! slot := vindex l idx in
      let! '(slot, filled, reader, filled_slot) := slot_try_write_reader slot reader filled_slot in
      let! l := vset l idx slot in
      let idx := idx + 1 in
      let! '(l, idx) :=
        match filled with
        | Some slot =>
            let! l := insert_slot l idx slot in
            let idx := idx + 1 in
            Ret (l, idx)
        | None => Ret (l, idx)
        end in
      if RequestOps.buffer_is_empty reader then Ret (l, reader, idx, filled_slot) else
      let! '(l, reader, idx, filled_slot) :=
        write_reader_with_alloc (S (length (req_data reader))) cur l reader idx filled_slot in
      write_slots fuel cur l reader idx filled_slot
  end.

(** [unsplit_range(from..to)], [n] indices below [from + n]. *)
Fixpoint unsplit_range (n : nat) (from : Z) (l : list (Slot B)) : outcome (list (Slot B)) :=
  match n with
  | O => Ret l
  | S n =>
      let idx := from + Z.of_nat n in
      let! slot := vindex l idx in
      let! l :=
        match vget l (idx + 1) with
        | Some next =>
            if unmerged slot (Some next) then
              let l := vremove l (idx + 1) in
              let! slot := vindex l idx in
              let! slot := slot_unsplit slot next in
              vset l idx slot
            else Ret l
        | None => Ret l
        end in
      unsplit_range n from l
  end.

Definition write_reader_at (cur : Cursors) (l : list (Slot B)) (reader : Request) (idx : Z)
    : outcome (list (Slot B) * Request) :=
  let initial_idx := idx in
  let! _ := rassert (negb (RequestOps.buffer_is_empty reader)) in
  let! '(l, reader, idx, filled_slot) := write_slots (S (length l)) cur l reader idx false in
  let! l := if filled_slot then unsplit_range (Z.to_nat (idx - initial_idx)) initial_idx l else Ret l in
  Ret (l, reader).

Definition write_reader_impl (cur : Cursors) (l : list (Slot B)) (reader : Request)
    : outcome (list (Slot B) * Request) :=
  if RequestOps.buffer_is_empty reader then
    let '(_, reader) := RequestOps.read_chunk reader 0 in
    Ret (l, reader)
  else
    match select_slot l (length l) (RequestOps.current_offset reader) with
    | Some idx => write_reader_at cur l reader idx
    | None =>
        let! slot := allocate_slot cur reader in
        let! '(slot, filled, reader, _) := slot_try_write_reader slot reader true in
        let '(l, idx) := match filled with Some f => (f :: l, 1) | None => (l, 0) end in
        let l := slot :: l in
        if RequestOps.buffer_is_empty reader then Ret (l, reader)
        else write_reader_at cur l reader idx
    end.

Definition write_reader (self : Reassembler) (reader : Request)
    : outcome (result unit BufferError * Reassembler) :=
  let reader := RequestOps.skip_until reader (start_offset (cursors self)) in
  let! res := check_reader_fin (cursors self) reader in
  match res with
  | Err err => Ret (Err err, self)
  | Ok cur =>
      let! '(l, reader) := write_reader_impl cur (slots self) reader in
      let self := mk_ra l cur in
      let! _ := invariants self in
      Ret (Ok tt, self)
  end.

Definition write_at (self : Reassembler) (offset : Z) (data : list Z)
    : outcome (result unit BufferError * Reassembler) :=
  match RequestOps.new offset data false with
  | Err err => Ret (Err err, self)
  | Ok request => write_reader self request
  end.

Definition write_at_fin (self : Reassembler) (offset : Z) (data : list Z)
    : outcome (result unit BufferError * Reassembler) :=
  match RequestOps.new offset data true with
  | Err err => Ret (Err err, self)
  | Ok request => write_reader self request
  end.
End Alloc.

(** [skip]: drop the slots below the new start. *)
Fixpoint skip_slots (l : list (Slot B)) (new_start_offset : Z) : outcome (list (Slot B)) :=
  match l with
  | [] => Ret []
  | slot :: l =>
      if slot_end_allocated slot <? new_start_offset then skip_slots l new_start_offset else
      let! slot := slot_skip_until slot new_start_offset in
      Ret (if negb (slot_should_drop slot) then slot :: l else l)
  end.

Definition ra_skip (self : Reassembler) (len : Z) : outcome (result unit BufferError * Reassembler) :=
  if negb (0 <? len) then Ret (Ok tt, self) else
  match (match checked_add 64 (start_offset (cursors self)) len with
         | Some v => VarInt.ok (VarInt.new v)
         | None => None
         end) with
  | None => Ret (Err OutOfRange, self)
  | Some new_start_offset =>
      if (match final_size self with
          | Some final_size => negb (new_start_offset <=? final_size)
          | None => false
          end) then Ret (Err InvalidFin, self) else
      let cur := mk_cursors new_start_offset
                   (Z.max (max_recv_offset (cursors self)) new_start_offset)
                   (final_offset (cursors self)) in
      let! l := skip_slots (slots self) new_start_offset in
      let self := mk_ra l cur in
      let! _ := invariants self in
      Ret (Ok tt, self)
  end.

(** [read_chunk]: the chunk from the front of the queue, at most [watermark]
    bytes. *)
Definition read_chunk (self : Reassembler) (watermark : Z) : outcome (B * Reassembler) :=
  match slots self with
  | [] => Ret (b_new, self)
  | slot :: l =>
      if negb (slot_is_occupied slot (start_offset (cursors self))) then Ret (b_new, self) else
      let! '(slot, chunk) :=
        if (match final_size self with
            | Some final_size =>
                (final_size <=? slot_end_allocated slot) && (b_len (slot_data slot) <=? watermark)
            | None => false
            end)
        then let '(chunk, slot) := slot_consume slot in Ret (slot, chunk)
        else slot_read_chunk slot watermark in
      let l := if slot_should_drop slot then l else slot :: l in
      let! start := add_c 64 (start_offset (cursors self)) (b_len chunk) in
      let self := mk_ra l (mk_cursors start (max_recv_offset (cursors self))
                                      (final_offset (cursors self))) in
      let! _ := invariants self in
      Ret (chunk, self)
  end.

Definition pop_watermarked (self : Reassembler) (watermark : Z) : outcome (option B * Reassembler) :=
  let! '(chunk, self) := read_chunk self watermark in
  Ret (if b_len chunk =? 0 then None else Some chunk, self).

Definition pop (self : Reassembler) : outcome (option B * Reassembler) :=
  pop_watermarked self (umax 64).

(** [copy_into] a plain slice with room for [capacity] bytes: the bytes
    written.  Every iteration writes a byte or ends. *)
Fixpoint copy_into (fuel : nat) (self : Reassembler) (capacity : Z) : outcome (list Z * Reassembler) :=
  if negb (0 <? capacity) then Ret ([], self) else
  match slots self with
  | [] => Ret ([], self)
  | slot :: l =>
      if negb (slot_is_occupied slot (start_offset (cursors self))) then Ret ([], self) else
      match fuel with
      | O => Panic
      | S fuel =>
          let! '(slot, written) := slot_copy_into slot capacity in
          let l := if slot_should_drop slot then l else slot :: l in
          let! start := add_c 64 (start_offset (cursors self)) (blen written) in
          let self := mk_ra l (mk_cursors start (max_recv_offset (cursors self))
                                          (final_offset (cursors self))) in
          let! _ := invariants self in
          let! '(more, self) := copy_into fuel self (capacity - blen written) in
          Ret (written ++ more, self)
      end
  end.

(** [partial_copy_into] a slice with room for [capacity] bytes: the bytes
    written and the chunk that is returned instead of being copied.  Every
    iteration reads a byte or ends. *)
Fixpoint partial_copy_loop (fuel : nat) (self : Reassembler) (prev : B) (capacity : Z)
    : outcome (list Z * B * Reassembler) :=
  match fuel with
  | O => Panic
  | S fuel =>
      let! _ := rassert (b_len prev <=? capacity) in
      let watermark := capacity - b_len prev in
      let! _ := rassert (0 <? capacity) in
      let! '(chunk, self) := read_chunk self watermark in
      if b_len chunk =? 0 then Ret ([], prev, self) else
      let flushed := b_as_slice prev in
      let capacity := capacity - b_len prev in
      if b_len chunk =? watermark then Ret (flushed, chunk, self) else
      let! '(more, chunk, self) := partial_copy_loop fuel self chunk capacity in
      Ret (flushed ++ more, chunk, self)
  end.
Definition partial_copy_into (self : Reassembler) (capacity : Z) : outcome (list Z * B * Reassembler) :=
  if negb (0 <? capacity) then Ret ([], b_new, self)
  else partial_copy_loop (S (Z.to_nat capacity)) self b_new capacity.

(** [Skip::skip] of [reassembler/duplex.rs]. *)
Definition skip_final (alloc : Z -> Z -> B) (self : Reassembler) (len : Z) (final_offset : option Z)
    : outcome (result unit BufferError * Reassembler) :=
  let! '(res, self) :=
    match final_offset with
    | Some offset => write_at_fin alloc self offset []
    | None => Ret (Ok tt, self)
    end in
  match res with
  | Err err => Ret (Err err, self)
  | Ok _ => ra_skip self len
  end.

Definition ra_reset (self : Reassembler) : Reassembler := mk_ra [] CursorsOps.default.

End Reassembler.
Arguments Reassembler : clear implicits.
