(* ===== verification/ReassemblerSpec.v ===== *)
(** * Specification of the reassembler

    The invariant of the slot queue, the bytes it stands for, and the lemmas
    about single slots.  Slots lie in blocks of the allocation grid; the slots
    of one block come from one allocation, so they are adjacent in memory. *)
From S2P Require Import Prelude Codec VarInt ReassemblerSlot Reassembler.

(** ** Blocks *)

Definition block (o : Z) : Z := align_offset o (allocation_size o).
Definition block_end (o : Z) : Z := block o + allocation_size o.

Lemma allocation_size_eq o :
  allocation_size o
  = if 1048576 <=? o then 65536 else if 262144 <=? o then 32768
    else if 65536 <=? o then 16384 else 4096.
Proof. done. Qed.

(** The block of an offset, as a quotient. *)
Lemma block_quotient o :
  0 <= o -> exists q r, let k := allocation_size o in
    0 < k <= 65536 /\ o = k * q + r /\ 0 <= r < k /\ 0 <= q /\ block o = k * q.
Proof.
  intros Ho. set (k := allocation_size o).
  assert (0 < k <= 65536) by (unfold k; rewrite allocation_size_eq; zcases; lia).
  exists (o / k), (o mod k). pose proof (Z.div_mod o k ltac:(lia)).
  pose proof (Z.mod_pos_bound o k ltac:(lia)). assert (0 <= o / k) by (apply Z.div_pos; lia).
  unfold block, align_offset. fold k. simpl. lia.
Qed.

Lemma block_bounds o : 0 <= o -> 0 <= block o <= o /\ o < block_end o <= block o + 65536.
Proof. intros Ho. destruct (block_quotient o Ho) as (q & r & Hk & H). unfold block_end. nia. Qed.

(** Offsets of one block have that block. *)
Lemma block_same o x :
  0 <= o -> block o <= x < block_end o -> block x = block o /\ block_end x = block_end o.
Proof.
  intros Ho Hx. destruct (block_quotient o Ho) as (q & r & Hk & H1 & H2 & H3 & H4).
  unfold block_end in *. rewrite H4 in *.
  assert (Hs : allocation_size x = allocation_size o).
  { clear H4. revert Hk H1 H2 Hx. rewrite !allocation_size_eq.
    destruct (Z.leb_spec 1048576 o), (Z.leb_spec 262144 o), (Z.leb_spec 65536 o);
      try lia; intros; zcases. }
  assert (block x = allocation_size o * q) as ->; [| rewrite Hs; lia].
  unfold block, align_offset. rewrite Hs, Z.mul_comm. f_equal. symmetry.
  apply (Z.div_unique _ _ q (x - allocation_size o * q)); lia.
Qed.

(** Blocks do not overlap. *)
Lemma block_before x o : 0 <= x -> x < block o -> 0 <= o -> block_end x <= block o.
Proof.
  intros Hx Hlt Ho. pose proof (block_bounds x Hx). pose proof (block_bounds o Ho).
  destruct (Z.le_gt_cases (block_end x) (block o)); [done |].
  pose proof (block_same x (block o) Hx ltac:(lia)). pose proof (block_same o (block o) Ho ltac:(lia)). lia.
Qed.

Lemma block_after x o : 0 <= x -> block_end x <= o -> block_end x <= block o.
Proof.
  intros Hx Hlt. pose proof (block_bounds x Hx). pose proof (block_bounds o ltac:(lia)).
  destruct (Z.le_gt_cases (block_end x) (block o)); [done |].
  destruct (Z.le_gt_cases (block x) (block o)).
  - pose proof (block_same x (block o) Hx ltac:(lia)).
    pose proof (block_same o (block o) ltac:(lia) ltac:(lia)). lia.
  - pose proof (block_same o x ltac:(lia) ltac:(lia)). lia.
Qed.

(** ** Requests *)

(** The byte a request has at an offset of the stream. *)
Definition req_get (r : Request) (x : Z) : option Z :=
  if req_offset r <=? x then req_data r !! Z.to_nat (x - req_offset r) else None.

Definition req_end (r : Request) : Z := req_offset r + blen (req_data r).

(** The request from an offset on. *)
Definition req_from (r : Request) (o : Z) : Request :=
  mk_req o (drop (Z.to_nat (o - req_offset r)) (req_data r)) (req_is_fin r).

Lemma req_get_Some r x b : req_get r x = Some b -> req_offset r <= x < req_end r.
Proof.
  unfold req_get, req_end, blen. destruct (Z.leb_spec (req_offset r) x); [| done].
  intros Hl%lookup_lt_Some. lia.
Qed.

Lemma req_get_None r x : req_get r x = None <-> ~ (req_offset r <= x < req_end r).
Proof.
  unfold req_get, req_end, blen. destruct (Z.leb_spec (req_offset r) x).
  - rewrite lookup_ge_None. lia.
  - split; [lia | done].
Qed.

Lemma req_end_from r o : req_offset r <= o <= req_end r -> req_end (req_from r o) = req_end r.
Proof. unfold req_end, req_from, blen. simpl. rewrite length_drop. lia. Qed.

Lemma req_get_from r o x :
  req_offset r <= o -> req_get (req_from r o) x = if x <? o then None else req_get r x.
Proof.
  intros Ho. unfold req_get, req_from. simpl.
  destruct (Z.ltb_spec x o), (Z.leb_spec o x); try lia; [done |].
  destruct (Z.leb_spec (req_offset r) x); [| lia]. rewrite lookup_drop. f_equal. lia.
Qed.

Lemma req_from_from r o o' : req_offset r <= o <= o' -> req_from (req_from r o) o' = req_from r o'.
Proof. intros. unfold req_from. simpl. f_equal. rewrite drop_drop. f_equal. lia. Qed.

Lemma req_from_self r : req_from r (req_offset r) = r.
Proof. unfold req_from. rewrite Z.sub_diag. destruct r. done. Qed.

Lemma read_chunk_spec r n :
  0 <= n -> let o := Z.min (req_end r) (req_offset r + n) in
  RequestOps.read_chunk r n
  = (take (Z.to_nat (o - req_offset r)) (req_data r), req_from r o).
Proof.
  intros Hn. unfold RequestOps.read_chunk, req_from, req_end. pose proof (blen_nonneg (req_data r)).
  replace (Z.min (req_offset r + blen (req_data r)) (req_offset r + n) - req_offset r)
    with (Z.min (blen (req_data r)) n) by lia.
  do 2 f_equal. lia.
Qed.

Lemma buffer_is_empty_spec r : RequestOps.buffer_is_empty r = (req_end r <=? req_offset r).
Proof.
  unfold RequestOps.buffer_is_empty, RequestOps.buffered_len, req_end.
  pose proof (blen_nonneg (req_data r)). by zcases.
Qed.

(** Skipping stops at the end of the request. *)
Lemma skip_until_spec r o :
  0 <= req_offset r -> req_end r < 2 ^ 64 -> o < 2 ^ 64 ->
  RequestOps.skip_until r o = req_from r (Z.max (req_offset r) (Z.min o (req_end r))).
Proof.
  intros Hr He Ho. unfold RequestOps.skip_until, RequestOps.current_offset.
  assert (req_offset r <= req_end r) by (unfold req_end; pose proof (blen_nonneg (req_data r)); lia).
  destruct (Z.ltb_spec (req_offset r) o) as [Hlt |]; cbn [negb]; cbv iota.
  2: { rewrite Z.max_l by lia. by rewrite req_from_self. }
  cbn [RequestOps.skip_loop]. unfold VarInt.checked_sub, checked_sub, RequestOps.current_offset.
  destruct (Z.leb_spec (req_offset r) o); [| lia]. destruct (Z.ltb_spec 0 (o - req_offset r)); [| lia].
  simpl negb. cbv iota. unfold umax. rewrite (Z.min_r (2 ^ 64 - 1)) by lia.
  rewrite read_chunk_spec by lia. cbv zeta beta iota. rewrite buffer_is_empty_spec.
  set (o' := Z.min (req_end r) (req_offset r + (o - req_offset r))).
  replace (Z.max (req_offset r) (Z.min o (req_end r))) with o' by lia.
  rewrite req_end_from by lia. simpl req_offset. destruct (Z.leb_spec (req_end r) o'); [done |].
  destruct (length (req_data r)); [done |]. cbn [RequestOps.skip_loop].
  unfold VarInt.checked_sub, checked_sub, RequestOps.current_offset. simpl req_offset.
  destruct (Z.leb_spec o' o); [| done]. destruct (Z.ltb_spec 0 (o - o')); [lia | done].
Qed.

(** ** Memory *)

Lemma blen_mem_write mem off bs :
  0 <= off -> off + blen bs <= blen mem -> blen (mem_write mem off bs) = blen mem.
Proof.
  intros. unfold mem_write. rewrite !blen_app. unfold blen in *. rewrite length_take, length_drop. lia.
Qed.

Lemma blen_mem_take n mem : 0 <= n <= blen mem -> blen (mem_take n mem) = n.
Proof. intros. unfold mem_take, blen in *. rewrite length_take. lia. Qed.

Lemma blen_mem_drop n mem : 0 <= n <= blen mem -> blen (mem_drop n mem) = blen mem - n.
Proof. intros. unfold mem_drop, blen in *. rewrite length_drop. lia. Qed.

Lemma mem_take_write mem n bs :
  0 <= n -> n + blen bs <= blen mem -> mem_take n (mem_write mem n bs) = mem_take n mem.
Proof.
  intros. unfold mem_take, mem_write, blen in *.
  rewrite take_app_le by (rewrite length_take; lia). rewrite take_take. f_equal. lia.
Qed.

Lemma mem_take_write_all mem n bs :
  0 <= n -> n + blen bs <= blen mem ->
  mem_take (n + blen bs) (mem_write mem n bs) = mem_take n mem ++ bs.
Proof.
  intros. unfold mem_take, mem_write, blen in *. rewrite app_assoc.
  rewrite take_app_le by (rewrite length_app, length_take; lia).
  rewrite take_ge; [done |]. rewrite length_app, length_take. lia.
Qed.

Lemma mem_drop_write mem n bs :
  0 <= n -> n + blen bs <= blen mem ->
  mem_take (blen bs) (mem_drop n (mem_write mem n bs)) = bs.
Proof.
  intros. unfold mem_take, mem_drop, mem_write, blen in *.
  rewrite drop_app_ge by (rewrite length_take; lia). rewrite length_take.
  replace (Z.to_nat n - _)%nat with 0%nat by lia. simpl. rewrite drop_0.
  rewrite Nat2Z.id, take_app_le by lia. apply take_ge. lia.
Qed.

Section Spec.
Context {B : Type} {HB : BytesMut B} {HS : BytesMutSpec B}.
Implicit Types s t : Slot B.

(** ** Slots *)

Definition sl_mem s : list Z := raw_mem (b_view (slot_data s)).
Definition sl_len s : Z := raw_len (b_view (slot_data s)).
Definition sl_bytes s : list Z := raw_bytes (b_view (slot_data s)).
(** The slot's allocation, and the address the stream would start at in it. *)
Definition sl_base s : Z * Z := (raw_arena (b_view (slot_data s)), raw_addr (b_view (slot_data s)) - slot_start s).

(** A slot is within a block and its buffer is as large as its range. *)
Definition slot_wf s : Prop :=
  0 <= slot_start s /\ slot_start s < slot_end_allocated s <= block_end (slot_start s)
  /\ blen (sl_mem s) = slot_end_allocated s - slot_start s.

Lemma sl_len_ok s : 0 <= sl_len s <= blen (sl_mem s).
Proof. apply (b_view_ok (slot_data s)). Qed.

Lemma slot_end_eq s : slot_end s = slot_start s + sl_len s.
Proof. unfold slot_end. by rewrite b_len_spec. Qed.

Lemma blen_sl_bytes s : blen (sl_bytes s) = sl_len s.
Proof. apply blen_mem_take, sl_len_ok. Qed.

(** The byte a slot, and a queue of slots, has at an offset of the stream. *)
Definition slot_get s (x : Z) : option Z :=
  if slot_start s <=? x then sl_bytes s !! Z.to_nat (x - slot_start s) else None.

Fixpoint rx (l : list (Slot B)) (x : Z) : option Z :=
  match l with
  | [] => None
  | s :: l => match slot_get s x with Some b => Some b | None => rx l x end
  end.

Lemma slot_get_None s x : slot_get s x = None <-> ~ (slot_start s <= x < slot_end s).
Proof.
  unfold slot_get. rewrite slot_end_eq. pose proof (blen_sl_bytes s) as Hl. unfold blen in Hl.
  destruct (Z.leb_spec (slot_start s) x); [rewrite lookup_ge_None; lia | split; [lia | done]].
Qed.

Lemma slot_get_Some s x b : slot_get s x = Some b -> slot_start s <= x < slot_end s.
Proof.
  intros H. destruct (decide (slot_start s <= x < slot_end s)); [done |].
  apply slot_get_None in n. congruence.
Qed.

Lemma rx_app l k x : rx (l ++ k) x = match rx l x with Some b => Some b | None => rx k x end.
Proof. induction l as [| s l IH]; simpl; [done |]. by destruct (slot_get s x). Qed.

Lemma slot_invariants_ok s :
  0 <= slot_end_allocated s - slot_start s <= 65536 ->
  blen (sl_mem s) = slot_end_allocated s - slot_start s ->
  slot_invariants s = Ret tt.
Proof.
  intros H1 H2. pose proof (sl_len_ok s). unfold slot_invariants. rewrite slot_end_eq, b_capacity_spec, b_len_spec.
  change (raw_mem _) with (sl_mem s). change (raw_len _) with (sl_len s).
  unfold rassert. change (2 ^ 16) with 65536.
  repeat (zcase; try lia; cbn [obind]). done.
Qed.

Lemma slot_wf_invariants s : slot_wf s -> slot_invariants s = Ret tt.
Proof.
  intros (H1 & H2 & H3). apply slot_invariants_ok; [| done].
  pose proof (block_bounds (slot_start s) H1). lia.
Qed.

Lemma slot_is_full_spec s : slot_is_full s = (slot_start s + sl_len s =? slot_end_allocated s).
Proof. unfold slot_is_full. by rewrite slot_end_eq. Qed.

(** The bytes [w] appended to a slot. *)
Lemma slot_append s w :
  slot_wf s -> sl_len s + blen w <= blen (sl_mem s) ->
  exists data, b_advance_mut (b_write_spare (slot_data s) 0 w) (blen w) = Ret data
    /\ let s' := mk_slot (slot_start s) (slot_end_allocated s) data in
       slot_wf s' /\ sl_base s' = sl_base s /\ sl_bytes s' = sl_bytes s ++ w /\ sl_len s' = sl_len s + blen w.
Proof.
  intros (H1 & H2 & H3) Hw. pose proof (sl_len_ok s). pose proof (blen_nonneg w).
  unfold sl_mem, sl_len in *.
  pose proof (b_write_spare_spec (slot_data s) 0 w) as Hv. specialize (Hv ltac:(lia) ltac:(lia)).
  rewrite Z.add_0_r in Hv.
  destruct (b_advance_mut_spec (b_write_spare (slot_data s) 0 w) (blen w)) as (d & E & Hd);
    [lia | rewrite Hv; simpl; rewrite blen_mem_write; lia |].
  rewrite Hv in Hd. simpl in Hd. exists d. split; [done |]. simpl.
  unfold slot_wf, sl_mem, sl_base, sl_bytes, sl_len, raw_bytes. simpl. rewrite Hd. simpl.
  split_and!; [lia .. | rewrite blen_mem_write; lia | done | | done].
  apply mem_take_write_all; lia.
Qed.

(** The bytes [w] written behind a gap of a slot, which is split there. *)
Lemma slot_split s w gap :
  slot_wf s -> 0 < gap -> 0 < blen w -> sl_len s + gap + blen w <= blen (sl_mem s) ->
  let at_ := slot_start s + sl_len s + gap in
  let data := b_write_spare (slot_data s) gap w in
  b_len data = sl_len s /\ b_capacity data = blen (sl_mem s) /\
  exists d1 d2 d3, b_split_off data (sl_len s + gap) = Ret (d1, d2)
    /\ b_len d2 = 0 /\ b_capacity d2 = slot_end_allocated s - at_ /\ b_advance_mut d2 (blen w) = Ret d3
    /\ let s1 := mk_slot (slot_start s) at_ d1 in
       let s2 := mk_slot at_ (slot_end_allocated s) d3 in
       slot_wf s1 /\ sl_base s1 = sl_base s /\ sl_bytes s1 = sl_bytes s /\ sl_len s1 = sl_len s
       /\ slot_wf s2 /\ sl_base s2 = sl_base s /\ sl_bytes s2 = w /\ sl_len s2 = blen w
       /\ block at_ = block (slot_start s).
Proof.
  intros (H1 & H2 & H3) Hg Hw0 Hw. cbv zeta. pose proof (sl_len_ok s).
  unfold sl_mem, sl_len in *. set (m := raw_mem (b_view (slot_data s))) in *.
  set (n := raw_len (b_view (slot_data s))) in *.
  pose proof (b_write_spare_spec (slot_data s) gap w) as Hv. fold m n in Hv.
  specialize (Hv ltac:(lia) ltac:(lia)).
  rewrite b_len_spec, b_capacity_spec, Hv. simpl. split; [done |].
  rewrite blen_mem_write by lia. split; [done |].
  destruct (b_split_off_spec (b_write_spare (slot_data s) gap w) (n + gap)) as (d1 & d2 & E & V1 & V2).
  { rewrite Hv. simpl. rewrite blen_mem_write; lia. }
  rewrite Hv in V1, V2. simpl in V1, V2. rewrite Z.min_r in V1 by lia. rewrite Z.max_l in V2 by lia.
  assert (Hc2 : blen (mem_drop (n + gap) (mem_write m (n + gap) w)) = blen m - (n + gap))
    by (rewrite blen_mem_drop; rewrite blen_mem_write; lia).
  destruct (b_advance_mut_spec d2 (blen w)) as (d3 & E3 & V3); [lia | rewrite V2; simpl; lia |].
  rewrite V2 in V3. simpl in V3. pose proof (block_bounds (slot_start s) H1).
  destruct (block_same (slot_start s) (slot_start s + n + gap)) as [Hb1 Hb2]; [lia | lia |].
  exists d1, d2, d3. rewrite b_len_spec, b_capacity_spec, V2. simpl. split; [done |]. split; [done |].
  split; [lia |]. split; [done |].
  unfold slot_wf, sl_mem, sl_base, sl_bytes, sl_len, raw_bytes. simpl. rewrite V1, V3. simpl. fold m n.
  split_and!; try lia; try (f_equal; lia).
  - rewrite blen_mem_take; [lia |]. rewrite blen_mem_write; lia.
  - rewrite mem_take_write by lia. unfold mem_take. rewrite take_take. f_equal. lia.
  - apply mem_drop_write; lia.
Qed.
(** What writing a request to a slot does: the slot keeps its place, a part
    split off follows it in the same allocation, and the range of the slot has
    the bytes of the request where it had none. *)
Definition wrote s (r : Request) s' (f : option (Slot B)) (r' : Request) : Prop :=
  r' = req_from r (Z.max (req_offset r) (Z.min (req_end r) (slot_end_allocated s)))
  /\ slot_wf s' /\ slot_start s' = slot_start s /\ sl_base s' = sl_base s /\ sl_len s <= sl_len s'
  /\ slot_end s' <= Z.max (slot_end s) (req_end r)
  /\ match f with
     | None => slot_end_allocated s' = slot_end_allocated s
     | Some f =>
         slot_wf f /\ slot_end_allocated s' = slot_start f
         /\ slot_end_allocated f = slot_end_allocated s /\ sl_base f = sl_base s
         /\ block (slot_start f) = block (slot_start s) /\ 0 < sl_len f
         /\ slot_is_full s' = false /\ slot_end f <= req_end r
     end
  /\ forall x, rx (s' :: option_list f) x
       = match slot_get s x with
         | Some b => Some b
         | None => if x <? slot_end_allocated s then req_get r x else None
         end.

(** The flag: unless it is raised, no slot became full. *)
Definition flagged s s' (f : option (Slot B)) (fl fl' : bool) : Prop :=
  (fl = true -> fl' = true)
  /\ (fl' = false -> match f with
                     | None => slot_is_full s' = slot_is_full s
                     | Some f => slot_is_full f = false
                     end).

Lemma flagged_refl s fl : flagged s s None fl fl.
Proof. by split. Qed.

(** A slot that the request does not reach. *)
Lemma wrote_nothing s r :
  slot_wf s ->
  (slot_end s = slot_end_allocated s \/ req_end r <= slot_end s \/ slot_end_allocated s <= req_offset r) ->
  slot_start s <= req_offset r ->
  wrote s r s None (req_from r (Z.max (req_offset r) (Z.min (req_end r) (slot_end_allocated s)))).
Proof.
  intros Hwf Hcase Hs. unfold wrote. split_and!; try done; try lia.
  intros x. simpl. destruct (slot_get s x) as [b |] eqn:Hg; [done |].
  apply slot_get_None in Hg. destruct (Z.ltb_spec x (slot_end_allocated s)); [| done].
  symmetry. apply req_get_None. lia.
Qed.

(** The bytes a request writes from offset [a], as the slot at [a] has them. *)
Lemma written_get r a n x :
  req_offset r <= a -> 0 <= n ->
  (if a <=? x then take (Z.to_nat n) (req_data (req_from r a)) !! Z.to_nat (x - a) else None)
  = (if (a <=? x) && (x <? a + n) then req_get r x else None).
Proof.
  intros Ha Hn. destruct (Z.leb_spec a x); [| done]. simpl andb. unfold req_get, req_from. simpl.
  destruct (Z.leb_spec (req_offset r) x); [| lia]. destruct (Z.ltb_spec x (a + n)).
  - rewrite lookup_take_lt by lia. rewrite lookup_drop. f_equal. lia.
  - apply lookup_take_ge. lia.
Qed.
(** A slot with more of the request's bytes at its end. *)
Lemma appended_get s s' r e x :
  slot_start s' = slot_start s -> slot_start s <= req_offset r <= slot_end s ->
  slot_end s <= e -> e = Z.min (req_end r) (slot_end_allocated s) ->
  sl_bytes s' = sl_bytes s ++ take (Z.to_nat (e - slot_end s)) (req_data (req_from r (slot_end s))) ->
  slot_get s' x = match slot_get s x with
                  | Some b => Some b
                  | None => if x <? slot_end_allocated s then req_get r x else None
                  end.
Proof.
  intros Hs Hr He Hmin Hb. pose proof (written_get r (slot_end s) (e - slot_end s) x) as Hx.
  specialize (Hx ltac:(lia) ltac:(lia)).
  pose proof (blen_sl_bytes s) as Hbl. pose proof (slot_end_eq s) as Hse. unfold blen in Hbl.
  unfold slot_get. rewrite Hs, Hb. destruct (Z.leb_spec (slot_start s) x).
  - destruct (Z.le_gt_cases (slot_end s) x) as [Hge | Hgt].
    + rewrite lookup_app_r, (lookup_ge_None_2 (sl_bytes s)) by lia.
      destruct (Z.leb_spec (slot_end s) x); [| lia]. simpl andb in Hx.
      replace (Z.to_nat (x - slot_start s) - length (sl_bytes s))%nat with (Z.to_nat (x - slot_end s)) by lia.
      rewrite Hx. replace (slot_end s + (e - slot_end s)) with e by lia.
      destruct (Z.ltb_spec x e), (Z.ltb_spec x (slot_end_allocated s)); try lia; try done.
      symmetry. apply req_get_None. lia.
    + rewrite lookup_app_l by lia.
      by destruct (lookup_lt_is_Some_2 (sl_bytes s) (Z.to_nat (x - slot_start s)) ltac:(lia)) as [b ->].
  - assert (req_get r x = None) as -> by (apply req_get_None; lia). by destruct (x <? slot_end_allocated s).
Qed.

Lemma append_spec s r fl :
  slot_wf s -> slot_end s < slot_end_allocated s -> slot_start s <= req_offset r ->
  req_offset r <= slot_end s < req_end r ->
  exists s' r' fl', slot_write_reader_append s (req_from r (slot_end s)) fl = Ret (s', r', fl')
    /\ wrote s r s' None r' /\ flagged s s' None fl fl'.
Proof.
  intros Hwf Hlt Hs Hr. pose proof Hwf as (H1 & H2 & H3). pose proof (sl_len_ok s).
  pose proof (slot_end_eq s) as Hse. unfold slot_write_reader_append. rewrite b_len_spec, b_capacity_spec.
  change (raw_mem _) with (sl_mem s). change (raw_len _) with (sl_len s).
  unfold RequestOps.current_offset, RequestOps.copy_into, rassert. simpl req_offset. rewrite Z.eqb_refl.
  cbn [obind]. destruct (Z.ltb_spec (sl_len s) (blen (sl_mem s))); [| lia]. cbn [obind].
  rewrite read_chunk_spec by lia. rewrite req_end_from by lia. simpl req_offset.
  replace (slot_end s + (blen (sl_mem s) - sl_len s)) with (slot_end_allocated s) by lia.
  set (e := Z.min (req_end r) (slot_end_allocated s)).
  set (w := take _ _). assert (Hw : blen w = e - slot_end s).
  { unfold w, blen. rewrite length_take. unfold req_from, e, req_end, blen in *. simpl. rewrite length_drop. lia. }
  cbv zeta beta iota. destruct (Z.leb_spec (sl_len s + blen w) (blen (sl_mem s))); [| lia]. cbn [obind].
  destruct (slot_append s w Hwf ltac:(lia)) as (d & -> & Hwf' & Hbase & Hbytes & Hlen). cbn [obind].
  set (s' := mk_slot (slot_start s) (slot_end_allocated s) d) in *.
  rewrite req_from_from by lia. exists s'. eexists _, _. split; [reflexivity |]. split.
  - unfold wrote. rewrite (slot_end_eq s'). simpl slot_start. split_and!; try done; try lia.
    + f_equal. lia.
    + intros x. simpl. rewrite (appended_get s s' r e x) by (done || lia).
      destruct (slot_get s x); [done |]. by destruct (if x <? _ then _ else _).
  - split; [by intros -> |]. intros [-> Hne]%orb_false_iff. rewrite !slot_is_full_spec.
    apply Z.eqb_neq in Hne. simpl. zcases.
Qed.

Lemma write_split_spec s r fl :
  slot_wf s -> slot_start s <= req_offset r ->
  slot_end s < req_offset r < slot_end_allocated s -> req_offset r < req_end r ->
  exists s' f r' fl', slot_write_reader_split s r fl = Ret (s', f, r', fl')
    /\ wrote s r s' (Some f) r' /\ flagged s s' (Some f) fl fl'.
Proof.
  intros Hwf Hs Hr Hne. pose proof Hwf as (H1 & H2 & H3). pose proof (sl_len_ok s).
  pose proof (slot_end_eq s) as Hse. unfold slot_write_reader_split.
  rewrite (b_len_spec (slot_data s)), (b_capacity_spec (slot_data s)).
  change (raw_mem (b_view (slot_data s))) with (sl_mem s).
  change (raw_len (b_view (slot_data s))) with (sl_len s).
  unfold RequestOps.current_offset, RequestOps.copy_into, rassert.
  destruct (Z.ltb_spec (slot_end s) (req_offset r)); [| lia]. cbn [obind].
  rewrite sub_c_Ret by lia. cbn [obind]. set (gap := req_offset r - slot_end s).
  destruct (Z.ltb_spec gap (blen (sl_mem s) - sl_len s)); [| lia]. cbn [obind].
  rewrite read_chunk_spec by lia.
  replace (req_offset r + (blen (sl_mem s) - sl_len s - gap)) with (slot_end_allocated s) by lia.
  set (e := Z.min (req_end r) (slot_end_allocated s)).
  set (w := take _ _). assert (Hw : blen w = e - req_offset r).
  { unfold w, blen. rewrite length_take. unfold e, req_end, blen in *. lia. }
  cbv zeta beta iota.
  destruct (slot_split s w gap Hwf) as (-> & -> & d1 & d2 & d3 & -> & El & Ec & Ea & Hx); [lia .. |].
  destruct (Z.leb_spec (sl_len s + gap) (blen (sl_mem s))); [| lia]. cbn [obind].
  rewrite El, Ec, Z.eqb_refl. cbn [obind]. replace (slot_start s + sl_len s + gap) with (req_offset r) in * by lia.
  destruct (Z.leb_spec (blen w) (slot_end_allocated s - req_offset r - 0)); [| lia]. cbn [obind].
  rewrite Ea. cbn [obind]. destruct Hx as (Hwf1 & Hb1 & Hy1 & Hl1 & Hwf2 & Hb2 & Hy2 & Hl2 & Hbk).
  set (s1 := mk_slot (slot_start s) (req_offset r) d1) in *.
  set (s2 := mk_slot (req_offset r) (slot_end_allocated s) d3) in *.
  rewrite !slot_wf_invariants by done. cbn [obind].
  exists s1, s2. eexists _, _. split; [reflexivity |]. split.
  - unfold wrote. rewrite slot_is_full_spec, !slot_end_eq, Hl1, Hl2. simpl slot_start. simpl slot_end_allocated.
    split_and!; try done; try lia.
    + f_equal. lia.
    + intros x. simpl. unfold slot_get. simpl slot_start. rewrite Hy1, Hy2.
      pose proof (written_get r (req_offset r) (e - req_offset r) x ltac:(lia) ltac:(lia)) as Hx.
      rewrite req_from_self in Hx. fold w in Hx. rewrite Hx.
      destruct (if slot_start s <=? x then _ else _); [done |].
      replace (req_offset r + (e - req_offset r)) with e by lia.
      destruct (Z.ltb_spec x (slot_end_allocated s)), (Z.leb_spec (req_offset r) x), (Z.ltb_spec x e); simpl;
        try lia; try (by destruct (req_get r x)); symmetry; apply req_get_None; lia.
  - split; [by intros -> |]. intros [-> Hnf]%orb_false_iff. rewrite slot_is_full_spec, Hl2.
    apply Z.eqb_neq in Hnf. simpl. apply Z.eqb_neq. lia.
Qed.
(** Writing a request to a slot that starts at or before it. *)
Lemma try_write_spec s r fl :
  slot_wf s -> slot_start s <= req_offset r < req_end r -> req_end r <= MAX_VARINT_VALUE ->
  slot_end_allocated s < 2 ^ 63 ->
  exists s' f r' fl', slot_try_write_reader s r fl = Ret (s', f, r', fl')
    /\ wrote s r s' f r' /\ flagged s s' f fl fl'.
Proof.
  intros Hwf Hr Hmax Ha. pose proof Hwf as (H1 & H2 & H3). pose proof (sl_len_ok s).
  pose proof (slot_end_eq s) as Hse. unfold MAX_VARINT_VALUE in Hmax.
  unfold slot_try_write_reader, RequestOps.current_offset, rassert.
  destruct (Z.leb_spec (slot_start s) (req_offset r)); [| lia]. cbn [obind].
  destruct (Z.ltb_spec (slot_end s) (slot_end_allocated s)); cbn [negb]; cbv iota.
  2: { rewrite skip_until_spec by lia. rewrite (Z.min_comm (slot_end_allocated s)). eexists _, _, _, _.
       split; [reflexivity |]. split; [apply wrote_nothing; [done | lia | lia] | apply flagged_refl]. }
  rewrite skip_until_spec by lia. set (a := Z.max _ _). rewrite buffer_is_empty_spec, req_end_from by lia.
  simpl req_offset. destruct (Z.leb_spec (req_end r) a).
  { replace a with (Z.max (req_offset r) (Z.min (req_end r) (slot_end_allocated s))) by lia.
    eexists _, _, _, _. split; [reflexivity |].
    split; [apply wrote_nothing; [done | lia | lia] | apply flagged_refl]. }
  destruct (Z.ltb_spec a (slot_end_allocated s)); cbn [negb]; cbv iota.
  2: { replace a with (Z.max (req_offset r) (Z.min (req_end r) (slot_end_allocated s))) by lia.
       eexists _, _, _, _. split; [reflexivity |].
       split; [apply wrote_nothing; [done | lia | lia] | apply flagged_refl]. }
  destruct (Z.eqb_spec a (slot_end s)) as [Hea |].
  - rewrite Hea. destruct (append_spec s r fl) as (s' & r' & fl' & -> & Hw & Hf); [done | lia .. |]. cbn [obind].
    rewrite slot_wf_invariants by (by destruct Hw as (_ & ? & _)). cbn [obind].
    by exists s', None, r', fl'.
  - replace a with (req_offset r) by lia. rewrite req_from_self.
    destruct (write_split_spec s r fl) as (s' & f & r' & fl' & -> & Hw & Hf); [done | lia .. |]. cbn [obind].
    rewrite !slot_wf_invariants by (by destruct Hw as (_ & ? & _ & _ & _ & _ & (? & _) & _)). cbn [obind].
    by exists s', (Some f), r', fl'.
Qed.

(** ** Queues *)

(** Consecutive slots: in one block they are adjacent parts of one allocation
    and the second one has data; otherwise the first reaches the end of its
    block and the second starts at the beginning of its own. *)
Definition linked s t : Prop :=
  slot_end_allocated s <= slot_start t
  /\ (block (slot_start s) = block (slot_start t) ->
      slot_end_allocated s = slot_start t /\ sl_base s = sl_base t /\ 0 < sl_len t)
  /\ (block (slot_start s) <> block (slot_start t) ->
      slot_end_allocated s = block_end (slot_start s) /\ slot_start t = block (slot_start t)).

Fixpoint chain (l : list (Slot B)) : Prop :=
  match l with
  | [] => True
  | s :: l => slot_wf s /\ match l with [] => True | t :: _ => linked s t end /\ chain l
  end.

Definition joined (l k : list (Slot B)) : Prop :=
  match last l, head k with Some s, Some t => linked s t | _, _ => True end.

Lemma chain_app l k : chain (l ++ k) <-> chain l /\ chain k /\ joined l k.
Proof.
  unfold joined. induction l as [| s l IH]; [simpl; tauto |].
  destruct l as [| t l]; [destruct k; simpl; tauto |]. simpl in *. tauto.
Qed.

Lemma chain_wf l s : chain l -> s ∈ l -> slot_wf s.
Proof.
  induction l as [| t l IH]; [by intros _ ?%not_elem_of_nil |].
  intros (Ht & _ & Hl) [-> | Hs]%elem_of_cons; [done | by apply IH].
Qed.

(** A lower bound of the slots. *)
Definition from (lo : Z) (l : list (Slot B)) : Prop :=
  match head l with Some s => lo <= slot_start s | None => True end.

Lemma chain_from s l : chain (s :: l) -> from (slot_end_allocated s) l.
Proof. intros (_ & Hl & _). unfold from. destruct l; [done | apply Hl]. Qed.

Lemma rx_below l lo x : chain l -> from lo l -> x < lo -> rx l x = None.
Proof.
  revert lo. induction l as [| s l IH]; intros lo Hc Hlo Hx; [done |]. simpl.
  pose proof (chain_from _ _ Hc) as Hf. destruct Hc as (Hs & _ & Hc). unfold from in Hlo. simpl in Hlo.
  assert (slot_get s x = None) as -> by (apply slot_get_None; lia).
  apply (IH _ Hc Hf). destruct Hs. lia.
Qed.
End Spec.
