(* ===== verification/ReassemblerWrite.v ===== *)
(** * Writing to the reassembler

    Every write keeps the invariant of the queue and adds exactly the bytes of
    the request that were missing; none of the assertions of the code fails,
    including the ones about the memory of slots that are joined. *)
From S2P Require Import Prelude Codec VarInt ReassemblerSlot Reassembler ReassemblerSpec.

Section Write.
Context {B : Type} {HB : BytesMut B} {HS : BytesMutSpec B}.
Implicit Types s t u p : Slot B.

(** ** The queue *)

(** The last slot reaches the end of its block or of the stream. *)
Definition last_ok (fin : Z) (l : list (Slot B)) : Prop :=
  match last l with
  | Some s => slot_end_allocated s = block_end (slot_start s) \/ slot_end_allocated s = fin
  | None => True
  end.

(** No two slots that should have been joined. *)
Fixpoint merged (l : list (Slot B)) : Prop :=
  match l with
  | [] => True
  | s :: l => unmerged s (head l) = false /\ merged l
  end.

Lemma unmerged_None s : unmerged s None = false.
Proof. unfold unmerged. by rewrite andb_false_r. Qed.

Lemma unmerged_spec s t :
  unmerged s (Some t) = true
  <-> slot_is_full s = true /\ slot_start t = slot_end s /\ block (slot_start s) = block (slot_start t).
Proof.
  unfold unmerged. fold (block (slot_start s)) (block (slot_start t)).
  rewrite !andb_true_iff, !Z.eqb_eq. tauto.
Qed.

Lemma unmerged_false s t :
  (slot_is_full s = true -> block (slot_start s) = block (slot_start t) -> slot_start t <> slot_end s) ->
  unmerged s (Some t) = false.
Proof. intros H. apply not_true_iff_false. rewrite unmerged_spec. naive_solver. Qed.

Lemma merged_app l k :
  merged (l ++ k) <-> merged l /\ merged k
    /\ match last l, head k with Some s, Some t => unmerged s (Some t) = false | _, _ => True end.
Proof.
  induction l as [| s l IH]; [simpl; tauto |].
  destruct l as [| t l]; [destruct k; simpl; rewrite ?unmerged_None; tauto |].
  cbn [app merged last head] in *. tauto.
Qed.

(** Replacing the slot after [p] by one at the same place with no less data. *)
Lemma linked_right p s s' :
  linked p s -> slot_start s' = slot_start s -> sl_base s' = sl_base s -> sl_len s <= sl_len s' ->
  linked p s'.
Proof. unfold linked. intros (H1 & H2 & H3) -> -> Hl. split_and!; [done | intros Hb; destruct (H2 Hb) as (? & ? & ?); split; [done |]; split; [done | lia] | done]. Qed.

(** Replacing the slot before [t] by one that ends where it ended. *)
Lemma linked_left s s' t :
  linked s t -> slot_end_allocated s' = slot_end_allocated s -> sl_base s' = sl_base s ->
  block (slot_start s') = block (slot_start s) -> block_end (slot_start s') = block_end (slot_start s) ->
  linked s' t.
Proof. unfold linked. intros (H1 & H2 & H3) -> -> -> ->. done. Qed.

Lemma linked_blocks s t :
  slot_end_allocated s = block_end (slot_start s) -> slot_start t = block (slot_start t) ->
  slot_end_allocated s <= slot_start t -> 0 <= slot_start s ->
  linked s t /\ block (slot_start s) <> block (slot_start t).
Proof.
  intros He Ht Hle Hs. pose proof (block_bounds (slot_start s) Hs).
  assert (block (slot_start s) <> block (slot_start t)) by lia. split; [| done].
  unfold linked. split_and!; [done | done | done].
Qed.

Lemma slot_wf_block s x :
  slot_wf s -> slot_start s <= x < slot_end_allocated s ->
  block x = block (slot_start s) /\ block_end x = block_end (slot_start s).
Proof.
  intros (H1 & H2 & _) Hx. pose proof (block_bounds (slot_start s) H1). apply block_same; [done | lia].
Qed.

(** The slots a write leaves for a slot, between its neighbours. *)
Lemma wrote_chain pre s post r s' f r' :
  chain (pre ++ s :: post) -> wrote s r s' f r' -> chain (pre ++ (s' :: option_list f) ++ post).
Proof.
  rewrite !chain_app. intros (Hpre & (Hwf & Hst & Hpost) & Hj) (Hr & Hwf' & Hs & Hb & Hl & He & Hf & Hx).
  assert (Hj' : joined pre ((s' :: option_list f) ++ post)).
  { unfold joined in *. simpl in *. destruct (last pre); [| done]. by eapply linked_right. }
  destruct f as [f |]; simpl option_list.
  - destruct Hf as (Hwff & Hs' & Hef & Hbf & Hbk & Hlf & Hnf & _).
    assert (Hl12 : linked s' f).
    { unfold linked. rewrite Hs, Hb. split_and!; [lia | done | by rewrite Hbk]. }
    assert (Hbe : block_end (slot_start f) = block_end (slot_start s)).
    { apply (slot_wf_block s); [done |]. destruct Hwff as (_ & ? & _). destruct Hwf' as (_ & ? & _). lia. }
    split; [done |]. split; [| done]. split; [by simpl; auto |]. split; [done |].
    unfold joined. simpl. destruct post as [| t post]; [done |]. simpl in *. by eapply linked_left.
  - split; [done |]. split; [| done]. split; [by simpl; auto |]. split; [done |].
    unfold joined. simpl. destruct post as [| t post]; [done |]. simpl in *.
    apply (linked_left s); [done | done | done | by rewrite Hs ..].
Qed.

(** ** Allocation *)

(** What the reassembler relies on: a buffer of a slot's size is empty and has
    that capacity. *)
Definition alloc_exact (alloc : Z -> Z -> B) : Prop :=
  forall offset size, 0 <= size <= 65536 ->
    raw_len (b_view (alloc offset size)) = 0 /\ blen (raw_mem (b_view (alloc offset size))) = size.

Section Alloc.
Context (alloc : Z -> Z -> B) (Halloc : alloc_exact alloc).

(** The slot for a request: it starts at the block of the request, or where
    reading has come to, and ends with the block, or with the stream. *)
Definition fresh (cur : Cursors) (r : Request) u : Prop :=
  slot_wf u /\ sl_len u = 0
  /\ slot_start u = Z.max (start_offset cur) (block (req_offset r))
  /\ slot_start u <= req_offset r < slot_end_allocated u
  /\ (slot_end_allocated u = block_end (slot_start u)
      \/ slot_end_allocated u = final_offset cur /\ req_end r = final_offset cur)
  /\ block (slot_start u) = block (req_offset r)
  /\ block_end (slot_start u) = block_end (req_offset r).

Lemma slot_new_spec start end_ :
  0 <= start < end_ -> end_ <= block_end start ->
  exists u, slot_new start end_ (alloc start (end_ - start)) = Ret u /\ slot_wf u /\ sl_len u = 0
    /\ slot_start u = start /\ slot_end_allocated u = end_.
Proof.
  intros Hs He. pose proof (block_bounds start ltac:(lia)).
  destruct (Halloc start (end_ - start)) as [Hl Hm]; [lia |].
  assert (Hwf : slot_wf (mk_slot start end_ (alloc start (end_ - start))))
    by (unfold slot_wf, sl_mem; simpl; lia).
  unfold slot_new. rewrite slot_wf_invariants by done. cbn [obind]. by eexists.
Qed.

Lemma allocate_spec cur r :
  0 <= start_offset cur <= req_offset r -> req_offset r < req_end r <= MAX_VARINT_VALUE ->
  req_end r <= final_offset cur ->
  exists u, allocate_slot alloc cur r = Ret u /\ fresh cur r u.
Proof.
  intros Hso Hr Hfin. unfold MAX_VARINT_VALUE in Hr. pose proof (block_bounds (req_offset r) ltac:(lia)) as Hb.
  set (st := Z.max (start_offset cur) (block (req_offset r))).
  destruct (block_same (req_offset r) st) as [Hs1 Hs2]; [lia | lia |].
  unfold allocate_slot, RequestOps.current_offset, RequestOps.buffered_len.
  fold (block (req_offset r)).
  assert (Hbe : block_end (req_offset r) = block (req_offset r) + allocation_size (req_offset r)) by done.
  match goal with |- context [obind ?m _] => assert (Em : m = Ret (st, block_end (req_offset r) - st)) end.
  { unfold checked_sub, rassert. destruct (Z.leb_spec (block (req_offset r)) (start_offset cur)).
    - destruct (Z.ltb_spec 0 (start_offset cur - block (req_offset r))).
      + destruct (Z.leb_spec (start_offset cur) (req_offset r)); [| lia]. cbn [obind].
        rewrite sub_c_Ret by lia. cbn [obind]. do 2 f_equal; lia.
      + do 2 f_equal; lia.
    - do 2 f_equal; lia. }
  rewrite Em. cbn [obind]. assert (Hl : req_end r = req_offset r + blen (req_data r)) by done.
  rewrite (sub_c_Ret (final_offset cur)) by lia. cbn [obind].
  rewrite (sub_c_Ret (final_offset cur - _)) by lia. cbn [obind].
  set (en := if final_offset cur =? req_end r then Z.min (req_end r) (block_end (req_offset r))
             else block_end (req_offset r)).
  match goal with |- context [obind ?m _] => assert (Em2 : m = Ret (en - st)) end.
  { unfold en. destruct (Z.eqb_spec (final_offset cur - req_offset r - blen (req_data r)) 0),
      (Z.eqb_spec (final_offset cur) (req_end r)); try lia; [| done].
    rewrite sub_c_Ret by lia. cbn [obind]. rewrite add_c_Ret by lia. cbn [obind]. f_equal. zcases. }
  rewrite Em2. cbn [obind]. assert (st <= req_offset r < en) by (unfold en; zcases).
  assert (en <= block_end (req_offset r)) by (unfold en; zcases).
  rewrite add_c_Ret by lia. cbn [obind]. replace (st + (en - st)) with en by lia.
  destruct (slot_new_spec st en) as (u & -> & Hwf & Hlen & Hst & Hen); [lia | lia |].
  exists u. split; [done |]. unfold fresh. rewrite Hst, Hen, Hs1, Hs2.
  split_and!; try done; try lia. unfold en. zcases.
Qed.

(** The room for a new slot between two neighbours. *)
Definition room (cur : Cursors) (o : Z) (pre post : list (Slot B)) : Prop :=
  match last pre with
  | Some p => slot_end_allocated p = block_end (slot_start p) /\ start_offset cur < slot_end_allocated p <= o
  | None => True
  end
  /\ match head post with
     | Some t => o < slot_start t < final_offset cur /\ slot_start t = block (slot_start t)
     | None => True
     end.

(** What a slot of a request is bounded by. *)
Definition within (e : Z) s : Prop := slot_start s < e /\ slot_end s <= e.

(** The last slot that a write leaves for a slot. *)
Lemma wrote_last s r s' f r' :
  slot_wf s -> wrote s r s' f r' ->
  exists v, last (s' :: option_list f) = Some v /\ slot_end_allocated v = slot_end_allocated s
    /\ slot_start s <= slot_start v < slot_end_allocated s
    /\ block (slot_start v) = block (slot_start s) /\ block_end (slot_start v) = block_end (slot_start s).
Proof.
  intros Hwf (_ & Hwf' & Hs & _ & _ & _ & Hf & _). destruct f as [f |].
  - exists f. destruct Hf as (Hwff & Hs' & Hef & _). destruct Hwff as (_ & Hf1 & _).
    destruct Hwf' as (_ & Hs1 & _). rewrite Hs in Hs1.
    destruct (slot_wf_block s (slot_start f) Hwf) as [-> ->]; [lia |]. by repeat (split; [done || lia |]).
  - exists s'. destruct Hwf as (_ & ? & _). rewrite Hs. repeat (split; [done || lia |]). done.
Qed.

Lemma wrote_fresh cur r u s' f r' :
  0 <= start_offset cur -> req_offset r < req_end r -> fresh cur r u -> wrote u r s' f r' ->
  chain (s' :: option_list f) /\ merged (s' :: option_list f) /\ Forall (within (req_end r)) (s' :: option_list f)
  /\ r' = req_from r (Z.min (req_end r) (slot_end_allocated u))
  /\ forall x, rx (s' :: option_list f) x
       = if x <? Z.min (req_end r) (slot_end_allocated u) then req_get r x else None.
Proof.
  intros Hso Hne (Hwf & Hlen & Hst & Ho & _) Hw. split.
  { pose proof (wrote_chain [] u [] r s' f r') as Hc. simpl in Hc. rewrite app_nil_r in Hc. by apply Hc. }
  pose proof Hw as (-> & Hwf' & Hs & _ & _ & He & Hf & Hx). split.
  { destruct f as [f |]; simpl; rewrite ?unmerged_None; [| done]. split; [| done].
    apply unmerged_false. destruct Hf as (_ & _ & _ & _ & _ & _ & -> & _). done. }
  rewrite (slot_end_eq u) in He. split.
  { constructor; [split; lia |]. destruct f as [f |]; constructor; [| constructor].
    destruct Hf as (_ & _ & _ & _ & _ & ? & _ & ?). pose proof (slot_end_eq f). split; lia. }
  split; [f_equal; lia |]. intros x. rewrite Hx.
  assert (slot_get u x = None) as -> by (apply slot_get_None; rewrite slot_end_eq; lia).
  destruct (Z.ltb_spec x (slot_end_allocated u)), (Z.ltb_spec x (Z.min (req_end r) (slot_end_allocated u)));
    try lia; try done. apply req_get_None. lia.
Qed.

(** New slots in the room between two neighbours. *)
Lemma fresh_between cur r u s' f r' pre post :
  0 <= start_offset cur -> req_offset r < req_end r <= final_offset cur ->
  chain (pre ++ post) -> last_ok (final_offset cur) (pre ++ post) -> room cur (req_offset r) pre post ->
  fresh cur r u -> wrote u r s' f r' ->
  let new := s' :: option_list f in
  chain (pre ++ new ++ post) /\ last_ok (final_offset cur) (pre ++ new ++ post)
  /\ (merged (pre ++ post) -> merged (pre ++ new ++ post)).
Proof.
  intros Hso Hr Hc Hl [Hp Ht] Hu Hw. cbv zeta.
  destruct (wrote_fresh cur r u s' f r' Hso ltac:(lia) Hu Hw) as (Hcn & Hmn & _).
  pose proof Hu as (Hwf & _ & Hst & Ho & Hend & Hb1 & Hb2).
  destruct (wrote_last u r s' f r' Hwf Hw) as (v & Hv & Hev & Hsv & Hbv1 & Hbv2).
  pose proof (block_bounds (req_offset r) ltac:(lia)) as Hbo.
  assert (Hpre : match last pre with Some p => linked p s' /\ block (slot_start p) <> block (slot_start s') | None => True end).
  { destruct (last pre) as [p |] eqn:Elp; [| done].
    assert (Hwp : slot_wf p). { apply (chain_wf (pre ++ post)); [done |]. apply elem_of_app. left. by apply last_Some_elem_of. }
    assert (0 <= slot_start p) by apply Hwp.
    pose proof (block_after (slot_start p) (req_offset r)) as Ha. specialize (Ha ltac:(lia) ltac:(lia)).
    destruct Hw as (_ & _ & Hs & _). apply linked_blocks; [apply Hp | rewrite Hs; lia | rewrite Hs; lia | lia]. }
  assert (Hpost : match head post with Some t => linked v t /\ block (slot_start v) <> block (slot_start t) | None => True end).
  { destruct (head post) as [t |]; [| done]. destruct Ht as [Ht1 Ht2].
    pose proof (block_before (req_offset r) (slot_start t)) as Ha. specialize (Ha ltac:(lia) ltac:(lia) ltac:(lia)).
    pose proof Hwf as (_ & Hwu & _).
    apply linked_blocks; [rewrite Hev, Hbv2; lia | done | lia | lia]. }
  rewrite !chain_app in *. destruct Hc as (Hcpre & Hcpost & _). unfold joined. rewrite Hv.
  split; [| split].
  - split; [done |]. split; [split; [done |]; split; [done |]; destruct (head post); [apply Hpost | done] |].
    simpl head. destruct (last pre); [apply Hpre | done].
  - unfold last_ok in *. destruct post as [| t post]; [| by rewrite app_assoc, !last_app_cons in *].
    rewrite app_nil_r. simpl. rewrite last_app_cons, Hv, Hev, Hbv2. lia.
  - rewrite !merged_app. intros (Hm1 & Hm2 & _). rewrite Hv. split_and!; try done.
    + destruct (head post); [| done]. apply unmerged_false. naive_solver.
    + destruct (last pre); [| done]. simpl. apply unmerged_false. naive_solver.
Qed.

Lemma insert_slot_app l k s : insert_slot (l ++ k) (vlen l) s = Ret (l ++ s :: k).
Proof.
  unfold insert_slot. rewrite vlen_app. pose proof (vlen_nonneg k).
  destruct (Z.ltb_spec (vlen l + vlen k) (vlen l)); [lia | apply vinsert_app].
Qed.

Lemma slot_wf_end s : slot_wf s -> slot_start s <= MAX_VARINT_VALUE -> slot_end_allocated s < 2 ^ 63.
Proof.
  intros (H1 & H2 & _) Hs. pose proof (block_bounds (slot_start s) H1). unfold MAX_VARINT_VALUE in Hs. lia.
Qed.

(** Behind a slot that ends before the next one starts there is room. *)
Lemma gap_room cur o pre p post :
  chain (pre ++ post) -> last_ok (final_offset cur) (pre ++ post) -> last pre = Some p ->
  start_offset cur < slot_end_allocated p <= o -> o < final_offset cur ->
  match head post with Some t => o < slot_start t < final_offset cur | None => True end ->
  room cur o pre post.
Proof.
  intros Hc Hl Hp Hso Hfin Ht. apply chain_app in Hc as (_ & _ & Hj). unfold joined, last_ok, room in *.
  rewrite Hp in *. destruct post as [| t post]; simpl in *.
  - rewrite app_nil_r, Hp in Hl. split; [lia | done].
  - destruct Hj as (_ & H1 & H2).
    destruct (Z.eq_dec (block (slot_start p)) (block (slot_start t))) as [E | E]; [destruct (H1 E); lia |].
    destruct (H2 E). split; [lia | done].
Qed.

Lemma with_alloc_stop fuel cur l r idx fl :
  req_end r <= req_offset r -> write_reader_with_alloc alloc fuel cur l r idx fl = Ret (l, r, idx, fl).
Proof.
  intros Hr. destruct fuel; cbn [write_reader_with_alloc]; rewrite buffer_is_empty_spec;
    by rewrite (proj2 (Z.leb_le _ _) Hr).
Qed.

(** One round of [write_reader_with_alloc]. *)
Lemma with_alloc_step fuel cur pre post r fl :
  req_offset r < req_end r ->
  match head post with Some t => req_offset r < slot_start t | None => True end ->
  forall u s' f r' fl', allocate_slot alloc cur r = Ret u ->
  slot_try_write_reader u r fl = Ret (s', f, r', fl') ->
  write_reader_with_alloc alloc (S fuel) cur (pre ++ post) r (vlen pre) fl
  = write_reader_with_alloc alloc fuel cur (pre ++ (s' :: option_list f) ++ post) r'
      (vlen (pre ++ s' :: option_list f)) fl'.
Proof.
  intros Hr Ht u s' f r' fl' Ea Ew. cbn [write_reader_with_alloc].
  rewrite buffer_is_empty_spec. destruct (Z.leb_spec (req_end r) (req_offset r)); [lia |].
  match goal with |- (if ?c then _ else _) = _ => assert (c = false) as -> end.
  { destruct post as [| t post]; [rewrite vget_end; [done | rewrite app_nil_r; lia] |].
    rewrite vget_app. simpl in Ht. unfold RequestOps.current_offset. by zcases. }
  rewrite Ea. cbn [obind]. rewrite Ew. cbn [obind]. rewrite insert_slot_app. cbn [obind].
  destruct f as [f |]; simpl.
  - replace (pre ++ s' :: post) with ((pre ++ [s']) ++ post) by by rewrite <- app_assoc.
    replace (vlen pre + 1) with (vlen (pre ++ [s'])) by by rewrite vlen_app.
    rewrite insert_slot_app. cbn [obind]. rewrite <- app_assoc. simpl. f_equal.
    rewrite !vlen_app. change (vlen [s'; f]) with 2. change (vlen [s']) with 1. lia.
  - f_equal. by rewrite vlen_app.
Qed.

(** What the cursors and a request satisfy while it is written. *)
Definition pending (cur : Cursors) (r : Request) : Prop :=
  0 <= start_offset cur <= req_offset r /\ req_offset r <= req_end r <= max_recv_offset cur
  /\ max_recv_offset cur <= MAX_VARINT_VALUE /\ max_recv_offset cur <= final_offset cur.

Lemma pending_from cur r o : pending cur r -> req_offset r <= o <= req_end r -> pending cur (req_from r o).
Proof. unfold pending. intros H Ho. rewrite req_end_from by lia. simpl. lia. Qed.

(** Filling the room before the next slot, with new slots. *)
Lemma with_alloc_spec cur fuel : forall pre p post r fl,
  (length (req_data r) < fuel)%nat -> pending cur r ->
  chain (pre ++ post) -> last_ok (final_offset cur) (pre ++ post) -> last pre = Some p ->
  start_offset cur < slot_end_allocated p <= req_offset r ->
  match head post with Some t => req_offset r <= slot_start t < final_offset cur | None => True end ->
  exists new o' fl',
    write_reader_with_alloc alloc fuel cur (pre ++ post) r (vlen pre) fl
      = Ret (pre ++ new ++ post, req_from r o', vlen (pre ++ new), fl')
    /\ chain (pre ++ new ++ post) /\ last_ok (final_offset cur) (pre ++ new ++ post)
    /\ (merged (pre ++ post) -> merged (pre ++ new ++ post))
    /\ Forall (within (req_end r)) new /\ (fl = true -> fl' = true)
    /\ req_offset r <= o' <= req_end r /\ from o' post
    /\ (forall x, rx new x = if x <? o' then req_get r x else None)
    /\ (o' = req_end r \/ match head post with Some t => o' = slot_start t | None => False end).
Proof.
  induction fuel as [| fuel IH]; [lia |]. intros pre p post r fl Hfuel Hp Hc Hl Hlast Hso Ht.
  assert (Hstop : forall x, @None Z = if x <? req_offset r then req_get r x else None).
  { intros x. destruct (Z.ltb_spec x (req_offset r)); [| done]. symmetry. apply req_get_None. lia. }
  destruct (Z.le_gt_cases (req_end r) (req_offset r)) as [He | He].
  { exists [], (req_offset r), fl. rewrite with_alloc_stop, req_from_self, app_nil_r by done. simpl.
    unfold pending, from in *. split_and!; try done; try lia. destruct (head post); [lia | done]. }
  destruct (match head post with Some t => req_offset r =? slot_start t | None => false end) eqn:Et.
  { exists [], (req_offset r), fl. rewrite req_from_self, app_nil_r. simpl.
    destruct post as [| t post]; [done |]. simpl in Et. apply Z.eqb_eq in Et.
    cbn [write_reader_with_alloc]. rewrite buffer_is_empty_spec, vget_app. unfold RequestOps.current_offset.
    destruct (Z.leb_spec (req_end r) (req_offset r)); [lia |].
    destruct (Z.ltb_spec (req_offset r) (slot_start t)); [lia |]. unfold from. simpl.
    split_and!; try done; try lia. }
  pose proof Hp as (Hp1 & Hp2 & Hp3 & Hp4).
  assert (Ht' : match head post with Some t => req_offset r < slot_start t < final_offset cur | None => True end).
  { destruct (head post); [| done]. apply Z.eqb_neq in Et. lia. }
  destruct (allocate_spec cur r) as (u & Ea & Hu); [lia .. |].
  pose proof Hu as (Hwf & _ & _ & Hou & _).
  destruct (try_write_spec u r fl) as (s' & f & r' & fl1 & Ew & Hw & Hf);
    [done | lia | lia | apply slot_wf_end; [done | lia] |].
  rewrite (with_alloc_step fuel cur pre post r fl ltac:(lia) ltac:(by destruct (head post); [lia |]) u s' f r' fl1)
    by done.
  assert (Hroom : room cur (req_offset r) pre post) by (eapply gap_room; eauto; lia).
  destruct (fresh_between cur r u s' f r' pre post) as (Hc' & Hl' & Hm'); [lia .. | done | done | done | done | done |].
  destruct (wrote_fresh cur r u s' f r') as (_ & _ & Hin & Hr' & Hx); [lia .. | done | done |].
  set (new1 := s' :: option_list f) in *. set (o1 := Z.min (req_end r) (slot_end_allocated u)) in *. subst r'.
  destruct (wrote_last u r s' f (req_from r o1) Hwf Hw) as (v & Hv & Hev & _).
  change (last new1 = Some v) in Hv.
  assert (Hv' : match head post with Some t => slot_end_allocated u <= slot_start t | None => True end).
  { apply chain_app in Hc' as (_ & (_ & _ & Hj)%chain_app & _). unfold joined in Hj. rewrite Hv in Hj.
    destruct (head post); [| done]. destruct Hj as [? _]. lia. }
  destruct (Z.le_gt_cases (req_end r) (slot_end_allocated u)) as [Hdone | Hmore].
  { rewrite with_alloc_stop by (rewrite req_end_from by lia; simpl; lia).
    exists new1, o1, fl1. unfold from. split_and!; try done; try lia; [apply Hf | destruct (head post); [lia | done]]. }
  rewrite app_assoc in Hc', Hl'.
  destruct (IH (pre ++ new1) v post (req_from r o1) fl1) as (new2 & o2 & fl2 & E & Hc2 & Hl2 & Hm2 & Hin2 & Hf2 & Ho2 & Hfr2 & Hx2 & Hend);
    [| by apply pending_from; [done | lia] | done | done | by rewrite last_app, Hv | simpl; lia | |].
  { unfold req_from. simpl. rewrite length_drop. unfold req_end, blen in He. lia. }
  { destruct (head post); [simpl; lia | done]. }
  rewrite app_assoc, E. rewrite req_end_from in * by lia. simpl req_offset in *.
  rewrite req_from_from in * by lia. exists (new1 ++ new2), o2, fl2.
  rewrite <- !app_assoc in *. split; [done |]. split; [done |]. split; [done |].
  split; [intros ?; auto |]. split; [by apply Forall_app |]. split; [intros ->; apply Hf2, Hf; done |].
  split; [lia |]. split; [done |]. split; [| done]. intros x. rewrite rx_app, Hx, Hx2, req_get_from by lia.
  destruct (Z.ltb_spec x o1), (Z.ltb_spec x o2); try lia; try done. by destruct (req_get r x).
Qed.

(** ** Filling the slots *)

Lemma wrote_merged pre s post r s' f r' fl :
  wrote s r s' f r' -> flagged s s' f fl false ->
  merged (pre ++ s :: post) -> merged (pre ++ (s' :: option_list f) ++ post).
Proof.
  intros (_ & _ & Hs & _ & _ & _ & Hf & _) [_ Hfl]. specialize (Hfl eq_refl).
  rewrite !merged_app. intros (Hpre & (Hm & Hpost) & Hj). simpl in Hj |- *.
  split; [done |]. split; [| destruct (last pre) as [p |]; [| done]; unfold unmerged in *; by rewrite Hs].
  destruct f as [f |]; simpl.
  - destruct Hf as (_ & _ & _ & _ & _ & _ & Hn & _). split_and!; try done.
    + apply unmerged_false. by rewrite Hn.
    + apply unmerged_None.
    + destruct (head post); [| done]. apply unmerged_false. by rewrite Hfl.
  - split_and!; try done; [apply unmerged_None |]. destruct (head post); [| done]. unfold unmerged in *. rewrite Hs, Hfl.
    destruct (slot_is_full s) eqn:E; [| done]. unfold slot_is_full in E, Hfl.
    apply Z.eqb_eq in E, Hfl. by rewrite Hfl, Hf, <- E.
Qed.

Lemma wrote_last_ok fin pre s post r s' f r' :
  slot_wf s -> wrote s r s' f r' -> last_ok fin (pre ++ s :: post) ->
  last_ok fin (pre ++ (s' :: option_list f) ++ post).
Proof.
  intros Hwf Hw. destruct (wrote_last s r s' f r' Hwf Hw) as (v & Hv & Hev & _ & _ & Hbe).
  unfold last_ok. destruct post as [| t post].
  - rewrite app_nil_r. change (s' :: option_list f) with ([s'] ++ option_list f) in *.
    simpl app in *. rewrite !last_app_cons, Hv. simpl. by rewrite Hev, Hbe.
  - rewrite app_assoc. rewrite (last_app_cons (pre ++ _)), last_app_cons. done.
Qed.

Lemma rx_wrote s post r s' f r' x :
  chain (s :: post) -> wrote s r s' f r' ->
  rx ((s' :: option_list f) ++ post) x
  = match rx (s :: post) x with
    | Some b => Some b
    | None => if x <? slot_end_allocated s then req_get r x else None
    end.
Proof.
  intros Hc (_ & _ & _ & _ & _ & _ & _ & Hx). rewrite rx_app, Hx. simpl.
  destruct (slot_get s x); [done |]. destruct (Z.ltb_spec x (slot_end_allocated s)).
  - rewrite (rx_below post (slot_end_allocated s)); [by destruct (req_get r x) | apply Hc | by apply chain_from | done].
  - by destruct (rx post x).
Qed.

Lemma wrote_within e s r s' f r' :
  wrote s r s' f r' -> slot_start s < req_end r <= e -> slot_end s <= e ->
  Forall (within e) (s' :: option_list f).
Proof.
  intros (_ & _ & Hs & _ & _ & He & Hf & _) Hr Hse. constructor; [split; lia |].
  destruct f as [f |]; constructor; [| constructor].
  destruct Hf as (_ & _ & _ & _ & _ & ? & _ & ?). pose proof (slot_end_eq f). split; lia.
Qed.

(** One round of the loop of [write_reader_at]. *)
Lemma write_slots_step fuel cur pre s post r fl s' f r' fl' :
  req_offset r < req_end r -> slot_try_write_reader s r fl = Ret (s', f, r', fl') ->
  let new := s' :: option_list f in
  write_slots alloc (S fuel) cur (pre ++ s :: post) r (vlen pre) fl
  = if RequestOps.buffer_is_empty r' then Ret (pre ++ new ++ post, r', vlen (pre ++ new), fl') else
    let! '(l, reader, idx, filled_slot) :=
      write_reader_with_alloc alloc (S (length (req_data r'))) cur ((pre ++ new) ++ post) r' (vlen (pre ++ new)) fl' in
    write_slots alloc fuel cur l reader idx filled_slot.
Proof.
  intros Hr Ew. cbn [write_slots]. rewrite buffer_is_empty_spec.
  destruct (Z.leb_spec (req_end r) (req_offset r)); [lia |].
  unfold vindex. rewrite vget_app. cbn [obind]. rewrite Ew. cbn [obind]. rewrite vset_app. cbn [obind].
  rewrite <- (app_assoc pre). destruct f as [f |]; simpl.
  - replace (pre ++ s' :: post) with ((pre ++ [s']) ++ post) by by rewrite <- app_assoc.
    replace (vlen pre + 1) with (vlen (pre ++ [s'])) by by rewrite vlen_app.
    rewrite insert_slot_app. cbn [obind]. rewrite <- app_assoc. simpl.
    replace (vlen (pre ++ [s']) + 1) with (vlen (pre ++ [s'; f])); [done |].
    rewrite !vlen_app. change (vlen [s'; f]) with 2. change (vlen [s']) with 1. lia.
  - replace (vlen pre + 1) with (vlen (pre ++ [s'])) by by rewrite vlen_app. done.
Qed.

(** The slots [l], with the request written, have become [mid ++ post]. *)
Definition filled (cur : Cursors) pre (l : list (Slot B)) (r : Request) mid post : Prop :=
  (exists used, l = used ++ post)
  /\ chain (pre ++ mid ++ post) /\ last_ok (final_offset cur) (pre ++ mid ++ post)
  /\ slot_start <$> head mid = slot_start <$> head l
  /\ Forall (within (max_recv_offset cur)) mid
  /\ forall x, rx (mid ++ post) x = match rx l x with Some b => Some b | None => req_get r x end.

(** The slots of the rest of the queue, behind some that took the request up to
    where the next one starts. *)
Lemma filled_app cur pre s t post r a o mid post' :
  0 <= req_offset r <= o -> from o (t :: post) -> chain (s :: t :: post) -> a <> [] ->
  slot_start <$> head a = Some (slot_start s) -> Forall (within (max_recv_offset cur)) a ->
  (forall x, rx (a ++ t :: post) x
     = match rx (s :: t :: post) x with Some b => Some b | None => if x <? o then req_get r x else None end) ->
  filled cur (pre ++ a) (t :: post) (req_from r o) mid post' ->
  filled cur pre (s :: t :: post) r (a ++ mid) post'.
Proof.
  intros Ho Hfr Hc Ha Hs Hin Hx ((used & Hu) & Hc' & Hl' & Hh & Hin' & Hx').
  unfold filled. rewrite <- !app_assoc in *. split; [exists (s :: used); by rewrite Hu |].
  split; [done |]. split; [done |]. split; [destruct a; [done | by simpl in *; rewrite Hs] |].
  split; [by apply Forall_app |]. intros x. specialize (Hx x). rewrite rx_app, Hx', req_get_from by lia.
  rewrite rx_app in Hx. destruct (rx a x) as [b |].
  - destruct (rx (s :: t :: post) x); [done |]. by destruct (x <? o).
  - rewrite Hx. destruct (rx (s :: t :: post) x); [done |]. destruct (x <? o); [| done].
    by destruct (req_get r x).
Qed.

Lemma write_slots_stop fuel cur l r idx fl :
  req_end r <= req_offset r -> write_slots alloc fuel cur l r idx fl = Ret (l, r, idx, fl).
Proof.
  intros Hr. destruct fuel; cbn [write_slots]; rewrite buffer_is_empty_spec;
    by rewrite (proj2 (Z.leb_le _ _) Hr).
Qed.

(** The bytes of a slot that was written to, of new slots behind it, and of the
    rest of the queue. *)
Lemma rx_fill s post r s' f r1 new o2 x :
  chain (s :: post) -> wrote s r s' f r1 -> req_offset r1 <= o2 -> from o2 post ->
  req_offset r <= req_offset r1 ->
  (forall x, rx new x = if x <? o2 then req_get r1 x else None) ->
  rx (((s' :: option_list f) ++ new) ++ post) x
  = match rx (s :: post) x with Some b => Some b | None => if x <? o2 then req_get r x else None end.
Proof.
  intros Hc Hw Ho Hfr Hr Hnew. pose proof (rx_wrote s post r s' f r1 x Hc Hw) as Hx.
  pose proof Hw as (Hr1 & _). rewrite <- app_assoc, rx_app, rx_app, Hnew. rewrite rx_app in Hx.
  assert (Hget : req_get r1 x = if x <? req_offset r1 then None else req_get r x).
  { rewrite Hr1. rewrite req_get_from by lia. done. }
  assert (Ho1 : req_offset r1 = Z.max (req_offset r) (Z.min (req_end r) (slot_end_allocated s))) by by rewrite Hr1.
  rewrite Hget. destruct (rx (s' :: option_list f) x) as [b |].
  - rewrite Hx. destruct (rx (s :: post) x); [done |]. destruct (Z.ltb_spec x (slot_end_allocated s)); [| done].
    symmetry in Hx. apply req_get_Some in Hx as ?. destruct (Z.ltb_spec x o2); [done | lia].
  - rewrite Hx. destruct (Z.ltb_spec x o2) as [Hlt |].
    2: { destruct (rx (s :: post) x); [done |]. destruct (Z.ltb_spec x (slot_end_allocated s)); [| done].
         apply req_get_None. lia. }
    rewrite (rx_below post o2 x) in Hx by (apply Hc || done).
    destruct (rx (s :: post) x); [done |].
    destruct (Z.ltb_spec x (slot_end_allocated s)), (Z.ltb_spec x (req_offset r1)); rewrite <- ?Hx; try done;
      try (by destruct (req_get r x)).
    symmetry. apply req_get_None. lia.
Qed.

(** One slot filled, and the room behind it. *)
Lemma fill_one cur fuel pre s post r fl :
  pending cur r -> req_offset r < req_end r -> chain (pre ++ s :: post) ->
  last_ok (final_offset cur) (pre ++ s :: post) ->
  start_offset cur <= slot_start s <= req_offset r -> slot_end s <= max_recv_offset cur ->
  from (req_offset r) post -> Forall (within (max_recv_offset cur)) post ->
  exists a o fl',
    write_slots alloc (S fuel) cur (pre ++ s :: post) r (vlen pre) fl
      = write_slots alloc fuel cur ((pre ++ a) ++ post) (req_from r o) (vlen (pre ++ a)) fl'
    /\ chain (pre ++ a ++ post) /\ last_ok (final_offset cur) (pre ++ a ++ post)
    /\ (fl' = false -> fl = false /\ (merged (pre ++ s :: post) -> merged (pre ++ a ++ post)))
    /\ slot_start <$> head a = Some (slot_start s) /\ Forall (within (max_recv_offset cur)) a
    /\ req_offset r <= o <= req_end r /\ from o post
    /\ (forall x, rx (a ++ post) x
         = match rx (s :: post) x with Some b => Some b | None => if x <? o then req_get r x else None end)
    /\ (o = req_end r \/ match head post with Some t => o = slot_start t | None => False end).
Proof.
  intros Hp Hne Hc Hl Hs Hse Hfr Hin. pose proof Hp as (Hp1 & Hp2 & Hp3 & Hp4).
  pose proof Hc as (_ & Hcs & _)%chain_app. pose proof Hcs as (Hwf & _).
  destruct (try_write_spec s r fl) as (s' & f & r' & fl1 & Ew & Hw & Hf);
    [done | lia | lia | apply slot_wf_end; [done | lia] |].
  rewrite (write_slots_step fuel cur pre s post r fl s' f r' fl1) by done.
  pose proof (wrote_chain pre s post r s' f r' Hc Hw) as Hc1.
  pose proof (wrote_last_ok _ pre s post r s' f r' Hwf Hw Hl) as Hl1.
  pose proof (wrote_within (max_recv_offset cur) s r s' f r' Hw ltac:(lia) Hse) as Hin1.
  destruct (wrote_last s r s' f r' Hwf Hw) as (v & Hv & Hev & _).
  pose proof Hw as (Hr' & _ & Hs' & _).
  set (o1 := Z.max (req_offset r) (Z.min (req_end r) (slot_end_allocated s))) in *.
  pose proof (chain_from _ _ Hcs) as Hfs. rewrite buffer_is_empty_spec, Hr', req_end_from by lia. simpl req_offset.
  assert (Hm1 : fl1 = false -> fl = false
                /\ (merged (pre ++ s :: post) -> merged (pre ++ (s' :: option_list f) ++ post))).
  { intros ->. split; [destruct fl; [by destruct Hf as [Hf _]; specialize (Hf eq_refl) | done] |].
    by eapply wrote_merged. }
  destruct (Z.leb_spec (req_end r) o1).
  - exists (s' :: option_list f), o1, fl1. rewrite write_slots_stop by (rewrite req_end_from by lia; simpl; lia).
    rewrite <- app_assoc. split; [done |]. do 3 (split; [done |]). split; [by simpl; rewrite Hs' |].
    split; [done |]. split; [lia |]. split; [unfold from in *; destruct (head post); [lia | done] |].
    split; [| lia]. intros x. rewrite (rx_wrote s post r s' f r' x Hcs Hw). destruct (rx (s :: post) x); [done |].
    destruct (Z.ltb_spec x (slot_end_allocated s)), (Z.ltb_spec x o1); try lia; try done.
    apply req_get_None. lia.
  - rewrite app_assoc in Hc1, Hl1.
    destruct (with_alloc_spec cur (S (length (req_data (req_from r o1)))) (pre ++ s' :: option_list f) v post (req_from r o1) fl1)
      as (new & o2 & fl2 & -> & Hc2 & Hl2 & Hm2 & Hin2 & Hfl2 & Ho2 & Hfr2 & Hx2 & Hend);
      [lia | apply pending_from; [done | lia] | done | done | | | |].
    { by rewrite last_app, Hv. }
    { simpl. destruct Hwf as (_ & ? & _). lia. }
    { unfold from in *. destruct (head post) as [t |] eqn:Et; [| done]. simpl.
      destruct post; [done |]. injection Et as ->. apply Forall_cons in Hin as [[? _] _]. lia. }
    cbn [obind]. simpl req_offset in *. rewrite req_end_from in * by lia. rewrite req_from_from in * by lia.
    rewrite <- !app_assoc in *. exists ((s' :: option_list f) ++ new), o2, fl2.
    rewrite <- !app_assoc. split; [done |]. split; [done |]. split; [done |].
    split. { intros ->. destruct fl1; [by specialize (Hfl2 eq_refl) |]. destruct (Hm1 eq_refl). auto. }
    split; [by simpl; rewrite Hs' |]. split.
    { apply Forall_app. split; [done |]. eapply Forall_impl; [exact Hin2 |]. unfold within. lia. }
    split; [lia |]. split; [done |]. split; [| done]. intros x. rewrite app_assoc.
    apply (rx_fill s post r s' f r' new o2 x); try done; rewrite Hr'; simpl; try lia. done.
Qed.

(** The loop of [write_reader_at] writes the request. *)
Lemma write_slots_spec cur fuel : forall pre s post r fl,
  (length post < fuel)%nat -> pending cur r -> req_offset r < req_end r ->
  chain (pre ++ s :: post) -> last_ok (final_offset cur) (pre ++ s :: post) ->
  start_offset cur <= slot_start s <= req_offset r -> slot_end s <= max_recv_offset cur ->
  from (req_offset r) post -> Forall (within (max_recv_offset cur)) post ->
  exists mid post' fl',
    write_slots alloc fuel cur (pre ++ s :: post) r (vlen pre) fl
      = Ret (pre ++ mid ++ post', req_from r (req_end r), vlen (pre ++ mid), fl')
    /\ filled cur pre (s :: post) r mid post'
    /\ (fl' = false -> fl = false /\ (merged (pre ++ s :: post) -> merged (pre ++ mid ++ post'))).
Proof.
  induction fuel as [| fuel IH]; [lia |]. intros pre s post r fl Hfuel Hp Hne Hc Hl Hs Hse Hfr Hin.
  destruct (fill_one cur fuel pre s post r fl) as (a & o & fl1 & -> & Hc1 & Hl1 & Hm1 & Hh & Hin1 & Ho & Hfr1 & Hx & Hend);
    try done.
  pose proof Hp as (Hp1 & Hp2 & Hp3 & Hp4). pose proof Hc as (_ & Hcs & _)%chain_app.
  destruct (Z.eq_dec o (req_end r)) as [Eo | Eo].
  - exists a, post, fl1. rewrite write_slots_stop by (rewrite req_end_from by lia; simpl; lia).
    rewrite Eo, <- app_assoc. split; [done |]. split; [| done]. split; [by exists [s] |].
    split; [done |]. split; [done |]. split; [done |]. split; [done |]. intros x. rewrite Hx.
    destruct (rx (s :: post) x); [done |]. destruct (Z.ltb_spec x o); [done |].
    symmetry. apply req_get_None. lia.
  - destruct Hend as [? | Hend]; [done |]. destruct post as [| t post]; [done |]. simpl in Hend.
    apply Forall_cons in Hin as [Hint Hin]. rewrite app_assoc in Hc1, Hl1.
    destruct (IH (pre ++ a) t post (req_from r o) fl1) as (mid & post' & fl2 & -> & Hfill & Hm2).
    + simpl in Hfuel. lia.
    + apply pending_from; [done | lia].
    + rewrite req_end_from by lia. simpl. lia.
    + done.
    + done.
    + simpl. lia.
    + apply Hint.
    + simpl. destruct Hcs as (_ & _ & Hct). pose proof (chain_from _ _ Hct) as Hft. destruct Hct as ((_ & ? & _) & _).
      unfold from in *. destruct (head post); [lia | done].
    + done.
    + rewrite req_end_from, req_from_from, <- !app_assoc in * by lia. exists (a ++ mid), post', fl2.
      rewrite <- !app_assoc. split; [done |].
      split; [| intros H2; destruct (Hm2 H2) as [H1 ?]; destruct (Hm1 H1) as [? ?]; auto].
      eapply filled_app; try done; [lia |]. by destruct a.
Qed.
End Alloc.

(** ** Joining slots *)

Lemma unsplit_spec m t :
  slot_wf m -> slot_wf t -> linked m t -> unmerged m (Some t) = true ->
  exists m', slot_unsplit m t = Ret m' /\ slot_wf m' /\ slot_start m' = slot_start m
    /\ slot_end_allocated m' = slot_end_allocated t /\ sl_base m' = sl_base m
    /\ sl_len m' = sl_len m + sl_len t /\ slot_end m' = slot_end t
    /\ block (slot_start t) = block (slot_start m) /\ block_end (slot_start t) = block_end (slot_start m)
    /\ forall x, slot_get m' x = match slot_get m x with Some b => Some b | None => slot_get t x end.
Proof.
  intros Hm Ht (_ & Hl & _) Hu. apply unmerged_spec in Hu as (Hfull & Hst & Hb).
  destruct (Hl Hb) as (He & Hbase & Hlen). rewrite slot_is_full_spec in Hfull. apply Z.eqb_eq in Hfull.
  pose proof (slot_end_eq m) as Em. pose proof (slot_end_eq t) as Et.
  pose proof Hm as (Hm1 & Hm2 & Hm3). pose proof Ht as (Ht1 & Ht2 & Ht3).
  pose proof (sl_len_ok m). pose proof (sl_len_ok t).
  pose proof (block_bounds (slot_start t) Ht1) as Hbt. pose proof (block_bounds (slot_start m) Hm1) as Hbm.
  assert (Hbe : block_end (slot_start t) = block_end (slot_start m)).
  { destruct (block_same (slot_start t) (slot_start m) Ht1 ltac:(lia)) as [_ ?]. done. }
  assert (Hv : b_view (b_unsplit (slot_data m) (slot_data t))
    = mk_raw (sl_mem m ++ sl_mem t) (sl_len m + sl_len t) (raw_addr (b_view (slot_data m))) (raw_arena (b_view (slot_data m)))).
  { unfold sl_base in Hbase. injection Hbase as Harena Hbase. apply b_unsplit_spec; unfold sl_mem, sl_len in *; [lia | lia | done]. }
  set (m' := mk_slot (slot_start m) (slot_end_allocated t) (b_unsplit (slot_data m) (slot_data t))).
  assert (Hwf : slot_wf m').
  { unfold slot_wf, sl_mem, m'. simpl. rewrite Hv. simpl. rewrite blen_app. lia. }
  assert (Hlen' : sl_len m' = sl_len m + sl_len t) by (unfold sl_len at 1, m'; simpl; by rewrite Hv).
  exists m'. split.
  { unfold slot_unsplit. rewrite !b_len_spec, !b_capacity_spec, !b_as_ptr_spec.
    fold (sl_mem m) (sl_mem t) (sl_len m) (sl_len t). unfold sl_base, rassert in *. injection Hbase as _ Hbase.
    repeat (zcase; try lia; cbn [obind negb]). fold m'. by rewrite slot_wf_invariants. }
  rewrite (slot_end_eq m'). split_and!; try done; try (unfold m'; simpl; lia).
  { unfold sl_base, m'. simpl. by rewrite Hv. }
  { rewrite Hlen'. simpl. lia. }
  intros x. assert (Hbytes : sl_bytes m' = sl_bytes m ++ sl_bytes t).
  { unfold sl_bytes at 1, raw_bytes, m'. simpl. rewrite Hv. simpl.
    replace (sl_bytes m) with (sl_mem m); [| symmetry; apply take_ge; unfold sl_mem, sl_len, blen in *; lia].
    unfold blen in *. rewrite take_app_ge by lia. f_equal. unfold sl_bytes, raw_bytes.
    fold (sl_mem t) (sl_len t). f_equal. lia. }
  pose proof (blen_sl_bytes m) as Hbl. unfold blen in Hbl. unfold slot_get. rewrite Hbytes. simpl.
  destruct (Z.leb_spec (slot_start m) x); [| destruct (Z.leb_spec (slot_start t) x); [lia | done]].
  destruct (Z.leb_spec (slot_start t) x).
  - rewrite lookup_app_r, (lookup_ge_None_2 (sl_bytes m)) by lia. f_equal. lia.
  - rewrite lookup_app_l by lia. by destruct (sl_bytes m !! _).
Qed.

(** The pair of slots [m] and [t] joined in its queue. *)
Lemma unsplit_between fin pre m t post m' :
  chain (pre ++ m :: t :: post) -> last_ok fin (pre ++ m :: t :: post) -> merged (t :: post) ->
  slot_wf m' -> slot_start m' = slot_start m -> slot_end_allocated m' = slot_end_allocated t ->
  sl_base m' = sl_base m -> sl_base m = sl_base t -> sl_len m' = sl_len m + sl_len t -> slot_end m' = slot_end t ->
  block (slot_start t) = block (slot_start m) -> block_end (slot_start t) = block_end (slot_start m) ->
  chain (pre ++ m' :: post) /\ last_ok fin (pre ++ m' :: post) /\ merged (m' :: post).
Proof.
  intros Hc Hl [Hm1 Hm2] Hwf Hs He Hb1 Hb2 Hlen Hend Hk1 Hk2. pose proof (sl_len_ok t).
  apply chain_app in Hc as (Hpre & (_ & _ & Ht & Hpost & Hcp) & Hj). unfold joined in Hj. simpl in Hj.
  split; [| split].
  - rewrite chain_app. split; [done |]. split; [split; [done |]; split; [| done] |].
    + destruct post as [| n post]; [done |]. eapply linked_left; [done | done | congruence | congruence | congruence].
    + unfold joined. simpl. destruct (last pre); [| done]. eapply linked_right; [done | done | done | lia].
  - unfold last_ok in *. destruct post as [| n post].
    + rewrite last_app_cons in Hl |- *. simpl in *. rewrite He, Hs, <- Hk2. done.
    + by rewrite last_app_cons in Hl |- *.
  - split; [| done]. unfold unmerged, slot_is_full in *. rewrite Hs, He, Hend.
    destruct (head post); [| done]. unfold block in Hk1. by rewrite Hk1 in Hm1.
Qed.

Definition same_slots (l l' : list (Slot B)) : Prop :=
  slot_start <$> head l' = slot_start <$> head l
  /\ (forall x, rx l' x = rx l x) /\ forall e, Forall (within e) l -> Forall (within e) l'.

Lemma same_slots_refl l : same_slots l l.
Proof. by split_and!. Qed.

Lemma same_slots_app k l l' : same_slots l l' -> same_slots (k ++ l) (k ++ l').
Proof.
  intros (Hh & Hx & Hin). split; [by destruct k |]. split; [intros x; by rewrite !rx_app, Hx |].
  intros e. rewrite !Forall_app. naive_solver.
Qed.

Lemma same_slots_trans l k m : same_slots l k -> same_slots k m -> same_slots l m.
Proof. intros (H1 & H2 & H3) (H4 & H5 & H6). split; [congruence |]. split; [congruence | auto]. Qed.

(** One round of [unsplit_range], at a slot and the rest of the queue. *)
Lemma unsplit_one fin n from_ pre m post :
  chain (pre ++ m :: post) -> last_ok fin (pre ++ m :: post) -> merged post ->
  from_ + Z.of_nat n = vlen pre ->
  exists post', unsplit_range (S n) from_ (pre ++ m :: post) = unsplit_range n from_ (pre ++ post')
    /\ chain (pre ++ post') /\ last_ok fin (pre ++ post') /\ merged post' /\ same_slots (m :: post) post'.
Proof.
  intros Hc Hl Hm Hn. cbn [unsplit_range]. rewrite Hn. unfold vindex at 1. rewrite vget_app. cbn [obind].
  destruct post as [| t post].
  { rewrite vget_end by (rewrite vlen_app; change (vlen [m]) with 1; lia). cbn [obind]. exists [m].
    split; [done |]. do 2 (split; [done |]). split; [split; [apply unmerged_None | done] | apply same_slots_refl]. }
  assert (Ea : pre ++ m :: t :: post = (pre ++ [m]) ++ t :: post) by by rewrite <- app_assoc.
  replace (vlen pre + 1) with (vlen (pre ++ [m])) by by rewrite vlen_app.
  rewrite Ea, vget_app, vremove_app. destruct (unmerged m (Some t)) eqn:Eu.
  2: { cbn [obind]. rewrite <- Ea. exists (m :: t :: post). split; [done |]. do 2 (split; [done |]).
       split; [by split | apply same_slots_refl]. }
  pose proof Hc as (_ & (Hwm & Hlk & Hwt & _) & _)%chain_app.
  destruct (unsplit_spec m t Hwm Hwt Hlk Eu)
    as (m' & Em & Hwf & Hs & He & Hb & Hlen & Hend & Hk1 & Hk2 & Hx).
  assert (Hbase : sl_base m = sl_base t) by (by destruct Hlk as (_ & Hlk & _); apply Hlk).
  rewrite <- app_assoc. simpl. unfold vindex. rewrite vget_app. cbn [obind]. rewrite Em. cbn [obind].
  rewrite vset_app. cbn [obind]. exists (m' :: post). split; [done |].
  destruct (unsplit_between fin pre m t post m') as (Hc' & Hl' & Hm'); try done.
  do 3 (split; [done |]). split; [simpl; by rewrite Hs |]. split.
  - intros x. simpl. rewrite Hx. by destruct (slot_get m x).
  - intros e. rewrite !Forall_cons. unfold within. rewrite Hs, Hend. naive_solver.
Qed.

Lemma unsplit_range_spec fin pre mid post :
  chain (pre ++ mid ++ post) -> last_ok fin (pre ++ mid ++ post) -> merged post ->
  exists l', unsplit_range (length mid) (vlen pre) (pre ++ mid ++ post) = Ret (pre ++ l')
    /\ chain (pre ++ l') /\ last_ok fin (pre ++ l') /\ merged l' /\ same_slots (mid ++ post) l'.
Proof.
  revert post. induction mid as [| m mid IH] using rev_ind; intros post Hc Hl Hm.
  { exists post. by split_and!. }
  rewrite <- !app_assoc in *. simpl in *. rewrite length_app, Nat.add_1_r. rewrite app_assoc in Hc, Hl |- *.
  destruct (unsplit_one fin (length mid) (vlen pre) (pre ++ mid) m post) as (post' & -> & Hc' & Hl' & Hm' & Hsame);
    [done | done | done | by rewrite vlen_app |].
  rewrite <- app_assoc in *. destruct (IH post') as (l' & -> & Hc2 & Hl2 & Hm2 & Hsame2); [done .. |].
  exists l'. do 4 (split; [done |]). eapply same_slots_trans; [| done]. by apply same_slots_app.
Qed.

(** ** The invariant of the queue *)

Definition cursors_ok (cur : Cursors) : Prop :=
  0 <= start_offset cur <= max_recv_offset cur
  /\ max_recv_offset cur <= MAX_VARINT_VALUE /\ max_recv_offset cur <= final_offset cur
  /\ (final_offset cur = UNKNOWN_FINAL_SIZE \/ final_offset cur <= MAX_VARINT_VALUE).

(** The first slot starts where reading has come to, or with its block. *)
Definition head_ok (cur : Cursors) (l : list (Slot B)) : Prop :=
  match head l with
  | Some s =>
      start_offset cur <= slot_start s
      /\ (slot_start s = start_offset cur
          \/ slot_start s = block (slot_start s) /\ slot_start s < max_recv_offset cur)
  | None => True
  end.

Definition bounded (mx : Z) (l : list (Slot B)) : Prop :=
  match l with
  | [] => True
  | s :: l => slot_end s <= mx /\ Forall (within mx) l
  end.

Definition queue_ok (cur : Cursors) (l : list (Slot B)) : Prop :=
  chain l /\ last_ok (final_offset cur) l /\ merged l /\ head_ok cur l
  /\ bounded (max_recv_offset cur) l.

Lemma bounded_within mx l : Forall (within mx) l -> bounded mx l.
Proof. intros H. by destruct H as [| s l [] H]. Qed.

Lemma bounded_app mx l k : bounded mx (l ++ k) <-> bounded mx l /\ match l with [] => bounded mx k | _ :: _ => Forall (within mx) k end.
Proof. destruct l as [| s l]; simpl; [tauto |]. rewrite Forall_app. tauto. Qed.

Lemma chain_starts lo l s : chain l -> from lo l -> s ∈ l -> lo <= slot_start s.
Proof.
  revert lo. induction l as [| t l IH]; intros lo Hc Hlo; [by intros ?%not_elem_of_nil |].
  intros [-> | Hs]%elem_of_cons; [done |]. pose proof (chain_from _ _ Hc) as Hf. destruct Hc as ((_ & ? & _) & _ & Hc).
  specialize (IH _ Hc Hf Hs). unfold from in Hlo. simpl in Hlo. lia.
Qed.

Lemma unmerged_start s t t' : slot_start t = slot_start t' -> unmerged s (Some t) = unmerged s (Some t').
Proof. unfold unmerged. by intros ->. Qed.

Lemma merged_join pre l l' :
  merged (pre ++ l) -> merged l' -> slot_start <$> head l' = slot_start <$> head l -> merged (pre ++ l').
Proof.
  rewrite !merged_app. intros (Hpre & _ & Hj) Hl' Hh. split_and!; try done.
  destruct (last pre); [| done]. destruct (head l'), (head l); try done.
  injection Hh as Hh. by rewrite (unmerged_start _ _ _ Hh).
Qed.

Lemma head_start_app {A} (f : A -> Z) pre l l' :
  f <$> head l' = f <$> head l -> f <$> head (pre ++ l') = f <$> head (pre ++ l).
Proof. by destruct pre. Qed.

Lemma head_ok_start cur l l' : slot_start <$> head l' = slot_start <$> head l -> head_ok cur l -> head_ok cur l'.
Proof.
  unfold head_ok. intros Hh. destruct (head l'), (head l); try done. injection Hh as Hh. by rewrite Hh.
Qed.

(** A part of the queue replaced by slots that start at the same place. *)
Lemma queue_ok_replace cur pre s post l :
  queue_ok cur (pre ++ s :: post) -> chain (pre ++ l) -> last_ok (final_offset cur) (pre ++ l) ->
  merged (pre ++ l) -> slot_start <$> head l = Some (slot_start s) ->
  Forall (within (max_recv_offset cur)) l -> queue_ok cur (pre ++ l).
Proof.
  intros (_ & _ & _ & Hh & Hb) Hc Hl Hm Hs Hin. split_and!; try done.
  - eapply head_ok_start, Hh. by apply head_start_app.
  - apply bounded_app in Hb as [Hpre _]. apply bounded_app. split; [done |].
    destruct pre; [by apply bounded_within | done].
Qed.

(** [write_reader_at] from the last slot that starts at or before the request. *)
Lemma write_at_queue alloc cur pre s post r :
  alloc_exact alloc -> queue_ok cur (pre ++ s :: post) -> pending cur r -> req_offset r < req_end r ->
  slot_start s <= req_offset r -> from (req_offset r) post ->
  exists l' r', write_reader_at alloc cur (pre ++ s :: post) r (vlen pre) = Ret (l', r')
    /\ queue_ok cur l'
    /\ forall x, rx l' x = match rx (pre ++ s :: post) x with Some b => Some b | None => req_get r x end.
Proof.
  intros Ha Hq Hp Hne Hs Hfr. pose proof Hq as (Hc & Hl & Hm & Hh & Hb).
  apply bounded_app in Hb as Hb'. destruct Hb' as [_ Hb'].
  assert (Hbs : slot_end s <= max_recv_offset cur /\ Forall (within (max_recv_offset cur)) post).
  { destruct pre; [naive_solver |]. apply Forall_cons in Hb' as [[] ?]. done. }
  assert (Hso : start_offset cur <= slot_start s).
  { apply (chain_starts _ (pre ++ s :: post)); [done | | apply elem_of_app; right; left]. unfold from, head_ok in *.
    destruct (head (pre ++ s :: post)); [lia | done]. }
  unfold write_reader_at. rewrite buffer_is_empty_spec. destruct (Z.leb_spec (req_end r) (req_offset r)); [lia |].
  cbn [rassert negb obind].
  destruct (write_slots_spec alloc Ha cur (S (length (pre ++ s :: post))) pre s post r false)
    as (mid & post' & fl & -> & ((used & Hu) & Hc1 & Hl1 & Hh1 & Hin1 & Hx1) & Hm1); try done; try lia.
  { rewrite length_app. simpl. lia. }
  { apply Hbs. }
  cbn [obind]. assert (Hin' : Forall (within (max_recv_offset cur)) (mid ++ post')).
  { apply Forall_app. split; [done |]. destruct used as [| ? used]; simpl in Hu; [| injection Hu as _ ->;
      by destruct Hbs as [_ [_ ?]%Forall_app]]. subst post'. constructor; [| apply Hbs].
    unfold pending in Hp. split; [lia | apply Hbs]. }
  assert (Hnil : slot_start <$> head (mid ++ post') = Some (slot_start s)) by (by destruct mid).
  assert (Hx' : forall l', (forall x, rx l' x = rx (mid ++ post') x) -> forall x, rx (pre ++ l') x
    = match rx (pre ++ s :: post) x with Some b => Some b | None => req_get r x end).
  { intros l' Hl' x. rewrite !rx_app, Hl', Hx1. by destruct (rx pre x). }
  destruct fl.
  - rewrite vlen_app, Z.add_simpl_l. unfold vlen at 1. rewrite Nat2Z.id.
    destruct (unsplit_range_spec (final_offset cur) pre mid post') as (l2 & -> & Hc2 & Hl2 & Hm2 & Hh2 & Hx2 & Hin2);
      [done | done | |].
    { apply merged_app in Hm as (_ & Hm & _). rewrite Hu in Hm. by apply merged_app in Hm as (_ & ? & _). }
    cbn [obind]. exists (pre ++ l2), (req_from r (req_end r)). split; [done |]. split; [| by apply Hx'].
    eapply queue_ok_replace; try done; [| by rewrite Hh2 | by apply Hin2].
    eapply merged_join; [exact Hm | done | by rewrite Hh2].
  - destruct (Hm1 eq_refl) as [_ Hm2]. exists (pre ++ mid ++ post'), (req_from r (req_end r)).
    split; [done |]. split; [| by apply Hx']. eapply queue_ok_replace; try done. auto.
Qed.
End Write.
