(* ===== verification/ReassemblerOps.v ===== *)
(** * The operations of the reassembler

    What a write, a read and a skip do to the stream a reassembler stands for,
    on every branch; none of them panics, and each keeps the invariant. *)
From S2P Require Import Prelude Codec VarInt ReassemblerSlot Reassembler ReassemblerSpec ReassemblerWrite.

Section Ops.
Context {B : Type} {HB : BytesMut B} {HS : BytesMutSpec B}.
Implicit Types s t u p : Slot B.

(** ** Selecting a slot *)

Lemma select_slot_app l k n o :
  (n <= length l)%nat -> select_slot (l ++ k) n o = select_slot (B := B) l n o.
Proof.
  induction n as [| n IH]; intros Hn; [done |]. cbn [select_slot].
  rewrite lookup_app_l by lia. rewrite IH by lia. done.
Qed.

(** The last slot at or before an offset, of a queue. *)
Lemma select_slot_spec (l : list (Slot B)) o :
  match select_slot l (length l) o with
  | Some i => exists pre s post, l = pre ++ s :: post /\ i = vlen pre /\ slot_start s <= o
      /\ Forall (fun t => o < slot_start t) post
  | None => Forall (fun t => o < slot_start t) l
  end.
Proof.
  induction l as [| s l IH] using rev_ind; [constructor |].
  rewrite length_app, Nat.add_1_r. cbn [select_slot]. rewrite list_lookup_middle by done.
  destruct (Z.leb_spec (slot_start s) o).
  - by exists l, s, [].
  - rewrite select_slot_app by lia. destruct (select_slot l (length l) o) as [i |].
    + destruct IH as (pre & t & post & -> & -> & Ht & Hpost). exists pre, t, (post ++ [s]).
      rewrite <- app_assoc. split_and!; try done. by apply Forall_app; repeat constructor.
    + by apply Forall_app; repeat constructor.
Qed.

Lemma from_Forall o (l : list (Slot B)) : Forall (fun t => o < slot_start t) l -> from o l.
Proof. intros H. destruct H; [done |]. unfold from. simpl. lia. Qed.

(** ** The write *)

(** A slot in front of the queue. *)
Lemma front_spec alloc cur l r :
  alloc_exact alloc -> queue_ok cur l -> pending cur r -> req_offset r < req_end r ->
  Forall (fun t => req_offset r < slot_start t) l ->
  exists u s' f o fl, allocate_slot alloc cur r = Ret u
    /\ slot_try_write_reader u r true = Ret (s', f, req_from r o, fl)
    /\ let new := s' :: option_list f in
       queue_ok cur (new ++ l) /\ req_offset r <= o <= req_end r
       /\ (forall x, rx (new ++ l) x = match rx l x with Some b => Some b | None => if x <? o then req_get r x else None end)
       /\ (forall v, last new = Some v -> slot_start v <= o)
       /\ from o l.
Proof.
  intros Ha (Hc & Hl & Hm & Hh & Hb) Hp Hne Hfar. pose proof Hp as (Hp1 & Hp2 & Hp3 & Hp4).
  destruct (allocate_spec alloc Ha cur r) as (u & Eu & Hu); [lia .. |].
  pose proof Hu as (Hwf & Hlen & Hst & Hou & Hend & Hbu & Hbe).
  destruct (try_write_spec u r true) as (s' & f & r' & fl & Ew & Hw & _);
    [done | lia | lia | apply slot_wf_end; [done | lia] |].
  destruct (wrote_fresh cur r u s' f r') as (Hcn & Hmn & Hin & Hr' & Hx); [lia | done | done | done |].
  exists u, s', f, (Z.min (req_end r) (slot_end_allocated u)), fl. rewrite <- Hr'. split; [done |]. split; [done |].
  set (o := Z.min (req_end r) (slot_end_allocated u)) in *. cbv zeta.
  assert (Hroom : room cur (req_offset r) [] l).
  { split; [done |]. unfold head_ok in Hh. destruct l as [| t l]; [done |]. simpl in *.
    apply Forall_cons in Hfar as [Hfar _]. lia. }
  destruct (fresh_between cur r u s' f r' [] l) as (Hc' & Hl' & Hm'); [lia | lia | done .. |].
  simpl app in Hc', Hl', Hm'. destruct (wrote_last u r s' f r' Hwf Hw) as (v & Hv & Hev & Hsv & _).
  assert (Hfr : from (slot_end_allocated u) l).
  { apply (chain_app (s' :: option_list f)) in Hc' as (_ & _ & Hj). unfold joined in Hj. rewrite Hv in Hj.
    unfold from. destruct (head l); [| done]. destruct Hj as [? _]. lia. }
  assert (Hfr' : from o l) by (unfold from in *; destruct (head l); [lia | done]).
  split_and!; try done; try lia.
  - split_and!; try done; [by apply Hm' | |].
    + unfold head_ok. simpl. destruct Hw as (_ & _ & -> & _). split; [lia |].
      destruct (Z.eq_dec (slot_start u) (start_offset cur)); [by left | right].
      split; [rewrite Hbu; lia | lia].
    + change (bounded (max_recv_offset cur) ((s' :: option_list f) ++ l)).
      apply Forall_cons in Hin as [[_ Hs'] Hf']. split; [lia |].
      apply Forall_app. split; [eapply Forall_impl; [exact Hf' |]; intros w []; split; lia |].
      unfold head_ok, bounded in *. destruct l as [| t l]; [constructor |]. simpl in *.
      apply Forall_cons in Hfar as [Hfar _]. constructor; [split; lia | apply Hb].
  - intros x. change (s' :: option_list f ++ l) with ((s' :: option_list f) ++ l). rewrite rx_app, Hx.
    destruct (Z.ltb_spec x o); [rewrite (rx_below l o x); [by destruct (req_get r x) | done ..] |].
    by destruct (rx l x).
  - intros w Ew'. rewrite Hv in Ew'. injection Ew' as <-. apply last_Some_elem_of in Hv.
    rewrite Forall_forall in Hin. destruct (Hin v Hv). lia.
Qed.

Lemma write_reader_impl_spec alloc cur l r :
  alloc_exact alloc -> queue_ok cur l -> pending cur r ->
  exists l' r', write_reader_impl alloc cur l r = Ret (l', r') /\ queue_ok cur l'
    /\ forall x, rx l' x = match rx l x with Some b => Some b | None => req_get r x end.
Proof.
  intros Ha Hq Hp. unfold write_reader_impl. rewrite buffer_is_empty_spec.
  destruct (Z.leb_spec (req_end r) (req_offset r)) as [Hem | Hne].
  { destruct (RequestOps.read_chunk r 0) as [c r']. exists l, r'. split_and!; try done. intros x.
    destruct (rx l x); [done |]. symmetry. apply req_get_None. lia. }
  pose proof (select_slot_spec l (req_offset r)) as Hsel. unfold RequestOps.current_offset.
  destruct (select_slot l (length l) (req_offset r)) as [i |].
  { destruct Hsel as (pre & s & post & -> & -> & Hs & Hpost).
    apply write_at_queue; try done. by apply from_Forall. }
  destruct (front_spec alloc cur l r) as (u & s' & f & o & fl & -> & Hrest); try done. cbn [obind].
  destruct Hrest as (-> & Hq' & Ho & Hx & Hlast & Hfr). cbn [obind].
  assert (Hfin : forall l' x, (forall x, rx l' x = match rx ((s' :: option_list f) ++ l) x with
      Some b => Some b | None => req_get (req_from r o) x end) ->
    rx l' x = match rx l x with Some b => Some b | None => req_get r x end).
  { intros l' x Hl'. rewrite Hl', Hx, req_get_from by lia. destruct (rx l x); [done |].
    destruct (x <? o); [by destruct (req_get r x) | done]. }
  assert (Hp' : pending cur (req_from r o)) by (apply pending_from; [done | lia]).
  destruct f as [f |]; simpl option_list in *; cbv zeta beta iota; rewrite buffer_is_empty_spec, req_end_from by lia;
    simpl req_offset; destruct (Z.leb_spec (req_end r) o) as [Hd | Hd].
  1, 3: eexists _, _; split; [reflexivity |]; split; [done |]; intros x; apply Hfin; intros y;
    destruct (rx _ y); [done |]; symmetry; apply req_get_None; rewrite req_end_from by lia; simpl; lia.
  - destruct (write_at_queue alloc cur [s'] f l (req_from r o)) as (l' & r' & E & Hq2 & Hx2); try done.
    { rewrite req_end_from by lia. simpl. lia. }
    { by apply Hlast. }
    change (vlen [s']) with 1 in E. simpl app in E. rewrite E. exists l', r'. split_and!; try done.
    intros x. apply Hfin. apply Hx2.
  - destruct (write_at_queue alloc cur [] s' l (req_from r o)) as (l' & r' & E & Hq2 & Hx2); try done.
    { rewrite req_end_from by lia. simpl. lia. }
    { by apply Hlast. }
    change (vlen []) with 0 in E. simpl app in E. rewrite E. exists l', r'. split_and!; try done.
    intros x. apply Hfin. apply Hx2.
Qed.

(** ** The assertions of the queue *)

Lemma blen_as_slice (b : B) : blen (b_as_slice b) = b_len b.
Proof.
  rewrite b_as_slice_spec, b_len_spec. apply (blen_mem_take _ (raw_mem (b_view b))), b_view_ok.
Qed.

Definition total (chunks : list (list Z)) : Z := fold_left (fun bytes chunk => bytes + blen chunk) chunks 0.

Lemma total_from l n : fold_left (fun bytes (chunk : list Z) => bytes + blen chunk) l n = n + total l.
Proof.
  unfold total. revert n. induction l as [| c l IH]; intros n; simpl; [lia |].
  rewrite IH, (IH (0 + blen c)). lia.
Qed.

Lemma total_cons c l : total (c :: l) = blen c + total l.
Proof. unfold total at 1. simpl. rewrite total_from. lia. Qed.

Lemma total_nonneg l : 0 <= total l.
Proof. induction l as [| c l IH]; [done |]. rewrite total_cons. pose proof (blen_nonneg c). lia. Qed.

Lemma slot_is_occupied_spec s o :
  slot_is_occupied s o = true <-> 0 < sl_len s /\ slot_start s = o.
Proof.
  unfold slot_is_occupied, slot_is_empty. rewrite b_len_spec, andb_true_iff, negb_true_iff, Z.eqb_neq, Z.eqb_eq.
  pose proof (sl_len_ok s). unfold sl_len in *. lia.
Qed.

(** The end of the contiguous data is what the chunks add up to. *)
Lemma received_end_total (l : list (Slot B)) o : received_end l o = o + total (iter_chunks l o).
Proof.
  revert o. induction l as [| s l IH]; intros o; simpl; [by rewrite Z.add_0_r |].
  destruct (slot_is_occupied s o) eqn:E; [| by rewrite Z.add_0_r].
  apply slot_is_occupied_spec in E as [_ <-]. rewrite total_cons, IH, blen_as_slice, b_len_spec, slot_end_eq.
  unfold sl_len. lia.
Qed.

Lemma received_end_bound (l : list (Slot B)) o mx :
  o <= mx -> Forall (fun s => slot_end s <= mx) l -> o <= received_end l o <= mx.
Proof.
  intros Ho Hl. split; [rewrite received_end_total; pose proof (total_nonneg (iter_chunks l o)); lia |].
  revert o Ho. induction Hl as [| s l Hs Hl IH]; intros o Ho; simpl; [done |].
  destruct (slot_is_occupied s o); [by apply IH | done].
Qed.

Lemma bounded_ends mx (l : list (Slot B)) : bounded mx l -> Forall (fun s => slot_end s <= mx) l.
Proof.
  destruct l as [| s l]; [constructor |]. intros [Hs Hl]. constructor; [done |].
  eapply Forall_impl; [exact Hl |]. by intros t [].
Qed.

Lemma check_slots_ok (l : list (Slot B)) prev :
  chain l -> merged l -> from prev l -> check_slots l prev = Ret tt.
Proof.
  revert prev. induction l as [| s l IH]; intros prev Hc Hm Hf; [done |]. cbn [check_slots].
  destruct Hm as [Hm1 Hm2].
  pose proof (chain_from _ _ Hc) as Hf'. destruct Hc as ((_ & Hs & _) & _ & Hc). unfold from in Hf. simpl in Hf.
  destruct (Z.leb_spec prev (slot_start s)); [| lia]. cbn [rassert obind]. unfold slot_should_drop.
  destruct (Z.eqb_spec (slot_start s) (slot_end_allocated s)); [lia |]. cbn [rassert obind negb].
  rewrite Hm1. cbn [rassert obind negb]. by apply IH.
Qed.

Definition ra_ok (st : Reassembler B) : Prop := cursors_ok (cursors st) /\ queue_ok (cursors st) (slots st).

Lemma head_ok_from cur (l : list (Slot B)) : head_ok cur l -> from (start_offset cur) l.
Proof. unfold head_ok, from. destruct (head l); [lia | done]. Qed.

(** The assertions of [invariants] hold. *)
Lemma invariants_ok st : ra_ok st -> invariants st = Ret tt.
Proof.
  destruct st as [l cur]. intros [(Hc1 & Hc2 & _) (Hc & _ & Hm & Hh & Hb)]. simpl in *.
  unfold invariants, ra_len, report, total_received_len, consumed_len, ra_is_empty, ra_iter. simpl.
  change (fold_left _ ?c 0) with (total c). pose proof (received_end_total l (start_offset cur)) as Ht.
  pose proof (received_end_bound l (start_offset cur) (max_recv_offset cur) ltac:(lia) (bounded_ends _ _ Hb)) as Hr.
  unfold MAX_VARINT_VALUE in *. rewrite add_c_Ret by lia. cbn [obind]. rewrite Ht, Z.eqb_refl. cbn [rassert obind].
  assert (He : (total (iter_chunks l (start_offset cur)) =? 0)
    = match l with slot :: _ => negb (slot_is_occupied slot (start_offset cur)) | [] => true end).
  { destruct l as [| s l]; [done |]. simpl. destruct (slot_is_occupied s (start_offset cur)) eqn:E; [| done].
    apply slot_is_occupied_spec in E as [Hp _]. rewrite total_cons, blen_as_slice, b_len_spec.
    pose proof (total_nonneg (iter_chunks l (slot_end s))). unfold sl_len in Hp. simpl. zcases. }
  rewrite He, eqb_reflx. cbn [rassert obind]. rewrite Z.eqb_refl. cbn [rassert obind].
  apply check_slots_ok; [done | done | by apply head_ok_from].
Qed.

(** ** Writing *)

Lemma checked_add_usize_spec o n :
  0 <= o -> 0 <= n -> VarInt.checked_add_usize o n = if MAX_VARINT_VALUE <? o + n then None else Some (o + n).
Proof.
  intros Ho Hn. unfold VarInt.checked_add_usize, VarInt.new, VarInt.checked_add, checked_add, VarInt.new, MAX_VARINT_VALUE.
  zcases; cbn [VarInt.ok]; zcases; done.
Qed.

Lemma add_usize_spec o n :
  0 <= o -> 0 <= n -> VarInt.add_usize o n = if MAX_VARINT_VALUE <? o + n then Panic else Ret (o + n).
Proof.
  intros Ho Hn. transitivity (unwrap (VarInt.checked_add_usize o n)).
  - unfold VarInt.add_usize, VarInt.checked_add_usize. by destruct (VarInt.ok (VarInt.new n)).
  - rewrite checked_add_usize_spec by done. by destruct (_ <? _).
Qed.

(** The final size after a write that ends at [e], by the rules of the
    protocol: it never changes, and data never goes beyond it. *)
Definition final_after (cur : Cursors) (e : Z) (is_fin : bool) : result Z BufferError :=
  if MAX_VARINT_VALUE <? e then Err OutOfRange else
  match CursorsOps.final_size cur, is_fin with
  | Some f, true => if e =? f then Ok f else Err InvalidFin
  | Some f, false => if e <=? f then Ok f else Err InvalidFin
  | None, true => if max_recv_offset cur <=? e then Ok e else Err InvalidFin
  | None, false => Ok UNKNOWN_FINAL_SIZE
  end.

Lemma check_reader_fin_spec cur r :
  0 <= req_offset r -> req_end r <= MAX_VARINT_VALUE ->
  check_reader_fin cur r
  = Ret (match final_after cur (req_end r) (req_is_fin r) with
         | Ok f => Ok (mk_cursors (start_offset cur) (Z.max (max_recv_offset cur) (req_end r)) f)
         | Err e => Err e
         end).
Proof.
  intros Hr He. pose proof (blen_nonneg (req_data r)) as Hl. unfold check_reader_fin, RequestOps.final_offset.
  unfold RequestOps.current_offset, RequestOps.buffered_len, VarInt.add_usize, final_after, req_end in *.
  rewrite checked_add_usize_spec by lia.
  destruct (Z.ltb_spec MAX_VARINT_VALUE (req_offset r + blen (req_data r))); [lia |].
  assert (VarInt.new (blen (req_data r)) = Ok (blen (req_data r))) as ->
    by (unfold VarInt.new, MAX_VARINT_VALUE in *; zcases; done).
  cbn [VarInt.ok unwrap obind].
  assert (VarInt.checked_add (req_offset r) (blen (req_data r)) = Some (req_offset r + blen (req_data r))) as ->
    by (unfold VarInt.checked_add, checked_add, VarInt.new, MAX_VARINT_VALUE in *; zcases; cbn; zcases; done).
  unfold CursorsOps.final_size. destruct (Z.eqb_spec (final_offset cur) UNKNOWN_FINAL_SIZE) as [-> |];
    destruct (req_is_fin r); cbn [VarInt.ok unwrap obind orbind]; try done.
  - by destruct (max_recv_offset cur <=? _).
  - by destruct (_ =? final_offset cur).
  - by destruct (_ <=? final_offset cur).
Qed.

Lemma final_after_ok cur e is_fin f :
  cursors_ok cur -> 0 <= e -> final_after cur e is_fin = Ok f ->
  cursors_ok (mk_cursors (start_offset cur) (Z.max (max_recv_offset cur) e) f)
  /\ (f = final_offset cur \/ final_offset cur = UNKNOWN_FINAL_SIZE).
Proof.
  intros (H1 & H2 & H3 & H4) He. unfold final_after, CursorsOps.final_size, cursors_ok. simpl.
  destruct (Z.ltb_spec MAX_VARINT_VALUE e); [done |].
  assert (MAX_VARINT_VALUE < UNKNOWN_FINAL_SIZE) by done.
  destruct (Z.eqb_spec (final_offset cur) UNKNOWN_FINAL_SIZE), is_fin; zcases; intros [= <-]; split_and!; lia.
Qed.

(** The queue is not touched when the cursors advance. *)
Lemma queue_ok_cursors cur mx f (l : list (Slot B)) :
  queue_ok cur l -> cursors_ok cur -> max_recv_offset cur <= mx ->
  f = final_offset cur \/ final_offset cur = UNKNOWN_FINAL_SIZE ->
  queue_ok (mk_cursors (start_offset cur) mx f) l.
Proof.
  intros (Hc & Hl & Hm & Hh & Hb) (Hc1 & Hc2 & Hc3 & Hc4) Hmx Hf. unfold queue_ok. simpl. split_and!; try done.
  - unfold last_ok in *. destruct (last l) as [s |] eqn:El; [| done]. destruct Hl as [| Hl]; [by left |].
    destruct Hf as [-> | Hf]; [by right |]. exfalso.
    assert (Hs : s ∈ l) by by apply last_Some_elem_of. pose proof (chain_wf l s Hc Hs) as Hwf.
    assert (slot_start s <= MAX_VARINT_VALUE).
    { destruct l as [| t l]; [by apply not_elem_of_nil in Hs |]. destruct Hb as [_ Hb].
      apply elem_of_cons in Hs as [-> | Hs].
      - unfold head_ok in Hh. simpl in Hh. lia.
      - rewrite Forall_forall in Hb. destruct (Hb s Hs). lia. }
    pose proof (slot_wf_end s Hwf ltac:(done)). unfold UNKNOWN_FINAL_SIZE in Hf. lia.
  - unfold head_ok in *. simpl. destruct (head l); [lia | done].
  - destruct l as [| s l]; [done |]. destruct Hb as [Hb1 Hb2]. split; [lia |].
    eapply Forall_impl; [exact Hb2 |]. intros t []. split; lia.
Qed.

(** The byte of the stream at an offset, as far as it has arrived and has not
    been read. *)
Definition ra_get (st : Reassembler B) (x : Z) : option Z := rx (slots st) x.

Lemma write_reader_spec alloc st r :
  alloc_exact alloc -> ra_ok st -> 0 <= req_offset r -> req_end r <= MAX_VARINT_VALUE ->
  let so := start_offset (cursors st) in
  exists st',
    write_reader alloc st r
      = Ret (match final_after (cursors st) (req_end r) (req_is_fin r) with Ok _ => Ok tt | Err e => Err e end, st')
    /\ ra_ok st'
    /\ match final_after (cursors st) (req_end r) (req_is_fin r) with
       | Err _ => st' = st
       | Ok f =>
           cursors st' = mk_cursors so (Z.max (max_recv_offset (cursors st)) (req_end r)) f
           /\ forall x, ra_get st' x = match ra_get st x with
                                      | Some b => Some b
                                      | None => if x <? so then None else req_get r x
                                      end
       end.
Proof.
  intros Ha [Hcur Hq] Hr He. cbv zeta. set (so := start_offset (cursors st)).
  pose proof (blen_nonneg (req_data r)). assert (req_offset r <= req_end r) by (unfold req_end; lia).
  pose proof Hcur as (Hc1 & Hc2 & Hc3 & _). unfold write_reader. unfold MAX_VARINT_VALUE in He, Hc2.
  rewrite skip_until_spec by (fold so; lia). fold so. set (o := Z.max (req_offset r) (Z.min so (req_end r))).
  rewrite check_reader_fin_spec by (rewrite ?req_end_from by lia; simpl; unfold MAX_VARINT_VALUE; lia).
  rewrite req_end_from by lia. simpl req_is_fin.
  destruct (final_after (cursors st) (req_end r) (req_is_fin r)) as [f | e] eqn:Ef; cbn [obind].
  2: { exists st. split; [done |]. split; [by split | done]. }
  destruct (final_after_ok (cursors st) (req_end r) (req_is_fin r) f Hcur ltac:(lia) Ef) as [Hcur' Hf].
  set (cur' := mk_cursors (start_offset (cursors st)) (Z.max (max_recv_offset (cursors st)) (req_end r)) f) in *.
  assert (Hq' : queue_ok cur' (slots st)) by (apply queue_ok_cursors; [done | done | lia | done]).
  assert (Hget : forall x, (if x <? so then None else req_get r x) = req_get (req_from r o) x).
  { intros x. rewrite req_get_from by lia. destruct (Z.ltb_spec x so), (Z.ltb_spec x o); try done; try lia.
    - symmetry. apply req_get_None. lia.
    - apply req_get_None. lia. }
  assert (Himpl : exists l' r', write_reader_impl alloc cur' (slots st) (req_from r o) = Ret (l', r') /\ queue_ok cur' l'
    /\ forall x, rx l' x = match rx (slots st) x with Some b => Some b | None => req_get (req_from r o) x end).
  { destruct (Z.le_gt_cases so o) as [Hso | Hso].
    - apply write_reader_impl_spec; [done | done |]. unfold pending. rewrite req_end_from by lia. simpl.
      fold so. unfold cursors_ok in Hcur'. simpl in Hcur'. lia.
    - assert (Hem : req_end (req_from r o) <= req_offset (req_from r o)) by (rewrite req_end_from by lia; simpl; lia).
      unfold write_reader_impl. rewrite buffer_is_empty_spec, (proj2 (Z.leb_le _ _) Hem).
      destruct (RequestOps.read_chunk (req_from r o) 0) as [c r']. exists (slots st), r'. split_and!; try done.
      intros x. destruct (rx (slots st) x); [done |]. symmetry. apply req_get_None. lia. }
  destruct Himpl as (l' & r' & -> & Hql & Hx). cbn [obind].
  assert (Hok : ra_ok (mk_ra l' cur')) by by split. rewrite invariants_ok by done. cbn [obind].
  eexists. split; [reflexivity |]. split; [done |]. split; [done |]. intros x. rewrite Hget. apply Hx.
Qed.
End Ops.
