(* ===== verification/ReassemblerRead.v ===== *)
(** * Reading from the reassembler

    Reading hands out the bytes at the front of the stream, in order, and
    skipping drops them; neither panics, and both keep the invariant. *)
From S2P Require Import Prelude Codec VarInt ReassemblerSlot Reassembler ReassemblerSpec ReassemblerWrite.
From S2P Require Import ReassemblerOps.

Section Read.
Context {B : Type} {HB : BytesMut B} {HS : BytesMutSpec B}.
Implicit Types s t u p : Slot B.

(** ** Slots *)

(** The slot [s] without its first [n] bytes. *)
Definition advanced s (n : Z) s1 : Prop :=
  slot_start s1 = slot_start s + n /\ slot_end_allocated s1 = slot_end_allocated s
  /\ slot_start s1 <= slot_end_allocated s1
  /\ blen (sl_mem s1) = slot_end_allocated s1 - slot_start s1
  /\ sl_bytes s1 = drop (Z.to_nat n) (sl_bytes s)
  /\ (slot_start s1 < slot_end_allocated s1 -> sl_base s1 = sl_base s).

Lemma drop_take_mem n len (mem : list Z) :
  0 <= n <= len -> take (Z.to_nat (len - n)) (mem_drop n mem) = drop (Z.to_nat n) (take (Z.to_nat len) mem).
Proof. intros H. unfold mem_drop. rewrite take_drop_commute. do 2 f_equal. lia. Qed.

Lemma b_new_bytes : b_len (B := B) b_new = 0 /\ raw_bytes (b_view (B := B) b_new) = [].
Proof. rewrite b_len_spec. destruct b_new_spec as [H ->]. unfold raw_bytes. by rewrite H, take_nil. Qed.

(** The part of a slot's buffer behind its first [n] bytes. *)
Lemma advanced_drop s n data :
  slot_wf s -> 0 <= n <= sl_len s ->
  b_view data = mk_raw (mem_drop n (sl_mem s)) (sl_len s - n) (raw_addr (b_view (slot_data s)) + n) (raw_arena (b_view (slot_data s))) ->
  advanced s n (mk_slot (slot_start s + n) (slot_end_allocated s) data).
Proof.
  intros (H1 & H2 & H3) Hn Hv. pose proof (sl_len_ok s). unfold advanced, sl_base, sl_bytes, raw_bytes.
  unfold sl_mem at 1. simpl. rewrite Hv. simpl. rewrite blen_mem_drop by lia. split_and!; try lia; try (intros; f_equal; lia).
  apply (drop_take_mem n (sl_len s)). lia.
Qed.

(** A slot whose buffer was taken as a whole. *)
Lemma advanced_all s :
  slot_wf s -> sl_len s = blen (sl_mem s) ->
  advanced s (sl_len s) (mk_slot (slot_start s + sl_len s) (slot_end_allocated s) b_new).
Proof.
  intros (H1 & H2 & H3) Hn. unfold advanced. unfold sl_mem at 1, sl_bytes at 1. simpl.
  destruct b_new_bytes as [_ ->]. destruct b_new_spec as [-> _]. split_and!; try lia; [done .. | |].
  - change (blen []) with 0. lia.
  - symmetry. apply drop_ge. pose proof (blen_sl_bytes s). unfold blen in *. lia.
Qed.

Lemma bytes_read_chunk_spec s n :
  slot_wf s -> 0 < n <= sl_len s ->
  exists data chunk, bytes_read_chunk (slot_data s) n = Ret (data, chunk)
    /\ advanced s n (mk_slot (slot_start s + n) (slot_end_allocated s) data)
    /\ b_as_slice chunk = take (Z.to_nat n) (sl_bytes s) /\ b_len chunk = n.
Proof.
  intros Hwf Hn. pose proof (sl_len_ok s). unfold bytes_read_chunk. rewrite b_len_spec, b_capacity_spec.
  fold (sl_len s) (sl_mem s). rewrite Z.min_r by lia. destruct (Z.ltb_spec 0 n); [| lia]. cbn [negb]. cbv iota.
  destruct (Z.eqb_spec (blen (sl_mem s)) n) as [E |].
  - exists b_new, (slot_data s). split; [done |]. replace n with (sl_len s) by lia.
    split; [apply advanced_all; [done | lia] |]. rewrite b_as_slice_spec, b_len_spec. split; [| done].
    rewrite take_ge; [done |]. pose proof (blen_sl_bytes s). unfold blen in *. lia.
  - destruct (b_split_to_spec (slot_data s) n) as (d & c & E & Hd & Hc); [fold (sl_len s); lia |].
    exists d, c. split; [done |]. split; [by apply advanced_drop; [| lia |] |].
    rewrite b_as_slice_spec, b_len_spec, Hc. split; [| done]. unfold raw_bytes. simpl. unfold mem_take.
    rewrite take_take. unfold sl_bytes, raw_bytes. rewrite take_take. fold (sl_len s). f_equal. lia.
Qed.

Lemma blen_take_bytes s n : 0 <= n <= sl_len s -> blen (take (Z.to_nat n) (sl_bytes s)) = n.
Proof. intros Hn. pose proof (blen_sl_bytes s). unfold blen in *. rewrite length_take. lia. Qed.

Lemma slot_read_chunk_spec s w :
  slot_wf s -> 0 < sl_len s -> 0 < w -> slot_start s <= MAX_VARINT_VALUE ->
  let n := Z.min (sl_len s) w in
  exists s1 chunk, slot_read_chunk s w = Ret (s1, chunk) /\ advanced s n s1
    /\ b_as_slice chunk = take (Z.to_nat n) (sl_bytes s) /\ b_len chunk = n.
Proof.
  intros Hwf Hl Hw Hs. cbv zeta. set (n := Z.min (sl_len s) w).
  destruct (bytes_read_chunk_spec s n Hwf ltac:(lia)) as (d & c & E & Had & Hc & Hn).
  assert (E' : bytes_read_chunk (slot_data s) w = bytes_read_chunk (slot_data s) n).
  { unfold bytes_read_chunk. rewrite b_len_spec. fold (sl_len s). by replace (Z.min (sl_len s) n) with (Z.min (sl_len s) w) by lia. }
  unfold slot_read_chunk. rewrite E', E. cbn [obind]. rewrite Hn. pose proof (sl_len_ok s).
  pose proof (slot_wf_end s Hwf Hs). destruct Hwf as (_ & ? & ?). rewrite add_c_Ret by lia. cbn [obind].
  by eexists _, _.
Qed.

Lemma slot_copy_into_spec s w :
  slot_wf s -> 0 < sl_len s -> 0 < w -> slot_start s <= MAX_VARINT_VALUE ->
  let n := Z.min (sl_len s) w in
  exists s1, slot_copy_into s w = Ret (s1, take (Z.to_nat n) (sl_bytes s)) /\ advanced s n s1.
Proof.
  intros Hwf Hl Hw Hs. cbv zeta. set (n := Z.min (sl_len s) w).
  assert (E : exists data, bytes_copy_into (slot_data s) w = Ret (data, take (Z.to_nat n) (sl_bytes s))
    /\ advanced s n (mk_slot (slot_start s + n) (slot_end_allocated s) data)).
  { unfold bytes_copy_into. rewrite b_len_spec, b_as_slice_spec. fold (sl_len s) (sl_bytes s). fold n.
    destruct (Z.eqb_spec n (sl_len s)).
    - destruct (bytes_read_chunk_spec s n Hwf ltac:(lia)) as (d & c & -> & Had & Hc & _). cbn [obind].
      exists d. by rewrite Hc.
    - destruct (b_advance_spec (slot_data s) n) as (d & -> & Hd); [fold (sl_len s); lia |]. cbn [obind].
      exists d. split; [done |]. apply advanced_drop; [done | lia | done]. }
  destruct E as (d & E & Had). unfold slot_copy_into. rewrite E. cbn [obind].
  rewrite blen_take_bytes by lia. pose proof (sl_len_ok s). pose proof (slot_wf_end s Hwf Hs).
  pose proof Hwf as (H1 & H2 & H3). rewrite add_c_Ret by lia. cbn [obind]. pose proof (block_bounds (slot_start s) H1).
  pose proof Had as (_ & _ & Hle & Hm & _). simpl in Hle.
  rewrite slot_invariants_ok; [cbn [obind]; eauto | simpl; lia | exact Hm].
Qed.

(** ** The queue *)

Lemma advanced_len s n s1 : 0 <= n -> advanced s n s1 -> sl_len s1 = Z.max 0 (sl_len s - n).
Proof.
  intros Hn (_ & _ & _ & _ & Hb & _). pose proof (blen_sl_bytes s) as H1. pose proof (blen_sl_bytes s1) as H2.
  rewrite Hb in H2. unfold blen in *. rewrite length_drop in H2. lia.
Qed.

Lemma advanced_get s n s1 x :
  0 <= n -> advanced s n s1 -> slot_get s1 x = if x <? slot_start s + n then None else slot_get s x.
Proof.
  intros Hn (Hs & _ & _ & _ & Hb & _). unfold slot_get. rewrite Hs, Hb.
  destruct (Z.ltb_spec x (slot_start s + n)), (Z.leb_spec (slot_start s + n) x), (Z.leb_spec (slot_start s) x);
    try lia; [done .. |]. rewrite lookup_drop. f_equal. lia.
Qed.

(** The queue without the bytes below an offset. *)
Definition dropped (l : list (Slot B)) (o : Z) (l' : list (Slot B)) : Prop :=
  forall x, rx l' x = if x <? o then None else rx l x.

Lemma rx_from l lo : chain l -> from lo l -> dropped l lo l.
Proof.
  intros Hc Hf x. destruct (Z.ltb_spec x lo); [| done]. by apply (rx_below l lo).
Qed.

(** The first slot, moved ahead or gone. *)
Lemma advanced_queue fin mx mx' s l n s1 :
  chain (s :: l) -> last_ok fin (s :: l) -> merged (s :: l) -> bounded mx (s :: l) ->
  0 <= n -> advanced s n s1 -> mx <= mx' -> slot_start s + n <= mx' ->
  let l' := if slot_should_drop s1 then l else s1 :: l in
  queue_ok (mk_cursors (slot_start s + n) mx' fin) l' /\ dropped (s :: l) (slot_start s + n) l'.
Proof.
  intros Hc Hl [Hm1 Hm2] [Hb1 Hb2] Hn Had Hmx Hso. cbv zeta.
  pose proof (chain_from _ _ Hc) as Hfr. pose proof Hc as (Hwf & Hlk & Hcl).
  pose proof (advanced_len s n s1 Hn Had) as Hlen. pose proof Had as (Hs1 & He1 & Hle & Hmem & Hby & Hbase).
  pose proof (slot_end_eq s) as Hes. pose proof (slot_end_eq s1) as Hes1. pose proof (sl_len_ok s).
  pose proof Hwf as (Hw1 & Hw2 & Hw3).
  assert (Hin : Forall (within mx') l) by (eapply Forall_impl; [exact Hb2 |]; intros t []; split; lia).
  unfold slot_should_drop. destruct (Z.eqb_spec (slot_start s1) (slot_end_allocated s1)) as [Ed | Ed].
  - split; [split; [done |]; split; [unfold last_ok in *; by destruct l |]; split; [done |];
      split; [| by apply bounded_within] |].
    + unfold head_ok. destruct l as [| t l]; [done |]. simpl. destruct Hlk as (Hlk1 & Hlk2 & Hlk3).
      apply Forall_cons in Hin as [[Ht _] _]. split; [lia |].
      destruct (Z.eq_dec (block (slot_start s)) (block (slot_start t))) as [Eb | Eb];
        [left; destruct (Hlk2 Eb); lia | right; by destruct (Hlk3 Eb)].
    + intros x. simpl. destruct (Z.ltb_spec x (slot_start s + n)).
      * apply (rx_below l (slot_end_allocated s)); [done | done | lia].
      * assert (slot_get s x = None) as ->; [apply slot_get_None; lia | done].
  - destruct (slot_wf_block s (slot_start s1) Hwf ltac:(lia)) as [Hk1 Hk2].
    assert (Hwf1 : slot_wf s1) by (unfold slot_wf; rewrite Hk2; lia). split.
    + split; [split; [done |]; split; [| done] |].
      { destruct l as [| t l]; [done |]. eapply linked_left; eauto. apply Hbase. lia. }
      split. { unfold last_ok in *. destruct l; [| done]. simpl in *. by rewrite He1, Hk2. }
      split. { split; [| done]. destruct (head l) as [t |]; [| apply unmerged_None]. apply unmerged_false.
               unfold slot_is_full. rewrite Z.eqb_eq, Hk1. intros Hf Hbk Ht. apply not_true_iff_false in Hm1.
               apply Hm1, unmerged_spec. unfold slot_is_full. rewrite Z.eqb_eq. lia. }
      split; [unfold head_ok; simpl; lia | simpl; split; [lia | done]].
    + intros x. simpl. rewrite (advanced_get s n s1 x) by done. destruct (Z.ltb_spec x (slot_start s + n)); [| done].
      apply (rx_below l (slot_end_allocated s)); [done | done | lia].
Qed.

(** ** Reads *)

(** Taking the bytes [bs] from the front of the stream. *)
Definition took (st : Reassembler B) (bs : list Z) (st' : Reassembler B) : Prop :=
  let so := start_offset (cursors st) in
  ra_ok st'
  /\ cursors st' = mk_cursors (so + blen bs) (max_recv_offset (cursors st)) (final_offset (cursors st))
  /\ (forall i b, bs !! i = Some b -> ra_get st (so + Z.of_nat i) = Some b)
  /\ forall x, ra_get st' x = if x <? so + blen bs then None else ra_get st x.

Lemma took_nothing st : ra_ok st -> took st [] st.
Proof.
  intros Hok. pose proof Hok as [_ (Hc & _ & _ & Hh & _)]. split; [done |].
  change (blen []) with 0. rewrite Z.add_0_r. split; [by destruct st as [? []] |]. split; [done |].
  intros x. apply rx_from; [done | by apply head_ok_from].
Qed.

Lemma took_app st a st1 b st2 : took st a st1 -> took st1 b st2 -> took st (a ++ b) st2.
Proof.
  intros (Hok1 & Hcur1 & Ha & Hx1) (Hok2 & Hcur2 & Hb & Hx2). unfold took. rewrite Hcur1 in *. simpl in *.
  rewrite blen_app. split; [done |]. split; [rewrite Hcur2; f_equal; lia |]. pose proof (blen_nonneg b).
  split.
  - intros i c Hi. destruct (decide (i < length a)%nat).
    + rewrite lookup_app_l in Hi by done. by apply Ha.
    + rewrite lookup_app_r in Hi by lia. apply Hb in Hi. rewrite Hx1 in Hi. unfold blen in Hi.
      destruct (Z.ltb_spec (start_offset (cursors st) + Z.of_nat (length a) + Z.of_nat (i - length a))
        (start_offset (cursors st) + Z.of_nat (length a))); [lia |]. rewrite <- Hi. f_equal. lia.
  - intros x. rewrite Hx2, Hx1. zcases; done.
Qed.

(** Nothing can be read unless the first slot has data where reading goes on. *)
Lemma unoccupied_None cur l :
  queue_ok cur l -> match l with s :: _ => slot_is_occupied s (start_offset cur) = false | [] => True end ->
  rx l (start_offset cur) = None.
Proof.
  intros (Hc & _ & _ & Hh & _) Ho. destruct l as [| s l]; [done |]. simpl.
  pose proof (chain_from _ _ Hc) as Hfr. destruct Hc as ((_ & Hs & _) & _ & Hc). unfold head_ok in Hh. simpl in Hh.
  assert (slot_get s (start_offset cur) = None) as ->.
  { apply slot_get_None. rewrite slot_end_eq. intros ?. apply not_true_iff_false in Ho. apply Ho.
    apply slot_is_occupied_spec. lia. }
  apply (rx_below l (slot_end_allocated s)); [done | done |]. lia.
Qed.

(** The state after taking [n] bytes of the first slot. *)
Lemma took_slot st s l n s1 :
  ra_ok st -> slots st = s :: l -> slot_start s = start_offset (cursors st) -> 0 <= n <= sl_len s ->
  advanced s n s1 ->
  let st' := mk_ra (if slot_should_drop s1 then l else s1 :: l)
               (mk_cursors (start_offset (cursors st) + n) (max_recv_offset (cursors st)) (final_offset (cursors st))) in
  took st (take (Z.to_nat n) (sl_bytes s)) st'.
Proof.
  intros [Hcur Hq] Hsl Hs Hn Had. cbv zeta. rewrite Hsl in Hq.
  destruct Hq as (Hc & Hl & Hm & _ & Hb). pose proof Hb as [Hb1 _]. pose proof (slot_end_eq s).
  destruct (advanced_queue (final_offset (cursors st)) (max_recv_offset (cursors st)) (max_recv_offset (cursors st)) s l n s1)
    as [H2 H3]; try done; try lia. rewrite Hs in H2, H3. unfold took, ra_get.
  rewrite blen_take_bytes, Hsl by done. split; [split; [unfold cursors_ok in *; simpl in *; lia | done] |].
  split; [done |]. split; [| done].
  intros i b Hi. simpl. unfold slot_get. rewrite Hs, (proj2 (Z.leb_le _ _)) by lia.
  apply lookup_take_Some in Hi as [Hi _].
  replace (Z.to_nat (start_offset (cursors st) + Z.of_nat i - start_offset (cursors st))) with i by lia. by rewrite Hi.
Qed.

Lemma ra_ok_head st s l :
  ra_ok st -> slots st = s :: l -> slot_is_occupied s (start_offset (cursors st)) = true ->
  slot_wf s /\ 0 < sl_len s /\ slot_start s = start_offset (cursors st) /\ slot_start s <= MAX_VARINT_VALUE
  /\ slot_end s <= max_recv_offset (cursors st).
Proof.
  intros [(Hc1 & Hc2 & _) Hq] Hsl Ho. rewrite Hsl in Hq. destruct Hq as ((Hwf & _) & _ & _ & _ & (Hb & _)).
  apply slot_is_occupied_spec in Ho as [? ?]. split_and!; try done. lia.
Qed.

(** Taking the last slot as a whole, with the room it has left. *)
Lemma took_last st s l :
  ra_ok st -> slots st = s :: l -> slot_is_occupied s (start_offset (cursors st)) = true ->
  final_offset (cursors st) <= slot_end_allocated s ->
  took st (sl_bytes s)
    (mk_ra l (mk_cursors (start_offset (cursors st) + sl_len s) (max_recv_offset (cursors st)) (final_offset (cursors st)))).
Proof.
  intros Hok Hsl Ho Hfin. destruct (ra_ok_head st s l Hok Hsl Ho) as (Hwf & Hlen & Hs & Hmax & Hend).
  pose proof Hok as [Hcur Hq]. rewrite Hsl in Hq. destruct Hq as (Hc & _ & _ & _ & (_ & Hin)).
  pose proof Hcur as (Hc1 & Hc2 & Hc3 & Hc4). pose proof (slot_end_eq s).
  assert (l = []) as ->.
  { destruct l as [| t l]; [done |]. apply chain_from in Hc. unfold from in Hc. simpl in Hc.
    apply Forall_cons in Hin as [[? _] _]. lia. }
  unfold took, ra_get. rewrite blen_sl_bytes, Hsl. simpl. split; [split; [unfold cursors_ok; simpl; lia | done] |].
  split; [done |]. split.
  - intros i b Hi. unfold slot_get. rewrite Hs, (proj2 (Z.leb_le _ _)) by lia.
    replace (Z.to_nat (start_offset (cursors st) + Z.of_nat i - start_offset (cursors st))) with i by lia. by rewrite Hi.
  - intros x. destruct (Z.ltb_spec x (start_offset (cursors st) + sl_len s)); [done |].
    assert (slot_get s x = None) as ->; [apply slot_get_None; lia | done].
Qed.

(** [read_chunk]: a chunk from the front; it is empty only if no more than that
    was asked for, or nothing has arrived there. *)
Lemma read_chunk_ok st w :
  ra_ok st -> 0 <= w ->
  exists chunk st', read_chunk st w = Ret (chunk, st') /\ took st (b_as_slice chunk) st'
    /\ b_len chunk <= w
    /\ (b_len chunk = 0 -> w = 0 \/ ra_get st (start_offset (cursors st)) = None).
Proof.
  intros Hok Hw. pose proof Hok as [Hcur Hq]. unfold read_chunk.
  destruct (b_new_bytes) as [Hn1 Hn2].
  assert (Hnone : ra_get st (start_offset (cursors st)) = None ->
    exists chunk st', @Ret (B * Reassembler B) (b_new, st) = Ret (chunk, st') /\ took st (b_as_slice chunk) st'
      /\ b_len chunk <= w /\ (b_len chunk = 0 -> w = 0 \/ ra_get st (start_offset (cursors st)) = None)).
  { intros Hg. exists b_new, st. rewrite b_as_slice_spec, Hn2, Hn1. split_and!; [done | by apply took_nothing | done |].
    intros _. by right. }
  destruct (slots st) as [| s l] eqn:Hsl.
  { apply Hnone. unfold ra_get. by rewrite Hsl. }
  destruct (slot_is_occupied s (start_offset (cursors st))) eqn:Ho; cbn [negb]; cbv iota.
  2: { apply Hnone. unfold ra_get. rewrite Hsl. by apply unoccupied_None. }
  destruct (ra_ok_head st s l Hok Hsl Ho) as (Hwf & Hlen & Hs & Hmax & Hend). pose proof (slot_end_eq s).
  pose proof Hcur as (Hc1 & Hc2 & _). unfold MAX_VARINT_VALUE in Hc2.
  destruct (match final_size st with Some _ => _ | None => false end) eqn:Ef.
  - unfold slot_consume. cbn [obind]. unfold slot_should_drop. simpl. rewrite Z.eqb_refl, b_len_spec. fold (sl_len s).
    unfold final_size, CursorsOps.final_size in Ef. destruct (final_offset (cursors st) =? UNKNOWN_FINAL_SIZE); [done |].
    rewrite b_len_spec in Ef. fold (sl_len s) in Ef. apply andb_true_iff in Ef as [Ef%Z.leb_le Ew%Z.leb_le].
    pose proof (took_last st s l Hok Hsl Ho Ef) as Ht. rewrite add_c_Ret by lia. cbn [obind].
    rewrite invariants_ok by apply Ht. cbn [obind]. eexists _, _. split; [reflexivity |].
    rewrite b_as_slice_spec, b_len_spec. fold (sl_bytes s) (sl_len s). split_and!; [done | done | lia].
  - destruct (Z.eq_dec w 0) as [-> | Hw0].
    { unfold slot_read_chunk, bytes_read_chunk. rewrite b_len_spec. fold (sl_len s). rewrite Z.min_r by lia.
      cbn [obind negb Z.ltb Z.compare]. cbv iota. cbn [obind]. rewrite Hn1, !add_c_Ret by lia. cbn [obind].
      rewrite Z.add_0_r. unfold slot_should_drop. cbn [slot_start slot_end_allocated].
      assert (Hne : slot_start s <> slot_end_allocated s) by (destruct Hwf as (_ & ? & _); lia).
      apply Z.eqb_neq in Hne. rewrite Hne, Hn1, add_c_Ret by lia. cbn [obind]. rewrite Z.add_0_r.
      replace (mk_ra _ _) with st; [| destruct s, st as [? []]; simpl in *; by subst].
      rewrite invariants_ok by done. cbn [obind]. eexists _, _. split; [reflexivity |].
      rewrite b_as_slice_spec, Hn2, Hn1. split_and!; [by apply took_nothing | done | by left]. }
    destruct (slot_read_chunk_spec s w) as (s1 & c & -> & Had & Hc & Hn); [done | done | lia | done |].
    cbn [obind]. rewrite Hn, add_c_Ret by lia. cbn [obind].
    assert (Hmin : 0 <= Z.min (sl_len s) w <= sl_len s) by lia.
    pose proof (took_slot st s l (Z.min (sl_len s) w) s1 Hok Hsl Hs Hmin Had) as Ht.
    rewrite invariants_ok by apply Ht. cbn [obind]. eexists _, _. split; [reflexivity |]. rewrite Hc, Hn.
    split_and!; [done | lia | lia].
Qed.

(** Nothing to copy. *)
Lemma copy_into_stop fuel st cap :
  ra_ok st -> 0 <= cap ->
  match slots st with s :: _ => slot_is_occupied s (start_offset (cursors st)) = false | [] => True end ->
  copy_into fuel st cap = Ret ([], st) /\ ra_get st (start_offset (cursors st)) = None.
Proof.
  intros [_ Hq] Hcap Ho. split; [| by apply unoccupied_None].
  destruct fuel; cbn [copy_into]; destruct (negb (0 <? cap)); try done;
    (destruct (slots st); [done |]); by rewrite Ho.
Qed.

(** [copy_into]: as much as there is room for, or as has arrived. *)
Lemma copy_into_ok fuel : forall st cap,
  ra_ok st -> 0 <= cap -> (length (slots st) <= fuel)%nat ->
  exists bs st', copy_into fuel st cap = Ret (bs, st') /\ took st bs st' /\ blen bs <= cap
    /\ (blen bs = cap \/ ra_get st' (start_offset (cursors st')) = None).
Proof.
  assert (Hnone : forall fuel st cap, ra_ok st -> 0 <= cap ->
    match slots st with s :: _ => slot_is_occupied s (start_offset (cursors st)) = false | [] => True end ->
    exists bs st', copy_into fuel st cap = Ret (bs, st') /\ took st bs st' /\ blen bs <= cap
      /\ (blen bs = cap \/ ra_get st' (start_offset (cursors st')) = None)).
  { intros fuel' st cap Hok Hcap Ho. destruct (copy_into_stop fuel' st cap Hok Hcap Ho) as [-> Hg].
    exists [], st. split; [done |]. split; [by apply took_nothing |]. split; [done | by right]. }
  induction fuel as [| fuel IH]; intros st cap Hok Hcap Hfuel; pose proof Hok as [Hcur Hq];
    (destruct (slots st) as [| s l] eqn:Hsl; [apply Hnone; by rewrite ?Hsl |]); [simpl in Hfuel; lia |].
  destruct (slot_is_occupied s (start_offset (cursors st))) eqn:Ho; [| apply Hnone; by rewrite ?Hsl].
  cbn [copy_into]. rewrite Hsl, Ho. destruct (Z.ltb_spec 0 cap); cbn [negb]; cbv iota.
  2: { exists [], st. split; [done |]. split; [by apply took_nothing |]. change (blen []) with 0. lia. }
  destruct (ra_ok_head st s l Hok Hsl Ho) as (Hwf & Hlen & Hs & Hmax & Hend). pose proof (slot_end_eq s).
  pose proof Hcur as (Hc1 & Hc2 & _). unfold MAX_VARINT_VALUE in Hc2.
  destruct (slot_copy_into_spec s cap) as (s1 & -> & Had); [done .. |]. cbn [obind].
  set (n := Z.min (sl_len s) cap) in *. assert (Hn : 0 <= n <= sl_len s) by lia.
  pose proof (took_slot st s l n s1 Hok Hsl Hs Hn Had) as Ht. cbv zeta in Ht.
  rewrite blen_take_bytes by done. rewrite add_c_Ret by lia. cbn [obind].
  set (st1 := mk_ra _ _) in *. rewrite invariants_ok by apply Ht. cbn [obind].
  assert (Hrec : exists bs st', copy_into fuel st1 (cap - n) = Ret (bs, st') /\ took st1 bs st' /\ blen bs <= cap - n
    /\ (blen bs = cap - n \/ ra_get st' (start_offset (cursors st')) = None)).
  { destruct (slot_should_drop s1) eqn:Ed; [apply IH; [apply Ht | lia | simpl in Hfuel |- *; lia] |].
    destruct (Z.eq_dec (cap - n) 0) as [-> |].
    - exists [], st1. split; [by destruct fuel |]. split; [apply took_nothing, Ht |]. split; [done | by left].
    - apply Hnone; [apply Ht | lia |]. unfold st1. simpl. apply not_true_iff_false.
      rewrite slot_is_occupied_spec, (advanced_len s n s1) by (done || lia). lia. }
  destruct Hrec as (bs & st' & -> & Hbs & Hle & Hstop). cbn [obind].
  eexists _, _. split; [reflexivity |]. split; [by eapply took_app |].
  rewrite blen_app, blen_take_bytes by done. split; [lia |]. destruct Hstop; [left; lia | by right].
Qed.

(** [partial_copy_into]: the same bytes, the last of them as a chunk. *)
Lemma partial_copy_loop_ok fuel : forall st prev cap,
  ra_ok st -> 0 <= b_len prev < cap -> cap - b_len prev < Z.of_nat fuel ->
  exists w chunk st' bs, partial_copy_loop fuel st prev cap = Ret (w, chunk, st') /\ took st bs st'
    /\ w ++ b_as_slice chunk = b_as_slice prev ++ bs /\ b_len prev + blen bs <= cap
    /\ (b_len prev + blen bs = cap \/ ra_get st' (start_offset (cursors st')) = None).
Proof.
  induction fuel as [| fuel IH]; intros st prev cap Hok Hp Hf; [lia |]. cbn [partial_copy_loop]. unfold rassert.
  destruct (Z.leb_spec (b_len prev) cap); [| lia]. destruct (Z.ltb_spec 0 cap); [| lia]. cbn [obind].
  destruct (read_chunk_ok st (cap - b_len prev)) as (c & st1 & -> & Ht & Hle & Hz); [done | lia |]. cbn [obind].
  pose proof (blen_as_slice c) as Hc. pose proof (blen_nonneg (b_as_slice c)). pose proof Ht as (Hok1 & Hcur & _ & Hx).
  destruct (Z.eqb_spec (b_len c) 0) as [E |].
  - assert (b_as_slice c = []) as Hnil.
    { destruct (b_as_slice c); [done |]. unfold blen in Hc. simpl in Hc. lia. }
    exists [], prev, st1, []. rewrite Hnil in *. split; [done |]. split; [done |]. rewrite app_nil_r.
    split; [done |]. change (blen []) with 0 in *. split; [lia |]. right.
    destruct (Hz E) as [? | Hg]; [lia |]. rewrite Hcur. simpl. rewrite Hx, Z.add_0_r, Z.ltb_irrefl. done.
  - destruct (Z.eqb_spec (b_len c) (cap - b_len prev)) as [E |].
    + exists (b_as_slice prev), c, st1, (b_as_slice c). do 3 (split; [done |]). rewrite Hc. lia.
    + destruct (IH st1 c (cap - b_len prev))
        as (w & chunk & st2 & bs & -> & Ht2 & Hw & Hle2 & Hend); [done | lia | lia |].
      cbn [obind]. exists (b_as_slice prev ++ w), chunk, st2, (b_as_slice c ++ bs). split; [done |].
      split; [by eapply took_app |]. rewrite <- app_assoc, Hw, blen_app, Hc. split; [done |].
      split; [lia |]. destruct Hend; [left; lia | by right].
Qed.

Lemma partial_copy_into_ok st cap :
  ra_ok st -> 0 <= cap ->
  exists w chunk st', partial_copy_into st cap = Ret (w, chunk, st')
    /\ let bs := w ++ b_as_slice chunk in
       took st bs st' /\ blen bs <= cap /\ (blen bs = cap \/ ra_get st' (start_offset (cursors st')) = None).
Proof.
  intros Hok Hcap. unfold partial_copy_into. destruct b_new_bytes as [Hn Hb].
  assert (Hnil : b_as_slice (B := B) b_new = []) by by rewrite b_as_slice_spec.
  destruct (Z.ltb_spec 0 cap); cbn [negb]; cbv iota.
  - destruct (partial_copy_loop_ok (S (Z.to_nat cap)) st b_new cap)
      as (w & chunk & st' & bs & -> & Ht & Hw & Hle & Hend); [done | lia | lia |]. exists w, chunk, st'. cbv zeta.
    rewrite Hw, Hnil, Hn in *. done.
  - exists [], b_new, st. rewrite Hnil. split; [done |]. split; [by apply took_nothing |].
    change (blen ([] ++ [])) with 0. lia.
Qed.

(** ** Skips *)

Lemma slot_skip_ok s n :
  slot_wf s -> 0 <= n <= slot_end_allocated s - slot_start s -> slot_start s <= MAX_VARINT_VALUE ->
  exists s1, slot_skip s n = Ret s1 /\ advanced s n s1.
Proof.
  intros Hwf Hn Hmax. pose proof Hwf as (H1 & H2 & H3). pose proof (block_bounds (slot_start s) H1).
  pose proof (slot_wf_end s Hwf Hmax). pose proof (sl_len_ok s). unfold slot_skip, rassert.
  destruct (Z.leb_spec n (2 ^ 16)); [| lia]. cbn [obind]. rewrite b_len_spec. fold (sl_len s).
  assert (Hd : exists d, match checked_sub n (sl_len s) with
      | Some to_advance =>
          let! _ := if to_advance <=? umax 64 - sl_len s then Ret () else Panic in
          b_advance_mut (slot_data s) to_advance
      | None => Ret (slot_data s)
      end = Ret d
    /\ b_view d = mk_raw (sl_mem s) (Z.max n (sl_len s)) (raw_addr (b_view (slot_data s))) (raw_arena (b_view (slot_data s)))).
  { unfold checked_sub. destruct (Z.leb_spec (sl_len s) n).
    - destruct (Z.leb_spec (n - sl_len s) (umax 64 - sl_len s)); [| unfold umax in *; lia]. cbn [obind].
      destruct (b_advance_mut_spec (slot_data s) (n - sl_len s)) as (d & -> & Hd);
        [lia | fold (sl_len s) (sl_mem s); lia |].
      exists d. split; [done |]. rewrite Hd. fold (sl_len s) (sl_mem s). f_equal. lia.
    - exists (slot_data s). split; [done |]. rewrite Z.max_r by lia. unfold sl_mem, sl_len. by destruct (b_view (slot_data s)). }
  destruct Hd as (d & -> & Hd). cbn [obind]. rewrite b_len_spec, Hd. simpl raw_len. rewrite Z.min_r by lia.
  destruct (b_advance_spec d n) as (d2 & -> & Hd2); [rewrite Hd; simpl; lia |]. cbn [obind].
  rewrite Hd in Hd2. simpl in Hd2. rewrite add_c_Ret by lia. cbn [obind].
  set (s1 := mk_slot (slot_start s + n) (slot_end_allocated s) d2).
  assert (Had : advanced s n s1).
  { unfold advanced, sl_base, sl_bytes, raw_bytes, s1. unfold sl_mem at 1. simpl. rewrite Hd2. simpl.
    rewrite blen_mem_drop by lia. split_and!; try lia; try (intros; f_equal; lia). fold (sl_mem s) (sl_len s).
    unfold mem_drop, blen in *. rewrite skipn_firstn_comm. f_equal. lia. }
  rewrite slot_invariants_ok; [cbn [obind]; eauto | simpl; lia | apply Had].
Qed.

(** Dropping the slots below an offset. *)
Lemma skip_slots_ok fin mx mx' new : forall l : list (Slot B),
  chain l -> last_ok fin l -> merged l -> bounded mx l -> mx <= MAX_VARINT_VALUE -> mx <= mx' -> new <= mx' -> 0 <= new <= MAX_VARINT_VALUE ->
  match head l with
  | Some s => slot_start s <= new \/ slot_start s = block (slot_start s) /\ slot_start s < mx
  | None => True
  end ->
  exists l', skip_slots l new = Ret l' /\ queue_ok (mk_cursors new mx' fin) l' /\ dropped l new l'.
Proof.
  induction l as [| s l IH]; intros Hc Hl Hm Hb Hmax Hmx Hnew Hpos Hh.
  { exists []. split; [done |]. split; [done |]. intros x. simpl. by destruct (x <? new). }
  pose proof Hc as (Hwf & Hlk & Hcl). pose proof (chain_from _ _ Hc) as Hfr. pose proof Hb as [Hb1 Hb2].
  pose proof Hm as [_ Hm2]. simpl in Hh. pose proof Hwf as (Hw1 & Hw2 & Hw3). cbn [skip_slots].
  destruct (Z.ltb_spec (slot_end_allocated s) new) as [Hlt | Hge].
  - destruct IH as (l' & E & Hq & Hd); try done.
    + unfold last_ok in *. by destruct l.
    + by apply bounded_within.
    + destruct l as [| t l]; [done |]. simpl in *. destruct Hlk as (Hlk1 & Hlk2 & Hlk3).
      apply Forall_cons in Hb2 as [[Ht _] _].
      destruct (Z.eq_dec (block (slot_start s)) (block (slot_start t))) as [Eb | Eb];
        [destruct (Hlk2 Eb); lia | right; by destruct (Hlk3 Eb)].
    + exists l'. split; [done |]. split; [done |]. intros x. rewrite Hd. simpl. destruct (Z.ltb_spec x new); [done |].
      assert (slot_get s x = None) as ->; [| done]. apply slot_get_None. rewrite slot_end_eq.
      pose proof (sl_len_ok s). lia.
  - unfold slot_skip_until, checked_sub. destruct (Z.leb_spec (slot_start s) new) as [Hle | Hgt].
    + destruct (slot_skip_ok s (new - slot_start s)) as (s1 & -> & Had); [done | lia | lia |]. cbn [obind].
      eexists. split; [reflexivity |].
      destruct (advanced_queue fin mx mx' s l (new - slot_start s) s1) as [Hq Hd]; try done; try lia.
      replace (slot_start s + (new - slot_start s)) with new in * by lia. by destruct (slot_should_drop s1).
    + cbn [obind]. exists (s :: l). unfold slot_should_drop.
      destruct (Z.eqb_spec (slot_start s) (slot_end_allocated s)); [lia |]. split; [done |]. split.
      * unfold queue_ok. simpl final_offset. split_and!; try done.
        -- unfold head_ok. simpl. lia.
        -- split; simpl; [lia |]. eapply Forall_impl; [exact Hb2 |]. intros t []. split; lia.
      * apply rx_from; [done |]. unfold from. simpl. lia.
Qed.

Lemma ra_skip_ok st len :
  ra_ok st -> 0 <= len ->
  let so := start_offset (cursors st) in
  exists res st', ra_skip st len = Ret (res, st') /\ ra_ok st'
    /\ res = (if MAX_VARINT_VALUE <? so + len then Err OutOfRange
              else if final_offset (cursors st) <? so + len then Err InvalidFin else Ok tt)
    /\ match res with
       | Err _ => st' = st
       | Ok _ =>
           cursors st' = mk_cursors (so + len) (Z.max (max_recv_offset (cursors st)) (so + len)) (final_offset (cursors st))
           /\ forall x, ra_get st' x = if x <? so + len then None else ra_get st x
       end.
Proof.
  intros Hok Hlen. cbv zeta. set (so := start_offset (cursors st)). pose proof Hok as [Hcur Hq].
  pose proof Hcur as (H1 & H2 & H3 & H4). pose proof Hq as (Hc & Hl & Hm & Hh & Hb). unfold ra_skip. fold so in H1.
  destruct (Z.ltb_spec 0 len) as [Hpos | Hz]; cbn [negb]; cbv iota.
  2: { replace len with 0 by lia. rewrite Z.add_0_r. exists (Ok tt), st. split; [done |]. split; [done |].
       destruct (Z.ltb_spec MAX_VARINT_VALUE so); [lia |]. destruct (Z.ltb_spec (final_offset (cursors st)) so); [lia |].
       split; [done |]. rewrite Z.max_l by lia. split; [by destruct st as [? []] |].
       apply rx_from; [done | by apply head_ok_from]. }
  fold so. unfold checked_add, VarInt.new.
  destruct (Z.ltb_spec MAX_VARINT_VALUE (so + len)) as [Hbig | Hsm].
  { exists (Err OutOfRange), st. split; [| done]. destruct (so + len <? 2 ^ 64); [| done].
    by rewrite (proj2 (Z.ltb_lt _ _) Hbig). }
  destruct (Z.ltb_spec (so + len) (2 ^ 64)); [| unfold MAX_VARINT_VALUE in *; lia].
  rewrite (proj2 (Z.ltb_ge _ _) Hsm). cbn [VarInt.ok]. unfold final_size, CursorsOps.final_size.
  destruct (Z.ltb_spec (final_offset (cursors st)) (so + len)) as [Hfin | Hfin].
  { exists (Err InvalidFin), st. split; [| done]. destruct (Z.eqb_spec (final_offset (cursors st)) UNKNOWN_FINAL_SIZE);
      [unfold UNKNOWN_FINAL_SIZE, MAX_VARINT_VALUE in *; lia |].
    by destruct (Z.leb_spec (so + len) (final_offset (cursors st))); [lia |]. }
  match goal with |- context [if ?c then Ret (Err InvalidFin, st) else _] => assert (c = false) as -> end.
  { destruct (final_offset (cursors st) =? UNKNOWN_FINAL_SIZE); [done |].
    by rewrite (proj2 (Z.leb_le _ _) Hfin). }
  destruct (skip_slots_ok (final_offset (cursors st)) (max_recv_offset (cursors st))
    (Z.max (max_recv_offset (cursors st)) (so + len)) (so + len) (slots st)) as (l' & -> & Hq' & Hd); try done; try lia.
  { unfold head_ok in Hh. fold so in Hh. destruct (head (slots st)); [lia | done]. }
  cbn [obind]. set (st1 := mk_ra _ _). assert (Hok1 : ra_ok st1).
  { split; [| done]. unfold cursors_ok, st1. simpl. lia. }
  rewrite invariants_ok by done. cbn [obind]. exists (Ok tt), st1. split; [done |]. split; [done |].
  split; [done |]. split; [done | apply Hd].
Qed.
End Read.
