(* ===== verification/ReassemblerThm.v ===== *)
(** * The reassembler is correct

    The theorems about [write_at], [write_at_fin], [skip], [pop] and
    [copy_into], and the end-to-end theorem: whatever order the pieces of a
    stream arrive in, what is read is the stream.

    [Plain] is a buffer that satisfies the interface of [BytesMut]. *)
From S2P Require Import Prelude Codec VarInt ReassemblerSlot Reassembler ReassemblerSpec ReassemblerWrite.
From S2P Require Import ReassemblerOps ReassemblerRead.

(** ** A buffer *)

Module Plain.
(** The initialised bytes, the spare ones, the address and the allocation. *)
Record t := mk_plain { init : list Z; spare : list Z; addr : Z; arena : Z }.

Definition view (b : t) : raw := mk_raw (init b ++ spare b) (blen (init b)) (addr b) (arena b).

#[global] Instance plain_BytesMut : BytesMut t := {
  b_new := mk_plain [] [] 0 0;
  b_len b := blen (init b);
  b_capacity b := blen (init b ++ spare b);
  b_as_slice b := init b;
  b_as_ptr := addr;
  b_write_spare b off bs := mk_plain (init b) (mem_write (spare b) off bs) (addr b) (arena b);
  b_advance_mut b n :=
    if n <=? blen (spare b)
    then Ret (mk_plain (init b ++ mem_take n (spare b)) (mem_drop n (spare b)) (addr b) (arena b)) else Panic;
  b_advance b n :=
    if n <=? blen (init b) then Ret (mk_plain (mem_drop n (init b)) (spare b) (addr b + n) (arena b)) else Panic;
  b_split_off b at_ :=
    if blen (init b ++ spare b) <? at_ then Panic else
    let n := at_ - blen (init b) in
    Ret (mk_plain (mem_take at_ (init b)) (mem_take n (spare b)) (addr b) (arena b),
         mk_plain (mem_drop at_ (init b)) (mem_drop n (spare b)) (addr b + at_) (arena b));
  b_split_to b at_ :=
    if blen (init b) <? at_ then Panic else
    Ret (mk_plain (mem_drop at_ (init b)) (spare b) (addr b + at_) (arena b),
         mk_plain (mem_take at_ (init b)) [] (addr b) (arena b));
  b_unsplit a b := mk_plain (init a ++ init b) (spare b) (addr a) (arena a)
}.

Lemma take_app_split n (a b : list Z) : mem_take n (a ++ b) = mem_take n a ++ mem_take (n - blen a) b.
Proof. unfold mem_take, blen. rewrite take_app. do 2 f_equal. lia. Qed.

Lemma drop_app_split n (a b : list Z) : mem_drop n (a ++ b) = mem_drop n a ++ mem_drop (n - blen a) b.
Proof. unfold mem_drop, blen. rewrite drop_app. do 2 f_equal. lia. Qed.

Lemma mem_write_spare (a b bs : list Z) off :
  0 <= off -> mem_write (a ++ b) (blen a + off) bs = a ++ mem_write b off bs.
Proof.
  intros Hoff. unfold mem_write, blen. rewrite take_app, drop_app, (take_ge a), (drop_ge a) by lia.
  rewrite <- app_assoc. f_equal. simpl. f_equal; [f_equal; lia |]. f_equal. f_equal. lia.
Qed.

#[global] Instance plain_BytesMutSpec : BytesMutSpec t.
Proof.
  refine {| b_view := view |}; intros; unfold view, raw_ok, raw_bytes in *; simpl in *; try done.
  - rewrite blen_app. pose proof (blen_nonneg (init b)). pose proof (blen_nonneg (spare b)). lia.
  - unfold blen. by rewrite Nat2Z.id, take_app_length.
  - f_equal. symmetry. by apply mem_write_spare.
  - rewrite blen_app in *. destruct (Z.leb_spec n (blen (spare b))); [| lia]. eexists. split; [reflexivity |].
    simpl. rewrite <- app_assoc, blen_app, blen_mem_take by lia. unfold mem_take, mem_drop. by rewrite take_drop.
  - destruct (Z.leb_spec n (blen (init b))); [| lia]. eexists. split; [reflexivity |]. simpl.
    rewrite blen_mem_drop, drop_app_split by lia. unfold mem_drop at 3.
    by replace (Z.to_nat (n - blen (init b))) with 0%nat by lia.
  - destruct (Z.ltb_spec (blen (init b ++ spare b)) at_); [lia |]. eexists _, _. split; [reflexivity |]. simpl.
    rewrite take_app_split, drop_app_split.
    split; f_equal; unfold mem_take, mem_drop, blen; rewrite ?length_take, ?length_drop; lia.
  - destruct (Z.ltb_spec (blen (init b)) at_); [lia |]. eexists _, _. split; [reflexivity |]. simpl.
    rewrite take_app_split, drop_app_split, app_nil_r. rewrite blen_mem_drop, blen_mem_take by lia.
    unfold mem_take at 3, mem_drop at 3. replace (Z.to_nat (at_ - blen (init b))) with 0%nat by lia.
    simpl. by rewrite app_nil_r, drop_0.
  - rewrite blen_app in *. assert (spare a = []) as ->.
    { destruct (spare a) as [| c l]; [done |]. unfold blen in *. simpl in *. lia. }
    by rewrite app_nil_r, app_assoc.
Qed.

(** An allocator. *)
Definition with_capacity (offset size : Z) : t := mk_plain [] (repeat 0 (Z.to_nat size)) (131072 * offset) offset.

Lemma with_capacity_exact : alloc_exact with_capacity.
Proof.
  intros offset size Hs. rewrite <- b_len_spec, <- b_capacity_spec. simpl. split; [done |].
  unfold blen. rewrite repeat_length. lia.
Qed.
End Plain.

Section Thm.
Context {B : Type} {HB : BytesMut B} {HS : BytesMutSpec B}.

(** [write_at] and [write_at_fin]. *)
Definition write_any (alloc : Z -> Z -> B) (st : Reassembler B) (offset : Z) (data : list Z) (is_fin : bool) :=
  if is_fin then write_at_fin alloc st offset data else write_at alloc st offset data.

Lemma write_any_ok alloc st offset data is_fin :
  alloc_exact alloc -> ra_ok st -> 0 <= offset ->
  let so := start_offset (cursors st) in
  let e := offset + blen data in
  let verdict := final_after (cursors st) e is_fin in
  exists st',
    write_any alloc st offset data is_fin
      = Ret (match verdict with Ok _ => Ok tt | Err err => Err err end, st')
    /\ ra_ok st'
    /\ match verdict with
       | Err _ => st' = st
       | Ok f =>
           cursors st' = mk_cursors so (Z.max (max_recv_offset (cursors st)) e) f
           /\ forall x, ra_get st' x
                = match ra_get st x with
                  | Some b => Some b
                  | None => if x <? Z.max so offset then None else data !! Z.to_nat (x - offset)
                  end
       end.
Proof.
  intros Ha Hok Ho. cbv zeta. pose proof (blen_nonneg data) as Hd.
  assert (E : write_any alloc st offset data is_fin
    = match RequestOps.new offset data is_fin with Err err => Ret (Err err, st) | Ok r => write_reader alloc st r end)
    by by destruct is_fin.
  rewrite E. unfold RequestOps.new. rewrite checked_add_usize_spec by lia. set (e := offset + blen data).
  destruct (Z.ltb_spec MAX_VARINT_VALUE e) as [Hbig | Hsm].
  { exists st. unfold final_after. rewrite (proj2 (Z.ltb_lt _ _) Hbig). done. }
  destruct (write_reader_spec alloc st (mk_req offset data is_fin)) as (st' & E' & Hok' & Hst'); try done.
  unfold req_end in *. simpl in *. fold e in E', Hst'. rewrite E'. exists st'. split; [done |]. split; [done |].
  destruct (final_after (cursors st) e is_fin) as [f |]; [| done]. destruct Hst' as [Hcur Hx]. split; [done |].
  intros x. rewrite Hx. destruct (ra_get st x); [done |]. unfold req_get. simpl. zcases; done.
Qed.
End Thm.

(** C17: writing a piece of a stream to the reassembler never panics (so the
    assertions about adjacent memory, slot bounds and merged slots hold) and
    keeps the invariant.  It fails exactly when the piece goes beyond the largest
    offset or contradicts the final size, and then changes nothing.  Otherwise
    every byte of the piece that was missing and has not been read is added,
    bytes that are there stay, and the cursors record the end and the final
    size. *)
Theorem reassembler_write {B} {HB : BytesMut B} {HS : BytesMutSpec B}
    (alloc : Z -> Z -> B) (st : Reassembler B) offset data is_fin :
  alloc_exact alloc -> ra_ok st -> 0 <= offset ->
  let so := start_offset (cursors st) in
  let e := offset + blen data in
  let verdict := final_after (cursors st) e is_fin in
  exists st',
    (if is_fin then write_at_fin alloc st offset data else write_at alloc st offset data)
      = Ret (match verdict with Ok _ => Ok tt | Err err => Err err end, st')
    /\ ra_ok st'
    /\ match verdict with
       | Err _ => st' = st
       | Ok f =>
           cursors st' = mk_cursors so (Z.max (max_recv_offset (cursors st)) e) f
           /\ forall x, ra_get st' x
                = match ra_get st x with
                  | Some b => Some b
                  | None => if x <? Z.max so offset then None else data !! Z.to_nat (x - offset)
                  end
       end.
Proof. apply write_any_ok. Qed.

(** C25: reading a chunk with a watermark never panics and keeps the invariant;
    the chunk is the bytes of the stream from where reading had come to, at most
    as many as the watermark, and there is none only if the watermark is zero or
    the next byte has not arrived.  Reading moves ahead by the chunk, and the
    bytes behind it are what they were. *)
Theorem reassembler_read {B} {HB : BytesMut B} {HS : BytesMutSpec B} (st : Reassembler B) watermark :
  ra_ok st -> 0 <= watermark ->
  exists chunk st', pop_watermarked st watermark = Ret (chunk, st')
    /\ let bs := match chunk with Some c => b_as_slice c | None => [] end in
       took st bs st' /\ blen bs <= watermark
       /\ (chunk = None -> watermark = 0 \/ ra_get st (start_offset (cursors st)) = None)
       /\ (chunk <> None -> 0 < blen bs).
Proof.
  intros Hok Hw. unfold pop_watermarked.
  destruct (read_chunk_ok st watermark Hok Hw) as (c & st' & -> & Ht & Hle & Hz). cbn [obind].
  eexists _, _. split; [reflexivity |]. pose proof (blen_as_slice c) as Hl. pose proof (blen_nonneg (b_as_slice c)).
  destruct (Z.eqb_spec (b_len c) 0) as [E |].
  - assert (b_as_slice c = []) as Hc.
    { destruct (b_as_slice c); [done |]. unfold blen in Hl. simpl in Hl. lia. }
    rewrite Hc in Ht. split_and!; [done | done | auto | done].
  - rewrite Hl. split_and!; [done | done | done | lia].
Qed.

(** C26: copying out of the reassembler ends without panicking, after at most as
    many rounds as there are slots, with the bytes of the stream from where
    reading had come to: as many as there is room for, or all up to the first
    byte that has not arrived.  A partial copy, which returns the last chunk
    instead of copying it, takes the same bytes. *)
Theorem reassembler_copy {B} {HB : BytesMut B} {HS : BytesMutSpec B} (st : Reassembler B) capacity fuel :
  ra_ok st -> 0 <= capacity -> (length (slots st) <= fuel)%nat ->
  let full bs st' := took st bs st' /\ blen bs <= capacity
    /\ (blen bs = capacity \/ ra_get st' (start_offset (cursors st')) = None) in
  (exists bs st', copy_into fuel st capacity = Ret (bs, st') /\ full bs st')
  /\ (exists written chunk st', partial_copy_into st capacity = Ret (written, chunk, st')
        /\ full (written ++ b_as_slice chunk) st').
Proof. intros Hok Hcap Hfuel. cbv zeta. split; [by apply copy_into_ok | by apply partial_copy_into_ok]. Qed.

(** Skipping never panics and keeps the invariant.  It fails exactly when it
    would go beyond the largest offset or the final size, and then changes
    nothing; otherwise the bytes skipped are gone and the rest is unchanged. *)
Theorem reassembler_skip {B} {HB : BytesMut B} {HS : BytesMutSpec B} (st : Reassembler B) len :
  ra_ok st -> 0 <= len ->
  let so := start_offset (cursors st) in
  exists res st', ra_skip st len = Ret (res, st') /\ ra_ok st'
    /\ res = (if MAX_VARINT_VALUE <? so + len then Err OutOfRange
              else if final_offset (cursors st) <? so + len then Err InvalidFin else Ok tt)
    /\ match res with
       | Err _ => st' = st
       | Ok _ =>
           cursors st' = mk_cursors (so + len) (Z.max (max_recv_offset (cursors st)) (so + len))
                           (final_offset (cursors st))
           /\ forall x, ra_get st' x = if x <? so + len then None else ra_get st x
       end.
Proof. apply ra_skip_ok. Qed.

(** ** Delivery *)

Lemma ra_new_ok {B} {HB : BytesMut B} {HS : BytesMutSpec B} : ra_ok (@ra_new B).
Proof. split; [| done]. split; [done |]. split; [done |]. split; [done | by left]. Qed.

(** The bytes of the stream [g] from [o] to [o + n]. *)
Definition segment (g : Z -> Z) (o n : Z) : list Z :=
  map (fun i => g (o + Z.of_nat i)) (seq 0 (Z.to_nat n)).

Lemma blen_segment g o n : 0 <= n -> blen (segment g o n) = n.
Proof. intros. unfold segment, blen. rewrite length_map, length_seq. lia. Qed.

Lemma lookup_segment g o n i : (i < Z.to_nat n)%nat -> segment g o n !! i = Some (g (o + Z.of_nat i)).
Proof. intros Hi. unfold segment. rewrite list_lookup_fmap, lookup_seq_lt by done. done. Qed.

Section Delivery.
Context {B : Type} {HB : BytesMut B} {HS : BytesMutSpec B}.
Context (alloc : Z -> Z -> B) (Halloc : alloc_exact alloc) (g : Z -> Z) (n : Z).

(** The pieces of a stream of [n] bytes as they arrive; the pieces that end the
    stream say so. *)
Fixpoint receive (st : Reassembler B) (pieces : list (Z * Z)) : outcome (result unit BufferError * Reassembler B) :=
  match pieces with
  | [] => Ret (Ok tt, st)
  | (o, l) :: pieces =>
      let! '(res, st) := write_any alloc st o (segment g o l) (o + l =? n) in
      match res with Ok _ => receive st pieces | Err e => Ret (Err e, st) end
  end.

Definition piece_ok (p : Z * Z) : Prop := 0 <= p.1 /\ 0 <= p.2 /\ p.1 + p.2 <= n.
Definition covers (pieces : list (Z * Z)) (x : Z) : Prop :=
  Exists (fun p => p.1 <= x < p.1 + p.2) pieces.

(** A reassembler nothing was read from that holds a part of the stream. *)
Definition receiving (st : Reassembler B) : Prop :=
  ra_ok st /\ start_offset (cursors st) = 0 /\ max_recv_offset (cursors st) <= n
  /\ (final_offset (cursors st) = UNKNOWN_FINAL_SIZE \/ final_offset (cursors st) = n)
  /\ forall x b, ra_get st x = Some b -> b = g x.

Lemma final_after_piece cur e :
  0 <= e <= n -> n <= MAX_VARINT_VALUE -> max_recv_offset cur <= n ->
  final_offset cur = UNKNOWN_FINAL_SIZE \/ final_offset cur = n ->
  final_after cur e (e =? n) = Ok (if e =? n then n else final_offset cur).
Proof.
  intros He Hn Hmx Hf. unfold final_after, CursorsOps.final_size. assert (MAX_VARINT_VALUE < UNKNOWN_FINAL_SIZE) by done.
  destruct (Z.ltb_spec MAX_VARINT_VALUE e); [lia |].
  destruct (Z.eqb_spec (final_offset cur) UNKNOWN_FINAL_SIZE), (Z.eqb_spec e n); zcases; f_equal; lia.
Qed.

Lemma write_piece st o l :
  receiving st -> piece_ok (o, l) -> n <= MAX_VARINT_VALUE ->
  exists st', write_any alloc st o (segment g o l) (o + l =? n) = Ret (Ok tt, st') /\ receiving st'
    /\ (final_offset (cursors st) = n \/ o + l = n -> final_offset (cursors st') = n)
    /\ (forall x, ra_get st x <> None -> ra_get st' x <> None)
    /\ forall x, o <= x < o + l -> ra_get st' x <> None.
Proof.
  intros (Hok & Hso & Hmx & Hf & Hg) (Ho & Hl & Hn) Hmax. simpl in *.
  destruct (write_any_ok alloc st o (segment g o l) (o + l =? n)) as (st' & -> & Hok' & Hst'); try done.
  rewrite blen_segment in * by done. rewrite final_after_piece in Hst' |- * by (done || lia).
  destruct Hst' as [Hcur Hx]. exists st'. split; [done |]. rewrite Hso, Z.max_r in * by lia.
  unfold receiving. rewrite Hcur. simpl. split; [split_and!; try done; try lia |].
  - destruct (o + l =? n); [by right | done].
  - intros x b. rewrite Hx. destruct (ra_get st x) as [c |] eqn:E; [intros [= <-]; by apply Hg |].
    destruct (Z.ltb_spec x o); [done |]. intros Hb. pose proof (lookup_lt_Some _ _ _ Hb) as Hlt.
    rewrite lookup_segment in Hb by (unfold segment in Hlt; rewrite length_map, length_seq in Hlt; done).
    injection Hb as <-. f_equal. lia.
  - split; [| split].
    + destruct (Z.eqb_spec (o + l) n); lia.
    + intros x Hn0. rewrite Hx. by destruct (ra_get st x).
    + intros x Hr. rewrite Hx. destruct (ra_get st x); [done |]. destruct (Z.ltb_spec x o); [lia |].
      by rewrite lookup_segment by lia.
Qed.

Lemma receive_ok pieces st :
  receiving st -> Forall piece_ok pieces -> n <= MAX_VARINT_VALUE ->
  exists st', receive st pieces = Ret (Ok tt, st') /\ receiving st'
    /\ (final_offset (cursors st) = n \/ Exists (fun p => p.1 + p.2 = n) pieces -> final_offset (cursors st') = n)
    /\ forall x, ra_get st x <> None \/ covers pieces x -> ra_get st' x <> None.
Proof.
  intros Hst Hp Hn. revert st Hst. induction Hp as [| [o l] pieces Hp Hps IH]; intros st Hst; simpl.
  { exists st. unfold covers. rewrite Exists_nil. split; [done |]. split; [done |].
    split; [| intros x]; rewrite ?Exists_nil; tauto. }
  destruct (write_piece st o l Hst Hp Hn) as (st1 & -> & Hst1 & Hf1 & Hkeep & Hnew). cbn [obind].
  destruct (IH st1 Hst1) as (st2 & -> & Hst2 & Hf2 & Hx2). exists st2. split; [done |]. split; [done |].
  unfold covers in *. split; [| intros x]; rewrite Exists_cons; simpl; intros H; [apply Hf2 | apply Hx2]; naive_solver.
Qed.
End Delivery.

(** C8: whatever the order, overlap and sizes of the pieces a stream arrives in,
    and however the allocator places the buffers, once they cover the stream,
    every write was accepted, copying out delivers exactly the stream, and the
    reassembler knows that reading is complete. *)
Theorem reassembler_delivers {B} {HB : BytesMut B} {HS : BytesMutSpec B}
    (alloc : Z -> Z -> B) (g : Z -> Z) n pieces :
  alloc_exact alloc -> 0 < n <= MAX_VARINT_VALUE -> Forall (piece_ok n) pieces ->
  (forall x, 0 <= x < n -> covers pieces x) ->
  exists st st', receive alloc g n ra_new pieces = Ret (Ok tt, st)
    /\ copy_into (length (slots st)) st n = Ret (segment g 0 n, st')
    /\ is_reading_complete st' = true.
Proof.
  intros Ha Hn Hp Hcov. destruct (receive_ok alloc Ha g n pieces ra_new) as (st & -> & Hst & Hf & Hx); [| done | lia |].
  { split_and!; try done; [apply ra_new_ok | simpl; lia | by left]. }
  destruct Hst as (Hok & Hso & Hmx & _ & Hg). exists st.
  destruct (copy_into_ok (length (slots st)) st n Hok ltac:(lia) ltac:(lia)) as (bs & st' & E & Ht & Hle & Hend).
  destruct Ht as (_ & Hcur & Hbs & Hget). rewrite Hso in *. simpl in *.
  assert (Hlen : blen bs = n).
  { destruct Hend as [? | Hend]; [done |]. destruct (Z.eq_dec (blen bs) n); [done |]. exfalso.
    pose proof (blen_nonneg bs). rewrite Hcur in Hend. simpl in Hend. rewrite Hget, Z.ltb_irrefl in Hend.
    apply (Hx (blen bs)); [right; apply Hcov; lia | done]. }
  assert (bs = segment g 0 n) as ->.
  { apply list_eq. intros i. destruct (decide (i < Z.to_nat n)%nat) as [Hi | Hi].
    - rewrite lookup_segment by done. destruct (bs !! i) as [b |] eqn:Eb.
      + f_equal. apply Hg. by apply Hbs.
      + apply lookup_ge_None in Eb. unfold blen in Hlen. lia.
    - rewrite !lookup_ge_None_2; [done | | unfold blen in Hlen; lia].
      unfold segment. rewrite length_map, length_seq. lia. }
  exists st'. split; [done |]. split; [done |]. unfold is_reading_complete, final_size, CursorsOps.final_size.
  rewrite Hcur. simpl. rewrite Hf, Hlen.
  - destruct (Z.eqb_spec n UNKNOWN_FINAL_SIZE); [unfold UNKNOWN_FINAL_SIZE, MAX_VARINT_VALUE in *; lia | apply Z.eqb_refl].
  - right. pose proof (Hcov (n - 1) ltac:(lia)) as (p & Hin & Hr)%Exists_exists.
    rewrite Forall_forall in Hp. destruct (Hp p Hin) as (? & ? & ?). apply Exists_exists. exists p. split; [done | lia].
Qed.

(** ** Witnesses *)

(** A reassembler with bytes at 0..2 and 5..7. *)
Definition sample : Reassembler Plain.t :=
  match write_at Plain.with_capacity ra_new 5 [6; 7; 8] with
  | Ret (_, st) =>
      match write_at Plain.with_capacity st 0 [1; 2; 3] with Ret (_, st) => st | Panic => ra_new end
  | Panic => ra_new
  end.

Lemma sample_ok : ra_ok sample.
Proof.
  pose proof (write_any_ok Plain.with_capacity ra_new 5 [6; 7; 8] false
                Plain.with_capacity_exact ra_new_ok ltac:(lia)) as (st1 & E1 & Hok1 & _).
  pose proof (write_any_ok Plain.with_capacity st1 0 [1; 2; 3] false
                Plain.with_capacity_exact Hok1 ltac:(lia)) as (st2 & E2 & Hok2 & _).
  unfold sample. unfold write_any in E1, E2. rewrite E1. rewrite E2. done.
Qed.

Lemma reassembler_write_witness :
  exists st', write_at Plain.with_capacity sample 2 [9; 9; 9; 9] = Ret (Ok tt, st') /\ ra_ok st'.
Proof.
  destruct (reassembler_write Plain.with_capacity sample 2 [9; 9; 9; 9] false
              Plain.with_capacity_exact sample_ok ltac:(lia)) as (st' & E & Hok & _).
  exists st'. split; [exact E | exact Hok].
Defined.

Lemma reassembler_read_witness :
  exists chunk st', pop_watermarked sample 2 = Ret (chunk, st')
    /\ took sample match chunk with Some c => b_as_slice c | None => [] end st'.
Proof.
  destruct (reassembler_read sample 2 sample_ok ltac:(lia)) as (c & st' & E & Ht & _).
  exists c, st'. split; [exact E | exact Ht].
Defined.

Lemma reassembler_copy_witness :
  exists bs st', copy_into 5 sample 10 = Ret (bs, st') /\ took sample bs st'.
Proof.
  destruct (reassembler_copy sample 10 5 sample_ok ltac:(lia) ltac:(vm_compute; lia)) as [(bs & st' & E & Ht & _) _].
  exists bs, st'. split; [exact E | exact Ht].
Defined.

Lemma reassembler_delivers_witness :
  exists st st', receive Plain.with_capacity (fun x => x mod 7) 10 ra_new [(6, 4); (0, 3); (2, 5)] = Ret (Ok tt, st)
    /\ copy_into (length (slots st)) st 10 = Ret (segment (fun x => x mod 7) 0 10, st')
    /\ is_reading_complete st' = true.
Proof.
  apply (reassembler_delivers Plain.with_capacity (fun x => x mod 7) 10 [(6, 4); (0, 3); (2, 5)]).
  - exact Plain.with_capacity_exact.
  - unfold MAX_VARINT_VALUE. lia.
  - repeat constructor; simpl; lia.
  - intros x Hx. unfold covers. rewrite !Exists_cons, Exists_nil. simpl. lia.
Defined.

(** The slots of the sample: the buffer was split in front of the later bytes. *)
Example sample_slots :
  map (fun s => (slot_start s, slot_end_allocated s, b_as_slice (slot_data s))) (slots sample)
  = [(0, 5, [1; 2; 3]); (5, 4096, [6; 7; 8])].
Proof. vm_compute. reflexivity. Qed.
