(* ===== verification/Transmission.v ===== *)
(** * Transmission contexts

    [transmission/mode.rs], [transmission/constraint.rs],
    [transmission/interest.rs], and the trait [transmission::Writer]: the packet
    a component writes its frames to. *)
From S2P Require Import Prelude Codec VarInt FrameAck Frames.

Inductive Mode := LossRecoveryProbing | MtuProbing | PathValidationOnly | Normal.

Module ModeOps.
Definition is_loss_recovery_probing (self : Mode) : bool :=
  match self with LossRecoveryProbing => true | _ => false end.
Definition is_mtu_probing (self : Mode) : bool := match self with MtuProbing => true | _ => false end.
End ModeOps.

Inductive Constraint := Unconstrained | RetransmissionOnly | CongestionLimited | AmplificationLimited.

Module ConstraintOps.
Definition is_none (self : Constraint) : bool := match self with Unconstrained => true | _ => false end.
Definition is_amplification_limited (self : Constraint) : bool :=
  match self with AmplificationLimited => true | _ => false end.
Definition is_congestion_limited (self : Constraint) : bool :=
  match self with CongestionLimited => true | _ => false end.
Definition is_retransmission_only (self : Constraint) : bool :=
  match self with RetransmissionOnly => true | _ => false end.
Definition can_transmit (self : Constraint) : bool := is_none self.
Definition can_retransmit (self : Constraint) : bool := can_transmit self || is_retransmission_only self.
End ConstraintOps.

Inductive Interest := NoInterest | NewData | LostData | Forced.

(** A component reports its interests one after the other; a query may stop it
    ([Err(QueryBreak)], the flag). *)
Module InterestOps.
Definition can_transmit (self : Interest) (limit : Constraint) : bool :=
  match self, limit with
  | _, AmplificationLimited => false
  | Forced, _ => true
  | LostData, _ => ConstraintOps.can_retransmit limit
  | NewData, _ => ConstraintOps.can_transmit limit
  | NoInterest, _ => false
  end.
Definition is_none (self : Interest) : bool := match self with NoInterest => true | _ => false end.

(** [Query for Interest]. *)
Definition on_interest (self interest : Interest) : Interest * bool :=
  match self, interest with
  | Forced, _ | _, Forced => (Forced, true)
  | LostData, _ | _, LostData => (LostData, false)
  | NewData, _ | _, NewData => (NewData, false)
  | NoInterest, NoInterest => (NoInterest, false)
  end.
Fixpoint get_transmission_interest (self : Interest) (reported : list Interest) : Interest :=
  match reported with
  | [] => self
  | i :: rest =>
      let '(self, stop) := on_interest self i in
      if stop then self else get_transmission_interest self rest
  end.

(** [has_transmission_interest] and [Provider::can_transmit]: whether any
    reported interest stops the query. *)
Definition has_transmission_interest (reported : list Interest) : bool :=
  existsb (fun i => negb (is_none i)) reported.
Definition provider_can_transmit (constraint : Constraint) (reported : list Interest) : bool :=
  existsb (fun i => can_transmit i constraint) reported.
End InterestOps.

(** A frame to send. *)
Definition frame : Type := Frame.t (list (Z * Z)).

(** What a component sees of the packet, depending on the frames it has already
    written to it: the room left, and whether a frame is taken, with the number
    of the packet; [write_fitted_frame] panics if it is not. *)
Record Writer := mk_writer {
  current_time : Z;
  transmission_constraint : Constraint;
  transmission_mode : Mode;
  remaining_capacity : list frame -> Z;
  write_frame : list frame -> frame -> option Z;
  write_frame_forced : list frame -> frame -> option Z;
  write_fitted_frame : list frame -> frame -> outcome Z;
  ack_elicitation : Frame.AckElicitation;
  packet_number : Z;
  header_len : Z;
  tag_len : Z
}.
