(* ===== verification/TransmissionContext.v ===== *)
(** * The context of a transmission

    [transmission/context.rs]: the packet that frames are written to.  The scatter
    buffer is its main buffer: deferring the copy of the last chunk, and the
    published events, are not modelled. *)
From S2P Require Import Prelude Codec VarInt FrameAck Frames FrameCodec Transmission.

Module Context.
Section Ops.
Context (be : bool).

(** [ack_elicitation] and [is_congestion_controlled] are those of
    [transmission::Outcome]. *)
Record t := mk {
  buffer : EncoderBuffer;
  ack_elicitation : Frame.AckElicitation;
  is_congestion_controlled : bool;
  packet_number : Z;
  transmission_constraint : Constraint;
  transmission_mode : Mode;
  timestamp : Z;
  header_len : Z;
  tag_len : Z
}.

Definition check_frame_constraint (self : t) (f : frame) : outcome unit :=
  let! _ :=
    match transmission_mode self with
    | PathValidationOnly => rassert (match Frame.path_validation f with Frame.Probing => true | _ => false end)
    | _ => Ret tt
    end in
  match transmission_constraint self with
  | AmplificationLimited => Panic
  | CongestionLimited => rassert (negb (Frame.is_congestion_controlled f))
  | RetransmissionOnly | Unconstrained => Ret tt
  end.

(** [frame.encoding_size()]. *)
Definition frame_size (f : frame) : outcome Z :=
  match f with
  | Frame.Stream f => Stream.encoding_size_for_encoder be f (umax 64)
  | _ => encoding_size (Frame.encode be f)
  end.

Definition remaining_capacity (self : t) : Z := eb_remaining (buffer self).

(** [self.buffer.encode(frame)] and what follows it. *)
Definition encode (self : t) (f : frame) : outcome t :=
  let! buffer := Frame.encode be f _ _ (buffer self) in
  Ret (mk buffer (Frame.ack_elicitation_or (ack_elicitation self) (Frame.ack_elicitation f))
         (is_congestion_controlled self || Frame.is_congestion_controlled f) (packet_number self)
         (transmission_constraint self) (transmission_mode self) (timestamp self) (header_len self) (tag_len self)).

Definition write_frame_forced (self : t) (f : frame) : outcome (option Z * t) :=
  let! size := frame_size f in
  if remaining_capacity self <? size then Ret (None, self) else
  let! self := encode self f in
  Ret (Some (packet_number self), self).
Definition write_frame (self : t) (f : frame) : outcome (option Z * t) :=
  let! _ := check_frame_constraint self f in
  write_frame_forced self f.
Definition write_fitted_frame (self : t) (f : frame) : outcome (Z * t) :=
  let! _ := check_frame_constraint self f in
  let! size := frame_size f in
  let! _ := rassert (size <=? remaining_capacity self) in
  let! self := encode self f in
  Ret (packet_number self, self).

(** The context after frames were written to it. *)
Fixpoint replay (self : t) (fs : list frame) : outcome t :=
  match fs with [] => Ret self | f :: fs => let! self := encode self f in replay self fs end.

(** The context as components see it, as a function of the frames written so
    far.  [write_frame] has no value for a panic: where the check of the
    constraint fails, which it does not for the contexts a component is called
    with ([context_writes]), it is a frame that was not written. *)
Definition writer (self : t) : Writer := {|
  Transmission.current_time := timestamp self;
  Transmission.transmission_constraint := transmission_constraint self;
  Transmission.transmission_mode := transmission_mode self;
  Transmission.remaining_capacity fs := match replay self fs with Ret c => remaining_capacity c | Panic => 0 end;
  Transmission.write_frame fs f :=
    match (let! c := replay self fs in write_frame c f) with Ret (r, _) => r | Panic => None end;
  Transmission.write_frame_forced fs f :=
    match (let! c := replay self fs in write_frame_forced c f) with Ret (r, _) => r | Panic => None end;
  Transmission.write_fitted_frame fs f :=
    let! c := replay self fs in let! '(n, _) := write_fitted_frame c f in Ret n;
  Transmission.ack_elicitation := ack_elicitation self;
  Transmission.packet_number := packet_number self;
  Transmission.header_len := header_len self;
  Transmission.tag_len := tag_len self
|}.
End Ops.
End Context.

(** ** What a component may rely on *)

Definition payload (fs : list frame) : list Z := concat (frame_wire <$> fs).

Lemma payload_app fs gs : payload (fs ++ gs) = payload fs ++ payload gs.
Proof. unfold payload. by rewrite fmap_app, concat_app. Qed.
Lemma payload_snoc fs f : payload (fs ++ [f]) = payload fs ++ frame_wire f.
Proof. rewrite payload_app. unfold payload. cbn. by rewrite app_nil_r. Qed.

(** The frames make up the front of a packet. *)
Definition packet_ok (w : Writer) (fs : list frame) : Prop :=
  Forall frame_ok fs /\ blen (payload fs) <= remaining_capacity w [].

(** A packet is at most as long as a datagram. *)
Record writer_ok (w : Writer) : Prop := {
  writer_room_bound : 0 <= remaining_capacity w [] <= umax 16;
  writer_room fs : packet_ok w fs -> remaining_capacity w fs = remaining_capacity w [] - blen (payload fs);
  writer_fitted fs f : ConstraintOps.can_retransmit (transmission_constraint w) = true ->
    packet_ok w fs -> frame_ok f -> blen (frame_wire f) <= remaining_capacity w fs ->
    write_fitted_frame w fs f = Ret (packet_number w);
  writer_probe : transmission_mode w = LossRecoveryProbing -> ConstraintOps.can_transmit (transmission_constraint w) = true
}.

Lemma packet_ok_nil w : writer_ok w -> packet_ok w [].
Proof. intros Hw. split; [constructor |]. change (blen (payload [])) with 0. apply (writer_room_bound w Hw). Qed.

Lemma packet_ok_snoc w fs f :
  writer_ok w -> packet_ok w fs -> frame_ok f -> blen (frame_wire f) <= remaining_capacity w fs -> packet_ok w (fs ++ [f]).
Proof.
  intros Hw Hfs Hf Hroom. rewrite (writer_room w Hw fs Hfs) in Hroom. split.
  - apply Forall_app. split; [apply Hfs | by constructor].
  - rewrite payload_snoc, blen_app. lia.
Qed.

Lemma writer_room_range w fs : writer_ok w -> packet_ok w fs -> 0 <= remaining_capacity w fs <= umax 16.
Proof.
  intros Hw Hfs. rewrite (writer_room w Hw fs Hfs). destruct Hfs as [_ H]. pose proof (writer_room_bound w Hw).
  pose proof (blen_nonneg (payload fs)). lia.
Qed.

(** ** The context keeps to it *)

Lemma frame_size_ok be f : frame_ok f -> blen (frame_wire f) < 2 ^ 64 -> Context.frame_size be f = Ret (blen (frame_wire f)).
Proof.
  intros Hf Hlen. assert (H : encoding_size (Frame.encode be f) = Ret (blen (frame_wire f))).
  { unfold encoding_size, encoding_size_with. destruct (encodes_as_frame be f Hf) as [_ H].
    rewrite H by (cbn; lia). done. }
  destruct f; try exact H. by apply stream_encoding_size.
Qed.

Lemma remaining_appended eb bs eb' :
  eb_wf eb -> appended eb bs eb' -> blen bs <= eb_remaining eb -> eb_remaining eb' = eb_remaining eb - blen bs.
Proof.
  intros [H0 H1] ([H2 H3] & Hl & Hw) Hb. apply (f_equal blen) in Hw. unfold eb_remaining, saturating_sub, written in *.
  rewrite blen_app in Hw. unfold blen in *. rewrite !length_take in Hw. lia.
Qed.

Lemma replay_number be fs : forall c c', Context.replay be c fs = Ret c' -> Context.packet_number c' = Context.packet_number c.
Proof.
  induction fs as [| f fs IH]; intros c c'; cbn [Context.replay]; [by intros [= <-] |].
  unfold Context.encode at 1. destruct (Frame.encode be f _ _ _) as [eb |]; [| done]. cbn [obind]. intros E. by apply IH in E.
Qed.

Section ContextWriter.
Context (be : bool) (c : Context.t).
Hypothesis c_wf : eb_wf (Context.buffer c).
Hypothesis c_len : blen (eb_bytes (Context.buffer c)) <= umax 16.
Hypothesis c_mode : Context.transmission_mode c <> PathValidationOnly.
Hypothesis c_probe :
  Context.transmission_mode c = LossRecoveryProbing -> Context.transmission_constraint c = Unconstrained.

Local Abbreviation room := (Context.remaining_capacity c).

Lemma replay_ok fs : forall c0,
  eb_wf (Context.buffer c0) -> Forall frame_ok fs -> blen (payload fs) <= Context.remaining_capacity c0 ->
  returns (Context.replay be c0 fs) (fun c' =>
    eb_wf (Context.buffer c') /\ Context.remaining_capacity c' = Context.remaining_capacity c0 - blen (payload fs)
    /\ Context.packet_number c' = Context.packet_number c0 /\ Context.transmission_mode c' = Context.transmission_mode c0
    /\ Context.transmission_constraint c' = Context.transmission_constraint c0).
Proof.
  induction fs as [| f fs IH]; intros c0 Hc Hfs Hroom.
  { apply returns_ret. change (blen (payload [])) with 0. split_and!; try done. lia. }
  apply Forall_cons in Hfs as [Hf Hfs]. change (payload (f :: fs)) with (frame_wire f ++ payload fs) in *. rewrite blen_app in *.
  pose proof (blen_nonneg (frame_wire f)). pose proof (blen_nonneg (payload fs)). cbn [Context.replay]. unfold Context.encode at 1.
  destruct (proj1 (encodes_as_frame be f Hf) (Context.buffer c0) Hc) as (eb' & -> & Happ); [unfold Context.remaining_capacity in Hroom; lia |].
  cbn [obind]. pose proof (remaining_appended _ _ _ Hc Happ ltac:(unfold Context.remaining_capacity in Hroom; lia)) as Hr.
  eapply returns_mono; [apply IH; [apply Happ | done | unfold Context.remaining_capacity in *; cbn [Context.buffer]; lia] |].
  cbn [Context.packet_number Context.transmission_mode Context.transmission_constraint].
  unfold Context.remaining_capacity in *. cbn [Context.buffer]. intros c' (? & E & ?). split_and!; try done; [lia | tauto..].
Qed.

Lemma context_writer_ok : writer_ok (Context.writer be c).
Proof.
  pose proof c_wf as [Hp Hb]. assert (Hroom : 0 <= room <= umax 16) by (unfold Context.remaining_capacity, eb_remaining, saturating_sub; lia).
  split; cbn -[Z.pow Context.replay].
  - done.
  - intros fs [Hfs Hlen]. cbn [remaining_capacity Context.writer Context.replay] in Hlen.
    destruct (replay_ok fs c c_wf Hfs Hlen) as (c' & -> & _ & -> & _). done.
  - intros fs f Hcon [Hfs Hlen] Hf. cbn [remaining_capacity Context.writer Context.replay] in Hlen.
    destruct (replay_ok fs c c_wf Hfs Hlen) as (c' & -> & Hc' & Hr & En & Em & Ec). intros Hle. cbn [obind]. unfold Context.write_fitted_frame.
    assert (Context.check_frame_constraint c' f = Ret tt) as ->.
    { unfold Context.check_frame_constraint. rewrite Em, Ec. by destruct (Context.transmission_mode c), (Context.transmission_constraint c). }
    cbn [obind]. pose proof (blen_nonneg (payload fs)). change (umax 16) with 65535 in Hroom. rewrite frame_size_ok by (done || lia). cbn [obind]. rewrite (proj2 (Z.leb_le _ _)) by done. cbn [rassert obind].
    unfold Context.encode. destruct (proj1 (encodes_as_frame be f Hf) (Context.buffer c') Hc' Hle) as (eb' & -> & _). cbn. by rewrite En.
  - intros E. by rewrite (c_probe E).
Qed.

(** A frame that is written gets the number of the packet. *)
Lemma context_number fs f p : write_frame (Context.writer be c) fs f = Some p -> p = Context.packet_number c.
Proof.
  cbn -[Context.replay]. destruct (Context.replay be c fs) as [c' |] eqn:Er; [| done]. cbn [obind]. rewrite <- (replay_number be fs c c' Er).
  unfold Context.write_frame. destruct (Context.check_frame_constraint c' f); [| done]. cbn [obind]. unfold Context.write_frame_forced.
  destruct (Context.frame_size be f); [| done]. cbn [obind]. destruct (_ <? _); [done |]. unfold Context.encode.
  destruct (Frame.encode be f _ _ _); [| done]. by intros [= <-].
Qed.

(** Without a constraint, no check fails, and a frame that fits is written. *)
Lemma context_writes fs f :
  Context.transmission_constraint c = Unconstrained -> packet_ok (Context.writer be c) fs -> frame_ok f ->
  blen (frame_wire f) <= remaining_capacity (Context.writer be c) fs -> write_frame (Context.writer be c) fs f = Some (Context.packet_number c).
Proof.
  intros Hcon [Hfs Hlen] Hf. pose proof c_wf as [Hp Hb]. assert (Hroom : room <= umax 16) by (unfold Context.remaining_capacity, eb_remaining, saturating_sub; lia).
  change (umax 16) with 65535 in Hroom. cbn -[Z.pow Context.replay] in *. cbn [Context.replay] in Hlen.
  destruct (replay_ok fs c c_wf Hfs Hlen) as (c' & -> & Hc' & Hr & En & Em & Ec). intros Hle. cbn [obind]. unfold Context.write_frame.
  assert (Context.check_frame_constraint c' f = Ret tt) as ->.
  { unfold Context.check_frame_constraint. rewrite Em, Ec, Hcon. by destruct (Context.transmission_mode c). }
  cbn [obind]. unfold Context.write_frame_forced. pose proof (blen_nonneg (payload fs)). rewrite frame_size_ok by (done || lia). cbn [obind].
  rewrite (proj2 (Z.ltb_ge _ _)) by done. unfold Context.encode. destruct (proj1 (encodes_as_frame be f Hf) (Context.buffer c') Hc' Hle) as (eb' & -> & _). cbn. by rewrite En.
Qed.
End ContextWriter.
