(* ===== verification/Mtu.v ===== *)
(** * Path MTU discovery

    [path/mtu.rs]: the configuration of the MTU, and the controller that probes
    for the largest datagram a path carries.  Sizes are [u16]; the operations
    return the datagram sizes they announce to the congestion controller.  The
    events for observers are left out. *)
From S2P Require Import Prelude Codec VarInt PacketNumber FrameAck Frames Time Transmission.

Module Mtu.

Definition MAX_PROBES : Z := 3.
Definition ETHERNET_MTU : Z := 1500.
Definition PROBE_THRESHOLD : Z := 20.
Definition BLACK_HOLE_THRESHOLD : Z := 3.
Definition BLACK_HOLE_COOL_OFF_DURATION : Z := Duration.from_secs 60.
Definition PMTU_RAISE_TIMER_DURATION : Z := Duration.from_secs 600.
Definition MINIMUM_MAX_DATAGRAM_SIZE : Z := 1200.
Definition UDP_HEADER_LEN : Z := 8.
Definition IPV4_MIN_HEADER_LEN : Z := 20.
Definition IPV6_MIN_HEADER_LEN : Z := 40.
Definition const_min (a b : Z) : Z := if a <? b then a else b.
Definition MINIMUM_MTU : Z :=
  MINIMUM_MAX_DATAGRAM_SIZE + UDP_HEADER_LEN + const_min IPV4_MIN_HEADER_LEN IPV6_MIN_HEADER_LEN.

(** ** Configuration *)

(** The family of a socket address. *)
Inductive SocketAddress := IpV4 | IpV6.
Definition min_ip_header_len (peer : SocketAddress) : Z :=
  match peer with IpV4 => IPV4_MIN_HEADER_LEN | IpV6 => IPV6_MIN_HEADER_LEN end.

Inductive MtuError := mk_MtuError.

(** [TryFrom<u16>] of [MaxMtu], [InitialMtu] and [BaseMtu]. *)
Definition try_from (value : Z) : result Z MtuError :=
  if value <? MINIMUM_MTU then Err mk_MtuError else Ok value.

Definition mtu_max_datagram_size (self : Z) (peer : SocketAddress) : outcome Z :=
  let! v := sub_c self UDP_HEADER_LEN in
  let! v := sub_c v (min_ip_header_len peer) in
  Ret (Z.max v MINIMUM_MAX_DATAGRAM_SIZE).

Definition DEFAULT_MAX_MTU : Z := 1500.
Definition DEFAULT_BASE_MTU : Z := MINIMUM_MTU.
Definition DEFAULT_INITIAL_MTU : Z := MINIMUM_MTU.

Record Config := mk_config { initial_mtu : Z; base_mtu : Z; max_mtu : Z }.

Definition config_default : Config := mk_config DEFAULT_INITIAL_MTU DEFAULT_BASE_MTU DEFAULT_MAX_MTU.
Definition is_valid (self : Config) : bool :=
  (base_mtu self <=? initial_mtu self) && (initial_mtu self <=? max_mtu self).

Record Builder := mk_builder { b_initial : option Z; b_base : option Z; b_max : option Z }.

Definition ensure (b : bool) : result unit MtuError := if b then Ok tt else Err mk_MtuError.
Definition opt_all (o : option Z) (f : Z -> bool) : bool := match o with Some v => f v | None => true end.

Definition with_initial_mtu (self : Builder) (v : Z) : result Builder MtuError :=
  let? _ := ensure (opt_all (b_base self) (fun base => base <=? v)) in
  let? _ := ensure (opt_all (b_max self) (fun max => v <=? max)) in
  let? v := try_from v in
  Ok (mk_builder (Some v) (b_base self) (b_max self)).
Definition with_base_mtu (self : Builder) (v : Z) : result Builder MtuError :=
  let? _ := ensure (opt_all (b_initial self) (fun initial => v <=? initial)) in
  let? _ := ensure (opt_all (b_max self) (fun max => v <=? max)) in
  let? v := try_from v in
  Ok (mk_builder (b_initial self) (Some v) (b_max self)).
Definition with_max_mtu (self : Builder) (v : Z) : result Builder MtuError :=
  let? _ := ensure (opt_all (b_initial self) (fun initial => initial <=? v)) in
  let? _ := ensure (opt_all (b_base self) (fun base => base <=? v)) in
  let? v := try_from v in
  Ok (mk_builder (b_initial self) (b_base self) (Some v)).

Definition unwrap_or (o : option Z) (d : Z) : Z := match o with Some v => v | None => d end.

Definition build (self : Builder) : result Config MtuError :=
  let base := unwrap_or (b_base self) DEFAULT_BASE_MTU in
  let max := unwrap_or (b_max self) DEFAULT_MAX_MTU in
  let initial := unwrap_or (b_initial self) DEFAULT_INITIAL_MTU in
  let? initial :=
    match b_initial self with
    | None => try_from (Z.min (Z.max initial base) max)
    | Some _ => Ok initial
    end in
  let config := mk_config initial base max in
  let? _ := ensure (is_valid config) in
  Ok config.

(** [Manager::config]: the provider's answer for a path, checked. *)
Definition manager_config (endpoint : Config) (on_path : option Config) : result Config MtuError :=
  match on_path with
  | Some conn =>
      let? _ := ensure (is_valid conn) in
      let? _ := ensure (max_mtu conn <=? max_mtu endpoint) in
      Ok conn
  | None => Ok endpoint
  end.

(** ** The controller *)

Inductive State :=
| EarlySearchRequested
| Disabled
| SearchRequested
| Searching (packet_number : Z) (transmit_time : Z)
| SearchComplete.

Inductive MtuResult := NoChange | MtuUpdated (mtu : Z).

Record Controller := mk_mtu {
  state : State;
  base_plpmtu : Z;
  plpmtu : Z;
  max_udp_payload : Z;
  probed_size : Z;
  max_probe_size : Z;
  probe_count : Z;
  black_hole_counter : Z;
  largest_acked_mtu_sized_packet : option Z;
  pmtu_raise_timer : Timer.t;
  needs_to_send_completion : bool;
  mtu_probing_complete_support : bool
}.

Definition set_state (s : State) (c : Controller) : Controller :=
  mk_mtu s (base_plpmtu c) (plpmtu c) (max_udp_payload c) (probed_size c) (max_probe_size c) (probe_count c)
    (black_hole_counter c) (largest_acked_mtu_sized_packet c) (pmtu_raise_timer c) (needs_to_send_completion c)
    (mtu_probing_complete_support c).
Definition set_plpmtu (v : Z) (c : Controller) : Controller :=
  mk_mtu (state c) (base_plpmtu c) v (max_udp_payload c) (probed_size c) (max_probe_size c) (probe_count c)
    (black_hole_counter c) (largest_acked_mtu_sized_packet c) (pmtu_raise_timer c) (needs_to_send_completion c)
    (mtu_probing_complete_support c).
Definition set_probed_size (v : Z) (c : Controller) : Controller :=
  mk_mtu (state c) (base_plpmtu c) (plpmtu c) (max_udp_payload c) v (max_probe_size c) (probe_count c)
    (black_hole_counter c) (largest_acked_mtu_sized_packet c) (pmtu_raise_timer c) (needs_to_send_completion c)
    (mtu_probing_complete_support c).
Definition set_max_probe_size (v : Z) (c : Controller) : Controller :=
  mk_mtu (state c) (base_plpmtu c) (plpmtu c) (max_udp_payload c) (probed_size c) v (probe_count c)
    (black_hole_counter c) (largest_acked_mtu_sized_packet c) (pmtu_raise_timer c) (needs_to_send_completion c)
    (mtu_probing_complete_support c).
Definition set_probe_count (v : Z) (c : Controller) : Controller :=
  mk_mtu (state c) (base_plpmtu c) (plpmtu c) (max_udp_payload c) (probed_size c) (max_probe_size c) v
    (black_hole_counter c) (largest_acked_mtu_sized_packet c) (pmtu_raise_timer c) (needs_to_send_completion c)
    (mtu_probing_complete_support c).
Definition set_black_hole (v : Z) (largest : option Z) (c : Controller) : Controller :=
  mk_mtu (state c) (base_plpmtu c) (plpmtu c) (max_udp_payload c) (probed_size c) (max_probe_size c) (probe_count c)
    v largest (pmtu_raise_timer c) (needs_to_send_completion c) (mtu_probing_complete_support c).
Definition set_timer (v : Timer.t) (c : Controller) : Controller :=
  mk_mtu (state c) (base_plpmtu c) (plpmtu c) (max_udp_payload c) (probed_size c) (max_probe_size c) (probe_count c)
    (black_hole_counter c) (largest_acked_mtu_sized_packet c) v (needs_to_send_completion c)
    (mtu_probing_complete_support c).
Definition set_completion (needs support : bool) (c : Controller) : Controller :=
  mk_mtu (state c) (base_plpmtu c) (plpmtu c) (max_udp_payload c) (probed_size c) (max_probe_size c) (probe_count c)
    (black_hole_counter c) (largest_acked_mtu_sized_packet c) (pmtu_raise_timer c) needs support.

Definition is_early_search_requested (s : State) : bool :=
  match s with EarlySearchRequested => true | _ => false end.
Definition is_disabled (s : State) : bool := match s with Disabled => true | _ => false end.
Definition is_search_complete (s : State) : bool := match s with SearchComplete => true | _ => false end.

Definition next_probe_size (current max : Z) : outcome Z :=
  let! d := sub_c max current in add_c 16 current (d / 2).

Definition new (config : Config) (peer : SocketAddress) : outcome Controller :=
  let! _ := rassert (is_valid config) in
  let! base := mtu_max_datagram_size (base_mtu config) peer in
  let! max := mtu_max_datagram_size (max_mtu config) peer in
  let! mtu := mtu_max_datagram_size (initial_mtu config) peer in
  let! limit := sub_c ETHERNET_MTU PROBE_THRESHOLD in
  let! size :=
    if limit <? initial_mtu config then next_probe_size mtu max
    else
      let! v := sub_c ETHERNET_MTU UDP_HEADER_LEN in
      sub_c v (min_ip_header_len peer) in
  let initial_probed_size := Z.min size max in
  let! state :=
    if base <? mtu then Ret EarlySearchRequested
    else
      let! d := sub_c initial_probed_size base in
      Ret (if d <? PROBE_THRESHOLD then SearchComplete else Disabled) in
  Ret (mk_mtu state base mtu max initial_probed_size max 0 0 None Timer.default false false).

Definition enable_mtu_probing_complete_support (self : Controller) : Controller :=
  set_completion (needs_to_send_completion self || is_search_complete (state self)) true self.

Definition update_probed_size (self : Controller) : outcome Controller :=
  let! size := next_probe_size (plpmtu self) (max_probe_size self) in
  Ret (set_probed_size size self).

Definition is_next_probe_size_above_threshold (self : Controller) : outcome bool :=
  let! d := sub_c (probed_size self) (plpmtu self) in
  Ret (PROBE_THRESHOLD <=? d).

Definition set_search_complete (self : Controller) : Controller :=
  let self := set_state SearchComplete self in
  if mtu_probing_complete_support self then set_completion true true self else self.

Definition arm_pmtu_raise_timer (self : Controller) (timestamp : Z) : outcome Controller :=
  let! self := update_probed_size (set_max_probe_size (max_udp_payload self) self) in
  let! above := is_next_probe_size_above_threshold self in
  Ret (if above then set_timer (Timer.set (pmtu_raise_timer self) timestamp) self else self).

Definition request_new_search (self : Controller) (last_probe_time : option Z) : outcome Controller :=
  let! above := is_next_probe_size_above_threshold self in
  if above then Ret (set_state SearchRequested (set_probe_count 0 self))
  else
    let self := set_search_complete self in
    match last_probe_time with
    | Some t =>
        let! at_ := Timestamp.add t PMTU_RAISE_TIMER_DURATION in
        arm_pmtu_raise_timer self at_
    | None => Ret self
    end.

Definition enable (self : Controller) : outcome Controller :=
  if is_disabled (state self) || is_early_search_requested (state self)
  then request_new_search self None else Ret self.

Definition on_timeout (self : Controller) (now : Z) : outcome Controller :=
  let! '(ready, timer) := Timer.poll_expiration (pmtu_raise_timer self) now in
  let self := set_timer timer self in
  if ready then request_new_search self None else Ret self.

(** [packet_number > pn] for the packet number remembered, if any. *)
Definition is_none_or_gt (largest : option Z) (packet_number : Z) : outcome bool :=
  match largest with
  | None => Ret true
  | Some pn => let! c := PacketNumber.cmp packet_number pn in Ret (match c with Gt => true | _ => false end)
  end.
Definition in_application_data (packet_number : Z) : outcome bool :=
  let! space := PacketNumber.space packet_number in
  Ret (match space with ApplicationData => true | _ => false end).

(** The result, the sizes announced to the congestion controller, and the
    controller. *)
Definition on_packet_ack (self : Controller) (packet_number sent_bytes : Z)
    : outcome (MtuResult * list Z * Controller) :=
  let! self :=
    if is_early_search_requested (state self) && (base_plpmtu self <? sent_bytes) then
      let! above := is_next_probe_size_above_threshold self in
      Ret (if above then set_state Disabled self else set_search_complete self)
    else Ret self in
  if is_disabled (state self) then Ret (NoChange, [], self) else
  let! app := in_application_data packet_number in
  if negb app then Ret (NoChange, [], self) else
  let! newer := if plpmtu self <=? sent_bytes
                then is_none_or_gt (largest_acked_mtu_sized_packet self) packet_number else Ret false in
  let self := if newer then set_black_hole 0 (Some packet_number) self else self in
  match state self with
  | Searching probe_packet_number transmit_time =>
      let! acked := pn_eq packet_number probe_packet_number in
      if acked then
        let self := set_plpmtu (probed_size self) self in
        let announced := plpmtu self in
        let! self := update_probed_size self in
        let! self := request_new_search self (Some transmit_time) in
        Ret (MtuUpdated (plpmtu self), [announced], self)
      else Ret (NoChange, [], self)
  | _ => Ret (NoChange, [], self)
  end.

Definition on_black_hole_detected (self : Controller) (now : Z) : outcome (MtuResult * list Z * Controller) :=
  let self := set_black_hole 0 None self in
  let self := set_plpmtu (base_plpmtu self) self in
  let announced := plpmtu self in
  let self := set_search_complete self in
  let! at_ := Timestamp.add now BLACK_HOLE_COOL_OFF_DURATION in
  let! self := arm_pmtu_raise_timer self at_ in
  Ret (MtuUpdated (plpmtu self), [announced], self).

(** The loss of a packet that is not the probe. *)
Definition on_other_loss (self : Controller) (packet_number lost_bytes : Z) (new_loss_burst : bool) (now : Z)
    : outcome (MtuResult * list Z * Controller) :=
  let! first := add_c 16 (base_plpmtu self) 1 in
  let! suspicious :=
    if (first <=? lost_bytes) && (lost_bytes <=? plpmtu self)
    then
      let! newer := is_none_or_gt (largest_acked_mtu_sized_packet self) packet_number in
      Ret (newer && new_loss_burst)
    else Ret false in
  let self := if suspicious
              then set_black_hole (saturating_add 8 (black_hole_counter self) 1)
                     (largest_acked_mtu_sized_packet self) self
              else self in
  if BLACK_HOLE_THRESHOLD <? black_hole_counter self then on_black_hole_detected self now
  else Ret (NoChange, [], self).

Definition on_packet_loss (self : Controller) (packet_number lost_bytes : Z) (new_loss_burst : bool) (now : Z)
    : outcome (MtuResult * list Z * Controller) :=
  let! app := if is_early_search_requested (state self) then Ret true else in_application_data packet_number in
  if negb app then Ret (NoChange, [], self) else
  match state self with
  | Disabled => Ret (NoChange, [], self)
  | EarlySearchRequested =>
      let self := set_plpmtu (base_plpmtu self) self in
      let announced := plpmtu self in
      let! above := is_next_probe_size_above_threshold self in
      let self := if above then set_state Disabled self else set_search_complete self in
      Ret (MtuUpdated (plpmtu self), [announced], self)
  | Searching probe_pn _ =>
      let! lost := pn_eq probe_pn packet_number in
      if lost then
        if probe_count self =? MAX_PROBES then
          let! self := update_probed_size (set_max_probe_size (probed_size self) self) in
          let! self := request_new_search self None in
          Ret (NoChange, [], self)
        else Ret (NoChange, [], set_state SearchRequested self)
      else on_other_loss self packet_number lost_bytes new_loss_burst now
  | SearchComplete | SearchRequested => on_other_loss self packet_number lost_bytes new_loss_burst now
  end.

Definition max_datagram_size (self : Controller) : Z := plpmtu self.
Definition probed_sized (self : Controller) : Z := probed_size self.
Definition is_search_completed (self : Controller) : bool := is_search_complete (state self).

(** [on_transmit]: the frames written, and the controller. *)
Definition on_transmit (self : Controller) (context : Writer) : outcome (list frame * Controller) :=
  if needs_to_send_completion self then
    let f := Frame.MtuProbingComplete (MtuProbingComplete.mk (plpmtu self)) in
    match write_frame context [] f with
    | Some _ => Ret ([f], set_completion false (mtu_probing_complete_support self) self)
    | None => Ret ([], self)
    end
  else
    match state self with
    | SearchRequested =>
        if negb (ModeOps.is_mtu_probing (transmission_mode context)) then Ret ([], self) else
        let! size := sub_c (probed_size self) (header_len context) in
        let! probe_payload_size := sub_c size (tag_len context) in
        if remaining_capacity context [] <? probe_payload_size then Ret ([], set_search_complete self) else
        let ping := Frame.Ping Ping.mk in
        let written := match write_frame context [] ping with Some _ => [ping] | None => [] end in
        let! ping_size := encoding_size (Ping.encode Ping.mk) in
        let! padding_size := sub_c probe_payload_size ping_size in
        let padding := Frame.Padding (Padding.mk padding_size) in
        match write_frame context written padding with
        | Some packet_number =>
            let! count := add_c 8 (probe_count self) 1 in
            Ret (written ++ [padding],
                 set_state (Searching packet_number (current_time context)) (set_probe_count count self))
        | None => Ret (written, self)
        end
    | _ => Ret ([], self)
    end.

Definition transmission_interest (self : Controller) : list Interest :=
  match state self with
  | SearchRequested => [NewData]
  | SearchComplete => if needs_to_send_completion self then [NewData] else []
  | _ => []
  end.

End Mtu.
