(* ===== verification/MtuThm.v ===== *)
(** * Path MTU discovery is correct

    The controller never panics and keeps its sizes in order on any sequence of
    events; datagrams grow only to a size that a probe has confirmed; and the
    search ends near the largest size the path carries. *)
From S2P Require Import Prelude Codec VarInt PacketNumber FrameAck Frames FrameCodec Time Transmission TransmissionContext Mtu.
Import Mtu.

(** A packet number of the application data space. *)
Definition app_pn (pn : Z) : Prop :=
  exists v, varint_ok v /\ pn = PacketNumber.from_varint v ApplicationData.

(** The sizes, in order. *)
Definition sizes_ok (c : Controller) : Prop :=
  1200 <= base_plpmtu c <= plpmtu c /\ plpmtu c <= probed_size c <= max_probe_size c
  /\ max_probe_size c <= max_udp_payload c <= 65507
  /\ (max_probe_size c - probed_size c <= probed_size c - plpmtu c + 1 \/ 20 <= probed_size c - plpmtu c).

Definition counters_ok (c : Controller) : Prop :=
  0 <= probe_count c <= 3 /\ 0 <= black_hole_counter c <= 3
  /\ match largest_acked_mtu_sized_packet c with Some pn => app_pn pn | None => True end.

Definition state_ok (c : Controller) : Prop :=
  match state c with
  | SearchRequested => probe_count c < 3 /\ 20 <= probed_size c - plpmtu c
  | Searching pn t => app_pn pn /\ timestamp_ok t /\ 20 <= probed_size c - plpmtu c
  | _ => True
  end.

Definition mtu_ok (c : Controller) : Prop := sizes_ok c /\ counters_ok c /\ state_ok c.

(** The parts of the controller that no operation changes. *)
Definition same_limits (c c' : Controller) : Prop :=
  base_plpmtu c' = base_plpmtu c /\ max_udp_payload c' = max_udp_payload c.

Ltac mtu_open := unfold sizes_ok, counters_ok, state_ok, same_limits in *; simpl in *.

(** ** The operations *)

Lemma next_probe_size_ok cur max :
  0 <= cur <= max -> max <= 65507 ->
  next_probe_size cur max = Ret (cur + (max - cur) / 2) /\ 0 <= (max - cur) / 2 <= max - cur
  /\ max - cur <= 2 * ((max - cur) / 2) + 1.
Proof.
  intros H1 H2. unfold next_probe_size. rewrite sub_c_Ret by lia. cbn [obind].
  pose proof (Z.div_mod (max - cur) 2 ltac:(lia)). pose proof (Z.mod_pos_bound (max - cur) 2 ltac:(lia)).
  rewrite add_c_Ret by lia. split; [done | lia].
Qed.

(** The sizes without the one that is probed for. *)
Definition range_ok (c : Controller) : Prop :=
  1200 <= base_plpmtu c <= plpmtu c /\ plpmtu c <= max_probe_size c
  /\ max_probe_size c <= max_udp_payload c <= 65507.

Lemma update_probed_size_ok c :
  range_ok c ->
  exists size, update_probed_size c = Ret (set_probed_size size c) /\ sizes_ok (set_probed_size size c)
    /\ size = plpmtu c + (max_probe_size c - plpmtu c) / 2.
Proof.
  intros (H1 & H2 & H3). unfold update_probed_size.
  destruct (next_probe_size_ok (plpmtu c) (max_probe_size c)) as (-> & Hd); [lia | lia |]. cbn [obind].
  eexists. split; [reflexivity |]. mtu_open. split; [lia | done].
Qed.

Lemma above_threshold_ok c :
  sizes_ok c -> is_next_probe_size_above_threshold c = Ret (20 <=? probed_size c - plpmtu c).
Proof. intros H. mtu_open. unfold is_next_probe_size_above_threshold. by rewrite sub_c_Ret by lia. Qed.

(** A controller that only differs in its state, its timer, the count of probes
    and the frame to send. *)
Definition same_sizes (c c' : Controller) : Prop :=
  same_limits c c' /\ plpmtu c' = plpmtu c /\ probed_size c' = probed_size c /\ max_probe_size c' = max_probe_size c
  /\ black_hole_counter c' = black_hole_counter c
  /\ largest_acked_mtu_sized_packet c' = largest_acked_mtu_sized_packet c.

Lemma set_search_complete_spec c :
  let c' := set_search_complete c in
  same_sizes c c' /\ state c' = SearchComplete /\ probe_count c' = probe_count c
  /\ pmtu_raise_timer c' = pmtu_raise_timer c.
Proof. unfold set_search_complete. simpl. by destruct (mtu_probing_complete_support c). Qed.

Lemma sizes_ok_same c c' : same_sizes c c' -> sizes_ok c -> sizes_ok c'.
Proof. unfold same_sizes. mtu_open. intros ((-> & ->) & -> & -> & -> & _). done. Qed.

Lemma range_ok_same c c' : same_sizes c c' -> range_ok c -> range_ok c'.
Proof. unfold same_sizes, range_ok. mtu_open. intros ((-> & ->) & -> & _ & -> & _). done. Qed.

Lemma arm_timer_ok c t :
  range_ok c ->
  exists c', arm_pmtu_raise_timer c t = Ret c' /\ sizes_ok c' /\ same_limits c c' /\ plpmtu c' = plpmtu c
    /\ state c' = state c /\ probe_count c' = probe_count c /\ black_hole_counter c' = black_hole_counter c
    /\ largest_acked_mtu_sized_packet c' = largest_acked_mtu_sized_packet c
    /\ max_probe_size c' = max_udp_payload c.
Proof.
  intros Hr. pose proof Hr as (H1 & H2 & H3). unfold arm_pmtu_raise_timer.
  destruct (update_probed_size_ok (set_max_probe_size (max_udp_payload c) c)) as (size & -> & Hs & _);
    [unfold range_ok; simpl; lia |]. cbn [obind].
  rewrite above_threshold_ok by done. cbn [obind]. destruct (20 <=? _); eexists; (split; [reflexivity |]); by split_and!.
Qed.

(** What a new search leads to. *)
Lemma request_new_search_ok c last :
  sizes_ok c -> counters_ok c -> match last with Some t => timestamp_ok t | None => True end ->
  exists c', request_new_search c last = Ret c' /\ mtu_ok c' /\ same_limits c c' /\ plpmtu c' = plpmtu c
    /\ (state c' = SearchRequested /\ same_sizes c c' /\ probe_count c' = 0 /\ 20 <= probed_size c - plpmtu c
        /\ needs_to_send_completion c' = needs_to_send_completion c
        \/ state c' = SearchComplete /\ probed_size c - plpmtu c < 20).
Proof.
  intros Hs Hc Ht. unfold request_new_search. rewrite above_threshold_ok by done. cbn [obind].
  destruct (Z.leb_spec 20 (probed_size c - plpmtu c)).
  { eexists. split; [reflexivity |]. destruct Hc as (Hc1 & Hc2 & Hc3). split; [| split; [done |]; split; [done |]; left; by split_and!].
    split; [done |]. split; [split; [simpl; lia | done] | split; simpl; lia]. }
  destruct (set_search_complete_spec c) as (Hsame & Hst & Hpc & _). set (c1 := set_search_complete c) in *.
  pose proof (sizes_ok_same _ _ Hsame Hs) as Hs1. pose proof Hsame as ((Hb & Hm) & Hp & _ & _ & Hbh & Hla).
  assert (Hc1 : counters_ok c1) by (unfold counters_ok in *; by rewrite Hpc, Hbh, Hla).
  destruct last as [t |].
  - rewrite timestamp_add_ok by (done || (unfold PMTU_RAISE_TIMER_DURATION, Duration.from_secs; lia)). cbn [obind].
    destruct (arm_timer_ok c1 (t + PMTU_RAISE_TIMER_DURATION / 1000)) as (c' & -> & Hs' & Hl' & Hp' & Hst' & Hpc' & Hbh' & Hla' & _).
    { unfold range_ok. mtu_open. lia. }
    exists c'. split; [done |]. split; [split; [done |]; split |].
    + unfold counters_ok in *. by rewrite Hpc', Hbh', Hla'.
    + unfold state_ok. by rewrite Hst', Hst.
    + unfold same_limits in *. split; [destruct Hl'; split; congruence |]. split; [congruence |]. right. split; [congruence | lia].
  - exists c1. split; [done |]. split; [split; [done |]; split; [done |]; unfold state_ok; by rewrite Hst |].
    split; [done |]. split; [done |]. right. split; [done | lia].
Qed.

(** ** Packet numbers *)

Definition pn_ok (pn : Z) : Prop :=
  exists v s, varint_ok v /\ pn = PacketNumber.from_varint v s.

Lemma app_pn_ok pn : app_pn pn -> pn_ok pn.
Proof. intros (v & Hv & ->). by exists v, ApplicationData. Qed.

Lemma in_application_data_ok pn :
  pn_ok pn -> exists app, in_application_data pn = Ret app /\ (app = true -> app_pn pn).
Proof.
  intros (v & s & Hv & ->). unfold in_application_data. rewrite pn_space_from_varint by done. cbn [obind].
  eexists. split; [reflexivity |]. destruct s; try done. intros _. by exists v.
Qed.

Lemma pn_cmp_ok a b : app_pn a -> app_pn b -> PacketNumber.cmp a b = Ret (a ?= b).
Proof.
  intros (v & Hv & ->) (w & Hw & ->). rewrite pn_cmp_from_varint by done. rewrite !from_varint_eq by done.
  by rewrite Z.add_compare_mono_l.
Qed.

Lemma pn_eq_ok a b : app_pn a -> app_pn b -> pn_eq a b = Ret (a =? b).
Proof. intros Ha Hb. unfold pn_eq. rewrite pn_cmp_ok by done. by rewrite Z.eqb_compare. Qed.

Lemma is_none_or_gt_ok largest pn :
  match largest with Some l => app_pn l | None => True end -> app_pn pn ->
  exists b, is_none_or_gt largest pn = Ret b.
Proof.
  intros Hl Hp. unfold is_none_or_gt. destruct largest as [l |]; [| by eexists].
  rewrite pn_cmp_ok by done. by eexists.
Qed.

(** ** Events *)

Inductive Event :=
| EEnable
| ESupport
| ETimeout (now : Z)
| EAck (packet_number sent_bytes : Z)
| ELoss (packet_number lost_bytes : Z) (new_loss_burst : bool) (now : Z)
| ETransmit (context : Writer).

Definition step (c : Controller) (e : Event) : outcome (list Z * Controller) :=
  match e with
  | EEnable => let! c := enable c in Ret ([], c)
  | ESupport => Ret ([], enable_mtu_probing_complete_support c)
  | ETimeout now => let! c := on_timeout c now in Ret ([], c)
  | EAck pn bytes => let! '(_, announced, c) := on_packet_ack c pn bytes in Ret (announced, c)
  | ELoss pn bytes burst now => let! '(_, announced, c) := on_packet_loss c pn bytes burst now in Ret (announced, c)
  | ETransmit w => let! '(_, c) := on_transmit c w in Ret ([], c)
  end.

(** The packet of application data a controller writes to.  A packet for a probe
    takes the frames that fit. *)
Record mtu_writer_ok (w : Writer) : Prop := {
  mw_time : timestamp_ok (current_time w);
  mw_overhead : 0 <= header_len w /\ 0 <= tag_len w /\ header_len w + tag_len w < 1199;
  mw_number : app_pn (packet_number w);
  mw_written fs f pn : write_frame w fs f = Some pn -> pn = packet_number w;
  mw_room fs : transmission_mode w = MtuProbing -> packet_ok w fs -> remaining_capacity w fs = remaining_capacity w [] - blen (payload fs);
  mw_takes fs f : transmission_mode w = MtuProbing -> packet_ok w fs -> frame_ok f ->
    blen (frame_wire f) <= remaining_capacity w fs -> write_frame w fs f = Some (packet_number w)
}.

(** The context of a transmission is such a packet. *)
Lemma context_mtu_writer_ok be c :
  eb_wf (Context.buffer c) -> blen (eb_bytes (Context.buffer c)) <= umax 16 -> Context.transmission_mode c <> PathValidationOnly ->
  Context.transmission_constraint c = Unconstrained -> timestamp_ok (Context.timestamp c) -> app_pn (Context.packet_number c) ->
  0 <= Context.header_len c -> 0 <= Context.tag_len c -> Context.header_len c + Context.tag_len c < 1199 -> mtu_writer_ok (Context.writer be c).
Proof.
  intros Hwf Hlen Hmode Hcon Ht Hpn Hh Htg Hsum. pose proof (context_writer_ok be c Hwf Hlen Hmode (fun _ => Hcon)) as Hw. split; try done.
  - by apply context_number.
  - intros fs _. apply (writer_room _ Hw).
  - intros fs f _. by apply context_writes.
Qed.

Definition event_ok (e : Event) : Prop :=
  match e with
  | EEnable | ESupport => True
  | ETimeout now => timestamp_ok now
  | EAck pn bytes => pn_ok pn
  | ELoss pn bytes burst now => pn_ok pn /\ timestamp_ok now
  | ETransmit w => mtu_writer_ok w
  end.

(** What an event does to the size of datagrams. *)
Definition changed (c : Controller) (e : Event) (announced : list Z) (c' : Controller) : Prop :=
  (announced = [] /\ plpmtu c' = plpmtu c)
  \/ (announced = [base_plpmtu c] /\ plpmtu c' = base_plpmtu c)
  \/ (exists pn t bytes, e = EAck pn bytes /\ state c = Searching pn t
        /\ announced = [probed_size c] /\ plpmtu c' = probed_size c).

(** The bytes of a datagram with the frames. *)
Definition datagram_len (w : Writer) (frames : list frame) : Z := header_len w + blen (payload frames) + tag_len w.

(** What is sent: the message that probing is complete; nothing; or, when a search
    was requested and there is room for it, a probe of exactly the probed size that
    is acknowledged or lost like any packet. *)
Definition transmitted (c : Controller) (w : Writer) (frames : list frame) (c' : Controller) : Prop :=
  (state c' = state c /\ (frames = [] \/ frames = [Frame.MtuProbingComplete (MtuProbingComplete.mk (plpmtu c))])
     /\ (frames = [] -> transmission_mode w = MtuProbing -> needs_to_send_completion c = false -> state c <> SearchRequested))
  \/ (state c = SearchRequested /\ frames = [] /\ state c' = SearchComplete /\ remaining_capacity w [] + header_len w + tag_len w < probed_size c)
  \/ (state c = SearchRequested /\ transmission_mode w = MtuProbing /\ state c' = Searching (packet_number w) (current_time w) /\ probed_size c' = probed_size c
      /\ datagram_len w frames = probed_size c /\ exists n, frames = [Frame.Ping Ping.mk; Frame.Padding (Padding.mk n)]).

Lemma complete_ok c : sizes_ok c -> counters_ok c -> mtu_ok (set_search_complete c).
Proof.
  intros Hs Hc. destruct (set_search_complete_spec c) as (Hsame & Hst & Hpc & _).
  split; [by eapply sizes_ok_same |]. destruct Hsame as (_ & _ & _ & _ & Hbh & Hla).
  split; [unfold counters_ok in *; by rewrite Hpc, Hbh, Hla | unfold state_ok; by rewrite Hst].
Qed.

(** The two ways an early search ends. *)
Lemma settle_ok c :
  sizes_ok c -> counters_ok c ->
  exists c', (let! above := is_next_probe_size_above_threshold c in
              Ret (if above then set_state Disabled c else set_search_complete c)) = Ret c'
    /\ mtu_ok c' /\ same_sizes c c' /\ (state c' = Disabled \/ state c' = SearchComplete).
Proof.
  intros Hs Hc. rewrite above_threshold_ok by done. cbn [obind]. eexists. split; [reflexivity |].
  destruct (20 <=? _).
  - split; [by split_and! |]. split; [by split_and! | by left].
  - split; [by apply complete_ok |]. destruct (set_search_complete_spec c) as (Hsame & Hst & _). split; [done | by right].
Qed.

(** An acknowledgment of a packet of application data. *)
Lemma ack_app_ok c pn bytes :
  mtu_ok c -> app_pn pn ->
  exists res announced c',
    (let! newer := if plpmtu c <=? bytes
                   then is_none_or_gt (largest_acked_mtu_sized_packet c) pn else Ret false in
     let self := if newer then set_black_hole 0 (Some pn) c else c in
     match state self with
     | Searching probe_packet_number transmit_time =>
         let! acked := pn_eq pn probe_packet_number in
         if acked then
           let self := set_plpmtu (probed_size self) self in
           let announced := plpmtu self in
           let! self := update_probed_size self in
           let! self := request_new_search self (Some transmit_time) in
           Ret (MtuUpdated (plpmtu self), [announced], self)
         else Ret (NoChange, [], self)
     | _ => Ret (NoChange, [], self)
     end) = Ret (res, announced, c')
    /\ mtu_ok c' /\ same_limits c c' /\ changed c (EAck pn bytes) announced c'.
Proof.
  intros (Hs & Hc & Hst) Hpn. pose proof Hc as (Hc1 & Hc2 & Hc3).
  destruct (is_none_or_gt_ok (largest_acked_mtu_sized_packet c) pn Hc3 Hpn) as (b & Eb).
  assert (En : exists newer, (if plpmtu c <=? bytes then is_none_or_gt (largest_acked_mtu_sized_packet c) pn else Ret false)
    = Ret newer) by (destruct (plpmtu c <=? bytes); eauto).
  destruct En as (newer & ->). cbn [obind]. set (c1 := if newer then _ else c).
  assert (H1 : sizes_ok c1 /\ counters_ok c1 /\ state c1 = state c /\ plpmtu c1 = plpmtu c
    /\ probed_size c1 = probed_size c /\ same_limits c c1 /\ state_ok c1).
  { unfold c1. destruct newer; split_and!; try done; simpl; lia. }
  destruct H1 as (Hs1 & Hcc1 & Est & Ep & Epr & Hl1 & Hst1). rewrite Est. cbv zeta.
  assert (Hsame : exists res announced c', @Ret (MtuResult * list Z * Controller) (NoChange, [], c1) = Ret (res, announced, c')
    /\ mtu_ok c' /\ same_limits c c' /\ changed c (EAck pn bytes) announced c').
  { exists NoChange, [], c1. split_and!; try done; by left. }
  destruct (state c) as [| | | ppn t |] eqn:Ec; try exact Hsame.
  unfold state_ok in Hst. rewrite Ec in Hst. destruct Hst as (Hppn & Ht & Hd).
  rewrite pn_eq_ok by done. cbn [obind]. destruct (Z.eqb_spec pn ppn) as [-> |]; [| exact Hsame].
  destruct (update_probed_size_ok (set_plpmtu (probed_size c1) c1)) as (size & -> & Hs2 & _).
  { unfold range_ok. unfold sizes_ok in Hs1. simpl. lia. }
  cbn [obind]. destruct (request_new_search_ok (set_probed_size size (set_plpmtu (probed_size c1) c1)) (Some t))
    as (c2 & -> & Hok & Hl2 & Hp2 & _); [done | done | done |]. cbn [obind].
  eexists _, _, c2. split; [reflexivity |]. split; [done |]. split.
  { unfold same_limits in *. simpl in Hl2. destruct Hl2, Hl1. split; congruence. }
  right. right. exists ppn, t, bytes. simpl in Hp2 |- *. rewrite Epr in *. done.
Qed.

Lemma on_packet_ack_ok c pn bytes :
  mtu_ok c -> pn_ok pn ->
  exists res announced c', on_packet_ack c pn bytes = Ret (res, announced, c')
    /\ mtu_ok c' /\ same_limits c c' /\ changed c (EAck pn bytes) announced c'.
Proof.
  intros (Hs & Hc & Hst) Hpn. unfold on_packet_ack.
  assert (H1 : exists c1, (if is_early_search_requested (state c) && (base_plpmtu c <? bytes) then
      let! above := is_next_probe_size_above_threshold c in
      Ret (if above then set_state Disabled c else set_search_complete c)
    else Ret c) = Ret c1 /\ mtu_ok c1 /\ same_sizes c c1
    /\ (c1 = c \/ state c1 = Disabled \/ state c1 = SearchComplete)).
  { destruct (is_early_search_requested (state c) && _).
    - destruct (settle_ok c Hs Hc) as (c1 & E & Hok & Hsame & Hd). exists c1. split_and!; try done. by right.
    - exists c. split_and!; try done. by left. }
  destruct H1 as (c1 & -> & Hok1 & Hsame & Hd). cbn [obind].
  pose proof Hsame as (Hl & Hp & _).
  assert (Hstop : exists res announced c', @Ret (MtuResult * list Z * Controller) (NoChange, [], c1) = Ret (res, announced, c')
    /\ mtu_ok c' /\ same_limits c c' /\ changed c (EAck pn bytes) announced c').
  { exists NoChange, [], c1. split_and!; try done. by left. }
  destruct (is_disabled (state c1)); [exact Hstop |].
  destruct (in_application_data_ok pn Hpn) as (app & -> & Happ). cbn [obind].
  destruct app; [| exact Hstop]. specialize (Happ eq_refl). cbn [negb]. cbv iota.
  destruct (ack_app_ok c1 pn bytes Hok1 Happ) as (res & ann & c' & E & Hok' & Hl' & Hch).
  exists res, ann, c'. split; [exact E |]. split; [done |].
  destruct Hl as [Hb Hm], Hl' as [Hb' Hm']. split; [split; congruence |].
  destruct Hch as [[-> ?] | [[-> ?] | (q & t & by_ & [= <- <-] & Hsq & Ha & Hpl)]].
  - left. split; [done | congruence].
  - right. left. rewrite Hb in *. split; [done | congruence].
  - right. right. exists pn, t, bytes. destruct Hd as [-> | [Hd | Hd]]; [done | congruence | congruence].
Qed.

Lemma black_hole_ok c now :
  sizes_ok c -> counters_ok c -> timestamp_ok now ->
  exists res c', on_black_hole_detected c now = Ret (res, [base_plpmtu c], c')
    /\ mtu_ok c' /\ same_limits c c' /\ plpmtu c' = base_plpmtu c.
Proof.
  intros Hs (Hc1 & Hc2 & Hc3) Hn. unfold on_black_hole_detected. cbv zeta.
  rewrite timestamp_add_ok by (done || (unfold BLACK_HOLE_COOL_OFF_DURATION, Duration.from_secs; lia)). cbn [obind].
  set (c1 := set_plpmtu _ (set_black_hole 0 None c)).
  destruct (set_search_complete_spec c1) as (Hsame & Hst & Hpc & _).
  assert (Hr1 : range_ok c1) by (unfold range_ok, sizes_ok in *; simpl; lia).
  destruct (arm_timer_ok (set_search_complete c1) (now + BLACK_HOLE_COOL_OFF_DURATION / 1000))
    as (c' & E & Hs' & Hl' & Hp' & Hst' & Hpc' & Hbh' & Hla' & _); [by eapply range_ok_same |].
  rewrite E. cbn [obind]. eexists _, c'. split; [reflexivity |].
  destruct Hsame as ((Hb & Hm) & Hp & _ & _ & Hbh & Hla). split; [split; [done |]; split |].
  - unfold counters_ok. rewrite Hpc', Hbh', Hla', Hpc, Hbh, Hla. simpl. split; [lia |]. split; [lia | done].
  - unfold state_ok. by rewrite Hst', Hst.
  - unfold same_limits in *. simpl in *. destruct Hl'. split; [split; congruence | congruence].
Qed.

Lemma on_other_loss_ok c pn bytes burst now :
  mtu_ok c -> app_pn pn -> timestamp_ok now ->
  exists res announced c', on_other_loss c pn bytes burst now = Ret (res, announced, c')
    /\ mtu_ok c' /\ same_limits c c'
    /\ (announced = [] /\ plpmtu c' = plpmtu c \/ announced = [base_plpmtu c] /\ plpmtu c' = base_plpmtu c).
Proof.
  intros (Hs & (Hc1 & Hc2 & Hc3) & Hst) Hpn Hn. unfold on_other_loss.
  assert (Hb : base_plpmtu c <= 65507) by (unfold sizes_ok in Hs; lia). rewrite add_c_Ret by lia. cbn [obind].
  destruct (is_none_or_gt_ok _ pn Hc3 Hpn) as (b & Eb).
  match goal with |- context [obind ?m _] => assert (Em : exists sus, m = Ret sus) end.
  { destruct (_ && _); [rewrite Eb; cbn [obind] |]; by eexists. }
  destruct Em as (sus & ->). cbn [obind]. unfold saturating_add, umax. rewrite Z.min_l by lia.
  set (c1 := if sus then _ else c).
  assert (H1 : sizes_ok c1 /\ same_limits c c1 /\ plpmtu c1 = plpmtu c /\ state_ok c1 /\ base_plpmtu c1 = base_plpmtu c
    /\ 0 <= black_hole_counter c1 <= 4 /\ 0 <= probe_count c1 <= 3
    /\ largest_acked_mtu_sized_packet c1 = largest_acked_mtu_sized_packet c).
  { unfold c1. destruct sus; split_and!; try done; simpl; lia. }
  destruct H1 as (Hs1 & Hl1 & Hp1 & Hst1 & Hb1 & Hbh1 & Hpc1 & Hla1).
  unfold BLACK_HOLE_THRESHOLD. destruct (Z.ltb_spec 3 (black_hole_counter c1)).
  - assert (E : exists res c', on_black_hole_detected (set_black_hole 3 (largest_acked_mtu_sized_packet c1) c1) now
      = Ret (res, [base_plpmtu c], c') /\ mtu_ok c' /\ same_limits c c' /\ plpmtu c' = base_plpmtu c).
    { destruct (black_hole_ok (set_black_hole 3 (largest_acked_mtu_sized_packet c1) c1) now) as (res & c' & E & Hok & Hl & Hp).
      - exact Hs1.
      - split; [done |]. split; [simpl; lia |]. simpl. by rewrite Hla1.
      - done.
      - simpl in E, Hp. rewrite Hb1 in *. exists res, c'. split; [exact E |]. split; [done |]. split; [| done].
        destruct Hl as [? ?], Hl1 as [? ?]. simpl in *. split; congruence. }
    destruct E as (res & c' & E & Hok & Hl & Hp). exists res, [base_plpmtu c], c'. split; [exact E |].
    split; [done |]. split; [done |]. by right.
  - exists NoChange, [], c1. split; [done |]. split; [split; [done |]; split; [| done] |].
    + split; [done |]. split; [lia | by rewrite Hla1].
    + split; [done | by left].
Qed.

Lemma on_packet_loss_ok c pn bytes burst now :
  mtu_ok c -> pn_ok pn -> timestamp_ok now ->
  exists res announced c', on_packet_loss c pn bytes burst now = Ret (res, announced, c')
    /\ mtu_ok c' /\ same_limits c c'
    /\ (announced = [] /\ plpmtu c' = plpmtu c \/ announced = [base_plpmtu c] /\ plpmtu c' = base_plpmtu c).
Proof.
  intros Hok Hpn Hn. pose proof Hok as (Hs & Hc & Hst). unfold on_packet_loss.
  assert (Hstop : exists res announced c', @Ret (MtuResult * list Z * Controller) (NoChange, [], c) = Ret (res, announced, c')
    /\ mtu_ok c' /\ same_limits c c'
    /\ (announced = [] /\ plpmtu c' = plpmtu c \/ announced = [base_plpmtu c] /\ plpmtu c' = base_plpmtu c)).
  { exists NoChange, [], c. split_and!; try done. by left. }
  destruct (in_application_data_ok pn Hpn) as (app & Eapp & Happ). rewrite Eapp.
  destruct (state c) as [| | | ppn t |] eqn:Est; cbn [is_early_search_requested obind negb]; cbv iota;
    try (destruct app; [specialize (Happ eq_refl); cbn [negb]; cbv iota | exact Hstop]);
    try exact Hstop; try (by apply on_other_loss_ok).
  - cbv zeta. simpl base_plpmtu. simpl plpmtu.
    destruct (settle_ok (set_plpmtu (base_plpmtu c) c)) as (c1 & E & Hok1 & Hsame & _).
    + unfold sizes_ok in *. simpl. lia.
    + done.
    + rewrite above_threshold_ok in E |- * by (unfold sizes_ok in *; simpl; lia). cbn [obind] in E |- *.
      injection E as <-. eexists _, _, _. split; [reflexivity |].
      destruct Hsame as (Hl & Hp & _). split; [exact Hok1 |]. split; [exact Hl |]. right. split; [done | exact Hp].
  - unfold state_ok in Hst. rewrite Est in Hst. destruct Hst as (Hppn & Ht & Hd).
    rewrite pn_eq_ok by done. cbn [obind]. destruct (ppn =? pn); [| by apply on_other_loss_ok].
    unfold MAX_PROBES. destruct (Z.eqb_spec (probe_count c) 3).
    + destruct (update_probed_size_ok (set_max_probe_size (probed_size c) c)) as (size & -> & Hs1 & _);
        [unfold range_ok, sizes_ok in *; simpl; lia |]. cbn [obind].
      destruct (request_new_search_ok (set_probed_size size (set_max_probe_size (probed_size c) c)) None)
        as (c' & -> & Hok' & Hl' & Hp' & _); [done .. |]. cbn [obind].
      eexists _, _, c'. split; [reflexivity |]. split; [done |]. split; [done |]. by left.
    + exists NoChange, [], (set_state SearchRequested c). split; [done |]. split; [split; [done |]; split; [done |] |].
      * destruct Hc as (? & _). split; simpl; lia.
      * split; [done | by left].
Qed.

(** A probe has the probed size: a PING and padding. *)
Lemma probe_frames w size :
  mtu_writer_ok w -> transmission_mode w = MtuProbing -> 1200 <= size <= 65507 -> size - header_len w - tag_len w <= remaining_capacity w [] ->
  let ping := Frame.Ping Ping.mk in
  let padding := Frame.Padding (Padding.mk (size - header_len w - tag_len w - 1)) in
  write_frame w [] ping = Some (packet_number w) /\ write_frame w [ping] padding = Some (packet_number w) /\ datagram_len w [ping; padding] = size.
Proof.
  intros Hw Hmode Hsize Hroom ping padding. destruct (mw_overhead w Hw) as (Hh & Ht & Hsum).
  assert (Hlen : blen (frame_wire padding) = size - header_len w - tag_len w - 1) by (cbn; unfold blen; rewrite length_replicate; lia).
  assert (H0 : packet_ok w []) by (split; [constructor |]; change (blen (payload [])) with 0; lia).
  assert (H1 : packet_ok w [ping]) by (split; [repeat constructor |]; change (blen (payload [ping])) with 1; lia).
  split; [apply (mw_takes w Hw); try done; change (blen (frame_wire ping)) with 1; lia |]. split.
  - apply (mw_takes w Hw); try done; [cbn; lia |]. rewrite (mw_room w Hw), Hlen by done. change (blen (payload [ping])) with 1. lia.
  - unfold datagram_len. change (payload [ping; padding]) with (frame_wire ping ++ frame_wire padding ++ []). rewrite app_nil_r, blen_app, Hlen.
    change (blen (frame_wire ping)) with 1. lia.
Qed.

Lemma on_transmit_ok c w :
  mtu_ok c -> mtu_writer_ok w ->
  exists frames c', on_transmit c w = Ret (frames, c') /\ mtu_ok c' /\ same_limits c c' /\ plpmtu c' = plpmtu c /\ transmitted c w frames c'.
Proof.
  intros Hok Hw. destruct (mw_overhead w Hw) as (Hh & Ht & Hlen). pose proof Hok as (Hs & Hc & Hst). unfold on_transmit.
  assert (Hstop : (needs_to_send_completion c = false -> transmission_mode w = MtuProbing -> state c <> SearchRequested) ->
    exists frames c', @Ret (list frame * Controller) ([], c) = Ret (frames, c')
    /\ mtu_ok c' /\ same_limits c c' /\ plpmtu c' = plpmtu c /\ transmitted c w frames c').
  { intros Hno. exists [], c. do 4 (split; [done |]). left. split_and!; auto. }
  destruct (needs_to_send_completion c) eqn:En.
  { destruct (write_frame w [] _); [| by apply Hstop]. eexists _, _. split; [reflexivity |]. do 3 (split; [done |]). left. split_and!; [done | by right | done]. }
  destruct (state c) as [| | | ppn t |] eqn:Est; try (by apply Hstop).
  destruct (ModeOps.is_mtu_probing (transmission_mode w)) eqn:Em; cbn [negb]; [| apply Hstop; intros _ E; by rewrite E in Em].
  assert (Hmode : transmission_mode w = MtuProbing) by (by destruct (transmission_mode w)). unfold state_ok in Hst. rewrite Est in Hst.
  assert (1200 <= probed_size c <= 65507) by (unfold sizes_ok in Hs; lia).
  rewrite !sub_c_Ret by lia. cbn [obind]. rewrite sub_c_Ret by lia. cbn [obind].
  destruct (Z.ltb_spec (remaining_capacity w []) (probed_size c - header_len w - tag_len w)) as [Hsmall | Hroom].
  { eexists _, _. split; [reflexivity |]. destruct (set_search_complete_spec c) as ((Hl & Hp & _) & Hsc & _).
    split; [by apply complete_ok |]. do 2 (split; [done |]). right. left. split_and!; try done. lia. }
  assert (Ep : encoding_size (Ping.encode Ping.mk) = Ret 1) by (vm_compute; reflexivity).
  rewrite Ep. cbn [obind]. rewrite sub_c_Ret by lia. cbn [obind].
  destruct (probe_frames w (probed_size c) Hw Hmode ltac:(lia) Hroom) as (-> & -> & Hdg).
  destruct Hc as (Hc1 & Hc2 & Hc3). rewrite add_c_Ret by lia. cbn [obind]. eexists _, _. split; [reflexivity |].
  split; [split; [done | split] |].
  - split; [simpl; lia | done].
  - split; [apply (mw_number w Hw) |]. split; [apply (mw_time w Hw) | simpl; lia].
  - split; [done |]. split; [done |]. right. right. split_and!; try done. by eexists.
Qed.

Lemma step_ok c e :
  mtu_ok c -> event_ok e ->
  exists announced c', step c e = Ret (announced, c') /\ mtu_ok c' /\ same_limits c c' /\ changed c e announced c'.
Proof.
  intros Hok He. pose proof Hok as (Hs & Hc & Hst). destruct e as [| | now | pn bytes | pn bytes burst now | w]; simpl in *.
  - unfold enable. destruct (_ || _); [| cbn [obind]; eexists _, c; split; [reflexivity |]; split_and!; try done; by left].
    destruct (request_new_search_ok c None Hs Hc I) as (c' & -> & Hok' & Hl & Hp & _). cbn [obind].
    eexists _, c'. split; [reflexivity |]. split_and!; try done. by left.
  - eexists _, _. split; [reflexivity |]. split_and!; try done. by left.
  - unfold on_timeout. destruct (timer_poll_ok (pmtu_raise_timer c) now He) as (ready & timer & -> & _). cbn [obind].
    destruct ready; [| cbn [obind]; eexists _, _; split; [reflexivity |]; split_and!; try done; by left].
    destruct (request_new_search_ok (set_timer timer c) None Hs Hc I) as (c' & -> & Hok' & Hl & Hp & _). cbn [obind].
    eexists _, c'. split; [reflexivity |]. split_and!; try done. by left.
  - destruct (on_packet_ack_ok c pn bytes Hok He) as (res & ann & c' & -> & H). cbn [obind]. by exists ann, c'.
  - destruct He as [Hpn Hn]. destruct (on_packet_loss_ok c pn bytes burst now Hok Hpn Hn) as (res & ann & c' & -> & H1 & H2 & H3).
    cbn [obind]. exists ann, c'. split_and!; try done. unfold changed. tauto.
  - destruct (on_transmit_ok c w Hok He) as (fs & c' & -> & H1 & H2 & H3 & _). cbn [obind].
    exists [], c'. split_and!; try done. by left.
Qed.

(** ** Construction and runs *)

(** What the constructors of the configuration guarantee. *)
Definition config_ok (config : Config) : Prop :=
  MINIMUM_MTU <= base_mtu config <= initial_mtu config /\ initial_mtu config <= max_mtu config <= 65535.

(** ... which they do: the builder and the manager only hand out such
    configurations. *)
Definition builder_ok (b : Builder) : Prop :=
  let ok o := match o with Some v => MINIMUM_MTU <= v <= 65535 | None => True end in
  ok (b_initial b) /\ ok (b_base b) /\ ok (b_max b).

Lemma with_mtu_ok b v b' :
  builder_ok b -> 0 <= v <= 65535 ->
  with_initial_mtu b v = Ok b' \/ with_base_mtu b v = Ok b' \/ with_max_mtu b v = Ok b' -> builder_ok b'.
Proof.
  intros (H1 & H2 & H3) Hv. unfold with_initial_mtu, with_base_mtu, with_max_mtu, ensure, try_from.
  intros [E | [E | E]];
    repeat match type of E with
    | rbind (if ?x then _ else _) _ = _ => destruct x eqn:?; cbn [rbind] in E; [| try discriminate]; try discriminate
    end; rinv; unfold builder_ok; simpl; split_and!; try done; first [lia | by apply Z.ltb_ge].
Qed.

Lemma build_ok b config : builder_ok b -> build b = Ok config -> config_ok config.
Proof.
  intros (H1 & H2 & H3). unfold build, ensure, try_from, is_valid, config_ok. change MINIMUM_MTU with 1228 in *.
  assert (Hb : 1228 <= unwrap_or (b_base b) DEFAULT_BASE_MTU <= 65535) by (destruct (b_base b); simpl; [done | by vm_compute; split]).
  assert (Hm : 1228 <= unwrap_or (b_max b) DEFAULT_MAX_MTU <= 65535) by (destruct (b_max b); simpl; [done | by vm_compute; split]).
  destruct (b_initial b) as [i |]; simpl; repeat (zcase; simpl; try done); intros [= <-]; simpl; lia.
Qed.

Lemma mtu_max_datagram_size_ok m peer :
  MINIMUM_MTU <= m <= 65535 ->
  mtu_max_datagram_size m peer = Ret (Z.max (m - 8 - min_ip_header_len peer) 1200).
Proof.
  change MINIMUM_MTU with 1228. intros Hm. unfold mtu_max_datagram_size, UDP_HEADER_LEN.
  rewrite sub_c_Ret by lia. cbn [obind]. rewrite sub_c_Ret by (destruct peer; simpl; unfold IPV4_MIN_HEADER_LEN, IPV6_MIN_HEADER_LEN; lia).
  done.
Qed.

Lemma min_ip_header_len_cases peer : min_ip_header_len peer = 20 \/ min_ip_header_len peer = 40.
Proof. destruct peer; [by left | by right]. Qed.

Lemma new_ok config peer :
  config_ok config -> exists c, new config peer = Ret c /\ mtu_ok c.
Proof.
  intros Hc. pose proof Hc as (H1 & H2). change MINIMUM_MTU with 1228 in *. unfold new.
  assert (is_valid config = true) as -> by (unfold is_valid; zcases; done). cbn [rassert obind].
  rewrite !mtu_max_datagram_size_ok by (change MINIMUM_MTU with 1228; lia). cbn [obind].
  pose proof (min_ip_header_len_cases peer) as Hh. set (h := min_ip_header_len peer) in *.
  set (base := Z.max (base_mtu config - 8 - h) 1200). set (top := Z.max (max_mtu config - 8 - h) 1200).
  set (mtu := Z.max (initial_mtu config - 8 - h) 1200).
  unfold ETHERNET_MTU, PROBE_THRESHOLD, UDP_HEADER_LEN. rewrite !(sub_c_Ret 1500) by lia. cbn [obind].
  rewrite (sub_c_Ret (1500 - 8)) by lia.
  destruct (next_probe_size_ok mtu top) as (-> & Hd1 & Hd2); [lia | lia |].
  set (size := if 1500 - 20 <? initial_mtu config then mtu + (top - mtu) / 2 else 1500 - 8 - h).
  assert (E : (if 1500 - 20 <? initial_mtu config then Ret (mtu + (top - mtu) / 2) else Ret (1500 - 8 - h)) = Ret size)
    by (unfold size; by destruct (1500 - 20 <? initial_mtu config)).
  rewrite E. cbn [obind].
  assert (Hsz : mtu <= Z.min size top <= top
    /\ (top - Z.min size top <= Z.min size top - mtu + 1 \/ 20 <= Z.min size top - mtu)).
  { unfold size. destruct (Z.ltb_spec (1500 - 20) (initial_mtu config)); lia. }
  clearbody size. destruct (Z.ltb_spec base mtu).
  - cbn [obind]. eexists. split; [reflexivity |]. unfold mtu_ok. mtu_open. lia.
  - rewrite sub_c_Ret by lia. cbn [obind]. eexists. split; [reflexivity |].
    unfold mtu_ok. mtu_open. destruct (_ <? 20); split_and!; try done; lia.
Qed.

Fixpoint run (c : Controller) (events : list Event) : outcome (list Z * Controller) :=
  match events with
  | [] => Ret ([], c)
  | e :: events =>
      let! '(announced, c) := step c e in
      let! '(more, c) := run c events in
      Ret (announced ++ more, c)
  end.

Lemma last_cons_default (x d : Z) l : List.last l x = List.last (x :: l) d.
Proof. revert x d. induction l as [| y l IH]; intros x d; [done |]. cbn [List.last] in *. destruct l; [done | apply IH]. Qed.

Lemma run_ok events c :
  mtu_ok c -> Forall event_ok events ->
  exists announced c', run c events = Ret (announced, c') /\ mtu_ok c' /\ same_limits c c'
    /\ plpmtu c' = List.last announced (plpmtu c).
Proof.
  intros Hok He. revert c Hok. induction He as [| e events He Hes IH]; intros c Hok; simpl.
  { by exists [], c. }
  destruct (step_ok c e Hok He) as (a & c1 & -> & Hok1 & Hl1 & Hch). cbn [obind].
  destruct (IH c1 Hok1) as (more & c2 & -> & Hok2 & Hl2 & Hp). cbn [obind].
  exists (a ++ more), c2. split; [done |]. split; [done |].
  split; [destruct Hl1, Hl2; split; congruence |]. rewrite Hp.
  destruct Hch as [[-> ->] | [[-> ->] | (pn & t & bytes & _ & _ & -> & ->)]]; [done | |]; apply last_cons_default.
Qed.

Lemma run_app es1 es2 c c1 a1 :
  run c es1 = Ret (a1, c1) -> run c (es1 ++ es2) = let! '(a2, c2) := run c1 es2 in Ret (a1 ++ a2, c2).
Proof.
  revert c a1. induction es1 as [| e es1 IH]; intros c a1; simpl.
  { intros [= <- <-]. by destruct (run c es2) as [[a2 c2] |]. }
  destruct (step c e) as [[a c'] |]; [| done]. cbn [obind].
  destruct (run c' es1) as [[more c''] |] eqn:E; [| done]. cbn [obind]. intros [= <- <-].
  rewrite (IH _ _ E). destruct (run c'' es2) as [[a2 c2] |]; [| done]. cbn [obind]. by rewrite app_assoc.
Qed.

(** C15: whatever packets are acknowledged, lost and sent and whenever timers
    fire, the MTU controller of a valid configuration never panics: its sizes
    never underflow and stay in order, from the base size to what the
    configuration allows, and the last size announced to the congestion
    controller is the one in use.  The size in use changes only when the probe
    of the new size is acknowledged, or to the base size; and the datagram of a
    probe has exactly the probed size. *)
Theorem mtu_controller_safe config peer events :
  config_ok config -> Forall event_ok events ->
  exists c0 announced c, new config peer = Ret c0 /\ run c0 events = Ret (announced, c)
    /\ mtu_ok c /\ same_limits c0 c
    /\ max_datagram_size c = List.last announced (max_datagram_size c0)
    /\ forall before e after, events = before ++ e :: after ->
         exists a1 c1 a2 c2, run c0 before = Ret (a1, c1) /\ step c1 e = Ret (a2, c2) /\ changed c1 e a2 c2
           /\ forall w, e = ETransmit w -> exists frames, on_transmit c1 w = Ret (frames, c2) /\ transmitted c1 w frames c2.
Proof.
  intros Hc He. destruct (new_ok config peer Hc) as (c0 & E0 & Hok0).
  destruct (run_ok events c0 Hok0 He) as (ann & c & E & Hok & Hl & Hp).
  exists c0, ann, c. do 5 (split; [done |]). intros before e after ->. apply Forall_app in He as [Hb He].
  apply Forall_cons in He as [He _]. destruct (run_ok before c0 Hok0 Hb) as (a1 & c1 & E1 & Hok1 & _ & _).
  destruct (step_ok c1 e Hok1 He) as (a2 & c2 & E2 & _ & _ & Hch). exists a1, c1, a2, c2. do 3 (split; [done |]). intros w ->.
  destruct (on_transmit_ok c1 w Hok1 He) as (fs & c' & E' & _ & _ & _ & Ht). cbn [step] in E2. rewrite E' in E2. injection E2 as _ <-. by exists fs.
Qed.

(** ** The search *)

(** A packet for a probe: the datagram is clamped to the probed size, so that the
    room in the packet is what the overhead leaves of it. *)
Definition probing_writer (size : Z) (w : Writer) : Prop :=
  mtu_writer_ok w /\ transmission_mode w = MtuProbing /\ remaining_capacity w [] = size - header_len w - tag_len w.

(** A probe on a path that carries datagrams of up to [path] bytes. *)
Definition probe (path : Z) (w : Writer) (c : Controller) : outcome Controller :=
  let! '(frames, c) := on_transmit c w in
  match state c with
  | Searching pn _ =>
      let len := datagram_len w frames in
      if len <=? path
      then let! '(_, _, c) := on_packet_ack c pn len in Ret c
      else let! '(_, _, c) := on_packet_loss c pn len true (current_time w) in Ret c
  | _ => Ret c
  end.

(** A datagram for each probe, given its size. *)
Fixpoint search (path : Z) (ws : list (Z -> Writer)) (c : Controller) : outcome Controller :=
  match ws with
  | [] => Ret c
  | w :: ws => let! c := probe path (w (probed_sized c)) c in search path ws c
  end.
Definition probing_writers (ws : list (Z -> Writer)) : Prop :=
  Forall (fun w => forall size, 1200 <= size <= 65507 -> probing_writer size (w size)) ws.

Definition found (path top : Z) (c : Controller) : Prop :=
  state c = SearchComplete /\ max_udp_payload c = top /\ plpmtu c <= path /\ Z.min path top - plpmtu c < 40.

Definition room (c : Controller) : Z := max_probe_size c - plpmtu c.

(** [n] sizes are left to try, and [k] probes of this size were lost. *)
Definition hunting (path top : Z) (c : Controller) (k n : Z) : Prop :=
  mtu_ok c /\ max_udp_payload c = top /\ state c = SearchRequested /\ probe_count c = k /\ needs_to_send_completion c = false
  /\ plpmtu c <= path /\ (max_probe_size c = max_udp_payload c \/ path < max_probe_size c)
  /\ 0 <= n
  /\ (probed_size c = plpmtu c + room c / 2 /\ room c - 1 < 39 * 2 ^ n \/ 1 <= n /\ room c - 1 < 39 * 2 ^ (n - 1)).

(** A new search after a size was settled: the sizes left are halved. *)
Lemma next_size path top c last k n :
  sizes_ok c -> counters_ok c -> match last with Some t => timestamp_ok t | None => True end ->
  needs_to_send_completion c = false -> max_udp_payload c = top -> plpmtu c <= path ->
  (max_probe_size c = max_udp_payload c \/ path < max_probe_size c) ->
  probed_size c = plpmtu c + room c / 2 -> room c - 1 < 39 * 2 ^ (n - 1) -> 1 <= n -> 0 <= k ->
  exists c', request_new_search c last = Ret c' /\ (found path top c' \/ hunting path top c' 0 (n - 1)).
Proof.
  intros Hs Hc Ht Hnc Htop Hp Hmax Hb Hr Hn Hk.
  destruct (request_new_search_ok c last Hs Hc Ht) as (c' & -> & Hok & [_ Hl] & Hp' & Hcase).
  exists c'. split; [done |]. pose proof (Z.div_mod (room c) 2 ltac:(lia)). pose proof (Z.mod_pos_bound (room c) 2 ltac:(lia)).
  destruct Hcase as [(Hst & Hsame & Hpc & Hfar & Hn') | (Hst & Hnear)].
  - right. destruct Hsame as (_ & _ & Hpr & Hmp & _). unfold hunting, room in *. rewrite Hp', Hpr, Hmp, Hl.
    split_and!; try done; try congruence; try lia.
  - left. unfold found, room in *. rewrite Hp', Hl. split; [done |]. split; [done |]. lia.
Qed.

Lemma hunting_size path top c k n :
  hunting path top c k n -> 1 <= n /\ 0 <= k < 3
  /\ max_probe_size c - probed_size c - 1 < 39 * 2 ^ (n - 1) /\ probed_size c - plpmtu c - 1 < 39 * 2 ^ (n - 1).
Proof.
  intros ((Hs & Hc & Hst) & Htop & Est & Hk & _ & _ & _ & Hn & Hsz). unfold state_ok in Hst. rewrite Est in Hst.
  destruct Hst as [Hk3 Hfar]. unfold counters_ok, sizes_ok, room in *.
  destruct Hsz as [[Hb Hr] | [Hn1 Hr]]; [| lia].
  pose proof (Z.div_mod (max_probe_size c - plpmtu c) 2 ltac:(lia)).
  pose proof (Z.mod_pos_bound (max_probe_size c - plpmtu c) 2 ltac:(lia)).
  assert (n <> 0) by (intros ->; simpl in Hr; lia).
  assert (2 ^ n = 2 * 2 ^ (n - 1)) as E by (rewrite <- Z.pow_succ_r by lia; f_equal; lia).
  rewrite E in Hr. lia.
Qed.

Lemma transmit_probe path top c k n w :
  hunting path top c k n -> probing_writer (probed_size c) w ->
  exists frames pn, app_pn pn /\ datagram_len w frames = probed_size c /\ on_transmit c w
    = Ret (frames, set_state (Searching pn (current_time w)) (set_probe_count (k + 1) c)).
Proof.
  intros Hh (Hw & Hmode & Hcap). pose proof (hunting_size _ _ _ _ _ Hh) as (_ & Hk & _). destruct (mw_overhead w Hw) as (Hhd & Htg & Hlen).
  destruct Hh as ((Hs & Hc & Hst) & Htop & Est & Ek & Hnc & _). unfold on_transmit. rewrite Hnc, Est, Hmode. cbn [ModeOps.is_mtu_probing negb].
  cbv iota. assert (1200 <= probed_size c <= 65507) by (unfold sizes_ok in Hs; lia).
  rewrite !sub_c_Ret by lia. cbn [obind]. rewrite sub_c_Ret by lia. cbn [obind].
  destruct (Z.ltb_spec (remaining_capacity w []) (probed_size c - header_len w - tag_len w)); [lia |].
  assert (Ep : encoding_size (Ping.encode Ping.mk) = Ret 1) by (vm_compute; reflexivity).
  rewrite Ep. cbn [obind]. rewrite sub_c_Ret by lia. cbn [obind].
  destruct (probe_frames w (probed_size c) Hw Hmode ltac:(lia) ltac:(lia)) as (-> & -> & Hdg). rewrite Ek.
  rewrite add_c_Ret by lia. cbn [obind]. eexists _, _. split; [apply (mw_number w Hw) |]. split; [exact Hdg | done].
Qed.

Lemma in_application_data_app pn : app_pn pn -> in_application_data pn = Ret true.
Proof. intros (v & Hv & ->). unfold in_application_data. by rewrite pn_space_from_varint. Qed.

(** The probe of a size the path carries. *)
Lemma ack_probe path top c k n pn t :
  hunting path top c k n -> app_pn pn -> timestamp_ok t -> probed_size c <= path ->
  exists c', (let! '(_, _, c) := on_packet_ack (set_state (Searching pn t) (set_probe_count (k + 1) c)) pn (probed_size c) in Ret c)
    = Ret c' /\ (found path top c' \/ hunting path top c' 0 (n - 1)).
Proof.
  intros Hh Hpn Ht Hpath. pose proof (hunting_size _ _ _ _ _ Hh) as (Hn & Hk & Hr1 & Hr2).
  destruct Hh as ((Hs & (Hc1 & Hc2 & Hc3) & Hst) & Htop & Est & Ek & Hnc & Hp & Hmax & _).
  unfold on_packet_ack. cbn [state set_state is_early_search_requested andb is_disabled obind]. cbv iota.
  rewrite in_application_data_app by done. cbn [obind negb]. cbv iota.
  destruct (is_none_or_gt_ok (largest_acked_mtu_sized_packet c) pn Hc3 Hpn) as (b & Eb).
  match goal with |- context [obind (if ?x then ?y else Ret false) _] => assert (En : exists newer, (if x then y else Ret false) = Ret newer) end.
  { destruct (_ <=? _); [exists b; exact Eb | by eexists]. }
  destruct En as (newer & ->). cbn [obind]. set (c1 := if newer then _ else _).
  assert (H1 : state c1 = Searching pn t /\ probed_size c1 = probed_size c /\ max_probe_size c1 = max_probe_size c
    /\ same_limits c c1 /\ counters_ok c1 /\ needs_to_send_completion c1 = false).
  { unfold c1. destruct newer; do 4 (split; [done |]); (split; [| done]);
      (split; [simpl; lia |]); (split; [simpl; lia | done]). }
  destruct H1 as (-> & Epr & Emp & [Hlb Hlm] & Hcc1 & Hnc1). rewrite pn_eq_ok, Z.eqb_refl by done. cbn [obind]. cbv zeta iota.
  rewrite Epr. destruct (update_probed_size_ok (set_plpmtu (probed_size c) c1)) as (size & -> & Hs2 & Esz).
  { unfold range_ok, sizes_ok in *. simpl. rewrite Emp, Hlb, Hlm. lia. }
  cbn [obind]. simpl in Esz.
  destruct (next_size path top (set_probed_size size (set_plpmtu (probed_size c) c1)) (Some t) 0 n) as (c' & -> & Hc');
    try done; try (unfold room; simpl; rewrite ?Emp, ?Hlm; (done || lia)).
  cbn [obind]. by exists c'.
Qed.

(** The probe of a size the path does not carry. *)
Lemma loss_probe path top c k n pn t :
  hunting path top c k n -> app_pn pn -> timestamp_ok t -> path < probed_size c ->
  exists c', (let! '(_, _, c) := on_packet_loss (set_state (Searching pn t) (set_probe_count (k + 1) c)) pn (probed_size c) true t in Ret c)
    = Ret c' /\ (found path top c' \/ hunting path top c' 0 (n - 1) \/ k < 2 /\ hunting path top c' (k + 1) n).
Proof.
  intros Hh Hpn Ht Hpath. pose proof (hunting_size _ _ _ _ _ Hh) as (Hn & Hk & Hr1 & Hr2).
  pose proof Hh as ((Hs & (Hc1 & Hc2 & Hc3) & Hst) & Htop & Est & Ek & Hnc & Hp & Hmax & Hn0 & Hsz).
  unfold on_packet_loss. cbn [state set_state is_early_search_requested]. cbv iota.
  rewrite in_application_data_app by done. cbn [obind negb]. cbv iota.
  rewrite pn_eq_ok, Z.eqb_refl by done. cbn [obind]. cbv iota.
  change (probe_count (set_state (Searching pn t) (set_probe_count (k + 1) c))) with (k + 1).
  unfold MAX_PROBES. destruct (Z.eqb_spec (k + 1) 3).
  - set (c1 := set_max_probe_size _ _).
    destruct (update_probed_size_ok c1) as (size & -> & Hs2 & Esz).
    { unfold range_ok, sizes_ok in *. simpl. lia. }
    cbn [obind]. simpl in Esz.
    destruct (next_size path top (set_probed_size size c1) None 0 n) as (c' & -> & Hc');
      try done; try (unfold room; simpl; (done || lia)).
    + split; [simpl; lia | done].
    + cbn [obind]. exists c'. split; [done |]. tauto.
  - cbn [obind]. eexists. split; [reflexivity |]. right. right. split; [lia |].
    unfold hunting, room in *. simpl. split; [| split_and!; try done; simpl; lia].
    split; [done |]. unfold state_ok in Hst. rewrite Est in Hst. split; [split; [simpl; lia | done] | split; simpl; lia].
Qed.

Lemma probe_hunting path top c k n w :
  hunting path top c k n -> probing_writer (probed_size c) w ->
  exists c', probe path w c = Ret c'
    /\ (found path top c' \/ hunting path top c' 0 (n - 1) \/ k < 2 /\ hunting path top c' (k + 1) n).
Proof.
  intros Hh Hw. destruct (transmit_probe path top c k n w Hh Hw) as (fs & pn & Hpn & Hdg & E). pose proof (mw_time w (proj1 Hw)) as Hnow.
  unfold probe. rewrite E. cbn [obind]. cbn [state set_state]. rewrite Hdg.
  destruct (Z.leb_spec (probed_size c) path).
  - destruct (ack_probe path top c k n pn (current_time w)) as (c' & -> & H'); [done .. |]. exists c'. tauto.
  - by apply loss_probe.
Qed.

Lemma probe_found path top c w : found path top c -> exists c', probe path w c = Ret c' /\ found path top c'.
Proof.
  intros (Hst & Hf). unfold probe, on_transmit. rewrite Hst.
  destruct (needs_to_send_completion c); [destruct (write_frame w [] _) |]; cbn [obind]; simpl; rewrite Hst;
    eexists; (split; [reflexivity |]); done.
Qed.

Lemma search_found path top ws c : found path top c -> exists c', search path ws c = Ret c' /\ found path top c'.
Proof.
  revert c. induction ws as [| w ws IH]; intros c Hf; simpl; [by exists c |].
  destruct (probe_found path top c (w (probed_sized c)) Hf) as (c1 & -> & Hf1). cbn [obind]. by apply IH.
Qed.

Lemma search_hunting path top ws c k n :
  hunting path top c k n -> probing_writers ws -> 3 * n - k <= Z.of_nat (length ws) ->
  exists c', search path ws c = Ret c' /\ found path top c'.
Proof.
  intros Hh Hws. revert c k n Hh. induction Hws as [| w ws Hw Hws IH]; intros c k n Hh Hlen.
  { destruct (hunting_size _ _ _ _ _ Hh) as (? & ? & _). simpl in Hlen. lia. }
  destruct (hunting_size _ _ _ _ _ Hh) as (? & ? & _). simpl search. simpl in Hlen.
  assert (Hsz : 1200 <= probed_size c <= 65507) by (destruct Hh as ((Hs & _) & _); unfold sizes_ok in Hs; lia).
  destruct (probe_hunting path top c k n (w (probed_sized c)) Hh (Hw _ Hsz)) as (c1 & -> & [Hf | [Hh1 | [Hk Hh1]]]); cbn [obind].
  - by apply search_found.
  - apply (IH c1 0 (n - 1) Hh1). lia.
  - apply (IH c1 (k + 1) n Hh1). lia.
Qed.

(** C19: on a path that carries datagrams up to some size, a search that was
    started ends after at most 36 probes, with a size the path carries that is
    less than 40 bytes, twice the probe threshold, below the size of the path or
    the largest the configuration allows, whichever is smaller.  A probe arrives
    if the bytes of its datagram are not more than the path carries. *)
Theorem mtu_search_converges path c ws :
  mtu_ok c -> state c = SearchRequested -> needs_to_send_completion c = false -> plpmtu c <= path ->
  (max_probe_size c = max_udp_payload c \/ path < max_probe_size c) ->
  probing_writers ws -> (36 <= length ws)%nat ->
  exists c', search path ws c = Ret c' /\ is_search_completed c' = true
    /\ max_datagram_size c' <= path /\ Z.min path (max_udp_payload c) - max_datagram_size c' < 40.
Proof.
  intros Hok Hst Hn Hp Hmax Hws Hlen. pose proof Hok as (Hs & Hc & _).
  destruct (search_hunting path (max_udp_payload c) ws c (probe_count c) 12) as (c' & E & Hf).
  - unfold hunting, room. split_and!; try done; try lia. right. unfold sizes_ok in Hs. simpl. lia.
  - done.
  - unfold counters_ok in Hc. lia.
  - destruct Hf as (Hst' & _ & Hp' & Hd). exists c'. split; [done |]. unfold is_search_completed, max_datagram_size.
    rewrite Hst'. done.
Qed.

(** ** Witnesses *)

(** A packet in a datagram of [size] bytes, of which 36 are overhead. *)
Definition sample_writer (size : Z) : Writer :=
  Context.writer true (Context.mk (mk_eb (replicate (Z.to_nat (size - 36)) 0) 0) Frame.NonEliciting false (PacketNumber.from_varint 7 ApplicationData)
    Unconstrained MtuProbing 1000 20 16).

(** A controller for jumbo frames that has been enabled. *)
Definition sample_controller : Controller :=
  mk_mtu SearchRequested 1200 1200 8973 1472 8973 0 0 None Timer.default false false.

Example sample_controller_new :
  (let! c := new (mk_config 1228 1228 9001) IpV4 in enable c) = Ret sample_controller.
Proof. reflexivity. Qed.

Lemma sample_controller_ok : mtu_ok sample_controller.
Proof.
  split; [unfold sizes_ok; simpl; lia |]. split; [split; [simpl; lia |]; split; [simpl; lia | done] |].
  split; simpl; lia.
Qed.

Lemma sample_app_pn v : 0 <= v <= 1000 -> app_pn (PacketNumber.from_varint v ApplicationData).
Proof. intros Hv. exists v. split; [unfold varint_ok, MAX_VARINT_VALUE; lia | done]. Qed.

Lemma sample_writer_ok size : 1200 <= size <= 65507 -> probing_writer size (sample_writer size).
Proof.
  intros Hs. assert (Hl : blen (replicate (Z.to_nat (size - 36)) 0) = size - 36) by (unfold blen; rewrite length_replicate; lia). split.
  - apply context_mtu_writer_ok; try done; cbn [Context.buffer eb_bytes]; [split; cbn [eb_bytes eb_position]; rewrite Hl; lia | rewrite Hl; change (umax 16) with 65535; lia |].
    by apply sample_app_pn.
  - split; [done |]. cbn. unfold Context.remaining_capacity, eb_remaining, saturating_sub. cbn [Context.buffer eb_bytes eb_position]. rewrite Hl. lia.
Qed.

Definition sample_events : list Event :=
  [EEnable; ETransmit (sample_writer 1472); EAck (PacketNumber.from_varint 7 ApplicationData) 1472;
   ELoss (PacketNumber.from_varint 9 ApplicationData) 1400 true 5000].

Lemma mtu_controller_safe_witness :
  exists c0 announced c, new config_default IpV6 = Ret c0 /\ run c0 sample_events = Ret (announced, c) /\ mtu_ok c.
Proof.
  destruct (mtu_controller_safe config_default IpV6 sample_events) as (c0 & ann & c & E0 & E & Hok & _).
  - split; vm_compute; split; discriminate.
  - repeat constructor; try (apply sample_writer_ok; lia); try (apply app_pn_ok, sample_app_pn; lia);
      unfold timestamp_ok; lia.
  - exists c0, ann, c. split; [exact E0 |]. split; [exact E | exact Hok].
Defined.

Lemma mtu_search_converges_witness :
  exists c', search 5000 (replicate 36 sample_writer) sample_controller = Ret c'
    /\ is_search_completed c' = true
    /\ max_datagram_size c' <= 5000 /\ Z.min 5000 (max_udp_payload sample_controller) - max_datagram_size c' < 40.
Proof.
  apply (mtu_search_converges 5000 sample_controller (replicate 36 sample_writer)).
  - exact sample_controller_ok.
  - reflexivity.
  - reflexivity.
  - simpl. lia.
  - left. reflexivity.
  - apply Forall_replicate. intros size Hs. by apply sample_writer_ok.
  - rewrite length_replicate. lia.
Defined.
