(* ===== verification/Rtt.v ===== *)
(** * Round trip time estimation

    [recovery/rtt_estimator.rs]: the estimator, and the periods that loss
    recovery derives from it.  Durations are nanoseconds; conversions between
    units and to [u64] are those of the code. *)
From S2P Require Import Prelude Codec VarInt PacketNumber Time.

Module Rtt.

Definition DEFAULT_INITIAL_RTT : Z := Duration.from_millis 333.
Definition MIN_RTT : Z := Duration.from_micros 1.
Definition ZERO_DURATION : Z := Duration.from_millis 0.
Definition K_PERSISTENT_CONGESTION_THRESHOLD : Z := 3.

Record RttEstimator := mk_rtt {
  latest_rtt : Z;
  min_rtt : Z;
  smoothed_rtt : Z;
  rttvar : Z;
  max_ack_delay : Z;
  first_rtt_sample : option Z
}.

(** [as_nanos() as u64] and the like. *)
Definition nanos64 (d : Z) : Z := wrap 64 (Duration.as_nanos d).
Definition micros64 (d : Z) : Z := wrap 64 (Duration.as_micros d).
Definition millis64 (d : Z) : Z := wrap 64 (Duration.as_millis d).

Definition new_with_max_ack_delay (max_ack_delay initial_rtt : Z) : outcome RttEstimator :=
  let! _ := rassert (MIN_RTT <=? initial_rtt) in
  let initial_rtt := Z.max initial_rtt MIN_RTT in
  let smoothed_rtt := initial_rtt in
  let rttvar := initial_rtt / 2 in
  Ret (mk_rtt initial_rtt initial_rtt smoothed_rtt rttvar max_ack_delay None).
Definition new (initial_rtt : Z) : outcome RttEstimator := new_with_max_ack_delay Duration.ZERO initial_rtt.
Definition for_new_path (self : RttEstimator) (initial_rtt : Z) : outcome RttEstimator :=
  new_with_max_ack_delay (max_ack_delay self) initial_rtt.

Definition rttvar_4x (self : RttEstimator) : outcome Z :=
  let! v := mul_c 64 4 (micros64 (rttvar self)) in Ret (Duration.from_micros v).

Definition calculate_base_pto_micros (self : RttEstimator) (pto_backoff : Z) (space : PacketNumberSpace) : outcome Z :=
  let pto_period := micros64 (smoothed_rtt self) in
  let! var := rttvar_4x self in
  let! pto_period := add_c 64 pto_period (Z.max (micros64 var) (micros64 K_GRANULARITY)) in
  let! pto_period :=
    match space with
    | ApplicationData => add_c 64 pto_period (micros64 (max_ack_delay self))
    | _ => Ret pto_period
    end in
  mul_c 64 pto_period pto_backoff.

Definition pto_period (self : RttEstimator) (pto_backoff : Z) (space : PacketNumberSpace) : outcome Z :=
  let! pto_period := calculate_base_pto_micros self pto_backoff space in
  let pto_period := Z.max pto_period (micros64 K_GRANULARITY) in
  Ret (Duration.from_micros pto_period).

(** [x as i64]. *)
Definition as_i64 (x : Z) : Z := if x <? 2 ^ 63 then x else x - 2 ^ 64.
(** An [i64] sum: out of range is a panic. *)
Definition add_i64 (a b : Z) : outcome Z :=
  if (- 2 ^ 63 <=? a + b) && (a + b <? 2 ^ 63) then Ret (a + b) else Panic.

(** [random::gen_range_biased], over the bytes the generator fills in. *)
Definition from_le_bytes (dest : list Z) : Z := foldr (fun b acc => b + 256 * acc) 0 dest.
Definition gen_range_biased (dest : list Z) (start end_ : Z) : outcome Z :=
  if start =? end_ then Ret start else
  let result := from_le_bytes dest in
  let! width := sub_c end_ start in
  let max_variance := Z.min (width + 1) (umax 64) in
  add_c 64 start (result mod max_variance).

Definition calculate_jitter_amount (base_pto_micros jitter_percentage : Z) (dest : list Z) : outcome Z :=
  if jitter_percentage =? 0 then Ret 0 else
  let! scaled := mul_c 64 base_pto_micros jitter_percentage in
  let max_jitter_micros := scaled / 100 in
  let! jitter_range := mul_c 64 2 max_jitter_micros in
  let! random_value := gen_range_biased dest 0 jitter_range in
  add_i64 (as_i64 random_value) (- as_i64 max_jitter_micros).

Definition pto_period_with_jitter (self : RttEstimator) (pto_backoff : Z) (space : PacketNumberSpace)
    (pto_jitter_percentage : Z) (dest : list Z) : outcome Z :=
  let! pto_period := calculate_base_pto_micros self pto_backoff space in
  let! jitter_amount := calculate_jitter_amount pto_period pto_jitter_percentage dest in
  let! sum := add_i64 (as_i64 pto_period) jitter_amount in
  let pto_period := wrap 64 sum in
  let pto_period := Z.max pto_period (micros64 K_GRANULARITY) in
  Ret (Duration.from_micros pto_period).

(** The transport parameter is in milliseconds. *)
Definition on_max_ack_delay (self : RttEstimator) (max_ack_delay_ms : Z) : RttEstimator :=
  mk_rtt (latest_rtt self) (min_rtt self) (smoothed_rtt self) (rttvar self)
    (Duration.from_millis max_ack_delay_ms) (first_rtt_sample self).

Definition weighted_average (a b weight : Z) : outcome Z :=
  let a := nanos64 a in
  let a := a / weight in
  let! w := sub_c weight 1 in
  let! a := mul_c 64 a w in
  let b := nanos64 b in
  let b := b / weight in
  let! sum := add_c 64 a b in
  Ret (Duration.from_nanos sum).

Definition update_rtt (self : RttEstimator) (ack_delay rtt_sample timestamp : Z) (is_handshake_confirmed : bool)
    (space : PacketNumberSpace) : outcome RttEstimator :=
  let latest := Z.max rtt_sample MIN_RTT in
  match first_rtt_sample self with
  | None => Ret (mk_rtt latest latest latest (latest / 2) (max_ack_delay self) (Some timestamp))
  | Some first =>
      let min_ := Z.min (min_rtt self) latest in
      let ack_delay := match space with Initial => ZERO_DURATION | _ => ack_delay end in
      let ack_delay := if is_handshake_confirmed then Z.min ack_delay (max_ack_delay self) else ack_delay in
      let kept := mk_rtt latest min_ (smoothed_rtt self) (rttvar self) (max_ack_delay self) (Some first) in
      let average adjusted_rtt :=
        let rttvar_sample := Duration.abs_diff (smoothed_rtt self) adjusted_rtt in
        let! var := weighted_average (rttvar self) rttvar_sample 4 in
        let! smoothed := weighted_average (smoothed_rtt self) adjusted_rtt 8 in
        Ret (mk_rtt latest min_ smoothed var (max_ack_delay self) (Some first)) in
      let! sum := Duration.add min_ ack_delay in
      if sum <? latest then
        let! adjusted_rtt := Duration.sub latest ack_delay in
        average adjusted_rtt
      else if negb is_handshake_confirmed then Ret kept
      else average latest
  end.

Definition persistent_congestion_threshold (self : RttEstimator) : outcome Z :=
  let! var := rttvar_4x self in
  let! sum := add_c 64 (millis64 (smoothed_rtt self)) (Z.max (millis64 var) (millis64 K_GRANULARITY)) in
  let! sum := add_c 64 sum (millis64 (max_ack_delay self)) in
  let! product := mul_c 64 sum K_PERSISTENT_CONGESTION_THRESHOLD in
  Ret (Duration.from_millis product).

Definition loss_time_threshold (self : RttEstimator) : outcome Z :=
  let time_threshold := Z.max (nanos64 (smoothed_rtt self)) (nanos64 (latest_rtt self)) in
  let! time_threshold := add_c 64 time_threshold (time_threshold / 8) in
  let time_threshold := Z.max time_threshold (nanos64 K_GRANULARITY) in
  Ret (Duration.from_nanos time_threshold).

Definition on_persistent_congestion (self : RttEstimator) : RttEstimator :=
  mk_rtt (latest_rtt self) (min_rtt self) (smoothed_rtt self) (rttvar self) (max_ack_delay self) None.

End Rtt.

Import Rtt.

(** ** The invariant *)

(** The longest round trip considered: nine minutes. *)
Definition MAX_RTT : Z := 2 ^ 39.

(** The values stay below the longest sample; the smoothed value is never below
    the minimum by more than what rounding down accumulates. *)
Definition rtt_ok (hi : Z) (r : RttEstimator) : Prop :=
  MIN_RTT <= min_rtt r <= latest_rtt r /\ latest_rtt r <= hi
  /\ Z.max 0 (min_rtt r - 56) <= smoothed_rtt r <= hi
  /\ 0 <= rttvar r <= hi
  /\ 0 <= max_ack_delay r <= Duration.from_millis (2 ^ 14) /\ hi <= MAX_RTT.

Lemma nanos64_small d : 0 <= d <= MAX_RTT -> nanos64 d = d.
Proof. intros H. unfold nanos64, Duration.as_nanos. apply wrap_small. unfold uint, MAX_RTT in *. lia. Qed.

Lemma weighted_average_spec a b w :
  0 <= a <= MAX_RTT -> 0 <= b <= MAX_RTT -> 2 <= w <= 8 ->
  weighted_average a b w = Ret (a / w * (w - 1) + b / w).
Proof.
  intros Ha Hb Hw. unfold weighted_average. rewrite !nanos64_small by done. rewrite sub_c_Ret by lia. cbn [obind].
  assert (0 <= a / w <= a) by (split; [apply Z.div_pos; lia | apply Z.div_le_upper_bound; nia]).
  assert (0 <= b / w <= b) by (split; [apply Z.div_pos; lia | apply Z.div_le_upper_bound; nia]).
  unfold MAX_RTT in *. assert (a / w * (w - 1) <= 2 ^ 39 * 7) by nia.
  unfold mul_c. destruct (Z.ltb_spec (a / w * (w - 1)) (2 ^ 64)); [| lia]. cbn [obind].
  rewrite add_c_Ret by lia. done.
Qed.

(** The average lies between the two values, up to rounding. *)
Lemma average_bounds a b w :
  0 <= a -> 0 <= b -> 2 <= w ->
  (a * (w - 1) + b) - w * (w - 1) <= w * (a / w * (w - 1) + b / w)
  /\ w * (a / w * (w - 1) + b / w) <= a * (w - 1) + b.
Proof.
  intros Ha Hb Hw. pose proof (Z.div_mod a w ltac:(lia)). pose proof (Z.mod_pos_bound a w ltac:(lia)).
  pose proof (Z.div_mod b w ltac:(lia)). pose proof (Z.mod_pos_bound b w ltac:(lia)).
  replace (w * (a / w * (w - 1) + b / w)) with ((a - a mod w) * (w - 1) + (b - b mod w)) by nia. nia.
Qed.

(** One step of both averages. *)
Lemma average_ok hi r m adj :
  rtt_ok hi r -> 0 <= m <= min_rtt r -> m <= adj <= hi ->
  let var := rttvar r / 4 * 3 + Duration.abs_diff (smoothed_rtt r) adj / 4 in
  let smoothed := smoothed_rtt r / 8 * 7 + adj / 8 in
  weighted_average (rttvar r) (Duration.abs_diff (smoothed_rtt r) adj) 4 = Ret var
  /\ weighted_average (smoothed_rtt r) adj 8 = Ret smoothed
  /\ 0 <= var <= hi /\ Z.max 0 (m - 56) <= smoothed <= hi.
Proof.
  intros (H1 & H2 & H3 & H4 & H5 & H6) Hm Hadj. unfold MIN_RTT, Duration.from_micros in H1. cbv zeta.
  assert (Hd : 0 <= Duration.abs_diff (smoothed_rtt r) adj <= hi) by (unfold Duration.abs_diff; lia).
  rewrite !weighted_average_spec by lia. split; [done |]. split; [done |].
  pose proof (average_bounds (rttvar r) (Duration.abs_diff (smoothed_rtt r) adj) 4).
  pose proof (average_bounds (smoothed_rtt r) adj 8). split.
  - assert (0 <= rttvar r / 4) by (apply Z.div_pos; lia).
    assert (0 <= Duration.abs_diff (smoothed_rtt r) adj / 4) by (apply Z.div_pos; lia). lia.
  - assert (0 <= smoothed_rtt r / 8) by (apply Z.div_pos; lia). assert (0 <= adj / 8) by (apply Z.div_pos; lia). lia.
Qed.

Lemma rtt_ok_mono hi hi' r : rtt_ok hi r -> hi <= hi' <= MAX_RTT -> rtt_ok hi' r.
Proof. unfold rtt_ok. lia. Qed.

(** What [update_rtt] does to the estimate, without the arithmetic of the code:
    the first sample is taken over, a later one moves the averages unless it is
    ignored. *)
Definition acked_delay (r : RttEstimator) (ack_delay : Z) (confirmed : bool) (space : PacketNumberSpace) : Z :=
  let d := match space with Initial => ZERO_DURATION | _ => ack_delay end in
  if confirmed then Z.min d (max_ack_delay r) else d.
Definition moved (r : RttEstimator) (latest min_ adj first : Z) : RttEstimator :=
  mk_rtt latest min_ (smoothed_rtt r / 8 * 7 + adj / 8)
    (rttvar r / 4 * 3 + Z.abs (smoothed_rtt r - adj) / 4) (max_ack_delay r) (Some first).
Definition updated (r : RttEstimator) (ack_delay sample ts : Z) (confirmed : bool) (space : PacketNumberSpace)
    : RttEstimator :=
  let latest := Z.max sample MIN_RTT in
  match first_rtt_sample r with
  | None => mk_rtt latest latest latest (latest / 2) (max_ack_delay r) (Some ts)
  | Some first =>
      let min_ := Z.min (min_rtt r) latest in
      let delay := acked_delay r ack_delay confirmed space in
      if decide (min_ + delay < latest) then moved r latest min_ (latest - delay) first
      else if confirmed then moved r latest min_ latest first
      else mk_rtt latest min_ (smoothed_rtt r) (rttvar r) (max_ack_delay r) (Some first)
  end.

Lemma update_spec hi r ack_delay sample ts confirmed space :
  rtt_ok hi r -> 0 <= sample <= MAX_RTT -> 0 <= ack_delay <= Duration.from_micros (2 ^ 64) ->
  let latest := Z.max sample MIN_RTT in
  let r' := updated r ack_delay sample ts confirmed space in
  update_rtt r ack_delay sample ts confirmed space = Ret r'
  /\ rtt_ok (if first_rtt_sample r is Some _ then Z.max hi latest else latest) r'
  /\ min_rtt r' = (if first_rtt_sample r is Some _ then Z.min (min_rtt r) latest else latest)
  /\ is_Some (first_rtt_sample r').
Proof.
  intros H Hs Hd. cbv zeta. assert (Hl : MIN_RTT <= Z.max sample MIN_RTT <= MAX_RTT)
    by (unfold MIN_RTT, MAX_RTT, Duration.from_micros in *; lia).
  unfold updated, update_rtt. set (latest := Z.max sample MIN_RTT) in *. destruct (first_rtt_sample r) as [first |].
  2: { split; [done |]. split; [| done]. unfold rtt_ok in *; cbn. unfold MIN_RTT, Duration.from_micros in *.
       pose proof (Z.div_pos latest 2). assert (latest / 2 <= latest) by (apply Z.div_le_upper_bound; lia). lia. }
  fold (acked_delay r ack_delay confirmed space). cbv zeta.
  set (m := Z.min (min_rtt r) latest). set (d := acked_delay r ack_delay confirmed space).
  assert (Hdd : 0 <= d <= Duration.from_micros (2 ^ 64)).
  { unfold d, acked_delay, ZERO_DURATION. destruct H as (? & ? & ? & ? & ? & ?). unfold Duration.from_micros, Duration.from_millis in *.
    destruct space, confirmed; lia. }
  assert (Hm : 0 <= m <= min_rtt r /\ m <= latest /\ MIN_RTT <= m) by (unfold m, rtt_ok, MIN_RTT, Duration.from_micros in *; lia).
  assert (Hadd : Duration.add m d = Ret (m + d)).
  { unfold Duration.add, Duration.checked_add. destruct (Z.leb_spec (m + d) Duration.MAX); [done |].
    unfold Duration.MAX, Duration.from_micros, MAX_RTT in *. lia. }
  rewrite Hadd. cbn [obind].
  assert (H' : rtt_ok (Z.max hi latest) r) by (eapply rtt_ok_mono; [done |]; unfold rtt_ok in H; lia).
  assert (Hmove : forall adj, m <= adj <= latest -> rtt_ok (Z.max hi latest) (moved r latest m adj first)).
  { intros adj Hadj. destruct (average_ok (Z.max hi latest) r m adj) as (_ & _ & ? & ?); [done | lia | lia |].
    unfold rtt_ok in *. cbn. unfold Duration.abs_diff in *. lia. }
  assert (Hrun : forall adj, m <= adj <= latest ->
    weighted_average (rttvar r) (Duration.abs_diff (smoothed_rtt r) adj) 4 = Ret (rttvar (moved r latest m adj first))
    /\ weighted_average (smoothed_rtt r) adj 8 = Ret (smoothed_rtt (moved r latest m adj first))).
  { intros adj Hadj. destruct (average_ok (Z.max hi latest) r m adj) as (-> & -> & _); [done | lia | lia | done]. }
  destruct (Z.ltb_spec (m + d) latest) as [Hlt | Hge].
  - rewrite decide_True by done. unfold Duration.sub, Duration.checked_sub.
    destruct (Z.leb_spec d latest); [| lia]. cbn [unwrap obind].
    destruct (Hrun (latest - d)) as [-> ->]; [lia |]. cbn [obind]. split; [done |]. split; [apply Hmove; lia | done].
  - rewrite decide_False by lia. destruct confirmed; cbn [negb].
    + destruct (Hrun latest) as [-> ->]; [lia |]. cbn [obind]. split; [done |]. split; [apply Hmove; lia | done].
    + split; [done |]. split; [| done]. unfold rtt_ok in *; cbn. lia.
Qed.

(** ** The derived periods *)

(** The probe timeout of RFC 9002, in microseconds, before the backoff. *)
Definition base_pto (r : RttEstimator) (space : PacketNumberSpace) : Z :=
  smoothed_rtt r / 1000 + Z.max (4 * (rttvar r / 1000)) 1000
  + (if decide (space = ApplicationData) then max_ack_delay r / 1000 else 0).

Lemma div_range a b n : 0 <= a <= b -> 0 < n -> 0 <= a / n <= b / n.
Proof. intros. split; [apply Z.div_pos | apply Z.div_le_mono]; lia. Qed.

Lemma mul_c_Ret w a b : a * b < 2 ^ w -> mul_c w a b = Ret (a * b).
Proof. intros. unfold mul_c. by rewrite (proj2 (Z.ltb_lt _ _)). Qed.

(** In range, the conversions to [u64] lose nothing. *)
Lemma micros64_small d : 0 <= d <= 2 ^ 63 -> micros64 d = d / 1000.
Proof.
  intros H. unfold micros64, Duration.as_micros. apply wrap_small. unfold uint.
  pose proof (div_range d (2 ^ 63) 1000). assert (2 ^ 63 / 1000 < 2 ^ 64) by done. lia.
Qed.
Lemma millis64_small d : 0 <= d <= 2 ^ 63 -> millis64 d = d / 1000000.
Proof.
  intros H. unfold millis64, Duration.as_millis. apply wrap_small. unfold uint.
  pose proof (div_range d (2 ^ 63) 1000000). assert (2 ^ 63 / 1000000 < 2 ^ 64) by done. lia.
Qed.

Lemma rttvar_4x_spec hi r : rtt_ok hi r ->
  rttvar_4x r = Ret (Duration.from_micros (4 * (rttvar r / 1000)))
  /\ 0 <= rttvar r / 1000 <= 549755813 /\ 0 <= smoothed_rtt r / 1000 <= 549755813
  /\ 0 <= max_ack_delay r / 1000 <= 16384000.
Proof.
  intros (H1 & H2 & H3 & H4 & H5 & H6). unfold Duration.from_millis, MAX_RTT in *.
  pose proof (div_range (rttvar r) (2 ^ 39) 1000) as Hv. pose proof (div_range (smoothed_rtt r) (2 ^ 39) 1000) as Hs.
  pose proof (div_range (max_ack_delay r) (2 ^ 14 * 1000000) 1000) as Hm.
  change (2 ^ 39 / 1000) with 549755813 in *. change (2 ^ 14 * 1000000 / 1000) with 16384000 in *.
  unfold rttvar_4x. rewrite micros64_small by lia. rewrite mul_c_Ret by lia. split; [done | lia].
Qed.

Lemma base_pto_spec hi r backoff space :
  rtt_ok hi r -> 0 <= backoff < 2 ^ 32 ->
  calculate_base_pto_micros r backoff space = Ret (base_pto r space * backoff)
  /\ 1000 <= base_pto r space < 2 ^ 32.
Proof.
  intros H Hb. destruct (rttvar_4x_spec hi r H) as (Hv & Hv' & Hs & Hm). pose proof H as (_ & _ & H3 & _ & H5 & H6).
  unfold calculate_base_pto_micros. rewrite Hv. cbn [obind]. unfold MAX_RTT, Duration.from_millis in *.
  rewrite !micros64_small by (unfold Duration.from_micros, K_GRANULARITY, Duration.from_millis in *; lia).
  unfold Duration.from_micros. rewrite Z.div_mul by lia. change (K_GRANULARITY / 1000) with 1000.
  rewrite add_c_Ret by lia. cbn [obind]. unfold base_pto. destruct space; cbn [obind].
  1, 2: rewrite decide_False by done; rewrite mul_c_Ret by nia; split; [do 2 f_equal; lia | lia].
  rewrite decide_True by done. rewrite add_c_Ret by lia. cbn [obind]. rewrite mul_c_Ret by nia. split; [done | lia].
Qed.

Lemma as_i64_small x : 0 <= x < 2 ^ 63 -> as_i64 x = x.
Proof. intros H. unfold as_i64. destruct (Z.ltb_spec x (2 ^ 63)); [done | lia]. Qed.

Lemma add_i64_Ret a b : - 2 ^ 63 <= a + b < 2 ^ 63 -> add_i64 a b = Ret (a + b).
Proof.
  intros H. unfold add_i64. destruct (Z.leb_spec (- 2 ^ 63) (a + b)); [| lia].
  destruct (Z.ltb_spec (a + b) (2 ^ 63)); [done | lia].
Qed.

Lemma gen_range_biased_spec dest n :
  0 <= n < 2 ^ 63 -> exists v, gen_range_biased dest 0 n = Ret v /\ 0 <= v <= n.
Proof.
  intros H. unfold gen_range_biased. destruct (Z.eqb_spec 0 n); [exists 0; split; [done | lia] |].
  rewrite sub_c_Ret by lia. cbn [obind]. rewrite Z.min_l by (unfold umax; lia). rewrite Z.sub_0_r.
  pose proof (Z.mod_pos_bound (from_le_bytes dest) (n + 1)).
  rewrite add_c_Ret by lia. eexists. split; [done | lia].
Qed.

Lemma jitter_spec base pct dest :
  0 <= base < 2 ^ 56 -> 0 <= pct <= 50 ->
  exists j, calculate_jitter_amount base pct dest = Ret j /\ - (base * pct / 100) <= j <= base * pct / 100.
Proof.
  intros Hb Hp. unfold calculate_jitter_amount. destruct (Z.eqb_spec pct 0) as [-> |].
  { exists 0. split; [done |]. rewrite Z.mul_0_r. done. }
  assert (0 <= base * pct <= 2 ^ 56 * 50) by nia. pose proof (div_range (base * pct) (2 ^ 56 * 50) 100) as Hd.
  assert (2 ^ 56 * 50 / 100 < 2 ^ 56) by done. rewrite mul_c_Ret by lia. cbn [obind]. rewrite mul_c_Ret by lia. cbn [obind].
  destruct (gen_range_biased_spec dest (2 * (base * pct / 100))) as (v & -> & Hv); [lia |]. cbn [obind].
  rewrite !as_i64_small by lia. rewrite add_i64_Ret by lia. eexists. split; [done | lia].
Qed.

Lemma thresholds_spec hi r :
  rtt_ok hi r ->
  let rtt := Z.max (smoothed_rtt r) (latest_rtt r) in
  loss_time_threshold r = Ret (Z.max (rtt + rtt / 8) K_GRANULARITY)
  /\ persistent_congestion_threshold r =
       Ret (Duration.from_millis
         ((smoothed_rtt r / 1000000 + Z.max (4 * (rttvar r / 1000) / 1000) 1 + max_ack_delay r / 1000000) * 3)).
Proof.
  intros H. cbv zeta. destruct (rttvar_4x_spec hi r H) as (Hv & Hv' & Hs & Hm). destruct H as (H1 & H2 & H3 & H4 & H5 & H6).
  unfold MIN_RTT, Duration.from_micros, Duration.from_millis, MAX_RTT in *. split.
  - unfold loss_time_threshold. rewrite !nanos64_small by (unfold MAX_RTT; lia).
    set (rtt := Z.max (smoothed_rtt r) (latest_rtt r)). pose proof (div_range rtt (2 ^ 39) 8).
    change (2 ^ 39 / 8) with (2 ^ 36) in *. rewrite add_c_Ret by lia. done.
  - unfold persistent_congestion_threshold. rewrite Hv. cbn [obind].
    pose proof (div_range (smoothed_rtt r) (2 ^ 39) 1000000). pose proof (div_range (max_ack_delay r) (2 ^ 39) 1000000).
    pose proof (div_range (4 * (rttvar r / 1000)) (2 ^ 39) 1000). assert (2 ^ 39 / 1000000 = 549755) by done.
    assert (2 ^ 39 / 1000 = 549755813) by done.
    rewrite !millis64_small by (unfold Duration.from_micros, K_GRANULARITY, Duration.from_millis in *; lia).
    unfold Duration.from_micros. change 1000000 with (1000 * 1000) at 2.
    rewrite Z.div_mul_cancel_r by lia. change (K_GRANULARITY / 1000000) with 1.
    rewrite add_c_Ret by lia. cbn [obind]. rewrite add_c_Ret by lia. cbn [obind]. rewrite mul_c_Ret by (unfold K_PERSISTENT_CONGESTION_THRESHOLD; lia).
    done.
Qed.

(** ** The properties *)

(** What happens to an estimator. *)
Inductive RttEvent :=
| Sample (ack_delay rtt_sample timestamp : Z) (is_handshake_confirmed : bool) (space : PacketNumberSpace)
| PeerMaxAckDelay (ms : Z)
| PersistentCongestion.

Definition rtt_step (r : RttEstimator) (e : RttEvent) : outcome RttEstimator :=
  match e with
  | Sample d s t c sp => update_rtt r d s t c sp
  | PeerMaxAckDelay ms => Ret (on_max_ack_delay r ms)
  | PersistentCongestion => Ret (on_persistent_congestion r)
  end.
Fixpoint rtt_run (r : RttEstimator) (es : list RttEvent) : outcome RttEstimator :=
  match es with
  | [] => Ret r
  | e :: es => let! r := rtt_step r e in rtt_run r es
  end.

Definition event_ok (e : RttEvent) : Prop :=
  match e with
  | Sample d s _ _ _ => 0 <= s <= MAX_RTT /\ 0 <= d <= Duration.from_micros (2 ^ 64)
  | PeerMaxAckDelay ms => 0 <= ms <= 2 ^ 14
  | PersistentCongestion => True
  end.

(** The samples since the last persistent congestion, at least [MIN_RTT] each. *)
Fixpoint recent (acc : list Z) (es : list RttEvent) : list Z :=
  match es with
  | [] => acc
  | Sample _ s _ _ _ :: es => recent (Z.max s MIN_RTT :: acc) es
  | PeerMaxAckDelay _ :: es => recent acc es
  | PersistentCongestion :: es => recent [] es
  end.

Definition longest (ss : list Z) : Z :=
  match ss with [] => MAX_RTT | s :: ss => foldr Z.max s ss end.
Definition least (ss : list Z) : Z :=
  match ss with [] => 0 | s :: ss => foldr Z.min s ss end.

Lemma longest_cons s ss : longest (s :: ss) = match ss with [] => s | _ => Z.max (longest ss) s end.
Proof. destruct ss as [| a ss]; [done |]. unfold longest. induction ss as [| b ss IH]; cbn in *; lia. Qed.
Lemma least_cons s ss : least (s :: ss) = match ss with [] => s | _ => Z.min (least ss) s end.
Proof. destruct ss as [| a ss]; [done |]. unfold least. induction ss as [| b ss IH]; cbn in *; lia. Qed.

Definition run_ok (ss : list Z) (r : RttEstimator) : Prop :=
  rtt_ok (longest ss) r /\ (first_rtt_sample r = None <-> ss = []) /\ (ss <> [] -> min_rtt r = least ss).

Lemma run_ok_step ss r e es :
  run_ok ss r -> event_ok e ->
  exists r' ss', rtt_step r e = Ret r' /\ run_ok ss' r' /\ recent ss (e :: es) = recent ss' es.
Proof.
  intros (Hok & Hnone & Hmin) He. destruct e as [d s t c sp | ms |]; cbn [rtt_step recent event_ok] in *.
  - destruct He as [Hs Hd]. destruct (update_spec (longest ss) r d s t c sp) as (-> & Hok' & Hmin' & Hsome); [done.. |].
    eexists _, _. split; [done |]. split; [| done].
    split; [| split; [rewrite <- not_eq_None_Some in Hsome; naive_solver | intros _; rewrite Hmin']].
    + rewrite longest_cons. destruct ss as [| s0 ss]; [by rewrite (proj2 Hnone eq_refl) in Hok' |].
      destruct (first_rtt_sample r); [done | discriminate (proj1 Hnone eq_refl)].
    + rewrite least_cons. destruct ss as [| s0 ss]; [by rewrite (proj2 Hnone eq_refl) |].
      rewrite <- Hmin by done. destruct (first_rtt_sample r); [done | discriminate (proj1 Hnone eq_refl)].
  - eexists _, ss. split; [done |]. split; [| done]. split; [| done]. unfold rtt_ok in *. cbn.
    unfold Duration.from_millis in *. lia.
  - eexists _, []. split; [done |]. split; [| done]. split; [| done].
    unfold rtt_ok in *. cbn. destruct Hok as (? & ? & ? & ? & ? & ?). lia.
Qed.

Lemma new_rtt_ok initial : MIN_RTT <= initial <= MAX_RTT -> exists r, new initial = Ret r /\ run_ok [] r.
Proof.
  intros H. unfold new, new_with_max_ack_delay. rewrite (proj2 (Z.leb_le _ _)) by lia. cbn [rassert obind].
  eexists. split; [done |]. split; [| done]. rewrite Z.max_l by lia.
  unfold rtt_ok, Duration.ZERO, Duration.from_millis, MIN_RTT, Duration.from_micros in *; cbn.
  pose proof (div_range initial MAX_RTT 2). assert (MAX_RTT / 2 <= MAX_RTT) by done. lia.
Qed.

Lemma rtt_run_ok es : forall ss r,
  run_ok ss r -> Forall event_ok es -> exists r', rtt_run r es = Ret r' /\ run_ok (recent ss es) r'.
Proof.
  induction es as [| e es IH]; intros ss r H Hes; [by exists r |]. inversion Hes; subst.
  destruct (run_ok_step ss r e es) as (r' & ss' & E & H' & ->); [done.. |]. cbn [rtt_run]. rewrite E. cbn [obind]. by apply IH.
Qed.

(** Through any sequence of samples of at most [MAX_RTT] (2^39 nanoseconds,
    about nine minutes), persistent congestion events and changes of the peer's
    delay the RTT estimator never overflows or panics.  After a sample, its
    minimum is exactly the least sample since the last persistent congestion, each
    counted as at least a microsecond; the smoothed value stays between that
    minimum, less 56 ns of rounding, and the longest such sample, and the variance
    between zero and the longest such sample.  With no sample since then, both
    stay below [MAX_RTT]. *)
Theorem rtt_estimator_bounds initial es :
  MIN_RTT <= initial <= MAX_RTT -> Forall event_ok es ->
  exists r r', new initial = Ret r /\ rtt_run r es = Ret r'
    /\ rtt_ok (longest (recent [] es)) r'
    /\ (first_rtt_sample r' = None <-> recent [] es = [])
    /\ (recent [] es <> [] -> min_rtt r' = least (recent [] es)).
Proof.
  intros Hi Hes. destruct (new_rtt_ok initial Hi) as (r & E & H).
  destruct (rtt_run_ok es [] r H Hes) as (r' & E' & H'). exists r, r'. by repeat split; try apply H'.
Qed.

(** C36: the timeouts derived from an estimate are those of RFC 9002 and do not
    overflow: the probe timeout is the backoff times the smoothed RTT, four
    variances (at least the granularity) and, for application data, the peer's
    delay; jitter moves it by at most its percentage and never below the
    granularity; the loss threshold is 9/8 of the larger RTT. *)
Theorem rtt_periods hi r backoff space pct dest :
  rtt_ok hi r -> 1 <= backoff <= 2 ^ 24 -> 0 <= pct <= 50 ->
  let pto := base_pto r space * backoff in
  let rtt := Z.max (smoothed_rtt r) (latest_rtt r) in
  pto_period r backoff space = Ret (Duration.from_micros pto)
  /\ K_GRANULARITY <= Duration.from_micros pto
  /\ (exists p, pto_period_with_jitter r backoff space pct dest = Ret (Duration.from_micros p)
      /\ 1000 <= p /\ pto - pto * pct / 100 <= p <= pto + pto * pct / 100)
  /\ loss_time_threshold r = Ret (Z.max (rtt + rtt / 8) K_GRANULARITY)
  /\ persistent_congestion_threshold r =
       Ret (Duration.from_millis
         ((smoothed_rtt r / 1000000 + Z.max (4 * (rttvar r / 1000) / 1000) 1 + max_ack_delay r / 1000000) * 3)).
Proof.
  intros H Hb Hp. cbv zeta. destruct (base_pto_spec hi r backoff space H) as [Eb Hbase]; [lia |].
  destruct (thresholds_spec hi r H) as [El Ec]. assert (1000 <= base_pto r space * backoff < 2 ^ 56) by nia.
  split; [| split; [| split; [| by split]]].
  - unfold pto_period. rewrite Eb. cbn [obind]. change (micros64 K_GRANULARITY) with 1000. do 2 f_equal. lia.
  - unfold K_GRANULARITY, Duration.from_millis, Duration.from_micros. lia.
  - unfold pto_period_with_jitter. rewrite Eb. cbn [obind]. change (micros64 K_GRANULARITY) with 1000.
    set (pto := base_pto r space * backoff) in *. destruct (jitter_spec pto pct dest) as (j & -> & Hj); [lia | done |].
    cbn [obind]. assert (pto * pct / 100 <= pto) by (apply Z.div_le_upper_bound; nia).
    rewrite as_i64_small by lia. rewrite add_i64_Ret by lia. cbn [obind].
    rewrite wrap_small by (unfold uint; lia). eexists. split; [done | lia].
Qed.

Lemma rtt_periods_witness :
  pto_period (mk_rtt 50000000 50000000 50000000 25000000 0 (Some 1)) 2 ApplicationData = Ret 300000000
  /\ 0 <= 20 <= 50.
Proof.
  split; [| lia].
  apply (rtt_periods MAX_RTT (mk_rtt 50000000 50000000 50000000 25000000 0 (Some 1)) 2 ApplicationData 20 []); [| lia.. ].
  unfold rtt_ok, MIN_RTT, MAX_RTT, Duration.from_micros, Duration.from_millis; cbn; lia.
Defined.

(** Before the handshake is confirmed a sample equal to the minimum is ignored,
    even if the peer reports no delay. *)
Example equal_sample_ignored :
  let r := mk_rtt 50000000 50000000 80000000 25000000 0 (Some 1) in
  update_rtt r 0 50000000 2 false Handshake = Ret r.
Proof. reflexivity. Qed.
