(* ===== verification/Recovery.v ===== *)
(** * Loss detection, probe timeouts and persistent congestion

    [recovery/sent_packets.rs], [recovery/loss.rs], [recovery/pto.rs] and
    [recovery/persistent_congestion.rs]. *)
From S2P Require Import Prelude Codec VarInt PacketNumber FrameAck Frames Time Transmission.

(** [inet/ecn.rs]: the codepoints of the ECN field. *)
Module Codepoint.
Definition default : ExplicitCongestionNotification := NotEct.
Definition new (ecn_field : Z) : outcome ExplicitCongestionNotification :=
  match Z.land ecn_field 3 with
  | 0 => Ret NotEct
  | 1 => Ret Ect1
  | 2 => Ret Ect0
  | 3 => Ret Ce
  | _ => Panic
  end.
Definition congestion_experienced (self : ExplicitCongestionNotification) : bool :=
  match self with Ce => true | _ => false end.
Definition using_ecn (self : ExplicitCongestionNotification) : bool :=
  match self with NotEct => false | _ => true end.
End Codepoint.

(** [PacketInfo] is the metadata of the congestion controller. *)
Record SentPacketInfo (PacketInfo : Type) := mk_sent {
  congestion_controlled : bool;
  sent_bytes : Z;
  time_sent : Z;
  sent_ack_elicitation : Frame.AckElicitation;
  path_id : Z;
  ecn : ExplicitCongestionNotification;
  sent_mode : Mode;
  cc_packet_info : PacketInfo
}.
Arguments mk_sent {_}.
Arguments congestion_controlled {_}.
Arguments sent_bytes {_}.
Arguments time_sent {_}.
Arguments sent_ack_elicitation {_}.
Arguments path_id {_}.
Arguments ecn {_}.
Arguments sent_mode {_}.
Arguments cc_packet_info {_}.

Definition is_ack_eliciting (a : Frame.AckElicitation) : bool :=
  match a with Frame.Eliciting => true | Frame.NonEliciting => false end.

Definition sent_packet_info_new {P} (congestion_controlled : bool) (sent_bytes time_sent : Z)
    (ack_elicitation : Frame.AckElicitation) (path_id : Z) (ecn : ExplicitCongestionNotification)
    (transmission_mode : Mode) (cc_packet_info : P) : outcome (SentPacketInfo P) :=
  let! _ := rassert (Bool.eqb (0 <? sent_bytes) congestion_controlled) in
  if sent_bytes <=? umax 16 then
    Ret (mk_sent congestion_controlled sent_bytes time_sent ack_elicitation path_id ecn transmission_mode cc_packet_info)
  else Panic.

(** ** Loss detection *)
Module Loss.
Definition K_PACKET_THRESHOLD : Z := 3.

Inductive Outcome := NotLostYet (lost_time : Z) | Lost.

Definition detect (time_threshold time_sent packet_number_threshold packet_number largest_acked_packet_number now : Z)
    : outcome Outcome :=
  let! c := PacketNumber.cmp largest_acked_packet_number packet_number in
  let! _ := rassert (match c with Gt => true | _ => false end) in
  let! packet_lost_time := Timestamp.add time_sent time_threshold in
  let! time_threshold_exceeded := Timestamp.has_elapsed packet_lost_time now in
  let! distance := PacketNumber.checked_distance largest_acked_packet_number packet_number in
  let! distance := unwrap distance in
  let packet_number_threshold_exceeded := packet_number_threshold <=? distance in
  Ret (if time_threshold_exceeded || packet_number_threshold_exceeded then Lost else NotLostYet packet_lost_time).
End Loss.

(** ** Probe timeouts *)
Module Pto.
Inductive State := Idle | RequiresTransmission (count : Z).
Record t := mk_pto { timer : Timer.t; state : State }.

Definition default : t := mk_pto Timer.default Idle.

Definition state_transmissions (self : State) : Z :=
  match self with Idle => 0 | RequiresTransmission count => count end.
Definition state_on_transmit (self : State) : outcome State :=
  match self with
  | Idle | RequiresTransmission 0 => Panic
  | RequiresTransmission 1 => Ret Idle
  | RequiresTransmission remaining => let! r := sub_c remaining 1 in Ret (RequiresTransmission r)
  end.

(** Whether the timer had expired, and the new state. *)
Definition on_timeout (self : t) (packets_in_flight : bool) (timestamp : Z) : outcome (bool * t) :=
  let! '(ready, timer) := Timer.poll_expiration (timer self) timestamp in
  if negb ready then Ret (false, mk_pto timer (state self)) else
  let transmission_count := if packets_in_flight then 2 else 1 in
  Ret (true, mk_pto timer (RequiresTransmission transmission_count)).

Definition update (self : t) (base_timestamp pto_period : Z) : outcome t :=
  let! time := Timestamp.add base_timestamp pto_period in
  Ret (mk_pto (Timer.set (timer self) time) (state self)).
Definition cancel (self : t) : t := mk_pto (Timer.cancel (timer self)) (state self).
Definition transmissions (self : t) : Z := state_transmissions (state self).
Definition on_transmit_once (self : t) : outcome t :=
  let! s := state_on_transmit (state self) in Ret (mk_pto (timer self) s).
Definition force_transmit (self : t) : t :=
  match state self with
  | Idle => mk_pto (timer self) (RequiresTransmission 1)
  | _ => self
  end.

Definition transmission_interest (self : t) : list Interest := if 0 <? transmissions self then [Forced] else [].

(** The new state, and the frames written. *)
Definition on_transmit (self : t) (context : Writer) : outcome (t * list frame) :=
  if negb (ModeOps.is_loss_recovery_probing (transmission_mode context)) then Ret (self, []) else
  if negb (InterestOps.has_transmission_interest (transmission_interest self)) then Ret (self, []) else
  if negb (is_ack_eliciting (ack_elicitation context)) then
    match write_frame_forced context [] (Frame.Ping Ping.mk) with
    | None => Ret (self, [])
    | Some _ => let! self := on_transmit_once self in Ret (self, [Frame.Ping Ping.mk])
    end
  else
    let! self := on_transmit_once self in Ret (self, []).
End Pto.

(** ** Persistent congestion *)
Module PersistentCongestion.
Record Period := mk_period { start : Z; end_ : Z; prev_packet : Z }.

Definition period_new (start packet_number : Z) : Period := mk_period start start packet_number.
Definition is_contiguous (self : Period) (packet_number : Z) : outcome bool :=
  let! d := PacketNumber.checked_distance packet_number (prev_packet self) in
  Ret (match d with Some 1 => true | _ => false end).
Definition extend {P} (self : Period) (packet_number : Z) (packet_info : SentPacketInfo P) : outcome Period :=
  let! c := is_contiguous self packet_number in
  let! _ := rassert c in
  let! _ := rassert (start self <=? time_sent packet_info) in
  let end' := if is_ack_eliciting (sent_ack_elicitation packet_info) then time_sent packet_info else end_ self in
  Ret (mk_period (start self) end' packet_number).
Definition duration (self : Period) : outcome Z := Timestamp.sub (end_ self) (start self).

Record Calculator := mk_calculator {
  current_period : option Period;
  max_duration : Z;
  first_rtt_sample : option Z;
  calculator_path_id : Z
}.

Definition new (first_rtt_sample : option Z) (path_id : Z) : Calculator :=
  mk_calculator None Duration.ZERO first_rtt_sample path_id.
Definition persistent_congestion_duration (self : Calculator) : Z := max_duration self.

Definition on_lost_packet {P} (self : Calculator) (packet_number : Z) (packet_info : SentPacketInfo P)
    : outcome Calculator :=
  if negb (match first_rtt_sample self with Some ts => ts <=? time_sent packet_info | None => false end)
  then Ret self else
  if negb (path_id packet_info =? calculator_path_id self) then Ret self else
  if ModeOps.is_mtu_probing (sent_mode packet_info) then Ret self else
  let! '(period, max) :=
    match current_period self with
    | Some current_period =>
        let! contiguous := is_contiguous current_period packet_number in
        if contiguous then
          let! current_period := extend current_period packet_number packet_info in
          let! d := duration current_period in
          Ret (Some current_period, Z.max (max_duration self) d)
        else Ret (None, max_duration self)
    | None => Ret (None, max_duration self)
    end in
  let period :=
    match period with
    | None =>
        if is_ack_eliciting (sent_ack_elicitation packet_info)
        then Some (period_new (time_sent packet_info) packet_number) else None
    | Some p => Some p
    end in
  Ret (mk_calculator period max (first_rtt_sample self) (calculator_path_id self)).
End PersistentCongestion.
