(* ===== verification/RecoveryThm.v ===== *)
(** * Properties of loss detection, probe timeouts and persistent congestion *)
From Stdlib Require Import Sorted.
From S2P Require Import Prelude Codec VarInt PacketNumber FrameAck Frames Time Transmission Recovery.

(** ** Persistent congestion *)
Section persistent_congestion.
Context {P : Type} (sp : PacketNumberSpace).
Import PersistentCongestion.

Local Abbreviation packet := (Z * SentPacketInfo P)%type.

Fixpoint on_lost_packets (c : Calculator) (ps : list packet) : outcome Calculator :=
  match ps with
  | [] => Ret c
  | (n, info) :: ps => let! c := on_lost_packet c (PacketNumber.from_varint n sp) info in on_lost_packets c ps
  end.

(** The packets that count for the period. *)
Definition tracked (first : option Z) (path : Z) (p : packet) : bool :=
  match first with Some ts => ts <=? time_sent p.2 | None => false end
  && (path_id p.2 =? path) && negb (ModeOps.is_mtu_probing (sent_mode p.2)).

Definition eliciting (p : packet) : Prop := sent_ack_elicitation p.2 = Frame.Eliciting.

(** Every packet number from [a] to [b] is in [ps]. *)
Definition run (ps : list packet) (a b : Z) : Prop :=
  forall n, a <= n <= b -> exists r, r ∈ ps /\ r.1 = n.
(** The largest packet number in [ps]. *)
Definition top (ps : list packet) (m : Z) : Prop :=
  (exists r, r ∈ ps /\ r.1 = m) /\ forall r, r ∈ ps -> r.1 <= m.

Definition elapsed (p q : packet) : Z := Duration.from_micros (time_sent q.2 - time_sent p.2).

(** Two of the packets, both ack-eliciting, with every packet number between them
    among the packets too, and the time from one to the other. *)
Definition span (ps : list packet) (d : Z) : Prop :=
  exists p q, p ∈ ps /\ q ∈ ps /\ eliciting p /\ eliciting q /\ p.1 <= q.1 /\ run ps p.1 q.1 /\ d = elapsed p q.

(** Packets are reported in the order of their numbers, sent in that order. *)
Definition after (p q : packet) : Prop := p.1 < q.1 /\ time_sent p.2 <= time_sent q.2.
Definition packet_ok (p : packet) : Prop := varint_ok p.1 /\ timestamp_ok (time_sent p.2).

(** What the calculator knows after the packets [ps]. *)
Definition period_ok (ps : list packet) (period : option Period) : Prop :=
  match period with
  | None => forall p m, p ∈ ps -> eliciting p -> top ps m -> ~ run ps p.1 m
  | Some per =>
      exists m p q, top ps m /\ varint_ok m /\ prev_packet per = PacketNumber.from_varint m sp
        /\ p ∈ ps /\ eliciting p /\ time_sent p.2 = start per /\ run ps p.1 m
        /\ q ∈ ps /\ eliciting q /\ time_sent q.2 = end_ per /\ p.1 <= q.1
        /\ (forall p', p' ∈ ps -> eliciting p' -> run ps p'.1 m -> start per <= time_sent p'.2)
  end.

Definition calculator_ok (ps : list packet) (c : Calculator) : Prop :=
  period_ok ps (current_period c) /\ (max_duration c = 0 \/ span ps (max_duration c))
  /\ 0 <= max_duration c /\ (forall d, span ps d -> d <= max_duration c).

Lemma top_unique ps m m' : top ps m -> top ps m' -> m = m'.
Proof.
  intros [(x & Hx & <-) H] [(y & Hy & <-) H']. apply Z.le_antisymm; [by apply H' | by apply H].
Qed.

(** One more packet [q]. *)
Section snoc.
Context (ps : list packet) (q : packet).
Hypothesis later : forall r, r ∈ ps -> after r q.

Lemma elem_snoc r : r ∈ ps ++ [q] <-> r ∈ ps \/ r = q.
Proof. rewrite elem_of_app, list_elem_of_singleton. done. Qed.

Lemma run_mono a b : run ps a b -> run (ps ++ [q]) a b.
Proof. intros H n Hn. destruct (H n Hn) as (r & Hr & <-). exists r. rewrite elem_snoc. auto. Qed.

Lemma run_below a b : run (ps ++ [q]) a b -> b < q.1 -> run ps a b.
Proof.
  intros H Hb n Hn. destruct (H n Hn) as (r & Hr & <-). apply elem_snoc in Hr as [Hr | ->]; [by exists r | lia].
Qed.

Lemma run_sub a b b' : run (ps ++ [q]) a b -> b' <= b -> run (ps ++ [q]) a b'.
Proof. intros H Hb n Hn. apply H. lia. Qed.

Lemma run_snoc a b : run ps a b -> q.1 = b + 1 -> run (ps ++ [q]) a q.1.
Proof.
  intros H Hq n Hn. destruct (Z.eq_dec n q.1) as [-> | Hne]; [exists q; rewrite elem_snoc; auto |].
  destruct (H n ltac:(lia)) as (r & Hr & <-). exists r. rewrite elem_snoc. auto.
Qed.

Lemma top_snoc m : top (ps ++ [q]) m <-> m = q.1.
Proof.
  split.
  - intros [(r & Hr & <-) Hm]. pose proof (Hm q ltac:(rewrite elem_snoc; auto)).
    apply elem_snoc in Hr as [Hr | ->]; [| done]. destruct (later r Hr). lia.
  - intros ->. split; [exists q; rewrite elem_snoc; auto |]. intros r [Hr | ->]%elem_snoc; [| lia].
    destruct (later r Hr). lia.
Qed.

(** The gap-free run that ends in [q] ends in the top of [ps] without it. *)
Lemma run_top p :
  p ∈ ps -> run (ps ++ [q]) p.1 q.1 -> top ps (q.1 - 1) /\ run ps p.1 (q.1 - 1).
Proof.
  intros Hp H. destruct (later p Hp). split; [| apply run_below; [eapply run_sub; [done |] |]; lia].
  split; [| intros r Hr; destruct (later r Hr); lia].
  destruct (H (q.1 - 1)) as (r & Hr & E); [lia |]. exists r. apply elem_snoc in Hr as [Hr | ->]; [done | lia].
Qed.

(** A span either was there before, or ends in [q]. *)
Lemma span_snoc d :
  span (ps ++ [q]) d ->
  span ps d \/ (eliciting q /\ exists p, p ∈ ps ++ [q] /\ eliciting p /\ run (ps ++ [q]) p.1 q.1 /\ d = elapsed p q).
Proof.
  intros (p & r & Hp & Hr & Ep & Er & Hpr & Hrun & ->). pose proof Hr as [Hr' | ->]%elem_snoc.
  - left. destruct (later r Hr'). apply elem_snoc in Hp as [Hp | ->]; [| lia].
    exists p, r. repeat split; try done. apply run_below; [done | lia].
  - right. split; [done |]. by exists p.
Qed.

Lemma span_mono d : span ps d -> span (ps ++ [q]) d.
Proof.
  intros (p & r & Hp & Hr & Ep & Er & Hpr & Hrun & ->). exists p, r.
  rewrite !elem_snoc. repeat split; auto using run_mono.
Qed.

Lemma elapsed_self : elapsed q q = 0.
Proof. unfold elapsed, Duration.from_micros. lia. Qed.

(** [q] continues the period. *)
Lemma period_extend per m :
  period_ok ps (Some per) -> top ps m -> q.1 = m + 1 -> varint_ok q.1 ->
  let end' := if is_ack_eliciting (sent_ack_elicitation q.2) then time_sent q.2 else end_ per in
  let d := Duration.from_micros (end' - start per) in
  start per <= time_sent q.2 /\ start per <= end'
  /\ period_ok (ps ++ [q]) (Some (mk_period (start per) end' (PacketNumber.from_varint q.1 sp)))
  /\ span (ps ++ [q]) d
  /\ (forall d', span (ps ++ [q]) d' -> span ps d' \/ d' <= d).
Proof.
  intros (m' & p & r & Htop & Hm & Hprev & Hp & Ep & Tp & Rp & Hr & Er & Tr & Hpr & Hmin) Htop' Hq Hv.
  rewrite (top_unique ps m' m) in * by done. clear m' Htop'.
  intros end' d. destruct (later p Hp) as [_ Tpq].
  assert (Hel : forall r', r' ∈ ps ++ [q] -> eliciting r' -> run (ps ++ [q]) r'.1 q.1 -> start per <= time_sent r'.2).
  { intros p' [Hp' | ->]%elem_snoc E' R'; [| lia]. apply Hmin; [done.. |]. destruct (run_top p' Hp' R') as [_ R''].
    by replace m with (q.1 - 1) by lia. }
  assert (Hend : exists r', r' ∈ ps ++ [q] /\ eliciting r' /\ time_sent r'.2 = end' /\ p.1 <= r'.1 /\ run (ps ++ [q]) p.1 r'.1).
  { unfold end'. destruct (sent_ack_elicitation q.2) eqn:Eq; cbn [is_ack_eliciting].
    - exists r. rewrite elem_snoc. repeat split; auto. apply run_mono. intros n Hn. apply Rp.
      destruct Htop as [_ Ht]. pose proof (Ht r Hr). lia.
    - exists q. rewrite elem_snoc. destruct (later p Hp). repeat split; auto; [lia |]. by eapply run_snoc. }
  destruct Hend as (r' & Hr' & Er' & Tr' & Hpr' & Rr').
  assert (start per <= end').
  { unfold end'. destruct (is_ack_eliciting _); [lia |]. rewrite <- Tr. apply Hmin; [done.. |]. intros n Hn. apply Rp. lia. }
  split; [lia |]. split; [done |]. split; [| split].
  - exists q.1, p, r'. rewrite (top_snoc q.1), (elem_snoc p). cbn. do 6 (split; [auto |]).
    split; [by eapply run_snoc |]. do 4 (split; [done |]). exact Hel.
  - exists p, r'. rewrite (elem_snoc p). unfold elapsed. rewrite Tp, Tr'. do 4 (split; [auto |]). done.
  - intros d' [? | (Eq & p' & Hp' & Ep' & Rp' & ->)]%span_snoc; [by left |]. right.
    pose proof (Hel p' Hp' Ep' Rp'). unfold d, end', elapsed, Duration.from_micros.
    rewrite Eq. cbn [is_ack_eliciting]. lia.
Qed.

(** [q] does not continue a period. *)
Lemma period_restart :
  varint_ok q.1 -> (forall p, p ∈ ps -> eliciting p -> ~ run (ps ++ [q]) p.1 q.1) ->
  period_ok (ps ++ [q])
    (if is_ack_eliciting (sent_ack_elicitation q.2)
     then Some (period_new (time_sent q.2) (PacketNumber.from_varint q.1 sp)) else None)
  /\ (forall d, span (ps ++ [q]) d -> span ps d \/ d <= 0).
Proof.
  intros Hv Hno. split.
  - destruct (sent_ack_elicitation q.2) eqn:Eq; cbn [is_ack_eliciting].
    + intros p m [Hp | ->]%elem_snoc Ep; [| unfold eliciting in Ep; congruence]. intros ->%top_snoc. by apply Hno.
    + exists q.1, q, q. rewrite (top_snoc q.1), (elem_snoc q). cbn. do 6 (split; [auto |]).
      split; [intros n Hn; exists q; rewrite elem_snoc; split; [auto | lia] |]. do 4 (split; [auto; lia |]).
      intros p [Hp | ->]%elem_snoc Ep R; [| lia]. by destruct (Hno p Hp Ep).
  - intros d [? | (Eq & p & Hp & Ep & R & ->)]%span_snoc; [by left |]. right.
    apply elem_snoc in Hp as [Hp | ->]; [by destruct (Hno p Hp Ep) | by rewrite elapsed_self].
Qed.
End snoc.

Lemma contiguous_spec per m n :
  prev_packet per = PacketNumber.from_varint m sp -> varint_ok m -> varint_ok n ->
  is_contiguous per (PacketNumber.from_varint n sp) = Ret (n =? m + 1).
Proof.
  intros E Hm Hn. unfold is_contiguous. rewrite E, pn_distance_from_varint by done. cbn [obind]. unfold checked_sub.
  f_equal. destruct (Z.leb_spec m n), (Z.eqb_spec n (m + 1)); try lia.
  - by replace (n - m) with 1 by lia.
  - destruct (n - m) as [| [| |] |] eqn:Enm; try done. lia.
Qed.

Lemma on_lost_packet_ok ps c q :
  calculator_ok ps c -> (forall r, r ∈ ps -> after r q) -> packet_ok q ->
  tracked (first_rtt_sample c) (calculator_path_id c) q = true ->
  exists c', on_lost_packet c (PacketNumber.from_varint q.1 sp) q.2 = Ret c' /\ calculator_ok (ps ++ [q]) c'
    /\ first_rtt_sample c' = first_rtt_sample c /\ calculator_path_id c' = calculator_path_id c.
Proof.
  intros (Hper & Hach & H0 & Hup) Hlater [Hv Ht] Htr. unfold tracked in Htr.
  apply andb_prop in Htr as [[H1 H2]%andb_prop Hm]. apply negb_true_iff in Hm.
  unfold on_lost_packet. rewrite H1, H2, Hm. cbn [negb]. clear H1 H2 Hm.
  assert (Hfresh : (forall p, p ∈ ps -> eliciting p -> ~ run (ps ++ [q]) p.1 q.1) ->
    calculator_ok (ps ++ [q]) (mk_calculator
      (if is_ack_eliciting (sent_ack_elicitation q.2)
       then Some (period_new (time_sent q.2) (PacketNumber.from_varint q.1 sp)) else None)
      (max_duration c) (first_rtt_sample c) (calculator_path_id c))).
  { intros Hno. destruct (period_restart ps q Hlater Hv Hno) as [Hp Hs]. split; [exact Hp |].
    split; [destruct Hach; [by left | right; by apply span_mono] |]. split; [done |].
    intros d [Hd | Hd]%Hs; [by apply Hup | cbn; lia]. }
  destruct (current_period c) as [per |]; cbn [obind].
  - pose proof Hper as (m & p & r & Htop & Hmv & Hprev & _). rewrite (contiguous_spec per m q.1) by done. cbn [obind].
    destruct (Z.eqb_spec q.1 (m + 1)) as [Hq | Hq].
    + destruct (period_extend ps q Hlater per m Hper Htop Hq Hv) as (Hs & He & Hper' & Hsp & Hup').
      unfold extend. rewrite (contiguous_spec per m q.1) by done. cbn [obind].
      rewrite (proj2 (Z.eqb_eq _ _) Hq). cbn [rassert obind]. rewrite (proj2 (Z.leb_le _ _) Hs). cbn [rassert obind].
      set (e := if is_ack_eliciting (sent_ack_elicitation q.2) then time_sent q.2 else end_ per) in *. unfold duration, Timestamp.sub, Duration.sub, Duration.checked_sub.
      cbn [start end_]. unfold Timestamp.as_duration_impl, Duration.from_micros in *.
      rewrite (proj2 (Z.leb_le _ _)) by lia. cbn [unwrap obind]. rewrite <- Z.mul_sub_distr_r.
      eexists. split; [reflexivity |]. split; [| done]. split; [exact Hper' |]. cbn. split; [| split; [lia |]].
      * destruct (Z.max_spec (max_duration c) ((e - start per) * 1000)) as [[_ ->] | [_ ->]]; [by right |].
        destruct Hach; [by left | right; by apply span_mono].
      * intros d [Hd | Hd]%Hup'; [apply Hup in Hd |]; lia.
    + eexists. split; [reflexivity |]. split; [| done]. apply Hfresh.
      intros p' Hp' _ R. destruct (run_top ps q Hlater p' Hp' R) as [Ht' _].
      rewrite (top_unique ps m (q.1 - 1)) in Hq by done. lia.
  - eexists. split; [reflexivity |]. split; [| done]. apply Hfresh.
    intros p' Hp' Ep' R. destruct (run_top ps q Hlater p' Hp' R) as [Ht' R']. exact (Hper p' _ Hp' Ep' Ht' R').
Qed.

Lemma on_lost_packet_untracked c n info :
  tracked (first_rtt_sample c) (calculator_path_id c) (n, info) = false ->
  on_lost_packet c (PacketNumber.from_varint n sp) info = Ret c.
Proof.
  unfold tracked, on_lost_packet. cbn [snd]. destruct (match first_rtt_sample c with Some _ => _ | None => _ end); [| done].
  destruct (path_id info =? _); [| done]. by destruct (ModeOps.is_mtu_probing _).
Qed.

Lemma on_lost_packets_ok first path qs : forall ps c,
  calculator_ok ps c -> first_rtt_sample c = first -> calculator_path_id c = path ->
  (forall r q, r ∈ ps -> q ∈ qs -> after r q) -> StronglySorted after qs ->
  Forall packet_ok qs ->
  exists c', on_lost_packets c qs = Ret c'
    /\ calculator_ok (ps ++ filter (fun p => tracked first path p = true) qs) c'.
Proof.
  induction qs as [| [n info] qs IH]; intros ps c Hc Hf Hp Hs Hq Hok.
  - exists c. split; [done |]. by rewrite app_nil_r.
  - apply Forall_cons in Hok as [Hok1 Hok]. apply StronglySorted_inv in Hq as [Hq Hq1].
    rewrite Forall_forall in Hq1. cbn [on_lost_packets]. rewrite filter_cons.
    assert (Hs' : forall r q, r ∈ ps -> q ∈ qs -> after r q) by (intros; apply Hs; [done | by right]).
    destruct (tracked first path (n, info)) eqn:Et.
    + rewrite decide_True by done. rewrite <- Hf, <- Hp in Et.
      destruct (on_lost_packet_ok ps c (n, info)) as (c' & E & Hc' & Ef & Ep); [done | | done | done |].
      { intros r Hr. apply Hs; [done | by left]. }
      cbn in E. rewrite E. cbn [obind]. rewrite cons_middle, app_assoc. apply IH; [done | congruence.. | | done | done].
      intros r q [Hr | ->]%elem_snoc Hq'; [by apply Hs' | by apply Hq1].
    + rewrite decide_False by done. rewrite on_lost_packet_untracked by congruence. cbn [obind]. by apply IH.
Qed.

End persistent_congestion.

(** C24: for lost packets reported in order, the persistent congestion duration is
    the longest time between two lost ack-eliciting packets such that every packet
    number from one to the other is that of a lost packet that counts, and zero if
    there are no two such packets.  The packets that count are those sent on the
    path at or after the first RTT sample, other than MTU probes: a lost packet of
    another path, a lost MTU probe or a packet not lost between two packets ends
    the period. *)
Theorem persistent_congestion_longest {P} sp first path (qs : list (Z * SentPacketInfo P)) :
  StronglySorted after qs -> Forall packet_ok qs ->
  let ps := filter (fun p => tracked first path p = true) qs in
  exists c, on_lost_packets sp (PersistentCongestion.new first path) qs = Ret c
    /\ (PersistentCongestion.persistent_congestion_duration c = 0
        \/ span ps (PersistentCongestion.persistent_congestion_duration c))
    /\ forall d, span ps d -> d <= PersistentCongestion.persistent_congestion_duration c.
Proof.
  intros Hs Hok. destruct (on_lost_packets_ok sp first path qs [] (PersistentCongestion.new first path))
    as (c & E & _ & Hach & _ & Hup); [| done | done | by intros ? ? ?%not_elem_of_nil | done | done | by exists c].
  split; [by intros ? ? ?%not_elem_of_nil |]. split; [by left |]. split; [done |].
  intros d (p & _ & Hp & _). by apply not_elem_of_nil in Hp.
Qed.

Definition sample_lost (n t : Z) (e : Frame.AckElicitation) : Z * SentPacketInfo unit :=
  (n, mk_sent true 1200 t e 0 NotEct Normal tt).

Lemma persistent_congestion_longest_witness :
  exists c, on_lost_packets ApplicationData (PersistentCongestion.new (Some 5) 0)
      [sample_lost 7 10 Frame.Eliciting; sample_lost 8 20 Frame.NonEliciting; sample_lost 9 35 Frame.Eliciting;
       sample_lost 11 90 Frame.Eliciting] = Ret c
    /\ 25000 <= PersistentCongestion.persistent_congestion_duration c.
Proof.
  destruct (persistent_congestion_longest ApplicationData (Some 5) 0
      [sample_lost 7 10 Frame.Eliciting; sample_lost 8 20 Frame.NonEliciting; sample_lost 9 35 Frame.Eliciting;
       sample_lost 11 90 Frame.Eliciting]) as (c & E & _ & Hup).
  - repeat constructor; unfold after; cbn; lia.
  - repeat (apply Forall_cons; split; [unfold packet_ok, varint_ok, timestamp_ok; cbn [fst snd sample_lost time_sent]; unfold MAX_VARINT_VALUE, umax; lia |]). by apply Forall_nil.
  - exists c. split; [exact E |]. apply Hup. exists (sample_lost 7 10 Frame.Eliciting), (sample_lost 9 35 Frame.Eliciting).
    do 5 (split; [first [by left | by right; right; left | reflexivity | cbn; lia] |]). split; [| reflexivity].
    intros n Hn. cbn in Hn. assert (n = 7 \/ n = 8 \/ n = 9) as [-> | [-> | ->]] by lia.
    + exists (sample_lost 7 10 Frame.Eliciting). split; [by left | done].
    + exists (sample_lost 8 20 Frame.NonEliciting). split; [by right; left | done].
    + exists (sample_lost 9 35 Frame.Eliciting). split; [by right; right; left | done].
Defined.

(** ** Loss detection *)

Lemma has_elapsed_spec t now : timestamp_ok now -> Timestamp.has_elapsed t now = Ret (t <? now + 1000).
Proof. intros H. unfold Timestamp.has_elapsed. unfold timestamp_ok in H.
  change (Duration.as_micros K_GRANULARITY) with 1000. by rewrite add_c_Ret by lia. Qed.

Definition detect_at sp threshold sent packets n largest now :=
  Loss.detect threshold sent packets (PacketNumber.from_varint n sp) (PacketNumber.from_varint largest sp) now.

(** C37: a packet sent before an acknowledged one is lost exactly when it is as many
    packets behind as the threshold says or when the time threshold has passed,
    up to the granularity of timers; otherwise the time is returned at which it
    will be lost, and detection at that time, or later, does declare it lost. *)
Theorem loss_detection sp threshold sent packets n largest now :
  varint_ok n -> varint_ok largest -> n < largest ->
  timestamp_ok sent -> 0 <= threshold <= Duration.from_secs 1000000 -> timestamp_ok now ->
  let lost_time := sent + threshold / 1000 in
  detect_at sp threshold sent packets n largest now
    = Ret (if decide (packets <= largest - n \/ lost_time < now + 1000) then Loss.Lost else Loss.NotLostYet lost_time)
  /\ forall now', timestamp_ok now' -> lost_time <= now' ->
       detect_at sp threshold sent packets n largest now' = Ret Loss.Lost.
Proof.
  intros Hn Hl Hlt Hs Ht Hnow. cbv zeta.
  assert (H : forall now, timestamp_ok now -> detect_at sp threshold sent packets n largest now
    = Ret (if (sent + threshold / 1000 <? now + 1000) || (packets <=? largest - n)
           then Loss.Lost else Loss.NotLostYet (sent + threshold / 1000))).
  { intros now0 H0. unfold detect_at, Loss.detect. rewrite pn_cmp_from_varint by done. cbn [obind].
    rewrite (proj2 (Z.compare_gt_iff _ _)) by lia. cbn [rassert obind]. rewrite timestamp_add_ok by done. cbn [obind].
    rewrite has_elapsed_spec by done. cbn [obind]. rewrite pn_distance_from_varint by done. cbn [obind].
    unfold checked_sub. rewrite (proj2 (Z.leb_le _ _)) by lia. done. }
  split.
  - rewrite H by done. f_equal.
    destruct (Z.ltb_spec (sent + threshold / 1000) (now + 1000)), (Z.leb_spec packets (largest - n));
      cbn [orb]; case_decide; done || lia.
  - intros now' Hnow' Hle. rewrite H by done. rewrite (proj2 (Z.ltb_lt _ _)) by lia. done.
Qed.

Lemma loss_detection_witness :
  detect_at ApplicationData (Duration.from_millis 100) 1000 3 5 9 2000 = Ret Loss.Lost.
Proof.
  destruct (loss_detection ApplicationData (Duration.from_millis 100) 1000 3 5 9 2000) as [H _];
    [unfold varint_ok, timestamp_ok, MAX_VARINT_VALUE, Duration.from_millis, Duration.from_secs; lia .. |].
  exact H.
Defined.

(** ** Probe timeouts *)
Section pto.
Import Pto.

Definition pto_ok (p : t) : Prop :=
  state p = Idle \/ state p = RequiresTransmission 1 \/ state p = RequiresTransmission 2.

Inductive PtoEvent :=
| Timeout (packets_in_flight : bool) (now : Z)
| Update (base period : Z)
| Cancel
| Force
| Transmit (context : Writer).

(** A packet that takes a probe: it is sent for probing, and either ack-eliciting
    already or has room for a PING. *)
Definition takes_probe (w : Writer) : bool :=
  ModeOps.is_loss_recovery_probing (transmission_mode w)
  && (is_ack_eliciting (ack_elicitation w)
      || match write_frame_forced w [] (Frame.Ping Ping.mk) with Some _ => true | None => false end).

(** The new state, whether the timer fired, and the probes sent. *)
Definition pto_step (p : t) (e : PtoEvent) : outcome (t * Z * Z) :=
  match e with
  | Timeout f now => let! '(ready, p) := on_timeout p f now in Ret (p, if ready then 1 else 0, 0)
  | Update b d => let! p := update p b d in Ret (p, 0, 0)
  | Cancel => Ret (cancel p, 0, 0)
  | Force => Ret (force_transmit p, 1, 0)
  | Transmit w =>
      let! '(p', fs) := on_transmit p w in
      Ret (p', 0, if takes_probe w && (0 <? transmissions p) then 1 else 0)
  end.
Fixpoint pto_run (p : t) (es : list PtoEvent) : outcome (t * Z * Z) :=
  match es with
  | [] => Ret (p, 0, 0)
  | e :: es =>
      let! '(p, fired, probes) := pto_step p e in
      let! '(p, fired', probes') := pto_run p es in
      Ret (p, fired + fired', probes + probes')
  end.

Definition pto_event_ok (e : PtoEvent) : Prop :=
  match e with
  | Timeout _ now => timestamp_ok now
  | Update b d => timestamp_ok b /\ 0 <= d <= Duration.from_secs 1000000
  | _ => True
  end.

(** One transmission: a packet that takes the probe gets a PING unless it is
    ack-eliciting already, and there is one probe less to send; otherwise nothing
    happens. *)
Lemma pto_transmit_ok p w :
  pto_ok p ->
  exists p' fs, on_transmit p w = Ret (p', fs) /\ pto_ok p' /\ timer p' = timer p
    /\ if takes_probe w && (0 <? transmissions p)
       then transmissions p' = transmissions p - 1
            /\ fs = (if is_ack_eliciting (ack_elicitation w) then [] else [Frame.Ping Ping.mk])
       else p' = p /\ fs = [].
Proof.
  intros H. unfold on_transmit, takes_probe, transmission_interest, transmissions, on_transmit_once, pto_ok in *.
  destruct (ModeOps.is_loss_recovery_probing _); cbn [negb andb]; [| eexists _, _; split; [reflexivity | done]].
  destruct H as [E | [E | E]]; rewrite E; cbn [state_transmissions Z.ltb Z.compare]; cbn.
  1: { rewrite andb_false_r. eexists _, _. split; [reflexivity |]. auto. }
  all: destruct (ack_elicitation w); cbn; [destruct (write_frame_forced w _ _); cbn |].
  all: eexists _, _; (split; [reflexivity |]); cbn; auto.
Qed.

Lemma pto_step_ok p e :
  pto_ok p -> pto_event_ok e ->
  exists p' f n, pto_step p e = Ret (p', f, n) /\ pto_ok p' /\ 0 <= n
    /\ n + transmissions p' <= transmissions p + 2 * f.
Proof.
  intros H He. destruct e as [fl now | b d | | | w]; cbn [pto_step pto_event_ok] in *.
  - unfold on_timeout. destruct (timer_poll_ok (timer p) now He) as (ready & tm & -> & _). cbn [obind].
    destruct ready; cbn [negb obind]; eexists _, _, _; (split; [reflexivity |]).
    + destruct fl; (split; [unfold pto_ok; cbn; auto |]);
        unfold transmissions; destruct H as [-> | [-> | ->]]; cbn; lia.
    + split; [done |]. unfold transmissions. cbn. lia.
  - unfold update. destruct He. rewrite timestamp_add_ok by done. cbn [obind].
    eexists _, _, _. split; [reflexivity |]. split; [done |]. unfold transmissions. cbn. lia.
  - eexists _, _, _. split; [reflexivity |]. split; [done |]. unfold transmissions. cbn. lia.
  - eexists _, _, _. split; [reflexivity |]. unfold force_transmit, transmissions, pto_ok in *.
    destruct H as [E | [E | E]]; rewrite E; cbn; rewrite ?E; cbn; (split; [auto | lia]).
  - destruct (pto_transmit_ok p w H) as (p' & fs & -> & Hok & _ & Hn). cbn [obind].
    eexists _, _, _. split; [reflexivity |]. split; [done |]. destruct (takes_probe w && _).
    + destruct Hn. lia.
    + destruct Hn as [-> ->]. lia.
Qed.

(** Packets are filled one after the other: the frames written to each. *)
Fixpoint transmit_all (p : t) (ws : list Writer) : outcome (t * list (list frame)) :=
  match ws with
  | [] => Ret (p, [])
  | w :: ws =>
      let! '(p, fs) := on_transmit p w in
      let! '(p, fss) := transmit_all p ws in
      Ret (p, fs :: fss)
  end.

(** As many packets that take probes as there are transmissions left. *)
Lemma pto_drain p : pto_ok p -> forall ws, Forall (fun w => takes_probe w = true) ws ->
  Z.of_nat (length ws) = transmissions p ->
  exists p', transmit_all p ws
    = Ret (p', map (fun w => if is_ack_eliciting (ack_elicitation w) then [] else [Frame.Ping Ping.mk]) ws)
    /\ state p' = Idle.
Proof.
  intros H ws. revert p H. induction ws as [| w ws IH]; intros p H Hw Hlen.
  - exists p. unfold transmissions, pto_ok in *. cbn in *. destruct H as [E | [E | E]]; rewrite E in *; cbn in *; done || lia.
  - apply Forall_cons in Hw as [Hw Hws]. cbn [map transmit_all]. cbn [length] in Hlen.
    destruct (pto_transmit_ok p w H) as (p' & fs & -> & Hok & _ & Hn). cbn [obind].
    rewrite Hw, (proj2 (Z.ltb_lt _ _)) in * by lia. cbn [andb] in *. destruct Hn as [Hn ->].
    destruct (IH p' Hok Hws ltac:(lia)) as (p'' & -> & Hs). cbn [obind]. by exists p''.
Qed.

Lemma pto_run_ok es : forall p, pto_ok p -> Forall pto_event_ok es ->
  exists p' f n, pto_run p es = Ret (p', f, n) /\ pto_ok p' /\ n + transmissions p' <= transmissions p + 2 * f.
Proof.
  induction es as [| e es IH]; intros p H Hes; [exists p, 0, 0; split; [done |]; split; [done | lia] |].
  apply Forall_cons in Hes as [He Hes]. destruct (pto_step_ok p e H He) as (p1 & f1 & n1 & E & H1 & _ & Hn1).
  destruct (IH p1 H1 Hes) as (p2 & f2 & n2 & E2 & H2 & Hn2). cbn [pto_run]. rewrite E. cbn [obind]. rewrite E2. cbn [obind].
  eexists _, _, _. split; [reflexivity |]. split; [done | lia].
Qed.
End pto.


