(* ===== verification/EcnController.v ===== *)
(** * Validation of explicit congestion notification

    [path/ecn.rs] of s2n-quic-core: a path is tested with marked packets, and
    the counts of the peer are checked before and while the marks are trusted.
    The events that are published are left out. *)
From stdpp Require Import base list.
From S2P Require Import Prelude VarInt FrameAck Time Rtt Transmission Recovery.

Module EcnController.

Definition TESTING_PACKET_THRESHOLD : Z := 10.
Definition RETEST_COOL_OFF_DURATION : Z := Duration.from_secs 60.
(** [CE_SUPPRESSION_TESTING_RTT_MULTIPLIER]. *)
Definition MULTIPLIER_START : Z := 10.
Definition MULTIPLIER_END : Z := 100.

Inductive ValidationOutcome := CongestionExperienced (count : Z) | ValidationFailed | Passed | Skipped.

Inductive State := Testing (packet_count : Z) | Unknown | Failed (retest_timer : Timer.t) | Capable (ce_suppression_timer : Timer.t).
#[export] Instance timer_eq_dec : EqDecision Timer.t.
Proof. solve_decision. Defined.
#[export] Instance state_eq_dec : EqDecision State.
Proof. solve_decision. Defined.

Record t := mk { state : State; black_hole_counter : Z; last_acked_ecn_packet_timestamp : option Z }.

Definition default : t := mk (Testing 0) 0 None.

Definition set_state (self : t) (s : State) : t := mk s (black_hole_counter self) (last_acked_ecn_packet_timestamp self).
Definition set_counter (self : t) (n : Z) : t := mk (state self) n (last_acked_ecn_packet_timestamp self).

Definition change_state (self : t) (s : State) : outcome t :=
  let! _ := rassert (negb (bool_decide (state self = s))) in Ret (set_state self s).

(** [fail] *)
Definition fail_ (self : t) (now : Z) : outcome t :=
  let! time := Timestamp.add now RETEST_COOL_OFF_DURATION in
  let! self := change_state self (Failed (Timer.set Timer.default time)) in
  Ret (set_counter self 0).

Definition restart (self : t) : outcome t :=
  let! self := if bool_decide (state self = Testing 0) then Ret self else change_state self (Testing 0) in
  Ret (set_counter self 0).

(** [bytes] is what the random generator fills in. *)
Definition next_ce_packet_duration (bytes : list Z) (rtt : Z) : outcome Z :=
  let result := Rtt.from_le_bytes bytes in
  let! width := sub_c MULTIPLIER_END MULTIPLIER_START in
  let max_variance := saturating_add 16 width 1 in
  let! result := add_c 16 MULTIPLIER_START (result mod max_variance) in
  Duration.mul result rtt.

Definition on_timeout (self : t) (now : Z) (bytes : list Z) (rtt : Z) : outcome t :=
  match state self with
  | Failed retest_timer =>
      let! '(ready, retest_timer) := Timer.poll_expiration retest_timer now in
      let self := set_state self (Failed retest_timer) in
      if ready then restart self else Ret self
  | Capable ce_suppression_timer =>
      if Timer.is_armed ce_suppression_timer then Ret self else
      let! duration := next_ce_packet_duration bytes rtt in
      let! time := Timestamp.add now duration in
      Ret (set_state self (Capable (Timer.set ce_suppression_timer time)))
  | Testing _ | Unknown => Ret self
  end.

(** [ecn]: the marking of the next packet. *)
Definition marking (self : t) (transmission_mode : Mode) (now : Z) : outcome (ExplicitCongestionNotification * t) :=
  if ModeOps.is_loss_recovery_probing transmission_mode then Ret (NotEct, self) else
  match state self with
  | Testing _ => Ret (Ect0, self)
  | Capable ce_suppression_timer =>
      let! '(ready, ce_suppression_timer) := Timer.poll_expiration ce_suppression_timer now in
      Ret (if ready then Ce else Ect0, set_state self (Capable ce_suppression_timer))
  | Failed _ | Unknown => Ret (NotEct, self)
  end.

Definition is_capable (self : t) : bool := match state self with Capable _ => true | _ => false end.
Definition has_failed (self : t) : bool := match state self with Failed _ => true | _ => false end.

Definition ce_remarking (incremental newly_acked : EcnCounts) : bool :=
  VarInt.saturating_add (ect_0_count incremental) (ce_count incremental) <? ect_0_count newly_acked.
Definition remarked_to_ect0_or_ect1 (incremental sent : EcnCounts) : bool :=
  (ect_0_count sent <? ect_0_count incremental) || (ect_1_count sent <? ect_1_count incremental).
Definition ce_suppression (incremental newly_acked : EcnCounts) : bool := ce_count incremental <? ce_count newly_acked.

(** [validate], from the state unknown to the state capable. *)
Definition confirm (self : t) (newly_acked : EcnCounts) (now rtt : Z) : outcome t :=
  match state self with
  | Unknown =>
      if 0 <? ect_0_count newly_acked then
        let! duration := Duration.mul MULTIPLIER_START rtt in
        let! time := Timestamp.add now duration in
        change_state self (Capable (Timer.set Timer.default time))
      else Ret self
  | _ => Ret self
  end.

Definition validate (self : t) (newly_acked sent baseline : EcnCounts) (ack_frame : option EcnCounts) (now rtt : Z)
    : outcome (ValidationOutcome * t) :=
  let failed := let! self := fail_ self now in Ret (ValidationFailed, self) in
  if has_failed self then Ret (Skipped, self) else
  let missing := match ack_frame with None => true | Some _ => false end in
  if missing && match Ecn.as_option newly_acked with Some _ => true | None => false end then failed else
  if missing && bool_decide (baseline = Ecn.default) then Ret (Skipped, self) else
  match Ecn.checked_sub (from_option id Ecn.default ack_frame) baseline with
  | None => failed
  | Some incremental =>
      if ce_remarking incremental newly_acked || remarked_to_ect0_or_ect1 incremental sent || ce_suppression incremental newly_acked
      then failed else
      let! congestion_experienced_count := VarInt.sub (ce_count incremental) (ce_count newly_acked) in
      let! self := confirm self newly_acked now rtt in
      Ret (if is_capable self && (0 <? congestion_experienced_count)
           then CongestionExperienced congestion_experienced_count else Passed, self)
  end.

Definition on_packet_sent (self : t) (ecn : ExplicitCongestionNotification) : outcome t :=
  let! _ := rassert (match ecn with Ect1 => false | _ => true end) in
  match Codepoint.using_ecn ecn, state self with
  | true, Testing packet_count =>
      let! packet_count := add_c 8 packet_count 1 in
      let self := set_state self (Testing packet_count) in
      if TESTING_PACKET_THRESHOLD <=? packet_count then change_state self Unknown else Ret self
  | _, _ => Ret self
  end.

Definition ecn_packet_sent_after_last_acked_ecn_packet (self : t) (time_sent : Z) (ecn : ExplicitCongestionNotification) : bool :=
  Codepoint.using_ecn ecn
  && match last_acked_ecn_packet_timestamp self with None => true | Some last_acked => last_acked <? time_sent end.

Definition on_packet_ack (self : t) (time_sent : Z) (ecn : ExplicitCongestionNotification) : t :=
  if ecn_packet_sent_after_last_acked_ecn_packet self time_sent ecn then mk (state self) 0 (Some time_sent) else self.

Definition on_packet_loss (self : t) (time_sent : Z) (ecn : ExplicitCongestionNotification) (now : Z) : outcome t :=
  if has_failed self then Ret self else
  let self :=
    if ecn_packet_sent_after_last_acked_ecn_packet self time_sent ecn
    then set_counter self (saturating_add 8 (black_hole_counter self) 1) else self in
  if TESTING_PACKET_THRESHOLD <? black_hole_counter self then fail_ self now else Ret self.

(** The timer the connection waits for. *)
Definition timers (self : t) : option Z :=
  match state self with Failed retest_timer => Timer.expiration retest_timer | _ => None end.
End EcnController.
