(* ===== verification/EcnThm.v ===== *)
(** * Validation of explicit congestion notification, proved

    The controller with any peer, and with a peer and a path that mark and count
    as they should. *)
From stdpp Require Import base list.
From S2P Require Import Prelude VarInt FrameAck Time Rtt Transmission Recovery EcnController.
Import EcnController.

(** ** The controller with any peer *)

Definition controller_ok (c : t) : Prop :=
  0 <= black_hole_counter c <= TESTING_PACKET_THRESHOLD
  /\ match state c with Testing n => 0 <= n < TESTING_PACKET_THRESHOLD | _ => True end.

(** A round trip time, a hundred of which are a time that can be added. *)
Definition rtt_ok (rtt : Z) : Prop := 0 <= 100 * rtt <= Duration.from_micros (2 ^ 62).

Lemma counter_reset_ok c : controller_ok c -> controller_ok (set_counter c 0).
Proof. intros [_ H]. split; [cbn; unfold TESTING_PACKET_THRESHOLD; lia | done]. Qed.

Lemma fail_ok c now : timestamp_ok now -> has_failed c = false ->
  returns (fail_ c now) (fun c' => has_failed c' = true /\ black_hole_counter c' = 0).
Proof.
  intros Hn Hf. unfold fail_. rewrite timestamp_add_ok; [| done | by vm_compute]. cbn [obind]. unfold change_state.
  rewrite bool_decide_false by (intros E; unfold has_failed in Hf; by rewrite E in Hf). by apply returns_ret.
Qed.

Lemma failed_ok c : has_failed c = true -> black_hole_counter c = 0 -> controller_ok c.
Proof. unfold has_failed, controller_ok. intros Hf ->. by destruct (state c). Qed.

Lemma restart_ok c : returns (restart c) (fun c' => controller_ok c' /\ state c' = Testing 0).
Proof.
  unfold restart. case_bool_decide as E; [| unfold change_state; rewrite bool_decide_false by done]; cbn; apply returns_ret; unfold controller_ok; cbn; rewrite ?E;
    unfold TESTING_PACKET_THRESHOLD; split; [lia | done | lia | done].
Qed.

Lemma next_duration_ok bytes rtt : rtt_ok rtt ->
  returns (next_ce_packet_duration bytes rtt) (fun d => MULTIPLIER_START * rtt <= d <= MULTIPLIER_END * rtt).
Proof.
  intros [H0 H1]. unfold next_ce_packet_duration. change (sub_c MULTIPLIER_END MULTIPLIER_START) with (Ret 90 : outcome Z). cbn [obind].
  change (saturating_add 16 90 1) with 91. pose proof (Z.mod_pos_bound (Rtt.from_le_bytes bytes) 91 ltac:(lia)).
  unfold MULTIPLIER_START, MULTIPLIER_END. rewrite add_c_Ret by lia. cbn [obind]. unfold Duration.mul.
  rewrite (proj2 (Z.leb_le _ _)); [apply returns_ret; nia |]. unfold Duration.from_micros, Duration.MAX in *. nia.
Qed.

Lemma timeout_ok c now bytes rtt : controller_ok c -> timestamp_ok now -> rtt_ok rtt ->
  returns (on_timeout c now bytes rtt) (fun c' => controller_ok c' /\
    (is_capable c = is_capable c' /\ has_failed c = has_failed c' /\ (is_capable c = false -> has_failed c = false -> c' = c)
     \/ has_failed c = true /\ state c' = Testing 0)).
Proof.
  intros Hc Hn Hr. pose proof Hc as [Hb Hs]. unfold on_timeout. destruct (state c) as [n | | timer | timer] eqn:Est.
  - apply returns_ret. split; [done |]. by left.
  - apply returns_ret. split; [done |]. by left.
  - destruct (timer_poll_ok timer now Hn) as (ready & timer' & -> & _). cbn [obind]. destruct ready.
    + eapply returns_mono; [apply restart_ok |]. intros c' [H1 H2]. split; [done |]. right. unfold has_failed. by rewrite Est.
    + apply returns_ret. split; [by split |]. left. unfold is_capable, has_failed. rewrite Est. by split_and!.
  - assert (Hcase : forall tm, controller_ok (set_state c (Capable tm)) /\
      (is_capable c = is_capable (set_state c (Capable tm)) /\ has_failed c = has_failed (set_state c (Capable tm))
        /\ (is_capable c = false -> has_failed c = false -> set_state c (Capable tm) = c)
       \/ has_failed c = true /\ state (set_state c (Capable tm)) = Testing 0)).
    { intros tm. split; [by split |]. left. unfold is_capable, has_failed. rewrite Est. by split_and!. }
    destruct (Timer.is_armed timer); [apply returns_ret; destruct c; cbn in *; subst; apply (Hcase timer) |].
    rstep (next_duration_ok bytes rtt Hr). intros d Hd. pose proof Hr as [H1 H2]. unfold MULTIPLIER_START, MULTIPLIER_END in Hd.
    rewrite timestamp_add_wide by (done || lia). cbn [obind]. apply returns_ret. apply Hcase.
Qed.

(** Marks are used to test and where they are trusted. *)
Definition marks (c : t) : bool := match state c with Testing _ | Capable _ => true | _ => false end.

Lemma marking_ok c mode now : timestamp_ok now ->
  returns (marking c mode now) (fun '(m, c') => m <> Ect1 /\ (m <> NotEct -> marks c = true) /\ (m = Ce -> is_capable c = true)
    /\ black_hole_counter c' = black_hole_counter c /\ is_capable c' = is_capable c /\ (is_capable c = false -> c' = c)).
Proof.
  intros Hn. unfold marking, marks, is_capable. destruct (ModeOps.is_loss_recovery_probing mode); [by apply returns_ret |].
  destruct (state c) as [n | | timer | timer] eqn:Est; try (by apply returns_ret; rewrite Est).
  destruct (timer_poll_ok timer now Hn) as (ready & timer' & -> & _). cbn [obind]. apply returns_ret. by destruct ready.
Qed.

Lemma packet_sent_ok c m : controller_ok c -> m <> Ect1 ->
  returns (on_packet_sent c m) (fun c' => controller_ok c' /\
    match state c with
    | Testing n => state c' = (if Codepoint.using_ecn m then if n =? 9 then Unknown else Testing (n + 1) else Testing n)
    | s => state c' = s
    end).
Proof.
  intros [Hb Hs] Hm. unfold on_packet_sent. destruct m; try done; cbn [rassert obind Codepoint.using_ecn];
    try (apply returns_ret; split; [by split | by destruct (state c)]).
  all: destruct (state c) as [n | | timer | timer] eqn:Est; try (apply returns_ret; split; [split; [done | by rewrite Est] | by rewrite Est]).
  all: unfold TESTING_PACKET_THRESHOLD in *; rewrite add_c_Ret by lia; cbn [obind].
  all: destruct (Z.leb_spec 10 (n + 1)); [| destruct (Z.eqb_spec n 9); [lia |]; apply returns_ret; split; [split; cbn; unfold TESTING_PACKET_THRESHOLD; lia | done]].
  all: assert (n = 9) as -> by lia; by apply returns_ret.
Qed.

Lemma packet_ack_ok c time m : controller_ok c -> controller_ok (on_packet_ack c time m) /\ state (on_packet_ack c time m) = state c.
Proof.
  intros [Hb Hs]. unfold on_packet_ack. destruct (ecn_packet_sent_after_last_acked_ecn_packet c time m); [| by split].
  split; [split; [cbn; unfold TESTING_PACKET_THRESHOLD; lia | done] | done].
Qed.

Lemma packet_loss_ok c time m now : controller_ok c -> timestamp_ok now ->
  returns (on_packet_loss c time m now) (fun c' => controller_ok c' /\ (state c' = state c \/ has_failed c' = true)).
Proof.
  intros Hc Hn. pose proof Hc as [Hb Hs]. unfold on_packet_loss. destruct (has_failed c) eqn:Hf; [apply returns_ret; by split; [| left] |].
  cbv zeta. set (c1 := if ecn_packet_sent_after_last_acked_ecn_packet c time m then set_counter c (saturating_add 8 (black_hole_counter c) 1) else c). assert (H1 : state c1 = state c /\ 0 <= black_hole_counter c1).
  { unfold c1. destruct (ecn_packet_sent_after_last_acked_ecn_packet c time m); [| by split; [| lia]].
    split; [done |]. cbn. unfold saturating_add, umax. lia. }
  destruct H1 as [Es H0]. destruct (Z.ltb_spec TESTING_PACKET_THRESHOLD (black_hole_counter c1)).
  - eapply returns_mono; [apply (fail_ok c1 now Hn); unfold has_failed in *; by rewrite Es |]. intros c' [H1 H2]. split; [by apply failed_ok | by right].
  - apply returns_ret. split; [| by left]. split; [lia |]. by rewrite Es.
Qed.

Lemma confirm_ok c newly now rtt : controller_ok c -> timestamp_ok now -> rtt_ok rtt ->
  returns (confirm c newly now rtt) (fun c' => controller_ok c' /\ has_failed c' = has_failed c
    /\ (state c' = state c \/ state c = Unknown /\ is_capable c' = true /\ 0 < ect_0_count newly)).
Proof.
  intros Hc Hn [H0 H1]. unfold confirm. destruct (state c) eqn:Est; try (apply returns_ret; split; [done |]; split; [done | by left]).
  destruct (Z.ltb_spec 0 (ect_0_count newly)); [| apply returns_ret; split; [done |]; split; [done | by left]].
  unfold Duration.mul, MULTIPLIER_START. rewrite (proj2 (Z.leb_le _ _)) by (unfold Duration.from_micros, Duration.MAX in *; nia). cbn [obind].
  rewrite timestamp_add_wide by (done || lia). cbn [obind]. unfold change_state. rewrite bool_decide_false by (by rewrite Est). cbn [negb rassert obind].
  apply returns_ret. pose proof Hc as [Hb _]. split; [by split |]. unfold has_failed. rewrite Est. split; [done | by right].
Qed.

(** What makes validation fail: [RFC 9000, section 13.4.2.1] and [RFC 9002,
    section 8.3]. *)
Definition invalid (newly sent baseline : EcnCounts) (ack_frame : option EcnCounts) : Prop :=
  match ack_frame with
  | None => newly <> Ecn.default \/ baseline <> Ecn.default
  | Some reported =>
      ect_0_count reported < ect_0_count baseline \/ ect_1_count reported < ect_1_count baseline \/ ce_count reported < ce_count baseline
      \/ ect_0_count reported - ect_0_count baseline + (ce_count reported - ce_count baseline) < ect_0_count newly
      \/ ect_0_count sent < ect_0_count reported - ect_0_count baseline \/ ect_1_count sent < ect_1_count reported - ect_1_count baseline
      \/ ce_count reported - ce_count baseline < ce_count newly
  end.
Definition counts_ok (e : EcnCounts) : Prop :=
  varint_ok (ect_0_count e) /\ varint_ok (ect_1_count e) /\ varint_ok (ce_count e).

Lemma ecn_checked_sub_spec a b : Ecn.checked_sub a b =
  if (ect_0_count b <=? ect_0_count a) && (ect_1_count b <=? ect_1_count a) && (ce_count b <=? ce_count a)
  then Some (mk_ecn (ect_0_count a - ect_0_count b) (ect_1_count a - ect_1_count b) (ce_count a - ce_count b)) else None.
Proof.
  unfold Ecn.checked_sub, VarInt.checked_sub, Prelude.checked_sub.
  destruct (Z.leb_spec (ect_0_count b) (ect_0_count a)), (Z.leb_spec (ect_1_count b) (ect_1_count a)), (Z.leb_spec (ce_count b) (ce_count a)); done.
Qed.

Lemma default_counts e : counts_ok e -> e <> Ecn.default -> 0 < ect_0_count e \/ 0 < ect_1_count e \/ 0 < ce_count e.
Proof.
  destruct e as [a b c]. intros ([Ha _] & [Hb _] & [Hc _]) Hne. cbn in *.
  destruct (decide (a = 0)) as [-> |], (decide (b = 0)) as [-> |], (decide (c = 0)) as [-> |]; try lia. done.
Qed.

Lemma saturating_sum a b : varint_ok a -> varint_ok b -> VarInt.saturating_add a b = Z.min VarInt.MAX (a + b).
Proof.
  intros Ha Hb. unfold varint_ok, VarInt.saturating_add, VarInt.unwrap_or, VarInt.new, Prelude.saturating_add, VarInt.MAX, MAX_VARINT_VALUE, umax in *.
  rewrite Z.min_l by lia. zcases; unfold MAX_VARINT_VALUE in *; lia.
Qed.

(** What validation comes to, and why. *)
Definition validated (c c' : t) (newly baseline : EcnCounts) (ack_frame : option EcnCounts) (result : ValidationOutcome) : Prop :=
  has_failed c' = false /\ (state c' = state c \/ state c = Unknown /\ is_capable c' = true /\ 0 < ect_0_count newly)
  /\ match result, ack_frame with
     | CongestionExperienced n, Some r => is_capable c' = true /\ 0 < n /\ n = ce_count r - ce_count baseline - ce_count newly
     | Passed, Some r => is_capable c' = true -> ce_count r - ce_count baseline = ce_count newly
     | Skipped, None => True
     | _, _ => False
     end.

Lemma validate_ok c newly sent baseline ack_frame now rtt :
  controller_ok c -> timestamp_ok now -> rtt_ok rtt -> counts_ok newly -> counts_ok sent -> counts_ok baseline ->
  (forall r, ack_frame = Some r -> counts_ok r) ->
  returns (validate c newly sent baseline ack_frame now rtt) (fun '(result, c') => controller_ok c' /\
    if has_failed c then result = Skipped /\ c' = c else
    (invalid newly sent baseline ack_frame /\ result = ValidationFailed /\ has_failed c' = true)
    \/ (~ invalid newly sent baseline ack_frame /\ validated c c' newly baseline ack_frame result)).
Proof.
  intros Hc Hn Hr Hnew Hsent Hbase Hack. unfold validate. destruct (has_failed c) eqn:Hf; [by apply returns_ret |].
  assert (Hfail : invalid newly sent baseline ack_frame -> returns (let! c := fail_ c now in Ret (ValidationFailed, c)) (fun '(result, c') => controller_ok c' /\
    ((invalid newly sent baseline ack_frame /\ result = ValidationFailed /\ has_failed c' = true)
     \/ (~ invalid newly sent baseline ack_frame /\ validated c c' newly baseline ack_frame result)))).
  { intros Hi. rstep (fail_ok c now Hn Hf). intros c' [H1 H2]. apply returns_ret. split; [by apply failed_ok | by left]. }
  unfold Ecn.as_option. destruct ack_frame as [r |]; cbn [from_option andb id].
  - specialize (Hack r eq_refl). rewrite ecn_checked_sub_spec. unfold counts_ok in *.
    destruct (Z.leb_spec (ect_0_count baseline) (ect_0_count r)), (Z.leb_spec (ect_1_count baseline) (ect_1_count r)), (Z.leb_spec (ce_count baseline) (ce_count r));
      cbn [andb]; try (apply Hfail; cbn; lia).
    unfold ce_remarking, remarked_to_ect0_or_ect1, ce_suppression. cbn [ect_0_count ect_1_count ce_count].
    rewrite saturating_sum by (unfold varint_ok in *; lia). unfold varint_ok, VarInt.MAX in *.
    destruct (Z.ltb_spec (Z.min MAX_VARINT_VALUE (ect_0_count r - ect_0_count baseline + (ce_count r - ce_count baseline))) (ect_0_count newly));
      [apply Hfail; cbn; lia |].
    destruct (Z.ltb_spec (ect_0_count sent) (ect_0_count r - ect_0_count baseline)); [apply Hfail; cbn; lia |].
    destruct (Z.ltb_spec (ect_1_count sent) (ect_1_count r - ect_1_count baseline)); [apply Hfail; cbn; lia |].
    destruct (Z.ltb_spec (ce_count r - ce_count baseline) (ce_count newly)); [apply Hfail; cbn; lia |].
    cbn [orb]. rewrite varint_sub_Ret by lia. cbn [obind]. rstep (confirm_ok c newly now rtt Hc Hn Hr). intros c' (Hc' & Hf' & Hst).
    apply returns_ret. split; [done |]. right. split; [cbn; lia |]. split; [congruence |]. split; [done |].
    destruct (is_capable c') eqn:Ecap; cbn [andb]; [| done].
    destruct (Z.ltb_spec 0 (ce_count r - ce_count baseline - ce_count newly)); [done | intros _; lia].
  - case_bool_decide as En; [| apply Hfail; by left]. case_bool_decide as Eb.
    + apply returns_ret. split; [done |]. right. split; [cbn; intros [? | ?]; done |]. split; [done |]. split; [by left | done].
    + rewrite ecn_checked_sub_spec. destruct (default_counts baseline Hbase Eb) as [? | [? | ?]]; cbn [Ecn.default ect_0_count ect_1_count ce_count].
      * rewrite (proj2 (Z.leb_gt (ect_0_count baseline) 0)) by done. apply Hfail. by right.
      * rewrite (proj2 (Z.leb_gt (ect_1_count baseline) 0)) by done. rewrite andb_false_r. apply Hfail. by right.
      * rewrite (proj2 (Z.leb_gt (ce_count baseline) 0)) by done. rewrite andb_false_r. apply Hfail. by right.
Qed.

(** ** Any sequence of events *)

Inductive ecn_event :=
| Timeout (now : Z) (bytes : list Z) (rtt : Z)
| SendPacket (mode : Mode) (now : Z)
| PacketAcked (time_sent : Z) (ecn : ExplicitCongestionNotification)
| PacketLost (time_sent : Z) (ecn : ExplicitCongestionNotification) (now : Z)
| Validate (newly_acked sent baseline : EcnCounts) (ack_frame : option EcnCounts) (now rtt : Z)
| Restart.

(** The controller; since the path's test was last started, the packets marked
    while the path was not validated; the time the latest acknowledged marked
    packet was sent at; and, since that acknowledgement or the start of the test,
    the lost marked packets that were sent after it. *)
Record log := mk_log { controller : t; test_marks : Z; latest : option Z; losses : Z }.

Definition is_testing (c : t) : bool := match state c with Testing _ => true | _ => false end.

Definition is_after (ecn : ExplicitCongestionNotification) (latest : option Z) (time_sent : Z) : bool :=
  Codepoint.using_ecn ecn && match latest with None => true | Some time => time <? time_sent end.

Definition ecn_step (ev : ecn_event) (L : log) : outcome log :=
  let 'mk_log c marked latest lost := L in
  match ev with
  | Timeout now bytes rtt =>
      let! c' := on_timeout c now bytes rtt in
      Ret (if has_failed c && is_testing c' then mk_log c' 0 latest 0 else mk_log c' marked latest lost)
  | SendPacket mode now =>
      let! '(ecn, c') := marking c mode now in
      let! c' := on_packet_sent c' ecn in
      Ret (mk_log c' (if negb (is_capable c) && Codepoint.using_ecn ecn then marked + 1 else marked) latest lost)
  | PacketAcked time_sent ecn =>
      let c' := on_packet_ack c time_sent ecn in
      Ret (if is_after ecn latest time_sent then mk_log c' marked (Some time_sent) 0 else mk_log c' marked latest lost)
  | PacketLost time_sent ecn now =>
      let! c' := on_packet_loss c time_sent ecn now in
      Ret (mk_log c' marked latest (if negb (has_failed c) && is_after ecn latest time_sent then lost + 1 else lost))
  | Validate newly_acked sent baseline ack_frame now rtt =>
      let! '(_, c') := validate c newly_acked sent baseline ack_frame now rtt in Ret (mk_log c' marked latest lost)
  | Restart => let! c' := restart c in Ret (mk_log c' 0 latest 0)
  end.
Fixpoint ecn_run (evs : list ecn_event) (L : log) : outcome log :=
  match evs with [] => Ret L | ev :: evs => let! L := ecn_step ev L in ecn_run evs L end.

Definition ecn_event_ok (ev : ecn_event) : Prop :=
  match ev with
  | Timeout now _ rtt => timestamp_ok now /\ rtt_ok rtt
  | SendPacket _ now | PacketLost _ _ now => timestamp_ok now
  | Validate newly_acked sent baseline ack_frame now rtt => timestamp_ok now /\ rtt_ok rtt /\ counts_ok newly_acked /\ counts_ok sent
      /\ counts_ok baseline /\ forall r, ack_frame = Some r -> counts_ok r
  | PacketAcked _ _ | Restart => True
  end.

(** The operations leave the losses alone, up to a failure. *)
Definition keeps (c c' : t) : Prop :=
  last_acked_ecn_packet_timestamp c' = last_acked_ecn_packet_timestamp c
  /\ (has_failed c' = false -> black_hole_counter c' = black_hole_counter c).

Lemma keeps_refl c : keeps c c.
Proof. by split. Qed.
Lemma set_state_keeps c s : keeps c (set_state c s).
Proof. by split. Qed.

Lemma change_state_keeps c s c' : change_state c s = Ret c' -> c' = set_state c s.
Proof. unfold change_state. by destruct (negb _); intros [= <-]. Qed.

Lemma fail_keeps c now c' : fail_ c now = Ret c' ->
  last_acked_ecn_packet_timestamp c' = last_acked_ecn_packet_timestamp c /\ has_failed c' = true.
Proof.
  unfold fail_. intros (time & _ & H)%bind_returned. apply bind_returned in H as (c1 & ->%change_state_keeps & [= <-]). done.
Qed.

Lemma restart_keeps c c' : restart c = Ret c' ->
  last_acked_ecn_packet_timestamp c' = last_acked_ecn_packet_timestamp c /\ black_hole_counter c' = 0.
Proof.
  unfold restart. intros (c1 & H & [= <-])%bind_returned. case_bool_decide; [by injection H as <- |].
  by apply change_state_keeps in H as ->.
Qed.

Lemma timeout_keeps c now bytes rtt c' : on_timeout c now bytes rtt = Ret c' ->
  if has_failed c && is_testing c'
  then last_acked_ecn_packet_timestamp c' = last_acked_ecn_packet_timestamp c /\ black_hole_counter c' = 0
  else keeps c c'.
Proof.
  unfold on_timeout, has_failed at 1. destruct (state c) as [n | | timer | timer]; cbn [andb].
  - intros [= <-]. apply keeps_refl.
  - intros [= <-]. apply keeps_refl.
  - intros ([ready tm] & _ & H)%bind_returned. destruct ready; [| injection H as <-; apply set_state_keeps].
    pose proof (restart_ok (set_state c (Failed tm))) as (c1 & E & _ & Hs). rewrite E in H. injection H as ->.
    unfold is_testing. rewrite Hs. by apply restart_keeps in E.
  - destruct (Timer.is_armed timer); [intros [= <-]; apply keeps_refl |].
    intros (d & _ & H)%bind_returned. apply bind_returned in H as (time & _ & [= <-]). apply set_state_keeps.
Qed.

Lemma marking_keeps c mode now m c' : marking c mode now = Ret (m, c') -> keeps c c'.
Proof.
  unfold marking. destruct (ModeOps.is_loss_recovery_probing mode); [intros [= <- <-]; apply keeps_refl |].
  destruct (state c) as [n | | timer | timer]; try (intros [= <- <-]; apply keeps_refl).
  intros ([ready tm] & _ & [= <- <-])%bind_returned. apply set_state_keeps.
Qed.

Lemma packet_sent_keeps c m c' : on_packet_sent c m = Ret c' -> keeps c c'.
Proof.
  unfold on_packet_sent. intros (u & _ & H)%bind_returned.
  destruct (Codepoint.using_ecn m), (state c) as [n | | |]; try (injection H as <-; apply keeps_refl).
  apply bind_returned in H as (n' & _ & H). destruct (TESTING_PACKET_THRESHOLD <=? n'); [| injection H as <-; apply set_state_keeps].
  apply change_state_keeps in H as ->. by split.
Qed.

Lemma validate_keeps c newly sent baseline ack now rtt r c' :
  validate c newly sent baseline ack now rtt = Ret (r, c') -> keeps c c'.
Proof.
  assert (Hfail : forall v, (let! c1 := fail_ c now in Ret (ValidationFailed, c1)) = Ret (v, c') -> keeps c c').
  { intros v (c1 & Hf & [= <- <-])%bind_returned. apply fail_keeps in Hf as [Hl Hf]. split; [done | by rewrite Hf]. }
  unfold validate. destruct (has_failed c); [intros [= <- <-]; apply keeps_refl |]. cbv zeta.
  destruct (_ && _); [apply Hfail |]. destruct (_ && _); [intros [= <- <-]; apply keeps_refl |].
  destruct (Ecn.checked_sub _ _); [| apply Hfail]. destruct (_ || _); [apply Hfail |].
  intros (n & _ & H)%bind_returned. apply bind_returned in H as (c1 & Hc & [= <- <-]). unfold confirm in Hc.
  destruct (state c); try (injection Hc as <-; apply keeps_refl). destruct (0 <? ect_0_count newly); [| injection Hc as <-; apply keeps_refl].
  apply bind_returned in Hc as (d & _ & Hc). apply bind_returned in Hc as (time & _ & Hc). apply change_state_keeps in Hc as ->. apply set_state_keeps.
Qed.

Lemma packet_loss_counts c time m now c' : on_packet_loss c time m now = Ret c' -> 0 <= black_hole_counter c <= TESTING_PACKET_THRESHOLD ->
  last_acked_ecn_packet_timestamp c' = last_acked_ecn_packet_timestamp c
  /\ (has_failed c' = false -> has_failed c = false
     /\ black_hole_counter c' = black_hole_counter c
         + if is_after m (last_acked_ecn_packet_timestamp c) time then 1 else 0).
Proof.
  unfold on_packet_loss. intros H Hb. destruct (has_failed c) eqn:Hf; [injection H as <-; by rewrite Hf |].
  change (ecn_packet_sent_after_last_acked_ecn_packet c time m) with (is_after m (last_acked_ecn_packet_timestamp c) time) in H.
  destruct (is_after m _ time); destruct (TESTING_PACKET_THRESHOLD <? _).
  1, 3: apply fail_keeps in H as [Hl Hf']; split; [done | by rewrite Hf'].
  all: injection H as <-; split; [done |]; intros _; split; [done |]; cbn.
  - unfold saturating_add, umax, TESTING_PACKET_THRESHOLD in *. lia.
  - lia.
Qed.

(** The log is the controller's. *)
Record log_ok (L : log) : Prop := mk_log_ok {
  log_controller : controller_ok (controller L);
  log_latest : last_acked_ecn_packet_timestamp (controller L) = latest L;
  log_losses : has_failed (controller L) = false -> black_hole_counter (controller L) = losses L;
  log_marks : match state (controller L) with
              | Testing n => test_marks L = n
              | _ => test_marks L <= TESTING_PACKET_THRESHOLD
              end
}.

Lemma log_keeps c c' marked latest lost :
  log_ok (mk_log c marked latest lost) -> controller_ok c' -> is_testing c' = false \/ state c' = state c ->
  (has_failed c' = false -> has_failed c = false) -> keeps c c' ->
  log_ok (mk_log c' marked latest lost).
Proof.
  intros [[_ Hc] Hl Hlost Hm] Hc' Hst Hf [Hk1 Hk2]. cbn in *.
  split; cbn; [done | congruence | intros Hf'; rewrite Hk2, Hlost by auto; done |].
  unfold is_testing in Hst. destruct Hst as [Ht | ->]; [| done].
  destruct (state c), (state c'); try done; unfold TESTING_PACKET_THRESHOLD in *; lia.
Qed.

Lemma log_started c c' marked latest lost :
  log_ok (mk_log c marked latest lost) -> controller_ok c' -> state c' = Testing 0 ->
  last_acked_ecn_packet_timestamp c' = last_acked_ecn_packet_timestamp c -> black_hole_counter c' = 0 ->
  log_ok (mk_log c' 0 latest 0).
Proof. intros [_ Hl _ _] Hc' Hst Hk Hb. cbn in *. split; cbn; [done | congruence | done | by rewrite Hst]. Qed.

Lemma failed_not_testing c : has_failed c = true -> is_testing c = false.
Proof. unfold has_failed, is_testing. by destruct (state c). Qed.
Lemma capable_not_testing c : is_capable c = true -> is_testing c = false.
Proof. unfold is_capable, is_testing. by destruct (state c). Qed.

Lemma ecn_send_ok c marked latest lost mode now : log_ok (mk_log c marked latest lost) -> timestamp_ok now ->
  returns (ecn_step (SendPacket mode now) (mk_log c marked latest lost)) log_ok.
Proof.
  intros HL Hn. pose proof HL as [Hc Hl Hlost Hm]. cbn [controller test_marks EcnThm.latest losses ecn_step] in *.
  destruct (marking_ok c mode now Hn) as ([m c1] & E1 & H1 & H2 & _ & Eb & Ecap & Hsame). rewrite E1. cbn [obind].
  apply marking_keeps in E1 as [K1 K2].
  assert (Hc1 : controller_ok c1 /\ (is_capable c = false -> c1 = c)).
  { split; [| done]. destruct (is_capable c) eqn:Ec; [| by rewrite (Hsame eq_refl)].
    split; [rewrite Eb; apply Hc |]. unfold is_capable in Ecap. by destruct (state c1). }
  destruct Hc1 as [Hc1 Hct]. destruct (packet_sent_ok c1 m Hc1 H1) as (c2 & E2 & Hc2 & Hst). rewrite E2. cbn [obind].
  apply packet_sent_keeps in E2 as [K3 K4]. apply returns_ret.
  destruct (is_capable c) eqn:Ec; cbn [negb andb].
  - assert (is_capable c2 = true) as Ec2 by (unfold is_capable in *; destruct (state c1); try done; by rewrite Hst).
    assert (forall d, is_capable d = true -> has_failed d = false) as Hnf by (intros d; unfold is_capable, has_failed; by destruct (state d)).
    apply (log_keeps c); [done | done | left; by apply capable_not_testing | by intros; apply Hnf |].
    split; [congruence |]. intros _. rewrite K4, Eb by (by apply Hnf). done.
  - rewrite (Hct eq_refl) in *. split; cbn; [done | congruence | |].
    + intros Hf2. rewrite K4 by done. apply Hlost. unfold has_failed in *. destruct (state c); try done. by rewrite Hst in Hf2.
    + destruct Hc as [_ Hc]. unfold marks, is_capable in *. destruct (state c) as [n | | |]; try done.
      * rewrite Hst. unfold TESTING_PACKET_THRESHOLD in *. destruct (Codepoint.using_ecn m); [| lia]. destruct (Z.eqb_spec n 9); lia.
      * rewrite Hst. destruct m; try done; exfalso; by specialize (H2 ltac:(done)).
      * rewrite Hst. destruct m; try done; exfalso; by specialize (H2 ltac:(done)).
Qed.

Lemma ecn_loss_ok c marked latest lost time m now : log_ok (mk_log c marked latest lost) -> timestamp_ok now ->
  returns (ecn_step (PacketLost time m now) (mk_log c marked latest lost)) log_ok.
Proof.
  intros HL Hn. pose proof HL as [Hc Hl Hlost Hm]. cbn [controller test_marks EcnThm.latest losses ecn_step] in *.
  destruct (packet_loss_ok c time m now Hc Hn) as (c' & E & Hc' & Hst). rewrite E. cbn [obind]. apply returns_ret.
  apply packet_loss_counts in E as [K1 K2]; [| apply Hc]. rewrite Hl in *. split; cbn; [done | done | |].
  - intros Hf. destruct (K2 Hf) as [Hf0 ->]. rewrite Hf0, (Hlost Hf0). cbn. destruct (is_after _ _ _); lia.
  - destruct Hc as [_ Hc]. destruct Hst as [-> | Hf]; [done |]. unfold has_failed in Hf.
    destruct (state c'); try done. destruct (state c); try done. unfold TESTING_PACKET_THRESHOLD in *. lia.
Qed.

Lemma ecn_ack_ok c marked latest lost time m : log_ok (mk_log c marked latest lost) ->
  returns (ecn_step (PacketAcked time m) (mk_log c marked latest lost)) log_ok.
Proof.
  intros HL. pose proof HL as [Hc Hl Hlost Hm]. cbn [controller test_marks EcnThm.latest losses ecn_step] in *.
  apply returns_ret. destruct (packet_ack_ok c time m Hc) as [Hc' Hst]. unfold on_packet_ack in *.
  change (ecn_packet_sent_after_last_acked_ecn_packet c time m) with (is_after m (last_acked_ecn_packet_timestamp c) time) in *.
  rewrite Hl in *. by destruct (is_after m latest time).
Qed.

Lemma ecn_step_ok ev L : log_ok L -> ecn_event_ok ev -> returns (ecn_step ev L) log_ok.
Proof.
  intros HL Hev. destruct L as [c marked latest lost]. pose proof (log_controller _ HL) as Hc. cbn [controller] in Hc.
  destruct ev as [now bytes rtt | mode now | time m | time m now | newly sent baseline ack now rtt |]; cbn [ecn_event_ok] in *.
  - cbn [ecn_step]. destruct (timeout_ok c now bytes rtt Hc (proj1 Hev) (proj2 Hev)) as (c' & E & Hc' & Hcase). rewrite E. cbn [obind].
    apply timeout_keeps in E as Hk. apply returns_ret. destruct Hcase as [(Ec & Ef & Hsame) | [Hf Hst]].
    + assert (Ht : has_failed c && is_testing c' = false).
      { destruct (has_failed c) eqn:Hf; [| done]. by apply failed_not_testing. }
      rewrite Ht in *. apply (log_keeps c); [done | done | | by rewrite Ef | done].
      destruct (has_failed c) eqn:Hf; [left; by apply failed_not_testing |].
      destruct (is_capable c) eqn:Ecap; [left; by apply capable_not_testing | right; by rewrite Hsame].
    + unfold is_testing in *. rewrite Hf, Hst in *. destruct Hk. by apply (log_started c c' marked latest lost).
  - by apply ecn_send_ok.
  - by apply ecn_ack_ok.
  - by apply ecn_loss_ok.
  - cbn [ecn_step]. destruct Hev as (H1 & H2 & H3 & H4 & H5 & H6).
    destruct (validate_ok c newly sent baseline ack now rtt Hc H1 H2 H3 H4 H5 H6) as ([result c'] & E & Hc' & Hcase). rewrite E. cbn [obind].
    apply validate_keeps in E. apply returns_ret. destruct (has_failed c) eqn:Hf; [destruct Hcase as [_ ->]; done |].
    apply (log_keeps c); [done | done | | done | done].
    destruct Hcase as [(_ & _ & ?) | (_ & _ & Hst & _)]; [left; by apply failed_not_testing |].
    destruct Hst as [? | (_ & ? & _)]; [by right | left; by apply capable_not_testing].
  - cbn [ecn_step]. destruct (restart_ok c) as (c' & E & Hc' & Hst). rewrite E. cbn [obind]. apply restart_keeps in E as [? ?].
    apply returns_ret. by apply (log_started c c' marked latest lost).
Qed.

Lemma ecn_run_ok evs : forall L, log_ok L -> Forall ecn_event_ok evs -> returns (ecn_run evs L) log_ok.
Proof.
  induction evs as [| ev evs IH]; intros L HL Hev; [by apply returns_ret |]. inversion Hev; subst. cbn [ecn_run].
  rstep (ecn_step_ok ev L HL). 1: done. intros L' HL'. by apply IH.
Qed.

(** C23: the controller of explicit congestion notification never panics, whatever
    counts a peer reports and in whatever order packets are sent, acknowledged,
    lost and timers expire.  Each test of a path marks at most ten packets until
    the path is validated.  And it notices a path that drops marked packets: once
    more than ten packets that were marked, and sent after the latest marked
    packet to be acknowledged, are lost since that acknowledgement or the start of
    the test, the path has failed and nothing is marked. *)
Theorem ecn_controller_safe evs :
  Forall ecn_event_ok evs ->
  returns (ecn_run evs (mk_log default 0 None 0)) (fun L =>
    test_marks L <= TESTING_PACKET_THRESHOLD
    /\ (TESTING_PACKET_THRESHOLD < losses L -> has_failed (controller L) = true)
    /\ (has_failed (controller L) = true ->
        forall mode now, marking (controller L) mode now = Ret (NotEct, controller L))).
Proof.
  intros Hev. eapply returns_mono; [apply ecn_run_ok; [| exact Hev] |].
  - split; [| done..]. split; [cbn; unfold TESTING_PACKET_THRESHOLD; lia | done].
  - intros L [[Hb Hs] _ Hl Hm]. split_and!.
    + destruct (state (controller L)); try done. lia.
    + destruct (has_failed (controller L)); [done |]. rewrite Hl in Hb by done. lia.
    + intros Hf mode now. unfold has_failed, marking in *. destruct (state (controller L)); try done.
      by destruct (ModeOps.is_loss_recovery_probing mode).
Qed.

(** A path is validated, then loses every marked packet; the loss of a packet
    from before the acknowledged one does not count. *)
Definition sample_losses : list ecn_event :=
  replicate 10 (SendPacket Normal 1000)
  ++ [PacketAcked 1000 Ect0; Validate (mk_ecn 1 0 0) (mk_ecn 10 0 0) Ecn.default (Some (mk_ecn 1 0 0)) 1500 1000]
  ++ replicate 11 (SendPacket Normal 2000)
  ++ PacketLost 1000 Ect0 3000 :: replicate 11 (PacketLost 2000 Ect0 3000).
Lemma ecn_controller_safe_witness :
  exists L, ecn_run sample_losses (mk_log default 0 None 0) = Ret L /\ losses L = 11 /\ has_failed (controller L) = true.
Proof.
  destruct (ecn_controller_safe sample_losses) as (L & E & _ & Hf & _).
  - assert (Ht : forall now, (1 <=? now) && (now <=? 3000) = true -> timestamp_ok now).
    { intros now [?%Z.leb_le ?%Z.leb_le]%andb_prop. unfold timestamp_ok. lia. }
    assert (Hc : forall n, (0 <=? n) && (n <=? 10) = true -> counts_ok (mk_ecn n 0 0)).
    { intros n [?%Z.leb_le ?%Z.leb_le]%andb_prop. unfold counts_ok, varint_ok, MAX_VARINT_VALUE. cbn. lia. }
    unfold sample_losses. apply Forall_app. split; [by apply Forall_replicate, Ht |]. constructor; [done |]. constructor.
    { split_and!; [by apply Ht | by vm_compute | by apply Hc | by apply Hc | by apply (Hc 0) | by intros r [= <-]; apply Hc]. }
    apply Forall_app. split; [by apply Forall_replicate, Ht |]. constructor; [by apply Ht | by apply Forall_replicate, Ht].
  - exists L. split; [exact E |]. vm_compute in E. injection E as <-. split; [reflexivity |]. apply Hf. by vm_compute.
Defined.
