(* ===== verification/EcnPath.v ===== *)
(** * Explicit congestion notification on an honest path

    The packets of a path whose routers only ever turn ECT(0) into CE, the counts
    of a peer that reports what it received, and the bookkeeping of the recovery
    manager between the two. *)
From stdpp Require Import base list.
From S2P Require Import Prelude VarInt FrameAck Time Rtt Transmission Recovery EcnController EcnThm.
Import EcnController.

(** ** The path *)

(** A packet is tracked until it is acknowledged or lost. *)
Inductive tracking := Tracked | NewlyAcked | Gone.
Record packet := mk_packet { p_time : Z; p_mark : ExplicitCongestionNotification; p_tracking : tracking }.

(** [packets] have not been counted by the peer in an ACK frame that was
    processed. *)
Record path := mk_path { ctl : t; sent_packet_ecn_counts : EcnCounts; baseline_ecn_counts : EcnCounts; packets : list packet }.

Inductive path_event :=
| Transmit (mode : Mode) (now : Z)
| Acknowledge (selected : list bool)
| DeclareLost (selected : list bool) (now : Z)
(** The ACK frame did or did not raise the largest acknowledged packet number. *)
| ProcessEcn (received : list (option ExplicitCongestionNotification)) (now rtt : Z)
| SkipEcn
| OnTimeout (now : Z) (bytes : list Z) (rtt : Z).

Definition is_newly (p : packet) : bool := match p_tracking p with NewlyAcked => true | _ => false end.
Definition retrack (s : tracking) (p : packet) : packet := mk_packet (p_time p) (p_mark p) s.
Definition hit (p : packet) (b : bool) : bool := match p_tracking p with Tracked => b | _ => false end.

Fixpoint ack_all (c : t) (ps : list packet) (selected : list bool) : t * list packet :=
  match ps, selected with
  | p :: ps, b :: bs =>
      let '(c, ps) := ack_all (if hit p b then on_packet_ack c (p_time p) (p_mark p) else c) ps bs in
      (c, (if hit p b then retrack NewlyAcked p else p) :: ps)
  | _, _ => (c, ps)
  end.
Fixpoint lose_all (c : t) (ps : list packet) (selected : list bool) (now : Z) : outcome (t * list packet) :=
  match ps, selected with
  | p :: ps, b :: bs =>
      let! c := if hit p b then on_packet_loss c (p_time p) (p_mark p) now else Ret c in
      let! '(c, ps) := lose_all c ps bs now in
      Ret (c, (if hit p b then retrack Gone p else p) :: ps)
  | _, _ => Ret (c, ps)
  end.

(** The packets the peer received for the first time, with the marks they had. *)
Definition arrivals (ps : list packet) (received : list (option ExplicitCongestionNotification)) : list (packet * ExplicitCongestionNotification) :=
  omap (fun pr => (fun m => (pr.1, m)) <$> pr.2) (zip ps received).
Definition missing (ps : list packet) (received : list (option ExplicitCongestionNotification)) : list packet :=
  omap (fun pr => match pr.2 with Some _ => None | None => Some pr.1 end) (zip ps received).

Definition tally (start : EcnCounts) (marks : list ExplicitCongestionNotification) : EcnCounts := foldl Ecn.increment start marks.

Definition newly_acked (ps : list packet) : list packet := filter (fun p => Is_true (is_newly p)) ps.

(** [process_ecn] of the recovery manager: what the congestion controller is told,
    the controller, the counts of outstanding packets and the baseline. *)
Definition process_ecn (c : t) (sent_packet_ecn_counts baseline_ecn_counts newly_acked_ecn_counts : EcnCounts)
    (ack_frame_ecn_counts : option EcnCounts) (now rtt : Z) : outcome (ValidationOutcome * t * EcnCounts * EcnCounts) :=
  let! '(result, c) := validate c newly_acked_ecn_counts sent_packet_ecn_counts baseline_ecn_counts ack_frame_ecn_counts now rtt in
  Ret (result, c, Ecn.sub_assign sent_packet_ecn_counts newly_acked_ecn_counts, from_option id Ecn.default ack_frame_ecn_counts).

(** How many. *)
Definition num {A} (f : A -> bool) (l : list A) : Z := foldr (fun x acc => (if f x then 1 else 0) + acc) 0 l.

(** The packets that met congestion: received with a CE mark, and not because
    they were sent and acknowledged with one. *)
Definition congested (pr : packet * ExplicitCongestionNotification) : bool :=
  match pr.2 with Ce => negb (match p_mark pr.1 with Ce => is_newly pr.1 | _ => false end) | _ => false end.
Definition congestion (ps : list packet) (received : list (option ExplicitCongestionNotification)) : Z :=
  num congested (arrivals ps received).

(** The result of validation, whether the path is trusted afterwards, and how many
    packets met congestion. *)
Record verdict := mk_verdict { told : ValidationOutcome; trusted : bool; truth : Z }.

Definition path_step (ev : path_event) (P : path) : outcome (path * list verdict) :=
  let 'mk_path c sent baseline ps := P in
  match ev with
  | Transmit mode now =>
      let! '(ecn, c) := marking c mode now in
      let! c := on_packet_sent c ecn in
      Ret (mk_path c (Ecn.increment sent ecn) baseline (ps ++ [mk_packet now ecn Tracked]), [])
  | Acknowledge selected => let '(c, ps) := ack_all c ps selected in Ret (mk_path c sent baseline ps, [])
  | DeclareLost selected now => let! '(c, ps) := lose_all c ps selected now in Ret (mk_path c sent baseline ps, [])
  | ProcessEcn received now rtt =>
      (* the peer reports all it received *)
      let reported := tally baseline (snd <$> arrivals ps received) in
      let! '(result, c, sent, baseline) :=
        process_ecn c sent baseline (tally Ecn.default (p_mark <$> newly_acked ps)) (Ecn.as_option reported) now rtt in
      Ret (mk_path c sent baseline (missing ps received), [mk_verdict result (is_capable c) (congestion ps received)])
  | SkipEcn => Ret (mk_path c sent baseline ((fun p => if is_newly p then retrack Gone p else p) <$> ps), [])
  | OnTimeout now bytes rtt => let! c := on_timeout c now bytes rtt in Ret (mk_path c sent baseline ps, [])
  end.
Fixpoint path_run (evs : list path_event) (P : path) : outcome (path * list verdict) :=
  match evs with
  | [] => Ret (P, [])
  | ev :: evs => let! '(P, v) := path_step ev P in let! '(P, vs) := path_run evs P in Ret (P, v ++ vs)
  end.

(** ** What an honest path does *)

(** A packet arrives with its mark or with CE instead of ECT(0), and what was
    acknowledged has arrived. *)
Definition honest_mark (p : packet) (r : option ExplicitCongestionNotification) : Prop :=
  match r with
  | None => p_tracking p <> NewlyAcked
  | Some m => m = p_mark p \/ (p_mark p = Ect0 /\ m = Ce)
  end.
Definition path_event_ok (ev : path_event) (P : path) : Prop :=
  match ev with
  | Transmit _ now | DeclareLost _ now => timestamp_ok now
  | ProcessEcn received now rtt => timestamp_ok now /\ rtt_ok rtt /\ Forall2 honest_mark (packets P) received
  | OnTimeout now _ rtt => timestamp_ok now /\ rtt_ok rtt
  | Acknowledge _ | SkipEcn => True
  end.
Fixpoint path_events_ok (evs : list path_event) (P : path) : Prop :=
  match evs with
  | [] => True
  | ev :: evs => path_event_ok ev P /\ forall P' v, path_step ev P = Ret (P', v) -> path_events_ok evs P'
  end.

(** ** Counts *)

Definition is_mark (m m' : ExplicitCongestionNotification) : bool :=
  match m, m' with Ect0, Ect0 | Ect1, Ect1 | Ce, Ce | NotEct, NotEct => true | _, _ => false end.

Lemma num_nonneg {A} (f : A -> bool) l : 0 <= num f l.
Proof. unfold num. induction l; cbn; [lia |]. destruct (f a); lia. Qed.
Lemma num_cons {A} (f : A -> bool) x l : num f (x :: l) = (if f x then 1 else 0) + num f l.
Proof. done. Qed.
Lemma num_app {A} (f : A -> bool) l k : num f (l ++ k) = num f l + num f k.
Proof. induction l; [done |]. rewrite <- app_comm_cons, !num_cons. lia. Qed.

Lemma tally_spec marks : forall e,
  0 <= ect_0_count e -> 0 <= ect_1_count e -> 0 <= ce_count e ->
  ect_0_count e + ect_1_count e + ce_count e + Z.of_nat (length marks) <= VarInt.MAX ->
  tally e marks = mk_ecn (ect_0_count e + num (is_mark Ect0) marks) (ect_1_count e + num (is_mark Ect1) marks) (ce_count e + num (is_mark Ce) marks).
Proof.
  unfold tally. induction marks as [| m marks IH]; intros [a b c] Ha Hb Hc Hsum; cbn [foldl]; [cbn; f_equal; lia |].
  cbn [ect_0_count ect_1_count ce_count length] in *. unfold VarInt.MAX in *.
  assert (Hs : forall x, 0 <= x -> x + 1 <= MAX_VARINT_VALUE -> VarInt.saturating_add x 1 = x + 1).
  { intros x H0 H1. rewrite saturating_sum; unfold varint_ok, VarInt.MAX; lia. }
  rewrite IH; destruct m; cbn [Ecn.increment ect_0_count ect_1_count ce_count]; rewrite ?Hs by lia; try lia; rewrite !num_cons; cbn [is_mark]; f_equal; lia.
Qed.

Lemma tally_zero marks : Z.of_nat (length marks) <= VarInt.MAX ->
  tally Ecn.default marks = mk_ecn (num (is_mark Ect0) marks) (num (is_mark Ect1) marks) (num (is_mark Ce) marks).
Proof. intros H. rewrite tally_spec by (cbn; lia). done. Qed.

(** What an honest path and peer make of the packets. *)
Record counted (ps : list packet) (received : list (option ExplicitCongestionNotification)) : Prop := {
  co_ect0 : num (is_mark Ect0) (snd <$> arrivals ps received) <= num (is_mark Ect0) (p_mark <$> ps);
  co_ect1 : num (is_mark Ect1) (snd <$> arrivals ps received) = 0;
  co_ce : num (is_mark Ce) (snd <$> arrivals ps received) = congestion ps received + num (is_mark Ce) (p_mark <$> newly_acked ps);
  co_sum : num (is_mark Ect0) (p_mark <$> newly_acked ps)
    <= num (is_mark Ect0) (snd <$> arrivals ps received) + num (is_mark Ce) (snd <$> arrivals ps received);
  co_newly : num (is_mark Ect1) (p_mark <$> newly_acked ps) = 0;
  co_missing : num (is_mark Ect0) (p_mark <$> missing ps received) + num (is_mark Ect0) (p_mark <$> newly_acked ps) <= num (is_mark Ect0) (p_mark <$> ps);
  co_length : (length (arrivals ps received) + length (missing ps received) = length ps)%nat;
  co_short : (length (newly_acked ps) <= length ps)%nat;
  co_marks : Forall (fun p => p_mark p <> Ect1) (missing ps received)
}.

Lemma newly_cons p ps : newly_acked (p :: ps) = if is_newly p then p :: newly_acked ps else newly_acked ps.
Proof. unfold newly_acked. rewrite filter_cons. destruct (is_newly p); by case_decide. Qed.

Lemma arrivals_cons p r ps rs :
  arrivals (p :: ps) (r :: rs) = match r with Some m => (p, m) :: arrivals ps rs | None => arrivals ps rs end.
Proof. by destruct r. Qed.
Lemma missing_cons p r ps rs : missing (p :: ps) (r :: rs) = match r with Some _ => missing ps rs | None => p :: missing ps rs end.
Proof. by destruct r. Qed.

Lemma honest_counted ps received :
  Forall2 honest_mark ps received -> Forall (fun p => p_mark p <> Ect1) ps -> counted ps received.
Proof.
  induction 1 as [| p r ps received Hp _ IH]; intros Hm; [by split |]. inversion Hm as [| ? ? Hp1 Hps]; subst.
  destruct (IH Hps) as [H1 H2 H3 H4 H5 H6 H7 H8 H9]. clear IH Hm Hps. unfold congestion in *.
  split; unfold congestion; rewrite ?arrivals_cons, ?missing_cons, ?newly_cons; destruct p as [time m s]; cbn [p_mark p_tracking honest_mark] in *;
    (destruct r as [m' |]; destruct s; cbn [is_newly p_tracking]; try (by destruct Hp); try (by constructor));
    rewrite ?fmap_cons, ?num_cons; cbn [p_mark snd length]; try lia.
  all: try (cbn in Hp; destruct Hp as [-> | [-> ->]]; [destruct m |]; cbn; done || lia).
  all: destruct m; cbn; done || lia.
Qed.

(** ** The invariant *)

(** At most [N] packets were sent. *)
Record path_ok (N : Z) (P : path) : Prop := {
  po_ctl : controller_ok (ctl P);
  po_ect0 : num (is_mark Ect0) (p_mark <$> packets P) <= ect_0_count (sent_packet_ecn_counts P) <= N;
  po_ect1 : 0 <= ect_1_count (sent_packet_ecn_counts P) <= N;
  po_ce : 0 <= ce_count (sent_packet_ecn_counts P) <= N;
  po_baseline : 0 <= ect_0_count (baseline_ecn_counts P) /\ ect_1_count (baseline_ecn_counts P) = 0 /\ 0 <= ce_count (baseline_ecn_counts P);
  po_counted : ect_0_count (baseline_ecn_counts P) + ce_count (baseline_ecn_counts P) + Z.of_nat (length (packets P)) <= N;
  po_marks : Forall (fun p => p_mark p <> Ect1) (packets P)
}.

Definition verdict_ok (v : verdict) : Prop :=
  match told v with
  | ValidationFailed => False
  | CongestionExperienced n => n = truth v
  | Passed => trusted v = true -> truth v = 0
  | Skipped => True
  end.

Lemma retracked_ok N c c' sent baseline ps ps' :
  path_ok N (mk_path c sent baseline ps) -> controller_ok c' -> p_mark <$> ps' = p_mark <$> ps -> path_ok N (mk_path c' sent baseline ps').
Proof.
  intros [H1 H2 H3 H4 H5 H6 H7] Hc E. cbn [ctl sent_packet_ecn_counts baseline_ecn_counts packets] in *. assert (El : length ps' = length ps) by (by rewrite <- (length_fmap p_mark ps'), E, length_fmap).
  split; cbn [ctl sent_packet_ecn_counts baseline_ecn_counts packets]; rewrite ?E, ?El; try done. rewrite Forall_forall in H7 |- *. intros p Hp.
  assert (Hin : p_mark p ∈ p_mark <$> ps) by (rewrite <- E; by apply list_elem_of_fmap_2). apply list_elem_of_fmap in Hin as (q & Eq & Hq). rewrite Eq. by apply H7.
Qed.

Lemma ack_all_ok ps : forall c selected, controller_ok c ->
  controller_ok (ack_all c ps selected).1 /\ p_mark <$> (ack_all c ps selected).2 = p_mark <$> ps.
Proof.
  induction ps as [| p ps IH]; intros c [| b bs] Hc; cbn [ack_all]; try done.
  assert (Hc1 : controller_ok (if hit p b then on_packet_ack c (p_time p) (p_mark p) else c)) by (destruct (hit p b); [by apply packet_ack_ok | done]).
  destruct (IH _ bs Hc1) as [H1 H2]. destruct (ack_all _ ps bs) as [c' ps']. cbn [fst snd] in *. split; [done |].
  rewrite !fmap_cons, H2. by destruct (hit p b).
Qed.

Lemma lose_all_ok ps : forall c selected now, controller_ok c -> timestamp_ok now ->
  returns (lose_all c ps selected now) (fun '(c', ps') => controller_ok c' /\ p_mark <$> ps' = p_mark <$> ps).
Proof.
  induction ps as [| p ps IH]; intros c [| b bs] now Hc Hn; cbn [lose_all]; try by apply returns_ret.
  assert (Hc1 : returns (if hit p b then on_packet_loss c (p_time p) (p_mark p) now else Ret c) controller_ok).
  { destruct (hit p b); [| by apply returns_ret]. eapply returns_mono; [by apply packet_loss_ok |]. by intros c' [? _]. }
  rstep Hc1. intros c1 H1. rstep (IH c1 bs now H1 Hn). intros [c' ps'] [H2 H3]. apply returns_ret. split; [done |].
  rewrite !fmap_cons, H3. by destruct (hit p b).
Qed.

Lemma transmit_path_ok N c sent baseline ps mode now :
  path_ok N (mk_path c sent baseline ps) -> N < VarInt.MAX -> timestamp_ok now ->
  returns (path_step (Transmit mode now) (mk_path c sent baseline ps)) (fun '(P, vs) => path_ok (N + 1) P /\ vs = []).
Proof.
  intros [H1 H2 H3 H4 H5 H6 H7] HN Hn. cbn [ctl sent_packet_ecn_counts baseline_ecn_counts packets path_step] in *. rstep (marking_ok c mode now Hn). intros [m c1] (Hm & _ & _ & Eb & Ecap & Hsame).
  assert (Hc1 : controller_ok c1).
  { destruct (is_capable c) eqn:Ec; [| by rewrite (Hsame eq_refl)]. split; [rewrite Eb; apply H1 |]. unfold is_capable in Ecap. by destruct (state c1). }
  rstep (packet_sent_ok c1 m Hc1 Hm). intros c2 [Hc2 _]. apply returns_ret. split; [| done].
  pose proof (num_nonneg (is_mark Ect0) (p_mark <$> ps)). unfold VarInt.MAX in HN.
  assert (Hs : forall x, 0 <= x <= N -> VarInt.saturating_add x 1 = x + 1).
  { intros x Hx. rewrite saturating_sum; unfold varint_ok, VarInt.MAX; lia. }
  split; cbn [ctl sent_packet_ecn_counts baseline_ecn_counts packets]; rewrite ?fmap_app, ?num_app, ?length_app; try done.
  - rewrite fmap_cons, num_cons. cbn [p_mark fmap list_fmap]. change (num (is_mark Ect0) []) with 0.
    destruct m; cbn [Ecn.increment ect_0_count is_mark]; rewrite ?Hs; lia.
  - destruct m; cbn [Ecn.increment ect_1_count]; rewrite ?Hs; lia.
  - destruct m; cbn [Ecn.increment ce_count]; rewrite ?Hs; lia.
  - cbn [length]. lia.
  - apply Forall_app. split; [done |]. by repeat constructor.
Qed.

Lemma num_marks_length l : num (is_mark Ect0) l + num (is_mark Ce) l <= Z.of_nat (length l).
Proof. induction l as [| m l IH]; [done |]. rewrite !num_cons. cbn [length]. destruct m; cbn [is_mark]; lia. Qed.

Lemma as_option_default e : from_option id Ecn.default (Ecn.as_option e) = e.
Proof. unfold Ecn.as_option. by case_bool_decide. Qed.

Lemma process_path_ok N P received now rtt :
  path_ok N P -> N <= VarInt.MAX -> timestamp_ok now -> rtt_ok rtt -> Forall2 honest_mark (packets P) received ->
  returns (path_step (ProcessEcn received now rtt) P) (fun '(P', vs) => path_ok N P' /\ Forall verdict_ok vs).
Proof.
  intros [H1 H2 H3 H4 H5 H6 H7] HN Hn Hr Hhon. destruct P as [c sent baseline ps]. cbn [ctl sent_packet_ecn_counts baseline_ecn_counts packets path_step] in *.
  unfold process_ecn.
  destruct (honest_counted ps received Hhon H7) as [C1 C2 C3 C4 C5 C6 C7 C8 C9].
  set (A := snd <$> arrivals ps received) in *. set (X := p_mark <$> newly_acked ps) in *.
  assert (HlA : (length A + length (missing ps received) = length ps)%nat) by (unfold A; rewrite length_fmap; exact C7).
  assert (HlX : (length X <= length ps)%nat) by (unfold X; rewrite length_fmap; exact C8).
  pose proof (num_nonneg (is_mark Ect0) A). pose proof (num_nonneg (is_mark Ce) A). pose proof (num_nonneg (is_mark Ect0) X). pose proof (num_nonneg (is_mark Ce) X).
  pose proof (num_nonneg congested (arrivals ps received)) as Hcg. fold (congestion ps received) in Hcg. pose proof (num_nonneg (is_mark Ect0) (p_mark <$> missing ps received)).
  pose proof (num_marks_length A). pose proof (num_marks_length X). destruct H5 as (B0 & B1 & Bce).
  rewrite (tally_zero X) by lia. rewrite (tally_spec A baseline) by lia. rewrite C2, C5, B1.
  set (newly := mk_ecn (num (is_mark Ect0) X) 0 (num (is_mark Ce) X)).
  set (reported := mk_ecn (ect_0_count baseline + num (is_mark Ect0) A) (0 + 0) (ce_count baseline + num (is_mark Ce) A)).
  assert (Hvi : ~ invalid newly sent baseline (Ecn.as_option reported)).
  { unfold Ecn.as_option. case_bool_decide as Ed; cbn [invalid].
    - unfold reported, Ecn.default in Ed. injection Ed as E0 E1. intros [Hne | Hne]; apply Hne; unfold newly, Ecn.default; [f_equal; lia |].
      destruct baseline as [b0 b1 bce]. cbn [ect_0_count ect_1_count ce_count] in *. f_equal; lia.
    - unfold reported, newly. cbn [ect_0_count ect_1_count ce_count]. lia. }
  assert (Hok : forall r, Ecn.as_option reported = Some r -> r = reported) by (unfold Ecn.as_option; intros r; case_bool_decide; naive_solver).
  destruct (validate_ok c newly sent baseline (Ecn.as_option reported) now rtt H1 Hn Hr) as ([told c'] & -> & Hc' & Hcase);
    try (unfold counts_ok, varint_ok, VarInt.MAX, newly in *; cbn [ect_0_count ect_1_count ce_count]; lia).
  { intros r ->%Hok. unfold counts_ok, varint_ok, VarInt.MAX, reported in *. cbn [ect_0_count ect_1_count ce_count]. lia. }
  cbn [obind]. apply returns_ret. rewrite as_option_default. split.
  - split; cbn [ctl sent_packet_ecn_counts baseline_ecn_counts packets]; try done; unfold Ecn.sub_assign, VarInt.saturating_sub, Prelude.saturating_sub, newly, reported;
      cbn [ect_0_count ect_1_count ce_count]; lia.
  - constructor; [| constructor]. destruct (has_failed c); [by destruct Hcase as [-> _] |]. destruct Hcase as [[Hi _] | [_ (_ & _ & Hv)]]; [done |].
    unfold verdict_ok. cbn [EcnPath.told trusted truth ctl]. destruct told as [n | | |]; try done; destruct (Ecn.as_option reported) as [r |] eqn:Er; try done.
    + destruct Hv as (_ & _ & ->). rewrite (Hok r eq_refl). unfold reported, newly. cbn [ce_count]. lia.
    + intros Ht. specialize (Hv Ht). rewrite (Hok r eq_refl) in Hv. unfold reported, newly in Hv. cbn [ce_count] in Hv. lia.
Qed.

Lemma path_ok_mono N N' P : N <= N' -> path_ok N P -> path_ok N' P.
Proof. intros HN [H1 H2 H3 H4 H5 H6 H7]. split; try done; lia. Qed.

Lemma path_step_ok N ev P : path_ok N P -> N < VarInt.MAX -> path_event_ok ev P ->
  returns (path_step ev P) (fun '(P', vs) => path_ok (N + 1) P' /\ Forall verdict_ok vs).
Proof.
  intros HP HN Hev. assert (Hup : forall P', path_ok N P' -> path_ok (N + 1) P') by (intros P'; apply path_ok_mono; lia). pose proof (po_ctl _ _ HP) as Hc.
  destruct P as [c sent baseline ps]. destruct ev as [mode now | sel | sel now | received now rtt | | now bytes rtt]; cbn [path_event_ok ctl] in *.
  - eapply returns_mono; [by apply transmit_path_ok |]. intros [P' vs] [H ->]. by split.
  - cbn [path_step]. destruct (ack_all_ok ps c sel Hc) as [H1 H2]. destruct (ack_all c ps sel) as [c' ps']. apply returns_ret.
    split; [| constructor]. by apply Hup, (retracked_ok N c c' sent baseline ps ps').
  - cbn [path_step]. rstep (lose_all_ok ps c sel now Hc Hev). intros [c' ps'] [H1 H2]. apply returns_ret. split; [| constructor].
    by apply Hup, (retracked_ok N c c' sent baseline ps ps').
  - destruct Hev as (H1 & H2 & H3). eapply returns_mono; [apply (process_path_ok N); try done; lia |]. intros [P' vs] [H ?]. split; [by apply Hup | done].
  - cbn [path_step]. apply returns_ret. split; [| constructor]. apply Hup, (retracked_ok N c c sent baseline ps); [done | done |].
    rewrite <- list_fmap_compose. apply list_fmap_ext. intros i p _. cbn. by destruct (is_newly p).
  - cbn [path_step]. rstep (timeout_ok c now bytes rtt Hc (proj1 Hev) (proj2 Hev)). intros c' [H1 _]. apply returns_ret. split; [| constructor].
    by apply Hup, (retracked_ok N c c' sent baseline ps ps).
Qed.

Lemma path_run_ok evs : forall N P, path_ok N P -> N + Z.of_nat (length evs) <= VarInt.MAX -> path_events_ok evs P ->
  returns (path_run evs P) (fun '(P', vs) => path_ok (N + Z.of_nat (length evs)) P' /\ Forall verdict_ok vs).
Proof.
  induction evs as [| ev evs IH]; intros N P HP HN Hv; [apply returns_ret; rewrite Z.add_0_r; by split |]. destruct Hv as [Hev Hrest].
  cbn [path_run]. cbn [length] in HN |- *. destruct (path_step_ok N ev P HP ltac:(lia) Hev) as ([P1 v] & E1 & HP1 & Hv1). rewrite E1. cbn [obind].
  rstep (IH (N + 1) P1 HP1 ltac:(lia) (Hrest P1 v E1)). intros [P' vs] [HP' Hvs]. apply returns_ret. split; [| by apply Forall_app].
  eapply path_ok_mono; [| exact HP']. lia.
Qed.

Definition new_path : path := mk_path default Ecn.default Ecn.default [].

(** C22: on a path whose routers only ever turn ECT(0) into CE, with a peer that
    reports the marks of all packets it received, validation never fails.
    Whatever is sent, acknowledged, late, lost or lost and yet received, nothing
    panics, and the congestion that is reported on a trusted path is exactly the
    number of packets that were received with a CE mark, other than those that
    were sent and newly acknowledged with one. *)
Theorem ecn_honest_path evs :
  Z.of_nat (length evs) <= VarInt.MAX -> path_events_ok evs new_path ->
  returns (path_run evs new_path) (fun '(P, vs) => Forall verdict_ok vs).
Proof.
  intros HN Hv. assert (H0 : path_ok 0 new_path).
  { split; cbn; try done; try lia. }
  eapply returns_mono; [apply (path_run_ok evs 0 new_path H0); done |]. by intros [P vs] [_ ?].
Qed.

(** ** A path that meets congestion *)

Definition sample_path_events : list path_event :=
  repeat (Transmit Normal 1000) 10
  ++ [DeclareLost [true] 3000;
      Acknowledge (repeat true 10); ProcessEcn (repeat (Some Ect0) 3 ++ [Some Ce] ++ repeat (Some Ect0) 6) 2000000 1000;
      Transmit Normal 2100000; Transmit Normal 2100000; Acknowledge [true; true]; ProcessEcn [Some Ce; Some Ce] 2200000 1000].

Lemma sample_path_ok ev evs P P' v : path_event_ok ev P -> path_step ev P = Ret (P', v) -> path_events_ok evs P' -> path_events_ok (ev :: evs) P.
Proof. intros Hev HP Hrest. split; [done |]. intros P0 v0 HP0. by assert (P0 = P') as -> by congruence. Qed.
Ltac next_path_event :=
  eapply sample_path_ok;
    [first [exact I | by vm_compute | split; [by vm_compute | split; [by vm_compute | cbn; repeat constructor; first [by left | by right]]]] | vm_compute; reflexivity |].

Lemma ecn_honest_path_witness :
  exists P vs, path_run sample_path_events new_path = Ret (P, vs) /\ Forall verdict_ok vs
    /\ vs = [mk_verdict (CongestionExperienced 1) true 1; mk_verdict (CongestionExperienced 1) true 1].
Proof.
  destruct (ecn_honest_path sample_path_events ltac:(by vm_compute)) as ([P vs] & E & Hvs).
  - unfold sample_path_events. cbn [repeat app]. do 17 next_path_event. exact I.
  - exists P, vs. split; [exact E |]. split; [exact Hvs |]. vm_compute in E. injection E as <- <-. reflexivity.
Defined.

(** A packet that was sent with a CE mark and is acknowledged by an ACK frame that
    does not raise the largest acknowledged packet number is later reported as
    congestion. *)
Example own_mark_counted_as_congestion :
  (let! '(_, vs) := path_run
     (repeat (Transmit Normal 1000) 10 ++ [Acknowledge (repeat true 10); ProcessEcn (repeat (Some Ect0) 10) 2000000 1000;
      Transmit Normal 2100000; Transmit Normal 2100000; Acknowledge [true; false]; SkipEcn; Acknowledge [false; true];
      ProcessEcn [Some Ce; Some Ect0] 2200000 1000]) new_path in Ret (told <$> vs)) = Ret [Passed; CongestionExperienced 1].
Proof. vm_compute. reflexivity. Qed.
