(* ===== verification/Sync.v ===== *)
(** * Synchronising values with the peer

    [s2n-quic-transport/src/sync]: the state of a delivery, values that only
    grow, values sent periodically or once, and flags.  The set of acknowledged
    or lost packets, the trait [ack::Set], is its function [contains]. *)
From S2P Require Import Prelude Codec VarInt PacketNumber FrameAck Frames Time Transmission Recovery.

(** [contexts/mod.rs]. *)
Inductive OnTransmitError := CouldNotWriteFrame | CouldNotAcquireEnoughSpace.

Record InflightPacketInfo := mk_inflight_packet { packet_nr : Z; timestamp : Z }.
Record InFlightDelivery (T : Type) := mk_inflight { value : T; packet : InflightPacketInfo }.
Arguments mk_inflight {_}.
Arguments value {_}.
Arguments packet {_}.

Inductive DeliveryState (T : Type) :=
| NotRequested
| Requested (v : T)
| Lost (v : T)
| InFlight (d : InFlightDelivery T)
| Delivered (v : T)
| Cancelled (v : option T).
Arguments NotRequested {_}.
Arguments Requested {_}.
Arguments Lost {_}.
Arguments InFlight {_}.
Arguments Delivered {_}.
Arguments Cancelled {_}.

Module Delivery.
Section T.
Context {T : Type}.

Definition cancel (self : DeliveryState T) : DeliveryState T :=
  match self with
  | NotRequested => Cancelled None
  | Requested v | Lost v | Delivered v => Cancelled (Some v)
  | InFlight d => Cancelled (Some (value d))
  | Cancelled v => Cancelled v
  end.
Definition is_cancelled (self : DeliveryState T) : bool := match self with Cancelled _ => true | _ => false end.
Definition is_inflight (self : DeliveryState T) : bool := match self with InFlight _ => true | _ => false end.
Definition try_transmit (self : DeliveryState T) (constraint : Constraint) : option T :=
  match self with
  | Requested v => if ConstraintOps.can_transmit constraint then Some v else None
  | Lost v => if ConstraintOps.can_retransmit constraint then Some v else None
  | _ => None
  end.
Definition transmission_interest (self : DeliveryState T) : list Interest :=
  match self with
  | Requested _ => [NewData]
  | Lost _ => [LostData]
  | _ => []
  end.
End T.
End Delivery.

(** [ValueToFrameWriter]: the frame for a value of a stream. *)
Definition FrameWriter (T : Type) : Type := T -> Z -> frame.

(** The outcome of a transmission: the new state, [Ok] or an error, and the
    frames written. *)
Definition transmitted (S : Type) : Type := S * result unit OnTransmitError * list frame.

(** ** A value that only grows *)
Module IncrementalValueSync.
Record t := mk {
  latest_value : Z;
  value_ackd_up_to : Z;
  threshold : Z;
  delivery : DeliveryState Z
}.

Definition should_send_update (self : t) : outcome bool :=
  if Delivery.is_cancelled (delivery self) then Ret false else
  if negb (latest_value self =? value_ackd_up_to self) then
    match delivery self with
    | InFlight in_flight =>
        let! d := VarInt.sub (latest_value self) (value in_flight) in
        Ret (threshold self <=? d)
    | _ =>
        let! d := VarInt.sub (latest_value self) (value_ackd_up_to self) in
        Ret (threshold self <=? d)
    end
  else Ret false.
Definition request_delivery_if_necessary (self : t) : outcome t :=
  let! should := should_send_update self in
  Ret (if should
       then mk (latest_value self) (value_ackd_up_to self) (threshold self) (Requested (latest_value self))
       else self).

Definition new (latest_value value_ackd_up_to threshold : Z) : outcome t :=
  let! _ := rassert (value_ackd_up_to <=? latest_value) in
  request_delivery_if_necessary (mk latest_value value_ackd_up_to threshold NotRequested).

Definition is_cancelled (self : t) : bool := Delivery.is_cancelled (delivery self).
Definition is_inflight (self : t) : bool := Delivery.is_inflight (delivery self).

Definition update_latest_value (self : t) (value : Z) : outcome t :=
  let! _ := rassert (latest_value self <=? value) in
  request_delivery_if_necessary (mk value (value_ackd_up_to self) (threshold self) (delivery self)).
Definition stop_sync (self : t) : t :=
  mk (latest_value self) (value_ackd_up_to self) (threshold self) (Delivery.cancel (delivery self)).

Definition on_packet_ack (self : t) (contains : Z -> bool) : t :=
  match delivery self with
  | InFlight in_flight =>
      if contains (packet_nr (packet in_flight))
      then mk (latest_value self) (value in_flight) (threshold self) NotRequested else self
  | _ => self
  end.
Definition on_packet_loss (self : t) (contains : Z -> bool) : t :=
  match delivery self with
  | InFlight in_flight =>
      if contains (packet_nr (packet in_flight))
      then mk (latest_value self) (value_ackd_up_to self) (threshold self) (Lost (latest_value self)) else self
  | _ => self
  end.

Definition on_transmit (writer : FrameWriter Z) (self : t) (stream_id : Z) (context : Writer) : transmitted t :=
  match Delivery.try_transmit (delivery self) (transmission_constraint context) with
  | Some _ =>
      let v := latest_value self in
      let f := writer v stream_id in
      match write_frame context [] f with
      | None => (self, Err CouldNotWriteFrame, [])
      | Some packet_nr =>
          (mk (latest_value self) (value_ackd_up_to self) (threshold self)
             (InFlight (mk_inflight v (mk_inflight_packet packet_nr (current_time context)))), Ok tt, [f])
      end
  | None => (self, Ok tt, [])
  end.
Definition transmission_interest (self : t) : list Interest := Delivery.transmission_interest (delivery self).
End IncrementalValueSync.

(** ** A value sent periodically *)
Module PeriodicSync.
Definition DEFAULT_SYNC_PERIOD : Z := Duration.from_millis 999.
Definition INITIAL_BACKOFF : Z := 1.

Record t := mk {
  latest_value : Z;
  sync_period : Z;
  delivery_timer : Timer.t;
  delivery : DeliveryState Z;
  delivered : bool;
  transmission_backoff : Z
}.

Definition new : t := mk 0 DEFAULT_SYNC_PERIOD Timer.default NotRequested false INITIAL_BACKOFF.

Definition set_delivery (self : t) (d : DeliveryState Z) : t :=
  mk (latest_value self) (sync_period self) (delivery_timer self) d (delivered self) (transmission_backoff self).
(** [self.transmission_backoff *= 2], saturating. *)
Definition back_off (self : t) : t :=
  mk (latest_value self) (sync_period self) (delivery_timer self) (delivery self) (delivered self)
    (Z.min (transmission_backoff self * 2) (umax 16)).

Definition request_delivery (self : t) (v : Z) : outcome t :=
  let! _ := rassert (latest_value self <=? v) in
  let self := mk v (sync_period self) (delivery_timer self) (delivery self) (delivered self) (transmission_backoff self) in
  Ret (match delivery self with
       | NotRequested | Cancelled _ => set_delivery self (Requested v)
       | _ => self
       end).

Definition sync_period_backed_off (self : t) : outcome Z := Duration.mul (transmission_backoff self) (sync_period self).
Definition update_timer (self : t) (now : Z) : outcome t :=
  let! period := sync_period_backed_off self in
  let! time := Timestamp.add now period in
  Ret (mk (latest_value self) (sync_period self) (Timer.set (delivery_timer self) time) (delivery self)
         (delivered self) (transmission_backoff self)).

Definition skip_delivery (self : t) (now : Z) : outcome t :=
  match delivery self with
  | Requested _ | Lost _ => update_timer (back_off (set_delivery self NotRequested)) now
  | Delivered _ => update_timer (back_off self) now
  | _ => Ret self
  end.

Definition on_timeout (self : t) (now : Z) : outcome t :=
  let! '(ready, timer) := Timer.poll_expiration (delivery_timer self) now in
  let self := mk (latest_value self) (sync_period self) timer (delivery self) (delivered self) (transmission_backoff self) in
  Ret (if ready then set_delivery self (Requested (latest_value self)) else self).

Definition stop_sync (self : t) : t :=
  mk (latest_value self) (sync_period self) (Timer.cancel (delivery_timer self)) (Delivery.cancel (delivery self))
    false INITIAL_BACKOFF.

Definition on_packet_ack (self : t) (contains : Z -> bool) : outcome t :=
  match delivery self with
  | InFlight in_flight =>
      if contains (packet_nr (packet in_flight)) then
        let self := mk (latest_value self) (sync_period self) (delivery_timer self) (delivery self) true
                      (transmission_backoff self) in
        let! self := update_timer self (timestamp (packet in_flight)) in
        Ret (set_delivery self (Delivered (value in_flight)))
      else Ret self
  | _ => Ret self
  end.
Definition update_sync_period (self : t) (sync_period : Z) : t :=
  mk (latest_value self) sync_period (delivery_timer self) (delivery self) (delivered self) (transmission_backoff self).
Definition on_packet_loss (self : t) (contains : Z -> bool) : t :=
  match delivery self with
  | InFlight in_flight =>
      if contains (packet_nr (packet in_flight)) then set_delivery self (Lost (value in_flight)) else self
  | _ => self
  end.

Definition on_transmit (writer : FrameWriter Z) (self : t) (stream_id : Z) (context : Writer) : transmitted t :=
  match Delivery.try_transmit (delivery self) (transmission_constraint context) with
  | Some _ =>
      let v := latest_value self in
      let f := writer v stream_id in
      match write_frame context [] f with
      | None => (self, Err CouldNotWriteFrame, [])
      | Some packet_nr =>
          (back_off (set_delivery self (InFlight (mk_inflight v (mk_inflight_packet packet_nr (current_time context))))),
           Ok tt, [f])
      end
  | None => (self, Ok tt, [])
  end.
Definition has_delivered (self : t) : bool := delivered self.
Definition transmission_interest (self : t) : list Interest := Delivery.transmission_interest (delivery self).
End PeriodicSync.

(** ** A value sent once *)
Module OnceSync.
Section T.
Context {T : Type}.
Record t := mk { delivery : DeliveryState T }.

Definition new : t := mk NotRequested.
Definition is_inflight (self : t) : bool := Delivery.is_inflight (delivery self).
Definition is_cancelled (self : t) : bool := Delivery.is_cancelled (delivery self).
Definition request_delivery (self : t) (v : T) : t :=
  match delivery self with NotRequested => mk (Requested v) | _ => self end.
Definition force_delivery (self : t) (v : T) : t := mk (Requested v).
Definition stop_sync (self : t) : t := mk (Delivery.cancel (delivery self)).
(** [Poll::Ready] is [true]. *)
Definition on_packet_ack (self : t) (contains : Z -> bool) : t * bool :=
  match delivery self with
  | InFlight in_flight =>
      if contains (packet_nr (packet in_flight)) then (mk (Delivered (value in_flight)), true) else (self, false)
  | _ => (self, false)
  end.
Definition on_packet_loss (self : t) (contains : Z -> bool) : t :=
  match delivery self with
  | InFlight in_flight => if contains (packet_nr (packet in_flight)) then mk (Lost (value in_flight)) else self
  | _ => self
  end.
Definition on_transmit (writer : FrameWriter T) (self : t) (stream_id : Z) (context : Writer) : transmitted t :=
  match Delivery.try_transmit (delivery self) (transmission_constraint context) with
  | Some v =>
      let f := writer v stream_id in
      match write_frame context [] f with
      | None => (self, Err CouldNotWriteFrame, [])
      | Some packet_nr =>
          (mk (InFlight (mk_inflight v (mk_inflight_packet packet_nr (current_time context)))), Ok tt, [f])
      end
  | None => (self, Ok tt, [])
  end.
Definition transmission_interest (self : t) : list Interest := Delivery.transmission_interest (delivery self).
End T.
Arguments t : clear implicits.
End OnceSync.

(** ** A flag *)
Module Flag.
Inductive State :=
| Idle
| RequiresTransmission
| RequiresRetransmission
| FlagInFlight (stable latest : Z)
| FlagDelivered.

Definition is_idle (self : State) : bool := match self with Idle => true | _ => false end.
Definition is_delivered (self : State) : bool := match self with FlagDelivered => true | _ => false end.
Definition send (self : State) : State := if is_idle self || is_delivered self then RequiresTransmission else self.
Definition finish (self : State) : State := FlagDelivered.
Definition on_packet_ack (self : State) (contains : Z -> bool) : State * bool :=
  match self with
  | FlagInFlight stable latest => if contains stable || contains latest then (finish self, true) else (self, false)
  | _ => (self, false)
  end.
Definition on_packet_loss (self : State) (contains : Z -> bool) : State * bool :=
  match self with
  | FlagInFlight stable latest =>
      let '(stable, lost) := if contains stable then (latest, true) else (stable, false) in
      if contains latest then (RequiresRetransmission, true) else (FlagInFlight stable latest, lost)
  | _ => (self, false)
  end.
(** [write] is the writer of the flag applied to the context: the packet that
    carries the flag, if it was written. *)
Definition on_transmit (self : State) (constraint : Constraint) (write : option Z) : State :=
  match self with
  | RequiresTransmission =>
      if ConstraintOps.can_transmit constraint
      then match write with Some pn => FlagInFlight pn pn | None => self end else self
  | RequiresRetransmission =>
      if ConstraintOps.can_retransmit constraint
      then match write with Some pn => FlagInFlight pn pn | None => self end else self
  | FlagInFlight stable latest =>
      if ConstraintOps.can_transmit constraint
      then match write with Some pn => FlagInFlight stable pn | None => self end else self
  | _ => self
  end.
Definition transmission_interest (self : State) : list Interest :=
  match self with
  | RequiresTransmission => [NewData]
  | RequiresRetransmission => [LostData]
  | _ => []
  end.

(** [PingWriter]. *)
Definition ping_write_frame (context : Writer) : option Z * list frame :=
  if is_ack_eliciting (ack_elicitation context) then (Some (packet_number context), [])
  else match write_frame context [] (Frame.Ping Ping.mk) with
       | Some pn => (Some pn, [Frame.Ping Ping.mk])
       | None => (None, [])
       end.
End Flag.
