(* ===== verification/FlowControl.v ===== *)
(** * Connection flow control

    [stream/incoming_connection_flow_controller.rs] and
    [stream/outgoing_connection_flow_controller.rs].  The controllers are shared
    between streams behind [Rc<RefCell<..>>], borrowed for one call at a time;
    the model passes the inner state. *)
From S2P Require Import Prelude Codec VarInt PacketNumber FrameAck Frames Time Transmission Recovery Sync.

(** [transport::Error]: the codes that flow control and streams use; the reason
    and the frame type that go with it are left out. *)
Inductive TransportError := FLOW_CONTROL_ERROR | FINAL_SIZE_ERROR.

Module Incoming.
Record t := mk {
  read_window_sync : IncrementalValueSync.t;
  desired_flow_control_window : Z;
  acquired_window : Z;
  consumed_window : Z
}.

(** [MaxDataToFrameWriter]. *)
Definition max_data_writer : FrameWriter Z := fun value _ => Frame.MaxData (MaxData.mk value).

Definition new (initial_window_size desired_flow_control_window : Z) : outcome t :=
  let! sync := IncrementalValueSync.new desired_flow_control_window initial_window_size
                 (desired_flow_control_window / 10) in
  Ret (mk sync desired_flow_control_window 0 0).

Definition remaining_window (self : t) : outcome Z :=
  VarInt.sub (IncrementalValueSync.latest_value (read_window_sync self)) (acquired_window self).

Definition release_window (self : t) (amount : Z) : outcome t :=
  let! consumed := VarInt.add (consumed_window self) amount in
  let! _ := rassert (consumed <=? acquired_window self) in
  let! sync := IncrementalValueSync.update_latest_value (read_window_sync self)
                 (VarInt.saturating_add consumed (desired_flow_control_window self)) in
  Ret (mk sync (desired_flow_control_window self) (acquired_window self) consumed).

(** [&mut self] methods give the state back next to their result. *)
Definition acquire_window (self : t) (desired : Z) : outcome (t * result unit TransportError) :=
  let! remaining := remaining_window self in
  if remaining <? desired then Ret (self, Err FLOW_CONTROL_ERROR) else
  let! acquired := VarInt.add (acquired_window self) desired in
  Ret (mk (read_window_sync self) (desired_flow_control_window self) acquired (consumed_window self), Ok tt).

Definition set_sync (self : t) (s : IncrementalValueSync.t) : t :=
  mk s (desired_flow_control_window self) (acquired_window self) (consumed_window self).
Definition on_packet_ack (self : t) (contains : Z -> bool) : t :=
  set_sync self (IncrementalValueSync.on_packet_ack (read_window_sync self) contains).
Definition on_packet_loss (self : t) (contains : Z -> bool) : t :=
  set_sync self (IncrementalValueSync.on_packet_loss (read_window_sync self) contains).
Definition on_transmit (self : t) (context : Writer) : transmitted t :=
  let '(s, r, fs) := IncrementalValueSync.on_transmit max_data_writer (read_window_sync self) 0 context in
  (set_sync self s, r, fs).
Definition transmission_interest (self : t) : list Interest :=
  IncrementalValueSync.transmission_interest (read_window_sync self).
End Incoming.

Module Outgoing.
Record t := mk {
  total_available_window : Z;
  available_window : Z;
  data_blocked_sync : PeriodicSync.t
}.

Definition new (initial_window_size : Z) : t := mk initial_window_size initial_window_size PeriodicSync.new.

Definition acquired_window (self : t) : outcome Z := VarInt.sub (total_available_window self) (available_window self).

(** The state, and the window handed out. *)
Definition acquire_window (self : t) (desired : Z) : outcome (t * Z) :=
  let result := Z.min (available_window self) desired in
  let! available := VarInt.sub (available_window self) result in
  let! sync :=
    if result <? desired
    then PeriodicSync.request_delivery (data_blocked_sync self) (total_available_window self)
    else Ret (data_blocked_sync self) in
  Ret (mk (total_available_window self) available sync, result).

Definition on_max_data (self : t) (frame : MaxData.t) : outcome t :=
  if MaxData.maximum_data frame <=? total_available_window self then Ret self else
  let! increment := VarInt.sub (MaxData.maximum_data frame) (total_available_window self) in
  let! available := VarInt.add (available_window self) increment in
  Ret (mk (MaxData.maximum_data frame) available (PeriodicSync.stop_sync (data_blocked_sync self))).

(** [DataBlockedToFrameWriter]. *)
Definition data_blocked_writer : FrameWriter Z := fun value _ => Frame.DataBlocked (DataBlocked.mk value).

Definition set_sync (self : t) (s : PeriodicSync.t) : t :=
  mk (total_available_window self) (available_window self) s.
Definition on_packet_ack (self : t) (contains : Z -> bool) : outcome t :=
  let! s := PeriodicSync.on_packet_ack (data_blocked_sync self) contains in Ret (set_sync self s).
Definition on_packet_loss (self : t) (contains : Z -> bool) : t :=
  set_sync self (PeriodicSync.on_packet_loss (data_blocked_sync self) contains).
Definition update_blocked_sync_period (self : t) (blocked_sync_period : Z) : t :=
  set_sync self (PeriodicSync.update_sync_period (data_blocked_sync self) blocked_sync_period).
Definition on_transmit (self : t) (context : Writer) : outcome (transmitted t) :=
  if is_ack_eliciting (ack_elicitation context) && PeriodicSync.has_delivered (data_blocked_sync self) then
    let! s := PeriodicSync.skip_delivery (data_blocked_sync self) (current_time context) in
    Ret (set_sync self s, Ok tt, [])
  else
    let '(s, r, fs) := PeriodicSync.on_transmit data_blocked_writer (data_blocked_sync self) 0 context in
    Ret (set_sync self s, r, fs).
Definition on_timeout (self : t) (now : Z) : outcome t :=
  let! s := PeriodicSync.on_timeout (data_blocked_sync self) now in Ret (set_sync self s).
Definition transmission_interest (self : t) : list Interest :=
  PeriodicSync.transmission_interest (data_blocked_sync self).
End Outgoing.
