(* ===== verification/FlowControlThm.v ===== *)
(** * Properties of connection flow control

    Both controllers against each other over an arbitrary network: the sender
    never oversteps the receiver's limit, the receiver's buffers stay bounded,
    and credit is never withheld. *)
From S2P Require Import Prelude Codec VarInt PacketNumber FrameAck Frames Time Transmission Recovery Sync FlowControl.

(** ** The value that grows *)
Section incremental.
Import IncrementalValueSync.

(** The difference below which no update is sent. *)
Definition slack (s : t) : Z := Z.max 1 (threshold s).

Definition ivs_ok (s : t) : Prop :=
  0 <= value_ackd_up_to s <= latest_value s
  /\ match delivery s with
     | NotRequested => latest_value s - value_ackd_up_to s < slack s
     | InFlight d => value_ackd_up_to s <= value d <= latest_value s /\ latest_value s - value d < slack s
     | Requested _ | Lost _ => True
     | Delivered _ | Cancelled _ => False
     end.

(** What asking for a delivery leaves behind, the value having grown. *)
Lemma request_delivery_ok s :
  0 <= value_ackd_up_to s <= latest_value s ->
  match delivery s with
  | InFlight d => value_ackd_up_to s <= value d <= latest_value s
  | NotRequested | Requested _ | Lost _ => True
  | _ => False
  end ->
  exists s', request_delivery_if_necessary s = Ret s' /\ ivs_ok s'
    /\ latest_value s' = latest_value s /\ value_ackd_up_to s' = value_ackd_up_to s /\ threshold s' = threshold s
    /\ (delivery s' = delivery s \/ delivery s' = Requested (latest_value s)).
Proof.
  intros H1 H2. unfold request_delivery_if_necessary, should_send_update. destruct s as [l a th d]. cbn in *.
  destruct d as [| v | v | [v pk] | v | v]; cbn in *; try done.
  all: destruct (Z.eqb_spec l a); cbn [negb obind]; rewrite ?varint_sub_Ret by lia; cbn [obind];
    try (destruct (Z.leb_spec th (l - a))); try (destruct (Z.leb_spec th (l - v)));
    eexists; (split; [reflexivity |]); unfold ivs_ok, slack; cbn; repeat split; auto; lia.
Qed.

Lemma update_latest_ok s v :
  ivs_ok s -> latest_value s <= v ->
  exists s', update_latest_value s v = Ret s' /\ ivs_ok s'
    /\ latest_value s' = v /\ value_ackd_up_to s' = value_ackd_up_to s /\ threshold s' = threshold s
    /\ (delivery s' = delivery s \/ delivery s' = Requested v).
Proof.
  intros [H1 H2] Hv. unfold update_latest_value. rewrite (proj2 (Z.leb_le _ _)) by lia. cbn [rassert obind].
  apply request_delivery_ok; cbn; [lia |]. destruct (delivery s); done || lia.
Qed.

Lemma ivs_ack_ok s c :
  ivs_ok s ->
  let s' := on_packet_ack s c in
  ivs_ok s' /\ latest_value s' = latest_value s /\ threshold s' = threshold s
  /\ (s' = s \/ exists d, delivery s = InFlight d /\ delivery s' = NotRequested /\ value_ackd_up_to s' = value d).
Proof.
  intros [H1 H2]. unfold on_packet_ack. destruct (delivery s) as [| | | d | |] eqn:E; cbn; unfold ivs_ok; try (rewrite E; auto; fail).
  destruct (c _); cbn; [| rewrite E; auto]. unfold slack in *; cbn. split; [lia |]. split; [done |]. split; [done |]. right. by exists d.
Qed.

Lemma ivs_loss_ok s c :
  ivs_ok s ->
  let s' := on_packet_loss s c in
  ivs_ok s' /\ latest_value s' = latest_value s /\ threshold s' = threshold s
  /\ value_ackd_up_to s' = value_ackd_up_to s
  /\ (s' = s \/ exists d, delivery s = InFlight d /\ delivery s' = Lost (latest_value s)).
Proof.
  intros [H1 H2]. unfold on_packet_loss. destruct (delivery s) as [| | | d | |] eqn:E; cbn; unfold ivs_ok; try (rewrite E; auto 6; fail).
  destruct (c _); cbn; [| rewrite E; auto 6]. split; [lia |]. do 3 (split; [done |]). right. by exists d.
Qed.

(** A transmission sends the latest value, or nothing. *)
Lemma ivs_transmit_ok wr s id w :
  ivs_ok s ->
  let '(s', r, fs) := on_transmit wr s id w in
  ivs_ok s' /\ latest_value s' = latest_value s /\ threshold s' = threshold s
  /\ value_ackd_up_to s' = value_ackd_up_to s
  /\ ((s' = s /\ fs = []) \/ (fs = [wr (latest_value s) id]
      /\ exists pk, delivery s' = InFlight (mk_inflight (latest_value s) pk)))
  /\ (transmission_constraint w = Unconstrained -> write_frame w [] (wr (latest_value s) id) <> None ->
      transmission_interest s <> [] -> fs = [wr (latest_value s) id]).
Proof.
  intros [H1 H2]. unfold on_transmit, Delivery.try_transmit, transmission_interest, Delivery.transmission_interest.
  destruct (delivery s) as [| v | v | d | v | v] eqn:E; cbn; unfold ivs_ok; try (rewrite E; auto 8; fail).
  all: destruct (transmission_constraint w); cbn; try (rewrite E; split; [done |]; do 3 (split; [done |]); split; [by left | done]).
  all: destruct (write_frame w _ _) eqn:Ew; cbn; [| rewrite E; split; [done |]; do 3 (split; [done |]); split; [by left | done]].
  all: unfold slack; cbn; split; [lia |]; do 3 (split; [done |]); split; [right; split; [done | eauto] | done].
Qed.
End incremental.

(** ** The value sent periodically *)
Section periodic.
Import PeriodicSync.

(** A delivery is under way or scheduled. *)
Definition active (s : t) : Prop :=
  match delivery s with NotRequested | Cancelled _ => Timer.expiration (delivery_timer s) <> None | _ => True end.

Definition MAX_SYNC_PERIOD : Z := Duration.from_micros (2 ^ 46).

Definition ps_ok (total : Z) (s : t) : Prop :=
  0 <= latest_value s <= total /\ 0 <= sync_period s <= MAX_SYNC_PERIOD /\ 1 <= transmission_backoff s <= umax 16
  /\ (forall d, delivery s = InFlight d -> timestamp_ok (timestamp (packet d)))
  /\ (active s -> latest_value s = total).

Lemma ps_new_ok total : 0 <= total -> ps_ok total new.
Proof.
  intros H. unfold ps_ok, active, MAX_SYNC_PERIOD, new, DEFAULT_SYNC_PERIOD, Duration.from_millis, Duration.from_micros, umax, INITIAL_BACKOFF.
  cbn. naive_solver lia.
Qed.

Lemma back_off_ok s :
  1 <= transmission_backoff s <= umax 16 -> 1 <= transmission_backoff (back_off s) <= umax 16.
Proof. unfold back_off, umax. cbn [transmission_backoff]. lia. Qed.

Lemma update_timer_ok s now :
  timestamp_ok now -> 0 <= sync_period s <= MAX_SYNC_PERIOD -> 1 <= transmission_backoff s <= umax 16 ->
  exists s', update_timer s now = Ret s' /\ latest_value s' = latest_value s /\ sync_period s' = sync_period s
    /\ delivery s' = delivery s /\ delivered s' = delivered s /\ transmission_backoff s' = transmission_backoff s.
Proof.
  unfold MAX_SYNC_PERIOD, Duration.from_micros, umax. intros Hn Hp Hb. unfold update_timer, sync_period_backed_off, Duration.mul.
  assert (0 <= transmission_backoff s * sync_period s <= (2 ^ 16 - 1) * (2 ^ 46 * 1000)) by nia.
  destruct (Z.leb_spec (transmission_backoff s * sync_period s) Duration.MAX); [| unfold Duration.MAX in *; lia].
  cbn [obind]. rewrite timestamp_add_wide by (unfold Duration.from_micros; done || lia). cbn [obind]. by eexists.
Qed.

Lemma ps_request_ok total s :
  ps_ok total s ->
  exists s', request_delivery s total = Ret s' /\ ps_ok total s'
    /\ match delivery s' with NotRequested | Cancelled _ => False | _ => True end.
Proof.
  intros (H1 & H2 & H3 & H4 & H5). unfold request_delivery. rewrite (proj2 (Z.leb_le _ _)) by lia. cbn [rassert obind].
  eexists. split; [reflexivity |]. cbn.
  destruct (delivery s) eqn:E; unfold ps_ok, active; cbn; rewrite ?E; (split; [| done]); split_and!; try lia; naive_solver.
Qed.

Lemma ps_skip_ok total s now :
  ps_ok total s -> timestamp_ok now -> exists s', skip_delivery s now = Ret s' /\ ps_ok total s'.
Proof.
  intros Hs Hn. pose proof Hs as (H1 & H2 & H3 & H4 & H5). unfold skip_delivery.
  assert (Hgo : forall s0, latest_value s0 = latest_value s -> sync_period s0 = sync_period s ->
    transmission_backoff s0 = transmission_backoff s -> latest_value s = total ->
    (forall d, delivery s0 <> InFlight d) -> exists s', update_timer (back_off s0) now = Ret s' /\ ps_ok total s').
  { intros s0 E1 E2 E3 E4 E5. destruct (update_timer_ok (back_off s0) now) as (s' & E & L & Pd & D & _ & B);
      [done | by rewrite <- E2 in H2 | apply back_off_ok; lia |].
    exists s'. split; [done |]. unfold ps_ok. rewrite L, Pd, D, B.
    pose proof (back_off_ok s0 ltac:(lia)). cbn [back_off latest_value sync_period delivery] in *.
    rewrite E1, E2. split; [lia |]. split; [lia |]. split; [lia |]. split; [by intros d Hd%E5 | done]. }
  unfold active in H5. destruct (delivery s) eqn:E; try (by exists s).
  all: apply Hgo; first [done | by apply H5 | cbn; by rewrite E].
Qed.

Lemma ps_timeout_ok total s now :
  ps_ok total s -> timestamp_ok now -> exists s', on_timeout s now = Ret s' /\ ps_ok total s'.
Proof.
  intros (H1 & H2 & H3 & H4 & H5) Hn. unfold on_timeout.
  destruct (timer_poll_ok (delivery_timer s) now Hn) as (ready & tm & -> & Ht & Hf & Hr). cbn [obind].
  eexists. split; [reflexivity |]. destruct ready.
  - assert (latest_value s = total).
    { apply H5. unfold active. destruct Hr as [Hr _]. destruct (Hr eq_refl) as (x & -> & _). by destruct (delivery s). }
    unfold ps_ok, active; cbn. split_and!; try lia; naive_solver.
  - rewrite Hf by done. done.
Qed.

Lemma ps_stop_ok total total' s : ps_ok total s -> total <= total' -> ps_ok total' (stop_sync s).
Proof.
  intros (H1 & H2 & H3 & H4 & H5) Ht. unfold ps_ok, active, stop_sync; cbn.
  split; [lia |]. split; [lia |]. split; [unfold umax, INITIAL_BACKOFF; lia |].
  destruct (delivery s); cbn; naive_solver.
Qed.

Lemma ps_ack_ok total s c : ps_ok total s -> exists s', on_packet_ack s c = Ret s' /\ ps_ok total s'.
Proof.
  intros Hs. pose proof Hs as (H1 & H2 & H3 & H4 & H5). unfold on_packet_ack.
  destruct (delivery s) as [| | | d | |] eqn:E; try (by exists s). destruct (c _); [| by exists s]. cbn [obind].
  match goal with |- context [update_timer ?x ?y] => destruct (update_timer_ok x y) as (s' & -> & L & Pd & D & _ & B) end;
    [by apply H4 | done | done |].
  cbn [obind]. eexists. split; [reflexivity |]. unfold ps_ok, active. cbn in *. rewrite L, Pd, B.
  split; [done |]. split; [done |]. split; [done |]. split; [done |]. intros _. apply H5. unfold active. by rewrite E.
Qed.

Lemma ps_loss_ok total s c : ps_ok total s -> ps_ok total (on_packet_loss s c).
Proof.
  intros Hs. pose proof Hs as (H1 & H2 & H3 & H4 & H5). unfold on_packet_loss.
  destruct (delivery s) as [| | | d | |] eqn:E; try done. destruct (c _); [| done]. unfold ps_ok, active in *; cbn.
  rewrite E in H5. do 3 (split; [done |]). split; [done | exact H5].
Qed.

Lemma ps_transmit_ok total wr s id w :
  ps_ok total s -> timestamp_ok (current_time w) ->
  let '(s', r, fs) := on_transmit wr s id w in ps_ok total s' /\ (fs = [] \/ fs = [wr total id]).
Proof.
  intros Hs Hw. pose proof Hs as (H1 & H2 & H3 & H4 & H5). unfold on_transmit, Delivery.try_transmit.
  unfold active in H5.
  destruct (delivery s) as [| v | v | d | v | v] eqn:E; try (split; [done | by left]).
  all: destruct (transmission_constraint w); cbn; try (split; [done | by left]).
  all: destruct (write_frame w _ _); [| split; [done | by left]].
  all: split; [| right; by rewrite H5].
  all: unfold ps_ok, active.
  all: pose proof (back_off_ok s H3); cbn in *; split; [done |]; split; [done |]; split; [done |].
  all: split; [by intros d [= <-] | by intros _; apply H5].
Qed.
End periodic.

(** ** Both ends and the network *)

(** [limits] are the MAX_DATA values that were put on the wire, the initial limit
    included; [flight] the bytes sent and not yet received; [blocked] the limits
    announced in DATA_BLOCKED frames, with the sender's limit at that time. *)
Record Net := mk_net {
  rx : Incoming.t;
  tx : Outgoing.t;
  limits : list Z;
  flight : Z;
  blocked : list (Z * Z)
}.

Inductive NetEvent :=
| Send (desired : Z)
| Deliver (n : Z)
| Consume (n : Z)
| RxTransmit (w : Writer)
| RxAck (contains : Z -> bool)
| RxLoss (contains : Z -> bool)
| TxMaxData (v : Z)
| TxTransmit (w : Writer)
| TxAck (contains : Z -> bool)
| TxLoss (contains : Z -> bool)
| TxTimeout (now : Z)
| TxPeriod (d : Z).

Definition max_data_of (f : frame) : list Z := match f with Frame.MaxData m => [MaxData.maximum_data m] | _ => [] end.
Definition data_blocked_of (f : frame) : list Z := match f with Frame.DataBlocked d => [DataBlocked.data_limit d] | _ => [] end.

Definition with_rx (n : Net) (r : Incoming.t) : Net := mk_net r (tx n) (limits n) (flight n) (blocked n).
Definition with_tx (n : Net) (t : Outgoing.t) : Net := mk_net (rx n) t (limits n) (flight n) (blocked n).

Definition net_step (n : Net) (e : NetEvent) : outcome (result Net TransportError) :=
  match e with
  | Send desired =>
      let! '(t, got) := Outgoing.acquire_window (tx n) desired in
      Ret (Ok (mk_net (rx n) t (limits n) (flight n + got) (blocked n)))
  | Deliver k =>
      let! '(r, res) := Incoming.acquire_window (rx n) k in
      match res with
      | Ok _ => Ret (Ok (mk_net r (tx n) (limits n) (flight n - k) (blocked n)))
      | Err e => Ret (Err e)
      end
  | Consume k => let! r := Incoming.release_window (rx n) k in Ret (Ok (with_rx n r))
  | RxTransmit w =>
      let '(r, _, fs) := Incoming.on_transmit (rx n) w in
      Ret (Ok (mk_net r (tx n) (limits n ++ flat_map max_data_of fs) (flight n) (blocked n)))
  | RxAck c => Ret (Ok (with_rx n (Incoming.on_packet_ack (rx n) c)))
  | RxLoss c => Ret (Ok (with_rx n (Incoming.on_packet_loss (rx n) c)))
  | TxMaxData v => let! t := Outgoing.on_max_data (tx n) (MaxData.mk v) in Ret (Ok (with_tx n t))
  | TxTransmit w =>
      let! '(t, _, fs) := Outgoing.on_transmit (tx n) w in
      Ret (Ok (mk_net (rx n) t (limits n) (flight n)
        (blocked n ++ map (fun l => (l, Outgoing.total_available_window (tx n))) (flat_map data_blocked_of fs))))
  | TxAck c => let! t := Outgoing.on_packet_ack (tx n) c in Ret (Ok (with_tx n t))
  | TxLoss c => Ret (Ok (with_tx n (Outgoing.on_packet_loss (tx n) c)))
  | TxTimeout now => let! t := Outgoing.on_timeout (tx n) now in Ret (Ok (with_tx n t))
  | TxPeriod d => Ret (Ok (with_tx n (Outgoing.update_blocked_sync_period (tx n) d)))
  end.

(** What can happen: at most the bytes in flight arrive, at most the bytes that
    have arrived are consumed, and only a MAX_DATA that was sent is received,
    in any order and any number of times. *)
Definition enabled (n : Net) (e : NetEvent) : Prop :=
  match e with
  | Send desired => varint_ok desired
  | Deliver k => 0 <= k <= flight n
  | Consume k => 0 <= k <= Incoming.acquired_window (rx n) - Incoming.consumed_window (rx n)
  | TxMaxData v => v ∈ limits n
  | TxTransmit w => timestamp_ok (current_time w)
  | TxTimeout now => timestamp_ok now
  | TxPeriod d => 0 <= d <= MAX_SYNC_PERIOD
  | RxTransmit _ | RxAck _ | RxLoss _ | TxAck _ | TxLoss _ => True
  end.

Definition net_init (initial desired : Z) : outcome Net :=
  let! r := Incoming.new initial desired in
  Ret (mk_net r (Outgoing.new initial) [initial] 0 []).

Inductive reachable (initial desired : Z) : Net -> Prop :=
| reachable_init n : net_init initial desired = Ret n -> reachable initial desired n
| reachable_step n e n' :
    reachable initial desired n -> enabled n e -> net_step n e = Ret (Ok n') -> reachable initial desired n'.

(** The limit the receiver enforces. *)
Definition latest (n : Net) : Z := IncrementalValueSync.latest_value (Incoming.read_window_sync (rx n)).

Definition net_ok (desired : Z) (n : Net) : Prop :=
  let r := rx n in let t := tx n in let s := Incoming.read_window_sync r in
  ivs_ok s /\ IncrementalValueSync.threshold s = desired / 10
  /\ Incoming.desired_flow_control_window r = desired
  /\ 0 <= Incoming.consumed_window r <= Incoming.acquired_window r
  /\ latest n = Z.min MAX_VARINT_VALUE (Incoming.consumed_window r + desired)
  /\ ps_ok (Outgoing.total_available_window t) (Outgoing.data_blocked_sync t)
  /\ 0 <= Outgoing.available_window t /\ 0 <= flight n
  /\ Incoming.acquired_window r + flight n = Outgoing.total_available_window t - Outgoing.available_window t
  /\ Outgoing.total_available_window t ∈ limits n
  /\ (forall v, v ∈ limits n -> v <= latest n)
  /\ IncrementalValueSync.value_ackd_up_to s ∈ limits n
  /\ (forall d, IncrementalValueSync.delivery s = InFlight d -> value d ∈ limits n)
  /\ Forall (fun p => p.1 = p.2) (blocked n).

Section net.
Context (desired : Z).
Hypothesis Hdesired : 0 <= desired < 2 ^ 32.

Lemma saturating_add_spec a b : 0 <= a <= MAX_VARINT_VALUE -> 0 <= b < 2 ^ 32 ->
  VarInt.saturating_add a b = Z.min MAX_VARINT_VALUE (a + b).
Proof.
  intros Ha Hb. unfold VarInt.saturating_add, VarInt.unwrap_or, VarInt.new, Prelude.saturating_add, MAX_VARINT_VALUE, VarInt.MAX, umax in *.
  rewrite Z.min_l by lia. zcases; unfold MAX_VARINT_VALUE in *; lia.
Qed.

(** The sender. *)
Lemma net_send_ok n k : net_ok desired n -> varint_ok k -> exists n', net_step n (Send k) = Ret (Ok n') /\ net_ok desired n'.
Proof.
  intros (H1 & H2 & H3 & H4 & H5 & H6 & H7 & H8 & H9 & H10 & H) Hk. unfold varint_ok in Hk.
  cbn [net_step]. unfold Outgoing.acquire_window. rewrite varint_sub_Ret by lia. cbn [obind].
  destruct (Z.ltb_spec (Z.min (Outgoing.available_window (tx n)) k) k).
  - destruct (ps_request_ok _ _ H6) as (s' & -> & Hs & _). cbn [obind]. eexists. split; [reflexivity |].
    unfold net_ok, latest in *. cbn. do 5 (split; [done |]). split; [done |]. split; [lia |]. split; [lia |]. split; [lia | done].
  - cbn [obind]. eexists. split; [reflexivity |].
    unfold net_ok, latest in *. cbn. do 5 (split; [done |]). split; [done |]. split; [lia |]. split; [lia |]. split; [lia | done].
Qed.

Lemma net_max_data_ok n v : net_ok desired n -> v ∈ limits n -> exists n', net_step n (TxMaxData v) = Ret (Ok n') /\ net_ok desired n'.
Proof.
  intros Hn Hv. pose proof Hn as (H1 & H2 & H3 & H4 & H5 & H6 & H7 & H8 & H9 & H10 & H11 & H).
  pose proof (H11 v Hv) as Hvl. cbn [net_step]. unfold Outgoing.on_max_data. cbn [MaxData.maximum_data].
  destruct (Z.leb_spec v (Outgoing.total_available_window (tx n))); cbn [obind].
  - eexists. split; [reflexivity |]. destruct n; exact Hn.
  - rewrite varint_sub_Ret by lia. cbn [obind]. rewrite varint_add_Ret by lia. cbn [obind].
    eexists. split; [reflexivity |]. unfold net_ok, latest in *. cbn. do 5 (split; [done |]).
    split; [apply (ps_stop_ok (Outgoing.total_available_window (tx n))); done || lia |].
    split; [lia |]. split; [lia |]. split; [lia |]. done.
Qed.

(** A change of the sender's DATA_BLOCKED synchronisation alone. *)
Lemma net_sync_ok n s bs :
  net_ok desired n -> ps_ok (Outgoing.total_available_window (tx n)) s ->
  Forall (fun p => p.1 = p.2) bs ->
  net_ok desired (mk_net (rx n) (Outgoing.set_sync (tx n) s) (limits n) (flight n) bs).
Proof.
  intros (H1 & H2 & H3 & H4 & H5 & H6 & H7 & H8 & H9 & H10 & H11 & H12 & H13 & H14) Hs Hb.
  unfold net_ok, latest in *. cbn. do 13 (split; [done |]). done.
Qed.

Lemma net_tx_transmit_ok n w :
  net_ok desired n -> timestamp_ok (current_time w) -> exists n', net_step n (TxTransmit w) = Ret (Ok n') /\ net_ok desired n'.
Proof.
  intros Hn Hw. pose proof Hn as (_ & _ & _ & _ & _ & H6 & _ & _ & _ & _ & _ & _ & _ & H14).
  cbn [net_step]. unfold Outgoing.on_transmit. destruct (is_ack_eliciting _ && _).
  - destruct (ps_skip_ok _ _ _ H6 Hw) as (s' & -> & Hs). cbn [obind]. eexists. split; [reflexivity |].
    apply net_sync_ok; [done | done |]. cbn. by rewrite app_nil_r.
  - pose proof (ps_transmit_ok _ Outgoing.data_blocked_writer _ 0 w H6 Hw) as Ht.
    destruct (PeriodicSync.on_transmit _ _ _ _) as [[s' r] fs]. destruct Ht as [Hs Hfs]. cbn [obind].
    eexists. split; [reflexivity |]. apply net_sync_ok; [done | done |]. apply Forall_app. split; [done |].
    destruct Hfs as [-> | ->]; cbn; [done |]. by apply Forall_singleton.
Qed.

Lemma net_tx_other_ok n e :
  net_ok desired n -> enabled n e ->
  match e with TxAck _ | TxLoss _ | TxTimeout _ | TxPeriod _ => True | _ => False end ->
  exists n', net_step n e = Ret (Ok n') /\ net_ok desired n'.
Proof.
  intros Hn He Hk. pose proof Hn as (_ & _ & _ & _ & _ & H6 & _ & _ & _ & _ & _ & _ & _ & H14).
  destruct e as [| | | | | | | | c | c | now | d]; try done; cbn [net_step enabled] in *.
  - unfold Outgoing.on_packet_ack. destruct (ps_ack_ok _ _ c H6) as (s' & -> & Hs). cbn [obind].
    eexists. split; [reflexivity |]. by apply net_sync_ok.
  - eexists. split; [reflexivity |]. apply net_sync_ok; [done | | done]. by apply ps_loss_ok.
  - unfold Outgoing.on_timeout. destruct (ps_timeout_ok _ _ _ H6 He) as (s' & -> & Hs). cbn [obind].
    eexists. split; [reflexivity |]. by apply net_sync_ok.
  - eexists. split; [reflexivity |]. apply net_sync_ok; [done | | done].
    destruct H6 as (? & ? & ? & ? & ?). unfold ps_ok. cbn. do 3 (split; [done |]). done.
Qed.

(** The receiver. *)
Lemma net_deliver_ok n k : net_ok desired n -> 0 <= k <= flight n -> exists n', net_step n (Deliver k) = Ret (Ok n') /\ net_ok desired n'.
Proof.
  intros Hn Hk. pose proof Hn as (H1 & H2 & H3 & H4 & H5 & H6 & H7 & H8 & H9 & H10 & H11 & H).
  pose proof (H11 _ H10) as Hlim. unfold latest in *. cbn [net_step]. unfold Incoming.acquire_window, Incoming.remaining_window.
  rewrite varint_sub_Ret by lia. cbn [obind]. destruct (Z.ltb_spec (IncrementalValueSync.latest_value (Incoming.read_window_sync (rx n)) - Incoming.acquired_window (rx n)) k); [lia |].
  rewrite varint_add_Ret by lia. cbn [obind]. eexists. split; [reflexivity |].
  unfold net_ok, latest. cbn. do 3 (split; [done |]). split; [lia |]. do 3 (split; [done |]). split; [lia |]. split; [lia |]. done.
Qed.

Lemma net_consume_ok n k :
  net_ok desired n -> 0 <= k <= Incoming.acquired_window (rx n) - Incoming.consumed_window (rx n) ->
  exists n', net_step n (Consume k) = Ret (Ok n') /\ net_ok desired n'.
Proof.
  intros Hn Hk. pose proof Hn as (H1 & H2 & H3 & H4 & H5 & H6 & H7 & H8 & H9 & H10 & H11 & H12 & H13 & H14).
  pose proof (H11 _ H10) as Hlim. unfold latest in *. cbn [net_step]. unfold Incoming.release_window.
  rewrite varint_add_Ret by lia. cbn [obind]. rewrite (proj2 (Z.leb_le _ _)) by lia. cbn [rassert obind].
  rewrite H3, saturating_add_spec by lia.
  destruct (update_latest_ok (Incoming.read_window_sync (rx n)) (Z.min MAX_VARINT_VALUE (Incoming.consumed_window (rx n) + k + desired)))
    as (s' & -> & Hs & L & A & T & D); [done | lia |]. cbn [obind]. eexists. split; [reflexivity |].
  unfold net_ok, latest. cbn. rewrite L, A, T. do 3 (split; [done |]). split; [lia |]. split; [done |].
  do 5 (split; [done |]). split; [intros v Hv%H11; lia |]. split; [done |]. split; [| done].
  intros d Hd. destruct D as [D | D]; rewrite D in Hd; [by apply H13 | done].
Qed.

(** A change of the receiver's MAX_DATA synchronisation alone. *)
Lemma net_limits_ok n s fs :
  net_ok desired n -> ivs_ok s ->
  IncrementalValueSync.latest_value s = latest n -> IncrementalValueSync.threshold s = desired / 10 ->
  IncrementalValueSync.value_ackd_up_to s ∈ limits n ++ fs ->
  (forall d, IncrementalValueSync.delivery s = InFlight d -> value d ∈ limits n ++ fs) ->
  (forall v, v ∈ fs -> v <= latest n) ->
  net_ok desired (mk_net (Incoming.set_sync (rx n) s) (tx n) (limits n ++ fs) (flight n) (blocked n)).
Proof.
  intros (H1 & H2 & H3 & H4 & H5 & H6 & H7 & H8 & H9 & H10 & H11 & H12 & H13 & H14) Hs L T A D F.
  unfold net_ok, latest in *. cbn. rewrite L. do 9 (split; [done |]). split; [apply elem_of_app; by left |].
  split; [intros v [Hv | Hv]%elem_of_app; auto |]. done.
Qed.

Lemma net_rx_other_ok n e :
  net_ok desired n ->
  match e with RxTransmit _ | RxAck _ | RxLoss _ => True | _ => False end ->
  exists n', net_step n e = Ret (Ok n') /\ net_ok desired n'.
Proof.
  intros Hn Hk. pose proof Hn as (H1 & H2 & _ & _ & _ & _ & _ & _ & _ & _ & _ & H12 & H13 & _).
  destruct e as [| | | w | c | c | | | | | |]; try done; cbn [net_step].
  - unfold Incoming.on_transmit. pose proof (ivs_transmit_ok Incoming.max_data_writer _ 0 w H1) as Ht.
    destruct (IncrementalValueSync.on_transmit _ _ _ _) as [[s' r] fs]. destruct Ht as (Hs & L & T & A & Hfs & _).
    eexists. split; [reflexivity |]. apply net_limits_ok; [done | done | done | congruence | rewrite A; apply elem_of_app; by left | |].
    + intros d Hd. apply elem_of_app. destruct Hfs as [[-> ->] | [-> (pk & E)]]; [left; by apply H13 |].
      right. rewrite E in Hd. injection Hd as <-. cbn. by left.
    + destruct Hfs as [[-> ->] | [-> _]]; cbn; [by intros v ?%not_elem_of_nil |].
      by intros v ->%list_elem_of_singleton.
  - destruct (ivs_ack_ok _ c H1) as (Hs & L & T & D). eexists. split; [reflexivity |].
    unfold with_rx, Incoming.on_packet_ack. rewrite <- (app_nil_r (limits n)).
    apply net_limits_ok; [done | done | done | congruence | | | by intros v ?%not_elem_of_nil]; rewrite app_nil_r.
    + destruct D as [-> | (d & E & _ & ->)]; [done | by apply H13].
    + intros d Hd. destruct D as [E | (d' & _ & E & _)]; rewrite E in Hd; [by apply H13 | done].
  - destruct (ivs_loss_ok _ c H1) as (Hs & L & T & A & D). eexists. split; [reflexivity |].
    unfold with_rx, Incoming.on_packet_loss. rewrite <- (app_nil_r (limits n)).
    apply net_limits_ok; [done | done | done | congruence | | | by intros v ?%not_elem_of_nil]; rewrite app_nil_r.
    + by rewrite A.
    + intros d Hd. destruct D as [E | (d' & _ & E)]; rewrite E in Hd; [by apply H13 | done].
Qed.

Lemma net_step_ok n e : net_ok desired n -> enabled n e -> exists n', net_step n e = Ret (Ok n') /\ net_ok desired n'.
Proof.
  intros Hn He. destruct e; cbn [enabled] in He; eauto using net_send_ok, net_deliver_ok, net_consume_ok, net_max_data_ok,
    net_tx_transmit_ok; (by apply net_tx_other_ok) || (by apply net_rx_other_ok).
Qed.

Lemma net_init_ok initial :
  0 <= initial <= desired -> exists n, net_init initial desired = Ret n /\ net_ok desired n.
Proof.
  intros Hi. unfold net_init, Incoming.new, IncrementalValueSync.new. rewrite (proj2 (Z.leb_le _ _)) by lia. cbn [rassert obind].
  match goal with |- context [IncrementalValueSync.request_delivery_if_necessary ?s] =>
    destruct (request_delivery_ok s) as (s' & -> & Hs & L & A & T & D) end; [cbn; lia | done |].
  cbn [obind]. eexists. split; [reflexivity |]. unfold net_ok, latest. cbn in *. rewrite L, A, T.
  do 3 (split; [done |]). split; [lia |]. split; [unfold MAX_VARINT_VALUE; lia |].
  split; [apply ps_new_ok; lia |].
  split; [lia |]. split; [lia |]. split; [lia |]. split; [by left |].
  split; [intros v ->%list_elem_of_singleton; lia |]. split; [by left |]. split; [| done].
  intros d Hd. destruct D as [D | D]; rewrite D in Hd; done.
Qed.

Lemma reachable_ok initial n : 0 <= initial <= desired -> reachable initial desired n -> net_ok desired n.
Proof.
  intros Hi. induction 1 as [n E | n e n' _ IH He E].
  - destruct (net_init_ok initial Hi) as (n' & E' & H). congruence.
  - destruct (net_step_ok n e IH He) as (n'' & E' & H). congruence.
Qed.
End net.

(** C11: over any interleaving of sending, delivery, consumption, acknowledgement
    and loss, with MAX_DATA frames arriving late, repeatedly or out of order,
    neither controller panics and the receiver never reports a flow control
    error against the sender; the bytes handed out are exactly those received or
    in flight and stay below the limit, the receiver never holds more than its
    window, and every DATA_BLOCKED frame carries the sender's current limit. *)
Theorem flow_control_respected initial desired n :
  0 <= initial <= desired -> desired < 2 ^ 32 -> reachable initial desired n ->
  (forall e, enabled n e -> exists n', net_step n e = Ret (Ok n'))
  /\ Outgoing.acquired_window (tx n) = Ret (Incoming.acquired_window (rx n) + flight n)
  /\ Incoming.acquired_window (rx n) + flight n <= latest n
  /\ Incoming.acquired_window (rx n) - Incoming.consumed_window (rx n) <= desired
  /\ Forall (fun p => p.1 = p.2) (blocked n).
Proof.
  intros Hi Hd Hr. assert (Hok : net_ok desired n) by (eapply reachable_ok; [| | exact Hr]; lia).
  split; [intros e He; destruct (net_step_ok desired ltac:(lia) n e Hok He) as (n' & E & _); by exists n' |].
  destruct Hok as (H1 & H2 & H3 & H4 & H5 & H6 & H7 & H8 & H9 & H10 & H11 & H12 & H13 & H14). pose proof (H11 _ H10).
  split; [unfold Outgoing.acquired_window; rewrite varint_sub_Ret by lia; f_equal; lia |].
  split; [lia |]. split; [lia | done].
Qed.

(** A receiver with a window of 1000 bytes, of which the sender may use 100 at
    first: 150 bytes to send, 60 delivered and consumed. *)
Definition sample_net (received : Z) : Net :=
  mk_net (Incoming.mk (IncrementalValueSync.mk (1000 + received) 100 100 (Requested (1000 + received))) 1000 received received)
    (Outgoing.mk 100 0 (PeriodicSync.mk 100 PeriodicSync.DEFAULT_SYNC_PERIOD Timer.default (Requested 100) false 1))
    [100] (100 - received) [].

Lemma sample_net_reachable : reachable 100 1000 (sample_net 60).
Proof.
  pose (n0 := mk_net (Incoming.mk (IncrementalValueSync.mk 1000 100 100 (Requested 1000)) 1000 0 0) (Outgoing.new 100) [100] 0 []).
  assert (R0 : reachable 100 1000 n0) by (apply reachable_init; vm_compute; reflexivity).
  assert (R1 : reachable 100 1000 (sample_net 0)).
  { apply (reachable_step _ _ n0 (Send 150)); [exact R0 | | vm_compute; reflexivity].
    unfold enabled, varint_ok, MAX_VARINT_VALUE. lia. }
  pose (n2 := mk_net (Incoming.mk (IncrementalValueSync.mk 1000 100 100 (Requested 1000)) 1000 60 0) (tx (sample_net 0)) [100] 40 []).
  assert (R2 : reachable 100 1000 n2).
  { apply (reachable_step _ _ (sample_net 0) (Deliver 60)); [exact R1 | cbn; lia | vm_compute; reflexivity]. }
  apply (reachable_step _ _ n2 (Consume 60)); [exact R2 | cbn; lia | vm_compute; reflexivity].
Defined.

Lemma flow_control_respected_witness :
  Outgoing.acquired_window (tx (sample_net 60)) = Ret 100
  /\ Incoming.acquired_window (rx (sample_net 60)) - Incoming.consumed_window (rx (sample_net 60)) <= 1000.
Proof.
  destruct (flow_control_respected 100 1000 (sample_net 60)) as (_ & H & _ & H' & _); [lia | lia | exact sample_net_reachable |].
  split; [exact H | exact H'].
Defined.

(** ** Packets with a limit *)

(** The MAX_DATA frames in packets that were neither acknowledged nor declared lost,
    with the packet's number, and the limits the peer has: its transport parameter
    and those it acknowledged. *)
Record Tracked := mk_tracked { net : Net; outstanding : list (Z * Z); known : list Z }.

Definition in_packet (c : Z -> bool) (p : Z * Z) : bool := c p.1.
Definition track (T : Tracked) (e : NetEvent) (n' : Net) : Tracked :=
  match e with
  | RxTransmit w => mk_tracked n' (outstanding T ++ map (pair (packet_number w)) (drop (length (limits (net T))) (limits n'))) (known T)
  | RxAck c => mk_tracked n' (List.filter (fun p => negb (in_packet c p)) (outstanding T)) (known T ++ map snd (List.filter (in_packet c) (outstanding T)))
  | RxLoss c => mk_tracked n' (List.filter (fun p => negb (in_packet c p)) (outstanding T)) (known T)
  | _ => mk_tracked n' (outstanding T) (known T)
  end.

(** A frame that is written goes to the packet that is being written. *)
Definition numbered (e : NetEvent) : Prop :=
  match e with RxTransmit w => forall f p, write_frame w [] f = Some p -> p = packet_number w | _ => True end.

Inductive tracked_reachable (initial desired : Z) : Tracked -> Prop :=
| tracked_init n : net_init initial desired = Ret n -> tracked_reachable initial desired (mk_tracked n [] [initial])
| tracked_step T e n' :
    tracked_reachable initial desired T -> enabled (net T) e -> numbered e -> net_step (net T) e = Ret (Ok n') ->
    tracked_reachable initial desired (track T e n').

Lemma track_net T e n' : net (track T e n') = n'.
Proof. by destruct e. Qed.
Lemma tracked_net initial desired T : tracked_reachable initial desired T -> reachable initial desired (net T).
Proof. induction 1 as [n E | T e n' _ IH He _ E]; [by constructor |]. rewrite track_net. by econstructor. Qed.

Local Abbreviation sync n := (Incoming.read_window_sync (rx n)).
(** The value of the sync is with the peer, or in the packet it waits for. *)
Definition tracked_ok (T : Tracked) : Prop :=
  IncrementalValueSync.value_ackd_up_to (sync (net T)) ∈ known T
  /\ forall d, IncrementalValueSync.delivery (sync (net T)) = InFlight d -> (packet_nr (packet d), value d) ∈ outstanding T.

(** A step that does not send or hear of packets with a limit. *)
Lemma untracked_sync n e n' :
  match e with RxTransmit _ | RxAck _ | RxLoss _ => False | _ => True end -> net_step n e = Ret (Ok n') ->
  IncrementalValueSync.value_ackd_up_to (sync n') = IncrementalValueSync.value_ackd_up_to (sync n)
  /\ forall d, IncrementalValueSync.delivery (sync n') = InFlight d -> IncrementalValueSync.delivery (sync n) = InFlight d.
Proof.
  intros He E. destruct e; try done; cbn [net_step] in E; ret_inv E; simplify_eq; try done.
  - destruct r; [injection E as <-; cbn | done]. unfold Incoming.acquire_window in E0. ret_inv E0. destruct (_ <? _); [by simplify_eq |]. ret_inv E0. by simplify_eq.
  - unfold Incoming.release_window in E0. ret_inv E0. simplify_eq. cbn. unfold IncrementalValueSync.update_latest_value, IncrementalValueSync.request_delivery_if_necessary in *.
    repeat match goal with H : obind _ _ = Ret _ |- _ => ret_inv H; simplify_eq end.
    match goal with |- context [if ?b then _ else _] => destruct b end; cbn; by split.
Qed.

Lemma track_ok T e n' : tracked_ok T -> numbered e -> net_step (net T) e = Ret (Ok n') -> tracked_ok (track T e n').
Proof.
  intros [Hk Hf] Hn E. assert (Hother : match e with RxTransmit _ | RxAck _ | RxLoss _ => False | _ => True end -> tracked_ok (mk_tracked n' (outstanding T) (known T))).
  { intros He. destruct (untracked_sync _ _ _ He E) as [Ea Hd]. split; cbn; [by rewrite Ea | auto]. }
  destruct e as [| | | w | c | c | | | | | |]; try (by apply Hother); cbn [net_step track] in *; clear Hother.
  - unfold Incoming.on_transmit, IncrementalValueSync.on_transmit in E.
    destruct (Delivery.try_transmit _ _) as [v |].
    + destruct (write_frame w [] _) as [p |] eqn:Ew; injection E as <-; cbn [limits flat_map app]; rewrite drop_app_length.
      * specialize (Hn _ _ Ew) as ->. split; [exact Hk |]. intros d [= <-]. cbn. apply elem_of_app. right. by left.
      * split; [exact Hk |]. cbn. rewrite app_nil_r. exact Hf.
    + injection E as <-. cbn [limits flat_map app]. rewrite drop_app_length. split; [exact Hk |]. cbn. rewrite app_nil_r. exact Hf.
  - injection E as <-. unfold tracked_ok, with_rx, Incoming.on_packet_ack, IncrementalValueSync.on_packet_ack. cbn.
    destruct (IncrementalValueSync.delivery (sync (net T))) as [| | | d | |] eqn:Ed; cbn; rewrite ?Ed; try (split; [apply elem_of_app; by left | done]).
    specialize (Hf d eq_refl). destruct (c (packet_nr (packet d))) eqn:Ec; cbn.
    + split; [| done]. apply elem_of_app. right. apply list_elem_of_In, in_map_iff. exists (packet_nr (packet d), value d). split; [done |].
      apply filter_In. split; [by apply list_elem_of_In | done].
    + rewrite Ed. split; [apply elem_of_app; by left |]. intros d' [= <-]. apply list_elem_of_In, filter_In. split; [by apply list_elem_of_In |]. unfold in_packet. cbn. by rewrite Ec.
  - injection E as <-. unfold tracked_ok, with_rx, Incoming.on_packet_loss, IncrementalValueSync.on_packet_loss. cbn.
    destruct (IncrementalValueSync.delivery (sync (net T))) as [| | | d | |] eqn:Ed; cbn; rewrite ?Ed; try (split; [done | done]).
    specialize (Hf d eq_refl). destruct (c (packet_nr (packet d))) eqn:Ec; cbn; [split; [exact Hk | done] |].
    rewrite Ed. split; [exact Hk |]. intros d' [= <-]. apply list_elem_of_In, filter_In. split; [by apply list_elem_of_In |]. unfold in_packet. cbn. by rewrite Ec.
Qed.

Lemma tracked_reachable_ok initial desired T : 0 <= initial <= desired -> desired < 2 ^ 32 -> tracked_reachable initial desired T -> tracked_ok T.
Proof.
  intros Hi Hd. induction 1 as [n E | T e n' _ IH _ Hn E]; [| by apply track_ok]. unfold net_init, Incoming.new, IncrementalValueSync.new in E.
  rewrite (proj2 (Z.leb_le _ _)) in E by lia. cbn [rassert obind] in E.
  match type of E with context [IncrementalValueSync.request_delivery_if_necessary ?s] =>
    destruct (request_delivery_ok s) as (s' & Es & _ & _ & A & _ & D) end; [cbn; lia | done |].
  rewrite Es in E. injection E as <-. cbn in A, D. split; cbn; [rewrite A; by left |]. intros d Hd'. destruct D as [D | D]; rewrite D in Hd'; done.
Qed.

(** C18: credit is never withheld.  At any time a MAX_DATA frame is due, and the
    next packet that takes it carries the current limit; or the peer has
    acknowledged a limit within a tenth of the window of the current one; or a
    packet with such a limit is in flight, neither acknowledged nor declared lost.
    Once all data has been consumed, a sender that receives such a limit may send
    again. *)
Theorem flow_control_progress initial desired T :
  0 <= initial <= desired -> 0 < desired < 2 ^ 32 -> tracked_reachable initial desired T ->
  let n := net T in
  (Incoming.transmission_interest (rx n) <> []
   \/ exists v, (v ∈ known T \/ exists p, (p, v) ∈ outstanding T) /\ v ∈ limits n /\ latest n - v < Z.max 1 (desired / 10))
  /\ (Incoming.transmission_interest (rx n) <> [] -> forall w, transmission_constraint w = Unconstrained -> numbered (RxTransmit w) ->
      (forall f, write_frame w [] f <> None) ->
      exists n', net_step n (RxTransmit w) = Ret (Ok n') /\ (packet_number w, latest n) ∈ outstanding (track T (RxTransmit w) n') /\ latest n' = latest n)
  /\ (forall v, v ∈ limits n -> latest n - v < Z.max 1 (desired / 10) ->
      flight n = 0 -> Incoming.consumed_window (rx n) = Incoming.acquired_window (rx n) ->
      Incoming.consumed_window (rx n) + desired <= MAX_VARINT_VALUE ->
      exists n', net_step n (TxMaxData v) = Ret (Ok n')
        /\ desired - Z.max 1 (desired / 10) < Outgoing.available_window (tx n')).
Proof.
  intros Hi Hd Hr n. assert (Hok : net_ok desired n) by (eapply reachable_ok; [| | by apply tracked_net]; lia).
  destruct (tracked_reachable_ok initial desired T ltac:(lia) ltac:(lia) Hr) as [Hknown Hfl].
  pose proof Hok as (H1 & H2 & H3 & H4 & H5 & H6 & H7 & H8 & H9 & H10 & H11 & H12 & H13 & H14). split; [| split].
  - destruct H1 as [_ H1]. unfold slack in H1. rewrite H2 in H1.
    unfold Incoming.transmission_interest, IncrementalValueSync.transmission_interest, Delivery.transmission_interest, latest in *.
    destruct (IncrementalValueSync.delivery _) as [| | | d | |] eqn:E; try (by left); try done; right.
    + eexists. split; [left; exact Hknown | split; [exact H12 | done]].
    + exists (value d). split; [right; eexists; by apply Hfl | split; [by apply H13 | lia]].
  - intros Hint w Hw Hnum Hf. cbn [net_step track]. unfold Incoming.on_transmit.
    pose proof (ivs_transmit_ok Incoming.max_data_writer _ 0 w H1) as Ht.
    destruct (IncrementalValueSync.on_transmit _ _ _ _) as [[s' r] fs]. destruct Ht as (_ & L & _ & _ & _ & Hfs).
    rewrite (Hfs Hw (Hf _) Hint). eexists. split; [reflexivity |]. split; [| exact L].
    cbn [limits outstanding flat_map app]. apply elem_of_app. right. fold n. rewrite drop_app_length. by left.
  - intros v Hv Hlt Hflt Hc Hm. destruct (net_max_data_ok desired n v Hok Hv) as (n' & E & Hok'). exists n'. split; [done |].
    cbn [net_step] in E. unfold Outgoing.on_max_data in E. cbn [MaxData.maximum_data] in E.
    destruct (Z.leb_spec v (Outgoing.total_available_window (tx n))); cbn [obind] in E.
    + injection E as <-. cbn. lia.
    + pose proof (H11 v Hv). rewrite varint_sub_Ret in E by lia. cbn [obind] in E.
      rewrite varint_add_Ret in E by lia. cbn [obind] in E. injection E as <-. cbn. lia.
Qed.

(** The first MAX_DATA frame, in the packet with the number 3, is lost. *)
Definition limit_writer : Writer :=
  mk_writer 1000 Unconstrained Normal (fun _ => 1200) (fun _ _ => Some 3) (fun _ _ => Some 3) (fun _ _ => Ret 3) Frame.NonEliciting 3 20 16.
Definition limit_net (d : DeliveryState Z) (limits : list Z) : Net :=
  mk_net (Incoming.mk (IncrementalValueSync.mk 1000 100 100 d) 1000 0 0) (Outgoing.new 100) limits 0 [].
Definition limit_lost : Tracked := mk_tracked (limit_net (Lost 1000) [100; 1000]) [] [100].

Lemma limit_lost_reachable : tracked_reachable 100 1000 limit_lost.
Proof.
  pose (T0 := mk_tracked (limit_net (Requested 1000) [100]) [] [100]).
  assert (R0 : tracked_reachable 100 1000 T0) by (apply tracked_init; vm_compute; reflexivity).
  pose (n1 := limit_net (InFlight (mk_inflight 1000 (mk_inflight_packet 3 1000))) [100; 1000]).
  assert (R1 : tracked_reachable 100 1000 (track T0 (RxTransmit limit_writer) n1)).
  { apply tracked_step; [exact R0 | exact I | by intros f p [= <-] | vm_compute; reflexivity]. }
  apply (tracked_step _ _ _ (RxLoss (Z.eqb 3)) (limit_net (Lost 1000) [100; 1000])) in R1; [exact R1 | exact I | exact I | vm_compute; reflexivity].
Defined.

Lemma flow_control_progress_witness :
  exists n', net_step (net limit_lost) (RxTransmit limit_writer) = Ret (Ok n')
    /\ (3, 1000) ∈ outstanding (track limit_lost (RxTransmit limit_writer) n').
Proof.
  destruct (flow_control_progress 100 1000 limit_lost) as (_ & H & _); [lia | lia | exact limit_lost_reachable |].
  destruct (H ltac:(discriminate) limit_writer eq_refl ltac:(by intros f p [= <-]) ltac:(discriminate)) as (n' & E & Ho & _). exists n'. split; [exact E | exact Ho].
Defined.
