(* ===== verification/VarIntSet.v ===== *)
(** * Interval sets of stream offsets

    What the operations of an unlimited [IntervalSet<VarInt>] do to the offsets
    it holds, for the components that keep such sets. *)
From S2P Require Import Prelude VarInt Interval IntervalInsert IntervalRemove IntervalIntersect IntervalSet.

#[local] Existing Instance varint_bound.
#[local] Existing Instance varint_bound_spec.

(** The offsets of a set, and its invariant. *)
Definition offsets (s : IntervalSet Z) (x : Z) : Prop := members id s x.
Definition offsets_ok (s : IntervalSet Z) : Prop := set_ok varint_ok id s /\ limit s = None.

Lemma sorted_count (l : list (Interval Z)) lb :
  sorted_from varint_ok id lb l -> 0 <= lb -> vlen l <= Z.max 0 (VarInt.MAX + 1 - lb).
Proof.
  revert lb. induction l as [| i l IH]; intros lb Hl Hlb; [unfold vlen; cbn; lia |].
  destruct Hl as ((Hs & He & Hle) & Hlb' & Hl). unfold varint_ok, id in *. rewrite vlen_cons.
  specialize (IH (iend i + 2) Hl ltac:(lia)). unfold VarInt.MAX in *. lia.
Qed.

Lemma offsets_count s : offsets_ok s -> vlen (intervals s) <= USIZE_MAX.
Proof.
  intros [[[lb Hl]%sorted_sorted_from _] _]. destruct (intervals s) as [| i l] eqn:E; [done |].
  assert (H : sorted_from varint_ok id (istart i) (i :: l)) by (destruct Hl as (? & ? & ?); split; [done | split; [unfold id; lia | done]]).
  apply sorted_count in H; [| destruct Hl as ((Hs & _) & _); unfold varint_ok in Hs; lia].
  destruct Hl as ((Hs & _) & _). unfold varint_ok in Hs. unfold VarInt.MAX, MAX_VARINT_VALUE, USIZE_MAX, umax in *. lia.
Qed.

Lemma offsets_new : offsets_ok IntervalSetOps.new.
Proof. repeat split; done. Qed.
Lemma offsets_clear s : offsets_ok s -> offsets_ok (IntervalSetOps.clear s) /\ forall x, ~ offsets (IntervalSetOps.clear s) x.
Proof. intros [[_ Hl] Hn]. split; [repeat split; done |]. intros x. unfold offsets, members. cbn. rewrite mem_nil. tauto. Qed.

Lemma range_bounds a b : a <= b -> Interval.from_range_bounds (Included a) (Included b) = Ok (mk_iv a b).
Proof.
  intros H. unfold Interval.from_range_bounds, rbind, Interval.is_valid, le_b. cbn.
  destruct (Z.compare_spec a b); done || lia.
Qed.
Lemma range_iv_ok a b : 0 <= a -> a <= b -> b <= VarInt.MAX -> iv_ok varint_ok id (mk_iv a b).
Proof. intros. unfold iv_ok, varint_ok, VarInt.MAX, id in *. cbn. lia. Qed.

Lemma offsets_insert front s a b :
  offsets_ok s -> 0 <= a -> a <= b -> b <= VarInt.MAX ->
  returns (set_insert front s (Included a) (Included b)) (fun '(res, s') =>
    (exists m, res = Ok m) /\ offsets_ok s' /\ forall x, offsets s' x <-> offsets s x \/ a <= x <= b).
Proof.
  intros Hs Ha Hab Hb. pose proof Hs as [Hok Hlim].
  destruct (set_insert_spec front s _ _ _ Hok (offsets_count s Hs) (range_bounds a b Hab) (range_iv_ok a b Ha Hab Hb))
    as (res & s' & -> & Hs' & Hl' & H). eexists; split; [reflexivity |].
  destruct res as [m | e]; [| destruct H as (_ & _ & n & ? & _); congruence].
  split; [by exists m |]. split; [split; [done | congruence] | apply H].
Qed.

Lemma offsets_remove s a b :
  offsets_ok s -> 0 <= a -> a <= b -> b <= VarInt.MAX ->
  returns (IntervalSetOps.remove s (Included a) (Included b)) (fun '(res, s') =>
    res = Ok tt /\ offsets_ok s' /\ forall x, offsets s' x <-> offsets s x /\ ~ a <= x <= b).
Proof.
  intros Hs Ha Hab Hb. pose proof Hs as [Hok Hlim].
  destruct (set_remove_spec s _ _ _ Hok (offsets_count s Hs) (range_bounds a b Hab) (range_iv_ok a b Ha Hab Hb))
    as (res & s' & -> & Hs' & Hl' & H). eexists; split; [reflexivity |].
  destruct res as [[] | e]; [| destruct H as (_ & _ & n & ? & _); congruence].
  split; [done |]. split; [split; [done | congruence] | apply H].
Qed.

Lemma offsets_intersection s other :
  offsets_ok s -> offsets_ok other ->
  returns (IntervalSetOps.intersection s other) (fun '(res, s') =>
    res = Ok tt /\ offsets_ok s' /\ forall x, offsets s' x <-> offsets s x /\ offsets other x).
Proof.
  intros [Hs Hl] [Ho _].
  destruct (set_intersection_spec s other (S (length (intervals s) + length (intervals other))) Hs Ho) as (s' & -> & Hs' & Hl' & H & _);
    [lia |]. eexists; split; [reflexivity |]. split; [done |]. split; [split; [done | congruence] | done].
Qed.

(** The first interval, and the set without it. *)
Lemma offsets_pop s :
  offsets_ok s ->
  match IntervalSetOps.pop_min s with
  | (None, s') => s' = s /\ forall x, ~ offsets s x
  | (Some i, s') =>
      0 <= istart i /\ istart i <= iend i /\ iend i <= VarInt.MAX /\ offsets_ok s'
      /\ (forall x, offsets s' x -> iend i + 2 <= x)
      /\ (forall x, offsets s x <-> istart i <= x <= iend i \/ offsets s' x)
      /\ S (length (intervals s')) = length (intervals s)
  end.
Proof.
  intros [[Hs Hl] Hn]. unfold IntervalSetOps.pop_min, offsets, members, offsets_ok, set_ok.
  destruct s as [lim l]. cbn [intervals limit] in *. destruct l as [| i l]; cbn [intervals limit].
  { split; [done |]. intros x. rewrite mem_nil. tauto. }
  destruct Hs as ((Hsd & Hed & Hle) & _ & Hl'). unfold varint_ok, id in *.
  split; [lia |]. split; [lia |]. split; [unfold VarInt.MAX; lia |]. split.
  { split; [split; [| done] | done]. apply sorted_sorted_from. by eexists. }
  split; [| split; [intros x; by rewrite mem_cons | done]].
  intros x Hx. assert (G : forall lb (k : list (Interval Z)), sorted_from varint_ok id lb k -> mem id k x -> lb <= x).
  { clear. intros lb k. revert lb. induction k as [| j k IH]; intros lb Hk Hx; [by apply mem_nil in Hx |].
    destruct Hk as ((_ & _ & Hle) & Hlb & Hk). apply mem_cons in Hx as [Hx | Hx]; unfold in_iv, id in *; [lia |].
    specialize (IH _ Hk Hx). lia. }
  by apply (G _ l).
Qed.

Lemma offsets_min s :
  offsets_ok s ->
  match IntervalSetOps.min_value s with
  | None => IntervalSetOps.is_empty s = true /\ forall x, ~ offsets s x
  | Some a => IntervalSetOps.is_empty s = false /\ offsets s a /\ varint_ok a /\ forall x, offsets s x -> a <= x
  end.
Proof.
  intros Hs. pose proof (offsets_pop s Hs) as H. unfold IntervalSetOps.min_value, IntervalSetOps.is_empty, IntervalSetOps.pop_min in *.
  destruct (intervals s) as [| i l]; [split; [done | apply H] |].
  destruct H as (H0 & Hle & Hmax & _ & Hgt & Hx & _). split; [done |]. unfold varint_ok, VarInt.MAX in *.
  split; [apply Hx; lia |]. split; [lia |]. intros x [Hin | Hin]%Hx; [lia |]. specialize (Hgt x Hin). lia.
Qed.

Lemma offsets_empty s : offsets_ok s -> IntervalSetOps.is_empty s = true <-> forall x, ~ offsets s x.
Proof.
  intros Hs. pose proof (offsets_min s Hs) as H. destruct (IntervalSetOps.min_value s) as [a |].
  - destruct H as (-> & Ha & _). split; [done |]. intros Hx. by destruct (Hx a).
  - destruct H as (-> & Hx). done.
Qed.
