(* ===== verification/SendBuffer.v ===== *)
(** * The send buffer

    [sync/data_sender/buffer.rs]: the chunks of a stream that are not yet
    acknowledged, and views of ranges of them.  The chunks are [bytes::Bytes], a
    third-party type: an interface with the behaviour its documentation
    promises. *)
From S2P Require Import Prelude Codec VarInt Interval Frames.

(** ** The interface of [bytes::Bytes] *)

Class Bytes (B : Type) := {
  (** [Deref]: the bytes. *)
  bytes_slice : B -> list Z;
  (** [Buf::advance]: drop bytes from the front. *)
  bytes_advance : B -> Z -> outcome B
}.

Class BytesSpec (B : Type) {HB : Bytes B} :=
  bytes_advance_spec : forall b n, 0 <= n <= blen (bytes_slice b) ->
    exists b', bytes_advance b n = Ret b' /\ bytes_slice b' = drop (Z.to_nat n) (bytes_slice b).

Definition chunk_len {B} `{Bytes B} (chunk : B) : Z := blen (bytes_slice chunk).

#[local] Existing Instance varint_bound.

Module Buffer.
Section Ops.
Context {B : Type} `{Bytes B}.

Record t := mk { chunks : list B; head : Z; pending_len : Z }.

Definition default : t := mk [] 0 0.

Definition total_len (self : t) : outcome Z := VarInt.add (head self) (pending_len self).
Definition capacity (self : t) : outcome Z :=
  let! total := total_len self in VarInt.sub VarInt.MAX total.
Definition enqueued_len (self : t) : Z := pending_len self.
Definition is_empty (self : t) : bool := pending_len self =? 0.

Fixpoint sum_len (chunks : list B) (acc : Z) : outcome Z :=
  match chunks with
  | [] => Ret acc
  | chunk :: chunks => let! acc := add_c 64 acc (chunk_len chunk) in sum_len chunks acc
  end.
Definition check_integrity (self : t) : outcome unit :=
  let! actual := sum_len (chunks self) 0 in
  let! actual := unwrap (VarInt.ok (VarInt.new actual)) in
  rassert (actual =? pending_len self).

(** [push]: the interval of the stream the data covers. *)
Definition push (self : t) (data : B) : outcome (Interval Z * t) :=
  let! cap := capacity self in
  let! _ := rassert (chunk_len data <=? cap) in
  let! start := total_len self in
  let! len := unwrap (VarInt.ok (VarInt.new (chunk_len data))) in
  let! pending_len := VarInt.add (pending_len self) len in
  let self := mk (chunks self ++ [data]) (head self) pending_len in
  let! _ := check_integrity self in
  let! last := VarInt.sub len 1 in
  let! end_ := VarInt.add start last in
  Ret (mk_iv start end_, self).

Definition clear (self : t) : outcome t :=
  let self := mk [] 0 0 in
  let! _ := check_integrity self in
  Ret self.

(** [while let Some(chunk) = self.chunks.pop_front()]. *)
Fixpoint release_loop (chunks : list B) (head pending_len up_to : Z) : outcome t :=
  match chunks with
  | [] => Ret (mk [] head pending_len)
  | chunk :: chunks =>
      let! len := unwrap (VarInt.ok (VarInt.new (chunk_len chunk))) in
      let! end_ := VarInt.add head len in
      if end_ <=? up_to then
        let! pending_len := VarInt.sub pending_len len in
        release_loop chunks end_ pending_len up_to
      else
        let! consumed := VarInt.sub up_to head in
        let! pending_len := VarInt.sub pending_len consumed in
        let! chunk := bytes_advance chunk consumed in
        Ret (mk (chunk :: chunks) up_to pending_len)
  end.
Definition release (self : t) (up_to : Z) : outcome t :=
  if up_to <=? head self then Ret self else
  let! total := total_len self in
  let! _ := rassert (up_to <=? total) in
  let! self := release_loop (chunks self) (head self) (pending_len self) up_to in
  let! _ := check_integrity self in
  Ret self.

Definition release_all (self : t) : outcome t :=
  let! head := total_len self in
  let self := mk [] head 0 in
  let! _ := check_integrity self in
  Ret self.
End Ops.
Arguments t : clear implicits.
End Buffer.

(** A cursor into the chunks: the offset in the stream of the chunk at
    [chunk_index]. *)
Record Viewer := mk_viewer { viewer_offset : Z; viewer_chunk_index : Z }.

Definition viewer {B} (self : Buffer.t B) : Viewer := mk_viewer (Buffer.head self) 0.

(** A range of the stream: [len] bytes from [offset] of the chunk at
    [chunk_index] on. *)
Module View.
Record t := mk { chunk_index : Z; offset : Z; len : Z; is_fin : bool }.

Section Ops.
Context {B : Type} `{Bytes B}.

(** [for chunk in buffer.chunks.iter().skip(chunk_index)]: the cursor and the
    offset within the chunk. *)
Fixpoint find (chunks : list B) (stream_offset chunk_index start_inclusive : Z) : outcome (Z * Z * Z) :=
  match chunks with
  | [] => Ret (stream_offset, chunk_index, 0)
  | chunk :: chunks =>
      let! end_ := add_c 64 stream_offset (chunk_len chunk) in
      if (stream_offset <=? start_inclusive) && (start_inclusive <? end_) then
        let! offset := sub_c start_inclusive stream_offset in
        Ret (stream_offset, chunk_index, offset)
      else
        let! stream_offset := add_c 64 stream_offset (chunk_len chunk) in
        let! chunk_index := add_c 64 chunk_index 1 in
        find chunks stream_offset chunk_index start_inclusive
  end.

Definition new (buffer : Buffer.t B) (range : Interval Z) (has_fin : bool) (cursor : Viewer) : outcome (t * Viewer) :=
  let start := Interval.start_inclusive range in
  let! _ := rassert (Buffer.head buffer <=? start) in
  let! _ := rassert (viewer_offset cursor <=? start) in
  let! total := Buffer.total_len buffer in
  let! _ := rassert (Interval.end_exclusive range <=? total) in
  let! '(stream_offset, chunk_index, offset) :=
    find (drop (Z.to_nat (viewer_chunk_index cursor)) (Buffer.chunks buffer)) (viewer_offset cursor)
      (viewer_chunk_index cursor) start in
  let! _ := rassert (chunk_index <? vlen (Buffer.chunks buffer)) in
  let! len := Interval.len range in
  let! is_fin :=
    if has_fin then
      let! last := VarInt.sub total 1 in Ret (Interval.end_inclusive range =? last)
    else Ret false in
  Ret (mk chunk_index offset len is_fin, mk_viewer stream_offset chunk_index).

(** [trim_off]: [Err] leaves the view as it is. *)
Definition trim_off (self : t) (amount : Z) : result t FitError :=
  match checked_sub (len self) amount with
  | None => Err mk_FitError
  | Some len => Ok (mk (chunk_index self) (offset self) len (is_fin self && (amount =? 0)))
  end.

Definition len_varint (self : t) : outcome Z := unwrap (VarInt.ok (VarInt.new (len self))).

(** [iter]: the slices of the view, from one chunk after the other; [fuel] counts
    the chunks. *)
Fixpoint iter (fuel : nat) (chunks : list B) (self : t) : outcome (list (list Z)) :=
  if len self =? 0 then Ret [] else
  match fuel with
  | O => Panic
  | S fuel =>
      let! chunk := vindex chunks (chunk_index self) in
      let! rest := sub_c (chunk_len chunk) (offset self) in
      let n := Z.min (len self) rest in
      let! end_ := add_c 64 (offset self) n in
      let! left := sub_c (len self) n in
      let! next := add_c 64 (chunk_index self) 1 in
      let slice := take (Z.to_nat n) (drop (Z.to_nat (offset self)) (bytes_slice chunk)) in
      let! _ := rassert (blen slice =? n) in
      let! _ := rassert (end_ <=? chunk_len chunk) in
      let! slices := iter fuel chunks (mk next 0 left (is_fin self)) in
      Ret (slice :: slices)
  end.

(** [encode]: the bytes written into a slice of [len] bytes. *)
Definition bytes (buffer : Buffer.t B) (self : t) : outcome (list Z) :=
  let! slices := iter (S (length (Buffer.chunks buffer))) (Buffer.chunks buffer) self in
  let! _ := rassert (blen (concat slices) <=? len self) in
  Ret (concat slices).
End Ops.
End View.
