(* ===== verification/SendBufferThm.v ===== *)
(** * The send buffer holds the stream

    The chunks are the bytes of the stream from the head on, whatever was pushed
    and released, and a view of a range reads exactly the bytes of the range. *)
From S2P Require Import Prelude Codec VarInt Interval Frames SendBuffer.

#[local] Existing Instance varint_bound.

(** An [unwrap] of a length that is a VarInt. *)
Lemma varint_new_Ret n : varint_ok n -> unwrap (VarInt.ok (VarInt.new n)) = Ret n.
Proof. intros [_ H]. unfold VarInt.new. by rewrite (proj2 (Z.ltb_ge _ _)) by lia. Qed.
Lemma vsub_Ret a b : b <= a -> VarInt.sub a b = Ret (a - b).
Proof. apply sub_c_Ret. Qed.

Section Thm.
Context {B : Type} `{HB : Bytes B, !BytesSpec B}.

(** ** The invariant *)

Definition flat (chunks : list B) : list Z := concat (bytes_slice <$> chunks).

Lemma flat_cons c cs : flat (c :: cs) = bytes_slice c ++ flat cs.
Proof. done. Qed.
Lemma flat_app cs ds : flat (cs ++ ds) = flat cs ++ flat ds.
Proof. unfold flat. by rewrite fmap_app, concat_app. Qed.

(** The buffer of a stream whose bytes so far are [D]. *)
Record buffer_ok (buf : Buffer.t B) (D : list Z) : Prop := {
  buffer_head : 0 <= Buffer.head buf <= blen D;
  buffer_total : blen D <= VarInt.MAX;
  buffer_pending : Buffer.head buf + Buffer.pending_len buf = blen D;
  buffer_data : flat (Buffer.chunks buf) = drop (Z.to_nat (Buffer.head buf)) D;
  buffer_chunks : Forall (fun c => 0 < chunk_len c) (Buffer.chunks buf)
}.

Lemma buffer_ok_intro cs h p D :
  0 <= h <= blen D -> blen D <= VarInt.MAX -> p = blen D - h -> flat cs = drop (Z.to_nat h) D ->
  Forall (fun c => 0 < chunk_len c) cs -> buffer_ok (Buffer.mk cs h p) D.
Proof. intros. split; cbn; auto; lia. Qed.

Lemma flat_count cs : Forall (fun c => 0 < chunk_len c) cs -> vlen cs <= blen (flat cs).
Proof.
  induction 1 as [| c cs Hc _ IH]; [done |]. rewrite vlen_cons, flat_cons, blen_app. unfold chunk_len in Hc. lia.
Qed.

Lemma buffer_len buf D : buffer_ok buf D -> blen (flat (Buffer.chunks buf)) = Buffer.pending_len buf.
Proof. intros [Hh Ht Hp Hd _]. rewrite Hd. unfold blen in *. rewrite length_drop. lia. Qed.

Lemma total_len_ok buf D : buffer_ok buf D -> Buffer.total_len buf = Ret (blen D).
Proof.
  intros [Hh Ht Hp _ _]. unfold Buffer.total_len. rewrite <- Hp in *. apply varint_add_Ret. unfold VarInt.MAX in Ht. lia.
Qed.

Lemma sum_len_ok cs acc : 0 <= acc -> acc + blen (flat cs) < 2 ^ 64 -> Buffer.sum_len cs acc = Ret (acc + blen (flat cs)).
Proof.
  revert acc. induction cs as [| c cs IH]; intros acc Ha Hl; cbn [Buffer.sum_len].
  { change (blen (flat [])) with 0. f_equal. lia. }
  rewrite flat_cons, blen_app in *. unfold chunk_len. pose proof (blen_nonneg (bytes_slice c)). pose proof (blen_nonneg (flat cs)).
  rewrite add_c_Ret by lia. cbn [obind]. rewrite IH by lia. f_equal. lia.
Qed.

Lemma check_integrity_ok buf D : buffer_ok buf D -> Buffer.check_integrity buf = Ret tt.
Proof.
  intros Hb. pose proof (buffer_len buf D Hb) as Hl. destruct Hb as [Hh Ht Hp _ _]. unfold Buffer.check_integrity.
  unfold VarInt.MAX, MAX_VARINT_VALUE in Ht. rewrite sum_len_ok by (rewrite ?Hl; lia). rewrite Hl, Z.add_0_l. cbn [obind].
  rewrite varint_new_Ret by (unfold varint_ok, MAX_VARINT_VALUE; lia). cbn [obind]. by rewrite Z.eqb_refl.
Qed.

Lemma default_buffer_ok : buffer_ok Buffer.default [].
Proof. apply buffer_ok_intro; try done. Qed.

(** ** Changing the buffer *)

Lemma push_buffer_ok buf D d :
  buffer_ok buf D -> 0 < chunk_len d -> blen D + chunk_len d <= VarInt.MAX ->
  returns (Buffer.push buf d) (fun '(iv, buf') =>
    iv = mk_iv (blen D) (blen D + chunk_len d - 1) /\ buffer_ok buf' (D ++ bytes_slice d)
    /\ Buffer.head buf' = Buffer.head buf).
Proof.
  intros Hb Hd Hl. pose proof Hb as [Hh Ht Hp Hdata Hc]. unfold Buffer.push, Buffer.capacity. rewrite (total_len_ok buf D) by done.
  unfold VarInt.MAX in *. pose proof (blen_nonneg D). cbn [obind]. rewrite vsub_Ret by lia. cbn [obind].
  rewrite (proj2 (Z.leb_le _ _)) by lia. cbn [rassert obind]. rewrite varint_new_Ret by (unfold varint_ok; lia). cbn [obind].
  rewrite varint_add_Ret by lia. cbn [obind]. set (buf' := Buffer.mk _ _ _).
  assert (Hb' : buffer_ok buf' (D ++ bytes_slice d)).
  { apply buffer_ok_intro; unfold VarInt.MAX; rewrite ?blen_app; fold (chunk_len d); try lia.
    - rewrite flat_app, Hdata. unfold flat. cbn. rewrite app_nil_r. rewrite drop_app_le; [done |]. unfold blen in Hh. lia.
    - apply Forall_app. split; [done |]. by constructor. }
  rewrite (check_integrity_ok buf' _ Hb'). cbn [obind]. rewrite vsub_Ret by lia. cbn [obind]. rewrite varint_add_Ret by lia.
  apply returns_ret. split; [f_equal; lia | done].
Qed.

Lemma clear_buffer_ok buf : returns (Buffer.clear buf) (fun buf' => buf' = Buffer.default).
Proof.
  unfold Buffer.clear. change (Buffer.mk [] 0 0) with (@Buffer.default B).
  rewrite (check_integrity_ok _ [] default_buffer_ok). by apply returns_ret.
Qed.

Lemma release_all_ok buf D :
  buffer_ok buf D -> returns (Buffer.release_all buf) (fun buf' => buffer_ok buf' D /\ Buffer.head buf' = blen D).
Proof.
  intros Hb. unfold Buffer.release_all. rewrite (total_len_ok buf D) by done. cbn [obind].
  assert (Hb' : buffer_ok (Buffer.mk [] (blen D) 0) D).
  { destruct Hb as [Hh Ht Hp _ _]. apply buffer_ok_intro; try lia; [| constructor].
    unfold flat, blen. rewrite Nat2Z.id. cbn. symmetry. apply drop_ge. lia. }
  rewrite (check_integrity_ok _ D Hb'). by apply returns_ret.
Qed.

Lemma release_loop_ok D cs : forall h p u,
  0 <= h -> h <= u -> u <= blen D -> blen D <= VarInt.MAX -> p = blen D - h -> flat cs = drop (Z.to_nat h) D ->
  Forall (fun c => 0 < chunk_len c) cs ->
  returns (Buffer.release_loop cs h p u) (fun buf' => buffer_ok buf' D /\ Buffer.head buf' = u).
Proof.
  induction cs as [| c cs IH]; intros h p u Hh Hu Hd Hm -> Hf Hc; cbn [Buffer.release_loop].
  { assert (blen (drop (Z.to_nat h) D) = 0) as E by (by rewrite <- Hf). unfold blen in E, Hd. rewrite length_drop in E.
    assert (h = u) as -> by lia. apply returns_ret. split; [| done]. apply buffer_ok_intro; try done; unfold blen; lia. }
  apply Forall_cons in Hc as [Hc Hcs]. rewrite flat_cons in Hf.
  assert (Hlen : chunk_len c + blen (flat cs) = blen D - h).
  { unfold chunk_len. rewrite <- blen_app, Hf. unfold blen in *. rewrite length_drop. lia. }
  pose proof (blen_nonneg (flat cs)). unfold VarInt.MAX in *. rewrite varint_new_Ret by (unfold varint_ok; lia). cbn [obind].
  rewrite varint_add_Ret by lia. cbn [obind].
  assert (Hrest : flat cs = drop (Z.to_nat (h + chunk_len c)) D).
  { rewrite Z2Nat.inj_add, <- drop_drop, <- Hf by lia. unfold chunk_len, blen. by rewrite Nat2Z.id, drop_app_length. }
  destruct (Z.leb_spec (h + chunk_len c) u).
  - rewrite vsub_Ret by lia. cbn [obind]. apply IH; try done; lia.
  - rewrite !vsub_Ret by lia. cbn [obind]. rewrite vsub_Ret by lia. cbn [obind].
    destruct (bytes_advance_spec c (u - h)) as (c' & -> & Hc'); [unfold chunk_len in *; lia |]. cbn [obind].
    apply returns_ret. split; [| done]. apply buffer_ok_intro; try done; try lia.
    + rewrite flat_cons, Hc'. replace (Z.to_nat u) with (Z.to_nat h + Z.to_nat (u - h))%nat by lia.
      rewrite <- drop_drop, <- Hf. rewrite drop_app_le; [done |]. unfold chunk_len, blen in *. lia.
    + constructor; [| done]. unfold chunk_len in *. rewrite Hc'. unfold blen in *. rewrite length_drop. lia.
Qed.

Lemma release_ok buf D u :
  buffer_ok buf D -> u <= blen D ->
  returns (Buffer.release buf u) (fun buf' => buffer_ok buf' D /\ Buffer.head buf' = Z.max u (Buffer.head buf)).
Proof.
  intros Hb Hu. unfold Buffer.release. destruct (Z.leb_spec u (Buffer.head buf)).
  { apply returns_ret. split; [done | lia]. }
  rewrite (total_len_ok buf D) by done. cbn [obind]. rewrite (proj2 (Z.leb_le _ _)) by lia. cbn [rassert obind].
  destruct Hb as [Hh Ht Hp Hd Hc]. apply returns_bind. eapply returns_mono; [apply (release_loop_ok D); done || lia |].
  cbv beta. intros buf' [Hb' Hu']. rewrite (check_integrity_ok buf' D Hb'). apply returns_ret. split; [done | lia].
Qed.

(** ** Views *)

(** The cursor is at the start of a chunk. *)
Definition cursor_ok (buf : Buffer.t B) (cur : Viewer) : Prop :=
  0 <= viewer_chunk_index cur <= vlen (Buffer.chunks buf)
  /\ viewer_offset cur = Buffer.head buf + blen (flat (take (Z.to_nat (viewer_chunk_index cur)) (Buffer.chunks buf))).

Lemma viewer_cursor buf : cursor_ok buf (viewer buf).
Proof.
  unfold cursor_ok. cbn. pose proof (vlen_nonneg (Buffer.chunks buf)). split; [lia |].
  rewrite take_0. change (blen (flat [])) with 0. lia.
Qed.

(** The view starts at offset [a] of the stream. *)
Record view_at (buf : Buffer.t B) (D : list Z) (v : View.t) (a : Z) : Prop := {
  view_index : 0 <= View.chunk_index v <= vlen (Buffer.chunks buf);
  view_offset : 0 <= View.offset v;
  view_len : 0 <= View.len v;
  view_end : 0 <= a /\ a + View.len v <= blen D;
  view_data : drop (Z.to_nat (View.offset v)) (flat (drop (Z.to_nat (View.chunk_index v)) (Buffer.chunks buf)))
              = drop (Z.to_nat a) D;
  view_inside : 0 < View.len v -> exists c, vget (Buffer.chunks buf) (View.chunk_index v) = Some c /\ View.offset v < chunk_len c
}.

Lemma find_ok cs : forall so ci a,
  0 <= so -> 0 <= ci -> so <= a -> a < so + blen (flat cs) -> so + blen (flat cs) < 2 ^ 63 -> ci + vlen cs < 2 ^ 63 ->
  exists cs1 c cs2, cs = cs1 ++ c :: cs2
    /\ View.find cs so ci a = Ret (so + blen (flat cs1), ci + vlen cs1, a - (so + blen (flat cs1)))
    /\ so + blen (flat cs1) <= a /\ a - (so + blen (flat cs1)) < chunk_len c.
Proof.
  induction cs as [| c cs IH]; intros so ci a Hso Hci Ha Hlt Hmax Hcm.
  { change (blen (flat [])) with 0 in Hlt. lia. }
  cbn [View.find]. rewrite flat_cons, blen_app, vlen_cons in *. fold (chunk_len c) in *.
  pose proof (blen_nonneg (flat cs)). pose proof (blen_nonneg (bytes_slice c)) as Hc. fold (chunk_len c) in Hc.
  pose proof (vlen_nonneg cs). rewrite add_c_Ret by lia. cbn [obind].
  rewrite (proj2 (Z.leb_le so a)) by lia. cbn [andb]. destruct (Z.ltb_spec a (so + chunk_len c)).
  - exists [], c, cs. split; [done |]. change (blen (flat [])) with 0. change (vlen (@nil B)) with 0. rewrite !Z.add_0_r.
    rewrite sub_c_Ret by lia. split; [done | lia].
  - cbn [obind]. rewrite add_c_Ret by lia. cbn [obind].
    destruct (IH (so + chunk_len c) (ci + 1) a) as (cs1 & c' & cs2 & -> & -> & Hle & Hoff); try lia.
    exists (c :: cs1), c', cs2. split; [done |]. rewrite flat_cons, blen_app, vlen_cons. fold (chunk_len c).
    split; [| lia]. f_equal. f_equal; [f_equal; lia | lia].
Qed.

Lemma end_exclusive_ok a b : b < VarInt.MAX -> Interval.end_exclusive (mk_iv a b) = b + 1.
Proof.
  intros H. unfold Interval.end_exclusive, step_up_saturating. cbn [iend step_up varint_bound].
  assert (E : VarInt.add b 1 = Ret (b + 1)) by (apply varint_add_Ret; unfold VarInt.MAX in H; lia).
  unfold VarInt.add in E. destruct (VarInt.checked_add b 1); cbn in *; congruence.
Qed.
Lemma interval_len_ok a b : varint_ok a -> varint_ok b -> a <= b -> Interval.len (mk_iv a b) = Ret (b - a + 1).
Proof.
  intros Ha Hb Hab. unfold Interval.len. cbn [istart iend]. rewrite (steps_between_val (IntervalBoundSpec := varint_bound_spec)) by done.
  unfold varint_ok, MAX_VARINT_VALUE, USIZE_MAX, umax, id in *. rewrite Z.min_l by lia. cbn [obind]. rewrite add_c_Ret by lia. f_equal. lia.
Qed.

(** The chunks around the chunk a search from index [i] stops at. *)
Lemma drop_take_at (cs cs1 cs2 : list B) c i :
  drop i cs = cs1 ++ c :: cs2 ->
  drop (i + length cs1) cs = c :: cs2 /\ take (i + length cs1) cs = take i cs ++ cs1.
Proof.
  intros E. assert (Ej : drop (i + length cs1) cs = c :: cs2) by (by rewrite <- drop_drop, E, drop_app_length).
  split; [done |]. apply (app_inv_tail (c :: cs2)). rewrite <- Ej at 1. by rewrite take_drop, <- app_assoc, <- E, take_drop.
Qed.

Lemma view_new_ok buf D a b fin cur :
  buffer_ok buf D -> cursor_ok buf cur -> Buffer.head buf <= a -> viewer_offset cur <= a -> a <= b -> b < blen D ->
  returns (View.new buf (mk_iv a b) fin cur) (fun '(v, cur') =>
    view_at buf D v a /\ View.len v = b - a + 1 /\ View.is_fin v = fin && (b =? blen D - 1)
    /\ cursor_ok buf cur' /\ viewer_offset cur' <= a).
Proof.
  intros Hb [Hci Hco] Hh Ha Hab Hbd. pose proof Hb as [Hhd Ht Hp Hd Hc]. unfold View.new. cbn [Interval.start_inclusive istart].
  pose proof (flat_count _ Hc) as Hcount. rewrite (buffer_len buf D Hb) in Hcount. unfold VarInt.MAX, MAX_VARINT_VALUE in *.
  rewrite !(proj2 (Z.leb_le _ _)) by lia. cbn [rassert obind]. rewrite (total_len_ok buf D) by done. cbn [obind].
  rewrite end_exclusive_ok by (unfold VarInt.MAX, MAX_VARINT_VALUE; lia). rewrite (proj2 (Z.leb_le _ _)) by lia. cbn [rassert obind].
  set (i := Z.to_nat (viewer_chunk_index cur)) in *. set (cs := Buffer.chunks buf) in *.
  assert (Hsplit : blen (flat (take i cs)) + blen (flat (drop i cs)) = Buffer.pending_len buf).
  { rewrite <- blen_app, <- flat_app, take_drop. by apply (buffer_len buf D). }
  pose proof (blen_nonneg (flat (take i cs))). assert (vlen (drop i cs) <= vlen cs) by (unfold vlen; rewrite length_drop; lia).
  destruct (find_ok (drop i cs) (viewer_offset cur) (viewer_chunk_index cur) a) as (cs1 & c & cs2 & Ecs & -> & Hle & Hoff); try lia.
  cbn [obind]. assert (Elen : viewer_chunk_index cur + vlen cs1 + 1 + vlen cs2 = vlen cs).
  { apply (f_equal vlen) in Ecs. rewrite vlen_app, vlen_cons in Ecs. unfold vlen in *. rewrite length_drop in Ecs. lia. }
  pose proof (vlen_nonneg cs1). pose proof (vlen_nonneg cs2). rewrite (proj2 (Z.ltb_lt _ _)) by lia. cbn [rassert obind].
  rewrite interval_len_ok by (unfold varint_ok, MAX_VARINT_VALUE; lia). cbn [obind].
  assert (Efin : (if fin then let! last := VarInt.sub (blen D) 1 in Ret (Interval.end_inclusive (mk_iv a b) =? last) else Ret false)
    = Ret (fin && (b =? blen D - 1))) by (destruct fin; [by rewrite vsub_Ret by lia | done]).
  rewrite Efin. cbn [obind]. apply returns_ret.
  set (j := Z.to_nat (viewer_chunk_index cur + vlen cs1)).
  destruct (drop_take_at _ _ _ _ _ Ecs) as [Ej Et].
  replace (i + length cs1)%nat with j in Ej, Et by (unfold j, i, vlen in *; lia).
  assert (Eo : viewer_offset cur + blen (flat cs1) = Buffer.head buf + blen (flat (take j cs))) by (rewrite Et, flat_app, blen_app; lia).
  split; [| do 2 (split; [done |]); split; [split; [cbn; fold cs; lia | exact Eo] | cbn; lia]].
  split; cbn; try lia.
  - fold cs. lia.
  - fold cs j. rewrite Ej. replace (Z.to_nat a) with (Z.to_nat (Buffer.head buf) + Z.to_nat (a - Buffer.head buf))%nat by lia.
    rewrite <- drop_drop, <- Hd. fold cs. rewrite <- (take_drop j cs) at 1. rewrite flat_app, Ej.
    rewrite drop_app_ge by (unfold blen in *; lia). f_equal. unfold blen in *. lia.
  - intros _. exists c. fold cs. split; [| lia]. rewrite <- (take_drop j cs), Ej.
    replace (viewer_chunk_index cur + vlen cs1) with (vlen (take j cs)); [apply vget_app |].
    rewrite Et, vlen_app. unfold vlen, i in *. rewrite length_take. lia.
Qed.

(** The chunk a view starts in. *)
Lemma view_chunk buf D v a :
  buffer_ok buf D -> view_at buf D v a -> 0 < View.len v ->
  exists c, vget (Buffer.chunks buf) (View.chunk_index v) = Some c /\ View.offset v < chunk_len c
    /\ chunk_len c <= VarInt.MAX /\ View.chunk_index v < vlen (Buffer.chunks buf)
    /\ drop (Z.to_nat (View.offset v)) (bytes_slice c) ++ flat (drop (S (Z.to_nat (View.chunk_index v))) (Buffer.chunks buf))
      = drop (Z.to_nat a) D.
Proof.
  intros Hb Hv Hl. pose proof Hb as [Hhd Ht Hp _ _]. destruct Hv as [Hi _ _ _ Hdat Hin].
  destruct (Hin Hl) as (c & Ec & Hco). exists c. split; [done |]. split; [done |].
  assert (Edrop : drop (Z.to_nat (View.chunk_index v)) (Buffer.chunks buf)
      = c :: drop (S (Z.to_nat (View.chunk_index v))) (Buffer.chunks buf) /\ View.chunk_index v < vlen (Buffer.chunks buf)).
  { unfold vget in Ec. case_match eqn:Ei; [| done]. split; [by apply drop_S | apply andb_prop in Ei; lia]. }
  destruct Edrop as [Edrop Hiv]. split; [| split; [done |]].
  - pose proof (buffer_len buf D Hb) as E. rewrite <- (take_drop (Z.to_nat (View.chunk_index v)) (Buffer.chunks buf)), Edrop, flat_app,
      flat_cons, !blen_app in E. unfold chunk_len, blen in *. lia.
  - rewrite Edrop, flat_cons, drop_app_le in Hdat; [done |]. unfold chunk_len, blen in Hco. lia.
Qed.

(** The rest of a view beyond that chunk. *)
Lemma view_next buf D v a c n fin :
  buffer_ok buf D -> view_at buf D v a -> vget (Buffer.chunks buf) (View.chunk_index v) = Some c ->
  n = chunk_len c - View.offset v -> 0 < n < View.len v ->
  view_at buf D (View.mk (View.chunk_index v + 1) 0 (View.len v - n) fin) (a + n).
Proof.
  intros Hb Hv Ec -> Hn. destruct (view_chunk buf D v a Hb Hv) as (c' & Ec' & Hco & _ & Hiv & Hdat); [lia |].
  rewrite Ec in Ec'. injection Ec' as <-. pose proof Hv as [Hi Ho Hl He _ _]. pose proof (buffer_chunks _ _ Hb) as Hc.
  assert (Hrest : flat (drop (S (Z.to_nat (View.chunk_index v))) (Buffer.chunks buf)) = drop (Z.to_nat (a + (chunk_len c - View.offset v))) D).
  { rewrite Z2Nat.inj_add, <- drop_drop, <- Hdat by lia. rewrite drop_app_ge by (rewrite length_drop; unfold chunk_len, blen in *; lia).
    rewrite length_drop. replace (_ - _)%nat with 0%nat; [done |]. unfold chunk_len, blen in *. lia. }
  split; cbn; try lia; replace (Z.to_nat (View.chunk_index v + 1)) with (S (Z.to_nat (View.chunk_index v))) by lia; [exact Hrest |].
  intros _. destruct (drop (S (Z.to_nat (View.chunk_index v))) (Buffer.chunks buf)) as [| c' cs'] eqn:E.
  { apply (f_equal blen) in Hrest. change (blen (flat [])) with 0 in Hrest. unfold blen in *. rewrite length_drop in Hrest. lia. }
  exists c'. assert (E' : Buffer.chunks buf !! S (Z.to_nat (View.chunk_index v)) = Some c').
  { rewrite <- (Nat.add_0_r (S _)), <- lookup_drop, E. done. }
  pose proof (lookup_lt_Some _ _ _ E'). rewrite Forall_forall in Hc. split.
  - unfold vget. rewrite (proj2 (Z.leb_le _ _)), (proj2 (Z.ltb_lt _ _)) by (unfold vlen; lia). cbn [andb].
    by replace (Z.to_nat (View.chunk_index v + 1)) with (S (Z.to_nat (View.chunk_index v))) by lia.
  - apply Hc. by apply list_elem_of_lookup_2 with (S (Z.to_nat (View.chunk_index v))).
Qed.

(** A view reads its range of the stream. *)
Lemma view_iter_ok buf D a fuel : forall v,
  buffer_ok buf D -> view_at buf D v a -> vlen (Buffer.chunks buf) - View.chunk_index v < Z.of_nat fuel ->
  returns (View.iter fuel (Buffer.chunks buf) v) (fun slices =>
    concat slices = take (Z.to_nat (View.len v)) (drop (Z.to_nat a) D)).
Proof.
  revert a. induction fuel as [| fuel IH]; intros a v Hb Hv Hf; [pose proof (view_index _ _ _ _ Hv); lia |].
  pose proof Hv as [Hi Ho Hl He _ _]. pose proof (buffer_total _ _ Hb) as Ht. cbn [View.iter].
  destruct (Z.eqb_spec (View.len v) 0) as [E0 | Hl0]; [apply returns_ret; by rewrite E0 |].
  destruct (view_chunk buf D v a Hb Hv) as (c & Ec & Hco & Hcl & Hiv & Hdat); [lia |]. unfold vindex. rewrite Ec. cbn [obind].
  pose proof (flat_count _ (buffer_chunks _ _ Hb)) as Hcount. rewrite (buffer_len buf D Hb) in Hcount.
  pose proof (buffer_pending _ _ Hb). pose proof (buffer_head _ _ Hb). unfold VarInt.MAX, MAX_VARINT_VALUE in *.
  rewrite sub_c_Ret by lia. cbn [obind]. set (n := Z.min (View.len v) (chunk_len c - View.offset v)).
  assert (Hn : 0 < n) by lia. rewrite add_c_Ret by lia. cbn [obind]. rewrite sub_c_Ret by lia. cbn [obind].
  rewrite add_c_Ret by lia. cbn [obind]. set (slice := take (Z.to_nat n) (drop (Z.to_nat (View.offset v)) (bytes_slice c))).
  assert (Hslice : slice = take (Z.to_nat n) (drop (Z.to_nat a) D)).
  { rewrite <- Hdat. unfold slice. rewrite take_app_le; [done |]. rewrite length_drop. unfold chunk_len, blen in *. lia. }
  assert (Hsl : blen slice = n) by (unfold slice, blen; rewrite length_take, length_drop; unfold chunk_len, blen in *; lia).
  rewrite Hsl, Z.eqb_refl, (proj2 (Z.leb_le _ _)) by lia. cbn [rassert obind].
  apply returns_bind. apply (returns_mono _ (fun slices => concat slices = take (Z.to_nat (View.len v - n)) (drop (Z.to_nat (a + n)) D))).
  - destruct (Z.eq_dec (View.len v) n) as [En | Hne].
    { rewrite En, Z.sub_diag. destruct fuel; (eexists; split; [reflexivity | done]). }
    apply (IH (a + n) (View.mk (View.chunk_index v + 1) 0 (View.len v - n) (View.is_fin v))); [done | | cbn; lia].
    apply (view_next buf D v a c); done || lia.
  - cbv beta. intros slices Hs. apply returns_ret. cbn [concat]. rewrite Hs, Hslice.
    replace (Z.to_nat (a + n)) with (Z.to_nat a + Z.to_nat n)%nat by lia. rewrite <- drop_drop, take_take_drop. f_equal. lia.
Qed.

Lemma view_bytes_ok buf D v a :
  buffer_ok buf D -> view_at buf D v a ->
  View.bytes buf v = Ret (take (Z.to_nat (View.len v)) (drop (Z.to_nat a) D)).
Proof.
  intros Hb Hv. pose proof Hv as [Hi Ho Hl He _ _]. unfold View.bytes.
  destruct (view_iter_ok buf D a (S (length (Buffer.chunks buf))) v Hb Hv) as (slices & -> & Es); [unfold vlen in *; lia |].
  cbn [obind]. rewrite Es. rewrite (proj2 (Z.leb_le _ _)); [done |]. unfold blen. rewrite length_take. lia.
Qed.

Lemma view_shorter buf D v a n fin :
  view_at buf D v a -> 0 <= n <= View.len v -> view_at buf D (View.mk (View.chunk_index v) (View.offset v) n fin) a.
Proof. intros [Hi Ho Hl He Hd Hin] Hn. split; cbn; try done; try lia. intros. apply Hin. lia. Qed.
End Thm.
