(* ===== verification/Transmissions.v ===== *)
(** * Data in flight

    [sync/data_sender/transmissions.rs], with the states of the data sender and
    the traits of [sync/data_sender/traits.rs] it is written against: which
    ranges of a stream went out in which packets.  A packet keeps its first range
    in the map of packet numbers and further ones in a slab, chained. *)
From S2P Require Import Prelude Codec VarInt PacketNumber PacketMap Interval IntervalSet Frames Transmission Recovery Sync SendBuffer.

#[local] Existing Instance varint_bound.

(** ** The states of the sender ([sync/data_sender.rs]) *)

Module FinState.
Inductive t := Pending | InFlight (packet : Z) | Lost | Acknowledged.

Definition is_acknowledged (self : t) : bool := match self with Acknowledged => true | _ => false end.
Definition on_packet_ack (self : t) (contains : Z -> outcome bool) : outcome t :=
  match self with
  | InFlight packet => let! b := contains packet in Ret (if b then Acknowledged else self)
  | _ => Ret self
  end.
(** The flag is whether the fin bit was lost. *)
Definition on_packet_loss (self : t) (contains : Z -> outcome bool) : outcome (t * bool) :=
  match self with
  | InFlight packet => let! b := contains packet in Ret (if b then (Lost, true) else (self, false))
  | _ => Ret (self, false)
  end.
Definition on_transmit (self : t) (packet : Z) : t :=
  match self with Pending | Lost => InFlight packet | _ => self end.
End FinState.

Module SenderState.
Section E.
(** [StreamError]. *)
Context {E : Type}.

Inductive t := Sending | Finishing (fin : FinState.t) | Finished | Cancelled (error : E).

(** [fin_state_mut], applied to a change of the fin state. *)
Definition update_fin (self : t) (f : FinState.t -> FinState.t) : t :=
  match self with Finishing fin => Finishing (f fin) | _ => self end.
Definition can_transmit_fin (self : t) (constraint : Constraint) (is_blocked : bool) : bool :=
  match self with
  | Finishing FinState.Lost => ConstraintOps.can_retransmit constraint
  | Finishing FinState.Pending => negb is_blocked && ConstraintOps.can_transmit constraint
  | _ => false
  end.
Definition is_inflight (self : t) : bool := match self with Finishing (FinState.InFlight _) => true | _ => false end.
Definition is_finishing (self : t) : bool := match self with Finishing _ => true | _ => false end.
Definition is_sending (self : t) : bool := match self with Sending => true | _ => false end.
Definition is_finished (self : t) : bool := match self with Finished => true | _ => false end.
End E.
Arguments t : clear implicits.
End SenderState.

(** ** The traits *)

(** [OutgoingDataFlowController]. *)
Class DataFlowController (F : Type) := {
  acquire_flow_control_window : F -> Z -> outcome (Z * F);
  is_blocked : F -> bool;
  clear_blocked : F -> F;
  finish_flow : F -> F
}.

(** [data_sender::FrameWriter]: [write_chunk] returns the frames in the packet
    afterwards, and the view as it was trimmed. *)
Class ChunkWriter (C B : Type) := {
  WRITES_FIN : bool;
  MIN_WRITE_SIZE : Z;
  RETRANSMIT_IN_PROBE : bool;
  write_chunk : Z -> Buffer.t B -> View.t -> C -> Writer -> list frame
    -> outcome (result unit FitError * View.t * list frame);
  write_fin : Z -> C -> Writer -> list frame -> outcome (result unit FitError * list frame)
}.

(** ** The slab *)

(** [next] is a [TransmissionId]: an index of the slab plus one. *)
Record Transmission := mk_transmission { t_offset : Z; t_len : Z; t_next : option Z }.

Definition t_range (self : Transmission) : outcome (Interval Z) :=
  let! end_ := VarInt.add (t_offset self) (t_len self) in
  Ret (Interval.from_range (t_offset self) end_).

Definition set_next (self : Transmission) (next : option Z) : Transmission :=
  mk_transmission (t_offset self) (t_len self) next.

Module Slab.
Record Entry := mk_entry { transmission : Transmission; next_free : Z; occupied : bool }.
Record t := mk { entries : list Entry; len : Z; next : Z }.

Definition default : t := mk [] 0 0.

Definition has_capacity (self : t) : bool := len self <? umax 16 - 1.

Definition insert (self : t) (transmission : Transmission) : outcome (Z * t) :=
  let! _ := rassert (has_capacity self) in
  let id := next self in
  let! n := add_c 16 (len self) 1 in
  let new_entry := mk_entry transmission 0 true in
  let! self :=
    match vget (entries self) id with
    | Some entry =>
        let! _ := rassert (negb (occupied entry)) in
        let! entries := vset (entries self) id new_entry in
        Ret (mk entries n (next_free entry))
    | None =>
        let! next := add_c 16 id 1 in
        Ret (mk (entries self ++ [new_entry]) n next)
    end in
  let! id := add_c 16 1 id in
  Ret (id, self).

Definition remove (self : t) (id : Z) : outcome (Transmission * t) :=
  let! index := sub_c id 1 in
  let! entry := vindex (entries self) index in
  let! entries := vset (entries self) index (mk_entry (transmission entry) (next self) false) in
  let! n := sub_c (len self) 1 in
  Ret (transmission entry, mk entries n index).

Definition get (self : t) (id : Z) : outcome Entry :=
  let! index := sub_c id 1 in
  let! entry := vindex (entries self) index in
  let! _ := rassert (occupied entry) in
  Ret entry.
(** Replace the [next] of the transmission at [id]; the old one is returned. *)
Definition replace_next (self : t) (id : Z) (next_id : option Z) : outcome (option Z * t) :=
  let! entry := get self id in
  let! index := sub_c id 1 in
  let! entries :=
    vset (entries self) index (mk_entry (set_next (transmission entry) next_id) (next_free entry) (occupied entry)) in
  Ret (t_next (transmission entry), mk entries (len self) (next self)).

Definition chain (self : t) (prev next_id : Z) : outcome t :=
  let! '(next_entry, self) := replace_next self prev (Some next_id) in
  let! '(_, self) := replace_next self next_id next_entry in
  Ret self.

Definition clear (self : t) : t := mk [] 0 0.
End Slab.

(** ** The transmissions of packets *)

Module Set_.
Section Capacity.
Context (capacity : Z -> Z).

Record t := mk { packets : PacketMap.Map (V := Transmission); overflow : Slab.t }.

Definition default : t := mk (PacketMap.default capacity) Slab.default.

Definition insert (self : t) (packet_number offset len : Z) : outcome t :=
  let! _ := rassert (len <=? umax 16) in
  let transmission := mk_transmission offset len None in
  let! '(packets, overflow) :=
    PacketMap.insert_or_update capacity (packets self) packet_number transmission (fun slab prev =>
      let! '(idx, slab) := Slab.insert slab transmission in
      match t_next prev with
      | Some p => let! slab := Slab.chain slab p idx in Ret (slab, prev)
      | None => Ret (slab, set_next prev (Some idx))
      end) (overflow self) in
  Ret (mk packets overflow).

(** [SetRemoveIter]: the chain of a packet, freed as it is followed; [fuel]
    counts the entries of the slab. *)
Fixpoint follow (fuel : nat) (slab : Slab.t) (next : option Z) : outcome (list (Interval Z) * Slab.t) :=
  match next with
  | None => Ret ([], slab)
  | Some idx =>
      match fuel with
      | O => Panic
      | S fuel =>
          let! '(transmission, slab) := Slab.remove slab idx in
          let! range := t_range transmission in
          let! '(ranges, slab) := follow fuel slab (t_next transmission) in
          Ret (range :: ranges, slab)
      end
  end.
Fixpoint ranges_of (slab : Slab.t) (removed : list (Z * Transmission)) : outcome (list (Interval Z) * Slab.t) :=
  match removed with
  | [] => Ret ([], slab)
  | (_, transmission) :: removed =>
      let! range := t_range transmission in
      let! '(chained, slab) := follow (S (length (Slab.entries slab))) slab (t_next transmission) in
      let! '(rest, slab) := ranges_of slab removed in
      Ret (range :: chained ++ rest, slab)
  end.
(** [remove_range] with its iterator run to the end. *)
Definition remove_range (self : t) (range : PacketNumberRange.t) : outcome (list (Interval Z) * t) :=
  let! '(removed, packets) := PacketMap.remove_range (packets self) range in
  let! '(ranges, overflow) := ranges_of (overflow self) removed in
  Ret (ranges, mk packets overflow).

Definition is_empty (self : t) : bool := PacketMap.is_empty (packets self).
Definition has_capacity (self : t) : bool := Slab.has_capacity (overflow self).
Definition clear (self : t) : outcome t :=
  let! packets := PacketMap.clear (packets self) in
  Ret (mk packets (Slab.clear (overflow self))).
End Capacity.
End Set_.

(** ** Transmitting *)

Section Transmissions.
Context {E F C B : Type} `{DataFlowController F} `{Bytes B} `{ChunkWriter C B} (capacity : Z -> Z).

(** What a transmission changes: the ranges in flight, the flow controller, the
    state of the sender, and the frames in the packet. *)
Record Tx := mk_tx {
  in_flight : Set_.t;
  flow_controller : F;
  tx_state : SenderState.t E;
  written : list frame
}.

(** A transmission changes [Tx] also if it ends in an error. *)
Definition tx (A : Type) : Type := Tx -> outcome (result A OnTransmitError * Tx).
Definition tx_ret {A} (x : A) : tx A := fun s => Ret (Ok x, s).
Definition tx_err {A} (e : OnTransmitError) : tx A := fun s => Ret (Err e, s).
Definition tx_bind {A A'} (m : tx A) (k : A -> tx A') : tx A' := fun s =>
  let! '(r, s) := m s in
  match r with Ok x => k x s | Err e => Ret (Err e, s) end.
Definition tx_lift {A} (m : outcome A) : tx A := fun s => let! x := m in Ret (Ok x, s).

Local Notation "'let*' x := m 'in' k" := (tx_bind m (fun x => k))
  (at level 10, x name, m at level 100, k at level 200).
Local Notation "'let*' ' p := m 'in' k" := (tx_bind m (fun x => match x with p => k end))
  (at level 10, p pattern, m at level 100, k at level 200).

(** [self.flow_controller.acquire_flow_control_window(end)]. *)
Definition tx_acquire (end_offset : Z) : tx Z := fun s =>
  let! '(window, fc) := acquire_flow_control_window (flow_controller s) end_offset in
  Ret (Ok window, mk_tx (in_flight s) fc (tx_state s) (written s)).
(** [self.writer.write_chunk(..)] with its error mapped. *)
Definition tx_write_chunk (buffer : Buffer.t B) (offset : Z) (view : View.t) (writer_context : C) (context : Writer)
    : tx View.t := fun s =>
  let! '(res, view, written) := write_chunk offset buffer view writer_context context (written s) in
  Ret (match res with Ok _ => Ok view | Err _ => Err CouldNotAcquireEnoughSpace end,
       mk_tx (in_flight s) (flow_controller s) (tx_state s) written).
Definition tx_insert (packet_number offset len : Z) : tx unit := fun s =>
  let! set := Set_.insert capacity (in_flight s) packet_number offset len in
  Ret (Ok tt, mk_tx set (flow_controller s) (tx_state s) (written s)).
Definition tx_update_fin (f : FinState.t -> FinState.t) : tx unit := fun s =>
  Ret (Ok tt, mk_tx (in_flight s) (flow_controller s) (SenderState.update_fin (tx_state s) f) (written s)).

(** The end of [transmit_interval]: [interval] is within the windows. *)
Definition transmit_chunk (buffer : Buffer.t B) (cursor : Viewer) (interval : Interval Z) (writer_context : C)
    (context : Writer) : tx (Interval Z * Viewer) := fun s0 =>
  (let* '(view, cursor) := tx_lift (View.new buffer interval (SenderState.is_finishing (tx_state s0)) cursor) in
   let* view := tx_write_chunk buffer (Interval.start_inclusive interval) view writer_context context in
   let* len := tx_lift (View.len_varint view) in
   let* _ := tx_lift (rassert (negb (len =? 0))) in
   let* interval := tx_lift (Interval.set_len interval len) in
   let* _ := tx_lift (rassert (Interval.is_valid interval)) in
   let* _ := tx_insert (packet_number context) (Interval.start_inclusive interval) len in
   let* _ :=
     if WRITES_FIN && View.is_fin view
     then tx_update_fin (fun fin => FinState.on_transmit fin (packet_number context)) else tx_ret tt in
   tx_ret (interval, cursor)) s0.

(** The part of [interval] that was sent, and the cursor. *)
Definition transmit_interval (buffer : Buffer.t B) (cursor : Viewer) (interval : Interval Z)
    (writer_context : C) (context : Writer) : tx (Interval Z * Viewer) := fun s0 =>
  (let room := Z.min (remaining_capacity context (written s0)) (umax 16) in
   let* interval_len := tx_lift (Interval.len interval) in
   if (room =? 0) || (MIN_WRITE_SIZE <=? interval_len) && (room <? MIN_WRITE_SIZE) || negb (Set_.has_capacity (in_flight s0))
   then tx_err CouldNotAcquireEnoughSpace else
   let* '(interval, interval_len) :=
     if room <? interval_len then
       let* interval := tx_lift (Interval.set_len interval room) in tx_ret (interval, room)
     else tx_ret (interval, interval_len) in
   let* window := tx_acquire (Interval.end_exclusive interval) in
   match VarInt.checked_sub window (Interval.start_inclusive interval) with
   | None => tx_err CouldNotAcquireEnoughSpace
   | Some window_len =>
       if window_len =? 0 then tx_err CouldNotAcquireEnoughSpace else
       let* interval :=
         if window_len <? interval_len then tx_lift (Interval.set_len interval window_len) else tx_ret interval in
       transmit_chunk buffer cursor interval writer_context context
   end) s0.

(** [while let Some(interval) = set.pop_min()]: whether anything was sent, and the
    set left; [fuel] counts its intervals. *)
Fixpoint transmit_set_loop (fuel : nat) (buffer : Buffer.t B) (cursor : Viewer) (set : IntervalSet Z) (has_transmitted : bool)
    (writer_context : C) (context : Writer) (s : Tx) : outcome (result bool OnTransmitError * IntervalSet Z * Tx) :=
  match IntervalSetOps.pop_min set with
  | (None, set) => Ret (Ok has_transmitted, set, s)
  | (Some interval, set) =>
      match fuel with
      | O => Panic
      | S fuel =>
          let put_back (interval : Interval Z) :=
            let! '(res, set) := IntervalSetOps.insert_front set (Included (istart interval)) (Included (iend interval)) in
            let! _ := unwrap (VarInt.ok res) in Ret set in
          let! '(res, s) := transmit_interval buffer cursor interval writer_context context s in
          match res with
          | Ok (transmitted, cursor) =>
              let! len := Interval.len transmitted in
              let! interval_len := Interval.len interval in
              if negb (len =? interval_len) then
                let! start := VarInt.add_usize (Interval.start_inclusive interval) len in
                let interval := mk_iv start (Interval.end_inclusive interval) in
                let! _ := rassert (Interval.is_valid interval) in
                let! set := put_back interval in
                Ret (Ok true, set, s)
              else transmit_set_loop fuel buffer cursor set true writer_context context s
          | Err err => let! set := put_back interval in Ret (Err err, set, s)
          end
      end
  end.
Definition transmit_set (buffer : Buffer.t B) (set : IntervalSet Z) (writer_context : C) (context : Writer) (s : Tx)
    : outcome (result bool OnTransmitError * IntervalSet Z * Tx) :=
  if IntervalSetOps.is_empty set then Ret (Ok false, set, s)
  else transmit_set_loop (S (length (intervals set))) buffer (viewer buffer) set false writer_context context s.

Definition transmit_fin (buffer : Buffer.t B) (writer_context : C) (context : Writer) : tx unit := fun s =>
  if is_blocked (flow_controller s) then Ret (Err CouldNotWriteFrame, s) else
  match tx_state s with
  | SenderState.Finishing FinState.Pending | SenderState.Finishing FinState.Lost =>
      let! total := Buffer.total_len buffer in
      let! '(res, written) := write_fin total writer_context context (written s) in
      let s := mk_tx (in_flight s) (flow_controller s) (tx_state s) written in
      match res with
      | Err _ => Ret (Err CouldNotAcquireEnoughSpace, s)
      | Ok _ => tx_update_fin (fun fin => FinState.on_transmit fin (packet_number context)) s
      end
  | _ => Ret (Ok tt, s)
  end.
End Transmissions.
