(* ===== verification/TransmissionsThm.v ===== *)
(** * What is in flight

    The slab allocates and frees the entries of chains without losing or sharing
    one, and the set of transmissions is a finite set of ranges tagged with the
    packets they went out in. *)
From stdpp Require Import gmap.
From S2P Require Import Prelude Codec VarInt PacketNumber PacketMap MapInterface PacketMapThm Interval IntervalSet Frames Transmission Recovery Sync SendBuffer SendBufferThm Transmissions.

#[local] Existing Instance varint_bound.

(** ** The slab *)

(** The free list from index [h] on; it ends at the end of the entries. *)
Fixpoint free_chain (es : list Slab.Entry) (h : Z) (fl : list Z) : Prop :=
  match fl with
  | [] => h = vlen es
  | i :: fl => h = i /\ exists e, vget es i = Some e /\ Slab.occupied e = false /\ free_chain es (Slab.next_free e) fl
  end.

Record slab_rep (s : Slab.t) (M : gmap Z Transmission) (fl : list Z) : Prop := {
  slab_size : vlen (Slab.entries s) <= 65534;
  slab_len : Slab.len s + vlen fl = vlen (Slab.entries s);
  slab_chain : free_chain (Slab.entries s) (Slab.next s) fl;
  slab_nodup : NoDup fl;
  slab_entry i e : vget (Slab.entries s) i = Some e ->
    M !! i = (if Slab.occupied e then Some (Slab.transmission e) else None) /\ (Slab.occupied e = false -> i ∈ fl);
  slab_dom i tr : M !! i = Some tr -> is_Some (vget (Slab.entries s) i)
}.

Definition slab_ok (s : Slab.t) (M : gmap Z Transmission) : Prop := exists fl, slab_rep s M fl.

Lemma vget_range {A} (l : list A) i x : vget l i = Some x -> 0 <= i < vlen l.
Proof. unfold vget. case_match eqn:E; [| done]. apply andb_prop in E. lia. Qed.

Lemma free_chain_unoccupied es h fl i : free_chain es h fl -> i ∈ fl -> exists e, vget es i = Some e /\ Slab.occupied e = false.
Proof.
  revert h. induction fl as [| j fl IH]; intros h Hc Hi; [by apply elem_of_nil in Hi |].
  destruct Hc as (_ & e & He & Ho & Hc). apply elem_of_cons in Hi as [-> | Hi]; [by exists e | by apply (IH _ Hc)].
Qed.

Lemma free_chain_set es es' h fl i :
  free_chain es h fl -> i ∉ fl -> vlen es' = vlen es -> (forall j, j <> i -> vget es' j = vget es j) -> free_chain es' h fl.
Proof.
  intros Hc Hi Hl Hg. revert h Hc Hi. induction fl as [| j fl IH]; intros h Hc Hi; [cbn in *; lia |].
  apply not_elem_of_cons in Hi as [Hij Hi]. destruct Hc as (-> & e & He & Ho & Hc). split; [done |].
  exists e. rewrite Hg by done. split; [done |]. split; [done |]. by apply IH.
Qed.

(** An occupied entry and the free list do not fill the entries. *)
Lemma free_count es fl h i e :
  free_chain es h fl -> NoDup fl -> vget es i = Some e -> Slab.occupied e = true -> vlen fl < vlen es.
Proof.
  intros Hc Hn He Ho. assert (Hi : i ∉ fl).
  { intros Hi. destruct (free_chain_unoccupied _ _ _ _ Hc Hi) as (e' & He' & Ho'). rewrite He in He'. congruence. }
  assert (Hsub : i :: fl ⊆+ seqZ 0 (vlen es)).
  { apply NoDup_submseteq; [by constructor |]. intros j [-> | Hj]%elem_of_cons; apply elem_of_seqZ; [by apply vget_range in He |].
    destruct (free_chain_unoccupied _ _ _ _ Hc Hj) as (e' & He' & _). by apply vget_range in He'. }
  apply submseteq_length in Hsub. rewrite length_seqZ in Hsub. cbn in Hsub. unfold vlen in *. lia.
Qed.

Lemma slab_default_ok : slab_ok Slab.default ∅.
Proof. exists []. split; try done; [constructor |]. intros i e Hv. apply vget_range in Hv. change (vlen _) with 0 in Hv. lia. Qed.

Lemma slab_insert_ok s M tr :
  slab_ok s M -> Slab.has_capacity s = true ->
  returns (Slab.insert s tr) (fun '(id, s') =>
    1 <= id /\ M !! (id - 1) = None /\ slab_ok s' (<[id - 1 := tr]> M)).
Proof.
  intros [fl [Hsz Hlen Hch Hnd He Hd]] Hcap. unfold Slab.insert. rewrite Hcap. cbn [rassert obind].
  apply Z.ltb_lt in Hcap. change (umax 16) with 65535 in Hcap. pose proof (vlen_nonneg fl).
  rewrite add_c_Ret by lia. cbn [obind]. destruct fl as [| i fl].
  - cbn in Hch. rewrite Hch, vget_end by lia. change (vlen (@nil Z)) with 0 in *.
    rewrite add_c_Ret by lia. cbn [obind]. rewrite add_c_Ret by lia. cbn [obind]. apply returns_ret.
    pose proof (vlen_nonneg (Slab.entries s)). replace (1 + vlen (Slab.entries s) - 1) with (vlen (Slab.entries s)) by lia.
    assert (Hnone : M !! vlen (Slab.entries s) = None).
    { destruct (M !! _) eqn:E; [| done]. destruct (Hd _ _ E) as [e Hv]. apply vget_range in Hv. lia. }
    split; [lia |]. split; [done |]. exists []. split; cbn; rewrite ?vlen_app; change (vlen [_]) with 1; change (vlen (@nil Z)) with 0; try done; try lia; try solve [constructor].
    + intros j e. rewrite vget_snoc. case_decide as Hj; [intros [= <-]; subst; by rewrite lookup_insert_eq |].
      rewrite lookup_insert_ne by done. apply He.
    + intros j tr'. rewrite vget_snoc. case_decide as Hj; [done |]. rewrite lookup_insert_ne by done. apply Hd.
  - destruct Hch as (-> & e & Hv & Ho & Hch). rewrite Hv, Ho. cbn [negb rassert obind]. pose proof (vget_range _ _ _ Hv).
    destruct (vset_spec (Slab.entries s) i (Slab.mk_entry tr 0 true)) as (es & -> & L & G); [done |]. cbn [obind].
    rewrite add_c_Ret by lia. cbn [obind]. apply returns_ret. replace (1 + i - 1) with i by lia.
    destruct (He _ _ Hv) as [HM _]. rewrite Ho in HM. apply NoDup_cons in Hnd as [Hi Hnd]. rewrite vlen_cons in *.
    split; [lia |]. split; [done |]. exists fl. split; cbn; rewrite ?L; try done; try lia.
    + apply (free_chain_set (Slab.entries s) _ _ _ i); try done. intros j Hj. by rewrite G, decide_False.
    + intros j e'. rewrite G. case_decide as Hj; [intros [= <-]; subst; by rewrite lookup_insert_eq |].
      rewrite lookup_insert_ne by done. intros Hv'. destruct (He _ _ Hv') as [-> Hin]. split; [done |]. intros Ho'.
      specialize (Hin Ho'). apply elem_of_cons in Hin as [-> | Hin]; done.
    + intros j tr'. rewrite G. case_decide as Hj; [done |]. rewrite lookup_insert_ne by done. apply Hd.
Qed.

Lemma slab_remove_ok s M i tr :
  slab_ok s M -> M !! i = Some tr ->
  returns (Slab.remove s (i + 1)) (fun '(tr', s') => tr' = tr /\ slab_ok s' (delete i M) /\ Slab.len s' = Slab.len s - 1).
Proof.
  intros [fl [Hsz Hlen Hch Hnd He Hd]] HM. destruct (Hd _ _ HM) as [e Hv]. pose proof (vget_range _ _ _ Hv).
  destruct (He _ _ Hv) as [HM' Hfree]. rewrite HM in HM'. destruct (Slab.occupied e) eqn:Ho; [| done]. injection HM' as ->.
  pose proof (free_count _ _ _ _ _ Hch Hnd Hv Ho) as Hcount. unfold Slab.remove.
  rewrite sub_c_Ret by lia. cbn [obind]. replace (i + 1 - 1) with i by lia. unfold vindex. rewrite Hv. cbn [obind].
  destruct (vset_spec (Slab.entries s) i (Slab.mk_entry (Slab.transmission e) (Slab.next s) false)) as (es & -> & L & G); [done |].
  cbn [obind]. rewrite sub_c_Ret by lia. cbn [obind]. apply returns_ret. split; [done |]. split; [| done].
  assert (Hi : i ∉ fl).
  { intros Hi. destruct (free_chain_unoccupied _ _ _ _ Hch Hi) as (e' & He' & Ho'). rewrite Hv in He'. congruence. }
  exists (i :: fl). split; cbn; rewrite ?L, ?vlen_cons; try done; try lia.
  - split; [done |]. eexists. rewrite G, decide_True by done. split; [reflexivity |]. split; [done |].
    apply (free_chain_set (Slab.entries s) _ _ _ i); try done. intros j Hj. by rewrite G, decide_False.
  - by constructor.
  - intros j e'. rewrite G. case_decide as Hj; [intros [= <-]; subst; rewrite lookup_delete_eq; split; [done | set_solver] |].
    rewrite lookup_delete_ne by done. intros Hv'. destruct (He _ _ Hv') as [-> Hin]. split; [done | set_solver].
  - intros j tr'. rewrite G. case_decide as Hj; [done |]. rewrite lookup_delete_ne by done. apply Hd.
Qed.

Lemma slab_replace_ok s M i tr next :
  slab_ok s M -> M !! i = Some tr ->
  returns (Slab.replace_next s (i + 1) next) (fun '(old, s') =>
    old = t_next tr /\ slab_ok s' (<[i := set_next tr next]> M) /\ Slab.len s' = Slab.len s).
Proof.
  intros [fl [Hsz Hlen Hch Hnd He Hd]] HM. destruct (Hd _ _ HM) as [e Hv]. pose proof (vget_range _ _ _ Hv).
  destruct (He _ _ Hv) as [HM' _]. rewrite HM in HM'. destruct (Slab.occupied e) eqn:Ho; [| done]. injection HM' as ->.
  unfold Slab.replace_next, Slab.get.
  rewrite !sub_c_Ret by lia. cbn [obind]. replace (i + 1 - 1) with i by lia. unfold vindex. rewrite Hv. cbn [obind].
  rewrite Ho. cbn [rassert obind]. rewrite ?Ho.
  destruct (vset_spec (Slab.entries s) i (Slab.mk_entry (set_next (Slab.transmission e) next) (Slab.next_free e) true)) as (es & -> & L & G); [done |].
  cbn [obind]. apply returns_ret. split; [done |]. split; [| done].
  assert (Hi : i ∉ fl).
  { intros Hi. destruct (free_chain_unoccupied _ _ _ _ Hch Hi) as (e' & He' & Ho'). rewrite Hv in He'. congruence. }
  exists fl. split; cbn; rewrite ?L; try done; try lia.
  - apply (free_chain_set (Slab.entries s) _ _ _ i); try done. intros j Hj. by rewrite G, decide_False.
  - intros j e'. rewrite G. case_decide as Hj; [intros [= <-]; subst; by rewrite lookup_insert_eq |].
    rewrite lookup_insert_ne by done. apply He.
  - intros j tr'. rewrite G. case_decide as Hj; [done |]. rewrite lookup_insert_ne by done. apply Hd.
Qed.

Lemma slab_chain_ok s M p q trp trq :
  slab_ok s M -> M !! p = Some trp -> M !! q = Some trq -> p <> q ->
  returns (Slab.chain s (p + 1) (q + 1)) (fun s' =>
    slab_ok s' (<[q := set_next trq (t_next trp)]> (<[p := set_next trp (Some (q + 1))]> M))).
Proof.
  intros Hs Hp Hq Hne. unfold Slab.chain. rstep (slab_replace_ok s M p trp); [done.. |].
  intros [old s1] (-> & Hs1 & _). rstep (slab_replace_ok s1 _ q trq); [done | by rewrite lookup_insert_ne |].
  intros [old s2] (_ & Hs2 & _). by apply returns_ret.
Qed.

(** Without entries in use there is room. *)
Lemma slab_empty_capacity s : slab_ok s ∅ -> Slab.has_capacity s = true.
Proof.
  intros [fl [Hsz Hlen Hch Hnd He Hd]]. apply Z.ltb_lt. change (umax 16) with 65535.
  assert (Hsub : seqZ 0 (vlen (Slab.entries s)) ⊆+ fl).
  { apply NoDup_submseteq; [apply NoDup_seqZ |]. intros i Hi%elem_of_seqZ.
    destruct (vget_Some (Slab.entries s) i) as [e Hv]; [lia |]. destruct (He _ _ Hv) as [HM Hin].
    rewrite lookup_empty in HM. destruct (Slab.occupied e); [done | by apply Hin]. }
  apply submseteq_length in Hsub. rewrite length_seqZ in Hsub. unfold vlen in *. lia.
Qed.

(** ** Chains *)

Definition rng (tr : Transmission) : Z * Z := (t_offset tr, t_len tr).

(** [next] is the head of the chain of the entries [ids]. *)
Fixpoint chain_of (M : gmap Z Transmission) (next : option Z) (ids : list Z) : Prop :=
  match ids with
  | [] => next = None
  | i :: ids => next = Some (i + 1) /\ exists tr, M !! i = Some tr /\ chain_of M (t_next tr) ids
  end.

Lemma chain_of_ext M M' next ids :
  chain_of M next ids -> (forall k, k ∈ ids -> M' !! k = M !! k) -> chain_of M' next ids.
Proof.
  revert next. induction ids as [| i ids IH]; intros next Hc He; [done |]. destruct Hc as (-> & tr & Hi & Hc).
  split; [done |]. exists tr. rewrite He by set_solver. split; [done |]. apply IH; [done | set_solver].
Qed.
Lemma chain_of_Some M next ids k : chain_of M next ids -> k ∈ ids -> is_Some (M !! k).
Proof.
  revert next. induction ids as [| i ids IH]; intros next Hc Hk; [by apply elem_of_nil in Hk |].
  destruct Hc as (_ & tr & Hi & Hc). apply elem_of_cons in Hk as [-> | Hk]; [by exists tr | by apply (IH (t_next tr))].
Qed.

(** The ranges of a packet. *)
Definition ranges_in (M : gmap Z Transmission) (tr : Transmission) (ids : list Z) (r : Z * Z) : Prop :=
  r = rng tr \/ exists k tr', k ∈ ids /\ M !! k = Some tr' /\ r = rng tr'.

Definition range_ok (r : Z * Z) : Prop := 0 <= r.1 /\ 1 <= r.2 <= 65535 /\ r.1 + r.2 <= VarInt.MAX.

(** The packets [P], the slab [M] and the chains [Ch] of the packets hold the
    ranges [A], each tagged with its packet. *)
Record linked (P M : gmap Z Transmission) (Ch : gmap Z (list Z)) (A : gset (Z * (Z * Z))) : Prop := {
  linked_chain n tr : P !! n = Some tr -> exists ids, Ch !! n = Some ids /\ chain_of M (t_next tr) ids /\ NoDup ids;
  linked_dom n ids : Ch !! n = Some ids -> is_Some (P !! n);
  linked_disjoint n n' ids ids' i : Ch !! n = Some ids -> Ch !! n' = Some ids' -> i ∈ ids -> i ∈ ids' -> n = n';
  linked_used i : is_Some (M !! i) -> exists n ids, Ch !! n = Some ids /\ i ∈ ids;
  linked_ranges n r : (n, r) ∈ A <-> exists tr ids, P !! n = Some tr /\ Ch !! n = Some ids /\ ranges_in M tr ids r;
  linked_ok n r : (n, r) ∈ A -> varint_ok n /\ range_ok r
}.

Lemma linked_ids P M Ch A n ids k : linked P M Ch A -> Ch !! n = Some ids -> k ∈ ids -> is_Some (M !! k).
Proof.
  intros [Hc Hd _ _ _ _] Hn Hk. destruct (Hd _ _ Hn) as [tr Htr]. destruct (Hc _ _ Htr) as (ids' & Hn' & Hch & _).
  rewrite Hn in Hn'. injection Hn' as <-. by apply (chain_of_Some _ _ _ _ Hch).
Qed.

(** One packet gets a range: its chain grows by entries that were free. *)
Lemma linked_update P M Ch A n y ids' M' r0 :
  linked P M Ch A -> varint_ok n -> range_ok r0 ->
  chain_of M' (t_next y) ids' -> NoDup ids' -> (forall k, k ∉ ids' -> M' !! k = M !! k) ->
  (forall k, k ∈ ids' -> M !! k = None \/ exists ids, Ch !! n = Some ids /\ k ∈ ids) ->
  (forall ids k, Ch !! n = Some ids -> k ∈ ids -> k ∈ ids') ->
  (forall r, ranges_in M' y ids' r <-> r = r0 \/ exists tr ids, P !! n = Some tr /\ Ch !! n = Some ids /\ ranges_in M tr ids r) ->
  linked (<[n:=y]> P) M' (<[n:=ids']> Ch) ({[(n, r0)]} ∪ A).
Proof.
  intros HL Hn Hr0 Hch Hnd Hout Hnew Hold Hrng. pose proof HL as [Hc Hd Hdj Hu Hr Hok].
  assert (Hsep : forall n' ids k, n' <> n -> Ch !! n' = Some ids -> k ∈ ids -> k ∉ ids').
  { intros n' ids k Hne Hn' Hk Hk'. destruct (Hnew k Hk') as [E | (ids2 & E & Hk2)].
    - destruct (linked_ids _ _ _ _ _ _ _ HL Hn' Hk). congruence.
    - apply Hne. by apply (Hdj n' n ids ids2 k). }
  split.
  - intros n' tr. destruct (decide (n' = n)) as [-> | Hne].
    + rewrite !lookup_insert_eq. intros [= <-]. by exists ids'.
    + rewrite !lookup_insert_ne by done. intros Htr. destruct (Hc _ _ Htr) as (ids & Hn' & Hch' & Hnd').
      exists ids. split; [done |]. split; [| done]. apply (chain_of_ext M); [done |]. intros k Hk. by apply Hout, (Hsep n' ids).
  - intros n' ids. destruct (decide (n' = n)) as [-> | Hne]; [intros _; rewrite lookup_insert_eq; by eexists |].
    rewrite !lookup_insert_ne by done. apply Hd.
  - intros n1 n2 ids1 ids2 i.
    destruct (decide (n1 = n)) as [-> | H1], (decide (n2 = n)) as [-> | H2]; try done;
      rewrite ?lookup_insert_eq, ?lookup_insert_ne by done; [intros [= <-] E2 | intros E1 [= <-] |].
    + intros Hi1 Hi2. by destruct (Hsep n2 ids2 i H2 E2 Hi2).
    + intros Hi1 Hi2. by destruct (Hsep n1 ids1 i H1 E1 Hi1).
    + apply Hdj.
  - intros i Hi. destruct (decide (i ∈ ids')) as [Hi' | Hi']; [exists n, ids'; by rewrite lookup_insert_eq |].
    rewrite Hout in Hi by done. destruct (Hu i Hi) as (n' & ids & Hn' & Hin). exists n', ids.
    rewrite lookup_insert_ne; [done |]. intros <-. apply Hi'. by apply (Hold ids).
  - intros n' r. rewrite elem_of_union, elem_of_singleton, Hr. destruct (decide (n' = n)) as [-> | Hne].
    + setoid_rewrite lookup_insert_eq. split.
      * intros H. exists y, ids'. split; [done |]. split; [done |]. apply Hrng. destruct H as [[= ->] | H]; auto.
      * intros (tr & ids & [= <-] & [= <-] & H). apply Hrng in H as [-> | H]; auto.
    + setoid_rewrite lookup_insert_ne; [| done..]. split.
      * intros [[= ? ?] | (tr & ids & Htr & Hn' & H)]; [done |]. exists tr, ids. split; [done |]. split; [done |].
        destruct H as [-> | (k & tr' & Hk & HM & ->)]; [by left |]. right. exists k, tr'.
        rewrite Hout by (by apply (Hsep n' ids)). done.
      * intros (tr & ids & Htr & Hn' & H). right. exists tr, ids. split; [done |]. split; [done |].
        destruct H as [-> | (k & tr' & Hk & HM & ->)]; [by left |]. right. exists k, tr'.
        rewrite Hout in HM by (by apply (Hsep n' ids)). done.
  - intros n' r [[= -> ->]%elem_of_singleton | H]%elem_of_union; [done | by apply Hok].
Qed.

(** A packet is taken out with its chain. *)
Lemma linked_remove P M Ch A n tr ids M' :
  linked P M Ch A -> P !! n = Some tr -> Ch !! n = Some ids ->
  (forall k, k ∉ ids -> M' !! k = M !! k) -> (forall k, k ∈ ids -> M' !! k = None) ->
  linked (delete n P) M' (delete n Ch) (filter (fun x => x.1 <> n) A).
Proof.
  intros HL Hn Hids Hout Hin. pose proof HL as [Hc Hd Hdj Hu Hr Hok].
  assert (Hsep : forall n' ids' k, n' <> n -> Ch !! n' = Some ids' -> k ∈ ids' -> k ∉ ids).
  { intros n' ids' k Hne Hn' Hk Hk'. apply Hne. by apply (Hdj n' n ids' ids k). }
  split.
  - intros n' tr'. destruct (decide (n' = n)) as [-> | Hne]; [by rewrite lookup_delete_eq |].
    rewrite !lookup_delete_ne by done. intros Htr. destruct (Hc _ _ Htr) as (ids' & Hn' & Hch & Hnd).
    exists ids'. split; [done |]. split; [| done]. apply (chain_of_ext M); [done |]. intros k Hk. by apply Hout, (Hsep n' ids').
  - intros n' ids'. destruct (decide (n' = n)) as [-> | Hne]; [by rewrite lookup_delete_eq |].
    rewrite !lookup_delete_ne by done. apply Hd.
  - intros n1 n2 ids1 ids2 i H1 H2. apply lookup_delete_Some in H1 as [_ H1]. apply lookup_delete_Some in H2 as [_ H2].
    by apply (Hdj n1 n2 ids1 ids2).
  - intros i Hi. destruct (decide (i ∈ ids)) as [Hi' | Hi']; [rewrite Hin in Hi by done; by destruct Hi |].
    rewrite Hout in Hi by done. destruct (Hu i Hi) as (n' & ids' & Hn' & Hi2). exists n', ids'.
    rewrite lookup_delete_ne; [done |]. intros <-. congruence.
  - intros n' r. rewrite elem_of_filter, Hr. cbn. destruct (decide (n' = n)) as [-> | Hne].
    + setoid_rewrite lookup_delete_eq. split; [naive_solver | intros (? & ? & ? & _); done].
    + setoid_rewrite lookup_delete_ne; [| done..]. split.
      * intros (_ & tr' & ids' & Htr & Hn' & H). exists tr', ids'. split; [done |]. split; [done |].
        destruct H as [-> | (k & tr2 & Hk & HM & ->)]; [by left |]. right. exists k, tr2. by rewrite Hout by (by apply (Hsep n' ids')).
      * intros (tr' & ids' & Htr & Hn' & H). split; [done |]. exists tr', ids'. split; [done |]. split; [done |].
        destruct H as [-> | (k & tr2 & Hk & HM & ->)]; [by left |]. right. exists k, tr2. by rewrite Hout in HM by (by apply (Hsep n' ids')).
  - intros n' r [_ H]%elem_of_filter. by apply Hok.
Qed.

(** ** The set of transmissions *)

Definition iv_of (r : Z * Z) : Interval Z := mk_iv r.1 (r.1 + r.2 - 1).

Lemma t_range_ok tr : range_ok (rng tr) -> t_range tr = Ret (iv_of (rng tr)).
Proof.
  intros (H0 & H1 & H2). cbn in *. unfold t_range. unfold VarInt.MAX in *. rewrite varint_add_Ret by lia. cbn [obind].
  unfold Interval.from_range, iv_of, step_down_saturating. cbn [step_down varint_bound rng fst snd]. f_equal. f_equal.
  unfold VarInt.checked_sub. destruct (checked_sub (t_offset tr + t_len tr) 1) as [x |] eqn:E.
  - apply checked_sub_Some in E as [-> _]. cbn. lia.
  - apply checked_sub_None in E. lia.
Qed.

Lemma follow_ok ids : forall fuel s M next,
  slab_ok s M -> chain_of M next ids -> NoDup ids -> (length ids < fuel)%nat ->
  (forall k tr, k ∈ ids -> M !! k = Some tr -> range_ok (rng tr)) ->
  returns (Set_.follow fuel s next) (fun '(ivs, s') => exists M',
    slab_ok s' M' /\ (forall k, k ∉ ids -> M' !! k = M !! k) /\ (forall k, k ∈ ids -> M' !! k = None)
    /\ forall iv, iv ∈ ivs <-> exists k tr, k ∈ ids /\ M !! k = Some tr /\ iv = iv_of (rng tr)).
Proof.
  induction ids as [| i ids IH]; intros fuel s M next Hs Hch Hnd Hf Hr.
  { cbn in Hch. subst next. destruct fuel; apply returns_ret; exists M; repeat split; try done; set_solver. }
  destruct Hch as (-> & tr & Hi & Hch). destruct fuel as [| fuel]; [cbn in Hf; lia |]. cbn [Set_.follow].
  apply NoDup_cons in Hnd as [Hni Hnd].
  rstep (slab_remove_ok s M i tr); [done.. |]. intros [tr' s1] (-> & Hs1 & _).
  rewrite t_range_ok by (apply (Hr i); [set_solver | done]). cbn [obind].
  rstep (IH fuel s1 (delete i M)); [done | | done | cbn in Hf; lia | |].
  - apply (chain_of_ext M); [done |]. intros k Hk. rewrite lookup_delete_ne; [done | set_solver].
  - intros k tr' Hk Hk'. rewrite lookup_delete_ne in Hk' by set_solver. apply (Hr k); [set_solver | done].
  - intros [ivs s2] (M' & Hs2 & Hout & Hin & Hiv). apply returns_ret. exists M'. split; [done |]. split; [| split].
    + intros k Hk. rewrite Hout by set_solver. apply lookup_delete_ne. set_solver.
    + intros k [-> | Hk]%elem_of_cons; [| by apply Hin]. rewrite Hout by done. apply lookup_delete_eq.
    + intros iv. rewrite elem_of_cons, Hiv. split.
      * intros [-> | (k & tr' & Hk & HM & ->)]; [exists i, tr; split; [set_solver | done] |].
        exists k, tr'. rewrite lookup_delete_ne in HM by set_solver. split; [set_solver | done].
      * intros (k & tr' & [-> | Hk]%elem_of_cons & HM & ->); [left; congruence |]. right. exists k, tr'.
        rewrite lookup_delete_ne by set_solver. done.
Qed.

Section Flight.
Context (capacity : Z -> Z) (sp : PacketNumberSpace).
Hypothesis capacity_ok : forall n, 0 < n < 2 ^ 63 -> n <= capacity n < 2 ^ 63.

Local Abbreviation pn := (fun n => PacketNumber.from_varint n sp).

(** The set holds the ranges [A]. *)
Definition flight_ok (st : Set_.t) (A : gset (Z * (Z * Z))) : Prop :=
  exists P M Ch, map_ok sp (Set_.packets st) P /\ slab_ok (Set_.overflow st) M /\ linked P M Ch A.

Lemma linked_empty : linked ∅ ∅ ∅ ∅.
Proof. split; try done; [intros i [? ?]; done |]. intros n r. split; [set_solver | intros (? & ? & ? & _); done]. Qed.

Lemma flight_default : flight_ok (Set_.default capacity) ∅.
Proof.
  exists ∅, ∅, ∅. split; [by apply default_ok |]. split; [apply slab_default_ok | apply linked_empty].
Qed.

Lemma linked_packets P M Ch A : linked P M Ch A -> A = ∅ <-> P = ∅.
Proof.
  intros [Hc _ _ _ Hr _]. split; intros E; subst.
  - apply map_empty. intros n. destruct (P !! n) as [tr |] eqn:Hn; [| done]. destruct (Hc _ _ Hn) as (ids & Hids & _).
    assert (H : (n, rng tr) ∈ (∅ : gset (Z * (Z * Z)))) by (apply Hr; exists tr, ids; split; [done |]; split; [done | by left]). set_solver.
  - apply leibniz_equiv, elem_of_equiv_empty. intros [n r] (tr & ids & Hn & _)%Hr. done.
Qed.

Lemma flight_is_empty st A : flight_ok st A -> Set_.is_empty st = bool_decide (A = ∅).
Proof.
  intros (P & M & Ch & Hp & _ & HL). unfold Set_.is_empty. rewrite (is_empty_ok sp _ P) by done.
  apply bool_decide_ext. symmetry. by apply linked_packets with M Ch.
Qed.

Lemma flight_room st : flight_ok st ∅ -> Set_.has_capacity st = true.
Proof.
  intros (P & M & Ch & _ & Hs & HL). apply slab_empty_capacity. replace ∅ with M; [done |]. apply map_empty. intros i.
  destruct (M !! i) as [tr |] eqn:E; [| done]. destruct HL as [_ Hd _ Hu Hr _].
  destruct (Hu i) as (n & ids & Hn & _); [by exists tr |]. destruct (Hd _ _ Hn) as [tr' Hp].
  assert (H : (n, rng tr') ∈ (∅ : gset (Z * (Z * Z)))) by (apply Hr; exists tr', ids; split; [done |]; split; [done | by left]). set_solver.
Qed.

Lemma flight_clear st A : flight_ok st A -> returns (Set_.clear st) (fun st' => flight_ok st' ∅).
Proof.
  intros (P & M & Ch & Hp & Hs & HL). unfold Set_.clear. destruct (clear_ok sp (Set_.packets st) P Hp) as (m & -> & Hm).
  apply returns_ret. exists ∅, ∅, ∅. split; [done |]. split; [apply slab_default_ok | apply linked_empty].
Qed.

(** The second range of a packet starts its chain. *)
Lemma linked_second P M Ch A n prev tr i :
  linked P M Ch A -> P !! n = Some prev -> Ch !! n = Some [] -> M !! i = None ->
  varint_ok n -> range_ok (rng tr) -> t_next tr = None ->
  linked (<[n:=set_next prev (Some (i + 1))]> P) (<[i:=tr]> M) (<[n:=[i]]> Ch) ({[(n, rng tr)]} ∪ A).
Proof.
  intros HL Hn Hids Hfree Hvn Hr Hnext. apply (linked_update P M Ch A); try done.
  - split; [done |]. exists tr. by rewrite lookup_insert_eq.
  - apply NoDup_singleton.
  - intros k Hk. apply lookup_insert_ne. set_solver.
  - intros k ->%list_elem_of_singleton. by left.
  - intros ids k E Hk. rewrite Hids in E. injection E as <-. set_solver.
  - intros r. split.
    + intros [-> | (k & tr' & ->%list_elem_of_singleton & E & ->)].
      * right. exists prev, []. split; [done |]. split; [done |]. by left.
      * rewrite lookup_insert_eq in E. injection E as <-. by left.
    + intros [-> | (tr' & ids & E1 & E2 & H)]; [right; exists i, tr; rewrite lookup_insert_eq; split; [set_solver | done] |].
      rewrite Hn in E1. rewrite Hids in E2. injection E1 as <-. injection E2 as <-.
      destruct H as [-> | (k & ? & Hk & _)]; [by left | set_solver].
Qed.

(** Further ranges are linked in behind the first entry of the chain. *)
Lemma linked_further P M Ch A n prev tr i j trj ids :
  linked P M Ch A -> P !! n = Some prev -> Ch !! n = Some (j :: ids) -> M !! i = None -> M !! j = Some trj ->
  varint_ok n -> range_ok (rng tr) -> t_next prev = Some (j + 1) -> chain_of M (t_next trj) ids -> NoDup (j :: ids) ->
  linked (<[n:=prev]> P) (<[i:=set_next tr (t_next trj)]> (<[j:=set_next trj (Some (i + 1))]> (<[i:=tr]> M)))
    (<[n:=j :: i :: ids]> Ch) ({[(n, rng tr)]} ∪ A).
Proof.
  intros HL Hn Hids Hfree Hj Hvn Hr Enext Hch [Hnj Hnd]%NoDup_cons. assert (Hji : j <> i) by congruence.
  assert (Hi : forall k, k ∈ ids -> k <> i) by (intros k Hk ->; destruct (chain_of_Some _ _ _ _ Hch Hk); congruence).
  apply (linked_update P M Ch A); try done.
  - split; [done |]. eexists. rewrite lookup_insert_ne, lookup_insert_eq by done. split; [reflexivity |]. split; [done |].
    eexists. rewrite lookup_insert_eq. split; [reflexivity |]. apply (chain_of_ext M); [done |].
    intros k Hk. rewrite !lookup_insert_ne; [done | apply not_eq_sym, Hi | |apply not_eq_sym, Hi]; set_solver.
  - apply NoDup_cons. split; [set_solver |]. apply NoDup_cons. split; [| done]. intros Hk. by apply (Hi i).
  - intros k Hk. rewrite !lookup_insert_ne by set_solver. done.
  - intros k [-> | [-> | Hk]%elem_of_cons]%elem_of_cons; [right; exists (j :: ids); set_solver | by left | right; exists (j :: ids); set_solver].
  - intros ids' k E Hk. rewrite Hids in E. injection E as <-. set_solver.
  - intros r. split.
    + intros [-> | (k & tr' & Hk & E & ->)]; [right; exists prev, (j :: ids); split; [done |]; split; [done | by left] |].
      destruct (decide (k = i)) as [-> |]; [rewrite lookup_insert_eq in E; injection E as <-; by left |].
      right. exists prev, (j :: ids). split; [done |]. split; [done |]. right. rewrite lookup_insert_ne in E by done.
      destruct (decide (k = j)) as [-> |]; [rewrite lookup_insert_eq in E; injection E as <-; exists j, trj; split; [set_solver | done] |].
      rewrite !lookup_insert_ne in E by done. exists k, tr'. split; [set_solver | done].
    + intros [-> | (tr' & ids' & E1 & E2 & H)]; [right; eexists i, _; rewrite lookup_insert_eq; split; [set_solver | done] |].
      rewrite Hn in E1. rewrite Hids in E2. injection E1 as <-. injection E2 as <-.
      destruct H as [-> | (k & tr' & Hk & E & ->)]; [by left |]. right. destruct (decide (k = j)) as [-> | Hkj].
      * eexists j, _. rewrite lookup_insert_ne, lookup_insert_eq by done. split; [set_solver |]. split; [done |].
        rewrite Hj in E. by injection E as <-.
      * exists k, tr'. assert (k <> i) by (apply Hi; set_solver). rewrite !lookup_insert_ne by done. split; [set_solver | done].
Qed.

(** A further range of a packet goes to the slab. *)
Lemma chain_insert_ok P M Ch A slab n prev ids tr :
  slab_ok slab M -> linked P M Ch A -> P !! n = Some prev -> Ch !! n = Some ids -> Slab.has_capacity slab = true ->
  varint_ok n -> range_ok (rng tr) -> t_next tr = None ->
  returns (let! '(idx, slab) := Slab.insert slab tr in
           match t_next prev with
           | Some p => let! slab := Slab.chain slab p idx in Ret (slab, prev)
           | None => Ret (slab, set_next prev (Some idx))
           end) (fun '(slab', y) => exists M' ids',
    slab_ok slab' M' /\ linked (<[n:=y]> P) M' (<[n:=ids']> Ch) ({[(n, rng tr)]} ∪ A)).
Proof.
  intros Hs HL Hn Hids Hcap Hvn Hr Hnext. destruct (linked_chain _ _ _ _ HL _ _ Hn) as (ids2 & E & Hch & Hnd).
  rewrite Hids in E. injection E as <-. rstep (slab_insert_ok slab M tr); [done.. |]. intros [id s1] (Hid & Hfree & Hs1).
  set (i := id - 1) in *. replace id with (i + 1) by lia. destruct ids as [| j ids].
  - cbn in Hch. rewrite Hch. apply returns_ret. exists (<[i:=tr]> M), [i]. split; [done |]. by apply linked_second.
  - destruct Hch as (Enext & trj & Hj & Hch). rewrite Enext.
    rstep (slab_chain_ok s1 _ j i trj tr); [done | by rewrite lookup_insert_ne by congruence | by rewrite lookup_insert_eq | congruence |].
    intros s2 Hs2. apply returns_ret. eexists _, (j :: i :: ids). split; [exact Hs2 |]. by apply linked_further.
Qed.

Lemma flight_ranges st A m r : flight_ok st A -> (m, r) ∈ A -> varint_ok m /\ range_ok r.
Proof. intros (P & M & Ch & _ & _ & HL). apply (linked_ok _ _ _ _ HL). Qed.

Lemma flight_insert st A n o l :
  flight_ok st A -> Set_.has_capacity st = true -> varint_ok n -> (forall m r, (m, r) ∈ A -> m <= n) -> range_ok (o, l) ->
  returns (Set_.insert capacity st (pn n) o l) (fun st' => flight_ok st' ({[(n, (o, l))]} ∪ A)).
Proof.
  intros (P & M & Ch & Hp & Hs & HL) Hcap Hn Hle Hr. unfold Set_.insert. destruct Hr as (H0 & H1 & H2). cbn in H0, H1, H2.
  change (umax 16) with 65535. rewrite (proj2 (Z.leb_le _ _)) by lia. cbn [rassert obind].
  set (tr := mk_transmission o l None). set (upd := fun slab prev => _).
  assert (Hge : P = ∅ \/ exists k, is_Some (P !! k) /\ k <= n).
  { destruct (decide (P = ∅)) as [-> | Hne]; [by left | right]. apply map_choose in Hne as (k & tr' & Hk).
    exists k. split; [by exists tr' |]. destruct (linked_chain _ _ _ _ HL _ _ Hk) as (ids & Hids & _).
    apply (Hle k (rng tr')), (linked_ranges _ _ _ _ HL). exists tr', ids. split; [done |]. split; [done | by left]. }
  assert (Hup : exists y slab' M' ids', match P !! n with Some p => upd (Set_.overflow st) p = Ret (slab', y) | None => slab' = Set_.overflow st /\ y = tr end
    /\ slab_ok slab' M' /\ linked (<[n:=y]> P) M' (<[n:=ids']> Ch) ({[(n, (o, l))]} ∪ A)).
  { destruct (P !! n) as [prev |] eqn:En.
    - destruct (linked_chain _ _ _ _ HL _ _ En) as (ids & Hids & _).
      destruct (chain_insert_ok P M Ch A (Set_.overflow st) n prev ids tr) as ([slab' y] & E & M' & ids' & Hs' & HL'); try done.
      exists y, slab', M', ids'. done.
    - exists tr, (Set_.overflow st), M, []. split; [done |]. split; [done |].
      assert (Hc : Ch !! n = None).
      { destruct (Ch !! n) as [ids |] eqn:E; [| done]. destruct (linked_dom _ _ _ _ HL _ _ E). congruence. }
      apply (linked_update P M Ch A); try done; try (intros; set_solver).
      + constructor.
      + intros r. split; [intros [-> | (k & ? & Hk & _)]; [by left | set_solver] |].
        intros [-> | (? & ? & ? & _)]; [by left | congruence]. }
  destruct Hup as (y & slab' & M' & ids' & Hy & Hs' & HL').
  destruct (insert_or_update_ok capacity sp capacity_ok _ (Set_.packets st) P n tr upd (Set_.overflow st) slab' y) as (m' & -> & Hm'); try done.
  apply returns_ret. by exists (<[n:=y]> P), M', (<[n:=ids']> Ch).
Qed.

(** Taking out packets, one after the other. *)
Lemma ranges_of_ok ns : forall P M Ch A slab,
  NoDup ns -> slab_ok slab M -> linked P M Ch A ->
  returns (Set_.ranges_of slab (omap (fun k => (fun v => (pn k, v)) <$> P !! k) ns)) (fun '(ivs, slab') => exists M' Ch',
    slab_ok slab' M'
    /\ (forall P', (forall k, P' !! k = if decide (k ∈ ns) then None else P !! k) -> linked P' M' Ch' (filter (fun x => x.1 ∉ ns) A))
    /\ forall iv, iv ∈ ivs <-> exists n r, n ∈ ns /\ (n, r) ∈ A /\ iv = iv_of r).
Proof.
  induction ns as [| n ns IH]; intros P M Ch A slab Hnd Hs HL.
  { apply returns_ret. exists M, Ch. split; [done |]. split; [| intros iv; set_solver].
    intros P' HP. replace P' with P by (apply map_eq; intros k; by rewrite HP).
    replace (filter _ A) with A; [done |]. apply leibniz_equiv. intros x. rewrite elem_of_filter. set_solver. }
  apply NoDup_cons in Hnd as [Hni Hnd]. rewrite omap_cons_match. destruct (P !! n) as [tr |] eqn:En; cbn [fmap option_fmap option_map].
  - destruct (linked_chain _ _ _ _ HL _ _ En) as (ids & Hids & Hch & Hndi). cbn [Set_.ranges_of].
    assert (Hrn : forall r, (n, r) ∈ A <-> ranges_in M tr ids r).
    { intros r. rewrite (linked_ranges _ _ _ _ HL). split; [intros (? & ? & ? & ? & ?); congruence | by exists tr, ids]. }
    rewrite t_range_ok by (apply (linked_ok _ _ _ _ HL n), Hrn; by left). cbn [obind].
    rstep (follow_ok ids _ slab M); [done | done | done | |
      intros k tr' Hk HM; apply (linked_ok _ _ _ _ HL n), Hrn; right; by exists k, tr' |].
    { destruct Hs as [fl Hsr]. assert (Hsub : ids ⊆+ seqZ 0 (vlen (Slab.entries slab))).
      { apply NoDup_submseteq; [done |]. intros k Hk. apply elem_of_seqZ. destruct (chain_of_Some _ _ _ _ Hch Hk) as [tr' HM].
        destruct (slab_dom _ _ _ Hsr _ _ HM) as [e He]. apply vget_range in He. lia. }
      apply submseteq_length in Hsub. rewrite length_seqZ in Hsub. unfold vlen in Hsub. lia. }
    intros [ivs1 s1] (M1 & Hs1 & Hout & Hin & Hiv1).
    pose proof (linked_remove P M Ch A n tr ids M1 HL En Hids Hout Hin) as HL1.
    replace (omap (fun k => (fun v => (pn k, v)) <$> P !! k) ns) with (omap (fun k => (fun v => (pn k, v)) <$> delete n P !! k) ns).
    2: { apply list_omap_ext, Forall_Forall2_diag, Forall_forall. intros k Hk. rewrite lookup_delete_ne; [done | set_solver]. }
    rstep (IH (delete n P) M1 (delete n Ch) _ s1); [done.. |]. intros [ivs2 s2] (M2 & Ch2 & Hs2 & HL2 & Hiv2). apply returns_ret.
    exists M2, Ch2. split; [done |]. split.
    + intros P' HP. replace (filter (fun x => x.1 ∉ n :: ns) A) with (filter (fun x => x.1 ∉ ns) (filter (fun x => x.1 <> n) A)).
      2: { apply leibniz_equiv. intros x. rewrite !elem_of_filter. set_solver. }
      apply HL2. intros k. rewrite HP. destruct (decide (k = n)) as [-> |].
      * rewrite lookup_delete_eq, decide_True by set_solver. by case_decide.
      * rewrite lookup_delete_ne by done. repeat case_decide; done || set_solver.
    + intros iv. rewrite elem_of_cons, elem_of_app, Hiv1, Hiv2. split.
      * intros [-> | [(k & tr' & Hk & HM & ->) | (m & r & Hm & [_ HA]%elem_of_filter & ->)]].
        -- exists n, (rng tr). split; [set_solver |]. split; [| done]. apply Hrn. by left.
        -- exists n, (rng tr'). split; [set_solver |]. split; [| done]. apply Hrn. right. by exists k, tr'.
        -- exists m, r. split; [set_solver | done].
      * intros (m & r & [-> | Hm]%elem_of_cons & HA & ->).
        -- apply Hrn in HA as [-> | (k & tr' & Hk & HM & ->)]; [by left |]. right. left. by exists k, tr'.
        -- right. right. exists m, r. rewrite elem_of_filter. split; [done |]. split; [| done]. split; [| done]. cbn. set_solver.
  - assert (HnA : forall r, (n, r) ∉ A).
    { intros r (tr & ids & E & _)%(linked_ranges _ _ _ _ HL). congruence. }
    eapply returns_mono; [by apply (IH P M Ch A slab) |]. intros [ivs s1] (M1 & Ch1 & Hs1 & HL1 & Hiv).
    exists M1, Ch1. split; [done |]. split.
    + intros P' HP. replace (filter (fun x => x.1 ∉ n :: ns) A) with (filter (fun x => x.1 ∉ ns) A).
      2: { apply leibniz_equiv. intros [m r]. rewrite !elem_of_filter, not_elem_of_cons. cbn. split; [| naive_solver].
           intros [? HA]. split; [| done]. split; [| done]. intros ->. by destruct (HnA r). }
      apply HL1. intros k. rewrite HP. repeat case_decide; try done; [| set_solver].
      assert (k = n) as -> by set_solver. done.
    + intros iv. rewrite Hiv. split; [intros (m & r & Hm & H); exists m, r; split; [set_solver | done] |].
      intros (m & r & [-> | Hm]%elem_of_cons & HA & ->); [by destruct (HnA r) | by exists m, r].
Qed.

Lemma flight_remove st A a b :
  flight_ok st A -> varint_ok a -> varint_ok b -> a <= b ->
  returns (Set_.remove_range st (range sp a b)) (fun '(ivs, st') =>
    flight_ok st' (filter (fun x => ~ (a <= x.1 <= b)) A)
    /\ forall iv, iv ∈ ivs <-> exists n r, a <= n <= b /\ (n, r) ∈ A /\ iv = iv_of r).
Proof.
  intros (P & M & Ch & Hp & Hs & HL) Ha Hb Hab. unfold Set_.remove_range.
  destruct (remove_range_ok sp (Set_.packets st) P a b) as (m' & -> & Hm'); try done. cbn [obind].
  rstep (ranges_of_ok (seqZ a (b - a + 1)) P M Ch A (Set_.overflow st)); [apply NoDup_seqZ | done | done |].
  intros [ivs s'] (M' & Ch' & Hs' & HL' & Hiv). apply returns_ret. split.
  - exists (without P a b), M', Ch'. split; [done |]. split; [done |].
    replace (filter (fun x => ~ (a <= x.1 <= b)) A) with (filter (fun x => x.1 ∉ seqZ a (b - a + 1)) A).
    2: { apply leibniz_equiv. intros x. rewrite !elem_of_filter, elem_of_seqZ. split; intros [? ?]; (split; [lia | done]). }
    apply HL'. intros k. rewrite lookup_without. repeat case_decide; rewrite ?elem_of_seqZ in *; done || lia.
  - intros iv. rewrite Hiv. split; intros (n & r & Hn & H); exists n, r; rewrite ?elem_of_seqZ in *; (split; [lia | done]).
Qed.

(** The packets in flight are in a range. *)
Lemma flight_get_range st A :
  flight_ok st A -> A <> ∅ -> exists a b, PacketMap.get_range (Set_.packets st) = Ret (range sp a b)
    /\ varint_ok a /\ varint_ok b /\ a <= b /\ forall m r, (m, r) ∈ A -> a <= m <= b.
Proof.
  intros (P & M & Ch & [_ [(_ & -> & _) | (a & b & H)]] & _ & HL) HA.
  { exfalso. apply HA. apply leibniz_equiv. intros [m r]. split; [| set_solver].
    intros (tr & ids & E & _)%(linked_ranges _ _ _ _ HL). done. }
  destruct H as ((Es & Ee & Hs & He & Hse & _) & _ & _ & _ & HP). exists a, b. unfold PacketMap.get_range. rewrite Es, Ee, (range_new sp) by done.
  split_and!; try done. intros m r (tr & ids & E & _)%(linked_ranges _ _ _ _ HL). rewrite HP in E. by case_decide.
Qed.
End Flight.
