(* ===== verification/DataSender.v ===== *)
(** * The data sender

    [sync/data_sender.rs], the frame writers of [sync/data_sender/writer.rs] and
    the flow controller of [space/crypto_stream.rs]: the data of a stream until
    the peer has acknowledged it. *)
From S2P Require Import Prelude Codec VarInt PacketNumber PacketMap Interval IntervalSet FrameAck Frames Transmission Recovery Sync SendBuffer Transmissions.

#[local] Existing Instance varint_bound.

(** [ack::Set]: a set of packet numbers, as far as the data sender asks. *)
Record AckSet := mk_ack_set { contains : Z -> outcome bool; as_range : outcome PacketNumberRange.t }.
(** A packet number, and a range of them. *)
Definition packet_number_set (packet_number : Z) : AckSet :=
  mk_ack_set (pn_eq packet_number) (PacketNumberRange.new packet_number packet_number).
Definition range_set (range : PacketNumberRange.t) : AckSet := mk_ack_set (PacketNumberRange.contains range) (Ret range).

(** ** Frame writers *)

Section Writers.
Context {B : Type} `{Bytes B} (be : bool).

(** [writer::Stream]. *)
Definition stream_write_chunk (offset : Z) (buffer : Buffer.t B) (data : View.t) (stream_id : Z) (context : Writer)
    (written : list frame) : outcome (result unit FitError * View.t * list frame) :=
  let remaining_capacity := remaining_capacity context written in
  let! data_len := View.len_varint data in
  let! _ := rassert (data_len <=? remaining_capacity) in
  let! bytes := View.bytes buffer data in
  let! '(fit, frame) := Stream.try_fit be (Stream.mk stream_id offset false false bytes) remaining_capacity in
  match fit with
  | Err e => Ret (Err e, data, written)
  | Ok len =>
      if len =? 0 then Ret (Err mk_FitError, data, written) else
      let! amount := sub_c (View.len data) len in
      match View.trim_off data amount with
      | Err e => Ret (Err e, data, written)
      | Ok data =>
          let! bytes := View.bytes buffer data in
          let frame := Frame.Stream (Stream.mk stream_id offset (Stream.is_last_frame frame) (View.is_fin data) bytes) in
          let! _ := write_fitted_frame context written frame in
          Ret (Ok tt, data, written ++ [frame])
      end
  end.
Definition stream_write_fin (offset stream_id : Z) (context : Writer) (written : list frame)
    : outcome (result unit FitError * list frame) :=
  let! '(fit, frame) := Stream.try_fit be (Stream.mk stream_id offset false true []) (remaining_capacity context written) in
  match fit with
  | Err e => Ret (Err e, written)
  | Ok _ =>
      let! _ := write_fitted_frame context written (Frame.Stream frame) in
      Ret (Ok tt, written ++ [Frame.Stream frame])
  end.
Definition stream_writer : ChunkWriter Z B := {|
  WRITES_FIN := true;
  MIN_WRITE_SIZE := 32;
  RETRANSMIT_IN_PROBE := false;
  write_chunk := stream_write_chunk;
  write_fin := stream_write_fin
|}.

(** [writer::Crypto]. *)
Definition crypto_write_chunk (offset : Z) (buffer : Buffer.t B) (data : View.t) (_ : unit) (context : Writer)
    (written : list frame) : outcome (result unit FitError * View.t * list frame) :=
  let remaining_capacity := remaining_capacity context written in
  let! data_len := View.len_varint data in
  let! _ := rassert (data_len <=? remaining_capacity) in
  let! _ := rassert (negb (data_len =? 0)) in
  let! bytes := View.bytes buffer data in
  let! fit := Crypto.try_fit be (Crypto.mk offset bytes) remaining_capacity in
  match fit with
  | Err e => Ret (Err e, data, written)
  | Ok len =>
      if len =? 0 then Ret (Err mk_FitError, data, written) else
      let! amount := sub_c (View.len data) len in
      match View.trim_off data amount with
      | Err e => Ret (Err e, data, written)
      | Ok data =>
          let! bytes := View.bytes buffer data in
          let frame := Frame.Crypto (Crypto.mk offset bytes) in
          let! _ := write_fitted_frame context written frame in
          Ret (Ok tt, data, written ++ [frame])
      end
  end.
Definition crypto_writer : ChunkWriter unit B := {|
  WRITES_FIN := false;
  MIN_WRITE_SIZE := 32;
  RETRANSMIT_IN_PROBE := true;
  write_chunk := crypto_write_chunk;
  write_fin _ _ _ written := Ret (Ok tt, written)
|}.
End Writers.

(** [CryptoFlowController]: no flow control. *)
Definition crypto_flow_controller : DataFlowController unit := {|
  acquire_flow_control_window self _ := Ret (VarInt.MAX, self);
  is_blocked _ := false;
  clear_blocked self := self;
  finish_flow self := self
|}.

(** ** The sender *)

Module DataSender.
Section Ops.
Context {E F C B : Type} `{DataFlowController F} `{Bytes B} `{ChunkWriter C B} (capacity : Z -> Z).

Record t := mk {
  buffer : Buffer.t B;
  transmissions : Set_.t;
  flow_controller : F;
  transmission_offset : Z;
  pending : IntervalSet Z;
  lost : IntervalSet Z;
  max_buffer_capacity : Z;
  state : SenderState.t E
}.

Definition new (flow_controller : F) (max_buffer_capacity : Z) : t :=
  mk Buffer.default (Set_.default capacity) flow_controller 0 IntervalSetOps.new IntervalSetOps.new max_buffer_capacity
    SenderState.Sending.
Definition new_finished (flow_controller : F) (max_buffer_capacity : Z) : t :=
  mk Buffer.default (Set_.default capacity) flow_controller 0 IntervalSetOps.new IntervalSetOps.new max_buffer_capacity
    SenderState.Finished.

(** [transmission_interest]: the interests reported. *)
Definition transmission_interest (self : t) : outcome (list Interest) :=
  let! total := Buffer.total_len (buffer self) in
  let data :=
    if negb (IntervalSetOps.is_empty (lost self)) then [LostData]
    else if (transmission_offset self <? total) && negb (is_blocked (flow_controller self)) then [NewData] else [] in
  Ret (if WRITES_FIN then
         match state self with
         | SenderState.Finishing FinState.Lost => [LostData]
         | SenderState.Finishing FinState.Pending =>
             if negb (is_blocked (flow_controller self)) then NewData :: data else data
         | _ => data
         end
       else data).

Definition check_integrity (self : t) : outcome unit :=
  let! total := Buffer.total_len (buffer self) in
  let! _ :=
    if IntervalSetOps.is_empty (pending self) then
      let! _ := rassert (IntervalSetOps.is_empty (lost self)) in
      let! _ := rassert (Set_.is_empty (transmissions self)) in
      let! _ := rassert (Buffer.head (buffer self) =? total) in
      rassert (transmission_offset self =? total)
    else
      rassert (negb (IntervalSetOps.is_empty (lost self)) || (transmission_offset self <? total)
               || negb (Set_.is_empty (transmissions self))) in
  let! _ :=
    match IntervalSetOps.min_value (pending self) with
    | Some start => rassert (Buffer.head (buffer self) =? start)
    | None => Ret tt
    end in
  if is_blocked (flow_controller self) then
    let! reported := transmission_interest self in
    rassert (match InterestOps.get_transmission_interest NoInterest reported with NewData => false | _ => true end)
  else Ret tt.

Definition stop_sending (self : t) (error : E) : outcome t :=
  if SenderState.is_finished (state self) then Ret self else
  let! buffer := Buffer.clear (buffer self) in
  let! transmissions := Set_.clear (transmissions self) in
  let self := mk buffer transmissions (finish_flow (flow_controller self)) 0 (IntervalSetOps.clear (pending self))
                (IntervalSetOps.clear (lost self)) (max_buffer_capacity self) (SenderState.Cancelled error) in
  let! _ := check_integrity self in
  Ret self.

Definition total_enqueued_len (self : t) : outcome Z := Buffer.total_len (buffer self).
Definition is_empty (self : t) : bool := Buffer.is_empty (buffer self).
Definition is_inflight (self : t) : bool :=
  negb (Set_.is_empty (transmissions self)) || SenderState.is_inflight (state self).
Definition available_buffer_space (self : t) : Z :=
  VarInt.saturating_sub (max_buffer_capacity self) (Buffer.enqueued_len (buffer self)).

Definition push (self : t) (data : B) : outcome t :=
  let! _ := rassert (SenderState.is_sending (state self)) in
  let! _ := rassert (chunk_len data <=? umax 32) in
  if chunk_len data =? 0 then Ret self else
  let! '(interval, buffer) := Buffer.push (buffer self) data in
  let! '(res, pending) := IntervalSetOps.insert (pending self) (Included (istart interval)) (Included (iend interval)) in
  let! _ := unwrap (VarInt.ok res) in
  let self := mk buffer (transmissions self) (flow_controller self) (transmission_offset self) pending (lost self)
                (max_buffer_capacity self) (state self) in
  let! _ := check_integrity self in
  Ret self.

Definition finish (self : t) : outcome t :=
  if negb (SenderState.is_sending (state self)) then Ret self else
  let fin := if WRITES_FIN then FinState.Pending else FinState.Acknowledged in
  let self := mk (buffer self) (transmissions self) (flow_controller self) (transmission_offset self) (pending self)
                (lost self) (max_buffer_capacity self) (SenderState.Finishing fin) in
  let! _ := check_integrity self in
  Ret self.

(** The closures of [on_ack_signal]: every range is removed from, or inserted
    into, a set. *)
Fixpoint remove_all (set : IntervalSet Z) (ranges : list (Interval Z)) : outcome (IntervalSet Z) :=
  match ranges with
  | [] => Ret set
  | range :: ranges =>
      let! '(res, set) := IntervalSetOps.remove set (Included (istart range)) (Included (iend range)) in
      let! _ := unwrap (VarInt.ok res) in
      remove_all set ranges
  end.
Fixpoint insert_all (set : IntervalSet Z) (ranges : list (Interval Z)) : outcome (IntervalSet Z) :=
  match ranges with
  | [] => Ret set
  | range :: ranges =>
      let! '(res, set) := IntervalSetOps.insert set (Included (istart range)) (Included (iend range)) in
      let! _ := unwrap (VarInt.ok res) in
      insert_all set ranges
  end.

Definition is_idle (self : t) : bool :=
  Set_.is_empty (transmissions self) && IntervalSetOps.is_empty (pending self) && IntervalSetOps.is_empty (lost self).

Definition on_packet_ack (self : t) (ack_set : AckSet) : outcome t :=
  let! range := as_range ack_set in
  let! '(acked, transmissions) := Set_.remove_range (transmissions self) range in
  let! pending := remove_all (pending self) acked in
  let any_acked := negb (match acked with [] => true | _ => false end) in
  let! state :=
    match WRITES_FIN, state self with
    | true, SenderState.Finishing fin =>
        let! fin := FinState.on_packet_ack fin (contains ack_set) in Ret (SenderState.Finishing fin)
    | _, state => Ret state
    end in
  let! '(lost, buffer, transmissions) :=
    if any_acked then
      let! '(res, lost) := IntervalSetOps.intersection (lost self) pending in
      let! _ := unwrap (VarInt.ok res) in
      match IntervalSetOps.min_value pending with
      | Some first =>
          let! buffer := Buffer.release (buffer self) first in
          Ret (lost, buffer, transmissions)
      | None =>
          let! buffer := Buffer.release_all (buffer self) in
          let! transmissions := Set_.clear transmissions in
          Ret (lost, buffer, transmissions)
      end
    else Ret (lost self, buffer self, transmissions) in
  let self := mk buffer transmissions (flow_controller self) (transmission_offset self) pending lost
                (max_buffer_capacity self) state in
  let! self :=
    match state with
    | SenderState.Finishing FinState.Acknowledged =>
        if is_idle self then
          let! buffer := Buffer.release_all buffer in
          Ret (mk buffer transmissions (finish_flow (flow_controller self)) (transmission_offset self) pending lost
                 (max_buffer_capacity self) SenderState.Finished)
        else Ret self
    | _ => Ret self
    end in
  let! _ := check_integrity self in
  Ret self.

Definition on_packet_loss (self : t) (ack_set : AckSet) : outcome t :=
  let! range := as_range ack_set in
  let! '(ranges, transmissions) := Set_.remove_range (transmissions self) range in
  let! lost := insert_all (lost self) ranges in
  let any_lost := negb (match ranges with [] => true | _ => false end) in
  let! '(state, any_lost) :=
    match WRITES_FIN, state self with
    | true, SenderState.Finishing fin =>
        let! '(fin, fin_lost) := FinState.on_packet_loss fin (contains ack_set) in
        Ret (SenderState.Finishing fin, any_lost || fin_lost)
    | _, state => Ret (state, any_lost)
    end in
  let! '(flow_controller, lost) :=
    if any_lost then
      let! '(res, lost) := IntervalSetOps.intersection lost (pending self) in
      let! _ := unwrap (VarInt.ok res) in
      Ret (clear_blocked (flow_controller self), lost)
    else Ret (flow_controller self, lost) in
  let self := mk (buffer self) transmissions flow_controller (transmission_offset self) (pending self) lost
                (max_buffer_capacity self) state in
  let! _ := check_integrity self in
  Ret self.

(** [on_all_lost]: the range of the packets in flight is the set of lost ones. *)
Definition on_all_lost (self : t) : outcome t :=
  let! range := PacketMap.get_range (Set_.packets (transmissions self)) in
  on_packet_loss self (range_set range).

(** The loop over the pending intervals of a probe. *)
Fixpoint transmit_pending (buffer : Buffer.t B) (cursor : Viewer) (intervals : list (Interval Z)) (limit : Z)
    (writer_context : C) (context : Writer) (s : Tx (E := E) (F := F)) : outcome (result unit OnTransmitError * Tx) :=
  match intervals with
  | [] => Ret (Ok tt, s)
  | interval :: intervals =>
      if limit <=? Interval.start_inclusive interval then Ret (Ok tt, s) else
      let interval_end := Z.min (Interval.end_exclusive interval) limit in
      let! '(res, s) :=
        transmit_interval capacity buffer cursor (Interval.from_range (Interval.start_inclusive interval) interval_end)
          writer_context context s in
      match res with
      | Err e => Ret (Err e, s)
      | Ok (_, cursor) => transmit_pending buffer cursor intervals limit writer_context context s
      end
  end.

(** The sender with what a transmission changed. *)
Definition with_tx (self : t) (transmission_offset : Z) (lost : IntervalSet Z) (s : Tx) : t :=
  mk (buffer self) (Transmissions.in_flight s) (Transmissions.flow_controller s) transmission_offset (pending self) lost
    (max_buffer_capacity self) (tx_state s).

(** The result, the sender, and the frames in the packet. *)
Definition on_transmit_impl (self : t) (writer_context : C) (context : Writer) (written : list frame)
    : outcome (result unit OnTransmitError * t * list frame) :=
  let constraint := transmission_constraint context in
  let s := mk_tx (transmissions self) (flow_controller self) (state self) written in
  let! '(res, lost, s) :=
    if ConstraintOps.can_retransmit constraint
    then transmit_set capacity (buffer self) (lost self) writer_context context s
    else Ret (Ok false, lost self, s) in
  match res with
  | Err e => Ret (Err e, with_tx self (transmission_offset self) lost s, Transmissions.written s)
  | Ok transmitted_lost =>
      let blocked := is_blocked (Transmissions.flow_controller s) in
      let! total_len := Buffer.total_len (buffer self) in
      let starting_transmission_offset := transmission_offset self in
      let! '(res, offset, s) :=
        if negb blocked && ConstraintOps.can_transmit constraint && (starting_transmission_offset <? total_len) then
          let! '(res, s) :=
            transmit_interval capacity (buffer self) (viewer (buffer self))
              (Interval.from_range starting_transmission_offset total_len) writer_context context s in
          match res with
          | Err e => Ret (Err e, starting_transmission_offset, s)
          | Ok (interval, _) => Ret (Ok tt, Interval.end_exclusive interval, s)
          end
        else Ret (Ok tt, starting_transmission_offset, s) in
      match res with
      | Err e => Ret (Err e, with_tx self offset lost s, Transmissions.written s)
      | Ok _ =>
          let! '(res, s) :=
            if WRITES_FIN && SenderState.can_transmit_fin (tx_state s) constraint blocked
            then transmit_fin (buffer self) writer_context context s else Ret (Ok tt, s) in
          match res with
          | Err e => Ret (Err e, with_tx self offset lost s, Transmissions.written s)
          | Ok _ =>
              let! '(res, s) :=
                if RETRANSMIT_IN_PROBE && ModeOps.is_loss_recovery_probing (transmission_mode context)
                   && negb transmitted_lost
                then transmit_pending (buffer self) (viewer (buffer self)) (intervals (pending self))
                       starting_transmission_offset writer_context context s
                else Ret (Ok tt, s) in
              let self := with_tx self offset lost s in
              match res with
              | Err e => Ret (Err e, self, Transmissions.written s)
              | Ok _ =>
                  let! _ := check_integrity self in
                  Ret (Ok tt, self, Transmissions.written s)
              end
          end
      end
  end.

(** An error is only returned if nothing was written. *)
Definition on_transmit (self : t) (writer_context : C) (context : Writer)
    : outcome (result unit OnTransmitError * t * list frame) :=
  let initial_capacity := remaining_capacity context [] in
  let! '(res, self, written) := on_transmit_impl self writer_context context [] in
  Ret (match res with
       | Err _ => if remaining_capacity context written <? initial_capacity then Ok tt else res
       | Ok _ => res
       end, self, written).
End Ops.
End DataSender.
