(* ===== verification/AckManager.v ===== *)
(** * The acknowledgement manager

    [ack/settings.rs] and [ack/transmission.rs] of s2n-quic-core, and
    [ack/ack_transmission_state.rs] and [ack/ack_manager.rs] of the transport
    crate: which packets are acknowledged, and when.  The events that are
    published are left out. *)
From stdpp Require Import base list.
From S2P Require Import Prelude Codec VarInt PacketNumber Interval IntervalInsert IntervalRemove IntervalSet AckRanges FrameAck Frames FrameCodec Payload Time Transmission TransmissionContext Recovery Transmissions DataSender.

(** ** Settings *)

Module AckSettings.
Record t := mk { max_ack_delay : Z; ack_delay_exponent : Z; ack_elicitation_interval : Z; ack_ranges_limit : Z }.

Definition RECOMMENDED : t := mk (Duration.from_millis 25) 3 4 10.
Definition EARLY : t := mk (Duration.from_secs 0) 0 4 10.

(** [2u32.pow] *)
Definition scale (self : t) : outcome Z := if ack_delay_exponent self <? 32 then Ret (2 ^ ack_delay_exponent self) else Panic.
Definition decode_ack_delay (self : t) (delay : Z) : outcome Z :=
  let! scale := scale self in Duration.mul scale (Duration.from_micros delay).
Definition encode_ack_delay (self : t) (delay : Z) : outcome Z :=
  let micros := Duration.as_micros delay in
  let! scale := scale self in
  Ret (if micros / scale <=? MAX_VARINT_VALUE then micros / scale else VarInt.MAX).
End AckSettings.

(** The validation of the transport parameters, in milliseconds. *)
Definition validate_max_ack_delay (value : Z) : bool := value <=? 2 ^ 14.
Definition validate_ack_delay_exponent (value : Z) : bool := value <=? 20.

(** ** Transmissions of ACK frames *)

Module AckTransmission.
Record t := mk { sent_in_packet : Z; largest_received_packet_number_acked : Z }.

Definition ack_range (self : t) (ack_set : AckSet) : outcome (option (Z * Z)) :=
  let! contained := contains ack_set (sent_in_packet self) in
  if contained then
    let! space := PacketNumber.space (largest_received_packet_number_acked self) in
    Ret (Some (PacketNumber.from_varint 0 space, largest_received_packet_number_acked self))
  else Ret None.
End AckTransmission.

(** [ack::transmission::Set] *)
Module AckTransmissionSet.
Record t := mk { stable : option AckTransmission.t; latest : option AckTransmission.t }.
Definition default : t := mk None None.

Definition on_transmit (self : t) (transmission : AckTransmission.t) : t :=
  mk (match stable self with Some s => Some s | None => Some transmission end) (Some transmission).

(** [as_ref().and_then(..)] *)
Definition range_of (o : option AckTransmission.t) (ack_set : AckSet) : outcome (option (Z * Z)) :=
  match o with Some transmission => AckTransmission.ack_range transmission ack_set | None => Ret None end.

Definition on_update (self : t) (ack_set : AckSet) : outcome (option (Z * Z) * t) :=
  let! r := range_of (latest self) ack_set in
  match r with
  | Some ack_range => Ret (Some ack_range, mk None None)
  | None =>
      let! r := range_of (stable self) ack_set in
      match r with
      | Some ack_range => Ret (Some ack_range, mk (latest self) (latest self))
      | None => Ret (None, self)
      end
  end.
End AckTransmissionSet.

(** ** The transmission state *)

Module AckTransmissionState.
Inductive t := Disabled | Passive (retransmissions : Z) | Active (retransmissions : Z).

Definition is_active (self : t) : bool := match self with Active _ => true | _ => false end.

Definition should_transmit (self : t) (constraint : Constraint) (mode : Mode) (has_ranges : bool) : bool :=
  if negb has_ranges then false else
  if negb (match mode with Normal => true | _ => false end) then true else
  match self with
  | Disabled => false
  | Passive _ => ConstraintOps.can_transmit constraint || ConstraintOps.can_retransmit constraint
  | Active _ => true
  end.

Definition activate (self : t) : t := match self with Passive retransmissions => Active retransmissions | _ => self end.

Definition INTERVAL_SCALE : Z := 2.
Definition RANGE_SCALE : Z := 10.
Definition MAX_RETRANSMISSIONS : Z := 10.

Definition on_update (self : t) (ack_ranges : IntervalSet Z) : outcome t :=
  if IntervalSetOps.is_empty ack_ranges then Ret Disabled else
  let! spread := AckRanges.spread ack_ranges in
  let! new_retransmissions := add_c 64 (IntervalSetOps.interval_len ack_ranges / INTERVAL_SCALE) (spread / RANGE_SCALE) in
  let new_retransmissions := Z.min new_retransmissions MAX_RETRANSMISSIONS in
  Ret (match self with
       | Active _ => Active new_retransmissions
       | Passive _ | Disabled => Passive new_retransmissions
       end).

Definition on_transmit (self : t) (has_ranges : bool) : outcome t :=
  let! _ := rassert has_ranges in
  match self with
  | Active retransmissions | Passive retransmissions =>
      Ret (match checked_sub retransmissions 1 with Some retransmissions => Passive retransmissions | None => Disabled end)
  | Disabled => let! _ := rassert has_ranges in Ret self
  end.

(** The interests that are reported. *)
Definition transmission_interest (self : t) : list Interest := if is_active self then [Forced] else [].
End AckTransmissionState.

(** ** The manager *)

#[local] Existing Instance packet_number_bound.

Module AckManager.
Record t := mk {
  ack_delay_timer : Timer.t;
  ack_eliciting_transmissions : AckTransmissionSet.t;
  ack_ranges : IntervalSet Z;
  ack_settings : AckSettings.t;
  largest_received_packet_number_acked : Z;
  largest_received_packet_number_at : option Z;
  processed_packets_since_transmission : Z;
  transmissions_since_elicitation : Z;
  transmission_state : AckTransmissionState.t;
  ecn_counts : EcnCounts
}.

Definition new (packet_space : PacketNumberSpace) (settings : AckSettings.t) : outcome t :=
  let! ranges := AckRanges.new (AckSettings.ack_ranges_limit settings) in
  Ret (mk Timer.default AckTransmissionSet.default ranges settings (PacketNumber.from_varint 0 packet_space) None 0 0
         AckTransmissionState.Disabled Ecn.default).

Definition set_timer (self : t) (timer : Timer.t) : t :=
  mk timer (ack_eliciting_transmissions self) (ack_ranges self) (ack_settings self) (largest_received_packet_number_acked self)
    (largest_received_packet_number_at self) (processed_packets_since_transmission self) (transmissions_since_elicitation self)
    (transmission_state self) (ecn_counts self).
Definition set_state (self : t) (state : AckTransmissionState.t) : t :=
  mk (ack_delay_timer self) (ack_eliciting_transmissions self) (ack_ranges self) (ack_settings self)
    (largest_received_packet_number_acked self) (largest_received_packet_number_at self) (processed_packets_since_transmission self)
    (transmissions_since_elicitation self) state (ecn_counts self).
Definition set_ranges (self : t) (transmissions : AckTransmissionSet.t) (ranges : IntervalSet Z) : t :=
  mk (ack_delay_timer self) transmissions ranges (ack_settings self) (largest_received_packet_number_acked self)
    (largest_received_packet_number_at self) (processed_packets_since_transmission self) (transmissions_since_elicitation self)
    (transmission_state self) (ecn_counts self).

Definition has_ranges (self : t) : bool := negb (IntervalSetOps.is_empty (ack_ranges self)).
Definition should_transmit (self : t) (context : Writer) : bool :=
  AckTransmissionState.should_transmit (transmission_state self) (transmission_constraint context) (transmission_mode context) (has_ranges self).

(** [ack_delay] *)
Definition the_ack_delay (self : t) (now : Z) : outcome Z :=
  let! delay :=
    match largest_received_packet_number_at self with
    | Some prev => Timestamp.saturating_duration_since now prev
    | None => Ret Duration.ZERO
    end in
  AckSettings.encode_ack_delay (ack_settings self) delay.

(** Whether an ACK frame was written, and the frame; [write_ack_frame] is
    [write_frame] and an event. *)
Definition on_transmit (self : t) (context : Writer) : outcome (bool * list frame) :=
  if negb (should_transmit self context) then Ret (false, []) else
  let! ack_delay := the_ack_delay self (current_time context) in
  let ack := Frame.Ack (Ack.mk ack_delay (AckRanges.ack_ranges (ack_ranges self)) (Ecn.as_option (ecn_counts self))) in
  Ret (match write_frame context [] ack with Some _ => (true, [ack]) | None => (false, []) end).

(** The packet is to be made ack-eliciting: the frames for that, whether it is
    ack-eliciting, and the count of packets since one was. *)
Definition elicit (self : t) (context : Writer) : list frame * bool * Z :=
  match ack_elicitation context with
  | Frame.Eliciting => ([], true, transmissions_since_elicitation self)
  | Frame.NonEliciting =>
      let constraint := transmission_constraint context in
      if (ConstraintOps.can_transmit constraint || ConstraintOps.can_retransmit constraint)
         && (AckSettings.ack_elicitation_interval (ack_settings self) <=? transmissions_since_elicitation self)
         && match write_frame context [] (Frame.Ping Ping.mk) with Some _ => true | None => false end
      then ([Frame.Ping Ping.mk], true, transmissions_since_elicitation self)
      else ([], false, saturating_add 8 (transmissions_since_elicitation self) 1)
  end.

Definition on_transmit_complete (self : t) (context : Writer) : outcome (t * list frame) :=
  let! _ := rassert (should_transmit self context) in
  let '(fs, is_ack_eliciting, since_elicitation) := elicit self context in
  let! largest := unwrap (IntervalSetOps.max_value (ack_ranges self)) in
  let transmissions :=
    if is_ack_eliciting
    then AckTransmissionSet.on_transmit (ack_eliciting_transmissions self) (AckTransmission.mk (packet_number context) largest)
    else ack_eliciting_transmissions self in
  let! state := AckTransmissionState.on_transmit (transmission_state self) (has_ranges self) in
  Ret (mk (Timer.cancel (ack_delay_timer self)) transmissions (ack_ranges self) (ack_settings self) largest
         (largest_received_packet_number_at self) 0 (if is_ack_eliciting then 0 else since_elicitation) state (ecn_counts self), fs).

Definition on_packet_ack (self : t) (ack_set : AckSet) : outcome t :=
  let! '(ack_range, transmissions) := AckTransmissionSet.on_update (ack_eliciting_transmissions self) ack_set in
  match ack_range with
  | Some (start, end_) =>
      let! '(res, ranges) := IntervalSetOps.remove (ack_ranges self) (Included start) (Included end_) in
      let! _ := rassert (is_ok res) in
      Ret (set_ranges self transmissions ranges)
  | None => Ret (set_ranges self transmissions (ack_ranges self))
  end.

Definition on_packet_loss (self : t) (ack_set : AckSet) : outcome t :=
  let! '(ack_range, transmissions) := AckTransmissionSet.on_update (ack_eliciting_transmissions self) ack_set in
  let self := set_ranges self transmissions (ack_ranges self) in
  match ack_range with
  | Some _ =>
      let! state := AckTransmissionState.on_update (transmission_state self) (ack_ranges self) in
      Ret (set_state self (AckTransmissionState.activate state))
  | None => Ret self
  end.

(** Whether the packet number is the next one, and the largest one. *)
Definition order_of (self : t) (packet_number : Z) : outcome (bool * bool) :=
  match IntervalSetOps.max_value (ack_ranges self) with
  | None => Ret (true, true)
  | Some max_value =>
      let! next := PacketNumber.next max_value in
      match next with
      | None => Ret (true, true)
      | Some next =>
          let! is_ordered := pn_eq packet_number next in
          let! c := PacketNumber.cmp packet_number max_value in
          Ret (is_ordered, match c with Gt => true | _ => false end)
      end
  end.

Definition PACKET_TOLERANCE : Z := 10.

(** When the acknowledgement of an ack-eliciting packet is due. *)
Definition schedule (self : t) (processed_packet : ProcessedPacket) (now : Z) (ecn : ExplicitCongestionNotification)
    (is_ordered is_largest : bool) : outcome t :=
  let should_activate :=
    negb is_largest || negb is_ordered || Codepoint.congestion_experienced ecn
    || (PACKET_TOLERANCE <=? processed_packets_since_transmission self) || path_challenge_on_active_path processed_packet in
  if should_activate then Ret (set_state self (AckTransmissionState.activate (transmission_state self)))
  else if Timer.is_armed (ack_delay_timer self) then Ret self
  else
    let! time := Timestamp.add now (AckSettings.max_ack_delay (ack_settings self)) in
    Ret (set_timer self (Timer.set (ack_delay_timer self) time)).

(** [on_timeout] *)
Definition on_timeout (self : t) (now : Z) : outcome t :=
  let! '(ready, timer) := Timer.poll_expiration (ack_delay_timer self) now in
  let self := set_timer self timer in
  Ret (if ready then set_state self (AckTransmissionState.activate (transmission_state self)) else self).

(** [now] and [ecn] are those of the datagram.  That the ranges are not empty is
    needed for the event about a dropped range only. *)
Definition on_processed_packet (self : t) (processed_packet : ProcessedPacket) (now : Z) (ecn : ExplicitCongestionNotification) : outcome t :=
  let packet_number := Payload.packet_number processed_packet in
  let! '(is_ordered, is_largest) := order_of self packet_number in
  let! '(res, ranges) := AckRanges.insert_packet_number (ack_ranges self) packet_number in
  let! _ := rassert (is_ok res || negb (IntervalSetOps.is_empty ranges)) in
  let! state := AckTransmissionState.on_update (transmission_state self) ranges in
  let self :=
    mk (ack_delay_timer self) (ack_eliciting_transmissions self) ranges (ack_settings self) (largest_received_packet_number_acked self)
      (if is_largest then Some now else largest_received_packet_number_at self)
      (saturating_add 8 (processed_packets_since_transmission self) 1) (transmissions_since_elicitation self) state
      (Ecn.increment (ecn_counts self) ecn) in
  let! self :=
    if ProcessedPacketOps.is_ack_eliciting processed_packet then schedule self processed_packet now ecn is_ordered is_largest else Ret self in
  on_timeout self now.

Definition timers (self : t) : option Z := Timer.expiration (ack_delay_timer self).
Definition transmission_interest (self : t) : list Interest := AckTransmissionState.transmission_interest (transmission_state self).
End AckManager.
