(* ===== verification/DataWriter.v ===== *)
(** * What the data sender relies on

    The laws of the frame writers and flow controllers a data sender is written
    against, and that [writer::Stream], [writer::Crypto] and
    [CryptoFlowController] obey them. *)
From S2P Require Import Prelude Codec VarInt PacketNumber Interval Frames FrameCodec Transmission TransmissionContext SendBuffer SendBufferThm Transmissions DataSender.

(** ** The laws *)

Definition slice (D : list Z) (a n : Z) : list Z := take (Z.to_nat n) (drop (Z.to_nat a) D).

Lemma blen_slice D a n : 0 <= a -> 0 <= n -> a + n <= blen D -> blen (slice D a n) = n.
Proof. intros. unfold slice, blen in *. rewrite length_take, length_drop. lia. Qed.
Lemma slice_app D E a n : 0 <= a -> 0 <= n -> a + n <= blen D -> slice (D ++ E) a n = slice D a n.
Proof.
  intros. unfold slice, blen in *. rewrite drop_app_le by lia. rewrite take_app_le; [done |]. rewrite length_drop. lia.
Qed.
Lemma slice_take D a n m : 0 <= m <= n -> take (Z.to_nat m) (slice D a n) = slice D a m.
Proof. intros. unfold slice. rewrite take_take. f_equal. lia. Qed.
Lemma slice_lookup D a n i : 0 <= a -> 0 <= i < n -> a + n <= blen D -> slice D a n !! Z.to_nat i = D !! Z.to_nat (a + i).
Proof.
  intros. unfold slice, blen in *. rewrite lookup_take_lt by lia. rewrite lookup_drop. f_equal. lia.
Qed.

(** The length field of what is cut off. *)
Lemma length_prefix_cut m n : 0 <= n <= m -> m <= n + 4 -> m <= umax 16 -> length_prefix m - length_prefix n <= 2.
Proof.
  intros Hn Hm Hmax. change (umax 16) with 65535 in Hmax. unfold length_prefix.
  rewrite !blen_wire by (unfold varint_ok, MAX_VARINT_VALUE; lia). unfold wire_len. zcases; cbn; lia.
Qed.

Lemma length_prefix_small m : 0 <= m <= 65535 -> 1 <= length_prefix m <= 4.
Proof.
  intros Hm. unfold length_prefix. rewrite blen_wire by (unfold varint_ok, MAX_VARINT_VALUE; lia). unfold wire_len. zcases; cbn; lia.
Qed.

Lemma writer_left w fs f :
  writer_ok w -> packet_ok w fs -> packet_ok w (fs ++ [f]) ->
  remaining_capacity w (fs ++ [f]) = remaining_capacity w fs - blen (frame_wire f).
Proof.
  intros Hw H1 H2. rewrite (writer_room w Hw _ H1), (writer_room w Hw _ H2), payload_snoc, blen_app. lia.
Qed.

(** [carries c f offset bytes fin]: the frame [f] is the bytes at the offset of
    the stream the writer context [c] is for, with or without the fin bit. *)
Class ChunkWriterSpec (C B : Type) {HB : Bytes B} {HC : ChunkWriter C B} := {
  context_ok : C -> Prop;
  carries : C -> frame -> Z -> list Z -> bool -> Prop;
  write_chunk_spec c w fs buf D v a :
    context_ok c -> writer_ok w -> packet_ok w fs -> ConstraintOps.can_retransmit (transmission_constraint w) = true ->
    buffer_ok buf D -> view_at buf D v a -> 1 <= View.len v <= remaining_capacity w fs ->
    returns (write_chunk a buf v c w fs) (fun '(res, v', fs') =>
      match res with
      | Err _ => fs' = fs
      | Ok _ => exists n f, 1 <= n <= View.len v
          /\ v' = View.mk (View.chunk_index v) (View.offset v) n (View.is_fin v && (n =? View.len v))
          /\ fs' = fs ++ [f] /\ carries c f a (slice D a n) (View.is_fin v') /\ packet_ok w fs'
          /\ (n < View.len v \/ View.len v = remaining_capacity w fs -> remaining_capacity w fs' <= 2)
      end);
  write_fin_spec c w fs a :
    WRITES_FIN = true -> context_ok c -> writer_ok w -> packet_ok w fs ->
    ConstraintOps.can_retransmit (transmission_constraint w) = true -> varint_ok a ->
    returns (write_fin a c w fs) (fun '(res, fs') =>
      match res with
      | Err _ => fs' = fs
      | Ok _ => exists f, fs' = fs ++ [f] /\ carries c f a [] true /\ packet_ok w fs'
          /\ (a <> 0 -> 2 < remaining_capacity w fs)
      end);
  carries_nonempty c f a bs fin : carries c f a bs fin -> 0 < blen (frame_wire f)
}.

(** [flow_limit]: the offset up to which the flow controller has let data
    through.  [flow_le]: what may become of a flow controller; the limit is not
    lowered.  A window that is too small blocks. *)
Class FlowControllerSpec (F : Type) {HF : DataFlowController F} := {
  flow_ok : F -> Prop;
  (** It was not finished. *)
  flow_open : F -> Prop;
  flow_limit : F -> Z;
  flow_le : F -> F -> Prop;
  flow_le_refl fc : flow_le fc fc;
  flow_le_trans fc1 fc2 fc3 : flow_le fc1 fc2 -> flow_le fc2 fc3 -> flow_le fc1 fc3;
  flow_le_limit fc fc' : flow_le fc fc' -> flow_limit fc <= flow_limit fc';
  flow_limit_nonneg fc : flow_ok fc -> 0 <= flow_limit fc;
  acquire_spec fc end_ :
    flow_ok fc -> flow_open fc -> varint_ok end_ ->
    returns (acquire_flow_control_window fc end_) (fun '(window, fc') =>
      flow_ok fc' /\ flow_open fc' /\ varint_ok window /\ window <= flow_limit fc' /\ flow_le fc fc'
      /\ (window < end_ -> is_blocked fc' = true));
  clear_spec fc :
    flow_ok fc -> flow_ok (clear_blocked fc) /\ flow_limit (clear_blocked fc) = flow_limit fc
      /\ (flow_open fc -> flow_open (clear_blocked fc)) /\ flow_le fc (clear_blocked fc);
  finish_spec fc :
    flow_ok fc -> flow_ok (finish_flow fc) /\ flow_limit (finish_flow fc) = flow_limit fc /\ flow_le fc (finish_flow fc)
}.

(** ** The writers *)

Section Instances.
Context {B : Type} `{HB : Bytes B, !BytesSpec B} (be : bool).

Lemma view_data_ok buf D v a :
  buffer_ok buf D -> view_at buf D v a ->
  View.len_varint v = Ret (View.len v) /\ View.bytes buf v = Ret (slice D a (View.len v))
  /\ blen (slice D a (View.len v)) = View.len v /\ varint_ok a /\ View.len v <= VarInt.MAX.
Proof.
  intros Hb Hv. pose proof (buffer_total _ _ Hb) as Ht. destruct (view_end _ _ _ _ Hv) as [Ha He]. pose proof (view_len _ _ _ _ Hv) as Hl.
  split; [apply varint_new_Ret; unfold varint_ok, VarInt.MAX in *; lia |]. split; [by apply view_bytes_ok |].
  split; [by apply blen_slice |]. unfold varint_ok, VarInt.MAX in *. lia.
Qed.

(** Both writers trim the view to what fits, and write that. *)
Lemma view_trim_ok buf D v a n :
  buffer_ok buf D -> view_at buf D v a -> 0 <= n <= View.len v ->
  exists v', v' = View.mk (View.chunk_index v) (View.offset v) n (View.is_fin v && (n =? View.len v))
    /\ sub_c (View.len v) n = Ret (View.len v - n) /\ View.trim_off v (View.len v - n) = Ok v'
    /\ View.bytes buf v' = Ret (slice D a n).
Proof.
  intros Hb Hv Hn. eexists; split; [reflexivity |]. split; [apply sub_c_Ret; lia |]. split.
  - unfold View.trim_off, checked_sub. rewrite (proj2 (Z.leb_le _ _)) by lia. f_equal. f_equal; [lia |]. f_equal.
    destruct (Z.eqb_spec (View.len v - n) 0), (Z.eqb_spec n (View.len v)); done || lia.
  - rewrite (view_bytes_ok _ D _ a); [done | done |]. by apply view_shorter.
Qed.

Lemma stream_header_min f :
  varint_ok (Stream.stream_id f) -> varint_ok (Stream.offset f) ->
  2 <= stream_header f /\ (Stream.offset f <> 0 -> 3 <= stream_header f).
Proof.
  intros Hid Ho. unfold stream_header.
  destruct (blen_wire_mono (Stream.stream_id f) (Stream.stream_id f)) as ([? _] & _); [destruct Hid; lia.. |].
  destruct (blen_wire_mono (Stream.offset f) (Stream.offset f)) as ([? _] & _); [destruct Ho; lia.. |].
  destruct (Z.eqb_spec (Stream.offset f) 0); cbn [negb]; lia.
Qed.

(** The length is only written if there is room for more than the data. *)
Lemma stream_fits_loose f capacity n :
  frame_ok (Frame.Stream (Stream.set_last_frame f false)) -> 0 <= capacity < 2 ^ 63 ->
  Stream.try_fit be f capacity = Ret (Ok n, Stream.set_last_frame f false) -> blen (Stream.data f) < capacity - stream_header f.
Proof. intros Hf Hc. rewrite stream_try_fit_eq by done. zcases; intros [=]; lia. Qed.

Lemma stream_write_chunk_ok c w fs buf D v a :
  varint_ok c -> writer_ok w -> packet_ok w fs -> ConstraintOps.can_retransmit (transmission_constraint w) = true ->
  buffer_ok buf D -> view_at buf D v a -> 1 <= View.len v <= remaining_capacity w fs ->
  returns (stream_write_chunk be a buf v c w fs) (fun '(res, v', fs') =>
    match res with
    | Err _ => fs' = fs
    | Ok _ => exists n f, 1 <= n <= View.len v
        /\ v' = View.mk (View.chunk_index v) (View.offset v) n (View.is_fin v && (n =? View.len v))
        /\ fs' = fs ++ [f] /\ (exists last, f = Frame.Stream (Stream.mk c a last (View.is_fin v') (slice D a n)))
        /\ packet_ok w fs' /\ (n < View.len v \/ View.len v = remaining_capacity w fs -> remaining_capacity w fs' <= 2)
    end).
Proof.
  intros Hc Hw Hfs Hcon Hb Hv Hlen. unfold stream_write_chunk. pose proof (writer_room_range w fs Hw Hfs) as Hroom. change (umax 16) with 65535 in Hroom.
  destruct (view_data_ok buf D v a Hb Hv) as (-> & -> & Hsl & Ha & Hmax). cbn [obind]. rewrite (proj2 (Z.leb_le _ _)) by lia. cbn [rassert obind].
  set (f0 := Stream.mk c a false false (slice D a (View.len v))).
  assert (Hf0 : frame_ok (Frame.Stream (Stream.set_last_frame f0 false))).
  { split; [done |]. split; [done |]. cbn [Stream.set_last_frame Stream.data Stream.is_last_frame f0]. unfold data_ok. rewrite Hsl.
    unfold VarInt.MAX in Hmax. unfold MAX_VARINT_VALUE in *. lia. }
  destruct (stream_fits be f0 (remaining_capacity w fs) Hf0 ltac:(lia)) as [Hbad Hgood].
  destruct (Z.lt_ge_cases (remaining_capacity w fs) (stream_header f0)) as [Hh | Hh].
  { rewrite (Hbad Hh). cbn [obind]. by apply returns_ret. }
  destruct (Hgood Hh) as (n & last & E & Hn & Hfit & Hlast & Hcut). rewrite E. cbn [obind].
  destruct (Z.eqb_spec n 0); [by apply returns_ret |]. cbn [f0 Stream.data] in Hn. rewrite Hsl in Hn.
  destruct (view_trim_ok buf D v a n Hb Hv Hn) as (v' & Ev & -> & Et & Eb). cbn [obind]. rewrite Et, Eb. cbn [obind Stream.set_last_frame Stream.is_last_frame f0].
  set (f := Frame.Stream _).
  assert (Hf : frame_ok f).
  { split; [done |]. split; [done |]. cbn [Stream.data Stream.is_last_frame]. destruct (view_end _ _ _ _ Hv). unfold data_ok. rewrite blen_slice by lia.
    unfold VarInt.MAX in Hmax. unfold MAX_VARINT_VALUE in *. lia. }
  assert (Hwire : blen (frame_wire f) = blen (frame_wire (Frame.Stream (stream_truncated (Stream.set_last_frame f0 last) n)))).
  { unfold stream_truncated. cbn [Stream.set_last_frame Stream.data f0 Stream.stream_id Stream.offset Stream.is_last_frame Stream.is_fin].
    rewrite slice_take by lia. cbn [frame_wire f Stream.is_last_frame Stream.is_fin Stream.stream_id Stream.offset Stream.data].
    by rewrite !blen_cons. }
  rewrite (writer_fitted w Hw fs f) by (done || lia). apply returns_ret. exists n, f.
  assert (Hp : packet_ok w (fs ++ [f])) by (apply packet_ok_snoc; done || lia).
  split_and!; try done; [lia | lia | by exists last |]. intros Hfull. rewrite writer_left, Hwire by done. destruct last; [rewrite Hlast by done; lia |].
  pose proof (stream_header_min f0 Hc Ha) as [Hh2 _]. pose proof (stream_fits_loose f0 (remaining_capacity w fs) n Hf0 ltac:(lia) E) as Hloose.
  rewrite blen_stream_wire in * by (cbn [Stream.set_last_frame Stream.data f0]; lia). change (stream_header (Stream.set_last_frame f0 false)) with (stream_header f0) in *.
  cbn [Stream.set_last_frame Stream.is_last_frame Stream.data f0] in Hcut, Hloose |- *. rewrite Hsl in Hcut, Hloose. fold f0 in Hcut, Hloose |- *.
  pose proof (length_prefix_small (View.len v) ltac:(lia)).
  pose proof (length_prefix_cut (View.len v) n) as Hcutoff. change (umax 16) with 65535 in *. destruct (Hcut eq_refl); lia.
Qed.

Lemma stream_write_fin_ok c w fs a :
  varint_ok c -> writer_ok w -> packet_ok w fs -> ConstraintOps.can_retransmit (transmission_constraint w) = true ->
  varint_ok a ->
  returns (stream_write_fin be a c w fs) (fun '(res, fs') =>
    match res with
    | Err _ => fs' = fs
    | Ok _ => exists f, fs' = fs ++ [f] /\ (exists last, f = Frame.Stream (Stream.mk c a last true [])) /\ packet_ok w fs'
        /\ (a <> 0 -> 2 < remaining_capacity w fs)
    end).
Proof.
  intros Hc Hw Hfs Hcon Ha. unfold stream_write_fin. pose proof (writer_room_range w fs Hw Hfs) as Hroom. change (umax 16) with 65535 in Hroom.
  set (f0 := Stream.mk c a false true []).
  assert (Hf : forall last, frame_ok (Frame.Stream (Stream.set_last_frame f0 last))) by (intros last; split; [done | split; [done | split; intros; done]]).
  destruct (stream_fits be f0 (remaining_capacity w fs) (Hf false) ltac:(lia)) as [Hbad Hgood].
  destruct (Z.lt_ge_cases (remaining_capacity w fs) (stream_header f0)) as [Hh | Hh].
  { rewrite (Hbad Hh). cbn [obind]. by apply returns_ret. }
  destruct (Hgood Hh) as (n & last & E & Hn & Hfit & _). rewrite E. cbn [obind].
  replace (stream_truncated _ n) with (Stream.set_last_frame f0 last) in Hfit by (unfold stream_truncated; cbn; by rewrite take_nil).
  rewrite (writer_fitted w Hw fs) by done. apply returns_ret. eexists; split; [reflexivity |].
  split; [by exists last |]. split; [by apply packet_ok_snoc |]. intros H. pose proof (proj2 (stream_header_min f0 Hc Ha) H). lia.
Qed.

#[local] Existing Instance stream_writer.
#[refine] Instance stream_writer_spec : ChunkWriterSpec Z B (HC := stream_writer be) := {|
  context_ok := varint_ok;
  carries c f a bs fin := exists last, f = Frame.Stream (Stream.mk c a last fin bs)
|}.
Proof.
  - intros. by apply stream_write_chunk_ok.
  - intros. by apply stream_write_fin_ok.
  - intros c f a bs fin [last ->]. cbn [frame_wire]. rewrite blen_cons. match goal with |- 0 < 1 + blen ?x => pose proof (blen_nonneg x) end. lia.
Defined.

Lemma crypto_write_chunk_ok (c : unit) w fs buf D v a :
  writer_ok w -> packet_ok w fs -> ConstraintOps.can_retransmit (transmission_constraint w) = true ->
  buffer_ok buf D -> view_at buf D v a -> 1 <= View.len v <= remaining_capacity w fs ->
  returns (crypto_write_chunk be a buf v c w fs) (fun '(res, v', fs') =>
    match res with
    | Err _ => fs' = fs
    | Ok _ => exists n f, 1 <= n <= View.len v
        /\ v' = View.mk (View.chunk_index v) (View.offset v) n (View.is_fin v && (n =? View.len v))
        /\ fs' = fs ++ [f] /\ f = Frame.Crypto (Crypto.mk a (slice D a n)) /\ packet_ok w fs'
        /\ (n < View.len v \/ View.len v = remaining_capacity w fs -> remaining_capacity w fs' <= 2)
    end).
Proof.
  intros Hw Hfs Hcon Hb Hv Hlen. unfold crypto_write_chunk. pose proof (writer_room_range w fs Hw Hfs) as Hroom. change (umax 16) with 65535 in Hroom.
  destruct (view_data_ok buf D v a Hb Hv) as (-> & -> & Hsl & Ha & Hmax). cbn [obind]. rewrite (proj2 (Z.leb_le _ _)) by lia. cbn [rassert obind].
  rewrite (proj2 (Z.eqb_neq _ _)) by lia. cbn [negb rassert obind].
  set (f0 := Crypto.mk a (slice D a (View.len v))).
  assert (Hf0 : frame_ok (Frame.Crypto f0)).
  { split; [done |]. cbn [Crypto.data f0]. rewrite Hsl. exact Hmax. }
  destruct (crypto_try_fit be f0 (remaining_capacity w fs) Hf0 ltac:(lia)) as [Hbad Hgood]. cbn [Crypto.offset f0] in Hbad, Hgood.
  destruct (Z.le_gt_cases (remaining_capacity w fs) (1 + blen (VarIntCodec.wire a))) as [Hh | Hh].
  { rewrite (Hbad Hh). cbn [obind]. by apply returns_ret. }
  destruct (Hgood ltac:(lia)) as (n & E & Hn & Hfit & Hcut). rewrite E. cbn [obind].
  destruct (Z.eqb_spec n 0); [by apply returns_ret |]. cbn [f0 Crypto.data] in Hn. rewrite Hsl in Hn.
  destruct (view_trim_ok buf D v a n Hb Hv Hn) as (v' & Ev & -> & Et & Eb). cbn [obind]. rewrite Et, Eb. cbn [obind].
  set (f := Crypto.mk a (slice D a n)).
  assert (Hf : frame_ok (Frame.Crypto f)).
  { split; [done |]. destruct (view_end _ _ _ _ Hv). cbn [Crypto.data f]. rewrite blen_slice by lia. unfold VarInt.MAX in Hmax. lia. }
  assert (Hwire : blen (frame_wire (Frame.Crypto f)) = 1 + blen (VarIntCodec.wire a) + length_prefix n + n).
  { pose proof (blen_crypto_wire f0 n ltac:(cbn [Crypto.data f0]; lia)) as E'. unfold crypto_truncated in E'.
    cbn [f0 Crypto.offset Crypto.data] in E'. by rewrite slice_take in E' by lia. }
  rewrite blen_crypto_wire in Hfit by (cbn [Crypto.data f0]; lia). cbn [f0 Crypto.offset Crypto.data] in Hfit, Hcut. rewrite Hsl in Hcut.
  rewrite (writer_fitted w Hw fs) by (done || lia). apply returns_ret. exists n, (Frame.Crypto f).
  assert (Hp : packet_ok w (fs ++ [Frame.Crypto f])) by (apply packet_ok_snoc; done || lia).
  split_and!; try done; [lia | lia |]. intros Hfull. rewrite writer_left by done.
  set (h := 1 + blen (VarIntCodec.wire a)) in *. set (m := Z.min (remaining_capacity w fs - h) (View.len v)) in *.
  pose proof (length_prefix_small m ltac:(unfold m, h; pose proof (blen_nonneg (VarIntCodec.wire a)); lia)).
  pose proof (length_prefix_small n ltac:(lia)). pose proof (length_prefix_cut m n) as Hcutoff. change (umax 16) with 65535 in *.
  assert (0 < h) by (unfold h; pose proof (blen_nonneg (VarIntCodec.wire a)); lia). destruct Hcut; lia.
Qed.

#[refine] Instance crypto_writer_spec : ChunkWriterSpec unit B (HC := crypto_writer be) := {|
  context_ok _ := True;
  carries _ f a bs fin := f = Frame.Crypto (Crypto.mk a bs)
|}.
Proof.
  - intros. by apply crypto_write_chunk_ok.
  - done.
  - intros c f a bs fin ->. cbn [frame_wire]. rewrite blen_cons. match goal with |- 0 < 1 + blen ?x => pose proof (blen_nonneg x) end. lia.
Defined.
End Instances.

(** CRYPTO data is not flow controlled. *)
#[refine] Instance crypto_flow_spec : FlowControllerSpec unit (HF := crypto_flow_controller) := {|
  flow_ok _ := True;
  flow_open _ := True;
  flow_limit _ := VarInt.MAX;
  flow_le _ _ := True
|}.
Proof.
  1-4: done.
  - intros fc e _ _ [_ He]. apply returns_ret. split_and!; try done. unfold VarInt.MAX. lia.
  - done.
  - done.
Defined.
