(* ===== verification/TransmitThm.v ===== *)
(** * Theorems on transmitting

    What [transmit_interval], [transmit_set] and [transmit_fin] write to a packet,
    and that they record it. *)
From stdpp Require Import gmap sets list.
From S2P Require Import Prelude Codec VarInt PacketNumber MapInterface PacketMap PacketMapThm Interval IntervalInsert IntervalSet VarIntSet Frames FrameCodec Transmission TransmissionContext Recovery Sync SendBuffer SendBufferThm Transmissions TransmissionsThm DataSender DataWriter.

#[local] Existing Instance varint_bound.

Lemma set_len_ok a b n : 0 <= a -> 1 <= n -> a + n - 1 <= VarInt.MAX -> Interval.set_len (mk_iv a b) n = Ret (mk_iv a (a + n - 1)).
Proof.
  intros Ha Hn Hmax. unfold Interval.set_len. rewrite (proj2 (Z.eqb_neq n 0)) by lia. cbn [negb rassert obind].
  cbn [steps_between_len varint_bound istart]. rewrite sub_c_Ret by lia. cbn [obind].
  rewrite varint_add_usize_Ret by (unfold VarInt.MAX in *; lia). cbn [obind]. do 2 f_equal. lia.
Qed.

Lemma from_range_ok a b : 0 <= a -> a < b -> Interval.from_range a b = mk_iv a (b - 1).
Proof.
  intros Ha Hab. unfold Interval.from_range, step_down_saturating. cbn [step_down varint_bound]. f_equal.
  unfold VarInt.checked_sub. destruct (checked_sub b 1) as [x |] eqn:E.
  - by apply checked_sub_Some in E as [-> _].
  - apply checked_sub_None in E. lia.
Qed.
Lemma end_exclusive_max a b : b = VarInt.MAX -> Interval.end_exclusive (mk_iv a b) = b.
Proof. by intros ->. Qed.
Lemma interval_valid a b : a <= b -> Interval.is_valid (mk_iv a b) = true.
Proof. intros H. unfold Interval.is_valid, le_b. cbn. by destruct (Z.compare_spec a b); try lia. Qed.

Lemma tx_bind_lift {E F A A'} (m : outcome A) (k : A -> tx (E := E) (F := F) A') s :
  tx_bind (tx_lift m) k s = obind m (fun x => k x s).
Proof. by destruct m. Qed.

(** An interval is cut to a length. *)
Lemma tx_cut {E F A'} a b l (k : Interval Z * Z -> tx (E := E) (F := F) A') s :
  0 <= a -> 1 <= l -> a + l - 1 <= VarInt.MAX \/ b <= VarInt.MAX ->
  tx_bind (if l <? b - a + 1 then tx_bind (tx_lift (Interval.set_len (mk_iv a b) l)) (fun interval => tx_ret (interval, l))
           else tx_ret (mk_iv a b, b - a + 1)) k s
  = k (mk_iv a (Z.min b (a + l - 1)), Z.min b (a + l - 1) - a + 1) s.
Proof.
  intros Ha Hl Hmax. destruct (Z.ltb_spec l (b - a + 1)).
  - rewrite set_len_ok by lia. unfold tx_bind, tx_lift, tx_ret. cbn [obind]. repeat f_equal; lia.
  - unfold tx_bind, tx_ret. cbn [obind]. repeat f_equal; lia.
Qed.
Lemma tx_cut_interval {E F A'} a b l (k : Interval Z -> tx (E := E) (F := F) A') s :
  0 <= a -> 1 <= l -> a + l - 1 <= VarInt.MAX \/ b <= VarInt.MAX ->
  tx_bind (if l <? b - a + 1 then tx_lift (Interval.set_len (mk_iv a b) l) else tx_ret (mk_iv a b)) k s
  = k (mk_iv a (Z.min b (a + l - 1))) s.
Proof.
  intros Ha Hl Hmax. destruct (Z.ltb_spec l (b - a + 1)).
  - rewrite set_len_ok by lia. unfold tx_bind, tx_lift. cbn [obind]. repeat f_equal; lia.
  - unfold tx_bind, tx_ret. cbn [obind]. repeat f_equal; lia.
Qed.

Section Transmit.
Context {E F C B : Type}.
Context `{HF : DataFlowController F, !FlowControllerSpec F} `{HB : Bytes B, !BytesSpec B}.
Context `{HC : ChunkWriter C B, !ChunkWriterSpec C B}.
Context (capacity : Z -> Z) (sp : PacketNumberSpace).
Hypothesis capacity_ok : forall n, 0 < n < 2 ^ 63 -> n <= capacity n < 2 ^ 63.
(** The stream, the packet [n], and its writer. *)
Context (buf : Buffer.t B) (D : list Z) (c : C) (w : Writer) (n : Z).
Hypothesis buf_ok : buffer_ok buf D.
Hypothesis c_ok : context_ok c.
Hypothesis w_ok : writer_ok w.
Hypothesis n_ok : varint_ok n.
Hypothesis w_number : packet_number w = PacketNumber.from_varint n sp.
Hypothesis w_allowed : ConstraintOps.can_retransmit (transmission_constraint w) = true.

Local Abbreviation pn := (fun n => PacketNumber.from_varint n sp).
Local Abbreviation Tx := (Tx (E := E) (F := F)).

(** What a transmission relies on and keeps: the ranges in flight are [A], none
    in a later packet. *)
Record tx_ok (s : Tx) (A : gset (Z * (Z * Z))) : Prop := {
  tx_flight : flight_ok sp (in_flight s) A;
  tx_order : forall m r, (m, r) ∈ A -> m <= n;
  tx_flow : flow_ok (flow_controller s);
  tx_open : flow_open (flow_controller s);
  tx_packet : packet_ok w (written s)
}.

(** A frame with data of the stream, below the offset [limit]. *)
Definition data_frame (limit : Z) (finishing : bool) (f : frame) : Prop :=
  exists a len fin, carries c f a (slice D a len) fin /\ (fin = true \/ 1 <= len) /\ 0 <= a /\ 0 <= len /\ a + len <= blen D /\ a + len <= limit
    /\ (fin = true -> finishing = true /\ a + len = blen D).

(** [s'] comes after [s]: the frames written in between, the ranges in flight
    they account for, all below [U], and the fin bit. *)
Record progress (U : Z) (s : Tx) (A : gset (Z * (Z * Z))) (s' : Tx) (A' : gset (Z * (Z * Z))) (fs : list frame) : Prop := {
  progress_written : written s' = written s ++ fs;
  progress_frames : Forall (data_frame (flow_limit (flow_controller s')) (SenderState.is_finishing (tx_state s))) fs;
  progress_sub : A ⊆ A';
  progress_new : forall m r, (m, r) ∈ A' -> (m, r) ∈ A
    \/ m = n /\ Buffer.head buf <= r.1 /\ r.1 + r.2 <= U /\ r.1 + r.2 <= flow_limit (flow_controller s')
       /\ exists f fin, f ∈ fs /\ carries c f r.1 (slice D r.1 r.2) fin;
  progress_flow : flow_le (flow_controller s) (flow_controller s');
  progress_state : tx_state s' = tx_state s
    \/ WRITES_FIN = true /\ (tx_state s = SenderState.Finishing FinState.Pending \/ tx_state s = SenderState.Finishing FinState.Lost)
       /\ tx_state s' = SenderState.Finishing (FinState.InFlight (pn n))
       /\ exists f a len, f ∈ fs /\ carries c f a (slice D a len) true /\ 0 <= a /\ 0 <= len /\ a + len = blen D
         /\ blen D <= flow_limit (flow_controller s')
}.

Lemma progress_limit U s A s' A' fs : progress U s A s' A' fs -> flow_limit (flow_controller s) <= flow_limit (flow_controller s').
Proof. intros H. apply flow_le_limit, (progress_flow _ _ _ _ _ _ H). Qed.

Lemma data_frame_mono limit limit' fin f : limit <= limit' -> data_frame limit fin f -> data_frame limit' fin f.
Proof. intros Hl (a & len & fin' & Hc & Hne & Ha & Hlen & He & Hlim & Hfin). exists a, len, fin'. split_and!; try done. lia. Qed.

Lemma progress_refl U s A : progress U s A s A [].
Proof. split; try done; [by rewrite app_nil_r | by left | apply flow_le_refl | by left]. Qed.

Lemma progress_mono U U' s A s' A' fs : U <= U' -> progress U s A s' A' fs -> progress U' s A s' A' fs.
Proof.
  intros HU [H1 H2 H3 H4 H5 H6]. split; try done. intros m r Hm. destruct (H4 m r Hm) as [? | (-> & ? & ? & H)]; [by left |].
  right. split; [done |]. split; [done |]. split; [lia | apply H].
Qed.

Lemma progress_finishing U s A s' A' fs : progress U s A s' A' fs -> SenderState.is_finishing (tx_state s') = SenderState.is_finishing (tx_state s).
Proof. intros H. by destruct (progress_state _ _ _ _ _ _ H) as [-> | (_ & [-> | ->] & -> & _)]. Qed.

Lemma progress_trans U s A s1 A1 fs1 s2 A2 fs2 :
  progress U s A s1 A1 fs1 -> progress U s1 A1 s2 A2 fs2 -> progress U s A s2 A2 (fs1 ++ fs2).
Proof using Type.
  clear capacity_ok w_number w_allowed w_ok c_ok n_ok buf_ok BytesSpec0 w capacity.
  intros H1 H2. pose proof (progress_limit _ _ _ _ _ _ H2) as Hlim. split.
  - by rewrite (progress_written _ _ _ _ _ _ H2), (progress_written _ _ _ _ _ _ H1), app_assoc.
  - apply Forall_app. split.
    + eapply Forall_impl; [apply (progress_frames _ _ _ _ _ _ H1) |]. intros f. by apply data_frame_mono.
    + rewrite <- (progress_finishing _ _ _ _ _ _ H1). apply (progress_frames _ _ _ _ _ _ H2).
  - etransitivity; [apply (progress_sub _ _ _ _ _ _ H1) | apply (progress_sub _ _ _ _ _ _ H2)].
  - intros m r Hm. destruct (progress_new _ _ _ _ _ _ H2 m r Hm) as [Hm1 | (-> & ? & ? & ? & f & fin & Hf & ?)].
    + destruct (progress_new _ _ _ _ _ _ H1 m r Hm1) as [? | (-> & ? & ? & ? & f & fin & Hf & ?)]; [by left |]. right.
      split; [done |]. split; [done |]. split; [done |]. split; [lia |]. exists f, fin. set_solver.
    + right. split; [done |]. split; [done |]. split; [done |]. split; [done |]. exists f, fin. set_solver.
  - eapply flow_le_trans; [apply (progress_flow _ _ _ _ _ _ H1) | apply (progress_flow _ _ _ _ _ _ H2)].
  - destruct (progress_state _ _ _ _ _ _ H1) as [E1 | (? & ? & E1 & f & a & len & Hf & ? & ? & ? & ? & ?)], (progress_state _ _ _ _ _ _ H2) as [E2 | (? & E2 & E3 & g & a' & len' & Hg & ?)].
    + left. congruence.
    + right. rewrite <- E1. split_and!; try done. exists g, a', len'. set_solver.
    + right. rewrite E2. split_and!; try done. exists f, a, len. split_and!; try done; [set_solver | lia].
    + destruct E2; congruence.
Qed.

(** ** One interval *)

(** The frame, the range in flight and the fin bit of a chunk that was written. *)
Lemma chunk_progress U s A a len f fin st' set' fc' :
  tx_ok s A -> 0 <= a -> Buffer.head buf <= a -> 1 <= len -> a + len <= U -> a + len <= blen D -> flow_le (flow_controller s) fc' ->
  a + len <= flow_limit fc' -> carries c f a (slice D a len) fin ->
  (fin = true -> SenderState.is_finishing (tx_state s) = true /\ a + len = blen D) ->
  st' = (if WRITES_FIN && fin then SenderState.update_fin (tx_state s) (fun x => FinState.on_transmit x (pn n)) else tx_state s) ->
  progress U s A (mk_tx set' fc' st' (written s ++ [f])) ({[(n, (a, len))]} ∪ A) [f].
Proof.
  intros Hs Ha Hha Hlen HU Hend Hlim Hal Hf Hfin ->. split; cbn [Transmissions.written Transmissions.flow_controller tx_state].
  - done.
  - apply Forall_singleton. exists a, len, fin. split_and!; try done; try lia; try (by right); by apply Hfin.
  - set_solver.
  - intros m r [[= -> ->]%elem_of_singleton | Hm]%elem_of_union; [| by left]. right. cbn.
    split; [done |]. split; [done |]. split; [done |]. split; [done |]. exists f, fin. set_solver.
  - done.
  - destruct WRITES_FIN eqn:Ew, fin; cbn [andb]; try by left.
    destruct (tx_state s) as [| st | |] eqn:Es; try by left. cbn [SenderState.update_fin].
    destruct st; cbn [FinState.on_transmit]; [right | by left | right | by left].
    all: destruct (Hfin eq_refl); split_and!; [done | by (left + right) | done | exists f, a, len; split_and!; try done; [set_solver | lia | lia]].
Qed.

Lemma transmit_chunk_ok s A cur a b :
  tx_ok s A -> cursor_ok buf cur -> Buffer.head buf <= a -> viewer_offset cur <= a -> a <= b -> b < blen D ->
  Set_.has_capacity (in_flight s) = true -> b - a + 1 <= remaining_capacity w (written s) ->
  b + 1 <= flow_limit (flow_controller s) ->
  returns (transmit_chunk capacity buf cur (mk_iv a b) c w s) (fun '(res, s') =>
    flow_controller s' = flow_controller s /\
    match res with
    | Err _ => tx_ok s' A /\ forall U, progress U s A s' A []
    | Ok (iv, cur') => exists len f,
        1 <= len <= b - a + 1 /\ iv = mk_iv a (a + len - 1) /\ cursor_ok buf cur' /\ viewer_offset cur' <= a
        /\ tx_ok s' ({[(n, (a, len))]} ∪ A) /\ progress (a + len) s A s' ({[(n, (a, len))]} ∪ A) [f]
        /\ (len < b - a + 1 \/ b - a + 1 = remaining_capacity w (written s) -> remaining_capacity w (written s') <= 2)
    end).
Proof.
  intros Hs Hcur Hhead Hoff Hab Hb Hcap Hroom Hlim. pose proof (buffer_total _ _ buf_ok) as Htot. destruct (buffer_head _ _ buf_ok) as [Hh0 _].
  pose proof (writer_room_range w _ w_ok (tx_packet _ _ Hs)) as Hroom16. change (umax 16) with 65535 in Hroom16.
  unfold transmit_chunk. rewrite tx_bind_lift. rstep (view_new_ok buf D a b (SenderState.is_finishing (tx_state s)) cur); [done.. |].
  intros [v cur'] (Hv & Hlen & Hfin & Hcur' & Hoff'). unfold tx_bind at 1, tx_write_chunk.
  destruct (write_chunk_spec c w (Transmissions.written s) buf D v a) as ([[res v'] fs'] & Ew & Hw'); try done; [apply (tx_packet _ _ Hs) | lia |].
  change (Interval.start_inclusive (mk_iv a b)) with a. rewrite Ew. cbn [obind]. destruct res as [[] | e].
  2: { subst fs'. apply returns_ret. destruct s. split; [done |]. split; [done |]. intros U. apply progress_refl. }
  destruct Hw' as (len & f & Hl & -> & -> & Hf & Hpkt & Hfull). cbn [View.is_fin] in Hf.
  set (fin := View.is_fin v && (len =? View.len v)) in *. rewrite !tx_bind_lift. unfold View.len_varint. cbn [View.len].
  rewrite varint_new_Ret by (unfold varint_ok, VarInt.MAX, MAX_VARINT_VALUE in *; lia). cbn [obind].
  rewrite tx_bind_lift, (proj2 (Z.eqb_neq len 0)) by lia. cbn [negb rassert obind]. rewrite tx_bind_lift, set_len_ok by lia. cbn [obind].
  rewrite tx_bind_lift, interval_valid by lia. cbn [rassert obind]. unfold tx_bind at 1, tx_insert. rewrite w_number.
  change (Interval.start_inclusive (mk_iv a (a + len - 1))) with a. cbn [in_flight].
  destruct (flight_insert capacity sp capacity_ok (in_flight s) A n a len (tx_flight _ _ Hs) Hcap n_ok (tx_order _ _ Hs)) as (set' & -> & Hset');
    [unfold range_ok; cbn; lia |]. cbn [obind].
  set (st' := if WRITES_FIN && fin then SenderState.update_fin (tx_state s) (fun x => FinState.on_transmit x (pn n)) else tx_state s).
  exists (Ok (mk_iv a (a + len - 1), cur'), mk_tx set' (flow_controller s) st' (Transmissions.written s ++ [f])).
  split; [unfold tx_bind, st'; cbn [View.is_fin]; by destruct (WRITES_FIN && fin) |]. split; [done |]. exists len, f.
  split_and!; try done; try lia.
  - split; cbn; try apply Hs; try done. intros m r [[= -> ->]%elem_of_singleton | Hm]%elem_of_union; [lia | by apply (tx_order _ _ Hs m r)].
  - apply (chunk_progress (a + len) s A a len f fin); try done; try lia; [apply flow_le_refl |]. unfold fin. rewrite Hfin.
    intros [[? ?%Z.eqb_eq]%andb_true_iff ?%Z.eqb_eq]%andb_true_iff. split; [done | lia].
  - cbn [Transmissions.written]. intros Hfu. apply Hfull. lia.
Qed.

Lemma flow_progress U s A fc :
  flow_le (flow_controller s) fc -> progress U s A (mk_tx (in_flight s) fc (tx_state s) (written s)) A [].
Proof. intros H. split; cbn; try done; [by rewrite app_nil_r | by left | by left]. Qed.

(** [interval] from [a] to [b]: the part that was sent, if any.  What is left of
    it needs another packet or is blocked. *)
Lemma transmit_interval_ok s A cur a b :
  tx_ok s A -> cursor_ok buf cur -> Buffer.head buf <= a -> viewer_offset cur <= a -> a <= b -> b < blen D ->
  returns (transmit_interval capacity buf cur (mk_iv a b) c w s) (fun '(res, s') =>
    match res with
    | Err _ => tx_ok s' A /\ forall U, progress U s A s' A []
    | Ok (iv, cur') => exists len f,
        1 <= len <= b - a + 1 /\ iv = mk_iv a (a + len - 1) /\ cursor_ok buf cur' /\ viewer_offset cur' <= a
        /\ tx_ok s' ({[(n, (a, len))]} ∪ A) /\ progress (a + len) s A s' ({[(n, (a, len))]} ∪ A) [f]
        /\ (len < b - a + 1 -> is_blocked (flow_controller s') = true \/ remaining_capacity w (written s') <= 2)
    end).
Proof.
  intros Hs Hcur Hhead Hoff Hab Hb. pose proof (buffer_total _ _ buf_ok) as Htot. destruct Hs as [Hfl Hord Hflow Hopen Hpkt].
  pose proof (writer_room_range w _ w_ok Hpkt) as Hroom. change (umax 16) with 65535 in Hroom.
  destruct (buffer_head _ _ buf_ok) as [Hh0 _].
  unfold transmit_interval. cbv zeta. rewrite tx_bind_lift, interval_len_ok by (unfold varint_ok, VarInt.MAX in *; lia). cbn [obind].
  change (umax 16) with 65535. rewrite Z.min_l by lia. set (room := remaining_capacity w (Transmissions.written s)) in *.
  destruct ((room =? 0) || _ || _) eqn:Eno; [apply returns_ret; split; [by split | intros U; apply progress_refl] |].
  apply orb_false_iff in Eno as [[Er _]%orb_false_iff Ecap%negb_false_iff]. apply Z.eqb_neq in Er.
  rewrite tx_cut by lia. set (b1 := Z.min b (a + room - 1)). rewrite end_exclusive_ok by lia.
  unfold tx_bind at 1, tx_acquire at 1.
  destruct (acquire_spec (flow_controller s) (b1 + 1)) as ([window fc] & -> & Hflow' & Hopen' & Hwin & Hwl & Hmono & Hblock); try done;
    [unfold varint_ok, VarInt.MAX in *; lia |]. cbn [obind]. set (s1 := mk_tx (in_flight s) fc (tx_state s) (Transmissions.written s)).
  assert (Hs1 : tx_ok s1 A) by (by split). assert (Hp1 : forall U, progress U s A s1 A []) by (intros U; by apply flow_progress).
  change (Interval.start_inclusive (mk_iv a b1)) with a. unfold VarInt.checked_sub.
  destruct (checked_sub window a) as [wl |] eqn:Ewl; [| by apply returns_ret].
  apply checked_sub_Some in Ewl as [-> ?]. destruct (Z.eqb_spec (window - a) 0); [by apply returns_ret |].
  rewrite tx_cut_interval by lia. set (b2 := Z.min b1 (a + (window - a) - 1)).
  eapply returns_mono; [apply (transmit_chunk_ok s1 A cur a b2); try done; cbn; lia |]. intros [[[iv cur'] | e] s'] [Efc H'].
  - destruct H' as (len & f & Hl & -> & Hc' & Ho' & Hs' & Hp' & Hfull). exists len, f. split_and!; try done; [lia | lia | |].
    + apply (progress_trans _ s A s1 A [] s' _ [f]); done.
    + intros Hlt. rewrite Efc. cbn [s1 Transmissions.flow_controller Transmissions.written] in *. destruct (Z.lt_ge_cases window (b1 + 1)) as [Hw1 | Hw1]; [by left; apply Hblock |].
      right. apply Hfull. fold room. lia.
  - destruct H' as [Hs' Hp']. split; [done |]. intros U. apply (progress_trans _ s A s1 A [] s' A []); done.
Qed.

(** ** A set of intervals *)

(** The offset is in flight in the packet. *)
Definition in_packet (A : gset (Z * (Z * Z))) (x : Z) : Prop := exists r, (n, r) ∈ A /\ r.1 <= x < r.1 + r.2.

Lemma in_packet_mono A A' x : A ⊆ A' -> in_packet A x -> in_packet A' x.
Proof. intros Hsub (r & Hr & Hx). exists r. split; [by apply Hsub | done]. Qed.

(** What is left of the set was in it; the rest is in the packet. *)
Definition taken (set set' : IntervalSet Z) (A' : gset (Z * (Z * Z))) : Prop :=
  offsets_ok set' /\ (forall x, offsets set' x -> offsets set x) /\ forall x, offsets set x -> offsets set' x \/ in_packet A' x.

(** The interval that was taken first is put back from [a] on. *)
Lemma put_back_ok (set set1 : IntervalSet Z) A a0 a b :
  offsets_ok set1 -> (forall x, offsets set x <-> a0 <= x <= b \/ offsets set1 x) ->
  0 <= a0 -> a0 <= a -> a <= b -> b <= VarInt.MAX -> (forall x, a0 <= x < a -> in_packet A x) ->
  returns (let! '(res, set) := IntervalSetOps.insert_front set1 (Included a) (Included b) in
           let! _ := unwrap (VarInt.ok res) in Ret set) (fun set' => taken set set' A).
Proof.
  intros Hs1 Hset H0 Ha Hab Hb Hin. rstep (offsets_insert true set1 a b); [done | lia.. |].
  intros [res set'] ([m ->] & Hok & Hx). apply returns_ret. split; [done |]. split.
  - intros x. rewrite Hx, Hset. intros [? | ?]; [by right | left; lia].
  - intros x. rewrite Hset, Hx. intros [? | ?]; [| by left; left].
    destruct (Z.lt_ge_cases x a); [right; apply Hin; lia | left; right; lia].
Qed.

Lemma transmit_set_loop_ok U fuel : U <= blen D -> forall set s A cur sent,
  tx_ok s A -> cursor_ok buf cur -> offsets_ok set -> (length (intervals set) < fuel)%nat ->
  (forall x, offsets set x -> Buffer.head buf <= x /\ viewer_offset cur <= x /\ x < U) ->
  returns (transmit_set_loop capacity fuel buf cur set sent c w s) (fun '(res, set', s') => exists A' fs,
    tx_ok s' A' /\ progress U s A s' A' fs /\ taken set set' A').
Proof.
  intros HU. induction fuel as [| fuel IH]; intros set s A cur sent Hs Hcur Hset Hfuel Hx; [lia |].
  cbn [transmit_set_loop]. pose proof (offsets_pop set Hset) as Hpop. destruct (IntervalSetOps.pop_min set) as [[i |] set1].
  2: { destruct Hpop as [-> Hno]. apply returns_ret. exists A, []. split; [done |]. split; [apply progress_refl |].
       split; [done |]. split; [done |]. intros x Hm. by left. }
  destruct i as [a b]. destruct Hpop as (H0 & Hab & Hbm & Hs1 & Hgt & Hmem & Hlen). cbn [istart iend] in *.
  pose proof (proj1 (Hmem b)) as Hb. destruct (Hx a) as (Ha1 & Ha2 & _); [apply Hmem; lia |].
  destruct (Hx b) as (_ & _ & Hb3); [apply Hmem; lia |].
  rstep (transmit_interval_ok s A cur a b); [done.. | lia |]. intros [[[iv cur'] | e] s'].
  - intros (len & f & Hl & -> & Hc' & Ho' & Hs' & Hp & _). apply (progress_mono _ U) in Hp; [| lia]. pose proof (buffer_total _ _ buf_ok) as Htot.
    rewrite !interval_len_ok by (unfold varint_ok, VarInt.MAX in *; lia). cbn [obind].
    assert (Hin : forall x, a <= x < a + len -> in_packet ({[(n, (a, len))]} ∪ A) x) by (intros x Hxl; exists (a, len); split; [set_solver | done]).
    destruct (Z.eqb_spec (a + len - 1 - a + 1) (b - a + 1)) as [Eq | Hne]; cbn [negb].
    + eapply returns_mono; [apply (IH set1 s' ({[(n, (a, len))]} ∪ A) cur' true); try done; [lia |] |].
      * intros x Hm. destruct (Hx x) as (? & ? & ?); [apply Hmem; by right |]. apply Hgt in Hm. lia.
      * intros [[res set'] s2] (A2 & fs & Hs2 & Hp2 & Hok & Hsub & Hrest). exists A2, (f :: fs). split; [done |].
        split; [by apply (progress_trans U s A s' ({[(n, (a, len))]} ∪ A) [f] s2 A2 fs) |]. split; [done |]. split.
        -- intros x Hm. apply Hmem. right. by apply Hsub.
        -- intros x [Hm | Hm]%Hmem; [| by apply Hrest]. right. apply (in_packet_mono _ _ _ (progress_sub _ _ _ _ _ _ Hp2)), Hin. lia.
    + change (Interval.start_inclusive (mk_iv a b)) with a. change (Interval.end_inclusive (mk_iv a b)) with b.
      rewrite varint_add_usize_Ret by (unfold VarInt.MAX in *; lia). cbn [obind]. rewrite interval_valid by lia. cbn [rassert obind istart iend].
      rstep (put_back_ok set set1 ({[(n, (a, len))]} ∪ A) a (a + (a + len - 1 - a + 1)) b); [done.. | lia | lia | done | |].
      * intros x Hxl. apply Hin. lia.
      * intros set' Ht. apply returns_ret. by exists ({[(n, (a, len))]} ∪ A), [f].
  - intros [Hs' Hp]. rstep (put_back_ok set set1 A a a b); [done.. | lia | lia |]. intros set' Ht. apply returns_ret. by exists A, [].
Qed.

Lemma transmit_set_ok U set s A :
  U <= blen D -> tx_ok s A -> offsets_ok set -> (forall x, offsets set x -> Buffer.head buf <= x < U) ->
  returns (transmit_set capacity buf set c w s) (fun '(res, set', s') => exists A' fs,
    tx_ok s' A' /\ progress U s A s' A' fs /\ taken set set' A').
Proof.
  intros HU Hs Hset Hx. unfold transmit_set. destruct (IntervalSetOps.is_empty set).
  - apply returns_ret. exists A, []. split; [done |]. split; [apply progress_refl |]. split; [done |]. split; [done |]. intros x Hm. by left.
  - apply transmit_set_loop_ok; [done | done | apply viewer_cursor | done | lia |]. intros x Hm. cbn. destruct (Hx x Hm). lia.
Qed.

(** ** The fin bit *)

Lemma fin_progress U s A f :
  tx_ok s A -> WRITES_FIN = true -> carries c f (blen D) [] true -> packet_ok w (written s ++ [f]) -> blen D <= flow_limit (flow_controller s) ->
  tx_state s = SenderState.Finishing FinState.Pending \/ tx_state s = SenderState.Finishing FinState.Lost ->
  let s' := mk_tx (in_flight s) (flow_controller s) (SenderState.update_fin (tx_state s) (fun fin => FinState.on_transmit fin (packet_number w)))
              (written s ++ [f]) in
  tx_ok s' A /\ progress U s A s' A [f].
Proof.
  intros Hs Hw Hf Hpkt Hlim Hst s'. pose proof (blen_nonneg D).
  assert (Hsl : carries c f (blen D) (slice D (blen D) 0) true) by done.
  split; [destruct Hs; by split |]. split; cbn [written flow_controller tx_state s']; try done; [| by left | apply flow_le_refl |].
  - apply Forall_singleton. exists (blen D), 0, true. split_and!; try done; try lia; try (by left). intros _. split; [by destruct Hst as [-> | ->] | lia].
  - right. split; [done |]. split; [done |]. split; [rewrite w_number; by destruct Hst as [-> | ->] |]. exists f, (blen D), 0. split_and!; try done; [set_solver | lia].
Qed.

Lemma transmit_fin_ok U s A :
  tx_ok s A -> WRITES_FIN = true -> (tx_state s = SenderState.Finishing FinState.Pending -> is_blocked (flow_controller s) = false ->
    blen D <= flow_limit (flow_controller s) \/ blen D <> 0 /\ remaining_capacity w (written s) <= 2) ->
  (tx_state s = SenderState.Finishing FinState.Lost -> blen D <= flow_limit (flow_controller s)) ->
  returns (transmit_fin buf c w s) (fun '(res, s') => exists fs, tx_ok s' A /\ progress U s A s' A fs).
Proof.
  intros Hs Hw Hpend Hlost. unfold transmit_fin. destruct (is_blocked (flow_controller s)) eqn:Hblk.
  { apply returns_ret. exists []. split; [done | apply progress_refl]. }
  destruct (tx_state s) as [| [| | |] | |] eqn:Es; try by (apply returns_ret; exists []; split; [done | apply progress_refl]).
  all: rewrite <- Es, (total_len_ok _ _ buf_ok); cbn [obind].
  all: rstep (write_fin_spec c w (written s) (blen D)); [done.. | apply (tx_packet _ _ Hs) | done | |].
  1, 3: pose proof (buffer_total _ _ buf_ok); pose proof (blen_nonneg D); unfold varint_ok, VarInt.MAX in *; lia.
  all: intros [[[] | e] fs'] Hf; [| subst fs'; apply returns_ret; exists []; destruct s; split; [exact Hs | apply progress_refl]].
  all: destruct Hf as (f & -> & Hf & Hpkt & Hroom); apply returns_ret; exists [f]; apply (fin_progress U s A f); try done; try (by left); try (by right).
  - destruct (Hpend eq_refl eq_refl) as [? | [? ?]]; [done |]. specialize (Hroom ltac:(done)). lia.
  - by apply Hlost.
Qed.

(** ** Pending data, in a probe *)

Lemma transmit_pending_ok limit ivs : limit <= blen D -> forall s A cur lb,
  tx_ok s A -> cursor_ok buf cur -> viewer_offset cur <= lb -> Buffer.head buf <= lb -> sorted_from varint_ok id lb ivs ->
  returns (DataSender.transmit_pending capacity buf cur ivs limit c w s) (fun '(res, s') => exists A' fs,
    tx_ok s' A' /\ progress limit s A s' A' fs).
Proof.
  intros Hlim. induction ivs as [| [a b] ivs IH]; intros s A cur lb Hs Hcur Hoff Hhead Hsort.
  { apply returns_ret. exists A, []. split; [done | apply progress_refl]. }
  cbn [DataSender.transmit_pending]. change (Interval.start_inclusive (mk_iv a b)) with a. destruct Hsort as ((Ha & Hb & Hab) & Hlb & Hsort).
  unfold id in *. cbn [istart iend] in *. pose proof (buffer_total _ _ buf_ok) as Htot.
  destruct (Z.leb_spec limit a); [apply returns_ret; exists A, []; split; [done | apply progress_refl] |].
  assert (He : Z.min (Interval.end_exclusive (mk_iv a b)) limit = Z.min (b + 1) limit).
  { destruct (Z.lt_ge_cases b VarInt.MAX) as [Hlt | Hge]; [by rewrite end_exclusive_ok |].
    unfold varint_ok, VarInt.MAX in *. pose proof (end_exclusive_max a b) as Hm. unfold VarInt.MAX in Hm. rewrite Hm by lia. lia. }
  rewrite He, from_range_ok by (unfold varint_ok in *; lia).
  rstep (transmit_interval_ok s A cur a (Z.min (b + 1) limit - 1)); [done | done | lia.. |]. intros [[[iv cur'] | e] s'].
  - intros (len & f & Hl & -> & Hc' & Ho' & Hs' & Hp & _). apply (progress_mono _ limit) in Hp; [| lia].
    eapply returns_mono; [apply (IH s' ({[(n, (a, len))]} ∪ A) cur' (b + 2)); done || lia |].
    intros [res s2] (A2 & fs & Hs2 & Hp2). exists A2, (f :: fs). split; [done |].
    by apply (progress_trans limit s A s' ({[(n, (a, len))]} ∪ A) [f] s2 A2 fs).
  - intros [Hs' Hp]. apply returns_ret. exists A, []. done.
Qed.
End Transmit.
