(* ===== verification/DataSenderThm.v ===== *)
(** * The invariant of the data sender

    Every operation of [sync/data_sender.rs] keeps it, and passes the checks of
    debug builds. *)
From stdpp Require Import gmap sets list.
From S2P Require Import Prelude Codec VarInt PacketNumber MapInterface PacketMap PacketMapThm Interval IntervalInsert IntervalSet VarIntSet Frames FrameCodec Transmission TransmissionContext Recovery Sync SendBuffer SendBufferThm Transmissions TransmissionsThm DataSender DataWriter TransmitThm.

#[local] Existing Instance varint_bound.

Section Sender.
Context {E F C B : Type}.
Context `{HF : DataFlowController F, !FlowControllerSpec F} `{HB : Bytes B, !BytesSpec B}.
Context `{HC : ChunkWriter C B, !ChunkWriterSpec C B}.
Context (capacity : Z -> Z) (sp : PacketNumberSpace).
Hypothesis capacity_ok : forall n, 0 < n < 2 ^ 63 -> n <= capacity n < 2 ^ 63.

Local Abbreviation pn := (fun n => PacketNumber.from_varint n sp).
Local Abbreviation sender := (DataSender.t (E := E) (F := F) (B := B)).
Local Abbreviation offset := DataSender.transmission_offset.

(** The offset is in flight. *)
Definition flying (A : gset (Z * (Z * Z))) (x : Z) : Prop := exists m r, (m, r) ∈ A /\ r.1 <= x < r.1 + r.2.

(** The sender of a stream whose bytes so far are [D], with the ranges [A] in
    flight, in packets up to [n]. *)
Record sender_ok (self : sender) (D : list Z) (A : gset (Z * (Z * Z))) (n : Z) : Prop := {
  so_buffer : buffer_ok (DataSender.buffer self) D;
  so_flight : flight_ok sp (DataSender.transmissions self) A;
  so_order : forall m r, (m, r) ∈ A -> m <= n;
  so_flow : flow_ok (DataSender.flow_controller self);
  so_pending_ok : offsets_ok (DataSender.pending self);
  so_lost_ok : offsets_ok (DataSender.lost self);
  so_pending x : offsets (DataSender.pending self) x -> Buffer.head (DataSender.buffer self) <= x < blen D;
  so_head : Buffer.head (DataSender.buffer self) < blen D ->
    offsets (DataSender.pending self) (Buffer.head (DataSender.buffer self));
  so_lost x : offsets (DataSender.lost self) x -> offsets (DataSender.pending self) x /\ x < offset self;
  so_offset : 0 <= offset self <= blen D;
  so_sent x : offsets (DataSender.pending self) x -> x < offset self -> offsets (DataSender.lost self) x \/ flying A x;
  so_unsent x : offset self <= x < blen D -> offsets (DataSender.pending self) x;
  so_ranges m r : (m, r) ∈ A -> r.1 + r.2 <= offset self;
  so_idle : (forall x, ~ offsets (DataSender.pending self) x) -> A = ∅;
  so_limit : offset self <= flow_limit (DataSender.flow_controller self)
}.

Lemma sender_idle self D A n :
  sender_ok self D A n -> (forall x, ~ offsets (DataSender.pending self) x) ->
  Buffer.head (DataSender.buffer self) = blen D /\ offset self = blen D.
Proof.
  intros H Hno. destruct (buffer_head _ _ (so_buffer _ _ _ _ H)). pose proof (so_offset _ _ _ _ H). split.
  - destruct (Z.lt_ge_cases (Buffer.head (DataSender.buffer self)) (blen D)) as [Hlt |]; [| lia].
    by destruct (Hno _ (so_head _ _ _ _ H Hlt)).
  - destruct (Z.lt_ge_cases (offset self) (blen D)) as [Hlt |]; [| lia].
    destruct (Hno (offset self)). apply (so_unsent _ _ _ _ H). lia.
Qed.

(** ** The checks of debug builds *)

Lemma interest_new_data (self : sender) l :
  is_blocked (DataSender.flow_controller self) = true -> DataSender.transmission_interest self = Ret l ->
  InterestOps.get_transmission_interest NoInterest l <> NewData.
Proof.
  intros Hb. unfold DataSender.transmission_interest. destruct (Buffer.total_len _); cbn [obind]; [| done]. rewrite Hb.
  destruct (negb (IntervalSetOps.is_empty (DataSender.lost self))), WRITES_FIN, (DataSender.state self) as [| [| | |] | |];
    rewrite ?andb_false_r; cbn; intros [= <-]; cbn; done.
Qed.

Lemma check_pending self D A n :
  sender_ok self D A n -> (if IntervalSetOps.is_empty (DataSender.pending self) then
      let! _ := rassert (IntervalSetOps.is_empty (DataSender.lost self)) in
      let! _ := rassert (Set_.is_empty (DataSender.transmissions self)) in
      let! _ := rassert (Buffer.head (DataSender.buffer self) =? blen D) in
      rassert (offset self =? blen D)
    else
      rassert (negb (IntervalSetOps.is_empty (DataSender.lost self)) || (offset self <? blen D)
               || negb (Set_.is_empty (DataSender.transmissions self)))) = Ret tt.
Proof.
  intros H. pose proof (offsets_min _ (so_pending_ok _ _ _ _ H)) as Hmin.
  rewrite (flight_is_empty capacity sp capacity_ok _ A (so_flight _ _ _ _ H)).
  destruct (IntervalSetOps.min_value (DataSender.pending self)) as [a |].
  - destruct Hmin as (-> & Ha & _). destruct (so_pending _ _ _ _ H a Ha). destruct (Z.ltb_spec (offset self) (blen D)); [by rewrite orb_true_r |].
    destruct (so_sent _ _ _ _ H a Ha) as [Hl | (m & r & Hm & _)]; [lia | |].
    + destruct (IntervalSetOps.is_empty (DataSender.lost self)) eqn:El; [| done]. by apply (offsets_empty _ (so_lost_ok _ _ _ _ H)) in Hl.
    + rewrite bool_decide_eq_false_2 by set_solver. by rewrite orb_true_r.
  - destruct Hmin as [-> Hno]. destruct (sender_idle _ _ _ _ H Hno) as [-> ->]. rewrite (so_idle _ _ _ _ H Hno), Z.eqb_refl.
    rewrite (proj2 (offsets_empty _ (so_lost_ok _ _ _ _ H))) by (intros x Hx; destruct (so_lost _ _ _ _ H x Hx) as [Hp _]; by apply (Hno x)).
    done.
Qed.

Lemma check_sender self D A n : sender_ok self D A n -> DataSender.check_integrity self = Ret tt.
Proof.
  intros H. unfold DataSender.check_integrity. rewrite (total_len_ok _ _ (so_buffer _ _ _ _ H)). cbn [obind].
  rewrite (check_pending _ _ _ _ H). cbn [obind]. pose proof (offsets_min _ (so_pending_ok _ _ _ _ H)) as Hmin.
  assert (match IntervalSetOps.min_value (DataSender.pending self) with
          | Some start => rassert (Buffer.head (DataSender.buffer self) =? start) | None => Ret tt end = Ret tt) as ->.
  { destruct (IntervalSetOps.min_value (DataSender.pending self)) as [a |]; [| done]. destruct Hmin as (_ & Ha & _ & Hle).
    pose proof (so_pending _ _ _ _ H a Ha). specialize (Hle _ (so_head _ _ _ _ H ltac:(lia))). by rewrite (proj2 (Z.eqb_eq _ _)) by lia. }
  cbn [obind]. destruct (is_blocked (DataSender.flow_controller self)) eqn:Hb; [| done].
  destruct (DataSender.transmission_interest self) as [l |] eqn:El; cbn [obind].
  - pose proof (interest_new_data self l Hb El). by destruct (InterestOps.get_transmission_interest NoInterest l).
  - unfold DataSender.transmission_interest in El. by rewrite (total_len_ok _ _ (so_buffer _ _ _ _ H)) in El.
Qed.

(** ** Operations without a packet *)

Lemma new_sender_ok fc max_buffer_capacity :
  flow_ok fc -> sender_ok (DataSender.new capacity fc max_buffer_capacity) [] ∅ 0
    /\ sender_ok (DataSender.new_finished capacity fc max_buffer_capacity) [] ∅ 0.
Proof.
  intros Hfc. pose proof (flow_limit_nonneg _ Hfc). assert (Hno : forall x, ~ offsets IntervalSetOps.new x) by (intros x; unfold offsets, members; cbn; rewrite mem_nil; tauto).
  split; split; cbn -[offsets]; try done; try apply default_buffer_ok; try (by apply flight_default); try apply offsets_new; try set_solver; try (intros; lia).
  all: intros x Hx; change (blen []) with 0 in Hx; lia.
Qed.

Lemma push_ok self D A n d :
  sender_ok self D A n -> SenderState.is_sending (DataSender.state self) = true -> chunk_len d <= umax 32 ->
  blen D + chunk_len d <= VarInt.MAX ->
  returns (DataSender.push self d) (fun self' =>
    sender_ok self' (D ++ bytes_slice d) A n /\ DataSender.state self' = DataSender.state self
    /\ DataSender.flow_controller self' = DataSender.flow_controller self
    /\ forall x, offsets (DataSender.pending self') x <-> offsets (DataSender.pending self) x \/ blen D <= x < blen D + chunk_len d).
Proof.
  intros H Hst Hlen Hmax. unfold DataSender.push. rewrite Hst. cbn [rassert obind]. rewrite (proj2 (Z.leb_le _ _)) by done. cbn [rassert obind].
  pose proof (blen_nonneg (bytes_slice d)) as Hd0. fold (chunk_len d) in Hd0. destruct (Z.eqb_spec (chunk_len d) 0) as [E0 | Hne].
  { apply returns_ret. assert (bytes_slice d = []) as -> by (unfold chunk_len, blen in E0; destruct (bytes_slice d); cbn in *; done || lia).
    rewrite app_nil_r. split_and!; try done. intros x. split; [by left | intros [? | ?]; [done | lia]]. }
  rstep (push_buffer_ok (DataSender.buffer self) D d (so_buffer _ _ _ _ H)); [lia | lia |]. intros [iv buf'] (-> & Hbuf & Hhead). cbn [istart iend].
  pose proof (blen_nonneg D). rstep (offsets_insert false (DataSender.pending self) (blen D) (blen D + chunk_len d - 1)); [apply H | lia.. |].
  intros [res pending'] ([m ->] & Hok & Hx). cbn [VarInt.ok unwrap obind].
  assert (HE : blen (D ++ bytes_slice d) = blen D + chunk_len d) by apply blen_app.
  set (self' := DataSender.mk _ _ _ _ _ _ _ _).
  assert (H' : sender_ok self' (D ++ bytes_slice d) A n).
  { destruct H. split; cbn [self' DataSender.buffer DataSender.transmissions DataSender.flow_controller DataSender.transmission_offset DataSender.pending DataSender.lost]; try done; rewrite ?HE, ?Hhead; try done.
    - intros x. rewrite Hx. intros [Hp | ?]; [specialize (so_pending0 x Hp); lia |]. destruct (buffer_head _ _ so_buffer0). lia.
    - intros Hlt. rewrite Hx. destruct (Z.lt_ge_cases (Buffer.head (DataSender.buffer self)) (blen D)); [left; by apply so_head0 | right; lia].
    - intros x Hl. destruct (so_lost0 x Hl). split; [| done]. apply Hx. by left.
    - lia.
    - intros x Hp Hlt. apply Hx in Hp as [Hp | ?]; [by apply so_sent0 | lia].
    - intros x Hxr. apply Hx. destruct (Z.lt_ge_cases x (blen D)); [left; apply so_unsent0; lia | right; lia].
    - intros Hno. destruct (Hno (blen D)). apply Hx. right. lia. }
  rewrite (check_sender _ _ _ _ H'). apply returns_ret. split_and!; try done. intros x. cbn [self' DataSender.pending]. rewrite Hx.
  split; (intros [? | ?]; [by left | right; lia]).
Qed.

(** Only the state of the sender changes. *)
Lemma sender_state self D A n st :
  sender_ok self D A n -> sender_ok (DataSender.mk (DataSender.buffer self) (DataSender.transmissions self) (DataSender.flow_controller self)
    (offset self) (DataSender.pending self) (DataSender.lost self) (DataSender.max_buffer_capacity self) st) D A n.
Proof. intros []. by split. Qed.

Lemma finish_ok self D A n :
  sender_ok self D A n -> returns (DataSender.finish self) (fun self' =>
    sender_ok self' D A n /\ DataSender.pending self' = DataSender.pending self
    /\ DataSender.flow_controller self' = DataSender.flow_controller self
    /\ DataSender.state self' = if SenderState.is_sending (DataSender.state self)
                                then SenderState.Finishing (if WRITES_FIN then FinState.Pending else FinState.Acknowledged)
                                else DataSender.state self).
Proof.
  intros H. unfold DataSender.finish. destruct (SenderState.is_sending (DataSender.state self)); cbn [negb]; [| by apply returns_ret].
  rewrite (check_sender _ D A n) by (by apply sender_state). apply returns_ret. split; [by apply sender_state | done].
Qed.

Lemma stop_sending_ok self D A n e :
  sender_ok self D A n -> SenderState.is_finished (DataSender.state self) = false ->
  returns (DataSender.stop_sending self e) (fun self' =>
    sender_ok self' [] ∅ n /\ DataSender.state self' = SenderState.Cancelled e
    /\ DataSender.flow_controller self' = finish_flow (DataSender.flow_controller self)).
Proof.
  intros H Hst. unfold DataSender.stop_sending. rewrite Hst.
  rstep clear_buffer_ok. intros buf ->. rstep (flight_clear capacity sp capacity_ok); [apply H |]. intros set Hset.
  destruct (offsets_clear _ (so_pending_ok _ _ _ _ H)) as [Hp Hpx], (offsets_clear _ (so_lost_ok _ _ _ _ H)) as [Hl Hlx].
  destruct (finish_spec _ (so_flow _ _ _ _ H)) as (Hf1 & Hf2 & _). pose proof (flow_limit_nonneg _ Hf1).
  set (self' := DataSender.mk _ _ _ _ _ _ _ _).
  assert (H' : sender_ok self' [] ∅ n).
  { split; cbn [self' DataSender.buffer DataSender.transmissions DataSender.flow_controller DataSender.transmission_offset DataSender.pending DataSender.lost];
      try done; try apply default_buffer_ok; try set_solver; try (intros; cbn in *; lia); intros x Hx; (by destruct (Hpx x)) || (by destruct (Hlx x)) || (change (blen []) with 0 in Hx; lia). }
  rewrite (check_sender _ _ _ _ H'). by apply returns_ret.
Qed.

(** ** Acknowledgement and loss *)

Lemma remove_all_ok ivs : forall set,
  offsets_ok set -> Forall (fun iv => 0 <= istart iv /\ istart iv <= iend iv /\ iend iv <= VarInt.MAX) ivs ->
  returns (DataSender.remove_all set ivs) (fun set' =>
    offsets_ok set' /\ forall x, offsets set' x <-> offsets set x /\ forall iv, iv ∈ ivs -> ~ istart iv <= x <= iend iv).
Proof.
  induction ivs as [| iv ivs IH]; intros set Hs Hiv; [apply returns_ret; split; [done |]; set_solver |].
  apply Forall_cons in Hiv as [(? & ? & ?) Hiv]. cbn [DataSender.remove_all].
  rstep (offsets_remove set (istart iv) (iend iv)); [done.. |]. intros [res set1] (-> & Hs1 & Hx1). cbn [VarInt.ok unwrap obind].
  eapply returns_mono; [by apply IH |]. intros set' [Hs' Hx']. split; [done |]. intros x. rewrite Hx', Hx1. split.
  - intros [[Hx Hn] Hall]. split; [done |]. intros iv' [-> | Hi]%elem_of_cons; [done | by apply Hall].
  - intros [Hx Hall]. split; [split; [done |]; apply Hall; set_solver |]. intros iv' Hi. apply Hall. set_solver.
Qed.

Lemma insert_all_ok ivs : forall set,
  offsets_ok set -> Forall (fun iv => 0 <= istart iv /\ istart iv <= iend iv /\ iend iv <= VarInt.MAX) ivs ->
  returns (DataSender.insert_all set ivs) (fun set' =>
    offsets_ok set' /\ forall x, offsets set' x <-> offsets set x \/ exists iv, iv ∈ ivs /\ istart iv <= x <= iend iv).
Proof.
  induction ivs as [| iv ivs IH]; intros set Hs Hiv; [apply returns_ret; split; [done |]; set_solver |].
  apply Forall_cons in Hiv as [(? & ? & ?) Hiv]. cbn [DataSender.insert_all].
  rstep (offsets_insert false set (istart iv) (iend iv)); [done.. |]. intros [res set1] ([m ->] & Hs1 & Hx1). cbn [VarInt.ok unwrap obind].
  eapply returns_mono; [by apply IH |]. intros set' [Hs' Hx']. split; [done |]. intros x. rewrite Hx', Hx1. split.
  - intros [[Hx | Hi] | (iv' & Hi & Hx)]; [by left | right; exists iv; set_solver | right; exists iv'; set_solver].
  - intros [Hx | (iv' & [-> | Hi]%elem_of_cons & Hx)]; [by left; left | by left; right | right; by exists iv'].
Qed.

(** A set of packet numbers that is the range from [a] to [b]. *)
Record ack_set_ok (s : AckSet) (a b : Z) : Prop := {
  ack_a : varint_ok a;
  ack_b : varint_ok b;
  ack_le : a <= b;
  as_range_ok : as_range s = Ret (range sp a b);
  ack_contains m : varint_ok m -> contains s (pn m) = Ret ((a <=? m) && (m <=? b))
}.

Lemma packet_number_set_ok a : varint_ok a -> ack_set_ok (packet_number_set (pn a)) a a.
Proof.
  intros Ha. split; try done; [by apply range_new |]. intros m Hm. cbn [packet_number_set contains]. unfold pn_eq.
  rewrite pn_cmp_from_varint by done. cbn [obind]. f_equal. destruct (Z.compare_spec a m), (Z.leb_spec a m), (Z.leb_spec m a); done || lia.
Qed.
Lemma range_set_ok a b : varint_ok a -> varint_ok b -> a <= b -> ack_set_ok (range_set (range sp a b)) a b.
Proof.
  intros Ha Hb Hab. split; try done. intros m Hm. cbn [range_set contains]. unfold PacketNumberRange.contains, range.
  cbn [PacketNumberRange.start PacketNumberRange.end_]. rewrite !pn_le_from_varint by done. cbn [obind]. by destruct (a <=? m).
Qed.

(** The offset went out in a packet from [a] to [b]. *)
Definition hit (A : gset (Z * (Z * Z))) (a b x : Z) : Prop := exists m r, (m, r) ∈ A /\ a <= m <= b /\ r.1 <= x < r.1 + r.2.

Lemma hit_dec A a b x : {hit A a b x} + {~ hit A a b x}.
Proof.
  destruct (decide (set_Exists (fun y => a <= y.1 <= b /\ y.2.1 <= x < y.2.1 + y.2.2) A)) as [H | H]; [left | right].
  - destruct H as ([m r] & Hm & Hab & Hx). by exists m, r.
  - intros (m & r & Hm & Hab & Hx). apply H. by exists (m, r).
Qed.

Lemma remove_packets_ok self D A n s a b :
  sender_ok self D A n -> ack_set_ok s a b ->
  returns (Set_.remove_range (DataSender.transmissions self) (range sp a b)) (fun '(ivs, set') =>
    flight_ok sp set' (filter (fun x => ~ (a <= x.1 <= b)) A)
    /\ Forall (fun iv => 0 <= istart iv /\ istart iv <= iend iv /\ iend iv <= VarInt.MAX) ivs
    /\ (forall x, hit A a b x <-> exists iv, iv ∈ ivs /\ istart iv <= x <= iend iv)
    /\ (ivs = [] -> filter (fun x => ~ (a <= x.1 <= b)) A = A)).
Proof.
  intros H [Ha Hb Hab _ _].
  eapply returns_mono; [apply (flight_remove capacity sp capacity_ok _ A a b); [apply H | done..] |].
  intros [ivs set'] [Hset Hiv]. split; [done |]. split; [| split].
  - apply Forall_forall. intros iv (m & r & Hm & Hr & ->)%Hiv. destruct (flight_ranges sp _ _ _ _ (so_flight _ _ _ _ H) Hr) as (_ & ? & ? & ?).
    cbn. lia.
  - intros x. split.
    + intros (m & r & Hr & Hm & Hx). exists (iv_of r). split; [apply Hiv; by exists m, r |]. cbn. lia.
    + intros (iv & (m & r & Hm & Hr & ->)%Hiv & Hx). exists m, r. cbn in Hx. split_and!; try done; lia.
  - intros ->. apply leibniz_equiv. intros [m r]. rewrite elem_of_filter. split; [by intros [_ ?] |]. intros Hr. split; [| done].
    intros Hm. assert (iv_of r ∈ []) as Hin by (apply Hiv; by exists m, r). set_solver.
Qed.

(** The fin bit when its packet is among those from [a] to [b]. *)
Definition fin_after (st : SenderState.t E) (a b : Z) (to : FinState.t) : SenderState.t E :=
  match st with
  | SenderState.Finishing (FinState.InFlight p) =>
      if WRITES_FIN && ((a <=? PacketNumber.as_varint p) && (PacketNumber.as_varint p <=? b)) then SenderState.Finishing to else st
  | _ => st
  end.
Definition fin_packet_ok (st : SenderState.t E) : Prop :=
  forall p, st = SenderState.Finishing (FinState.InFlight p) -> exists m, varint_ok m /\ p = pn m.

Lemma fin_state_dec (st : SenderState.t E) : {st = SenderState.Finishing FinState.Acknowledged} + {st <> SenderState.Finishing FinState.Acknowledged}.
Proof. destruct st as [| [| p | |] | |]; (by left) || by right. Qed.

Lemma fin_ack s a b st :
  ack_set_ok s a b -> fin_packet_ok st ->
  (if WRITES_FIN then
     match st with
     | SenderState.Sending => Ret SenderState.Sending
     | SenderState.Finishing fin => let! fin := FinState.on_packet_ack fin (contains s) in Ret (SenderState.Finishing fin)
     | SenderState.Finished => Ret SenderState.Finished
     | SenderState.Cancelled e => Ret (SenderState.Cancelled e)
     end
   else Ret st) = Ret (fin_after st a b FinState.Acknowledged).
Proof.
  intros Hs Hp. unfold fin_after. destruct WRITES_FIN, st as [| [| p | |] | |]; try done. cbn [FinState.on_packet_ack andb].
  destruct (Hp p eq_refl) as (m & Hm & ->). rewrite (ack_contains _ _ _ Hs) by done. cbn [obind]. rewrite pn_as_varint_from_varint by done.
  by destruct ((a <=? m) && (m <=? b)).
Qed.
Lemma fin_loss s a b st any :
  ack_set_ok s a b -> fin_packet_ok st -> exists flag,
  (if WRITES_FIN then
     match st with
     | SenderState.Sending => Ret (SenderState.Sending, any)
     | SenderState.Finishing fin =>
         let! '(fin, fin_lost) := FinState.on_packet_loss fin (contains s) in Ret (SenderState.Finishing fin, any || fin_lost)
     | SenderState.Finished => Ret (SenderState.Finished, any)
     | SenderState.Cancelled e => Ret (SenderState.Cancelled e, any)
     end
   else Ret (st, any)) = Ret (fin_after st a b FinState.Lost, any || flag).
Proof.
  intros Hs Hp. unfold fin_after.
  destruct WRITES_FIN, st as [| [| p | |] | |]; try (exists false; cbn [FinState.on_packet_loss obind]; by rewrite ?orb_false_r).
  cbn [FinState.on_packet_loss andb]. destruct (Hp p eq_refl) as (m & Hm & ->). rewrite (ack_contains _ _ _ Hs) by done. cbn [obind].
  rewrite pn_as_varint_from_varint by done. destruct ((a <=? m) && (m <=? b)); [by exists true | exists false].
  cbn [obind]. done.
Qed.

(** Packets from [a] to [b] are acknowledged: their data is not pending. *)
Lemma sender_acked self D A n a b buf' set' pending' lost' st A' :
  sender_ok self D A n -> offsets_ok pending' -> offsets_ok lost' -> buffer_ok buf' D -> flight_ok sp set' A' ->
  (forall x, offsets pending' x <-> offsets (DataSender.pending self) x /\ ~ hit A a b x) ->
  (forall x, offsets lost' x <-> offsets (DataSender.lost self) x /\ offsets pending' x) ->
  (forall x, offsets pending' x -> Buffer.head buf' <= x) ->
  (Buffer.head buf' < blen D -> offsets pending' (Buffer.head buf')) ->
  A' ⊆ filter (fun x => ~ (a <= x.1 <= b)) A ->
  ((exists x, offsets pending' x) /\ A' = filter (fun x => ~ (a <= x.1 <= b)) A \/ (forall x, ~ offsets pending' x) /\ A' = ∅) ->
  sender_ok (DataSender.mk buf' set' (DataSender.flow_controller self) (offset self) pending' lost'
               (DataSender.max_buffer_capacity self) st) D A' n.
Proof.
  intros H Hp Hl Hb Hf Hpx Hlx Hhead Hmin Hsub HA.
  assert (HA' : forall m r, (m, r) ∈ A' -> (m, r) ∈ A) by (intros m r Hm; apply Hsub in Hm; by apply elem_of_filter in Hm as [_ ?]).
  destruct H. split; cbn [DataSender.buffer DataSender.transmissions DataSender.flow_controller DataSender.transmission_offset DataSender.pending DataSender.lost];
    try done.
  - intros m r Hm. by apply (so_order0 m r), HA'.
  - intros x Hx. split; [by apply Hhead |]. apply Hpx in Hx as [Hx%so_pending0 _]. lia.
  - intros x [Hx Hpd]%Hlx. split; [done |]. by apply so_lost0.
  - intros x Hx Hlt. destruct HA as [[_ ->] | [Hno _]]; [| by destruct (Hno x)]. pose proof Hx as [Hx0 Hnh]%Hpx.
    destruct (so_sent0 x Hx0 Hlt) as [? | (m & r & Hm & Hr)]; [left; by apply Hlx |]. right. exists m, r. split; [| done].
    apply elem_of_filter. split; [| done]. intros Hab. apply Hnh. by exists m, r.
  - intros x Hx. apply Hpx. split; [by apply so_unsent0 |]. intros (m & r & Hm & _ & Hr). specialize (so_ranges0 m r Hm). lia.
  - intros m r Hm. by apply (so_ranges0 m r), HA'.
  - intros Hno. destruct HA as [[[x Hx] _] | [_ ?]]; [by destruct (Hno x) | done].
Qed.

Lemma offsets_dec set : offsets_ok set -> (exists x, offsets set x) \/ (forall x, ~ offsets set x).
Proof.
  intros Hs. pose proof (offsets_min set Hs) as H. destruct (IntervalSetOps.min_value set) as [a |]; [left; exists a; apply H | right; apply H].
Qed.

(** The part of [on_packet_ack] that releases data. *)
Lemma ack_release_ok self D A n a b (ivs : list (Interval Z)) set' pending' st :
  sender_ok self D A n -> flight_ok sp set' (filter (fun x => ~ (a <= x.1 <= b)) A) -> offsets_ok pending' ->
  (forall x, offsets pending' x <-> offsets (DataSender.pending self) x /\ ~ hit A a b x) ->
  (ivs = [] -> (forall x, ~ hit A a b x) /\ filter (fun x => ~ (a <= x.1 <= b)) A = A) ->
  returns (if negb (match ivs with [] => true | _ => false end) then
      let! '(res, lost) := IntervalSetOps.intersection (DataSender.lost self) pending' in
      let! _ := unwrap (VarInt.ok res) in
      match IntervalSetOps.min_value pending' with
      | Some first =>
          let! buffer := Buffer.release (DataSender.buffer self) first in
          Ret (lost, buffer, set')
      | None =>
          let! buffer := Buffer.release_all (DataSender.buffer self) in
          let! transmissions := Set_.clear set' in
          Ret (lost, buffer, transmissions)
      end
    else Ret (DataSender.lost self, DataSender.buffer self, set')) (fun '(lost', buf', set'') => exists A',
    sender_ok (DataSender.mk buf' set'' (DataSender.flow_controller self) (offset self) pending' lost'
                 (DataSender.max_buffer_capacity self) st) D A' n
    /\ A' ⊆ filter (fun x => ~ (a <= x.1 <= b)) A).
Proof.
  intros H Hset Hp Hpx Hnil. destruct ivs as [| iv ivs]; cbn [negb].
  - destruct (Hnil eq_refl) as [Hno Hfl]. apply returns_ret. exists (filter (fun x => ~ (a <= x.1 <= b)) A). split; [| done].
    assert (Hpx' : forall x, offsets pending' x <-> offsets (DataSender.pending self) x) by (intros x; rewrite Hpx; split; [tauto | by intros ?]).
    apply (sender_acked self D A n a b); try done; try apply H.
    + intros x. rewrite Hpx'. split; [intros Hl; split; [done |]; by apply (so_lost _ _ _ _ H) | tauto].
    + intros x Hx%Hpx'. by apply (so_pending _ _ _ _ H).
    + intros Hlt. by apply Hpx', (so_head _ _ _ _ H).
    + destruct (offsets_dec pending' Hp) as [? | Hn]; [by left | right]. split; [done |]. rewrite Hfl. apply (so_idle _ _ _ _ H).
      intros x Hx. apply (Hn x). by apply Hpx'.
  - rstep (offsets_intersection (DataSender.lost self) pending'); [apply H | done |]. intros [res lost'] (-> & Hl & Hlx). cbn [VarInt.ok unwrap obind].
    pose proof (offsets_min pending' Hp) as Hmin. destruct (IntervalSetOps.min_value pending') as [first |].
    + destruct Hmin as (_ & Hf & _ & Hle). pose proof (proj1 (Hpx first) Hf) as [Hf0 _]. apply (so_pending _ _ _ _ H) in Hf0.
      rstep (release_ok _ D first (so_buffer _ _ _ _ H)); [lia |]. intros buf' [Hb Hh]. apply returns_ret.
      exists (filter (fun x => ~ (a <= x.1 <= b)) A). split; [| done]. rewrite Z.max_l in Hh by lia.
      apply (sender_acked self D A n a b); try done; try apply H; rewrite ?Hh; try done. left. split; [by exists first | done].
    + destruct Hmin as [_ Hno]. rstep (release_all_ok _ D (so_buffer _ _ _ _ H)). intros buf' [Hb Hh].
      rstep (flight_clear capacity sp capacity_ok); [done |]. intros set'' Hs''. apply returns_ret. exists ∅. split; [| set_solver].
      apply (sender_acked self D A n a b); try done; try apply H; [intros x Hx; by destruct (Hno x) | lia | by right].
Qed.

(** The sender after packets from [a] to [b] are acknowledged; it is finished when
    all is acknowledged. *)
Definition acked (self : sender) (D : list Z) (A : gset (Z * (Z * Z))) (n a b : Z) (self' : sender) : Prop :=
  exists A', sender_ok self' D A' n /\ A' ⊆ filter (fun x => ~ (a <= x.1 <= b)) A
    /\ (forall x, offsets (DataSender.pending self') x <-> offsets (DataSender.pending self) x /\ ~ hit A a b x)
    /\ let st := fin_after (DataSender.state self) a b FinState.Acknowledged in
       (DataSender.state self' = st /\ DataSender.flow_controller self' = DataSender.flow_controller self
        \/ st = SenderState.Finishing FinState.Acknowledged /\ DataSender.state self' = SenderState.Finished
           /\ DataSender.flow_controller self' = finish_flow (DataSender.flow_controller self)
           /\ forall x, ~ offsets (DataSender.pending self') x).

(** The end of [on_packet_ack]. *)
Lemma ack_finish_ok self1 D A n :
  sender_ok self1 D A n -> DataSender.state self1 = SenderState.Finishing FinState.Acknowledged -> DataSender.is_idle self1 = true ->
  returns (Buffer.release_all (DataSender.buffer self1)) (fun buf' =>
    (forall x, ~ offsets (DataSender.pending self1) x)
    /\ sender_ok (DataSender.mk buf' (DataSender.transmissions self1) (finish_flow (DataSender.flow_controller self1)) (offset self1)
         (DataSender.pending self1) (DataSender.lost self1) (DataSender.max_buffer_capacity self1) SenderState.Finished) D A n).
Proof.
  intros H Hst Hidle. unfold DataSender.is_idle in Hidle. apply andb_true_iff in Hidle as [[_ Hp]%andb_true_iff _].
  pose proof (proj1 (offsets_empty _ (so_pending_ok _ _ _ _ H)) Hp) as Hno.
  eapply returns_mono; [apply (release_all_ok _ D (so_buffer _ _ _ _ H)) |]. intros buf' [Hb Hh]. split; [done |].
  destruct (finish_spec _ (so_flow _ _ _ _ H)) as (Hf1 & Hf2 & _). destruct H. split; cbn [DataSender.buffer DataSender.transmissions
    DataSender.flow_controller DataSender.transmission_offset DataSender.pending DataSender.lost]; try done.
  - intros x Hx. by destruct (Hno x).
  - rewrite Hh. lia.
  - by rewrite Hf2.
Qed.

Lemma sender_ack_ok self D A n s a b :
  sender_ok self D A n -> ack_set_ok s a b -> fin_packet_ok (DataSender.state self) ->
  returns (DataSender.on_packet_ack self s) (acked self D A n a b).
Proof.
  intros H Hs Hfin. unfold DataSender.on_packet_ack. rewrite (as_range_ok _ _ _ Hs). cbn [obind].
  rstep (remove_packets_ok self D A n s a b H Hs). intros [ivs set'] (Hset & Hiv & Hhit & Hnil).
  rstep (remove_all_ok ivs (DataSender.pending self)); [apply H | done |]. intros pending' [Hp Hpx].
  rewrite (fin_ack s a b _ Hs Hfin). cbn [obind]. set (st := fin_after _ _ _ _).
  assert (Hpx' : forall x, offsets pending' x <-> offsets (DataSender.pending self) x /\ ~ hit A a b x).
  { intros x. rewrite Hpx, Hhit. split; intros [Hx Hn]; (split; [done |]); [intros (iv & Hi & Hxi); by apply (Hn iv) | intros iv Hi Hxi; apply Hn; by exists iv]. }
  rstep (ack_release_ok self D A n a b ivs set' pending' st H Hset Hp Hpx').
  { intros ->. split; [intros x (iv & Hi & _)%Hhit; set_solver | by apply Hnil]. }
  intros [[lost' buf'] set''] (A' & H' & Hsub). set (self1 := DataSender.mk _ _ _ _ _ _ _ _) in *.
  assert (Hkeep : returns (let! self := Ret self1 in let! _ := DataSender.check_integrity self in Ret self) (acked self D A n a b)).
  { cbn [obind]. rewrite (check_sender _ _ _ _ H'). apply returns_ret. exists A'. split; [done |]. split; [done |]. split; [done |]. by left. }
  destruct (fin_state_dec st) as [Est | Est].
  - rewrite Est. destruct (DataSender.is_idle self1) eqn:Hidle; [| exact Hkeep]. cbn [DataSender.flow_controller self1].
    destruct (ack_finish_ok self1 D A' n H' Est Hidle) as (buf2 & E2 & Hno & H2). cbn [DataSender.buffer self1] in E2. rewrite E2. cbn [obind].
    cbn [DataSender.flow_controller DataSender.transmissions DataSender.transmission_offset DataSender.pending DataSender.lost DataSender.max_buffer_capacity self1] in H2 |- *.
    rewrite (check_sender _ _ _ _ H2). apply returns_ret. exists A'. split; [done |]. split; [done |]. split; [done |]. by right.
  - destruct st as [| [| p | |] | |]; try exact Hkeep. done.
Qed.

(** Packets from [a] to [b] are lost: what is pending of them is lost. *)
Lemma sender_lost self D A n a b set' lost' fc' st :
  sender_ok self D A n -> offsets_ok lost' -> flight_ok sp set' (filter (fun x => ~ (a <= x.1 <= b)) A) ->
  (forall x, offsets lost' x <-> (offsets (DataSender.lost self) x \/ hit A a b x) /\ offsets (DataSender.pending self) x) ->
  flow_ok fc' -> flow_limit fc' = flow_limit (DataSender.flow_controller self) ->
  sender_ok (DataSender.mk (DataSender.buffer self) set' fc' (offset self) (DataSender.pending self) lost'
               (DataSender.max_buffer_capacity self) st) D (filter (fun x => ~ (a <= x.1 <= b)) A) n.
Proof.
  intros H Hl Hf Hlx Hfc Hlim.
  destruct H. split; cbn [DataSender.buffer DataSender.transmissions DataSender.flow_controller DataSender.transmission_offset DataSender.pending DataSender.lost];
    try done.
  - intros m r [_ Hm]%elem_of_filter. by apply (so_order0 m r).
  - intros x [[Hx | (m & r & Hm & _ & Hr)] Hp]%Hlx; (split; [done |]); [by apply so_lost0 |]. specialize (so_ranges0 m r Hm). lia.
  - intros x Hp Hlt. destruct (so_sent0 x Hp Hlt) as [? | (m & r & Hm & Hr)]; [left; apply Hlx; tauto |].
    destruct (decide (a <= m <= b)); [left; apply Hlx; split; [right; by exists m, r | done] |].
    right. exists m, r. rewrite elem_of_filter. done.
  - intros m r [_ Hm]%elem_of_filter. by apply (so_ranges0 m r).
  - intros Hno. rewrite so_idle0 by done. set_solver.
  - by rewrite Hlim.
Qed.

Definition lossy (self : sender) (D : list Z) (A : gset (Z * (Z * Z))) (n a b : Z) (self' : sender) : Prop :=
  sender_ok self' D (filter (fun x => ~ (a <= x.1 <= b)) A) n /\ DataSender.pending self' = DataSender.pending self
  /\ DataSender.state self' = fin_after (DataSender.state self) a b FinState.Lost
  /\ flow_limit (DataSender.flow_controller self') = flow_limit (DataSender.flow_controller self)
  /\ (flow_open (DataSender.flow_controller self) -> flow_open (DataSender.flow_controller self'))
  /\ flow_le (DataSender.flow_controller self) (DataSender.flow_controller self').

Lemma sender_loss_ok self D A n s a b :
  sender_ok self D A n -> ack_set_ok s a b -> fin_packet_ok (DataSender.state self) ->
  returns (DataSender.on_packet_loss self s) (lossy self D A n a b).
Proof.
  intros H Hs Hfin. unfold DataSender.on_packet_loss. rewrite (as_range_ok _ _ _ Hs). cbn [obind].
  rstep (remove_packets_ok self D A n s a b H Hs). intros [ivs set'] (Hset & Hiv & Hhit & Hnil).
  rstep (insert_all_ok ivs (DataSender.lost self)); [apply H | done |]. intros lost1 [Hl1 Hlx1].
  destruct (fin_loss s a b (DataSender.state self) (negb (match ivs with [] => true | _ => false end)) Hs Hfin) as [flag ->]. cbn [obind].
  destruct (clear_spec _ (so_flow _ _ _ _ H)) as (Hf1 & Hf2 & Hf3 & Hf4).
  assert (Hlx : forall x, offsets lost1 x <-> offsets (DataSender.lost self) x \/ hit A a b x) by (intros x; by rewrite Hlx1, Hhit).
  destruct (negb _ || flag) eqn:Eany.
  - destruct (offsets_intersection lost1 (DataSender.pending self) Hl1 (so_pending_ok _ _ _ _ H)) as ([res lost'] & -> & -> & Hl & Hlx'). cbn [VarInt.ok unwrap obind].
    set (self' := DataSender.mk _ _ _ _ _ _ _ _). assert (H' : sender_ok self' D (filter (fun x => ~ (a <= x.1 <= b)) A) n).
    { apply sender_lost; try done. intros x. by rewrite Hlx', Hlx. }
    rewrite (check_sender _ _ _ _ H'). by apply returns_ret.
  - apply orb_false_iff in Eany as [Enil _]. destruct ivs; [| done]. cbn [obind].
    set (self' := DataSender.mk _ _ _ _ _ _ _ _). assert (H' : sender_ok self' D (filter (fun x => ~ (a <= x.1 <= b)) A) n).
    { apply sender_lost; try done; [| apply H]. intros x. rewrite Hlx. split; [| tauto]. intros Hx. split; [done |].
      destruct Hx as [Hx | (iv & Hi & _)%Hhit]; [by apply (so_lost _ _ _ _ H) | set_solver]. }
    rewrite (check_sender _ _ _ _ H'). apply returns_ret. split_and!; try done. apply flow_le_refl.
Qed.

(** Only used for CRYPTO data, when something is in flight. *)
Lemma sender_all_lost_ok self D A n :
  sender_ok self D A n -> A <> ∅ -> fin_packet_ok (DataSender.state self) ->
  returns (DataSender.on_all_lost self) (fun self' => exists a b, lossy self D A n a b self' /\ forall m r, (m, r) ∈ A -> a <= m <= b).
Proof.
  intros H HA Hfin. unfold DataSender.on_all_lost.
  destruct (flight_get_range sp _ _ (so_flight _ _ _ _ H) HA) as (a & b & -> & Ha & Hb & Hab & Hall). cbn [obind].
  eapply returns_mono; [apply (sender_loss_ok self D A n (range_set (range sp a b)) a b); [done | by apply range_set_ok | done] |].
  intros self' H'. by exists a, b.
Qed.
End Sender.
