(* ===== verification/DataSenderTransmit.v ===== *)
(** * The data sender transmits

    [DataSender::on_transmit] keeps the invariant, and writes frames that the
    data in flight accounts for. *)
From stdpp Require Import gmap sets list.
From S2P Require Import Prelude Codec VarInt PacketNumber MapInterface PacketMap PacketMapThm Interval IntervalInsert IntervalSet VarIntSet Frames FrameCodec Transmission TransmissionContext Recovery Sync SendBuffer SendBufferThm Transmissions TransmissionsThm DataSender DataWriter TransmitThm DataSenderThm.

#[local] Existing Instance varint_bound.

Section Transmit.
Context {E F C B : Type}.
Context `{HF : DataFlowController F, !FlowControllerSpec F} `{HB : Bytes B, !BytesSpec B}.
Context `{HC : ChunkWriter C B, !ChunkWriterSpec C B}.
Context (capacity : Z -> Z) (sp : PacketNumberSpace).
Hypothesis capacity_ok : forall n, 0 < n < 2 ^ 63 -> n <= capacity n < 2 ^ 63.
Context (self : DataSender.t (E := E) (F := F) (B := B)) (D : list Z) (A : gset (Z * (Z * Z))) (last : Z).
Hypothesis self_ok : sender_ok sp self D A last.
Context (c : C) (w : Writer) (n : Z).
Hypothesis c_ok : context_ok c.
Hypothesis w_ok : writer_ok w.
Hypothesis n_ok : varint_ok n.
Hypothesis last_n : last <= n.
Hypothesis w_number : packet_number w = PacketNumber.from_varint n sp.

Local Abbreviation offset := (DataSender.transmission_offset self).
Local Abbreviation s0 :=
  (mk_tx (DataSender.transmissions self) (DataSender.flow_controller self) (DataSender.state self) []).

(** Where a transmission has come to: the offset up to which data was sent, the
    lost data that is left, and what was written. *)
Record stage (T : Z) (lost : IntervalSet Z) (s : Tx (E := E) (F := F)) (A' : gset (Z * (Z * Z))) (fs : list frame) : Prop := {
  stage_tx : tx_ok sp w n s A';
  stage_progress : progress sp (DataSender.buffer self) D c n T s0 A s A' fs;
  stage_lost : taken n (DataSender.lost self) lost A';
  stage_offset : offset <= T <= blen D;
  stage_new x : offset <= x < T -> flying A' x;
  stage_limit : T <= flow_limit (flow_controller s)
}.

Lemma in_packet_flying A' x : in_packet n A' x -> flying A' x.
Proof. intros (r & Hr & Hx). by exists n, r. Qed.

Lemma stage_sender T lost s A' fs : stage T lost s A' fs -> sender_ok sp (DataSender.with_tx self T lost s) D A' n.
Proof.
  intros [Hs Hp (Hlok & Hlsub & Hlrest) HT Hnew Hlim]. pose proof self_ok as H. pose proof (progress_sub _ _ _ _ _ _ _ _ _ _ _ Hp) as Hsub.
  assert (Hnew' : forall m r, (m, r) ∈ A' -> (m, r) ∈ A \/ m = n /\ Buffer.head (DataSender.buffer self) <= r.1 /\ r.1 + r.2 <= T).
  { intros m r Hm. destruct (progress_new _ _ _ _ _ _ _ _ _ _ _ Hp m r Hm) as [? | (? & ? & ? & _)]; [by left | by right]. }
  destruct H. split; cbn [DataSender.with_tx DataSender.buffer DataSender.transmissions DataSender.flow_controller
    DataSender.transmission_offset DataSender.pending DataSender.lost]; try done; try apply Hs; try lia.
  - intros x Hx%Hlsub. destruct (so_lost x Hx). split; [done | lia].
  - intros x Hx Hlt. destruct (Z.lt_ge_cases x offset); [| right; apply Hnew; lia].
    destruct (so_sent x Hx) as [[? | ?]%Hlrest | (m & r & Hm & Hr)]; [done | by left | right; by apply in_packet_flying |].
    right. exists m, r. split; [by apply Hsub | done].
  - intros x Hx. apply so_unsent. lia.
  - intros m r [Hm | (-> & _ & ?)]%Hnew'; [specialize (so_ranges m r Hm); lia | lia].
  - intros Hno. apply leibniz_equiv. intros [m r]. split; [| set_solver]. intros Hm. exfalso.
    destruct (sender_idle sp self D A last) as [Eh _]; [by split | done |]. destruct (Hnew' m r Hm) as [Hold | (-> & Hr & Hrt)].
    + rewrite so_idle in Hold by done. set_solver.
    + destruct (flight_ranges sp _ _ _ _ (tx_flight _ _ _ _ _ Hs) Hm) as (_ & _ & ? & _). lia.
Qed.

Lemma stage_step T lost s A1 fs T' s' A2 gs :
  stage T lost s A1 fs -> tx_ok sp w n s' A2 -> progress sp (DataSender.buffer self) D c n T' s A1 s' A2 gs ->
  T <= T' <= blen D -> (forall x, T <= x < T' -> flying A2 x) -> T' <= flow_limit (flow_controller s') ->
  stage T' lost s' A2 (fs ++ gs).
Proof.
  intros [Hs Hp (Hlok & Hlsub & Hlrest) HT Hnew Hlim] Hs' Hp' HT' Hnew' Hlim'.
  pose proof (progress_sub _ _ _ _ _ _ _ _ _ _ _ Hp') as Hsub. split; try done; try lia.
  - eapply progress_trans; [eapply progress_mono; [| exact Hp]; lia | done].
  - split; [done |]. split; [done |]. intros x Hx. destruct (Hlrest x Hx); [by left | right; by eapply in_packet_mono].
  - intros x Hx. destruct (Z.lt_ge_cases x T); [| apply Hnew'; lia]. destruct (Hnew x) as (m & r & Hm & Hr); [lia |].
    exists m, r. split; [by apply Hsub | done].
Qed.

Definition transmitted_ok (r : result unit OnTransmitError * DataSender.t (E := E) (F := F) (B := B) * list frame) : Prop :=
  let '(_, self', fs) := r in exists T lost s A', stage T lost s A' fs /\ self' = DataSender.with_tx self T lost s.

Lemma stage_done T lost s A' fs (res : result unit OnTransmitError) :
  stage T lost s A' fs -> transmitted_ok (res, DataSender.with_tx self T lost s, written s).
Proof.
  intros H. exists T, lost, s, A'. split; [| done]. pose proof (progress_written _ _ _ _ _ _ _ _ _ _ _ (stage_progress _ _ _ _ _ H)) as Ew.
  cbn in Ew. by rewrite Ew.
Qed.

Lemma offsets_sorted_from set lb :
  offsets_ok set -> (forall x, offsets set x -> lb <= x) -> sorted_from varint_ok id lb (intervals set).
Proof.
  intros [[[lb0 Hl]%sorted_sorted_from _] _] Hx. destruct (intervals set) as [| i l] eqn:Ei; [done |].
  destruct Hl as (Hi & _ & Hl). split; [done |]. split; [| done]. apply Hx. unfold offsets, members. rewrite Ei, mem_cons. left.
  destruct Hi as (_ & _ & ?). unfold in_iv, id in *. lia.
Qed.

Section Open.
Hypothesis self_open : flow_open (DataSender.flow_controller self).
(** The fin bit is only lost after it was sent. *)
Hypothesis fin_lost :
  DataSender.state self = SenderState.Finishing FinState.Lost -> blen D <= flow_limit (DataSender.flow_controller self).

Lemma stage_start : stage offset (DataSender.lost self) s0 A [].
Proof.
  pose proof self_ok as H. split; try apply H; try (by apply progress_refl).
  - split; cbn; try apply H; try done; [| by apply packet_ok_nil]. intros m r Hm. pose proof (so_order _ _ _ _ _ H m r Hm). lia.
  - split; [apply H |]. split; [done |]. intros x Hx. by left.
  - pose proof (so_offset _ _ _ _ _ H). lia.
  - intros x Hx. lia.
Qed.

Section Allowed.
Hypothesis w_allowed : ConstraintOps.can_retransmit (transmission_constraint w) = true.

Local Abbreviation buf := (DataSender.buffer self).

(** Lost data first. *)
Lemma transmit_lost_ok :
  returns (transmit_set capacity buf (DataSender.lost self) c w s0) (fun '(res, lost, s) => exists A1 fs, stage offset lost s A1 fs).
Proof.
  pose proof self_ok as H. pose proof stage_start as H0. destruct (so_offset _ _ _ _ _ H).
  eapply returns_mono; [apply (transmit_set_ok capacity sp capacity_ok buf D c w n (so_buffer _ _ _ _ _ H) c_ok w_ok n_ok w_number w_allowed offset _ _ A) |].
  - done.
  - apply (stage_tx _ _ _ _ _ H0).
  - apply H.
  - intros x Hx. destruct (so_lost _ _ _ _ _ H x Hx) as [Hp ?]. apply (so_pending _ _ _ _ _ H) in Hp. lia.
  - intros [[res lost] s] (A1 & fs & Hs & Hp & Ht). exists A1, fs. split; try done; try lia.
    pose proof (progress_limit _ _ _ _ _ _ _ _ _ _ _ Hp). pose proof (so_limit _ _ _ _ _ H). cbn in *. lia.
Qed.

(** New data: what is left of it is blocked, or needs another packet. *)
Lemma transmit_new_ok lost s A1 fs :
  stage offset lost s A1 fs -> offset < blen D ->
  returns (transmit_interval capacity buf (viewer buf) (Interval.from_range offset (blen D)) c w s) (fun '(res, s') =>
    match res with
    | Err _ => exists A2 gs, stage offset lost s' A2 gs
    | Ok (iv, _) => exists A2 gs, stage (Interval.end_exclusive iv) lost s' A2 gs
        /\ (blen D <= flow_limit (flow_controller s') \/ is_blocked (flow_controller s') = true
            \/ blen D <> 0 /\ remaining_capacity w (written s') <= 2)
    end).
Proof.
  intros Hst Hlt. pose proof self_ok as H. destruct (so_offset _ _ _ _ _ H). pose proof (buffer_total _ _ (so_buffer _ _ _ _ _ H)) as Htot.
  assert (Hhead : Buffer.head buf <= offset).
  { pose proof (so_unsent _ _ _ _ _ H offset ltac:(lia)) as Hp. apply (so_pending _ _ _ _ _ H) in Hp. lia. }
  rewrite from_range_ok by lia.
  eapply returns_mono; [apply (transmit_interval_ok capacity sp capacity_ok buf D c w n (so_buffer _ _ _ _ _ H) c_ok w_ok n_ok w_number w_allowed s A1) |].
  - apply (stage_tx _ _ _ _ _ Hst).
  - apply viewer_cursor.
  - done.
  - done.
  - lia.
  - lia.
  - intros [[[iv cur] | e] s'].
    + intros (len & f & Hl & -> & _ & _ & Hs' & Hp & Hleft). rewrite end_exclusive_ok by lia.
      assert (Hlim : offset + len <= flow_limit (flow_controller s')).
      { destruct (progress_new _ _ _ _ _ _ _ _ _ _ _ Hp n (offset, len)) as [Hold | (_ & _ & _ & ? & _)]; [set_solver | | done].
        apply (progress_new _ _ _ _ _ _ _ _ _ _ _ (stage_progress _ _ _ _ _ Hst)) in Hold as [Hold | (_ & _ & ? & _)]; [| cbn in *; lia].
        pose proof (so_ranges _ _ _ _ _ H _ _ Hold). cbn in *. lia. }
      exists ({[(n, (offset, len))]} ∪ A1), (fs ++ [f]). replace (offset + len - 1 + 1) with (offset + len) by lia. split.
      * apply (stage_step offset lost s A1 fs); try done; [lia |].
        intros x Hx. exists n, (offset, len). split; [set_solver | done].
      * destruct (Z.lt_ge_cases len (blen D - 1 - offset + 1)) as [Hlen | Hlen]; [right | left; lia].
        destruct (Hleft Hlen); [by left | right; split; [lia | done]].
    + intros [Hs' Hp]. exists A1, (fs ++ []). apply (stage_step offset lost s A1 fs); try done; try lia; try (intros x ?; lia).
      pose proof (progress_limit _ _ _ _ _ _ _ _ _ _ _ (Hp 0)). pose proof (stage_limit _ _ _ _ _ Hst). lia.
Qed.

Lemma stage_fin_ok T lost s A1 fs :
  stage T lost s A1 fs -> WRITES_FIN = true ->
  (tx_state s = SenderState.Finishing FinState.Pending -> is_blocked (flow_controller s) = false ->
    blen D <= flow_limit (flow_controller s) \/ blen D <> 0 /\ remaining_capacity w (written s) <= 2) ->
  returns (transmit_fin buf c w s) (fun '(res, s') => exists gs, stage T lost s' A1 gs).
Proof.
  intros Hst Hw Hpend. pose proof self_ok as H. pose proof (stage_progress _ _ _ _ _ Hst) as Hp.
  eapply returns_mono; [apply (transmit_fin_ok capacity sp capacity_ok buf D c w n (so_buffer _ _ _ _ _ H) c_ok w_ok n_ok w_number w_allowed T s A1) |].
  - apply (stage_tx _ _ _ _ _ Hst).
  - done.
  - done.
  - intros El. destruct (progress_state _ _ _ _ _ _ _ _ _ _ _ Hp) as [Eq | (_ & _ & Eq & _)]; [| congruence].
    cbn in Eq. pose proof (progress_limit _ _ _ _ _ _ _ _ _ _ _ Hp). cbn in *.
    specialize (fin_lost ltac:(congruence)). lia.
  - intros [res s'] (gs & Hs' & Hp'). exists (fs ++ gs). pose proof (stage_offset _ _ _ _ _ Hst). pose proof (stage_limit _ _ _ _ _ Hst).
    apply (stage_step T lost s A1 fs); try done; try lia; try (intros x ?; lia).
    pose proof (progress_limit _ _ _ _ _ _ _ _ _ _ _ Hp'). lia.
Qed.

Lemma stage_probe_ok T lost s A1 fs :
  stage T lost s A1 fs ->
  returns (DataSender.transmit_pending capacity buf (viewer buf) (intervals (DataSender.pending self)) offset c w s)
    (fun '(res, s') => exists A2 gs, stage T lost s' A2 gs).
Proof.
  intros Hst. pose proof self_ok as H. destruct (so_offset _ _ _ _ _ H). pose proof (stage_offset _ _ _ _ _ Hst).
  eapply returns_mono; [apply (transmit_pending_ok capacity sp capacity_ok buf D c w n (so_buffer _ _ _ _ _ H) c_ok w_ok n_ok w_number w_allowed offset _ ltac:(done) s A1 _ (Buffer.head buf)) |].
  - apply (stage_tx _ _ _ _ _ Hst).
  - apply viewer_cursor.
  - done.
  - done.
  - apply offsets_sorted_from; [apply H |]. intros x Hx. by apply (so_pending _ _ _ _ _ H).
  - intros [res s'] (A2 & gs & Hs' & Hp'). exists A2, (fs ++ gs). apply (stage_step T lost s A1 fs); try done; try (intros x ?; lia).
    + eapply progress_mono; [| exact Hp']. lia.
    + lia.
    + pose proof (progress_limit _ _ _ _ _ _ _ _ _ _ _ Hp'). pose proof (stage_limit _ _ _ _ _ Hst). lia.
Qed.

(** The steps of [on_transmit_impl]. *)
Lemma step_new_ok lost s1 A1 fs1 (blocked : bool) :
  stage offset lost s1 A1 fs1 ->
  returns (if negb blocked && ConstraintOps.can_transmit (transmission_constraint w) && (offset <? blen D)
    then let! '(res, s) := transmit_interval capacity buf (viewer buf) (Interval.from_range offset (blen D)) c w s1 in
         match res with Err e => Ret (Err e, offset, s) | Ok (interval, _) => Ret (Ok tt, Interval.end_exclusive interval, s) end
    else Ret (Ok tt, offset, s1)) (fun '(res, T, s2) => exists A2 fs2, stage T lost s2 A2 fs2
      /\ (res = Ok tt -> blocked = false -> ConstraintOps.can_transmit (transmission_constraint w) = true ->
          blen D <= flow_limit (flow_controller s2) \/ is_blocked (flow_controller s2) = true
          \/ blen D <> 0 /\ remaining_capacity w (written s2) <= 2)).
Proof.
  intros Hst1. destruct (Z.ltb_spec offset (blen D)) as [Hlt | Hge].
  2: { rewrite andb_false_r. apply returns_ret. exists A1, fs1. split; [done |]. intros _ _ _. left. pose proof (stage_limit _ _ _ _ _ Hst1). lia. }
  destruct blocked; [cbn [negb andb]; apply returns_ret; exists A1, fs1; by split |].
  destruct (ConstraintOps.can_transmit (transmission_constraint w)); cbn [negb andb]; [| apply returns_ret; exists A1, fs1; by split].
  rstep (transmit_new_ok lost s1 A1 fs1 Hst1 Hlt). intros [[[iv cur] | e] s2].
  - intros (A2 & fs2 & Hst2 & Hl). apply returns_ret. exists A2, fs2. by split.
  - intros (A2 & fs2 & Hst2). apply returns_ret. exists A2, fs2. by split.
Qed.

Lemma step_fin_ok T lost s2 A2 fs2 (blocked : bool) :
  stage T lost s2 A2 fs2 ->
  (blocked = false -> ConstraintOps.can_transmit (transmission_constraint w) = true ->
    blen D <= flow_limit (flow_controller s2) \/ is_blocked (flow_controller s2) = true
    \/ blen D <> 0 /\ remaining_capacity w (written s2) <= 2) ->
  returns (if WRITES_FIN && SenderState.can_transmit_fin (tx_state s2) (transmission_constraint w) blocked
    then transmit_fin buf c w s2 else Ret (Ok tt, s2)) (fun '(res, s') => exists gs, stage T lost s' A2 gs).
Proof.
  intros Hst Hfin. destruct (WRITES_FIN && _) eqn:Ew; [| apply returns_ret; by exists fs2].
  apply andb_true_iff in Ew as [Ew Ecan]. apply (stage_fin_ok T lost s2 A2 fs2); [done | done |]. intros Est Hnb.
  rewrite Est in Ecan. cbn in Ecan. apply andb_true_iff in Ecan as [Hb%negb_true_iff Hcan].
  destruct (Hfin Hb Hcan) as [? | [? | ?]]; [by left | congruence | by right].
Qed.

Lemma step_probe_ok T lost s3 A3 fs3 (probe : bool) :
  stage T lost s3 A3 fs3 ->
  returns (if probe then DataSender.transmit_pending capacity buf (viewer buf) (intervals (DataSender.pending self)) offset c w s3
    else Ret (Ok tt, s3)) (fun '(res, s') => exists A4 gs, stage T lost s' A4 gs).
Proof. intros Hst. destruct probe; [by apply (stage_probe_ok T lost s3 A3 fs3) | apply returns_ret; by exists A3, fs3]. Qed.

Lemma transmit_allowed_ok : returns (DataSender.on_transmit_impl capacity self c w []) transmitted_ok.
Proof.
  unfold DataSender.on_transmit_impl. rewrite w_allowed. cbv zeta. rstep transmit_lost_ok. intros [[[tl | e] lost] s1] (A1 & fs1 & Hst1);
    [| apply returns_ret; by apply (stage_done _ _ _ A1 fs1)].
  rewrite (total_len_ok _ _ (so_buffer _ _ _ _ _ self_ok)). cbn [obind].
  rstep (step_new_ok lost s1 A1 fs1 (is_blocked (flow_controller s1)) Hst1).
  intros [[[[] | e] T] s2] (A2 & fs2 & Hst2 & Hfin); [| apply returns_ret; by apply (stage_done _ _ _ A2 fs2)].
  rstep (step_fin_ok T lost s2 A2 fs2 (is_blocked (flow_controller s1)) Hst2 (Hfin eq_refl)).
  intros [[[] | e] s3] (fs3 & Hst3); [| apply returns_ret; by apply (stage_done _ _ _ A2 fs3)].
  rstep (step_probe_ok T lost s3 A2 fs3 _ Hst3). intros [[[] | e] s4] (A4 & fs4 & Hst4); [| apply returns_ret; by apply (stage_done _ _ _ A4 fs4)].
  rewrite (check_sender capacity sp capacity_ok _ D A4 n) by (by apply (stage_sender _ _ _ _ fs4)). apply returns_ret. by apply (stage_done _ _ _ A4 fs4).
Qed.
End Allowed.

(** Nothing is sent if the constraint forbids it. *)
Lemma transmit_forbidden_ok :
  ConstraintOps.can_retransmit (transmission_constraint w) = false ->
  returns (DataSender.on_transmit_impl capacity self c w []) transmitted_ok.
Proof.
  intros Hno. assert (Hnt : ConstraintOps.can_transmit (transmission_constraint w) = false).
  { unfold ConstraintOps.can_retransmit in Hno. by apply orb_false_iff in Hno as [? _]. }
  assert (Hprobe : ModeOps.is_loss_recovery_probing (transmission_mode w) = false).
  { destruct (transmission_mode w) eqn:Em; try done. rewrite (writer_probe w w_ok Em) in Hnt. done. }
  unfold DataSender.on_transmit_impl. rewrite Hno, Hnt, Hprobe. cbn [obind].
  rewrite (total_len_ok _ _ (so_buffer _ _ _ _ _ self_ok)), andb_false_r. cbn [obind andb].
  assert (SenderState.can_transmit_fin (DataSender.state self) (transmission_constraint w) (is_blocked (DataSender.flow_controller self)) = false) as Hf.
  { destruct (DataSender.state self) as [| [| | |] | |]; try done. cbn. by rewrite Hnt, andb_false_r. }
  cbn [tx_state flow_controller]. rewrite Hf, !andb_false_r. cbn [obind andb]. pose proof stage_start as H0.
  rewrite (check_sender capacity sp capacity_ok _ D A n) by (by apply (stage_sender _ _ _ _ [])). apply returns_ret. by apply (stage_done _ _ _ A []).
Qed.

(** An error is only returned if nothing was written. *)
Lemma sender_transmit_ok :
  returns (DataSender.on_transmit capacity self c w) (fun '(res, self', fs) =>
    transmitted_ok (res, self', fs) /\ (forall e, res = Err e -> fs = [])).
Proof.
  unfold DataSender.on_transmit.
  assert (H : returns (DataSender.on_transmit_impl capacity self c w []) transmitted_ok).
  { destruct (ConstraintOps.can_retransmit (transmission_constraint w)) eqn:Ec; [by apply transmit_allowed_ok | by apply transmit_forbidden_ok]. }
  rstep H. intros [[res self'] fs] H'. apply returns_ret. split; [exact H' |]. intros e Eres.
  destruct H' as (T & lost & s & A' & Hst & _). pose proof (stage_progress _ _ _ _ _ Hst) as Hp.
  pose proof (progress_written _ _ _ _ _ _ _ _ _ _ _ Hp) as Ew. cbn in Ew.
  pose proof (tx_packet _ _ _ _ _ (stage_tx _ _ _ _ _ Hst)) as Hpk. rewrite Ew in Hpk.
  destruct res as [[] | e']; [done |]. destruct (Z.ltb_spec (remaining_capacity w fs) (remaining_capacity w [])) as [| Hge]; [done |].
  rewrite (writer_room w w_ok fs Hpk) in Hge. destruct fs as [| f fs]; [done | exfalso].
  pose proof (progress_frames _ _ _ _ _ _ _ _ _ _ _ Hp) as Hfr. apply Forall_cons in Hfr as [(a & len & fin & Hc & _) _].
  pose proof (carries_nonempty _ _ _ _ _ Hc). change (payload (f :: fs)) with (frame_wire f ++ payload fs) in Hge. rewrite blen_app in Hge.
  pose proof (blen_nonneg (payload fs)). lia.
Qed.
End Open.

(** A sender with nothing to send writes nothing. *)
Lemma sender_transmit_idle :
  (forall x, ~ offsets (DataSender.pending self) x) -> SenderState.is_finishing (DataSender.state self) = false ->
  DataSender.on_transmit capacity self c w = Ret (Ok tt, self, []).
Proof.
  intros Hno Hst. pose proof self_ok as H. destruct (sender_idle sp self D A last H Hno) as [_ Eo].
  assert (Hlost : IntervalSetOps.is_empty (DataSender.lost self) = true).
  { apply offsets_empty; [apply H |]. intros x Hx. destruct (so_lost _ _ _ _ _ H x Hx). by apply (Hno x). }
  assert (Hpend : intervals (DataSender.pending self) = []).
  { assert (He : IntervalSetOps.is_empty (DataSender.pending self) = true) by (apply offsets_empty; [apply H | done]).
    unfold IntervalSetOps.is_empty in He. by destruct (intervals (DataSender.pending self)). }
  assert (Hself : DataSender.with_tx self offset (DataSender.lost self) s0 = self) by (by destruct self).
  unfold DataSender.on_transmit, DataSender.on_transmit_impl, transmit_set. cbv zeta.
  rewrite Hlost, (total_len_ok _ _ (so_buffer _ _ _ _ _ H)), Hpend. cbn [obind].
  assert (Hlt : (offset <? blen D) = false) by (apply Z.ltb_ge; lia).
  assert (Hf : forall con b, SenderState.can_transmit_fin (DataSender.state self) con b = false).
  { intros con b. by destruct (DataSender.state self) as [| [| | |] | |]. }
  destruct (ConstraintOps.can_retransmit (transmission_constraint w)); cbn [obind tx_state]; rewrite Hlt, !andb_false_r; cbn [obind tx_state]; rewrite Hf, !andb_false_r; cbn [obind DataSender.transmit_pending];
    destruct (RETRANSMIT_IN_PROBE && _ && _); cbn [obind]; rewrite Hself, (check_sender capacity sp capacity_ok _ D A last) by done; done.
Qed.
End Transmit.
