(* ===== verification/DataSenderReliable.v ===== *)
(** * Reliable delivery

    The data sender over its whole life: data is pushed, packets are sent,
    acknowledged and lost, in any order.  Every byte of the stream is pending
    until a packet with it was acknowledged. *)
From stdpp Require Import gmap sets list.
From S2P Require Import Prelude Codec VarInt PacketNumber MapInterface PacketMap PacketMapThm Interval IntervalInsert IntervalSet VarIntSet Frames FrameCodec Transmission TransmissionContext Recovery Sync SendBuffer SendBufferThm Transmissions TransmissionsThm DataSender DataWriter TransmitThm DataSenderThm DataSenderTransmit.

#[local] Existing Instance varint_bound.

Section Reliable.
Context {E F C B : Type}.
Context `{HF : DataFlowController F, !FlowControllerSpec F} `{HB : Bytes B, !BytesSpec B}.
Context `{HC : ChunkWriter C B, !ChunkWriterSpec C B}.
Context (capacity : Z -> Z) (sp : PacketNumberSpace) (c : C).

Local Abbreviation pn := (fun n => PacketNumber.from_varint n sp).

(** ** The events of a sender *)

Inductive event :=
| Push (data : B)
| Finish
| Transmit (context : Writer) (n : Z)
| Ack (ack_set : AckSet) (a b : Z)
| Loss (ack_set : AckSet) (a b : Z)
| AllLost
| StopSending (error : E)
(** The flow controller is updated by the peer. *)
| Flow (flow_controller : F).

(** The sender, the bytes of the stream so far, the frames that were sent, those
    in packets that were acknowledged after they were sent, and the last packet. *)
Record world := mk_world {
  sender : DataSender.t (E := E) (F := F) (B := B);
  stream : list Z;
  sent : list (Z * frame);
  delivered : list (Z * frame);
  last : Z
}.

Definition with_flow (self : DataSender.t (E := E) (F := F) (B := B)) (fc : F) : DataSender.t :=
  DataSender.mk (DataSender.buffer self) (DataSender.transmissions self) fc (DataSender.transmission_offset self)
    (DataSender.pending self) (DataSender.lost self) (DataSender.max_buffer_capacity self) (DataSender.state self).

Definition within (a b : Z) (p : Z * frame) : bool := (a <=? p.1) && (p.1 <=? b).

Definition exec (ev : event) (W : world) : outcome world :=
  let 'mk_world self D sent delivered last := W in
  match ev with
  | Push data => let! self := DataSender.push self data in Ret (mk_world self (D ++ bytes_slice data) sent delivered last)
  | Finish => let! self := DataSender.finish self in Ret (mk_world self D sent delivered last)
  | Transmit context n =>
      let! '(_, self, fs) := DataSender.on_transmit capacity self c context in
      Ret (mk_world self D (sent ++ ((fun f => (n, f)) <$> fs)) delivered n)
  | Ack ack_set a b =>
      let! self := DataSender.on_packet_ack self ack_set in
      Ret (mk_world self D sent (delivered ++ filter (fun p => Is_true (within a b p)) sent) last)
  | Loss ack_set _ _ => let! self := DataSender.on_packet_loss self ack_set in Ret (mk_world self D sent delivered last)
  | AllLost => let! self := DataSender.on_all_lost self in Ret (mk_world self D sent delivered last)
  | StopSending error => let! self := DataSender.stop_sending self error in Ret (mk_world self D sent delivered last)
  | Flow fc => Ret (mk_world (with_flow self fc) D sent delivered last)
  end.
Fixpoint run (evs : list event) (W : world) : outcome world :=
  match evs with [] => Ret W | ev :: evs => let! W := exec ev W in run evs W end.

(** What the caller promises: data is pushed before the stream is finished, up to
    the largest offset; packet numbers do not decrease; flow control limits are
    not lowered. *)
Definition valid (ev : event) (W : world) : Prop :=
  match ev with
  | Push data =>
      SenderState.is_sending (DataSender.state (sender W)) = true /\ chunk_len data <= umax 32
      /\ blen (stream W) + chunk_len data <= VarInt.MAX
  | Transmit context n => writer_ok context /\ varint_ok n /\ packet_number context = pn n /\ last W <= n
  | Ack ack_set a b | Loss ack_set a b => ack_set_ok sp ack_set a b
  | AllLost => WRITES_FIN = false /\ Set_.is_empty (DataSender.transmissions (sender W)) = false
  | Flow fc => flow_ok fc /\ flow_limit (DataSender.flow_controller (sender W)) <= flow_limit fc
      /\ (flow_open (DataSender.flow_controller (sender W)) -> flow_open fc)
  | Finish | StopSending _ => True
  end.
Fixpoint valid_run (evs : list event) (W : world) : Prop :=
  match evs with
  | [] => True
  | ev :: evs => valid ev W /\ forall W', exec ev W = Ret W' -> valid_run evs W'
  end.

Definition start (fc : F) (max_buffer_capacity : Z) : world :=
  mk_world (DataSender.new capacity fc max_buffer_capacity) [] [] [] 0.

(** ** What holds at all times *)

Definition is_cancelled (st : SenderState.t E) : bool := match st with SenderState.Cancelled _ => true | _ => false end.

(** The frame is a part of the stream that flow control lets through; the fin bit
    is at its end, and no data follows. *)
Definition genuine (D : list Z) (limit : Z) (st : SenderState.t E) (f : frame) : Prop :=
  exists a len fin, carries c f a (slice D a len) fin /\ (fin = true \/ 1 <= len) /\ 0 <= a /\ 0 <= len /\ a + len <= blen D
    /\ a + len <= limit /\ (fin = true -> SenderState.is_sending st = false /\ a + len = blen D).

(** A frame of the list has the byte at [x]. *)
Definition covered (D : list Z) (L : list (Z * frame)) (x : Z) : Prop :=
  exists m f a len fin, (m, f) ∈ L /\ carries c f a (slice D a len) fin /\ 0 <= a /\ a <= x < a + len /\ a + len <= blen D.
(** A frame of the list has the fin bit. *)
Definition fin_in (D : list Z) (L : list (Z * frame)) : Prop :=
  exists m f a len, (m, f) ∈ L /\ carries c f a (slice D a len) true /\ 0 <= a /\ 0 <= len /\ a + len = blen D.

Definition fin_ok (D : list Z) (limit : Z) (L Ld : list (Z * frame)) (st : SenderState.t E) : Prop :=
  match st with
  | SenderState.Finishing (FinState.InFlight p) =>
      blen D <= limit /\ exists m f a len, p = pn m /\ varint_ok m /\ (m, f) ∈ L /\ carries c f a (slice D a len) true
        /\ 0 <= a /\ 0 <= len /\ a + len = blen D
  | SenderState.Finishing FinState.Lost => blen D <= limit
  | SenderState.Finishing FinState.Acknowledged => WRITES_FIN = true -> fin_in D Ld
  | SenderState.Finished => WRITES_FIN = true -> fin_in D Ld
  | _ => True
  end.

(** The data a sender still has: none if it was cancelled. *)
Definition live (W : world) : list Z := if is_cancelled (DataSender.state (sender W)) then [] else stream W.

Local Abbreviation limit W := (flow_limit (DataSender.flow_controller (sender W))).

Record world_ok (W : world) (A : gset (Z * (Z * Z))) : Prop := {
  wo_sender : sender_ok sp (sender W) (live W) A (last W);
  wo_stream : blen (stream W) <= VarInt.MAX;
  wo_open : SenderState.is_sending (DataSender.state (sender W)) || SenderState.is_finishing (DataSender.state (sender W)) = true ->
    flow_open (DataSender.flow_controller (sender W));
  wo_sent m f : (m, f) ∈ sent W -> m <= last W /\ genuine (stream W) (limit W) (DataSender.state (sender W)) f;
  wo_delivered p : p ∈ delivered W -> p ∈ sent W;
  wo_flight m r : (m, r) ∈ A -> exists f fin, (m, f) ∈ sent W /\ carries c f r.1 (slice (stream W) r.1 r.2) fin;
  wo_bytes x : is_cancelled (DataSender.state (sender W)) = false -> 0 <= x < blen (stream W) ->
    offsets (DataSender.pending (sender W)) x \/ covered (stream W) (delivered W) x;
  wo_fin : fin_ok (stream W) (limit W) (sent W) (delivered W) (DataSender.state (sender W));
  wo_finished : DataSender.state (sender W) = SenderState.Finished -> forall x, ~ offsets (DataSender.pending (sender W)) x
}.

(** ** Every event keeps it *)

(** The flow controller only changes as its own operations change it. *)
Definition after (W W' : world) : Prop :=
  (exists A', world_ok W' A') /\ flow_le (DataSender.flow_controller (sender W)) (DataSender.flow_controller (sender W')).


Hypothesis capacity_ok : forall n, 0 < n < 2 ^ 63 -> n <= capacity n < 2 ^ 63.
Hypothesis c_ok : context_ok c.

Lemma genuine_mono D lim lim' st st' f :
  lim <= lim' -> (SenderState.is_sending st = false -> SenderState.is_sending st' = false) ->
  genuine D lim st f -> genuine D lim' st' f.
Proof.
  intros Hl Hst (a & len & fin & Hc & Hne & Ha & Hlen & He & Hlim & Hfin). exists a, len, fin. split_and!; try done; [lia |].
  intros Hf. destruct (Hfin Hf). auto.
Qed.
Lemma genuine_app D D' lim st f : SenderState.is_sending st = true -> genuine D lim st f -> genuine (D ++ D') lim st f.
Proof.
  intros Hst (a & len & fin & Hc & Hne & Ha & Hlen & He & Hlim & Hfin). exists a, len, fin. rewrite slice_app, blen_app by done.
  pose proof (blen_nonneg D'). split_and!; try done; [lia |]. intros Hf. destruct (Hfin Hf). congruence.
Qed.
Lemma covered_mono D L L' x : L ⊆ L' -> covered D L x -> covered D L' x.
Proof. intros Hsub (m & f & a & len & fin & Hm & H). exists m, f, a, len, fin. split; [by apply Hsub | done]. Qed.
Lemma covered_app D D' L x : covered D L x -> covered (D ++ D') L x.
Proof.
  intros (m & f & a & len & fin & Hm & Hc & Ha & Hx & He). exists m, f, a, len, fin. rewrite slice_app, blen_app by lia.
  pose proof (blen_nonneg D'). split_and!; try done; lia.
Qed.
Lemma fin_in_mono D L L' : L ⊆ L' -> fin_in D L -> fin_in D L'.
Proof. intros Hsub (m & f & a & len & Hm & H). exists m, f, a, len. split; [by apply Hsub | done]. Qed.
Lemma fin_ok_mono D lim lim' L L' Ld Ld' st : lim <= lim' -> L ⊆ L' -> Ld ⊆ Ld' -> fin_ok D lim L Ld st -> fin_ok D lim' L' Ld' st.
Proof.
  intros Hlim HL HLd. destruct st as [| [| p | |] | |]; cbn; try done.
  - intros (Hl & m & f & a & len & Ep & Hm & Hf & H). split; [lia |]. exists m, f, a, len. split_and!; try apply H; try done. by apply HL.
  - lia.
  - intros H Hw. eapply fin_in_mono; [exact HLd | by apply H].
  - intros H Hw. eapply fin_in_mono; [exact HLd | by apply H].
Qed.
Lemma fin_ok_packet D lim L Ld st : fin_ok D lim L Ld st -> fin_packet_ok sp st.
Proof. intros H p ->. destruct H as (_ & m & f & a & len & -> & Hm & _). by exists m. Qed.

Lemma flight_slice W A m r : world_ok W A -> (m, r) ∈ A -> 0 <= r.1 /\ 1 <= r.2 /\ r.1 + r.2 <= blen (stream W) /\ is_cancelled (DataSender.state (sender W)) = false.
Proof.
  intros H Hm. pose proof (wo_sender _ _ H) as Hs. destruct (flight_ranges sp _ _ _ _ (so_flight _ _ _ _ _ Hs) Hm) as (_ & ? & ? & _).
  pose proof (so_ranges _ _ _ _ _ Hs m r Hm). pose proof (so_offset _ _ _ _ _ Hs) as Ho. unfold live in Ho.
  destruct (is_cancelled (DataSender.state (sender W))); [change (blen []) with 0 in Ho; lia |]. split_and!; done || lia.
Qed.

Lemma live_stream W : is_cancelled (DataSender.state (sender W)) = false -> live W = stream W.
Proof. unfold live. by intros ->. Qed.

Lemma exec_push_ok W A d : world_ok W A -> valid (Push d) W -> returns (exec (Push d) W) (after W).
Proof.
  intros H (Hst & Hlen & Hmax). assert (Hnc : is_cancelled (DataSender.state (sender W)) = false) by (by destruct (DataSender.state (sender W))).
  pose proof (wo_sender _ _ H) as Hs. rewrite live_stream in Hs by done. pose proof (flight_slice W A) as Hfs. destruct W as [self D L Ld n].
  cbn [sender stream] in *. unfold exec. rstep (push_ok capacity sp capacity_ok self D A n d Hs Hst Hlen Hmax).
  intros self' (Hs' & Est & Efc & Hpx). apply returns_ret. split; [| cbn [sender]; rewrite Efc; apply flow_le_refl]. exists A. destruct H. cbn [sender stream sent delivered last] in *.
  split; cbn [sender stream sent delivered last]; rewrite ?Est, ?Efc; try done.
  - unfold live. cbn [sender stream]. by rewrite Est, Hnc.
  - rewrite blen_app. by fold (chunk_len d).
  - intros m f Hm. destruct (wo_sent0 m f Hm). split; [done | by apply genuine_app].
  - intros m r Hm. destruct (Hfs m r ltac:(by split) Hm) as (? & ? & ? & _). cbn in *. destruct (wo_flight0 m r Hm) as (f & fin & Hf & Hc).
    exists f, fin. split; [done |]. by rewrite slice_app by lia.
  - intros x _ Hx. rewrite blen_app in Hx. fold (chunk_len d) in Hx. rewrite Hpx. destruct (Z.lt_ge_cases x (blen D)); [| left; right; lia].
    destruct (wo_bytes0 x) as [? | ?]; [done | lia | by left; left | right; by apply covered_app].
  - by destruct (DataSender.state self).
  - intros Ef. by rewrite Ef in Hst.
Qed.

Lemma exec_finish_ok W A : world_ok W A -> returns (exec Finish W) (after W).
Proof.
  intros H. pose proof (wo_sender _ _ H) as Hs. destruct W as [self D L Ld n]. unfold exec.
  rstep (finish_ok capacity sp capacity_ok self _ A n Hs). intros self' (Hs' & Ep & Efc & Est). apply returns_ret. split; [| cbn [sender]; rewrite Efc; apply flow_le_refl]. exists A.
  assert (Hc : is_cancelled (DataSender.state self') = is_cancelled (DataSender.state self)) by (rewrite Est; by destruct (DataSender.state self)).
  destruct H. cbn [sender stream sent delivered last] in *.
  split; cbn [sender stream sent delivered last]; rewrite ?Efc, ?Ep, ?Hc; try done.
  - unfold live in *. cbn [sender stream] in *. by rewrite Hc.
  - intros Hop. apply wo_open0. rewrite Est in Hop. by destruct (DataSender.state self).
  - intros m f Hm. destruct (wo_sent0 m f Hm) as [? Hg]. split; [done |]. eapply genuine_mono; [reflexivity | | exact Hg].
    rewrite Est. by destruct (DataSender.state self).
  - rewrite Est. destruct (DataSender.state self) eqn:E0; try done. cbn. by destruct WRITES_FIN.
  - intros Ef. apply wo_finished0. rewrite Est in Ef. by destruct (DataSender.state self).
Qed.

Lemma sender_ok_last (self : DataSender.t (E := E) (F := F) (B := B)) D A n n' : n <= n' -> sender_ok sp self D A n -> sender_ok sp self D A n'.
Proof. intros Hn []. split; try done. intros m r Hm. specialize (so_order m r Hm). lia. Qed.

(** A sender that is finished or cancelled writes nothing. *)
Lemma exec_transmit_idle W A w n :
  world_ok W A -> valid (Transmit w n) W ->
  SenderState.is_sending (DataSender.state (sender W)) || SenderState.is_finishing (DataSender.state (sender W)) = false ->
  returns (exec (Transmit w n) W) (after W).
Proof.
  intros H (Hw & Hn & Hnum & Hlast) [Hns Hnf]%orb_false_iff. pose proof (wo_sender _ _ H) as Hs.
  assert (Hno : forall x, ~ offsets (DataSender.pending (sender W)) x).
  { destruct (DataSender.state (sender W)) eqn:Est; try done; [by apply (wo_finished _ _ H) |].
    intros x Hx. apply (so_pending _ _ _ _ _ Hs) in Hx. unfold live in Hx. rewrite Est in Hx.
    destruct (buffer_head _ _ (so_buffer _ _ _ _ _ Hs)). cbn [is_cancelled] in Hx. change (blen []) with 0 in Hx. lia. }
  destruct W as [self D L Ld l]. unfold exec. cbn [sender last] in *.
  rewrite (sender_transmit_idle capacity sp capacity_ok self _ A l Hs c w Hno Hnf). cbn [obind]. apply returns_ret.
  split; [| apply flow_le_refl]. exists A. destruct H. split; cbn [sender stream sent delivered last fmap list_fmap] in *; rewrite ?app_nil_r; try done.
  - by apply (sender_ok_last _ _ _ l).
  - intros m f Hm. destruct (wo_sent0 m f Hm). split; [lia | done].
Qed.

Lemma exec_transmit_ok W A w n :
  world_ok W A -> valid (Transmit w n) W -> returns (exec (Transmit w n) W) (after W).
Proof.
  intros H Hv. destruct (SenderState.is_sending (DataSender.state (sender W)) || SenderState.is_finishing (DataSender.state (sender W))) eqn:Hop;
    [| by apply (exec_transmit_idle W A)].
  assert (Hnc : is_cancelled (DataSender.state (sender W)) = false) by (by destruct (DataSender.state (sender W))).
  destruct Hv as (Hw & Hn & Hnum & Hlast). pose proof (wo_sender _ _ H) as Hs. rewrite live_stream in Hs by done.
  destruct W as [self D L Ld l]. unfold exec. cbn [sender last stream] in *.
  rstep (sender_transmit_ok capacity sp capacity_ok self D A l Hs c w n c_ok Hw Hn Hlast Hnum (wo_open _ _ H Hop)).
  { intros Est. pose proof (wo_fin _ _ H) as Hf. cbn [sender] in Hf. by rewrite Est in Hf. }
  intros [[res self'] fs] [(T & lost & s & A' & Hst & ->) _]. apply returns_ret.
  assert (Hs' : sender_ok sp (DataSender.with_tx self T lost s) D A' n) by (by eapply stage_sender).
  pose proof (stage_progress _ _ _ _ _ _ _ _ _ _ _ _ Hst) as Hp.
  pose proof (progress_limit _ _ _ _ _ _ _ _ _ _ _ Hp) as Hlim. cbn in Hlim.
  assert (Hlive : is_cancelled (tx_state s) = false /\ SenderState.is_sending (tx_state s) = SenderState.is_sending (DataSender.state self)
    /\ SenderState.is_finishing (tx_state s) = SenderState.is_finishing (DataSender.state self)).
  { destruct (progress_state _ _ _ _ _ _ _ _ _ _ _ Hp) as [-> | (_ & Eold & -> & _)]; [done |]. cbn in Eold. by destruct Eold as [-> | ->]. }
  destruct Hlive as (Hnc' & Hsend & Hfing). split; [exists A' | apply (progress_flow _ _ _ _ _ _ _ _ _ _ _ Hp)].
  destruct H. cbn [sender stream sent delivered last] in *.
  split; cbn [sender stream sent delivered last DataSender.with_tx DataSender.state DataSender.flow_controller DataSender.pending] in *; try done.
  - unfold live. cbn [sender stream DataSender.with_tx DataSender.state]. by rewrite Hnc'.
  - intros _. apply (tx_open _ _ _ _ _ (stage_tx _ _ _ _ _ _ _ _ _ _ _ _ Hst)).
  - intros m f [Hm | Hm]%elem_of_app.
    + destruct (wo_sent0 m f Hm) as [? Hg]. split; [lia |]. eapply genuine_mono; [exact Hlim | | exact Hg]. by rewrite Hsend.
    + apply list_elem_of_fmap in Hm as (f' & [= -> ->] & Hf). split; [done |].
      destruct (proj1 (Forall_forall _ _) (progress_frames _ _ _ _ _ _ _ _ _ _ _ Hp) f' Hf) as (a & len & fin & Hc & Hne & Ha & Hlen & He & Hl & Hfin).
      exists a, len, fin. split_and!; try done. intros Hf'. destruct (Hfin Hf') as [Hfg ?]. cbn in Hfg. split; [| done]. rewrite Hsend.
      by destruct (DataSender.state self).
  - intros p Hp'. apply elem_of_app. left. by apply wo_delivered0.
  - intros m r Hm. destruct (progress_new _ _ _ _ _ _ _ _ _ _ _ Hp m r Hm) as [Hold | (-> & _ & _ & _ & f & fin & Hf & Hc)].
    + destruct (wo_flight0 m r Hold) as (f & fin & Hf & Hc). exists f, fin. set_solver.
    + exists f, fin. split; [| done]. apply elem_of_app. right. apply list_elem_of_fmap. by exists f.
  - intros x _. by apply wo_bytes0.
  - destruct (progress_state _ _ _ _ _ _ _ _ _ _ _ Hp) as [-> | (_ & _ & -> & f & a & len & Hf & Hc & Ha & Hlen & He & Hl)].
    + eapply fin_ok_mono; [exact Hlim | | reflexivity | done]. set_solver.
    + cbn. split; [done |]. exists n, f, a, len. split_and!; try done. apply elem_of_app. right. apply list_elem_of_fmap. by exists f.
  - intros Ef. rewrite Ef in Hfing, Hsend. cbn in Hfing, Hsend. by rewrite <- Hfing, <- Hsend in Hop.
Qed.

(** A transmission does not take data back, and a sender that has ended writes
    nothing. *)
Lemma transmit_keeps W A w n :
  world_ok W A -> valid (Transmit w n) W ->
  returns (DataSender.on_transmit capacity (sender W) c w) (fun '(_, d', fs) =>
    DataSender.buffer d' = DataSender.buffer (sender W) /\ DataSender.max_buffer_capacity d' = DataSender.max_buffer_capacity (sender W)
    /\ match DataSender.state (sender W) with
       | SenderState.Sending => DataSender.state d' = SenderState.Sending
       | SenderState.Finishing _ => exists fin, DataSender.state d' = SenderState.Finishing fin
       | _ => d' = sender W /\ fs = []
       end).
Proof.
  intros H Hv. pose proof Hv as (Hw & Hn & Hnum & Hlast). pose proof (wo_sender _ _ H) as Hs.
  destruct (SenderState.is_sending (DataSender.state (sender W)) || SenderState.is_finishing (DataSender.state (sender W))) eqn:Hop.
  - assert (Hnc : is_cancelled (DataSender.state (sender W)) = false) by (by destruct (DataSender.state (sender W))).
    rewrite live_stream in Hs by done.
    eapply returns_mono; [apply (sender_transmit_ok capacity sp capacity_ok (sender W) (stream W) A (last W) Hs c w n c_ok Hw Hn Hlast Hnum (wo_open _ _ H Hop)) |].
    { intros Est. pose proof (wo_fin _ _ H) as Hf. by rewrite Est in Hf. }
    intros [[res d'] fs] [(T & lost & s & A' & Hst & ->) _]. split; [done |]. split; [done |].
    pose proof (stage_progress _ _ _ _ _ _ _ _ _ _ _ _ Hst) as Hp. cbn [DataSender.with_tx DataSender.state].
    destruct (progress_state _ _ _ _ _ _ _ _ _ _ _ Hp) as [-> | (_ & Eold & -> & _)]; cbn in *; [by destruct (DataSender.state (sender W)); try eexists |].
    destruct Eold as [-> | ->]; by eexists.
  - apply orb_false_iff in Hop as [Hns Hnf].
    assert (Hno : forall x, ~ offsets (DataSender.pending (sender W)) x).
    { destruct (DataSender.state (sender W)) eqn:Est; try done; [by apply (wo_finished _ _ H) |].
      intros x Hx. apply (so_pending _ _ _ _ _ Hs) in Hx. unfold live in Hx. rewrite Est in Hx.
      destruct (buffer_head _ _ (so_buffer _ _ _ _ _ Hs)). cbn [is_cancelled] in Hx. change (blen []) with 0 in Hx. lia. }
    rewrite (sender_transmit_idle capacity sp capacity_ok (sender W) _ A (last W) Hs c w Hno Hnf).
    apply returns_ret. split; [done |]. split; [done |]. by destruct (DataSender.state (sender W)).
Qed.

Lemma fin_after_live (st : SenderState.t E) a b to :
  is_cancelled (fin_after st a b to) = is_cancelled st /\ SenderState.is_sending (fin_after st a b to) = SenderState.is_sending st
  /\ SenderState.is_finishing (fin_after st a b to) = SenderState.is_finishing st
  /\ SenderState.is_finished (fin_after st a b to) = SenderState.is_finished st.
Proof. destruct st as [| [| p | |] | |]; try done. cbn. by destruct (WRITES_FIN && _). Qed.

(** The fin bit that was in a packet from [a] to [b] is delivered. *)
Lemma fin_acked D lim L Ld st a b :
  fin_ok D lim L Ld st -> fin_ok D lim L (Ld ++ filter (fun p => Is_true (within a b p)) L) (fin_after st a b FinState.Acknowledged).
Proof.
  intros H. assert (Hkeep : fin_ok D lim L (Ld ++ filter (fun p => Is_true (within a b p)) L) st).
  { eapply fin_ok_mono; [reflexivity | reflexivity | | exact H]. set_solver. }
  destruct st as [| [| p | |] | |]; try exact Hkeep. cbn [fin_after]. destruct (WRITES_FIN && _) eqn:Ehit; [| exact Hkeep].
  destruct H as (_ & m & f & x & len & -> & Hm & Hf & H). apply andb_true_iff in Ehit as [_ Ehit]. rewrite pn_as_varint_from_varint in Ehit by done.
  intros _. exists m, f, x, len. split; [| done]. apply elem_of_app. right. apply list_elem_of_filter. split; [| done].
  unfold within. cbn. by rewrite Ehit.
Qed.

Lemma exec_ack_ok W A set a b :
  world_ok W A -> valid (Ack set a b) W -> returns (exec (Ack set a b) W) (after W).
Proof.
  intros H Hv. pose proof (wo_sender _ _ H) as Hs. pose proof (flight_slice W A) as Hfs. destruct W as [self D L Ld n]. unfold exec. cbn in Hv.
  rstep (sender_ack_ok capacity sp capacity_ok self _ A n set a b Hs Hv (fin_ok_packet _ _ _ _ _ (wo_fin _ _ H))).
  intros self' (A' & Hs' & Hsub & Hpx & Hst). apply returns_ret. cbn [sender stream sent delivered last] in *.
  destruct (fin_after_live (DataSender.state self) a b FinState.Acknowledged) as (Hc & Hse & Hfi & Hfd).
  pose proof (fin_acked _ _ _ _ _ a b (wo_fin _ _ H)) as Hfin. cbn [sender stream sent delivered last] in Hfin.
  assert (Hlive : is_cancelled (DataSender.state self') = is_cancelled (DataSender.state self)
    /\ (SenderState.is_sending (DataSender.state self) = false -> SenderState.is_sending (DataSender.state self') = false)
    /\ flow_limit (DataSender.flow_controller self') = flow_limit (DataSender.flow_controller self)
    /\ (SenderState.is_sending (DataSender.state self') || SenderState.is_finishing (DataSender.state self') = true ->
        flow_open (DataSender.flow_controller self'))
    /\ fin_ok D (flow_limit (DataSender.flow_controller self')) L (Ld ++ filter (fun p => Is_true (within a b p)) L) (DataSender.state self')
    /\ (DataSender.state self' = SenderState.Finished -> forall x, ~ offsets (DataSender.pending self') x)
    /\ flow_le (DataSender.flow_controller self) (DataSender.flow_controller self')).
  { destruct Hst as [[-> ->] | (Est & -> & Efc & Hno)].
    - split_and!; try done; [by rewrite Hse | rewrite Hse, Hfi; apply (wo_open _ _ H) | | apply flow_le_refl]. intros Ef x [Hx _]%Hpx.
      rewrite Ef in Hfd. apply (wo_finished _ _ H) with x; [| done]. cbn. by destruct (DataSender.state self).
    - rewrite Efc. destruct (finish_spec _ (so_flow _ _ _ _ _ Hs)) as (_ & -> & Hle). rewrite Est in Hc, Hfin. cbn in Hc. split_and!; try done. }
  destruct Hlive as (Hc' & Hse' & Elim & Hop & Hfin' & Hno' & Hle). split; [exists A' | done]. destruct H. cbn [sender stream sent delivered last] in *.
  split; cbn [sender stream sent delivered last]; rewrite ?Elim, ?Hc'; try done.
  - unfold live in *. cbn [sender stream] in *. by rewrite Hc'.
  - intros m f Hm. destruct (wo_sent0 m f Hm) as [? Hg]. split; [done |]. eapply genuine_mono; [reflexivity | exact Hse' | exact Hg].
  - intros p [Hp | [_ Hp]%list_elem_of_filter]%elem_of_app; [by apply wo_delivered0 | done].
  - intros m r Hm. apply wo_flight0. apply Hsub in Hm. by apply elem_of_filter in Hm as [_ ?].
  - intros x Hnc Hx. destruct (wo_bytes0 x Hnc Hx) as [Hp | Hcov]; [| right; eapply covered_mono; [| exact Hcov]; set_solver].
    destruct (hit_dec A a b x) as [(m & r & Hm & Hab & Hr) | Hmiss]; [right | left; by apply Hpx].
    destruct (wo_flight0 m r Hm) as (f & fin & Hf & Hcar). destruct (Hfs m r ltac:(by split) Hm) as (? & ? & ? & _).
    exists m, f, r.1, r.2, fin. split; [| split_and!; done || lia]. apply elem_of_app. right. apply list_elem_of_filter.
    split; [| done]. apply Is_true_true, andb_true_iff. cbn. split; apply Z.leb_le; lia.
  - by rewrite <- Elim.
Qed.

Lemma lossy_ok W A self' a b :
  world_ok W A -> lossy sp (sender W) (live W) A (last W) a b self' ->
  world_ok (mk_world self' (stream W) (sent W) (delivered W) (last W)) (filter (fun x => ~ (a <= x.1 <= b)) A).
Proof.
  intros H (Hs' & Ep & Est & Elim & Hopen & _). destruct W as [self D L Ld n]. cbn [sender stream sent delivered last] in *.
  destruct (fin_after_live (DataSender.state self) a b FinState.Lost) as (Hc & Hse & Hfi & Hfd). rewrite <- Est in Hc, Hse, Hfi, Hfd.
  destruct H. cbn [sender stream sent delivered last] in *.
  split; cbn [sender stream sent delivered last]; rewrite ?Elim, ?Hc, ?Ep; try done.
  - unfold live in *. cbn [sender stream] in *. by rewrite Hc.
  - rewrite Hse, Hfi. auto.
  - intros m f Hm. destruct (wo_sent0 m f Hm) as [? Hg]. split; [done |]. eapply genuine_mono; [reflexivity | | exact Hg]. by rewrite Hse.
  - intros m r [_ Hm]%elem_of_filter. by apply wo_flight0.
  - rewrite Est. destruct (DataSender.state self) as [| [| p | |] | |]; try done. cbn [fin_after].
    destruct (WRITES_FIN && _); [| done]. by destruct wo_fin0 as [? _].
  - intros Ef. apply wo_finished0. rewrite Ef in Hfd. by destruct (DataSender.state self).
Qed.

Lemma exec_loss_ok W A set a b :
  world_ok W A -> valid (Loss set a b) W -> returns (exec (Loss set a b) W) (after W).
Proof.
  intros H Hv. pose proof (lossy_ok W A) as Hl. destruct W as [self D L Ld n]. unfold exec.
  rstep (sender_loss_ok capacity sp capacity_ok self _ A n set a b (wo_sender _ _ H) Hv (fin_ok_packet _ _ _ _ _ (wo_fin _ _ H))).
  intros self' H'. apply returns_ret. split; [eexists; by apply (Hl self' a b) | apply H'].
Qed.

Lemma exec_all_lost_ok W A : world_ok W A -> valid AllLost W -> returns (exec AllLost W) (after W).
Proof.
  intros H [_ Hne]. pose proof (lossy_ok W A) as Hl. destruct W as [self D L Ld n]. unfold exec. cbn [sender] in Hne.
  rewrite (flight_is_empty capacity sp capacity_ok (DataSender.transmissions self) A (so_flight _ _ _ _ _ (wo_sender _ _ H))) in Hne. apply bool_decide_eq_false in Hne.
  rstep (sender_all_lost_ok capacity sp capacity_ok self _ A n (wo_sender _ _ H) Hne (fin_ok_packet _ _ _ _ _ (wo_fin _ _ H))).
  intros self' (a & b & H' & _). apply returns_ret. split; [eexists; by apply (Hl self' a b) | apply H'].
Qed.

Lemma exec_stop_ok W A e : world_ok W A -> returns (exec (StopSending e) W) (after W).
Proof.
  intros H. destruct W as [self D L Ld n]. unfold exec. destruct (SenderState.is_finished (DataSender.state self)) eqn:Ef.
  { unfold DataSender.stop_sending. rewrite Ef. apply returns_ret. split; [by exists A | apply flow_le_refl]. }
  rstep (stop_sending_ok capacity sp capacity_ok self _ A n e (wo_sender _ _ H) Ef). intros self' (Hs' & Est & Efc). apply returns_ret.
  destruct (finish_spec _ (so_flow _ _ _ _ _ (wo_sender _ _ H))) as (_ & Elim & Hle). cbn [sender] in Elim, Hle.
  split; [exists ∅ | cbn [sender]; by rewrite Efc]. destruct H. cbn [sender stream sent delivered last] in *.
  split; cbn [sender stream sent delivered last]; rewrite ?Est, ?Efc, ?Elim; try done.
  - unfold live. cbn [sender]. by rewrite Est.
  - intros m f Hm. destruct (wo_sent0 m f Hm) as [? Hg]. split; [done |]. eapply genuine_mono; [reflexivity | | exact Hg]. done.
Qed.

Lemma exec_flow_ok W A fc : world_ok W A -> valid (Flow fc) W -> returns (exec (Flow fc) W) (fun W' => exists A', world_ok W' A').
Proof.
  intros H (Hfc & Hlim & Hop). destruct W as [self D L Ld n]. apply returns_ret. exists A. destruct H. cbn [sender stream sent delivered last] in *.
  split; cbn [sender stream sent delivered last with_flow DataSender.flow_controller DataSender.state DataSender.pending]; try done; [| by auto | |].
  - destruct wo_sender0. split; try done. cbn in *. lia.
  - intros m f Hm. destruct (wo_sent0 m f Hm) as [? Hg]. split; [done |]. eapply genuine_mono; [exact Hlim | done | exact Hg].
  - eapply fin_ok_mono; [exact Hlim | reflexivity | reflexivity | done].
Qed.

Lemma world_exec_ok ev W A :
  world_ok W A -> valid ev W ->
  returns (exec ev W) (fun W' => match ev with Flow _ => exists A', world_ok W' A' | _ => after W W' end).
Proof.
  intros H Hv. destruct ev.
  - by apply (exec_push_ok W A).
  - by apply (exec_finish_ok W A).
  - by apply (exec_transmit_ok W A).
  - by apply (exec_ack_ok W A).
  - by apply (exec_loss_ok W A).
  - by apply (exec_all_lost_ok W A).
  - by apply (exec_stop_ok W A).
  - by apply (exec_flow_ok W A).
Qed.

Lemma world_run_ok evs : forall W A, world_ok W A -> valid_run evs W -> returns (run evs W) (fun W' => exists A', world_ok W' A').
Proof.
  induction evs as [| ev evs IH]; intros W A H Hv; [apply returns_ret; by exists A |]. destruct Hv as [Hv Hrest]. cbn [run].
  destruct (world_exec_ok ev W A H Hv) as (W1 & E1 & Ha). assert (H1 : exists A1, world_ok W1 A1) by (destruct ev; apply Ha || exact Ha).
  destruct H1 as [A1 H1]. rewrite E1. cbn [obind]. apply (IH W1 A1); [done | by apply Hrest].
Qed.

Lemma start_ok fc max_buffer_capacity : flow_ok fc -> flow_open fc -> world_ok (start fc max_buffer_capacity) ∅.
Proof.
  intros Hfc Hop. destruct (new_sender_ok capacity sp capacity_ok (E := E) fc max_buffer_capacity Hfc) as [H _].
  split; cbn [start sender stream sent delivered last DataSender.new DataSender.state DataSender.flow_controller]; try done; try (by intros ? ? ?%not_elem_of_nil); try (by intros ? ? ?%not_elem_of_empty); try (by intros ? ?%not_elem_of_nil).
  intros x _ Hx. change (blen []) with 0 in Hx. lia.
Qed.

(** What the sender promises of a stream: each frame that was sent is a part of
    it within the flow control limit; each byte is held for retransmission until
    a frame with it was delivered; a finished sender delivered all of it. *)
Record reliable (W : world) : Prop := {
  rel_sent m f : (m, f) ∈ sent W -> genuine (stream W) (limit W) (DataSender.state (sender W)) f;
  rel_delivered p : p ∈ delivered W -> p ∈ sent W;
  rel_bytes x : is_cancelled (DataSender.state (sender W)) = false -> 0 <= x < blen (stream W) ->
    offsets (DataSender.pending (sender W)) x \/ covered (stream W) (delivered W) x;
  rel_finished : DataSender.state (sender W) = SenderState.Finished ->
    (forall x, 0 <= x < blen (stream W) -> covered (stream W) (delivered W) x)
    /\ (WRITES_FIN = true -> fin_in (stream W) (delivered W))
}.

Lemma world_reliable W A : world_ok W A -> reliable W.
Proof.
  intros H. destruct H. split; [by intros; eapply wo_sent0 | done | done |]. intros Est. split.
  - intros x Hx. destruct (wo_bytes0 x) as [Hp | ?]; [by rewrite Est | done | by destruct (wo_finished0 Est x) | done].
  - rewrite Est in wo_fin0. exact wo_fin0.
Qed.

(** C2: a data sender never panics and never loses data.  Whatever order its
    pushes, transmissions, acknowledgements, losses, limit updates and resets come
    in, and whatever writer, flow controller and byte type it is used with: each
    frame it sends is a part of the stream within the flow control limit, with
    the fin bit only at its end; each byte is held for retransmission until a
    frame with it was acknowledged; and it is finished only once frames with all
    the bytes, and with the fin bit where there is one, were acknowledged.  The
    bytes it holds are those of the stream. *)
Theorem data_sender_reliable fc max_buffer_capacity evs :
  flow_ok fc -> flow_open fc -> valid_run evs (start fc max_buffer_capacity) ->
  returns (run evs (start fc max_buffer_capacity)) (fun W => reliable W /\ exists A, sender_ok sp (sender W) (live W) A (last W)).
Proof.
  intros Hfc Hop Hv. eapply returns_mono; [exact (world_run_ok evs _ ∅ (start_ok fc max_buffer_capacity Hfc Hop) Hv) |]. intros W [A HW].
  split; [by eapply world_reliable | exists A; apply (wo_sender _ _ HW)].
Qed.
End Reliable.

(** ** A sender at work *)

(** Bytes as a list. *)
#[export] Instance plain_bytes : Bytes (list Z) := {
  bytes_slice b := b;
  bytes_advance b n := if n <=? blen b then Ret (drop (Z.to_nat n) b) else Panic
}.
#[export] Instance plain_bytes_spec : BytesSpec (list Z).
Proof. intros b n Hn. cbn. rewrite (proj2 (Z.leb_le _ _)) by apply Hn. by eexists. Qed.

(** A packet of 64 bytes with the number [n]. *)
Definition packet_context (sp : PacketNumberSpace) (n : Z) : Context.t :=
  Context.mk (mk_eb (replicate 64 0) 0) Frame.NonEliciting false (PacketNumber.from_varint n sp) Unconstrained Normal 0 0 16.
Definition packet_writer (sp : PacketNumberSpace) (n : Z) : Writer := Context.writer true (packet_context sp n).
Lemma packet_writer_ok sp n : writer_ok (packet_writer sp n).
Proof. apply context_writer_ok; [split; [done | by vm_compute] | by vm_compute | done | done]. Qed.

Lemma sample_valid_run {E F C B : Type} `{DataFlowController F, !FlowControllerSpec F, Bytes B, !BytesSpec B, ChunkWriter C B}
  capacity sp (c : C) ev evs (W W' : world (E := E) (F := F) (B := B)) :
  valid sp ev W -> exec capacity c ev W = Ret W' -> valid_run capacity sp c evs W' -> valid_run capacity sp c (ev :: evs) W.
Proof. intros Hv HW Hrest. split; [done |]. intros W0 HW0. by assert (W0 = W') as -> by congruence. Qed.

Definition sample_events : list (event (E := unit) (F := unit) (B := list Z)) :=
  [Push [1; 2; 3]; Transmit (packet_writer Handshake 0) 0; Push [4; 5]; Finish;
   Transmit (packet_writer Handshake 1) 1; Loss (packet_number_set (PacketNumber.from_varint 0 Handshake)) 0 0;
   Transmit (packet_writer Handshake 2) 2; Ack (range_set (range Handshake 1 2)) 1 2].

(** Evaluate the next event of a concrete run. *)
Ltac valid_event :=
  lazymatch goal with
  | |- valid _ (Transmit _ _) _ => split_and!; [apply packet_writer_ok | by vm_compute | reflexivity | by vm_compute]
  | |- valid _ (Push _) _ => split_and!; by vm_compute
  | |- valid _ (Ack (packet_number_set _) _ _) _ => apply packet_number_set_ok; by vm_compute
  | |- valid _ (Loss (packet_number_set _) _ _) _ => apply packet_number_set_ok; by vm_compute
  | |- valid _ (Ack (range_set _) _ _) _ => apply range_set_ok; by vm_compute
  | |- _ => exact I
  end.
Ltac next_event := eapply sample_valid_run; [valid_event | vm_compute; reflexivity |].

Lemma data_sender_reliable_witness :
  exists W, run (HC := crypto_writer true) (HF := crypto_flow_controller) (fun n => n) tt sample_events
      (start (fun n => n) tt 100) = Ret W
    /\ DataSender.state (sender W) = SenderState.Finished /\ stream W = [1; 2; 3; 4; 5]
    /\ reliable (HF := crypto_flow_controller) (FlowControllerSpec0 := crypto_flow_spec) (HC := crypto_writer true) (ChunkWriterSpec0 := crypto_writer_spec true) tt W.
Proof.
  destruct (data_sender_reliable (HF := crypto_flow_controller) (FlowControllerSpec0 := crypto_flow_spec)
    (HC := crypto_writer true) (ChunkWriterSpec0 := crypto_writer_spec true) (E := unit) (fun n => n) Handshake tt ltac:(intros; lia) I tt 100 sample_events I I) as (W & E & HW & _).
  - unfold sample_events. do 8 next_event. exact I.
  - exists W. split; [exact E |]. vm_compute in E. injection E as <-. split; [reflexivity |]. split; [reflexivity | exact HW].
Defined.
