(* ===== verification/AckManagerThm.v ===== *)
(** * The acknowledgement manager, proved

    What is acknowledged was received, it is acknowledged in time, and it is not
    forgotten before the peer knows. *)
From stdpp Require Import base list.
From S2P Require Import Prelude Codec VarInt PacketNumber Interval IntervalInsert IntervalRemove IntervalSet AckRanges FrameAck Frames FrameCodec Payload Time Transmission TransmissionContext Recovery Transmissions DataSender DataSenderThm AckManager.

(** ** The delay on the wire *)

Section Delay.
Context (s : AckSettings.t).
Hypothesis exponent_ok : 0 <= AckSettings.ack_delay_exponent s /\ validate_ack_delay_exponent (AckSettings.ack_delay_exponent s) = true.

Local Abbreviation scale := (2 ^ AckSettings.ack_delay_exponent s).

Lemma scale_ok : AckSettings.scale s = Ret scale /\ 1 <= scale <= 2 ^ 20.
Proof.
  destruct exponent_ok as [H0 H1]. unfold validate_ack_delay_exponent in H1. apply Z.leb_le in H1. unfold AckSettings.scale.
  rewrite (proj2 (Z.ltb_lt _ _)) by lia. split; [done |]. split.
  - pose proof (Z.pow_pos_nonneg 2 (AckSettings.ack_delay_exponent s) ltac:(lia) H0). lia.
  - apply Z.pow_le_mono_r; lia.
Qed.

Lemma encode_delay_ok d : 0 <= d ->
  returns (AckSettings.encode_ack_delay s d) (fun v => varint_ok v /\ v = Z.min VarInt.MAX (d / 1000 / scale)).
Proof.
  intros Hd. unfold AckSettings.encode_ack_delay, Duration.as_micros. destruct scale_ok as [-> Hs]. cbn [obind]. apply returns_ret.
  pose proof (Z.div_pos d 1000 Hd ltac:(lia)). pose proof (Z.div_pos (d / 1000) scale ltac:(lia) ltac:(lia)). unfold VarInt.MAX, varint_ok.
  destruct (Z.leb_spec (d / 1000 / scale) MAX_VARINT_VALUE); unfold MAX_VARINT_VALUE, VarInt.MAX in *; lia.
Qed.

Lemma decode_delay_ok v : varint_ok v -> AckSettings.decode_ack_delay s v = Ret (scale * (v * 1000)).
Proof.
  intros [H0 H1]. unfold AckSettings.decode_ack_delay, Duration.mul, Duration.from_micros. destruct scale_ok as [-> Hs]. cbn [obind].
  rewrite (proj2 (Z.leb_le _ _)); [done |]. unfold VarInt.MAX, MAX_VARINT_VALUE, Duration.MAX in *. nia.
Qed.

(** The ACK delay survives the wire.  With an exponent that passes validation
    neither direction panics; a delay that is encoded and decoded is lower by less
    than one unit, of [2 ^ exponent] microseconds, unless it is beyond the largest
    value; and a value that is decoded and encoded is the same. *)
Theorem ack_delay_roundtrip :
  (forall d, 0 <= d -> d / 1000 / scale <= VarInt.MAX ->
     exists v d', AckSettings.encode_ack_delay s d = Ret v /\ AckSettings.decode_ack_delay s v = Ret d' /\ d' <= d < d' + 1000 * scale)
  /\ (forall v, varint_ok v -> exists d, AckSettings.decode_ack_delay s v = Ret d /\ AckSettings.encode_ack_delay s d = Ret v).
Proof.
  destruct scale_ok as [_ Hs]. split.
  - intros d Hd Hmax. destruct (encode_delay_ok d Hd) as (v & E & Hv & ->). eexists _, _. split; [exact E |]. rewrite decode_delay_ok by done. split; [done |].
    rewrite Z.min_r by lia. rewrite Z.div_div by lia. pose proof (Z.div_mod d (1000 * scale) ltac:(lia)). pose proof (Z.mod_pos_bound d (1000 * scale) ltac:(lia)). nia.
  - intros v Hv. rewrite decode_delay_ok by done. eexists. split; [done |]. destruct Hv as [H0 H1].
    destruct (encode_delay_ok (scale * (v * 1000)) ltac:(nia)) as (v' & -> & _ & ->). f_equal.
    replace (scale * (v * 1000)) with (scale * v * 1000) by lia. rewrite Z.div_mul by lia. rewrite Z.mul_comm, Z.div_mul by lia. unfold VarInt.MAX in *. lia.
Qed.
End Delay.

(** ** The ranges *)

Section Manager.
Context (sp : PacketNumberSpace).

#[local] Existing Instance packet_number_bound.
#[local] Instance manager_pn_spec : IntervalBoundSpec packet_number_bound (pn_in sp) PacketNumber.as_u64 0 VarInt.MAX
  := packet_number_bound_spec sp.

Local Abbreviation pn := (fun n => PacketNumber.from_varint n sp).
Local Abbreviation val := PacketNumber.as_u64.
Local Abbreviation recorded r x := (members val r x).
Local Abbreviation rok := (ranges_ok sp).

Lemma pn_is v : pn_in sp v -> v = pn (val v) /\ varint_ok (val v).
Proof. intros (x & Hx & ->). by rewrite pn_as_u64_from_varint. Qed.
Lemma pn_member v : varint_ok v -> pn_in sp (pn v).
Proof. by exists v. Qed.

Lemma sorted_last lb (l : list (Interval Z)) i : sorted_from (pn_in sp) val lb l -> last l = Some i ->
  iv_ok (pn_in sp) val i /\ forall x, mem val l x -> x <= val (iend i).
Proof.
  revert lb. induction l as [| b l IH]; intros lb; [done |]. intros (Hb & Hlb & Hl) Hlast. destruct l as [| c l].
  - cbn in Hlast. simplify_eq. split; [done |]. intros x [Hx | Hx]%mem_cons; [apply Hx | by apply mem_nil in Hx].
  - rewrite last_cons_cons in Hlast. destruct (IH _ Hl Hlast) as [Hi Hx]. split; [done |]. intros x [Hm | Hm]%mem_cons; [| by apply Hx].
    assert (Hc : mem val (c :: l) (val (istart c))).
    { apply mem_cons. left. destruct Hl as ((_ & _ & ?) & _). unfold in_iv. lia. }
    pose proof (Hx _ Hc). apply (mem_sorted_from _ _ _ Hl) in Hc. unfold in_iv in Hm. lia.
Qed.

Lemma ranges_empty n r : rok n r -> IntervalSetOps.is_empty r = true <-> forall x, ~ recorded r x.
Proof.
  intros ([Hs _] & _). unfold IntervalSetOps.is_empty, members. destruct (intervals r) as [| i l]; [by split; [intros _ x ?%mem_nil |] |].
  split; [done |]. intros H. destruct Hs as ((_ & _ & ?) & _). destruct (H (val (istart i))). apply mem_cons. left. unfold in_iv. lia.
Qed.

(** The largest number, and the smallest one below it. *)
Lemma ranges_bounds n r : rok n r -> IntervalSetOps.is_empty r = false ->
  exists lo hi, IntervalSetOps.min_value r = Some (pn lo) /\ IntervalSetOps.max_value r = Some (pn hi)
    /\ varint_ok lo /\ varint_ok hi /\ lo <= hi /\ recorded r hi /\ (forall x, recorded r x -> x <= hi)
    /\ exists lo' l, AckRanges.ack_ranges r = (lo', hi) :: l.
Proof.
  intros ([Hs _] & _) He. unfold IntervalSetOps.min_value, IntervalSetOps.max_value, members, AckRanges.ack_ranges.
  unfold IntervalSetOps.is_empty in He. pose proof Hs as [lb Hl]%sorted_sorted_from.
  destruct (last (intervals r)) as [j |] eqn:Ej; [| by apply last_None in Ej; rewrite Ej in He].
  destruct (sorted_last _ _ _ Hl Ej) as [Hj Hx]. pose proof Ej as [l0 El]%last_Some.
  destruct (intervals r) as [| i l] eqn:E; [done |]. destruct Hl as (Hi & Hlb & Hl).
  destruct (pn_is (istart i)) as [E1 V1]; [apply Hi |]. destruct (pn_is (iend j)) as [E2 V2]; [apply Hj |].
  exists (val (istart i)), (val (iend j)). rewrite <- E1, <- E2.
  assert (Hm : mem val (i :: l) (val (istart i))) by (apply mem_cons; left; destruct Hi as (_ & _ & ?); unfold in_iv; lia).
  split_and!; [done | done | done | done | by apply Hx | | done |].
  - rewrite El. apply Exists_exists. exists j. split; [apply elem_of_app; right; by left | destruct Hj as (_ & _ & ?); unfold in_iv; lia].
  - rewrite El, fmap_app, rev_app_distr. eexists _, _. done.
Qed.

Lemma spread_ok n r : rok n r -> returns (AckRanges.spread r) (fun d => 0 <= d <= MAX_VARINT_VALUE).
Proof.
  intros Hr. unfold AckRanges.spread. destruct (IntervalSetOps.is_empty r) eqn:E.
  { unfold IntervalSetOps.is_empty in E. unfold IntervalSetOps.min_value. destruct (intervals r); [by apply returns_ret | done]. }
  destruct (ranges_bounds n r Hr E) as (lo & hi & -> & -> & Hlo & Hhi & Hle & _). rewrite !pn_as_varint_from_varint by done.
  destruct Hlo, Hhi. unfold VarInt.sub. rewrite sub_c_Ret by lia. cbn [obind]. apply returns_ret.
  unfold USIZE_MAX, umax, MAX_VARINT_VALUE in *. zcases; lia.
Qed.

(** Forgetting everything up to a number never splits a range. *)
Lemma ref_remove_low a (l : list (Interval Z)) : val (istart a) <= 0 -> Forall (iv_ok (pn_in sp) val) l -> vlen (ref_remove val a l) <= vlen l.
Proof.
  intros Ha. induction 1 as [| b l Hb Hl IH]; [done |]. cbn [ref_remove]. pose proof (iv_bounds b Hb). unfold left_of. rewrite vlen_cons.
  zcases; cbn [app]; rewrite ?vlen_cons; lia.
Qed.

Lemma remove_low_ok n r hi : rok n r -> varint_ok hi ->
  exists r', IntervalSetOps.remove r (Included (pn 0)) (Included (pn hi)) = Ret (Ok tt, r') /\ rok n r' /\ forall x, recorded r' x <-> recorded r x /\ hi < x.
Proof.
  intros (Hok & Hlim & Hn & Hlen) Hhi. assert (V0 : varint_ok 0) by done. assert (Ha : iv_ok (pn_in sp) val (mk_iv (pn 0) (pn hi))).
  { split_and!; [by apply pn_member.. |]. cbn [istart iend]. rewrite !pn_as_u64_from_varint by done. apply Hhi. }
  destruct (set_remove_spec (dom := pn_in sp) (val := val) r (Included (pn 0)) (Included (pn hi)) (mk_iv (pn 0) (pn hi))) as (res & r' & -> & Hok' & Hlim' & Hres);
    [done | lia | | done |].
  { rewrite (from_range_bounds_closed (dom := pn_in sp) (val := val)) by (by apply pn_member). rewrite !pn_as_u64_from_varint by done. destruct Hhi. by zcases. }
  pose proof Hok as [Hs _]. pose proof Hs as [lb Hl]%sorted_sorted_from. destruct res as [[] | e].
  - exists r'. destruct Hres as [Hm Hv]. split; [done |]. split; [split_and!; [done | congruence | lia | lia | by apply Hv] |].
    intros x. rewrite Hm. unfold in_iv. cbn [istart iend]. rewrite !pn_as_u64_from_varint by done. split; intros [Hx Hi]; (split; [done |]); [| lia].
    apply Exists_exists in Hx as (i & Hin & Hx). pose proof (sorted_from_Forall _ _ Hl) as Hf. rewrite Forall_forall in Hf. pose proof (iv_bounds i (Hf i Hin)).
    unfold in_iv in Hx. lia.
  - destruct Hres as (_ & _ & m & _ & _ & Hgrow). pose proof (ref_remove_low (mk_iv (pn 0) (pn hi)) (intervals r)) as H.
    cbn [istart] in H. rewrite pn_as_u64_from_varint in H by done. specialize (H ltac:(lia) (sorted_from_Forall _ _ Hl)). lia.
Qed.

Lemma insert_number_ok n r v : rok n r -> varint_ok v ->
  exists res r', AckRanges.insert_packet_number r (pn v) = Ret (res, r') /\ ranges_inserted sp n r (mk_iv (pn v) (pn v)) res r'.
Proof.
  intros Hr Hv. unfold AckRanges.insert_packet_number, PacketNumberRange.new. rewrite pn_le_from_varint by done. rewrite Z.leb_refl. cbn [obind rassert].
  apply (insert_range_ok sp n r (mk_iv (pn v) (pn v)) false Hr). split_and!; [by apply pn_member.. | done].
Qed.

(** ** The operations *)

(** Settings that pass the validation of the transport parameters. *)
Record settings_ok (s : AckSettings.t) : Prop := {
  exponent_valid : 0 <= AckSettings.ack_delay_exponent s /\ validate_ack_delay_exponent (AckSettings.ack_delay_exponent s) = true;
  delay_valid : exists ms, AckSettings.max_ack_delay s = Duration.from_millis ms /\ 0 <= ms /\ validate_max_ack_delay ms = true;
  limit_valid : 1 <= AckSettings.ack_ranges_limit s <= 255
}.

(** The delay in the microseconds of timestamps. *)
Definition delay_of (s : AckSettings.t) : Z := AckSettings.max_ack_delay s / 1000.

Lemma deadline_ok s now : settings_ok s -> timestamp_ok now ->
  Timestamp.add now (AckSettings.max_ack_delay s) = Ret (now + delay_of s) /\ 0 <= delay_of s <= 2 ^ 24.
Proof.
  intros [_ (ms & E & H0 & H1) _] Hnow. unfold validate_max_ack_delay in H1. apply Z.leb_le in H1. unfold delay_of. rewrite E. unfold Duration.from_millis.
  replace (ms * 1000000 / 1000) with (ms * 1000) by (replace (ms * 1000000) with (ms * 1000 * 1000) by lia; by rewrite Z.div_mul by lia).
  rewrite timestamp_add_wide by (unfold Duration.from_micros; lia || done).
  replace (ms * 1000000 / 1000) with (ms * 1000) by (replace (ms * 1000000) with (ms * 1000 * 1000) by lia; by rewrite Z.div_mul by lia). split; [done | lia].
Qed.

Local Abbreviation state m := (AckManager.transmission_state m).
Local Abbreviation active m := (AckTransmissionState.is_active (AckManager.transmission_state m) = true).
Local Abbreviation alarm m := (Timer.expiration (AckManager.ack_delay_timer m)).
Local Abbreviation ranges m := (AckManager.ack_ranges m).

Definition state_ok (st : AckTransmissionState.t) : Prop :=
  match st with
  | AckTransmissionState.Disabled => True
  | AckTransmissionState.Passive n | AckTransmissionState.Active n => 0 <= n <= AckTransmissionState.MAX_RETRANSMISSIONS
  end.

(** An acknowledgement is being sent, or the timer for it expires by [d]. *)
Definition urgent (m : AckManager.t) (d : Z) : Prop :=
  active m \/ (state m <> AckTransmissionState.Disabled /\ exists t, alarm m = Some t /\ t <= d).

Lemma activate_ok st : state_ok st ->
  state_ok (AckTransmissionState.activate st)
  /\ (st <> AckTransmissionState.Disabled -> AckTransmissionState.is_active (AckTransmissionState.activate st) = true).
Proof. by destruct st. Qed.

Lemma state_on_update_ok n st r : rok n r ->
  returns (AckTransmissionState.on_update st r) (fun st' => state_ok st'
    /\ (IntervalSetOps.is_empty r = false -> st' <> AckTransmissionState.Disabled
          /\ (AckTransmissionState.is_active st = true -> AckTransmissionState.is_active st' = true))).
Proof.
  intros Hr. unfold AckTransmissionState.on_update. destruct (IntervalSetOps.is_empty r) eqn:E; [by apply returns_ret |].
  rstep (spread_ok n r Hr). intros d Hd. destruct Hr as (_ & _ & Hn & Hlen). pose proof (vlen_nonneg (intervals r)). unfold IntervalSetOps.interval_len.
  unfold AckTransmissionState.INTERVAL_SCALE, AckTransmissionState.RANGE_SCALE. unfold USIZE_MAX, umax, MAX_VARINT_VALUE in *.
  pose proof (Z.div_pos (vlen (intervals r)) 2 ltac:(lia) ltac:(lia)). pose proof (Z.div_pos d 10 ltac:(lia) ltac:(lia)).
  pose proof (Z.div_le_upper_bound (vlen (intervals r)) 2 (2 ^ 63) ltac:(lia) ltac:(lia)). pose proof (Z.div_le_upper_bound d 10 (2 ^ 62) ltac:(lia) ltac:(lia)).
  rewrite add_c_Ret by lia. cbn [obind]. apply returns_ret. set (k := Z.min _ _). assert (0 <= k <= AckTransmissionState.MAX_RETRANSMISSIONS).
  { unfold k, AckTransmissionState.MAX_RETRANSMISSIONS. lia. }
  by destruct st.
Qed.

(** What an operation leaves alone. *)
Definition same_records (m m' : AckManager.t) : Prop :=
  ranges m' = ranges m /\ AckManager.ack_eliciting_transmissions m' = AckManager.ack_eliciting_transmissions m
  /\ AckManager.ack_settings m' = AckManager.ack_settings m
  /\ AckManager.largest_received_packet_number_at m' = AckManager.largest_received_packet_number_at m.

Lemma on_timeout_ok m now : timestamp_ok now -> state_ok (state m) ->
  returns (AckManager.on_timeout m now) (fun m' => same_records m m' /\ state_ok (state m')
    /\ (state m <> AckTransmissionState.Disabled -> state m' <> AckTransmissionState.Disabled)
    /\ (alarm m' = alarm m \/ alarm m' = None)
    /\ (forall d, urgent m d -> urgent m' d) /\ (forall d, urgent m d -> d <= now -> active m')).
Proof.
  intros Hnow Hst. unfold AckManager.on_timeout. destruct (timer_poll_ok (AckManager.ack_delay_timer m) now Hnow) as (ready & timer' & -> & Hr & Hnr & Hiff).
  cbn [obind]. apply returns_ret. destruct (activate_ok (state m) Hst) as [Ha1 Ha2]. unfold urgent. destruct ready.
  - rewrite (Hr eq_refl). cbn. split; [done |]. split; [done |].
    split_and!; [by destruct (state m) | by right | intros d [H | [H _]]; left; [by destruct (state m) | by apply Ha2] | intros d [H | [H _]] _; [by destruct (state m) | by apply Ha2]].
  - rewrite (Hnr eq_refl). cbn. split; [done |]. split_and!; [done | done | by left | done |]. intros d [H | [H (t & E & Ht)]] Hd; [done |].
    exfalso. assert (false = true) by (apply Hiff; exists t; split; [done | lia]). done.
Qed.

Lemma order_of_ok n m v : rok n (ranges m) -> varint_ok v -> returns (AckManager.order_of m (pn v)) (fun _ => True).
Proof.
  intros Hr Hv. unfold AckManager.order_of. destruct (IntervalSetOps.is_empty (ranges m)) eqn:E.
  { unfold IntervalSetOps.is_empty in E. unfold IntervalSetOps.max_value. destruct (intervals (ranges m)); [by apply returns_ret | done]. }
  destruct (ranges_bounds n _ Hr E) as (lo & hi & _ & -> & _ & Hhi & _). rewrite pn_next_from_varint by done. cbn [obind].
  destruct (Z.ltb_spec hi MAX_VARINT_VALUE); [| by apply returns_ret]. unfold pn_eq.
  rewrite !pn_cmp_from_varint by (try done; unfold varint_ok in *; lia). cbn [obind]. by apply returns_ret.
Qed.

Lemma inserted_not_empty n r v res r' : rok n r -> varint_ok v -> ranges_inserted sp n r (mk_iv (pn v) (pn v)) res r' -> IntervalSetOps.is_empty r' = false.
Proof.
  intros Hr Hv [Hr' H]. destruct (IntervalSetOps.is_empty r') eqn:E; [| done]. exfalso.
  assert (Hin : in_iv val (mk_iv (pn v) (pn v)) v) by (unfold in_iv; cbn; rewrite pn_as_u64_from_varint by done; lia).
  destruct res as [[] | [lo hi | lo hi]].
  - apply (proj1 (ranges_empty n r' Hr') E v). apply H. by right.
  - destruct H as (-> & _ & Hlen & _). destruct Hr as (_ & _ & Hn & _). unfold IntervalSetOps.is_empty in E. destruct (intervals r); [| done]. change (vlen (@nil (Interval Z))) with 0 in Hlen. lia.
  - destruct H as (_ & _ & _ & H). apply (proj1 (ranges_empty n r' Hr') E v). apply H. by right.
Qed.

(** The timer never runs longer than the delay. *)
Definition alarm_ok (m : AckManager.t) (now : Z) : Prop :=
  forall t, alarm m = Some t -> t <= now + delay_of (AckManager.ack_settings m).

Lemma schedule_ok m p now ecn is_ordered is_largest :
  settings_ok (AckManager.ack_settings m) -> timestamp_ok now -> state_ok (state m) -> state m <> AckTransmissionState.Disabled -> alarm_ok m now ->
  returns (AckManager.schedule m p now ecn is_ordered is_largest) (fun m' => same_records m m' /\ state_ok (state m') /\ state m' <> AckTransmissionState.Disabled
    /\ alarm_ok m' now /\ urgent m' (now + delay_of (AckManager.ack_settings m)) /\ (forall d, urgent m d -> urgent m' d)).
Proof.
  intros Hset Hnow Hst Hd Ht. destruct (activate_ok (state m) Hst) as [Ha1 Ha2]. destruct (deadline_ok _ now Hset Hnow) as [Eadd _].
  unfold AckManager.schedule. unfold urgent, alarm_ok, same_records. match goal with |- context [if ?b then _ else _] => destruct b end.
  { apply returns_ret. cbn. specialize (Ha2 Hd). split_and!; try done; [by destruct (state m) | by left | by left]. }
  unfold Timer.is_armed. destruct (alarm m) as [t |] eqn:Et; rewrite ?Et.
  - apply returns_ret. rewrite Et. split_and!; try done; [intros t0 [= <-]; by apply Ht |]. right. split; [done |]. exists t. split; [done |]. by apply Ht.
  - rewrite Eadd. cbn [obind]. apply returns_ret. cbn. split_and!; try done; [by intros t [= <-] | |].
    + right. split; [done |]. by eexists.
    + intros d [H | [_ (t & ? & _)]]; [by left | done].
Qed.

Local Abbreviation room v := (mk_iv (pn v) (pn v)).

(** What processing a packet does besides recording its number. *)
Definition processed_post (m : AckManager.t) (p : ProcessedPacket) (now : Z) (r' : IntervalSet Z) (m' : AckManager.t) : Prop :=
  ranges m' = r' /\ AckManager.ack_eliciting_transmissions m' = AckManager.ack_eliciting_transmissions m
  /\ AckManager.ack_settings m' = AckManager.ack_settings m
  /\ (AckManager.largest_received_packet_number_at m' = AckManager.largest_received_packet_number_at m
       \/ AckManager.largest_received_packet_number_at m' = Some now)
  /\ state_ok (state m') /\ alarm_ok m' now /\ (forall d, urgent m d -> urgent m' d)
  /\ (ProcessedPacketOps.is_ack_eliciting p = true -> urgent m' (now + delay_of (AckManager.ack_settings m))).

Lemma on_processed_ok n m p v now ecn :
  rok n (ranges m) -> settings_ok (AckManager.ack_settings m) -> alarm_ok m now -> timestamp_ok now ->
  Payload.packet_number p = pn v -> varint_ok v ->
  exists res r', AckRanges.insert_packet_number (ranges m) (pn v) = Ret (res, r') /\ ranges_inserted sp n (ranges m) (room v) res r'
    /\ returns (AckManager.on_processed_packet m p now ecn) (processed_post m p now r').
Proof.
  intros Hr Hset Ht Hnow Ep Hv. destruct (insert_number_ok n _ v Hr Hv) as (res & r' & Eins & Hins). exists res, r'. split; [done |]. split; [done |].
  pose proof (inserted_not_empty _ _ _ _ _ Hr Hv Hins) as Hne. unfold AckManager.on_processed_packet. rewrite Ep.
  rstep (order_of_ok n m v Hr Hv). intros [o l] _. rewrite Eins. cbn [obind]. rewrite Hne, orb_true_r. cbn [rassert obind].
  rstep (state_on_update_ok n (state m) r' (proj1 Hins)). intros st (Hst & Hst'). destruct (Hst' Hne) as [Hnd Hact].
  set (at_ := if l then Some now else AckManager.largest_received_packet_number_at m).
  assert (Hat : at_ = AckManager.largest_received_packet_number_at m \/ at_ = Some now) by (unfold at_; destruct l; auto).
  match goal with |- context [AckManager.schedule ?x _ _ _ _ _] => set (m1 := x) end.
  assert (Hu : forall d, urgent m d -> urgent m1 d) by (intros d [H | [_ H]]; [left; by apply Hact | right; by split]).
  assert (H1 : returns (if ProcessedPacketOps.is_ack_eliciting p then AckManager.schedule m1 p now ecn o l else Ret m1) (fun m2 =>
    same_records m1 m2 /\ state_ok (state m2) /\ state m2 <> AckTransmissionState.Disabled /\ alarm_ok m2 now
    /\ (ProcessedPacketOps.is_ack_eliciting p = true -> urgent m2 (now + delay_of (AckManager.ack_settings m))) /\ (forall d, urgent m1 d -> urgent m2 d))).
  { destruct (ProcessedPacketOps.is_ack_eliciting p); [| apply returns_ret; split_and!; try done; exact Ht].
    eapply returns_mono; [apply (schedule_ok m1 p now ecn o l); done |]. cbv beta. naive_solver. }
  rstep H1. intros m2 ((E1 & E2 & E3 & E4) & Hs2 & Hd2 & Ht2 & Hel & Hu2).
  eapply returns_mono; [apply (on_timeout_ok m2 now Hnow Hs2) |]. cbv beta. intros m3 ((F1 & F2 & F3 & F4) & Hs3 & _ & Hal & Hu3 & _).
  split_and!; [by rewrite F1, E1 | by rewrite F2, E2 | by rewrite F3, E3 | rewrite F4, E4; exact Hat | done | | auto | auto].
  intros t Et. rewrite F3. apply Ht2. destruct Hal as [Hal | Hal]; congruence.
Qed.

(** *** Sending *)

(** The ranges of a frame contain the number; the frame's largest number. *)
Definition covered (rs : list (Z * Z)) (x : Z) : bool := existsb (fun '(lo, hi) => (lo <=? x) && (x <=? hi)) rs.
Definition largest (rs : list (Z * Z)) : Z := match rs with [] => -1 | (_, hi) :: _ => hi end.

Lemma ack_ranges_covered r x : covered (AckRanges.ack_ranges r) x = true <-> recorded r x.
Proof.
  unfold covered, members, mem, AckRanges.ack_ranges. rewrite existsb_exists, Exists_exists. split.
  - intros ([lo hi] & Hin & Hb). apply in_rev, list_elem_of_In, list_elem_of_fmap in Hin as (i & [= -> ->] & Hi).
    exists i. split; [done |]. apply andb_prop in Hb as [?%Z.leb_le ?%Z.leb_le]. unfold in_iv, PacketNumber.as_varint in *. lia.
  - intros (i & Hi & Hx). exists (PacketNumber.as_varint (istart i), PacketNumber.as_varint (iend i)). split.
    + rewrite <- in_rev, <- list_elem_of_In, list_elem_of_fmap. by exists i.
    + unfold in_iv, PacketNumber.as_varint in *. apply andb_true_intro. split; apply Z.leb_le; lia.
Qed.

Definition at_ok (m : AckManager.t) : Prop := forall t, AckManager.largest_received_packet_number_at m = Some t -> timestamp_ok t.

Lemma ack_delay_ok m now : settings_ok (AckManager.ack_settings m) -> at_ok m -> timestamp_ok now ->
  returns (AckManager.the_ack_delay m now) varint_ok.
Proof.
  intros Hset Hat Hnow. unfold AckManager.the_ack_delay, at_ok in *. destruct (AckManager.largest_received_packet_number_at m) as [t |].
  - specialize (Hat t eq_refl). unfold timestamp_ok in *. unfold Timestamp.saturating_duration_since, Timestamp.checked_sub, Duration.checked_sub, Timestamp.as_duration_impl, Duration.from_micros.
    match goal with |- context [if ?b then Some _ else None] => destruct b eqn:Eb end; cbn [obind].
    + apply Z.leb_le in Eb. unfold Timestamp.from_duration_impl, Duration.as_micros. replace (now * 1000 - t * 1000) with ((now - t) * 1000) by lia. rewrite Z.div_mul by lia.
      rewrite (proj2 (Z.leb_le _ _)) by (unfold umax; lia). cbn [rassert obind]. rewrite wrap_small by (unfold uint; lia).
      eapply returns_mono; [apply encode_delay_ok; [apply Hset | zcases; unfold Timestamp.ONE_MICROSECOND; lia] | by intros v []].
    + eapply returns_mono; [apply encode_delay_ok; [apply Hset | done] | by intros v []].
  - cbn [obind]. eapply returns_mono; [apply encode_delay_ok; [apply Hset | done] | by intros v []].
Qed.

Definition the_frame (m : AckManager.t) (ack_delay : Z) : frame :=
  Frame.Ack (Ack.mk ack_delay (AckRanges.ack_ranges (ranges m)) (Ecn.as_option (AckManager.ecn_counts m))).

Lemma frame_on_transmit_ok m context : settings_ok (AckManager.ack_settings m) -> at_ok m -> timestamp_ok (current_time context) ->
  returns (AckManager.on_transmit m context) (fun '(did, fs) => did = false
    \/ (did = true /\ AckManager.should_transmit m context = true /\ exists ack_delay, varint_ok ack_delay /\ fs = [the_frame m ack_delay])).
Proof.
  intros Hset Hat Hnow. unfold AckManager.on_transmit. destruct (AckManager.should_transmit m context) eqn:E; cbn [negb]; [| apply returns_ret; by left].
  rstep (ack_delay_ok m _ Hset Hat Hnow). intros v Hv. apply returns_ret. fold (the_frame m v). destruct (write_frame context [] (the_frame m v)); [| by left].
  right. split_and!; [done | done |]. by exists v.
Qed.

(** An active manager with something recorded sends whatever the packet is for. *)
Lemma active_transmits n m context : rok n (ranges m) -> settings_ok (AckManager.ack_settings m) -> at_ok m -> timestamp_ok (current_time context) ->
  active m -> (exists x, recorded (ranges m) x) -> (forall f, write_frame context [] f <> None) ->
  exists ack_delay, AckManager.on_transmit m context = Ret (true, [the_frame m ack_delay]).
Proof.
  intros Hr Hset Hat Hnow Ha [x Hx] Hroom. unfold AckManager.on_transmit. assert (E : AckManager.should_transmit m context = true).
  { unfold AckManager.should_transmit, AckTransmissionState.should_transmit, AckManager.has_ranges. destruct (IntervalSetOps.is_empty (ranges m)) eqn:He.
    - by destruct (proj1 (ranges_empty n _ Hr) He x).
    - cbn [negb]. destruct (state m); try done. by destruct (transmission_mode context). }
  rewrite E. cbn [negb]. destruct (ack_delay_ok m _ Hset Hat Hnow) as (v & -> & _). cbn [obind]. fold (the_frame m v). specialize (Hroom (the_frame m v)).
  exists v. by destruct (write_frame context [] (the_frame m v)).
Qed.

(** The recorded transmissions are of packets that were sent. *)
Definition transmission_ok (carried : list (Z * list (Z * Z))) (tr : AckTransmission.t) : Prop :=
  exists k rs, AckTransmission.sent_in_packet tr = pn k /\ varint_ok k /\ (k, rs) ∈ carried
    /\ AckTransmission.largest_received_packet_number_acked tr = pn (largest rs) /\ varint_ok (largest rs).
Definition set_transmissions_ok (carried : list (Z * list (Z * Z))) (set : AckTransmissionSet.t) : Prop :=
  forall tr, AckTransmissionSet.stable set = Some tr \/ AckTransmissionSet.latest set = Some tr -> transmission_ok carried tr.

Lemma transmissions_more c x set : set_transmissions_ok c set -> set_transmissions_ok (x :: c) set.
Proof. intros H tr Htr. destruct (H tr Htr) as (k & rs & ? & ? & ? & ? & ?). exists k, rs. split_and!; try done. by right. Qed.

Lemma on_transmit_complete_ok n m context k carried :
  rok n (ranges m) -> AckManager.should_transmit m context = true -> packet_number context = pn k -> varint_ok k -> state_ok (state m) ->
  set_transmissions_ok carried (AckManager.ack_eliciting_transmissions m) ->
  returns (AckManager.on_transmit_complete m context) (fun '(m', _) => ranges m' = ranges m /\ AckManager.ack_settings m' = AckManager.ack_settings m
    /\ AckManager.largest_received_packet_number_at m' = AckManager.largest_received_packet_number_at m /\ state_ok (state m') /\ alarm m' = None
    /\ set_transmissions_ok ((k, AckRanges.ack_ranges (ranges m)) :: carried) (AckManager.ack_eliciting_transmissions m')).
Proof.
  intros Hr Hsh Hk Hvk Hst Hc. unfold AckManager.on_transmit_complete. rewrite Hsh. cbn [rassert obind]. destruct (AckManager.elicit m context) as [[fs el] since].
  assert (He : IntervalSetOps.is_empty (ranges m) = false).
  { unfold AckManager.should_transmit, AckTransmissionState.should_transmit, AckManager.has_ranges in Hsh. by destruct (IntervalSetOps.is_empty (ranges m)). }
  destruct (ranges_bounds n _ Hr He) as (lo & hi & _ & -> & _ & Hhi & _ & _ & _ & lo' & l & El). cbn [unwrap obind].
  unfold AckManager.has_ranges. rewrite He. cbn [negb]. unfold AckTransmissionState.on_transmit. cbn [rassert obind].
  assert (Htr : transmission_ok ((k, AckRanges.ack_ranges (ranges m)) :: carried) (AckTransmission.mk (packet_number context) (pn hi))).
  { exists k, (AckRanges.ack_ranges (ranges m)). rewrite El. cbn. split_and!; try done. by left. }
  assert (Hset' : set_transmissions_ok ((k, AckRanges.ack_ranges (ranges m)) :: carried)
    (if el then AckTransmissionSet.on_transmit (AckManager.ack_eliciting_transmissions m) (AckTransmission.mk (packet_number context) (pn hi)) else AckManager.ack_eliciting_transmissions m)).
  { pose proof (transmissions_more _ (k, AckRanges.ack_ranges (ranges m)) _ Hc) as Hm. destruct el; [| done]. intros tr [H | H]; cbn in H; [| by simplify_eq].
    destruct (AckTransmissionSet.stable (AckManager.ack_eliciting_transmissions m)) eqn:E; simplify_eq; [| done]. apply Hm. by left. }
  assert (Hnext : forall c, 0 <= c <= AckTransmissionState.MAX_RETRANSMISSIONS ->
    state_ok (match checked_sub c 1 with Some c => AckTransmissionState.Passive c | None => AckTransmissionState.Disabled end)).
  { intros c Hn. unfold checked_sub. zcases; cbn; [lia | done]. }
  destruct (state m) as [| c | c] eqn:E; cbn [obind]; apply returns_ret; split_and!; try done; cbn [AckManager.transmission_state]; by apply Hnext.
Qed.

(** *** Feedback *)

(** The frames that were in the packets from [a] to [b]. *)
Definition delivered (carried : list (Z * list (Z * Z))) (a b : Z) : list (Z * list (Z * Z)) :=
  List.filter (fun '(k, _) => (a <=? k) && (k <=? b)) carried.

Lemma ack_range_ok set a b carried tr : ack_set_ok sp set a b -> transmission_ok carried tr ->
  returns (AckTransmission.ack_range tr set) (fun o => o = None
    \/ exists k rs, o = Some (pn 0, pn (largest rs)) /\ varint_ok (largest rs) /\ (k, rs) ∈ delivered carried a b).
Proof.
  intros Hset (k & rs & Ek & Hk & Hin & El & Hl). unfold AckTransmission.ack_range. rewrite Ek, (ack_contains _ _ _ _ Hset k Hk). cbn [obind].
  destruct ((a <=? k) && (k <=? b)) eqn:E; [| apply returns_ret; by left]. rewrite El, pn_space_from_varint by done. cbn [obind]. apply returns_ret. right.
  exists k, rs. split_and!; [done | done |]. apply list_elem_of_In, filter_In. split; [by apply list_elem_of_In | done].
Qed.

Lemma set_on_update_ok set a b carried trs : ack_set_ok sp set a b -> set_transmissions_ok carried trs ->
  returns (AckTransmissionSet.on_update trs set) (fun '(o, trs') => set_transmissions_ok carried trs'
    /\ (o = None \/ exists k rs, o = Some (pn 0, pn (largest rs)) /\ varint_ok (largest rs) /\ (k, rs) ∈ delivered carried a b)).
Proof.
  intros Hset Hc. unfold AckTransmissionSet.on_update.
  assert (H : forall o, (forall tr, o = Some tr -> transmission_ok carried tr) -> returns (AckTransmissionSet.range_of o set) (fun o => o = None
    \/ exists k rs, o = Some (pn 0, pn (largest rs)) /\ varint_ok (largest rs) /\ (k, rs) ∈ delivered carried a b)).
  { intros [tr |] Htr; [by apply (ack_range_ok set a b carried tr); [| apply Htr] | apply returns_ret; by left]. }
  rstep (H (AckTransmissionSet.latest trs)); [intros tr Htr; apply Hc; by right |]. intros [r |] Hr.
  { apply returns_ret. split; [by intros tr [? | ?] | done]. }
  rstep (H (AckTransmissionSet.stable trs)); [intros tr Htr; apply Hc; by left |]. intros [r |] Hr'; apply returns_ret; [| by split].
  split; [| done]. intros tr [E | E]; cbn in E; apply Hc; by right.
Qed.

Lemma frames_on_ack_ok n m set a b carried : rok n (ranges m) -> ack_set_ok sp set a b ->
  set_transmissions_ok carried (AckManager.ack_eliciting_transmissions m) ->
  returns (AckManager.on_packet_ack m set) (fun m' => rok n (ranges m') /\ state m' = state m /\ alarm m' = alarm m
    /\ AckManager.ack_settings m' = AckManager.ack_settings m /\ AckManager.largest_received_packet_number_at m' = AckManager.largest_received_packet_number_at m
    /\ set_transmissions_ok carried (AckManager.ack_eliciting_transmissions m')
    /\ (forall x, recorded (ranges m') x -> recorded (ranges m) x)
    /\ (forall x, recorded (ranges m) x -> recorded (ranges m') x \/ exists k rs, (k, rs) ∈ delivered carried a b /\ x <= largest rs)).
Proof.
  intros Hr Hset Hc. unfold AckManager.on_packet_ack. rstep (set_on_update_ok set a b carried _ Hset Hc). intros [o trs] [Ht [-> | (k & rs & -> & Hv & Hin)]].
  { apply returns_ret. split_and!; auto. }
  destruct (remove_low_ok n (ranges m) (largest rs) Hr Hv) as (r' & -> & Hr' & Hx). cbn [obind is_ok rassert]. apply returns_ret. split_and!; try done.
  - intros x H. by apply Hx in H as [].
  - intros x H. cbn [AckManager.set_ranges AckManager.ack_ranges]. rewrite Hx. destruct (Z.le_gt_cases x (largest rs)); [| by left]. right. by exists k, rs.
Qed.

Lemma frames_on_loss_ok n m set a b carried : rok n (ranges m) -> ack_set_ok sp set a b -> state_ok (state m) ->
  set_transmissions_ok carried (AckManager.ack_eliciting_transmissions m) ->
  returns (AckManager.on_packet_loss m set) (fun m' => ranges m' = ranges m /\ state_ok (state m') /\ alarm m' = alarm m
    /\ AckManager.ack_settings m' = AckManager.ack_settings m /\ AckManager.largest_received_packet_number_at m' = AckManager.largest_received_packet_number_at m
    /\ set_transmissions_ok carried (AckManager.ack_eliciting_transmissions m')
    /\ forall d x, recorded (ranges m) x -> urgent m d -> urgent m' d).
Proof.
  intros Hr Hset Hst Hc. unfold AckManager.on_packet_loss. rstep (set_on_update_ok set a b carried _ Hset Hc). intros [o trs] [Ht [-> | (k & rs & -> & _)]].
  { by apply returns_ret. }
  rstep (state_on_update_ok n (state m) (ranges m) Hr). intros st (Hst' & He). apply returns_ret. split_and!; try done; [by apply activate_ok |].
  intros d x Hx _. destruct (IntervalSetOps.is_empty (ranges m)) eqn:E; [by destruct (proj1 (ranges_empty n _ Hr) E x) |].
  left. apply activate_ok; [done |]. by apply He.
Qed.

(** ** The manager and its surroundings *)

(** The manager, with what happened so far: the time; the packets processed; the
    ranges reported as dropped, with the number of ranges kept at that moment; the
    packets sent with an ACK frame, with the ranges of the frame, and those the
    peer acknowledged; and the ack-eliciting packets no frame has covered yet,
    with the time by which the acknowledgement is due. *)
Record ack_world := mk_world {
  manager : AckManager.t;
  clock : Z;
  processed : list Z;
  dropped : list (Z * Z * Z);
  carried : list (Z * list (Z * Z));
  known : list (Z * list (Z * Z));
  owed : list (Z * Z)
}.

Inductive ack_event :=
| Processed (packet : ProcessedPacket) (now : Z) (ecn : ExplicitCongestionNotification)
| Sent (context context' : Writer)
| Acknowledged (set : AckSet) (a b : Z)
| Lost (set : AckSet) (a b : Z)
| Expired (now : Z).

Definition reported (m : AckManager.t) (res : result unit AckRanges.Error) : list (Z * Z * Z) :=
  match res with
  | Ok _ => []
  | Err (AckRanges.RangeInsertionFailed min max) | Err (AckRanges.LowestRangeDropped min max) =>
      [(val min, val max, IntervalSetOps.interval_len (ranges m))]
  end.

Definition ack_step (w : ack_world) (e : ack_event) : outcome ack_world :=
  let m := manager w in
  match e with
  | Processed p now ecn =>
      let v := val (Payload.packet_number p) in
      let! '(res, _) := AckRanges.insert_packet_number (ranges m) (Payload.packet_number p) in
      let! m' := AckManager.on_processed_packet m p now ecn in
      Ret (mk_world m' now (v :: processed w) (reported m res ++ dropped w) (carried w) (known w)
             (if ProcessedPacketOps.is_ack_eliciting p then (v, now + delay_of (AckManager.ack_settings m)) :: owed w else owed w))
  | Sent context context' =>
      let! '(did_send, _) := AckManager.on_transmit m context in
      if did_send then
        let rs := AckRanges.ack_ranges (ranges m) in
        let! '(m', _) := AckManager.on_transmit_complete m context' in
        Ret (mk_world m' (current_time context) (processed w) (dropped w) ((val (packet_number context'), rs) :: carried w) (known w)
               (List.filter (fun '(x, _) => negb (covered rs x)) (owed w)))
      else Ret w
  | Acknowledged set a b =>
      let! m' := AckManager.on_packet_ack m set in
      Ret (mk_world m' (clock w) (processed w) (dropped w) (carried w) (delivered (carried w) a b ++ known w) (owed w))
  | Lost set a b =>
      let! m' := AckManager.on_packet_loss m set in
      Ret (mk_world m' (clock w) (processed w) (dropped w) (carried w) (known w) (owed w))
  | Expired now =>
      let! m' := AckManager.on_timeout m now in
      Ret (mk_world m' now (processed w) (dropped w) (carried w) (known w) (owed w))
  end.

(** Time does not run backwards; a packet is processed once; the two halves of
    sending see the same packet; and the sets are of packets of the space. *)
Definition ack_possible (w : ack_world) (e : ack_event) : Prop :=
  match e with
  | Processed p now _ => clock w <= now /\ timestamp_ok now /\ exists v, varint_ok v /\ Payload.packet_number p = pn v /\ v ∉ processed w
  | Sent c c' => clock w <= current_time c /\ timestamp_ok (current_time c) /\ transmission_constraint c' = transmission_constraint c
      /\ transmission_mode c' = transmission_mode c /\ exists k, varint_ok k /\ packet_number c' = pn k
  | Acknowledged set a b | Lost set a b => ack_set_ok sp set a b
  | Expired now => clock w <= now /\ timestamp_ok now
  end.

Fixpoint ack_run (w : ack_world) (es : list ack_event) : outcome ack_world :=
  match es with [] => Ret w | e :: es => let! w := ack_step w e in ack_run w es end.
Fixpoint ack_possible_run (w : ack_world) (es : list ack_event) : Prop :=
  match es with [] => True | e :: es => ack_possible w e /\ forall w', ack_step w e = Ret w' -> ack_possible_run w' es end.

Definition ack_start (m : AckManager.t) : ack_world := mk_world m 1 [] [] [] [] [].

(** What holds of a number that was processed. *)
Definition accounted (w : ack_world) (x : Z) : Prop :=
  recorded (ranges (manager w)) x
  \/ (exists lo hi kept, (lo, hi, kept) ∈ dropped w /\ lo <= x <= hi)
  \/ (exists k rs, (k, rs) ∈ known w /\ x <= largest rs).

Record world_ok (s : AckSettings.t) (w : ack_world) : Prop := {
  world_settings : AckManager.ack_settings (manager w) = s;
  world_ranges : rok (AckSettings.ack_ranges_limit s) (ranges (manager w));
  world_state : state_ok (state (manager w));
  world_alarm : alarm_ok (manager w) (clock w);
  world_at : at_ok (manager w);
  world_transmissions : set_transmissions_ok (carried w) (AckManager.ack_eliciting_transmissions (manager w));
  world_recorded x : recorded (ranges (manager w)) x -> x ∈ processed w;
  world_carried k rs x : (k, rs) ∈ carried w -> covered rs x = true -> x ∈ processed w;
  world_accounted x : x ∈ processed w -> accounted w x;
  world_dropped : Forall (fun '(_, kept) => kept = AckSettings.ack_ranges_limit s) (dropped w);
  world_owed x d : (x, d) ∈ owed w -> x ∈ processed w /\ (recorded (ranges (manager w)) x -> urgent (manager w) d)
}.

(** What recording a number does to the numbers recorded. *)
Lemma inserted_accounts n r v res r' m x : varint_ok v -> ranges m = r -> ranges_inserted sp n r (room v) res r' ->
  recorded r x \/ x = v -> recorded r' x \/ exists lo hi kept, (lo, hi, kept) ∈ reported m res /\ lo <= x <= hi.
Proof.
  intros Hv Em [_ H] Hx. assert (Hin : in_iv val (room v) v) by (unfold in_iv; cbn; rewrite pn_as_u64_from_varint by done; lia).
  destruct res as [[] | [lo hi | lo hi]].
  - left. apply H. destruct Hx as [? | ->]; auto.
  - destruct H as (-> & [= <- <-] & _). destruct Hx as [? | ->]; [by left | right]. eexists _, _, _. split; [by left |]. rewrite pn_as_u64_from_varint by done. lia.
  - destruct H as (_ & _ & _ & H). destruct Hx as [Hx | ->]; [| left; apply H; by right].
    destruct (decide (val lo <= x <= val hi)); [right; eexists _, _, _; split; [by left | done] | left; apply H; by left].
Qed.
Lemma inserted_recorded n r v res r' x : varint_ok v -> ranges_inserted sp n r (room v) res r' -> recorded r' x -> recorded r x \/ x = v.
Proof.
  intros Hv [_ H] Hx. assert (Hin : in_iv val (room v) x -> x = v) by (unfold in_iv; cbn; rewrite pn_as_u64_from_varint by done; lia).
  destruct res as [[] | [lo hi | lo hi]].
  - apply H in Hx as [|]; auto.
  - destruct H as (-> & _). by left.
  - destruct H as (_ & _ & _ & H). apply H in Hx as [[? _] |]; auto.
Qed.
Lemma inserted_reported n r v res r' m : ranges m = r -> ranges_inserted sp n r (room v) res r' -> Forall (fun '(_, kept) => kept = n) (reported m res).
Proof. intros Em [_ H]. unfold reported, IntervalSetOps.interval_len. rewrite Em. destruct res as [[] | [lo hi | lo hi]]; repeat constructor; naive_solver. Qed.

Lemma world_processed s w p now ecn : settings_ok s -> world_ok s w -> ack_possible w (Processed p now ecn) ->
  returns (ack_step w (Processed p now ecn)) (world_ok s).
Proof.
  intros Hs [Es Hr Hst Hal Hat Htr Hrec Hcar Hacc Hdr How] (Hc & Hnow & v & Hv & Ep & Hnew). unfold ack_step. rewrite Ep. rewrite <- Es in Hs.
  assert (Hal' : alarm_ok (manager w) now) by (intros t Et; specialize (Hal t Et); lia).
  destruct (on_processed_ok _ _ p v now ecn Hr Hs Hal' Hnow Ep Hv) as (res & r' & -> & Hins & Hpost). cbn [obind].
  rstep Hpost. intros m' (Er & Et & Es' & Ea & Hst' & Halm & Hu & Hel). apply returns_ret. rewrite pn_as_u64_from_varint by done.
  assert (Hrec' : forall x, recorded (ranges m') x -> recorded (ranges (manager w)) x \/ x = v).
  { intros x Hx. rewrite Er in Hx. by eapply inserted_recorded. }
  split; cbn [manager clock processed dropped carried known owed].
  - congruence.
  - rewrite Er. apply Hins.
  - done.
  - done.
  - intros t Ht. destruct Ea as [Ea | Ea]; rewrite Ea in Ht; [by apply Hat | by simplify_eq].
  - by rewrite Et.
  - intros x Hx. apply Hrec' in Hx as [Hx | ->]; [right; by apply Hrec | by left].
  - intros k rs x Hin Hx. right. by eapply Hcar.
  - intros x Hx. assert (Hx' : accounted w x \/ x = v) by (apply elem_of_cons in Hx as [-> | Hx]; [by right | left; by apply Hacc]).
    unfold accounted in *. cbn [manager dropped known]. rewrite Er.
    assert (Hi : recorded (ranges (manager w)) x \/ x = v -> recorded r' x \/ exists lo hi kept, (lo, hi, kept) ∈ reported (manager w) res ++ dropped w /\ lo <= x <= hi).
    { intros H. destruct (inserted_accounts _ _ _ _ _ (manager w) x Hv eq_refl Hins H) as [? | (lo & hi & kept & Hin & ?)]; [by left | right].
      exists lo, hi, kept. split; [apply elem_of_app; by left | done]. }
    destruct Hx' as [[H | [(lo & hi & kept & Hin & ?) | H]] | H]; [destruct Hi; auto | | by right; right | destruct Hi; auto].
    right. left. exists lo, hi, kept. split; [apply elem_of_app; by right | done].
  - apply Forall_app. split; [by eapply inserted_reported | done].
  - intros x d Hin. assert (Hold : (x, d) ∈ owed w -> x ∈ v :: processed w /\ (recorded (ranges m') x -> urgent m' d)).
    { intros Ho. destruct (How x d Ho) as [Hp Hu']. split; [by right |]. intros Hx. apply Hrec' in Hx as [Hx | ->]; [by apply Hu, Hu' | done]. }
    destruct (ProcessedPacketOps.is_ack_eliciting p); [| by apply Hold]. apply elem_of_cons in Hin as [[= -> ->] | Hin]; [| by apply Hold].
    split; [by left |]. intros _. by apply Hel.
Qed.

Lemma world_sent s w c c' : settings_ok s -> world_ok s w -> ack_possible w (Sent c c') -> returns (ack_step w (Sent c c')) (world_ok s).
Proof.
  intros Hs Hw (Hc & Hnow & Ec & Em & k & Hk & Ek). pose proof Hw as [Es Hr Hst Hal Hat Htr Hrec Hcar Hacc Hdr How]. rewrite <- Es in Hs. unfold ack_step.
  rstep (frame_on_transmit_ok (manager w) c Hs Hat Hnow). intros [did fs] [-> | (-> & Hsh & v & Hv & ->)]; [by apply returns_ret |].
  assert (Hsh' : AckManager.should_transmit (manager w) c' = true) by (unfold AckManager.should_transmit in *; by rewrite Ec, Em).
  rstep (on_transmit_complete_ok _ (manager w) c' k (carried w) Hr Hsh' Ek Hk Hst Htr). intros [m' fs'] (Er & Es' & Ea & Hst' & Et & Htr').
  apply returns_ret. rewrite Ek, pn_as_u64_from_varint by done. split; cbn [manager clock processed dropped carried known owed]; try done.
  - congruence.
  - by rewrite Er.
  - intros t Ht. congruence.
  - intros t. rewrite Ea. apply Hat.
  - intros x. rewrite Er. apply Hrec.
  - intros k' rs x [[= -> ->] | Hin]%elem_of_cons Hx; [by apply Hrec, ack_ranges_covered | by eapply Hcar].
  - intros x Hx. unfold accounted. cbn [manager dropped known]. rewrite Er. by apply Hacc.
  - intros x d Hin. apply list_elem_of_In, filter_In in Hin as [Hin Hx]. apply list_elem_of_In in Hin. split; [by apply (How x d) |].
    intros Hm. rewrite Er in Hm. apply ack_ranges_covered in Hm. by rewrite Hm in Hx.
Qed.

Lemma world_acknowledged s w set a b : world_ok s w -> ack_set_ok sp set a b -> returns (ack_step w (Acknowledged set a b)) (world_ok s).
Proof.
  intros [Es Hr Hst Hal Hat Htr Hrec Hcar Hacc Hdr How] Hset. unfold ack_step.
  rstep (frames_on_ack_ok _ (manager w) set a b (carried w) Hr Hset Htr). intros m' (Hr' & Est & Eal & Es' & Ea & Htr' & Hless & Hmore).
  apply returns_ret. split; cbn [manager clock processed dropped carried known owed]; try done.
  - congruence.
  - by rewrite Est.
  - intros t. rewrite Eal, Es'. apply Hal.
  - intros t. rewrite Ea. apply Hat.
  - intros x Hx. by apply Hrec, Hless.
  - intros x Hx. unfold accounted. cbn [manager dropped known]. destruct (Hacc x Hx) as [H | [H | (k & rs & Hin & Hle)]].
    + destruct (Hmore x H) as [? | (k & rs & Hin & Hle)]; [by left |]. right. right. exists k, rs. split; [apply elem_of_app; by left | done].
    + by right; left.
    + right. right. exists k, rs. split; [apply elem_of_app; by right | done].
  - intros x d Hin. destruct (How x d Hin) as [? Hu]. split; [done |]. intros Hx. unfold urgent. rewrite Est, Eal. by apply Hu, Hless.
Qed.

Lemma world_lost s w set a b : world_ok s w -> ack_set_ok sp set a b -> returns (ack_step w (Lost set a b)) (world_ok s).
Proof.
  intros [Es Hr Hst Hal Hat Htr Hrec Hcar Hacc Hdr How] Hset. unfold ack_step.
  rstep (frames_on_loss_ok _ (manager w) set a b (carried w) Hr Hset Hst Htr). intros m' (Er & Hst' & Eal & Es' & Ea & Htr' & Hu).
  apply returns_ret. split; cbn [manager clock processed dropped carried known owed]; try done.
  - congruence.
  - by rewrite Er.
  - intros t. rewrite Eal, Es'. apply Hal.
  - intros t. rewrite Ea. apply Hat.
  - intros x. rewrite Er. apply Hrec.
  - intros x Hx. unfold accounted. cbn [manager dropped known]. rewrite Er. by apply Hacc.
  - intros x d Hin. destruct (How x d Hin) as [? Hu']. split; [done |]. rewrite Er. intros Hx. eapply Hu; [exact Hx | by apply Hu'].
Qed.

Lemma world_expired s w now : world_ok s w -> clock w <= now -> timestamp_ok now -> returns (ack_step w (Expired now)) (world_ok s).
Proof.
  intros [Es Hr Hst Hal Hat Htr Hrec Hcar Hacc Hdr How] Hc Hnow. unfold ack_step.
  rstep (on_timeout_ok (manager w) now Hnow Hst). intros m' ((Er & Et & Es' & Ea) & Hst' & _ & Eal & Hu & _).
  apply returns_ret. split; cbn [manager clock processed dropped carried known owed]; try done.
  - congruence.
  - by rewrite Er.
  - intros t Ht. rewrite Es'. destruct Eal as [Eal | Eal]; rewrite Eal in Ht; [| done]. specialize (Hal t Ht). lia.
  - intros t. rewrite Ea. apply Hat.
  - by rewrite Et.
  - intros x. rewrite Er. apply Hrec.
  - intros x Hx. unfold accounted. cbn [manager dropped known]. rewrite Er. by apply Hacc.
  - intros x d Hin. destruct (How x d Hin) as [? Hu']. split; [done |]. rewrite Er. intros Hx. by apply Hu, Hu'.
Qed.

Lemma world_run s es w : settings_ok s -> world_ok s w -> ack_possible_run w es -> returns (ack_run w es) (world_ok s).
Proof.
  intros Hs. revert w. induction es as [| e es IH]; intros w Hw; [intros _; by apply returns_ret |]. intros [He Hes].
  assert (H : returns (ack_step w e) (world_ok s)).
  { destruct e; [by apply world_processed | by apply world_sent | by apply world_acknowledged | by apply world_lost | by apply world_expired; try apply He]. }
  destruct H as (w' & E & Hw'). cbn [ack_run]. rewrite E. cbn [obind]. apply IH; [done |]. by apply Hes.
Qed.

Lemma world_start s m : settings_ok s -> AckManager.new sp s = Ret m -> world_ok s (ack_start m).
Proof.
  intros Hs Hm. unfold AckManager.new, AckRanges.new in Hm. pose proof (limit_valid s Hs) as Hl. destruct (Z.eqb_spec (AckSettings.ack_ranges_limit s) 0); [lia |].
  cbn [obind] in Hm. simplify_eq. split; cbn [ack_start manager clock processed dropped carried known owed]; try done.
  - split_and!; cbn; [| done | lia | unfold USIZE_MAX, umax; lia | change (vlen (@nil (Interval Z))) with 0; lia]. split; [done |]. intros k [= <-]. lia.
  - by intros tr [? | ?].
  - by intros x ?%mem_nil.
  - by intros k rs x ?%not_elem_of_nil.
  - by intros x ?%not_elem_of_nil.
  - by intros x d ?%not_elem_of_nil.
Qed.

(** The acknowledgement of [x] goes out by [d]: whenever the timer is checked from
    then on, sending is forced, and the next packet with room has a frame with it. *)
Definition due (m : AckManager.t) (x d : Z) : Prop :=
  forall now, d <= now -> timestamp_ok now -> returns (AckManager.on_timeout m now) (fun m' => AckManager.transmission_interest m' = [Forced]
    /\ forall context, timestamp_ok (current_time context) -> (forall f, write_frame context [] f <> None) ->
         exists ack_delay rs ecn, AckManager.on_transmit m' context = Ret (true, [Frame.Ack (Ack.mk ack_delay rs ecn)]) /\ covered rs x = true).

Lemma urgent_due s w x d : settings_ok s -> world_ok s w -> recorded (ranges (manager w)) x -> urgent (manager w) d -> due (manager w) x d.
Proof.
  intros Hs Hw Hx Hu now Hd Hnow. eapply returns_mono; [apply (on_timeout_ok _ now Hnow (world_state _ _ Hw)) |]. cbv beta.
  intros m' ((Er & Et & Es & Ea) & _ & _ & _ & _ & Hact). specialize (Hact d Hu Hd). split.
  - unfold AckManager.transmission_interest, AckTransmissionState.transmission_interest. by rewrite Hact.
  - intros context Hctx Hroom. destruct (active_transmits (AckSettings.ack_ranges_limit s) m' context) as [v E]; try done.
    + rewrite Er. apply Hw.
    + rewrite Es, (world_settings _ _ Hw). done.
    + intros t. rewrite Ea. apply Hw.
    + exists x. by rewrite Er.
    + eexists _, _, _. split; [exact E |]. apply ack_ranges_covered. by rewrite Er.
Qed.

(** C10: the acknowledgement manager, through any order of packets processed,
    packets sent, acknowledgements, losses and timer expirations, with settings
    that pass validation, never panics, and then: an ACK frame only ever covered
    packets that were processed; a processed packet is recorded for the next
    frame, unless its range was reported as dropped while the limit of ranges was
    reached, or the peer acknowledged a frame with a largest number that is not
    below it; and an ack-eliciting packet that is recorded and was in no frame
    yet is in one sent at the latest when its delay is over. *)
Theorem ack_manager_timely s m events :
  settings_ok s -> AckManager.new sp s = Ret m -> ack_possible_run (ack_start m) events ->
  returns (ack_run (ack_start m) events) (fun w =>
    (forall k rs x, (k, rs) ∈ carried w -> covered rs x = true -> x ∈ processed w)
    /\ (forall x, x ∈ processed w -> accounted w x)
    /\ (forall range kept, (range, kept) ∈ dropped w -> kept = AckSettings.ack_ranges_limit s)
    /\ (forall x d, (x, d) ∈ owed w -> recorded (ranges (manager w)) x -> due (manager w) x d)).
Proof.
  intros Hs Hm Hp. eapply returns_mono; [apply (world_run s events _ Hs (world_start s m Hs Hm) Hp) |]. cbv beta. intros w Hw. split_and!.
  - intros k rs x. apply (world_carried s w Hw).
  - apply (world_accounted s w Hw).
  - intros range kept Hin. pose proof (world_dropped s w Hw) as Hf. rewrite Forall_forall in Hf. apply (Hf (range, kept) Hin).
  - intros x d Hin Hx. apply (urgent_due s); [done | done | done |]. by apply (world_owed s w Hw x d Hin).
Qed.
End Manager.

(** ** A manager at work *)

Definition sample_packet (v : Z) : ProcessedPacket := mk_pp (PacketNumber.from_varint v Handshake) Frame.Eliciting false 1 Frame.NonProbing 0 false.
Definition sample_context (k time : Z) : Writer :=
  Context.writer true (Context.mk (mk_eb (replicate 64 0) 0) Frame.Eliciting false (PacketNumber.from_varint k Handshake) Unconstrained Normal time 0 16).

(** Two packets are acknowledged, one more arrives after a gap. *)
Definition sample_history : list ack_event :=
  [Processed (sample_packet 0) 1000 NotEct; Processed (sample_packet 1) 2000 Ect0; Sent (sample_context 7 3000) (sample_context 7 3000);
   Processed (sample_packet 3) 4000 NotEct; Acknowledged (packet_number_set (PacketNumber.from_varint 7 Handshake)) 7 7; Expired 29000].

Lemma possible_cons sp w e es w' : ack_possible sp w e -> ack_step w e = Ret w' -> ack_possible_run sp w' es -> ack_possible_run sp w (e :: es).
Proof. intros He E Hes. split; [done |]. intros w0 E0. by assert (w0 = w') as -> by congruence. Qed.

Lemma recommended_ok : settings_ok AckSettings.RECOMMENDED.
Proof. split; [split; by vm_compute | exists 25; split_and!; by vm_compute | by vm_compute]. Qed.

Lemma ack_manager_timely_witness :
  exists m w, AckManager.new Handshake AckSettings.RECOMMENDED = Ret m /\ ack_run (ack_start m) sample_history = Ret w
    /\ processed w = [3; 1; 0] /\ owed w = [(3, 29000)] /\ due (manager w) 3 29000.
Proof.
  destruct (AckManager.new Handshake AckSettings.RECOMMENDED) as [m |] eqn:E; [| discriminate E]. exists m.
  destruct (ack_manager_timely Handshake AckSettings.RECOMMENDED m sample_history recommended_ok E) as (w & Ew & _ & _ & _ & Hdue).
  - vm_compute in E. injection E as <-. unfold sample_history.
    eapply possible_cons; [split; [by vm_compute |]; split; [by vm_compute |]; exists 0; split_and!; [by vm_compute | done | by intros ?%not_elem_of_nil] | vm_compute; reflexivity |].
    eapply possible_cons; [split; [by vm_compute |]; split; [by vm_compute |]; exists 1; split_and!; [by vm_compute | done | by vm_compute; intros ?%list_elem_of_singleton] | vm_compute; reflexivity |].
    eapply possible_cons; [split; [by vm_compute |]; split; [by vm_compute |]; split; [done |]; split; [done |]; exists 7; split; by vm_compute | vm_compute; reflexivity |].
    eapply possible_cons; [split; [by vm_compute |]; split; [by vm_compute |]; exists 3; split_and!; [by vm_compute | done | by rewrite list_elem_of_In; intros [? | [? | []]]] | vm_compute; reflexivity |].
    eapply possible_cons; [by apply packet_number_set_ok; vm_compute | vm_compute; reflexivity |].
    eapply possible_cons; [split_and!; by vm_compute | vm_compute; reflexivity | exact I].
  - exists w. split; [done |]. split; [exact Ew |]. vm_compute in E. injection E as <-. vm_compute in Ew. injection Ew as <-.
    split; [reflexivity |]. split; [reflexivity |]. apply Hdue; [left | apply Exists_exists]. eexists. split; [by left |]. split; by vm_compute.
Defined.
