(* ===== verification/StreamFlow.v ===== *)
(** * Stream flow control

    [StreamFlowController] of [stream/send_stream.rs]: the limits of a stream and
    of the connection on the data it sends.  The connection's controller is
    shared behind [Rc<RefCell<..>>], borrowed for one call at a time; the model
    keeps its state in a field. *)
From S2P Require Import Prelude Codec VarInt PacketNumber FrameAck Frames Time Transmission Recovery Sync FlowControl Transmissions.

Inductive StreamFlowControllerState := Ready | BlockedOnStreamWindow | BlockedOnConnectionWindow | FlowFinished.

Module StreamFlow.
Record t := mk {
  connection_flow_controller : Outgoing.t;
  acquired_connection_flow_controller_window : Z;
  highest_requested_connection_flow_control_window : Z;
  max_stream_data : Z;
  state : StreamFlowControllerState;
  stream_data_blocked_sync : PeriodicSync.t
}.

Definition new (connection_flow_controller : Outgoing.t) (initial_window : Z) : t :=
  mk connection_flow_controller 0 0 initial_window Ready PeriodicSync.new.

Definition set_state (self : t) (s : StreamFlowControllerState) : t :=
  mk (connection_flow_controller self) (acquired_connection_flow_controller_window self)
    (highest_requested_connection_flow_control_window self) (max_stream_data self) s (stream_data_blocked_sync self).
Definition set_sync (self : t) (s : PeriodicSync.t) : t :=
  mk (connection_flow_controller self) (acquired_connection_flow_controller_window self)
    (highest_requested_connection_flow_control_window self) (max_stream_data self) (state self) s.

Definition set_max_stream_data (self : t) (max_stream_data_ : Z) : t :=
  if max_stream_data_ <=? max_stream_data self then self else
  let self := mk (connection_flow_controller self) (acquired_connection_flow_controller_window self)
                (highest_requested_connection_flow_control_window self) max_stream_data_ (state self)
                (stream_data_blocked_sync self) in
  match state self with
  | BlockedOnStreamWindow => set_sync (set_state self Ready) (PeriodicSync.stop_sync (stream_data_blocked_sync self))
  | _ => self
  end.

Definition try_acquire_connection_window (self : t) : outcome t :=
  match state self with
  | FlowFinished => Ret self
  | state_ =>
      let missing := VarInt.saturating_sub (highest_requested_connection_flow_control_window self)
                       (acquired_connection_flow_controller_window self) in
      if 0 <? missing then
        let! '(connection, acquired) := Outgoing.acquire_window (connection_flow_controller self) missing in
        let! window := VarInt.add (acquired_connection_flow_controller_window self) acquired in
        let state_ :=
          match state_ with BlockedOnConnectionWindow => if 0 <? acquired then Ready else state_ | _ => state_ end in
        Ret (mk connection window (highest_requested_connection_flow_control_window self) (max_stream_data self) state_
               (stream_data_blocked_sync self))
      else Ret self
  end.

Definition available_window (self : t) : Z := Z.min (max_stream_data self) (acquired_connection_flow_controller_window self).

Definition on_packet_ack (self : t) (contains : Z -> bool) : outcome t :=
  let! s := PeriodicSync.on_packet_ack (stream_data_blocked_sync self) contains in Ret (set_sync self s).
Definition on_packet_loss (self : t) (contains : Z -> bool) : t :=
  set_sync self (PeriodicSync.on_packet_loss (stream_data_blocked_sync self) contains).
Definition update_blocked_sync_period (self : t) (blocked_sync_period : Z) : t :=
  set_sync self (PeriodicSync.update_sync_period (stream_data_blocked_sync self) blocked_sync_period).

(** [StreamDataBlockedToFrameWriter]. *)
Definition stream_data_blocked_writer : FrameWriter Z := fun value stream_id =>
  Frame.StreamDataBlocked (StreamDataBlocked.mk stream_id value).

Definition on_transmit (self : t) (stream_id : Z) (context : Writer) : outcome (transmitted t) :=
  if is_ack_eliciting (ack_elicitation context) && PeriodicSync.has_delivered (stream_data_blocked_sync self) then
    let! s := PeriodicSync.skip_delivery (stream_data_blocked_sync self) (current_time context) in
    Ret (set_sync self s, Ok tt, [])
  else
    let '(s, r, fs) := PeriodicSync.on_transmit stream_data_blocked_writer (stream_data_blocked_sync self) stream_id context in
    Ret (set_sync self s, r, fs).
Definition on_timeout (self : t) (now : Z) : outcome t :=
  let! s := PeriodicSync.on_timeout (stream_data_blocked_sync self) now in Ret (set_sync self s).
Definition transmission_interest (self : t) : list Interest :=
  PeriodicSync.transmission_interest (stream_data_blocked_sync self).

(** [impl OutgoingDataFlowController for StreamFlowController]. *)
Definition is_finished (self : t) : bool := match state self with FlowFinished => true | _ => false end.

Definition acquire_flow_control_window (self : t) (end_offset : Z) : outcome (Z * t) :=
  let! _ := rassert (negb (is_finished self)) in
  let self := set_state self Ready in
  let! self :=
    if max_stream_data self <? end_offset then
      let! s := PeriodicSync.request_delivery (stream_data_blocked_sync self) (max_stream_data self) in
      Ret (set_sync (set_state self BlockedOnStreamWindow) s)
    else Ret self in
  let self := mk (connection_flow_controller self) (acquired_connection_flow_controller_window self)
                (Z.max end_offset (highest_requested_connection_flow_control_window self)) (max_stream_data self)
                (state self) (stream_data_blocked_sync self) in
  let! self := try_acquire_connection_window self in
  let self :=
    if acquired_connection_flow_controller_window self <? end_offset then set_state self BlockedOnConnectionWindow
    else self in
  Ret (available_window self, self).
Definition is_blocked (self : t) : bool :=
  match state self with BlockedOnConnectionWindow | BlockedOnStreamWindow => true | _ => false end.
Definition clear_blocked (self : t) : t :=
  let self := if is_finished self then self else set_state self Ready in
  set_sync self (PeriodicSync.stop_sync (stream_data_blocked_sync self)).
Definition finish (self : t) : t :=
  set_sync (set_state self FlowFinished) (PeriodicSync.stop_sync (stream_data_blocked_sync self)).
End StreamFlow.

Definition stream_flow_controller : DataFlowController StreamFlow.t := {|
  acquire_flow_control_window := StreamFlow.acquire_flow_control_window;
  is_blocked := StreamFlow.is_blocked;
  clear_blocked := StreamFlow.clear_blocked;
  finish_flow := StreamFlow.finish
|}.
