(* ===== verification/StreamFlowThm.v ===== *)
(** * Theorems on stream flow control

    [StreamFlowController] obeys the laws the data sender relies on, and takes
    from the connection what it hands out. *)
From S2P Require Import Prelude Codec VarInt PacketNumber FrameAck Frames Time Transmission Recovery Sync FlowControl FlowControlThm Transmissions DataWriter StreamFlow.

(** The sync of a value that may be older than the [limit]. *)
Definition blocked_ok (limit : Z) (s : PeriodicSync.t) : Prop := exists v, v <= limit /\ ps_ok v s.

Definition connection_ok (c : Outgoing.t) : Prop :=
  0 <= Outgoing.available_window c <= Outgoing.total_available_window c
  /\ Outgoing.total_available_window c <= VarInt.MAX
  /\ ps_ok (Outgoing.total_available_window c) (Outgoing.data_blocked_sync c).

Record stream_flow_ok (f : StreamFlow.t) : Prop := {
  sf_connection : connection_ok (StreamFlow.connection_flow_controller f);
  sf_window : 0 <= StreamFlow.acquired_connection_flow_controller_window f
    <= StreamFlow.highest_requested_connection_flow_control_window f;
  sf_highest : StreamFlow.highest_requested_connection_flow_control_window f <= VarInt.MAX;
  sf_max : varint_ok (StreamFlow.max_stream_data f);
  sf_sync : blocked_ok (StreamFlow.max_stream_data f) (StreamFlow.stream_data_blocked_sync f)
}.

Lemma ps_raise limit s v :
  ps_ok v s -> v <= limit -> exists s', PeriodicSync.request_delivery s limit = Ret s' /\ ps_ok limit s'.
Proof.
  intros (H1 & H2 & H3 & H4 & H5) Hv. unfold PeriodicSync.request_delivery. rewrite (proj2 (Z.leb_le _ _)) by lia. cbn [rassert obind].
  eexists; split; [reflexivity |].
  destruct (PeriodicSync.delivery s) eqn:E; unfold ps_ok, active; cbn; rewrite ?E; split_and!; try lia; naive_solver.
Qed.

Lemma blocked_stop limit s : blocked_ok limit s -> blocked_ok limit (PeriodicSync.stop_sync s).
Proof. intros (v & Hv & Hs). exists v. split; [done |]. by apply (ps_stop_ok v v). Qed.
Lemma blocked_mono limit limit' s : limit <= limit' -> blocked_ok limit s -> blocked_ok limit' s.
Proof. intros Hl (v & Hv & Hs). exists v. split; [lia | done]. Qed.

(** The connection's window goes to the stream. *)
Lemma connection_acquire_ok c desired :
  connection_ok c -> 0 <= desired ->
  returns (Outgoing.acquire_window c desired) (fun '(c', got) =>
    connection_ok c' /\ got = Z.min (Outgoing.available_window c) desired
    /\ Outgoing.available_window c' = Outgoing.available_window c - got
    /\ Outgoing.total_available_window c' = Outgoing.total_available_window c).
Proof.
  intros (Ha & Ht & Hs) Hd. unfold Outgoing.acquire_window. rewrite varint_sub_Ret by lia. cbn [obind].
  destruct (Z.ltb_spec (Z.min (Outgoing.available_window c) desired) desired).
  - destruct (ps_request_ok _ _ Hs) as (s' & -> & Hs' & _). apply returns_ret. cbn. split_and!; try done; split_and!; cbn; done || lia.
  - apply returns_ret. cbn. split_and!; try done; split_and!; cbn; done || lia.
Qed.

(** A state of the same stream in which the connection has given up what the
    stream has gained. *)
Record moved (f f' : StreamFlow.t) : Prop := {
  moved_total : Outgoing.total_available_window (StreamFlow.connection_flow_controller f')
    = Outgoing.total_available_window (StreamFlow.connection_flow_controller f);
  moved_window : StreamFlow.acquired_connection_flow_controller_window f'
      + Outgoing.available_window (StreamFlow.connection_flow_controller f')
    = StreamFlow.acquired_connection_flow_controller_window f
      + Outgoing.available_window (StreamFlow.connection_flow_controller f);
  moved_up : StreamFlow.acquired_connection_flow_controller_window f <= StreamFlow.acquired_connection_flow_controller_window f';
  moved_max : StreamFlow.max_stream_data f' = StreamFlow.max_stream_data f
}.

Lemma moved_refl f : moved f f.
Proof. split; lia. Qed.
Lemma moved_trans f g h : moved f g -> moved g h -> moved f h.
Proof. intros [] []. split; lia. Qed.

Lemma try_acquire_ok f :
  stream_flow_ok f ->
  returns (StreamFlow.try_acquire_connection_window f) (fun f' =>
    stream_flow_ok f' /\ moved f f'
    /\ StreamFlow.highest_requested_connection_flow_control_window f' = StreamFlow.highest_requested_connection_flow_control_window f
    /\ (StreamFlow.state f' = StreamFlow.state f \/ StreamFlow.state f = BlockedOnConnectionWindow /\ StreamFlow.state f' = Ready)).
Proof.
  intros H. pose proof H as [Hc Hw Hh Hm Hs]. unfold StreamFlow.try_acquire_connection_window.
  assert (Hsame : returns (Ret f) (fun f' => stream_flow_ok f' /\ moved f f'
    /\ StreamFlow.highest_requested_connection_flow_control_window f' = StreamFlow.highest_requested_connection_flow_control_window f
    /\ (StreamFlow.state f' = StreamFlow.state f \/ StreamFlow.state f = BlockedOnConnectionWindow /\ StreamFlow.state f' = Ready))).
  { apply returns_ret. split; [done |]. split; [apply moved_refl |]. split; [done | by left]. }
  set (missing := VarInt.saturating_sub _ _).
  assert (Hmis : missing = StreamFlow.highest_requested_connection_flow_control_window f - StreamFlow.acquired_connection_flow_controller_window f)
    by (unfold missing, VarInt.saturating_sub, saturating_sub; lia).
  destruct (Z.ltb_spec 0 missing) as [Hlt |]; [| by destruct (StreamFlow.state f)].
  destruct (connection_acquire_ok _ missing Hc ltac:(lia)) as ([c' got] & E & Hc' & Hg & Ha & Ht). rewrite E. cbn [obind]. pose proof Hc as ([Hav _] & _).
  rewrite varint_add_Ret by (unfold VarInt.MAX in *; lia). cbn [obind].
  destruct (StreamFlow.state f) eqn:Est; try exact Hsame; apply returns_ret.
  all: split; [split; cbn [StreamFlow.connection_flow_controller StreamFlow.acquired_connection_flow_controller_window
         StreamFlow.highest_requested_connection_flow_control_window StreamFlow.max_stream_data StreamFlow.stream_data_blocked_sync]; done || lia |].
  all: split; [split; cbn; destruct Hc; lia |]. 
  all: split; [done |]; cbn; try (by left). destruct (0 <? got); [by right | by left].
Qed.

Lemma stream_acquire_ok f e :
  stream_flow_ok f -> StreamFlow.state f <> FlowFinished -> varint_ok e ->
  returns (StreamFlow.acquire_flow_control_window f e) (fun '(w, f') =>
    stream_flow_ok f' /\ moved f f' /\ StreamFlow.state f' <> FlowFinished /\ w = StreamFlow.available_window f'
    /\ (w < e -> StreamFlow.is_blocked f' = true)).
Proof.
  intros H Hst He. pose proof H as [Hc Hw Hh Hm Hs]. unfold StreamFlow.acquire_flow_control_window.
  assert (StreamFlow.is_finished f = false) as -> by (unfold StreamFlow.is_finished; by destruct (StreamFlow.state f)). cbn [negb rassert obind].
  assert (Hreq : returns (if StreamFlow.max_stream_data (StreamFlow.set_state f Ready) <? e then
      let! s := PeriodicSync.request_delivery (StreamFlow.stream_data_blocked_sync (StreamFlow.set_state f Ready))
                  (StreamFlow.max_stream_data (StreamFlow.set_state f Ready)) in
      Ret (StreamFlow.set_sync (StreamFlow.set_state (StreamFlow.set_state f Ready) BlockedOnStreamWindow) s)
    else Ret (StreamFlow.set_state f Ready)) (fun f1 => stream_flow_ok f1 /\ moved f f1
      /\ StreamFlow.state f1 = if StreamFlow.max_stream_data f <? e then BlockedOnStreamWindow else Ready)).
  { cbn [StreamFlow.max_stream_data StreamFlow.set_state StreamFlow.stream_data_blocked_sync].
    destruct (StreamFlow.max_stream_data f <? e).
    - destruct Hs as (v & Hv & Hps). destruct (ps_raise (StreamFlow.max_stream_data f) _ v Hps Hv) as (s' & -> & Hs'). apply returns_ret.
      split; [split; cbn; try done; by exists (StreamFlow.max_stream_data f) |]. split; [split; cbn; lia | done].
    - apply returns_ret. split; [by split |]. split; [split; cbn; lia | done]. }
  rstep Hreq. intros f1 (H1 & Hmv1 & Est1). set (f2 := StreamFlow.mk _ _ _ _ _ _).
  assert (H2 : stream_flow_ok f2) by (destruct H1, He; split; cbn; unfold VarInt.MAX in *; done || lia).
  rstep (try_acquire_ok f2 H2). intros f3 (H3 & Hmv3 & Eh & Est3). apply returns_ret.
  assert (Hmv : moved f f3) by (apply (moved_trans f f2); [destruct Hmv1; by split | done]).
  assert (Hst3 : StreamFlow.state f3 = if StreamFlow.max_stream_data f <? e then BlockedOnStreamWindow else Ready).
  { cbn [f2 StreamFlow.state] in Est3. rewrite Est1 in Est3. destruct Est3 as [-> | [Eb _]]; [done |]. by destruct (_ <? _) in Eb. }
  destruct (Z.ltb_spec (StreamFlow.acquired_connection_flow_controller_window f3) e).
  - split; [destruct H3; by split |]. split; [destruct Hmv; by split |]. done.
  - split; [done |]. split; [done |]. rewrite Hst3. split; [by destruct (_ <? _) |]. split; [done |].
    unfold StreamFlow.available_window, StreamFlow.is_blocked. rewrite Hst3, (moved_max _ _ Hmv). intros Hlt.
    by rewrite (proj2 (Z.ltb_lt _ _)) by lia.
Qed.

(** ** The interface *)

#[refine] Instance stream_flow_spec : FlowControllerSpec StreamFlow.t (HF := stream_flow_controller) := {|
  flow_ok := stream_flow_ok;
  flow_open f := StreamFlow.state f <> FlowFinished;
  flow_limit := StreamFlow.available_window;
  flow_le := moved
|}.
Proof.
  - apply moved_refl.
  - apply moved_trans.
  - intros f f' [_ _ Hup Emax]. unfold StreamFlow.available_window. lia.
  - intros f [_ Hw _ [Hm _] _]. unfold StreamFlow.available_window. lia.
  - intros f e Hf Hst He. eapply returns_mono; [by apply (stream_acquire_ok f e) |]. intros [w f'] (H' & Hmv & Hst' & -> & Hb).
    split; [done |]. split; [done |]. pose proof H' as [_ Hw Hh [Hm Hm2] _].
    split; [unfold StreamFlow.available_window, varint_ok, VarInt.MAX in *; lia |]. done.
  - intros f Hf. cbn. unfold StreamFlow.clear_blocked. pose proof Hf as [Hc Hw Hh Hm Hs]. apply blocked_stop in Hs.
    destruct (StreamFlow.is_finished f) eqn:Ef; (split; [by split |]); (split; [done |]); (split; [done | split; cbn; lia]).
  - intros f [Hc Hw Hh Hm Hs]. cbn. split; [split; try done; by apply blocked_stop |]. split; [done | split; cbn; lia].
Defined.

(** When both limits were too low, a larger MAX_STREAM_DATA does not stop
    STREAM_DATA_BLOCKED, which keeps naming the limit of before. *)
Example blocked_after_larger_window :
  match StreamFlow.acquire_flow_control_window (StreamFlow.new (Outgoing.new 3) 4) 10 with
  | Ret (_, f) =>
      let f' := StreamFlow.set_max_stream_data f 20 in
      StreamFlow.max_stream_data f' = 20 /\ PeriodicSync.transmission_interest (StreamFlow.stream_data_blocked_sync f') <> []
      /\ StreamFlow.stream_data_blocked_sync f' = StreamFlow.stream_data_blocked_sync f
  | Panic => False
  end.
Proof. vm_compute. split_and!; reflexivity || discriminate. Qed.
