(* ===== verification/SendStreams.v ===== *)
(** * The streams of a connection

    Data senders with stream flow controllers that share the connection's flow
    controller: what the streams of a connection send together. *)
From stdpp Require Import gmap sets list.
From S2P Require Import Prelude Codec VarInt PacketNumber MapInterface PacketMap PacketMapThm Interval IntervalInsert IntervalSet VarIntSet FrameAck Frames FrameCodec Transmission TransmissionContext Recovery Sync FlowControl FlowControlThm SendBuffer SendBufferThm Transmissions TransmissionsThm DataSender DataWriter TransmitThm DataSenderThm DataSenderTransmit DataSenderReliable StreamFlow StreamFlowThm.

(** The sum over the streams of a connection. *)
Definition total {A} (m : gmap Z A) (g : A -> Z) : Z := map_fold (fun _ W acc => g W + acc) 0 m.

Lemma total_insert {A} (m : gmap Z A) g id W : m !! id = None -> total (<[id:=W]> m) g = g W + total m g.
Proof. intros H. unfold total. rewrite map_fold_insert_L; [done | intros; lia | done]. Qed.
Lemma total_delete {A} (m : gmap Z A) g id W : m !! id = Some W -> total m g = g W + total (delete id m) g.
Proof. intros H. unfold total. rewrite (map_fold_delete_L _ _ id W); [done | intros; lia | done]. Qed.
Lemma total_update {A} (m : gmap Z A) g id W : total (<[id:=W]> m) g = total m g - from_option g 0 (m !! id) + g W.
Proof.
  destruct (m !! id) as [W0 |] eqn:Eid; cbn.
  - rewrite <- insert_delete_eq, total_insert by apply lookup_delete_eq. rewrite (total_delete m g id W0 Eid). lia.
  - rewrite total_insert by done. lia.
Qed.
Lemma total_le {A} (m : gmap Z A) g h : (forall id W, m !! id = Some W -> g W <= h W) -> total m g <= total m h.
Proof.
  induction m as [| id W m Hid IH] using map_ind; intros H; [done |]. rewrite !total_insert by done.
  pose proof (H id W (lookup_insert_eq _ _ _)). enough (total m g <= total m h) by lia.
  apply IH. intros id' W' H'. apply (H id'). rewrite lookup_insert_ne; [done | congruence].
Qed.

Section Streams.
Context {E B : Type} `{HB : Bytes B, !BytesSpec B} (be : bool) (capacity : Z -> Z).

#[local] Existing Instance stream_flow_controller.
#[local] Existing Instance stream_flow_spec.
#[local] Instance the_writer : ChunkWriter Z B := stream_writer be.
#[local] Instance the_writer_spec : ChunkWriterSpec Z B (HC := the_writer) := stream_writer_spec be.

Local Abbreviation world := (DataSenderReliable.world (E := E) (F := StreamFlow.t) (B := B)).
Local Abbreviation event := (DataSenderReliable.event (E := E) (F := StreamFlow.t) (B := B)).

(** ** The connection *)

Definition flow (W : world) : StreamFlow.t := DataSender.flow_controller (sender W).
Definition acquired (W : world) : Z := StreamFlow.acquired_connection_flow_controller_window (flow W).

(** The stream sees the connection's flow controller as it is now. *)
Definition with_connection (o : Outgoing.t) (f : StreamFlow.t) : StreamFlow.t :=
  StreamFlow.mk o (StreamFlow.acquired_connection_flow_controller_window f)
    (StreamFlow.highest_requested_connection_flow_control_window f) (StreamFlow.max_stream_data f) (StreamFlow.state f)
    (StreamFlow.stream_data_blocked_sync f).
Definition set_flow (W : world) (f : StreamFlow.t) : world :=
  mk_world (with_flow (sender W) f) (stream W) (sent W) (delivered W) (last W).
Definition attach (o : Outgoing.t) (W : world) : world := set_flow W (with_connection o (flow W)).

Record connection := mk_connection { outgoing : Outgoing.t; streams : gmap Z world }.

Inductive input :=
| OpenStream (id initial_window max_buffer_capacity : Z)
| OnStream (id : Z) (ev : event)
| OnMaxData (maximum_data : Z)
| OnMaxStreamData (id maximum_stream_data : Z)
| OnConnectionWindowAvailable (id : Z).

(** The stream gives the connection's flow controller back. *)
Definition put (K : connection) (id : Z) (W : world) : connection :=
  mk_connection (StreamFlow.connection_flow_controller (flow W)) (<[id:=W]> (streams K)).

Definition step (i : input) (K : connection) : outcome connection :=
  match i with
  | OpenStream id initial_window max_buffer_capacity =>
      Ret (put K id (start capacity (StreamFlow.new (outgoing K) initial_window) max_buffer_capacity))
  | OnStream id ev =>
      match streams K !! id with
      | None => Ret K
      | Some W => let! W := exec capacity id ev (attach (outgoing K) W) in Ret (put K id W)
      end
  | OnMaxData maximum_data =>
      let! o := Outgoing.on_max_data (outgoing K) (MaxData.mk maximum_data) in Ret (mk_connection o (streams K))
  | OnMaxStreamData id maximum_stream_data =>
      match streams K !! id with
      | None => Ret K
      | Some W =>
          Ret (put K id (set_flow W (StreamFlow.set_max_stream_data (with_connection (outgoing K) (flow W)) maximum_stream_data)))
      end
  | OnConnectionWindowAvailable id =>
      match streams K !! id with
      | None => Ret K
      | Some W =>
          let! f := StreamFlow.try_acquire_connection_window (with_connection (outgoing K) (flow W)) in
          Ret (put K id (set_flow W f))
      end
  end.
Fixpoint steps (is_ : list input) (K : connection) : outcome connection :=
  match is_ with [] => Ret K | i :: is_ => let! K := step i K in steps is_ K end.

Definition own_event (ev : event) : bool := match ev with Flow _ | AllLost => false | _ => true end.

Definition valid_input (i : input) (K : connection) : Prop :=
  match i with
  | OpenStream id initial_window _ => varint_ok id /\ varint_ok initial_window /\ streams K !! id = None
  | OnStream id ev => own_event ev = true
      /\ forall W, streams K !! id = Some W -> valid ApplicationData ev (attach (outgoing K) W)
  | OnMaxData v | OnMaxStreamData _ v => varint_ok v
  | OnConnectionWindowAvailable _ => True
  end.
Fixpoint valid_inputs (is_ : list input) (K : connection) : Prop :=
  match is_ with
  | [] => True
  | i :: is_ => valid_input i K /\ forall K', step i K = Ret K' -> valid_inputs is_ K'
  end.

(** ** What was sent and what was granted *)

(** The end of the data sent on a stream. *)
Definition frame_end (f : frame) : Z :=
  match f with Frame.Stream s => Stream.offset s + blen (Stream.data s) | _ => 0 end.
Definition sent_end (W : world) : Z := foldr (fun p acc => Z.max (frame_end p.2) acc) 0 (sent W).

(** The limits of the peer. *)
Definition max_data (i : input) (v : Z) : Z := match i with OnMaxData v' => Z.max v v' | _ => v end.
Definition max_stream_data (id : Z) (i : input) (v : Z) : Z :=
  match i with
  | OpenStream id' v' _ => if decide (id' = id) then v' else v
  | OnMaxStreamData id' v' => if decide (id' = id) then Z.max v v' else v
  | _ => v
  end.

(** ** The invariant *)

Hypothesis capacity_ok : forall n, 0 < n < 2 ^ 63 -> n <= capacity n < 2 ^ 63.

Record streams_ok (K : connection) : Prop := {
  ss_outgoing : connection_ok (outgoing K);
  ss_streams id W : streams K !! id = Some W -> varint_ok id /\ exists A, world_ok ApplicationData id W A;
  ss_total : total (streams K) acquired + Outgoing.available_window (outgoing K) = Outgoing.total_available_window (outgoing K)
}.

Lemma stream_context_ok id : varint_ok id -> context_ok id.
Proof. intros H. unfold the_writer_spec, stream_writer_spec. exact H. Qed.

(** A stream of the connection is changed. *)
Lemma put_ok K id W' :
  streams_ok K -> varint_ok id -> (exists A, world_ok ApplicationData id W' A) ->
  Outgoing.total_available_window (StreamFlow.connection_flow_controller (flow W')) = Outgoing.total_available_window (outgoing K) ->
  acquired W' + Outgoing.available_window (StreamFlow.connection_flow_controller (flow W'))
    = from_option acquired 0 (streams K !! id) + Outgoing.available_window (outgoing K) ->
  streams_ok (put K id W').
Proof.
  intros [Ho Hs Ht] Hid [A HW] Etot Eav. split; cbn [put outgoing streams].
  - apply (sf_connection _ (so_flow _ _ _ _ _ (wo_sender _ _ _ _ HW))).
  - intros id' W. destruct (decide (id' = id)) as [-> |]; [rewrite lookup_insert_eq; intros [= <-]; split; [done | by exists A] |].
    rewrite lookup_insert_ne by done. apply Hs.
  - rewrite total_update. lia.
Qed.

Lemma set_flow_ok id W A f :
  world_ok ApplicationData id W A -> stream_flow_ok f -> StreamFlow.available_window (flow W) <= StreamFlow.available_window f ->
  (StreamFlow.state (flow W) <> FlowFinished -> StreamFlow.state f <> FlowFinished) ->
  exists A', world_ok ApplicationData id (set_flow W f) A'.
Proof.
  intros HW Hf Hl Hst. destruct (exec_flow_ok capacity ApplicationData id W A f HW) as (W1 & E1 & HW1); [by split |].
  destruct W. cbn in E1. injection E1 as <-. exact HW1.
Qed.

Lemma with_connection_ok o f : connection_ok o -> stream_flow_ok f -> stream_flow_ok (with_connection o f).
Proof. intros Ho []. by split. Qed.

Lemma attach_ok id W A o :
  world_ok ApplicationData id W A -> connection_ok o -> exists A', world_ok ApplicationData id (attach o W) A'.
Proof.
  intros HW Ho. apply (set_flow_ok id W A); [done | | done | done].
  apply with_connection_ok; [done | apply (so_flow _ _ _ _ _ (wo_sender _ _ _ _ HW))].
Qed.

(** ** Every step keeps it *)

(** The limits change as the peer says. *)
Definition follows (i : input) (K K' : connection) : Prop :=
  Outgoing.total_available_window (outgoing K') = max_data i (Outgoing.total_available_window (outgoing K))
  /\ forall id W', streams K' !! id = Some W' ->
       StreamFlow.max_stream_data (flow W')
       = max_stream_data id i (from_option (fun W => StreamFlow.max_stream_data (flow W)) 0 (streams K !! id)).

Lemma put_follows i K id W' :
  Outgoing.total_available_window (StreamFlow.connection_flow_controller (flow W')) = Outgoing.total_available_window (outgoing K) ->
  (forall v, max_data i v = v) -> (forall id' v, id' <> id -> max_stream_data id' i v = v) ->
  StreamFlow.max_stream_data (flow W')
    = max_stream_data id i (from_option (fun W => StreamFlow.max_stream_data (flow W)) 0 (streams K !! id)) ->
  follows i K (put K id W').
Proof.
  intros Et Hd Hs Em. split; [cbn; by rewrite Hd |]. intros id' W. cbn [put streams]. destruct (decide (id' = id)) as [-> | Hne].
  - rewrite lookup_insert_eq. by intros [= <-].
  - rewrite lookup_insert_ne by done. intros ->. cbn. by rewrite Hs.
Qed.

Lemma follows_same i K :
  (forall v, max_data i v = v) -> (forall id v, is_Some (streams K !! id) -> max_stream_data id i v = v) -> follows i K K.
Proof. intros Hd Hs. split; [by rewrite Hd |]. intros id W Hid. rewrite Hs by (by rewrite Hid). by rewrite Hid. Qed.

Lemma step_stream_ok K id ev :
  streams_ok K -> valid_input (OnStream id ev) K -> returns (step (OnStream id ev) K) (fun K' => streams_ok K' /\ follows (OnStream id ev) K K').
Proof.
  intros HK [Hown Hv]. cbn [step]. destruct (streams K !! id) as [W |] eqn:Eid; [| apply returns_ret; split; [done | by apply follows_same]].
  destruct (ss_streams _ HK id W Eid) as [Hid [A HW]]. destruct (attach_ok id W A (outgoing K) HW (ss_outgoing _ HK)) as [A1 H1].
  rstep (world_exec_ok capacity ApplicationData id capacity_ok (stream_context_ok id Hid) ev _ A1 H1 (Hv W eq_refl)). intros W' Hafter.
  assert (Ha : after ApplicationData id (attach (outgoing K) W) W') by (by destruct ev). destruct Ha as [HW' [Et Ew Hup Em]]. apply returns_ret.
  cbn [attach set_flow sender with_flow DataSender.flow_controller with_connection StreamFlow.connection_flow_controller
    StreamFlow.acquired_connection_flow_controller_window StreamFlow.max_stream_data] in Et, Ew, Hup, Em. split.
  - apply put_ok; [done | done | done | done |]. rewrite Eid. exact Ew.
  - apply put_follows; [done | done | done |]. rewrite Eid. exact Em.
Qed.

Lemma step_window_ok K id :
  streams_ok K -> returns (step (OnConnectionWindowAvailable id) K) (fun K' => streams_ok K' /\ follows (OnConnectionWindowAvailable id) K K').
Proof.
  intros HK. cbn [step]. destruct (streams K !! id) as [W |] eqn:Eid; [| apply returns_ret; split; [done | by apply follows_same]].
  destruct (ss_streams _ HK id W Eid) as [Hid [A HW]]. pose proof (so_flow _ _ _ _ _ (wo_sender _ _ _ _ HW)) as Hf.
  rstep (try_acquire_ok (with_connection (outgoing K) (flow W))); [apply with_connection_ok; [apply HK | done] |].
  intros f (Hf' & [Et Ew Hup Em] & _ & Est). apply returns_ret. cbn in Et, Ew, Hup, Em, Est.
  destruct (set_flow_ok id W A f HW Hf') as [A' HW']; [unfold StreamFlow.available_window; lia | by destruct Est as [-> | [_ ->]] |].
  split.
  - apply put_ok; [done | done | by exists A' | done |]. rewrite Eid. exact Ew.
  - apply put_follows; [done | done | done |]. rewrite Eid. exact Em.
Qed.

Lemma set_max_ok f v :
  stream_flow_ok f -> varint_ok v ->
  let f' := StreamFlow.set_max_stream_data f v in
  stream_flow_ok f' /\ StreamFlow.max_stream_data f' = Z.max (StreamFlow.max_stream_data f) v
  /\ StreamFlow.connection_flow_controller f' = StreamFlow.connection_flow_controller f
  /\ StreamFlow.acquired_connection_flow_controller_window f' = StreamFlow.acquired_connection_flow_controller_window f
  /\ (StreamFlow.state f <> FlowFinished -> StreamFlow.state f' <> FlowFinished).
Proof.
  intros H Hv f'. pose proof H as [Hc Hw Hh Hm Hs]. unfold f', StreamFlow.set_max_stream_data. clear f'.
  destruct (Z.leb_spec v (StreamFlow.max_stream_data f)); [split_and!; try done; lia |].
  apply (blocked_mono _ v) in Hs; [| lia]. cbn [StreamFlow.state].
  destruct (StreamFlow.state f) eqn:Est; cbn; rewrite ?Est; (split_and!; [split; cbn; try done; by apply blocked_stop | lia | done | done | done]).
Qed.

Lemma step_max_stream_ok K id v :
  streams_ok K -> varint_ok v -> returns (step (OnMaxStreamData id v) K) (fun K' => streams_ok K' /\ follows (OnMaxStreamData id v) K K').
Proof.
  intros HK Hv. cbn [step]. destruct (streams K !! id) as [W |] eqn:Eid.
  2: { apply returns_ret. split; [done |]. apply follows_same; [done |]. intros id' v' [W' HW']. cbn. case_decide; congruence. }
  destruct (ss_streams _ HK id W Eid) as [Hid [A HW]]. pose proof (so_flow _ _ _ _ _ (wo_sender _ _ _ _ HW)) as Hf.
  destruct (set_max_ok (with_connection (outgoing K) (flow W)) v) as (Hf' & Em & Ec & Ea & Est); [apply with_connection_ok; [apply HK | done] | done |].
  set (f' := StreamFlow.set_max_stream_data _ v) in *. apply returns_ret. cbn in Em, Ec, Ea, Est.
  destruct (set_flow_ok id W A f' HW Hf') as [A' HW']; [unfold StreamFlow.available_window; lia | done |]. split.
  - apply put_ok; [done | done | by exists A' | cbn; by rewrite Ec |]. rewrite Eid. unfold acquired, flow. cbn. rewrite Ec, Ea. done.
  - apply put_follows; [cbn; by rewrite Ec | done | intros id' v' Hne; cbn; by rewrite decide_False by done |].
    rewrite Eid. cbn. rewrite decide_True by done. exact Em.
Qed.

Lemma step_max_data_ok K v :
  streams_ok K -> varint_ok v -> returns (step (OnMaxData v) K) (fun K' => streams_ok K' /\ follows (OnMaxData v) K K').
Proof.
  intros [(Ha & Ht & Hps) Hs Htot] [Hv0 Hv]. cbn [step]. unfold Outgoing.on_max_data. cbn [MaxData.maximum_data].
  destruct (Z.leb_spec v (Outgoing.total_available_window (outgoing K))).
  - apply returns_ret. destruct K as [o m]. split; [by split |]. split; [cbn in *; lia |]. cbn. intros id W ->. done.
  - rewrite varint_sub_Ret by lia. cbn [obind]. rewrite varint_add_Ret by lia. apply returns_ret. split; [split |]; cbn [outgoing streams].
    + split; cbn; [lia |]. split; [unfold VarInt.MAX; lia |]. apply (ps_stop_ok (Outgoing.total_available_window (outgoing K))); [done | lia].
    + exact Hs.
    + cbn. lia.
    + split; [cbn; lia |]. cbn. intros id W ->. done.
Qed.

Lemma step_open_ok K id initial max_buffer :
  streams_ok K -> valid_input (OpenStream id initial max_buffer) K ->
  returns (step (OpenStream id initial max_buffer) K) (fun K' => streams_ok K' /\ follows (OpenStream id initial max_buffer) K K').
Proof.
  intros HK (Hid & Hinit & Enone). cbn [step]. apply returns_ret.
  assert (Hf : stream_flow_ok (StreamFlow.new (outgoing K) initial)).
  { split; cbn; try done; [apply HK |]. exists 0. split; [apply Hinit |]. by apply ps_new_ok. }
  pose proof (start_ok capacity ApplicationData id capacity_ok (E := E) (StreamFlow.new (outgoing K) initial) max_buffer Hf) as Hst. split.
  - apply put_ok; [done | done | eexists; by apply Hst | done |]. rewrite Enone. cbn. lia.
  - apply put_follows; [done | done | intros id' v Hne; cbn; by rewrite decide_False by congruence |]. cbn. by rewrite decide_True.
Qed.

Lemma connection_step_ok i K : streams_ok K -> valid_input i K -> returns (step i K) (fun K' => streams_ok K' /\ follows i K K').
Proof.
  intros HK Hv. destruct i; [by apply step_open_ok | by apply step_stream_ok | by apply step_max_data_ok | by apply step_max_stream_ok | by apply step_window_ok].
Qed.

(** ** A whole connection *)

Lemma max_stream_data_mono id i v v' : v <= v' -> max_stream_data id i v <= max_stream_data id i v'.
Proof. intros H. destruct i; cbn; try case_decide; lia. Qed.
Lemma granted_mono id is_ : forall v v', v <= v' ->
  foldl (fun v i => max_stream_data id i v) v is_ <= foldl (fun v i => max_stream_data id i v) v' is_.
Proof. induction is_ as [| i is_ IH]; intros v v' H; [done |]. apply IH. by apply max_stream_data_mono. Qed.

Local Abbreviation window_of K id := (from_option (fun W => StreamFlow.max_stream_data (flow W)) 0 (streams K !! id)).

Lemma connection_run_ok is_ : forall K,
  streams_ok K -> valid_inputs is_ K ->
  returns (steps is_ K) (fun K' => streams_ok K'
    /\ Outgoing.total_available_window (outgoing K') = foldl (fun v i => max_data i v) (Outgoing.total_available_window (outgoing K)) is_
    /\ forall id W, streams K' !! id = Some W ->
         StreamFlow.max_stream_data (flow W) <= foldl (fun v i => max_stream_data id i v) (window_of K id) is_).
Proof.
  induction is_ as [| i is_ IH]; intros K HK Hv.
  { apply returns_ret. split; [done |]. split; [done |]. intros id W ->. done. }
  destruct Hv as [Hv Hrest]. cbn [steps foldl]. destruct (connection_step_ok i K HK Hv) as (K1 & E1 & HK1 & Et & Hw). rewrite E1. cbn [obind].
  eapply returns_mono; [apply (IH K1 HK1), (Hrest K1 E1) |]. intros K' (HK' & -> & Hs). rewrite Et. split_and!; [done | done |].
  intros id W HW. etransitivity; [apply (Hs id W HW) |]. apply granted_mono.
  destruct (streams K1 !! id) as [W1 |] eqn:EW; cbn [from_option]; [rewrite (Hw id W1 EW); done |].
  assert (Hz : 0 <= window_of K id).
  { destruct (streams K !! id) as [W0 |] eqn:E0; [| done]. destruct (ss_streams _ HK id W0 E0) as [_ [A HW0]].
    apply (sf_max _ (so_flow _ _ _ _ _ (wo_sender _ _ _ _ HW0))). }
  destruct i; cbn in Hv |- *; try case_decide; try lia. apply Hv.
Qed.

Lemma sent_end_le W limit : 0 <= limit -> (forall m f, (m, f) ∈ sent W -> frame_end f <= limit) -> sent_end W <= limit.
Proof.
  intros H0. unfold sent_end. generalize (sent W) as L. induction L as [| [m f] L IH]; intros H; cbn; [done |].
  pose proof (H m f (list_elem_of_here _ _)). assert (forall m f, (m, f) ∈ L -> frame_end f <= limit) as H' by (intros; eapply H; by right).
  specialize (IH H'). lia.
Qed.

Lemma genuine_end id D limit (st : SenderState.t E) f : genuine id D limit st f -> frame_end f <= limit.
Proof.
  intros (a & len & fin & [last ->] & _ & Ha & Hl & He & Hlim & _). cbn. by rewrite blen_slice.
Qed.

Lemma stream_sent_ok id W A :
  world_ok ApplicationData id W A -> sent_end W <= acquired W /\ sent_end W <= StreamFlow.max_stream_data (flow W).
Proof.
  intros HW. enough (sent_end W <= StreamFlow.available_window (flow W)) by (unfold StreamFlow.available_window, acquired in *; lia).
  apply sent_end_le; [apply (flow_limit_nonneg _ (so_flow _ _ _ _ _ (wo_sender _ _ _ _ HW))) |].
  intros m f Hm. destruct (wo_sent _ _ _ _ HW m f Hm) as [_ Hg]. by apply genuine_end in Hg.
Qed.

(** A connection before the first stream. *)
Definition initial (initial_max_data : Z) : connection := mk_connection (Outgoing.new initial_max_data) ∅.
Lemma initial_ok v : varint_ok v -> streams_ok (initial v).
Proof.
  intros [H0 H1]. split; cbn; [| done | unfold total; rewrite map_fold_empty; lia].
  split_and!; cbn; try lia; [done | by apply ps_new_ok].
Qed.

(** C3: the streams of a connection share the flow control credit of the
    connection.  Whatever streams are opened and whatever happens on them in
    whatever order, no sender panics, all streams together never send beyond the
    largest MAX_DATA of the peer, no stream sends beyond the largest
    MAX_STREAM_DATA for it, and each stream is delivered reliably. *)
Theorem send_streams_flow_control initial_max_data inputs :
  varint_ok initial_max_data -> valid_inputs inputs (initial initial_max_data) ->
  returns (steps inputs (initial initial_max_data)) (fun K =>
    total (streams K) sent_end <= foldl (fun v i => max_data i v) initial_max_data inputs
    /\ forall id W, streams K !! id = Some W ->
         sent_end W <= foldl (fun v i => max_stream_data id i v) 0 inputs /\ reliable id W).
Proof.
  intros Hv Hin. eapply returns_mono; [exact (connection_run_ok inputs _ (initial_ok _ Hv) Hin) |]. intros K (HK & Et & Hs). split.
  - cbn in Et. rewrite <- Et, <- (ss_total _ HK). destruct (ss_outgoing _ HK) as (? & _). etransitivity; [apply (total_le _ _ acquired) | lia].
    intros id W HW. destruct (ss_streams _ HK id W HW) as [_ [A Hok]]. apply (stream_sent_ok id W A Hok).
  - intros id W HW. destruct (ss_streams _ HK id W HW) as [_ [A Hok]]. split; [| by eapply world_reliable].
    etransitivity; [apply (stream_sent_ok id W A Hok) |]. by apply (Hs id W).
Qed.
End Streams.

(** ** Two streams and a small window *)

Local Abbreviation the_input := (input (E := unit) (B := list Z)).
Definition sample_inputs : list the_input :=
  [OpenStream 0 10 100; OpenStream 4 4 100; OnStream 0 (Push [1; 2; 3]); OnStream 4 (Push [4; 5; 6; 7; 8]);
   OnStream 0 (Transmit (packet_writer ApplicationData 0) 0); OnStream 4 (Transmit (packet_writer ApplicationData 1) 1);
   OnMaxData 20; OnConnectionWindowAvailable 4; OnStream 4 (Transmit (packet_writer ApplicationData 2) 2);
   OnStream 4 (Ack (packet_number_set (PacketNumber.from_varint 1 ApplicationData)) 1 1)].

Lemma sample_valid_inputs i (is_ : list the_input) K K' :
  valid_input true i K -> step true (fun n => n) i K = Ret K' -> valid_inputs true (fun n => n) is_ K' -> valid_inputs true (fun n => n) (i :: is_) K.
Proof. intros Hv HK Hrest. split; [done |]. intros K0 HK0. by assert (K0 = K') as -> by congruence. Qed.

Ltac next_input :=
  eapply sample_valid_inputs;
    [lazymatch goal with
     | |- valid_input _ (OnStream _ _) _ =>
         split; [reflexivity |]; let HW := fresh "HW" in intros ? HW; vm_compute in HW; injection HW as <-; valid_event
     | |- _ => by vm_compute
     end
    | vm_compute; reflexivity |].

Lemma send_streams_flow_control_witness :
  exists K, steps true (fun n => n) sample_inputs (initial 5) = Ret K
    /\ total (streams K) sent_end = 7 /\ total (streams K) sent_end <= 20
    /\ (sent_end <$> streams K !! 4) = Some 4.
Proof.
  destruct (send_streams_flow_control true (fun n => n) ltac:(intros; lia) 5 sample_inputs ltac:(by vm_compute)) as (K & E & Ht & _).
  - unfold sample_inputs. do 10 next_input. exact I.
  - exists K. split; [exact E |]. split; [| split; [exact Ht |]]; vm_compute in E; injection E as <-; vm_compute; reflexivity.
Defined.
