(* ===== verification/StreamOps.v ===== *)
(** * Requests on streams

    [stream/ops.rs] and [stream/error.rs] of s2n-quic-core, the events and
    interests of a stream ([stream/stream_events.rs],
    [stream/stream_interests.rs]).  A waker is its identity; the place in the
    code that goes with an error is left out. *)
From S2P Require Import Prelude Frames Transmission.

Section Error.
(** [connection::Error]. *)
Context {CE : Type}.
Inductive StreamError :=
| InvalidStream
| StreamReset (error : Z)
| SendAfterFinish
| MaxStreamDataSizeExceeded
| ConnectionError (error : CE)
| NonReadable
| NonWritable
| SendingBlocked
| NonEmptyOutput.

Inductive Status := Open | Finishing | Finished | Resetting | Reset (error : StreamError).
End Error.
Arguments StreamError : clear implicits.
Arguments Status : clear implicits.

(** [ops::Bytes] and [ops::Chunks]. *)
Record Amount := mk_amount { consumed : Z; available : Z }.

(** [ops::rx]. *)
Module Rx.
Record Request := mk_request {
  chunks : option (list (list Z));
  low_watermark : Z;
  high_watermark : Z;
  stop_sending : option Z;
  detached : bool
}.
(** [rx::Response]; [tx::Response] has the same fields. *)
Section Response.
Context {CE : Type}.
Record Response := mk_response { r_bytes : Amount; r_chunks : Amount; will_wake : bool; status : Status CE }.
Definition default : Response := mk_response (mk_amount 0 0) (mk_amount 0 0) false Open.
End Response.
Arguments Response : clear implicits.
End Rx.

(** [ops::tx]. *)
Module Tx_.
Section Chunk.
Context {B : Type}.
Record Request := mk_request {
  chunks : option (list B);
  reset : option Z;
  flush : bool;
  finish : bool;
  detached : bool
}.
End Chunk.
Arguments Request : clear implicits.
End Tx_.

Record StreamEvents := mk_events { read_wake : option Z; write_wake : option Z }.
Definition store_read_waker (self : StreamEvents) (waker : Z) : StreamEvents := mk_events (Some waker) (write_wake self).
Definition store_write_waker (self : StreamEvents) (waker : Z) : StreamEvents := mk_events (read_wake self) (Some waker).

Record StreamInterests := mk_interests {
  connection_flow_control_credits : bool;
  stream_flow_control_credits : bool;
  retained : bool;
  delivery_notifications : bool;
  transmission : Interest
}.

(** [Query for TransmissionInterest]; the flag is [Err(QueryBreak)]. *)
Definition on_stream_interest (self interest : Interest) : outcome (Interest * bool) :=
  let! _ := rassert (match interest with Forced => false | _ => true end) in
  Ret (match self, interest with
       | LostData, _ | _, LostData => (LostData, true)
       | NewData, _ | _, NewData => (NewData, false)
       | _, _ => (self, false)
       end).
Fixpoint with_transmission (self : Interest) (reported : list Interest) : outcome Interest :=
  match reported with
  | [] => Ret self
  | i :: rest =>
      let! '(self, stop) := on_stream_interest self i in
      if stop then Ret self else with_transmission self rest
  end.

(** The packet after the frames [written]. *)
Definition resume (context : Writer) (written : list frame) : Writer := {|
  current_time := current_time context;
  transmission_constraint := transmission_constraint context;
  transmission_mode := transmission_mode context;
  remaining_capacity fs := remaining_capacity context (written ++ fs);
  write_frame fs f := write_frame context (written ++ fs) f;
  write_frame_forced fs f := write_frame_forced context (written ++ fs) f;
  write_fitted_frame fs f := write_fitted_frame context (written ++ fs) f;
  ack_elicitation := foldl (fun e f => Frame.ack_elicitation_or e (Frame.ack_elicitation f)) (ack_elicitation context) written;
  packet_number := packet_number context;
  header_len := header_len context;
  tag_len := tag_len context
|}.
