(* ===== verification/SendStream.v ===== *)
(** * The sending half of a stream

    [stream/send_stream.rs]: the state machine around a data sender, the reset
    frame, the writer that waits, and the requests of the application.  The flow
    controller is in StreamFlow.v; a waker is its identity, and packet numbers are
    all of the application space, so that the set of acknowledged packets is its
    membership function for the reset. *)
From S2P Require Import Prelude Codec VarInt PacketNumber Frames Time Transmission Recovery Sync FlowControl SendBuffer Transmissions DataSender StreamFlow StreamOps.

#[local] Existing Instance stream_flow_controller.

(** [OutgoingResetData]. *)
Record OutgoingResetData := mk_reset_data { final_size : Z; application_error_code : Z }.
Definition reset_stream_writer : FrameWriter OutgoingResetData := fun value stream_id =>
  Frame.ResetStream (ResetStream.mk stream_id (application_error_code value) (final_size value)).

Inductive ResetSource := LocalApplication | StopSendingFrame | InternalReset.
Definition is_local_application (self : ResetSource) : bool := match self with LocalApplication => true | _ => false end.
Definition is_internal (self : ResetSource) : bool := match self with InternalReset => true | _ => false end.

Inductive InitResetResult := ResetInitiated | ResetNotNecessary.

(** Whether a packet is acknowledged. *)
Definition acknowledged (ack_set : AckSet) (packet_number : Z) : bool :=
  match contains ack_set packet_number with Ret b => b | Panic => false end.

Module SendStream.
Section Ops.
Context {CE B : Type} `{Bytes B} (be : bool) (capacity : Z -> Z).

#[local] Instance the_writer : ChunkWriter Z B := stream_writer be.

Local Abbreviation error := (StreamError CE).
Local Abbreviation sender := (DataSender.t (E := StreamError CE) (F := StreamFlow.t) (B := B)).

Inductive State := Sending | ResetSent (e : error) | ResetAcknowledged (e : error).

Record t := mk {
  state : State;
  data_sender : sender;
  reset_sync : OnceSync.t OutgoingResetData;
  write_waiter : option (Z * bool);
  final_state_observed : bool;
  detached : bool
}.

Definition new (connection_flow_controller : Outgoing.t) (is_closed : bool) (initial_window max_buffer_capacity : Z) : t :=
  let flow_controller := StreamFlow.new connection_flow_controller initial_window in
  let data_sender :=
    if is_closed then DataSender.new_finished capacity flow_controller max_buffer_capacity
    else DataSender.new capacity flow_controller max_buffer_capacity in
  let reset_sync := if is_closed then OnceSync.stop_sync OnceSync.new else OnceSync.new in
  mk Sending data_sender reset_sync None is_closed is_closed.

Definition set_state (self : t) (s : State) : t :=
  mk s (data_sender self) (reset_sync self) (write_waiter self) (final_state_observed self) (detached self).
Definition set_sender (self : t) (d : sender) : t :=
  mk (state self) d (reset_sync self) (write_waiter self) (final_state_observed self) (detached self).
Definition set_reset (self : t) (r : OnceSync.t OutgoingResetData) : t :=
  mk (state self) (data_sender self) r (write_waiter self) (final_state_observed self) (detached self).
Definition set_waiter (self : t) (w : option (Z * bool)) : t :=
  mk (state self) (data_sender self) (reset_sync self) w (final_state_observed self) (detached self).
Definition set_observed (self : t) (b : bool) : t :=
  mk (state self) (data_sender self) (reset_sync self) (write_waiter self) b (detached self).

(** [flow_controller_mut]. *)
Definition flow (self : t) : StreamFlow.t := DataSender.flow_controller (data_sender self).
Definition set_flow (self : t) (f : StreamFlow.t) : t :=
  let d := data_sender self in
  set_sender self (DataSender.mk (DataSender.buffer d) (DataSender.transmissions d) f (DataSender.transmission_offset d)
    (DataSender.pending d) (DataSender.lost d) (DataSender.max_buffer_capacity d) (DataSender.state d)).

Definition detach (self : t) : t :=
  let self := mk (state self) (data_sender self) (reset_sync self) None (final_state_observed self) true in
  match state self with
  | ResetAcknowledged _ => set_observed self true
  | Sending => set_observed self (final_state_observed self || SenderState.is_finished (DataSender.state (data_sender self)))
  | ResetSent _ => self
  end.

Definition wake (self : t) (events : StreamEvents) : t * StreamEvents :=
  match write_waiter self with
  | Some (waker, _) => (set_waiter self None, store_write_waker events waker)
  | None => (if detached self then detach self else self, events)
  end.

Definition can_push (self : t) : bool := 0 <? DataSender.available_buffer_space (data_sender self).

Definition validate_push (self : t) (len : Z) : outcome (result unit error) :=
  if negb (SenderState.is_sending (DataSender.state (data_sender self))) then Ret (Err SendAfterFinish) else
  let! is_valid :=
    match VarInt.ok (VarInt.new len) with
    | None => Ret false
    | Some chunk_len =>
        let! total := DataSender.total_enqueued_len (data_sender self) in
        Ret (match VarInt.checked_add total chunk_len with Some _ => true | None => false end)
    end in
  Ret (if is_valid then Ok tt else Err MaxStreamDataSizeExceeded).

Definition init_reset (self : t) (reason : ResetSource) (e : error) : outcome (InitResetResult * t) :=
  let reset :=
    let self := set_state self (if is_internal reason then ResetAcknowledged e else ResetSent e) in
    let self := if is_local_application reason then set_observed self true else self in
    let! d := DataSender.stop_sending (data_sender self) e in
    let self := set_sender self d in
    match is_internal reason, e with
    | false, StreamReset code =>
        let data := mk_reset_data (StreamFlow.acquired_connection_flow_controller_window (flow self)) code in
        Ret (ResetInitiated, set_reset self (OnceSync.request_delivery (reset_sync self) data))
    | false, _ => Panic
    | true, _ => Ret (ResetInitiated, set_reset self (OnceSync.stop_sync (reset_sync self)))
    end in
  match state self with
  | ResetSent _ | ResetAcknowledged _ => Ret (ResetNotNecessary, self)
  | Sending => if SenderState.is_finished (DataSender.state (data_sender self)) then Ret (ResetNotNecessary, self) else reset
  end.

(** ** From the network *)

Definition on_max_stream_data (self : t) (frame : MaxStreamData.t) (events : StreamEvents) : t * StreamEvents :=
  match state self with
  | Sending =>
      let self := set_flow self (StreamFlow.set_max_stream_data (flow self) (MaxStreamData.maximum_stream_data frame)) in
      if (0 <? DataSender.available_buffer_space (data_sender self)) && SenderState.is_sending (DataSender.state (data_sender self))
      then wake self events else (self, events)
  | _ => (self, events)
  end.

Definition on_stop_sending (self : t) (frame : StopSending.t) (events : StreamEvents) : outcome (t * StreamEvents) :=
  let! '(res, self) := init_reset self StopSendingFrame (StreamReset (StopSending.application_error_code frame)) in
  Ret (match res with ResetInitiated => wake self events | ResetNotNecessary => (self, events) end).

(** Whether the application is to be woken in the state [Sending]. *)
Definition wake_on_ack (self : t) (should_flush : bool) : bool :=
  match DataSender.state (data_sender self) with
  | SenderState.Sending => if should_flush then DataSender.is_empty (data_sender self) && can_push self else can_push self
  | SenderState.Finishing f =>
      DataSender.is_empty (data_sender self) && match f with FinState.Acknowledged => true | _ => false end
  | SenderState.Finished => true
  | SenderState.Cancelled _ => false
  end.

Definition on_packet_ack (self : t) (ack_set : AckSet) (events : StreamEvents) : outcome (t * StreamEvents) :=
  let! d := DataSender.on_packet_ack (data_sender self) ack_set in
  let self := set_sender self d in
  let! f := StreamFlow.on_packet_ack (flow self) (acknowledged ack_set) in
  let self := set_flow self f in
  let should_flush := match write_waiter self with Some (_, should_flush) => should_flush | None => false end in
  let! f := StreamFlow.on_packet_ack (flow self) (acknowledged ack_set) in
  let self := set_flow self f in
  let '(self, should_wake) :=
    match state self with
    | Sending => (self, wake_on_ack self should_flush)
    | ResetSent e =>
        let '(reset, ready) := OnceSync.on_packet_ack (reset_sync self) (acknowledged ack_set) in
        let self := set_reset self reset in
        if ready then (set_state self (ResetAcknowledged e), true) else (self, false)
    | ResetAcknowledged _ => (self, false)
    end in
  Ret (if should_wake then wake self events else (self, events)).

Definition on_packet_loss (self : t) (ack_set : AckSet) : outcome t :=
  let! d := DataSender.on_packet_loss (data_sender self) ack_set in
  let self := set_sender self d in
  let self := set_flow self (StreamFlow.on_packet_loss (flow self) (acknowledged ack_set)) in
  Ret (set_reset self (OnceSync.on_packet_loss (reset_sync self) (acknowledged ack_set))).

Definition on_transmit (self : t) (stream_id : Z) (context : Writer) : outcome (transmitted t) :=
  let '(reset, res, fs1) := OnceSync.on_transmit reset_stream_writer (reset_sync self) stream_id context in
  let self := set_reset self reset in
  match res with
  | Err e => Ret (self, Err e, fs1)
  | Ok _ =>
      let! '(res, d, fs2) := DataSender.on_transmit capacity (data_sender self) stream_id (resume context fs1) in
      let self := set_sender self d in
      match res with
      | Err e => Ret (self, Err e, fs1 ++ fs2)
      | Ok _ =>
          let! '(f, res, fs3) := StreamFlow.on_transmit (flow self) stream_id (resume context (fs1 ++ fs2)) in
          Ret (set_flow self f, res, fs1 ++ fs2 ++ fs3)
      end
  end.

Definition update_blocked_sync_period (self : t) (blocked_sync_period : Z) : t :=
  set_flow self (StreamFlow.update_blocked_sync_period (flow self) blocked_sync_period).
Definition on_timeout (self : t) (now : Z) : outcome t :=
  let! f := StreamFlow.on_timeout (flow self) now in Ret (set_flow self f).

Definition on_internal_reset (self : t) (e : error) (events : StreamEvents) : outcome (t * StreamEvents) :=
  let! '(_, self) := init_reset self InternalReset e in Ret (wake self events).
Definition on_flush (self : t) (e : error) (events : StreamEvents) : outcome (t * StreamEvents) :=
  match DataSender.state (data_sender self) with
  | SenderState.Finishing _ => Ret (self, events)
  | _ => on_internal_reset self e events
  end.
Definition on_connection_window_available (self : t) : outcome t :=
  match state self with
  | Sending => let! f := StreamFlow.try_acquire_connection_window (flow self) in Ret (set_flow self f)
  | _ => Ret self
  end.

(** ** From the application *)

Local Abbreviation response := (Rx.Response CE).

Definition set_status (r : response) (s : Status CE) : response := Rx.mk_response (Rx.r_bytes r) (Rx.r_chunks r) (Rx.will_wake r) s.
Definition set_available (r : response) (n : Z) : response :=
  Rx.mk_response (mk_amount (consumed (Rx.r_bytes r)) n) (mk_amount (consumed (Rx.r_chunks r)) n) (Rx.will_wake r) (Rx.status r).

(** [store_waker!]; [context] is the waker of the caller. *)
Definition store_waker (self : t) (r : response) (context : option Z) (should_flush : bool) : t * response :=
  match context with
  | None => (self, r)
  | Some waker =>
      let should_flush := should_flush || match write_waiter self with Some (_, f) => f | None => false end in
      (set_waiter self (Some (waker, should_flush)), Rx.mk_response (Rx.r_bytes r) (Rx.r_chunks r) true (Rx.status r))
  end.

Definition is_reset_acknowledged (self : t) : bool := match state self with ResetAcknowledged _ => true | _ => false end.

(** A request to reset. *)
Definition poll_reset (self : t) (error_code : Z) (flush : bool) (context : option Z) : outcome (result response error * t) :=
  let! '(_, self) := init_reset self LocalApplication (StreamReset error_code) in
  let r := set_status Rx.default Resetting in
  let '(self, r) :=
    if flush && negb (is_reset_acknowledged self) then store_waker self r context true else (set_waiter self None, r) in
  Ret (Ok (if is_reset_acknowledged self then set_status r (Reset (StreamReset error_code)) else r), self).

(** How a part of a request ends: it goes on, or the response is known. *)
Inductive flow_of_request := Go (self : t) (r : response) | Stop (res : result response error) (self : t).

(** The loop over the chunks; those that are consumed are replaced by empty ones. *)
Fixpoint push_chunks (self : t) (r : response) (context : option Z) (chunks : list B) : outcome flow_of_request :=
  match chunks with
  | [] => Ret (Go self r)
  | chunk :: chunks =>
      let consume n :=
        Rx.mk_response (mk_amount (consumed (Rx.r_bytes r) + n) (available (Rx.r_bytes r)))
          (mk_amount (consumed (Rx.r_chunks r) + 1) (available (Rx.r_chunks r))) (Rx.will_wake r) (Rx.status r) in
      if chunk_len chunk =? 0 then push_chunks self (consume 0) context chunks else
      let! valid := validate_push self (chunk_len chunk) in
      match valid with
      | Err e => Ret (Stop (Err e) self)
      | Ok _ =>
          if negb (can_push self) then
            let '(self, r) := store_waker self r context false in Ret (Stop (Ok r) self)
          else
            let! d := DataSender.push (data_sender self) chunk in
            push_chunks (set_sender self d) (consume (chunk_len chunk)) context chunks
      end
  end.

(** The chunks of a request, or the interest in changes of the state. *)
Definition poll_chunks (self : t) (request : Tx_.Request B) (context : option Z) : outcome flow_of_request :=
  match Tx_.chunks request with
  | Some (chunk :: chunks) => push_chunks self Rx.default context (chunk :: chunks)
  | _ =>
      if negb (Tx_.finish request) && negb (Tx_.flush request) && match context with Some _ => true | None => false end then
        let! valid := validate_push self 1 in
        match valid with
        | Err e => Ret (Stop (Err e) self)
        | Ok _ =>
            if negb (can_push self) then
              let '(self, r) := store_waker self Rx.default context false in Ret (Stop (Ok r) self)
            else Ret (Go self Rx.default)
        end
      else Ret (Go self Rx.default)
  end.

Definition poll_finish (self : t) (r : response) (request : Tx_.Request B) (context : option Z) : outcome flow_of_request :=
  if Tx_.finish request then
    if SenderState.is_finished (DataSender.state (data_sender self)) then
      Ret (Stop (Ok (set_status r Finished)) (set_waiter (set_observed self true) None))
    else
      let! d := DataSender.finish (data_sender self) in
      let self := set_sender self d in
      let r := set_status r Finishing in
      let '(self, r) := if Tx_.flush request then store_waker self r context true else (set_waiter self None, r) in
      Ret (Go self r)
  else
    let '(self, r) :=
      if Tx_.flush request && negb (DataSender.is_empty (data_sender self)) then store_waker self r context true else (self, r) in
    Ret (Go self r).

(** What the response says about the state. *)
Definition respond (self : t) (r : response) : response :=
  match DataSender.state (data_sender self) with
  | SenderState.Sending => set_available r (DataSender.available_buffer_space (data_sender self))
  | SenderState.Finishing _ => set_status r Finishing
  | SenderState.Finished => set_status r Finished
  | SenderState.Cancelled e => set_status r (Reset e)
  end.

Definition poll_request (self : t) (request : Tx_.Request B) (context : option Z) : outcome (result response error * t) :=
  let self := if Tx_.detached request then detach self else self in
  match Tx_.reset request with
  | Some error_code => poll_reset self error_code (Tx_.flush request) context
  | None =>
      match state self with
      | ResetSent e | ResetAcknowledged e => Ret (Err e, set_waiter (set_observed self true) None)
      | Sending =>
          let! go := poll_chunks self request context in
          match go with
          | Stop res self => Ret (res, self)
          | Go self r =>
              let! go := poll_finish self r request context in
              match go with
              | Stop res self => Ret (res, self)
              | Go self r => Ret (Ok (respond self r), self)
              end
          end
      end
  end.

(** ** Interests *)

Definition stream_interests (self : t) (interests : StreamInterests) : outcome StreamInterests :=
  let query :=
    match state self with
    | Sending => if final_state_observed self then None else
        Some (let! reported := DataSender.transmission_interest (data_sender self) in
              Ret (reported ++ StreamFlow.transmission_interest (flow self) ++ OnceSync.transmission_interest (reset_sync self)))
    | ResetAcknowledged _ => if final_state_observed self then None else Some (Ret [])
    | ResetSent _ => Some (Ret (OnceSync.transmission_interest (reset_sync self)))
    end in
  match query with
  | None => Ret interests
  | Some reported =>
      let! reported := reported in
      let! transmission := with_transmission (transmission interests) reported in
      Ret (mk_interests
             (match StreamFlow.state (flow self) with BlockedOnConnectionWindow => true | _ => connection_flow_control_credits interests end)
             (match StreamFlow.state (flow self) with BlockedOnStreamWindow => true | _ => stream_flow_control_credits interests end)
             true
             (delivery_notifications interests || DataSender.is_inflight (data_sender self) || OnceSync.is_inflight (reset_sync self))
             transmission)
  end.
End Ops.
Arguments State : clear implicits.
Arguments t : clear implicits.
End SendStream.
