(* ===== verification/SendStreamThm.v ===== *)
(** * The sending half of a stream, proved

    What the operations a sending stream is made of do: those of its flow
    controller and of its data sender, and the packet it goes on writing to. *)
From stdpp Require Import gmap sets list.
From S2P Require Import Prelude Codec VarInt PacketNumber MapInterface PacketMap PacketMapThm Interval IntervalInsert IntervalSet VarIntSet FrameAck Frames FrameCodec Time Transmission TransmissionContext Recovery Sync FlowControl FlowControlThm SendBuffer SendBufferThm Transmissions TransmissionsThm DataSender DataWriter TransmitThm DataSenderThm DataSenderTransmit DataSenderReliable StreamFlow StreamFlowThm StreamOps SendStream SendStreams.

(** ** The flow controller *)

(** Only the sync of STREAM_DATA_BLOCKED has changed. *)
Definition same_windows (f f' : StreamFlow.t) : Prop := f' = StreamFlow.set_sync f (StreamFlow.stream_data_blocked_sync f').

(** Nothing is sent by it any more. *)
Definition quiet (f : StreamFlow.t) : Prop := StreamFlow.state f = FlowFinished /\ ~ active (StreamFlow.stream_data_blocked_sync f).

Lemma set_sync_ok f s : stream_flow_ok f -> blocked_ok (StreamFlow.max_stream_data f) s -> stream_flow_ok (StreamFlow.set_sync f s).
Proof. intros [] Hs. by split. Qed.

Lemma quiet_delivery s : ~ active s ->
  (PeriodicSync.delivery s = NotRequested \/ exists v, PeriodicSync.delivery s = Cancelled v) /\ Timer.expiration (PeriodicSync.delivery_timer s) = None.
Proof.
  unfold active. intros H. destruct (PeriodicSync.delivery s); try (by destruct H); destruct (Timer.expiration _); try (by destruct H); eauto.
Qed.

Lemma flow_ack_ok f c : stream_flow_ok f ->
  returns (StreamFlow.on_packet_ack f c) (fun f' => stream_flow_ok f' /\ same_windows f f' /\ (quiet f -> quiet f')).
Proof.
  intros Hf. pose proof Hf as [_ _ _ _ (v & Hv & Hs)]. unfold StreamFlow.on_packet_ack. destruct (ps_ack_ok v _ c Hs) as (s' & E & Hs'). rewrite E. cbn [obind].
  apply returns_ret. split; [apply set_sync_ok; [done | by exists v] |]. split; [done |]. intros [Hq1 Hq2]. split; [done |].
  destruct (quiet_delivery _ Hq2) as [Hd _]. unfold PeriodicSync.on_packet_ack in E. destruct Hd as [Hd | [x Hd]]; rewrite Hd in E; by injection E as <-.
Qed.

Lemma flow_loss_ok f c : stream_flow_ok f ->
  let f' := StreamFlow.on_packet_loss f c in stream_flow_ok f' /\ same_windows f f' /\ (quiet f -> quiet f').
Proof.
  intros Hf f'. pose proof Hf as [_ _ _ _ (v & Hv & Hs)]. split; [apply set_sync_ok; [done |]; exists v; split; [done | by apply ps_loss_ok] |]. split; [done |].
  intros [Hq1 Hq2]. split; [done |]. cbn. destruct (quiet_delivery _ Hq2) as [Hd _]. unfold PeriodicSync.on_packet_loss. destruct Hd as [Hd | [x Hd]]; by rewrite Hd.
Qed.

Lemma flow_timeout_ok f now : stream_flow_ok f -> timestamp_ok now ->
  returns (StreamFlow.on_timeout f now) (fun f' => stream_flow_ok f' /\ same_windows f f' /\ (quiet f -> quiet f')).
Proof.
  intros Hf Hn. pose proof Hf as [_ _ _ _ (v & Hv & Hs)]. unfold StreamFlow.on_timeout. destruct (ps_timeout_ok v _ now Hs Hn) as (s' & E & Hs'). rewrite E. cbn [obind].
  apply returns_ret. split; [apply set_sync_ok; [done | by exists v] |]. split; [done |]. intros [Hq1 Hq2]. split; [done |].
  destruct (quiet_delivery _ Hq2) as [_ Ht]. unfold PeriodicSync.on_timeout, Timer.poll_expiration, Timer.is_expired in E. rewrite Ht in E. cbn [obind] in E.
  injection E as <-. unfold active in *. cbn. by rewrite Ht in *.
Qed.

Lemma flow_period_ok f p : stream_flow_ok f -> 0 <= p <= MAX_SYNC_PERIOD ->
  let f' := StreamFlow.update_blocked_sync_period f p in stream_flow_ok f' /\ same_windows f f' /\ (quiet f -> quiet f').
Proof.
  intros Hf Hp f'. pose proof Hf as [_ _ _ _ (v & Hv & H1 & H2 & H3 & H4 & H5)]. split; [| split; [done |]; by intros [? ?]].
  apply set_sync_ok; [done |]. exists v. split; [done |]. do 4 (split; [done |]). exact H5.
Qed.

(** It writes STREAM_DATA_BLOCKED, or nothing. *)
Lemma flow_transmit_ok f id w : stream_flow_ok f -> timestamp_ok (current_time w) ->
  returns (StreamFlow.on_transmit f id w) (fun '(f', _, fs) => stream_flow_ok f' /\ same_windows f f' /\ (quiet f -> quiet f' /\ fs = [])
    /\ forall g, g ∈ fs -> exists v, g = Frame.StreamDataBlocked (StreamDataBlocked.mk id v)).
Proof.
  intros Hf Hw. pose proof Hf as [_ _ _ _ (v & Hv & Hs)]. unfold StreamFlow.on_transmit. destruct (is_ack_eliciting _ && _).
  - destruct (ps_skip_ok v _ _ Hs Hw) as (s' & E & Hs'). rewrite E. cbn [obind]. apply returns_ret. split; [apply set_sync_ok; [done | by exists v] |]. split; [done |].
    split; [| by intros g ?%not_elem_of_nil]. intros [Hq1 Hq2]. split; [| done]. split; [done |]. destruct (quiet_delivery _ Hq2) as [Hd _].
    unfold PeriodicSync.skip_delivery in E. destruct Hd as [Hd | [x Hd]]; rewrite Hd in E; by injection E as <-.
  - pose proof (ps_transmit_ok v StreamFlow.stream_data_blocked_writer _ id w Hs Hw) as Ht. destruct (PeriodicSync.on_transmit _ _ id w) as [[s' r] fs] eqn:E.
    destruct Ht as [Hs' Hfs]. apply returns_ret. split; [apply set_sync_ok; [done | by exists v] |]. split; [done |]. split.
    + intros [Hq1 Hq2]. destruct (quiet_delivery _ Hq2) as [Hd _]. unfold PeriodicSync.on_transmit in E. destruct Hd as [Hd | [x Hd]]; rewrite Hd in E; cbn in E; by simplify_eq.
    + intros g Hg. destruct Hfs as [-> | ->]; [by apply not_elem_of_nil in Hg |]. apply list_elem_of_singleton in Hg as ->. by eexists.
Qed.

Lemma same_windows_facts f f' : same_windows f f' ->
  StreamFlow.available_window f' = StreamFlow.available_window f /\ StreamFlow.state f' = StreamFlow.state f
  /\ StreamFlow.acquired_connection_flow_controller_window f' = StreamFlow.acquired_connection_flow_controller_window f.
Proof. unfold same_windows. intros ->. by destruct f. Qed.

(** ** The packet *)

(** A writer that also takes frames that may not fit. *)
Record sending_ok (w : Writer) : Prop := {
  sending_writer : writer_ok w;
  sending_time : timestamp_ok (current_time w);
  sending_frame fs f p : packet_ok w fs -> frame_ok f -> blen (frame_wire f) < 2 ^ 64 -> write_frame w fs f = Some p ->
    p = packet_number w /\ blen (frame_wire f) <= remaining_capacity w fs
}.

Lemma context_sending_ok be c :
  eb_wf (Context.buffer c) -> blen (eb_bytes (Context.buffer c)) <= umax 16 -> Context.transmission_mode c <> PathValidationOnly ->
  (Context.transmission_mode c = LossRecoveryProbing -> Context.transmission_constraint c = Unconstrained) -> timestamp_ok (Context.timestamp c) ->
  sending_ok (Context.writer be c).
Proof.
  intros Hwf Hlen Hm Hp Ht. pose proof (context_writer_ok be c Hwf Hlen Hm Hp) as Hw. split; [done | done |]. intros fs f p [Hfs Hl] Hf Hb E.
  cbn [Context.writer write_frame remaining_capacity packet_number Context.replay] in E, Hl |- *. destruct (replay_ok be fs c Hwf Hfs Hl) as (c' & Er & _ & Hr & En & _).
  rewrite Er in E |- *. cbn [obind] in E. unfold Context.write_frame in E. destruct (Context.check_frame_constraint c' f); [| done]. cbn [obind] in E.
  unfold Context.write_frame_forced in E. rewrite (frame_size_ok be f Hf Hb) in E. cbn [obind] in E. destruct (Z.ltb_spec (Context.remaining_capacity c') (blen (frame_wire f))); [done |].
  unfold Context.encode in E. destruct (Frame.encode be f _ _ _); [| done]. cbn in E. split; [congruence | done].
Qed.

Lemma resume_ok w fs : writer_ok w -> packet_ok w fs -> writer_ok (resume w fs).
Proof.
  intros Hw Hfs. pose proof (writer_room_range w fs Hw Hfs) as Hr. pose proof (writer_room w Hw fs Hfs) as Er.
  assert (Hp : forall gs, packet_ok (resume w fs) gs -> packet_ok w (fs ++ gs)).
  { intros gs [Hf Hl]. cbn [resume remaining_capacity] in Hl. rewrite app_nil_r in Hl. destruct Hfs as [Hf1 Hl1]. split; [by apply Forall_app |].
    unfold payload in *. rewrite fmap_app, concat_app, blen_app. lia. }
  split; cbn [resume remaining_capacity transmission_constraint transmission_mode write_fitted_frame packet_number].
  - by rewrite app_nil_r.
  - intros gs Hgs. rewrite app_nil_r, (writer_room w Hw _ (Hp gs Hgs)), Er. unfold payload. rewrite fmap_app, concat_app, blen_app. lia.
  - intros gs f Hc Hgs Hf Hl. by apply (writer_fitted w Hw); [| apply Hp | |].
  - apply (writer_probe w Hw).
Qed.

(** ** What the operations of the data sender leave alone *)

Section Effects.
Context {E B : Type} `{HB : Bytes B, !BytesSpec B} (be : bool) (capacity : Z -> Z).
#[local] Existing Instance stream_flow_controller.
#[local] Hint Extern 0 (ChunkWriter _ B) => exact (the_writer be) : typeclass_instances.

Local Abbreviation sender := (DataSender.t (E := E) (F := StreamFlow.t) (B := B)).
Local Abbreviation fc := DataSender.flow_controller.
Local Abbreviation st := DataSender.state.

Lemma push_effect (d : sender) x d' : DataSender.push d x = Ret d' ->
  fc d' = fc d /\ st d' = st d /\ DataSender.max_buffer_capacity d' = DataSender.max_buffer_capacity d.
Proof. unfold DataSender.push. intros H. ret_inv H. destruct (chunk_len x =? 0); ret_inv H; by simplify_eq. Qed.

Lemma finish_effect (d : sender) d' : DataSender.finish d = Ret d' ->
  fc d' = fc d /\ DataSender.buffer d' = DataSender.buffer d /\ DataSender.max_buffer_capacity d' = DataSender.max_buffer_capacity d
  /\ (st d' = st d \/ st d = SenderState.Sending /\ st d' = SenderState.Finishing FinState.Pending).
Proof.
  unfold DataSender.finish. intros H. destruct (st d) eqn:Est; cbn [SenderState.is_sending negb] in H; [| by simplify_eq; auto 6..].
  ret_inv H. simplify_eq. cbn. auto 6.
Qed.

Lemma stop_effect (d : sender) e d' : DataSender.stop_sending d e = Ret d' -> SenderState.is_finished (st d) = false ->
  fc d' = StreamFlow.finish (fc d) /\ st d' = SenderState.Cancelled e.
Proof. unfold DataSender.stop_sending. intros H Hst. rewrite Hst in H. ret_inv H. by simplify_eq. Qed.

Lemma ack_effect (d : sender) s d' : DataSender.on_packet_ack d s = Ret d' ->
  DataSender.max_buffer_capacity d' = DataSender.max_buffer_capacity d
  /\ match st d with
     | SenderState.Finishing _ => (exists fin, st d' = SenderState.Finishing fin /\ fc d' = fc d) \/ (st d' = SenderState.Finished /\ fc d' = StreamFlow.finish (fc d))
     | other => st d' = other /\ fc d' = fc d
     end.
Proof.
  unfold DataSender.on_packet_ack. change WRITES_FIN with true. intros H. destruct (st d) as [| fin | | e] eqn:Est.
  all: ret_inv H; simplify_eq; try (split; [reflexivity | by split]).
  match goal with E : obind _ _ = Ret ?a |- _ => ret_inv E end. simplify_eq.
  match goal with E : (match ?x with _ => _ end) = Ret d' |- _ => destruct x as [| n | |]; try (simplify_eq; cbn; split; [done | left; by eexists]) end.
  match goal with E : (if ?x then _ else _) = Ret d' |- _ => destruct x; ret_inv E; simplify_eq; cbn end; (split; [done |]); [by right | left; by eexists].
Qed.

Lemma loss_effect (d : sender) s d' : DataSender.on_packet_loss d s = Ret d' ->
  DataSender.buffer d' = DataSender.buffer d /\ DataSender.max_buffer_capacity d' = DataSender.max_buffer_capacity d
  /\ (fc d' = fc d \/ fc d' = StreamFlow.clear_blocked (fc d))
  /\ match st d with SenderState.Finishing _ => exists fin, st d' = SenderState.Finishing fin | other => st d' = other end.
Proof.
  unfold DataSender.on_packet_loss. change WRITES_FIN with true. intros H. destruct (st d) as [| fin | | e] eqn:Est.
  all: ret_inv H; simplify_eq; cbn.
  all: repeat match goal with E : obind _ _ = Ret ?a |- _ => ret_inv E; simplify_eq end.
  all: match goal with E : (if ?x then _ else _) = Ret _ |- _ => destruct x; ret_inv E; simplify_eq end; split_and!; eauto.
Qed.
End Effects.

Lemma finish_quiet f : quiet (StreamFlow.finish f).
Proof. split; [done |]. unfold active. cbn. destruct (PeriodicSync.delivery _); intros Hx; by apply Hx. Qed.
Lemma clear_quiet f : quiet f -> quiet (StreamFlow.clear_blocked f).
Proof.
  intros [Hs Hq]. unfold StreamFlow.clear_blocked, StreamFlow.is_finished. rewrite Hs. split; [done |]. unfold active. cbn. destruct (PeriodicSync.delivery _); intros Hx; by apply Hx.
Qed.

Section Transmit.
Context {E B : Type} `{HB : Bytes B, !BytesSpec B} (be : bool) (capacity : Z -> Z).
#[local] Existing Instance stream_flow_controller.
#[local] Existing Instance stream_flow_spec.
#[local] Hint Extern 0 (ChunkWriter _ B) => exact (the_writer be) : typeclass_instances.
#[local] Hint Extern 0 (ChunkWriterSpec _ B) => exact (the_writer_spec be) : typeclass_instances.
Hypothesis capacity_ok : forall n, 0 < n < 2 ^ 63 -> n <= capacity n < 2 ^ 63.

Local Abbreviation world := (DataSenderReliable.world (E := E) (F := StreamFlow.t) (B := B)).

(** A transmission does not take data back, and a sender that has ended writes
    nothing. *)
Lemma transmit_effect id (W : world) A w n :
  world_ok ApplicationData id W A -> varint_ok id -> valid ApplicationData (Transmit w n) W ->
  returns (DataSender.on_transmit capacity (sender W) id w) (fun '(_, d', fs) =>
    DataSender.buffer d' = DataSender.buffer (sender W) /\ DataSender.max_buffer_capacity d' = DataSender.max_buffer_capacity (sender W)
    /\ match DataSender.state (sender W) with
       | SenderState.Sending => DataSender.state d' = SenderState.Sending
       | SenderState.Finishing _ => exists fin, DataSender.state d' = SenderState.Finishing fin
       | _ => d' = sender W /\ fs = []
       end).
Proof.
  intros H Hid Hv. exact (transmit_keeps capacity ApplicationData id capacity_ok (stream_context_ok be id Hid) W A w n H Hv).
Qed.
End Transmit.
