(* ===== verification/SendStreamLife.v ===== *)
(** * The life of a sending stream

    A sending stream with all that happens to it: requests of the application,
    packets sent, acknowledged and lost, frames of the peer, timers, the end of
    the connection. *)
From stdpp Require Import gmap sets list.
From S2P Require Import Prelude Codec VarInt PacketNumber MapInterface PacketMap PacketMapThm Interval IntervalInsert IntervalSet VarIntSet FrameAck Frames FrameCodec Time Transmission TransmissionContext Recovery Sync FlowControl FlowControlThm SendBuffer SendBufferThm Transmissions TransmissionsThm DataSender DataWriter TransmitThm DataSenderThm DataSenderTransmit DataSenderReliable StreamFlow StreamFlowThm StreamOps SendStream SendStreams SendStreamThm.

Section Life.
Context {CE B : Type} `{HB : Bytes B, !BytesSpec B} (be : bool) (capacity : Z -> Z) (id : Z).
#[local] Existing Instance stream_flow_controller.
#[local] Existing Instance stream_flow_spec.
#[local] Hint Extern 0 (ChunkWriter _ B) => exact (the_writer be) : typeclass_instances.
#[local] Hint Extern 0 (ChunkWriterSpec _ B) => exact (the_writer_spec be) : typeclass_instances.
Hypothesis capacity_ok : forall n, 0 < n < 2 ^ 63 -> n <= capacity n < 2 ^ 63.
Hypothesis id_ok : varint_ok id.

Local Abbreviation error := (StreamError CE).
Local Abbreviation stream_half := (SendStream.t CE B).
Local Abbreviation world := (DataSenderReliable.world (E := StreamError CE) (F := StreamFlow.t) (B := B)).
Local Abbreviation pn := (fun n => PacketNumber.from_varint n ApplicationData).
Local Abbreviation st s := (DataSender.state (SendStream.data_sender s)).
Local Abbreviation is_cancelled := DataSenderReliable.is_cancelled.

(** ** The stream and what happened to it *)

(** The bytes it accepted, the frames it sent with the packets they were in, those
    in packets that were acknowledged since, and the last packet. *)
Record half_world := mk_half {
  half : stream_half;
  accepted : list Z;
  frames : list (Z * frame);
  confirmed : list (Z * frame);
  newest : Z
}.

Inductive half_event :=
| Request (request : Tx_.Request B) (context : option Z)
| Packet (context : Writer) (n : Z)
| Acked (set : AckSet) (a b : Z)
| Missing (set : AckSet) (a b : Z)
| MaxStream (maximum_stream_data : Z)
| StopSendingFrom (error_code : Z)
| Expired (now : Z)
| SyncPeriod (period : Z)
| ConnectionClosed (e : error)
| ConnectionFlushed (e : error)
| WindowAvailable
(** The flow controller the streams of the connection share has changed. *)
| SharedWindow (outgoing : Outgoing.t).

Definition total_len (s : stream_half) : Z :=
  match Buffer.total_len (DataSender.buffer (SendStream.data_sender s)) with Ret n => n | Panic => 0 end.
(** The bytes a request has added. *)
Definition pushed (s s' : stream_half) (request : Tx_.Request B) : list Z :=
  match Tx_.reset request with
  | Some _ => []
  | None => take (Z.to_nat (total_len s' - total_len s)) (concat (bytes_slice <$> default [] (Tx_.chunks request)))
  end.

Local Abbreviation no_events := (mk_events None None).

Definition with_half (w : half_world) (s : stream_half) : half_world := mk_half s (accepted w) (frames w) (confirmed w) (newest w).

Definition half_step (w : half_world) (ev : half_event) : outcome half_world :=
  let s := half w in
  match ev with
  | Request request context =>
      let! '(_, s') := SendStream.poll_request be s request context in
      Ret (mk_half s' (accepted w ++ pushed s s' request) (frames w) (confirmed w) (newest w))
  | Packet context n =>
      let! '(s', _, fs) := SendStream.on_transmit be capacity s id context in
      Ret (mk_half s' (accepted w) (frames w ++ ((fun f => (n, f)) <$> fs)) (confirmed w) n)
  | Acked set a b =>
      let! '(s', _) := SendStream.on_packet_ack be s set no_events in
      Ret (mk_half s' (accepted w) (frames w) (confirmed w ++ filter (fun p => Is_true (within a b p)) (frames w)) (newest w))
  | Missing set a b => let! s' := SendStream.on_packet_loss be s set in Ret (with_half w s')
  | MaxStream v => Ret (with_half w (SendStream.on_max_stream_data s (MaxStreamData.mk id v) no_events).1)
  | StopSendingFrom code => let! '(s', _) := SendStream.on_stop_sending be s (StopSending.mk id code) no_events in Ret (with_half w s')
  | Expired now => let! s' := SendStream.on_timeout s now in Ret (with_half w s')
  | SyncPeriod p => Ret (with_half w (SendStream.update_blocked_sync_period s p))
  | ConnectionClosed e => let! '(s', _) := SendStream.on_internal_reset be s e no_events in Ret (with_half w s')
  | ConnectionFlushed e => let! '(s', _) := SendStream.on_flush be s e no_events in Ret (with_half w s')
  | WindowAvailable => let! s' := SendStream.on_connection_window_available s in Ret (with_half w s')
  | SharedWindow o => Ret (with_half w (SendStream.set_flow s (with_connection o (SendStream.flow s))))
  end.
Fixpoint half_run (w : half_world) (evs : list half_event) : outcome half_world :=
  match evs with [] => Ret w | ev :: evs => let! w := half_step w ev in half_run w evs end.

(** What the rest of the endpoint promises: chunks shorter than 4 GiB, numbers of
    the range of variable-length integers, packet numbers that do not decrease. *)
Definition half_possible (w : half_world) (ev : half_event) : Prop :=
  match ev with
  | Request request _ => Forall (fun chunk => chunk_len chunk <= umax 32) (default [] (Tx_.chunks request))
      /\ (forall code, Tx_.reset request = Some code -> varint_ok code)
  | Packet context n => sending_ok context /\ varint_ok n /\ packet_number context = pn n /\ newest w <= n
  | Acked set a b | Missing set a b => ack_set_ok ApplicationData set a b
  | MaxStream v | StopSendingFrom v => varint_ok v
  | Expired now => timestamp_ok now
  | SyncPeriod p => 0 <= p <= MAX_SYNC_PERIOD
  | SharedWindow o => connection_ok o
  | ConnectionClosed _ | ConnectionFlushed _ | WindowAvailable => True
  end.
Fixpoint half_possible_run (w : half_world) (evs : list half_event) : Prop :=
  match evs with [] => True | ev :: evs => half_possible w ev /\ forall w', half_step w ev = Ret w' -> half_possible_run w' evs end.

Definition half_start (o : Outgoing.t) (initial_window max_buffer_capacity : Z) : half_world :=
  mk_half (SendStream.new capacity o false initial_window max_buffer_capacity) [] [] [] 0.

(** ** The invariant *)

Definition is_data (p : Z * frame) : bool := match p.2 with Frame.Stream _ => true | _ => false end.
Definition is_reset (p : Z * frame) : bool := match p.2 with Frame.ResetStream _ => true | _ => false end.

(** The data sender of the stream and what happened to it. *)
Definition view (w : half_world) : world :=
  mk_world (SendStream.data_sender (half w)) (accepted w) (filter (fun p => Is_true (is_data p)) (frames w))
    (filter (fun p => Is_true (is_data p)) (confirmed w)) (newest w).

Local Abbreviation reset_frame data := (reset_stream_writer data id).
Local Abbreviation size_of w := (StreamFlow.acquired_connection_flow_controller_window (SendStream.flow (half w))).
Local Abbreviation delivery w := (OnceSync.delivery (SendStream.reset_sync (half w))).

(** The stream was cancelled and sends nothing but the reset. *)
Definition ended (w : half_world) (e : error) : Prop := st (half w) = SenderState.Cancelled e /\ quiet (SendStream.flow (half w)).
Definition only_resets (w : half_world) (data : OutgoingResetData) : Prop :=
  final_size data = size_of w /\ varint_ok (application_error_code data)
  /\ exists before after, frames w = before ++ after /\ (forall p, p ∈ before -> is_reset p = false)
       /\ (forall p, p ∈ after -> p.2 = reset_frame data).
Definition no_resets (w : half_world) : Prop := forall p, p ∈ frames w -> is_reset p = false.

Definition reset_ok (w : half_world) : Prop :=
  match SendStream.state (half w) with
  | SendStream.Sending => is_cancelled (st (half w)) = false /\ delivery w = NotRequested /\ no_resets w
  | SendStream.ResetSent e => ended w e /\ exists data, e = StreamReset (application_error_code data) /\ only_resets w data
      /\ (delivery w = Requested data \/ delivery w = Lost data
          \/ exists k t, delivery w = InFlight (mk_inflight data (mk_inflight_packet (pn k) t)) /\ varint_ok k /\ (k, reset_frame data) ∈ frames w)
  | SendStream.ResetAcknowledged e => ended w e
      /\ (((exists v, delivery w = Cancelled v) /\ no_resets w)
          \/ exists data, e = StreamReset (application_error_code data) /\ only_resets w data /\ delivery w = Delivered data
               /\ exists k, (k, reset_frame data) ∈ confirmed w)
  end.

Record half_ok (w : half_world) : Prop := {
  half_sender : exists A, world_ok ApplicationData id (view w) A;
  half_reset : reset_ok w
}.

(** ** Steps that concern the flow controller only *)

Lemma keep_reset w w' :
  reset_ok w -> frames w' = frames w -> (forall p, p ∈ confirmed w -> p ∈ confirmed w') ->
  SendStream.state (half w') = SendStream.state (half w) -> SendStream.reset_sync (half w') = SendStream.reset_sync (half w) ->
  is_cancelled (st (half w')) = is_cancelled (st (half w)) ->
  (forall e, st (half w) = SenderState.Cancelled e -> quiet (SendStream.flow (half w)) -> ended w' e /\ size_of w' = size_of w) ->
  reset_ok w'.
Proof.
  unfold reset_ok, no_resets, only_resets. intros H Ef Hc Es Er Ec Hk. rewrite Ef, Es, Er, Ec. destruct (SendStream.state (half w)) as [| e | e]; [exact H | |].
  - destruct H as [[He Hq] (data & ? & (Hsz & ? & ?) & ?)]. destruct (Hk e He Hq) as [? E]. split; [done |]. exists data. split; [done |]. rewrite E. done.
  - destruct H as [[He Hq] H]. destruct (Hk e He Hq) as [? E]. split; [done |]. destruct H as [H | (data & ? & (Hsz & ? & ?) & ? & k & Hin)]; [by left | right].
    exists data. rewrite E. split; [done |]. split; [done |]. split; [done |]. exists k. by apply Hc.
Qed.

Lemma flow_half w f :
  half_ok w -> stream_flow_ok f -> StreamFlow.available_window (SendStream.flow (half w)) <= StreamFlow.available_window f ->
  (StreamFlow.state (SendStream.flow (half w)) <> FlowFinished -> StreamFlow.state f <> FlowFinished) ->
  (forall e, st (half w) = SenderState.Cancelled e -> quiet (SendStream.flow (half w)) ->
     quiet f /\ StreamFlow.acquired_connection_flow_controller_window f = size_of w) ->
  half_ok (with_half w (SendStream.set_flow (half w) f)).
Proof.
  intros [[A HA] Hr] Hf Hl Hs Hq. split.
  - destruct (set_flow_ok be capacity id (view w) A f HA Hf Hl Hs) as [A' H']. exists A'. exact H'.
  - apply (keep_reset w); try done. intros e He Hqu. destruct (Hq e He Hqu) as [? ?]. by split.
Qed.

(** The sync of STREAM_DATA_BLOCKED has changed. *)
Lemma sync_half w f : half_ok w -> stream_flow_ok f -> same_windows (SendStream.flow (half w)) f -> (quiet (SendStream.flow (half w)) -> quiet f) ->
  half_ok (with_half w (SendStream.set_flow (half w) f)).
Proof.
  intros H Hf Hw Hq. destruct (same_windows_facts _ _ Hw) as (Ea & Es & Ew). apply flow_half; [done | done | by rewrite Ea | by rewrite Es |].
  intros e He Hqu. split; [by apply Hq | done].
Qed.

Lemma half_flow_ok w : half_ok w -> stream_flow_ok (SendStream.flow (half w)).
Proof. intros [[A HA] _]. apply (so_flow _ _ _ _ _ (wo_sender _ _ _ _ HA)). Qed.

Lemma step_expired w now : half_ok w -> timestamp_ok now -> returns (half_step w (Expired now)) half_ok.
Proof.
  intros H Hn. cbn [half_step]. unfold SendStream.on_timeout. destruct (flow_timeout_ok _ now (half_flow_ok w H) Hn) as (f & -> & Hf & Hw & Hq). cbn [obind].
  apply returns_ret. by apply sync_half.
Qed.
Lemma step_period w p : half_ok w -> 0 <= p <= MAX_SYNC_PERIOD -> returns (half_step w (SyncPeriod p)) half_ok.
Proof. intros H Hp. apply returns_ret. destruct (flow_period_ok _ p (half_flow_ok w H) Hp) as (Hf & Hw & Hq). by apply sync_half. Qed.

Lemma step_shared w o : half_ok w -> connection_ok o -> returns (half_step w (SharedWindow o)) half_ok.
Proof. intros H Ho. apply returns_ret. apply flow_half; [done | by apply with_connection_ok; [| apply half_flow_ok] | done | done |]. intros e He Hq. split; [exact Hq | done]. Qed.

Lemma step_window w : half_ok w -> returns (half_step w WindowAvailable) half_ok.
Proof.
  intros H. cbn [half_step]. unfold SendStream.on_connection_window_available. destruct (SendStream.state (half w)) eqn:Est.
  2, 3: apply returns_ret; by destruct w.
  destruct (try_acquire_ok _ (half_flow_ok w H)) as (f & -> & Hf & [Et Ew Hup Em] & _ & Hs). cbn [obind]. apply returns_ret.
  apply flow_half; [done | done | unfold StreamFlow.available_window; lia | by destruct Hs as [-> | [_ ->]] |].
  intros e He. pose proof (half_reset w H) as Hr. unfold reset_ok in Hr. rewrite Est, He in Hr. by destruct Hr.
Qed.

(** ** Waking and resetting *)

(** The application's side of the stream may have changed. *)
Definition same_core (s s' : stream_half) : Prop :=
  SendStream.state s' = SendStream.state s /\ SendStream.data_sender s' = SendStream.data_sender s /\ SendStream.reset_sync s' = SendStream.reset_sync s.

Lemma core_half w s : half_ok w -> same_core (half w) s -> half_ok (with_half w s).
Proof.
  intros [[A HA] Hr] (Es & Ed & Er). split.
  - exists A. unfold view in *. cbn [with_half half accepted frames confirmed newest]. by rewrite Ed.
  - apply (keep_reset w); unfold ended, SendStream.flow; cbn [with_half half]; try done; [by rewrite Ed |]. intros e He Hq. by rewrite Ed.
Qed.

Lemma detach_core s : same_core s (SendStream.detach s).
Proof. unfold SendStream.detach. by destruct (SendStream.state s) eqn:E; rewrite ?E; cbn; rewrite ?E. Qed.
Lemma wake_core s events : same_core s (SendStream.wake s events).1.
Proof.
  unfold SendStream.wake. destruct (SendStream.write_waiter s) as [[? ?] |]; [done |]. destruct (SendStream.detached s); [apply detach_core | done].
Qed.
Lemma core_trans s1 s2 s3 : same_core s1 s2 -> same_core s2 s3 -> same_core s1 s3.
Proof. intros (E1 & E2 & E3) (F1 & F2 & F3). split_and!; congruence. Qed.

Lemma wake_half w s events : half_ok (with_half w s) -> half_ok (with_half w (SendStream.wake s events).1).
Proof. intros H. apply (core_half (with_half w s)); [done | apply wake_core]. Qed.

Lemma step_max_stream w v : half_ok w -> varint_ok v -> returns (half_step w (MaxStream v)) half_ok.
Proof.
  intros H Hv. apply returns_ret. unfold SendStream.on_max_stream_data. destruct (SendStream.state (half w)) eqn:Est; [| by destruct w..]. cbn [MaxStreamData.maximum_stream_data].
  destruct (set_max_ok (SendStream.flow (half w)) v (half_flow_ok w H) Hv) as (Hf & Em & _ & Ea & Hs).
  assert (H' : half_ok (with_half w (SendStream.set_flow (half w) (StreamFlow.set_max_stream_data (SendStream.flow (half w)) v)))).
  { apply flow_half; [done | done | unfold StreamFlow.available_window; lia | done |].
    intros e He. pose proof (half_reset w H) as Hr. unfold reset_ok in Hr. rewrite Est, He in Hr. by destruct Hr. }
  match goal with |- context [if ?b then _ else _] => destruct b end; [by apply wake_half | done].
Qed.

(** A stream that is sending becomes one that was reset. *)
Lemma reset_half w reason e :
  half_ok w -> (is_internal reason = false -> exists code, e = StreamReset code /\ varint_ok code) ->
  returns (SendStream.init_reset be (half w) reason e) (fun '(_, s) => half_ok (with_half w s)).
Proof.
  intros H He. unfold SendStream.init_reset. pose proof (half_reset w H) as Hr. unfold reset_ok in Hr.
  destruct (SendStream.state (half w)) eqn:Est; [| apply returns_ret; by destruct w..].
  destruct (SenderState.is_finished (st (half w))) eqn:Efin; [apply returns_ret; by destruct w |]. destruct Hr as (Hc & Hd & Hno).
  destruct (half_sender w H) as [A HA]. destruct (exec_stop_ok capacity ApplicationData id capacity_ok (view w) A e HA) as (W' & EW & HW' & Hle).
  cbn [view exec] in EW. ret_inv EW. injection EW as <-. destruct (stop_effect be _ _ _ E Efin) as [Ef Ec].
  set (s1 := if is_local_application reason then _ else _). assert (Hs1 : SendStream.data_sender s1 = SendStream.data_sender (half w)
    /\ SendStream.reset_sync s1 = SendStream.reset_sync (half w) /\ SendStream.state s1 = (if is_internal reason then SendStream.ResetAcknowledged e else SendStream.ResetSent e)).
  { unfold s1. by destruct (is_local_application reason). }
  destruct Hs1 as (Ed1 & Er1 & Es1). rewrite Ed1. change (SendStream.the_writer be) with (the_writer be). rewrite E. cbn [obind].
  assert (Hq : quiet (SendStream.flow (SendStream.set_sender s1 a))) by (unfold SendStream.flow; cbn; rewrite Ef; apply finish_quiet).
  destruct (is_internal reason) eqn:Ei.
  - apply returns_ret. split; [exact HW' |]. unfold reset_ok. cbn [with_half half SendStream.set_reset SendStream.set_sender SendStream.state]. rewrite Es1.
    split; [by split |]. left. unfold OnceSync.stop_sync. cbn. rewrite Er1, Hd. split; [by eexists | done].
  - destruct (He eq_refl) as (code & -> & Hcode). apply returns_ret. split; [exact HW' |]. unfold reset_ok.
    cbn [with_half half SendStream.set_reset SendStream.set_sender SendStream.state]. rewrite Es1. split; [by split |].
    eexists (mk_reset_data _ code). split; [done |]. split.
    + split; [done |]. split; [done |]. exists (frames w), []. rewrite app_nil_r. split; [done |]. split; [done | by intros p ?%not_elem_of_nil].
    + left. unfold OnceSync.request_delivery. cbn. by rewrite Er1, Hd.
Qed.

Lemma step_stop w code : half_ok w -> varint_ok code -> returns (half_step w (StopSendingFrom code)) half_ok.
Proof.
  intros H Hc. cbn [half_step]. unfold SendStream.on_stop_sending. cbn [StopSending.application_error_code].
  destruct (reset_half w StopSendingFrame (StreamReset code) H) as ([res s] & -> & Hs); [by exists code |]. cbn [obind]. destruct res.
  - pose proof (wake_half w s no_events Hs) as Hw. destruct (SendStream.wake s no_events). apply returns_ret. exact Hw.
  - apply returns_ret. exact Hs.
Qed.

Lemma step_closed w e : half_ok w -> returns (half_step w (ConnectionClosed e)) half_ok.
Proof.
  intros H. cbn [half_step]. unfold SendStream.on_internal_reset. destruct (reset_half w InternalReset e H) as ([res s] & -> & Hs); [done |]. cbn [obind].
  pose proof (wake_half w s no_events Hs) as Hw. destruct (SendStream.wake s no_events). apply returns_ret. exact Hw.
Qed.
Lemma step_flushed w e : half_ok w -> returns (half_step w (ConnectionFlushed e)) half_ok.
Proof.
  intros H. pose proof (step_closed w e H) as Hc. cbn [half_step] in *. unfold SendStream.on_flush. destruct (st (half w)); try exact Hc. apply returns_ret. by destruct w.
Qed.

(** ** Acknowledgements and losses *)

Lemma filter_swap {A} (P Q : A -> Prop) `{!forall x, Decision (P x), !forall x, Decision (Q x)} (l : list A) : filter P (filter Q l) = filter Q (filter P l).
Proof. rewrite !list_filter_filter. apply list_filter_iff. intros x. tauto. Qed.

Definition confirm (w : half_world) (a b : Z) (s : stream_half) : half_world :=
  mk_half s (accepted w) (frames w) (confirmed w ++ filter (fun p => Is_true (within a b p)) (frames w)) (newest w).

Lemma sender_acked_half w set a b : half_ok w -> ack_set_ok ApplicationData set a b ->
  returns (DataSender.on_packet_ack (SendStream.data_sender (half w)) set) (fun d => half_ok (confirm w a b (SendStream.set_sender (half w) d))).
Proof.
  intros H Hset. destruct (half_sender w H) as [A HA]. destruct (exec_ack_ok capacity ApplicationData id capacity_ok (stream_context_ok be id id_ok) (view w) A set a b HA Hset) as (W' & EW & [A' HW'] & _).
  cbn [view exec] in EW. ret_inv EW. injection EW as <-. destruct (ack_effect be _ _ _ E) as [_ Heff]. eexists. split; [reflexivity |]. split.
  - exists A'. unfold view in *. cbn [confirm half accepted frames confirmed newest SendStream.set_sender SendStream.data_sender].
    rewrite filter_app, (filter_swap (fun p => Is_true (is_data p))). exact HW'.
  - apply (keep_reset w); cbn [confirm half SendStream.set_sender SendStream.data_sender SendStream.state SendStream.reset_sync frames confirmed]; try done; [apply half_reset, H | | |].
    + intros p Hp. apply elem_of_app. by left.
    + destruct (st (half w)); [by destruct Heff as [-> _] | by destruct Heff as [(? & -> & _) | [-> _]] | by destruct Heff as [-> _] | by destruct Heff as [-> _]].
    + intros e He Hq. rewrite He in Heff. destruct Heff as [Es Ef]. unfold ended, SendStream.flow. cbn [confirm half SendStream.set_sender SendStream.data_sender]. by rewrite Es, Ef.
Qed.

Lemma acknowledged_in set a b k : ack_set_ok ApplicationData set a b -> varint_ok k -> acknowledged set (pn k) = (a <=? k) && (k <=? b).
Proof. intros Hs Hk. unfold acknowledged. by rewrite (ack_contains _ _ _ _ Hs k Hk). Qed.

Lemma reset_acked_half w set a b e sync :
  half_ok w -> ack_set_ok ApplicationData set a b -> SendStream.state (half w) = SendStream.ResetSent e ->
  (forall k f, (k, f) ∈ frames w -> a <= k <= b -> (k, f) ∈ confirmed w) ->
  OnceSync.on_packet_ack (SendStream.reset_sync (half w)) (acknowledged set) = sync ->
  half_ok (with_half w (if sync.2 then SendStream.set_state (SendStream.set_reset (half w) sync.1) (SendStream.ResetAcknowledged e) else SendStream.set_reset (half w) sync.1)).
Proof.
  intros [Hs Hr] Hset Est Hconf <-. unfold reset_ok in Hr. rewrite Est in Hr. destruct Hr as [Hend (data & -> & Ho & Hd)]. unfold OnceSync.on_packet_ack.
  destruct Hd as [Hd | [Hd | (k & t & Hd & Hk & Hin)]]; rewrite Hd.
  1, 2: cbn [fst snd]; apply core_half; [split; [done |]; unfold reset_ok; rewrite Est; eauto 10 | by destruct (half w)].
  cbn [packet packet_nr]. rewrite (acknowledged_in set a b k Hset Hk). destruct ((a <=? k) && (k <=? b)) eqn:Eb; cbn [fst snd].
  - split; [exact Hs |]. unfold reset_ok. cbn [with_half half SendStream.set_state SendStream.state]. split; [exact Hend |]. right. exists data.
    split; [done |]. split; [exact Ho |]. split; [done |]. exists k. apply andb_prop in Eb as [?%Z.leb_le ?%Z.leb_le]. by apply Hconf.
  - apply core_half; [split; [done |]; unfold reset_ok; rewrite Est; eauto 12 | by destruct (half w)].
Qed.

Lemma step_acked w set a b : half_ok w -> ack_set_ok ApplicationData set a b -> returns (half_step w (Acked set a b)) half_ok.
Proof.
  intros H Hset. cbn [half_step]. unfold SendStream.on_packet_ack. change (SendStream.the_writer be) with (the_writer be).
  destruct (sender_acked_half w set a b H Hset) as (d & -> & H1). cbn [obind]. set (w1 := confirm w a b _) in H1.
  destruct (flow_ack_ok _ (acknowledged set) (half_flow_ok w1 H1)) as (f1 & E1 & Hf1 & Hw1 & Hq1). cbn [w1 confirm half] in E1. rewrite E1. cbn [obind].
  pose proof (sync_half w1 f1 H1 Hf1 Hw1 Hq1) as H2. set (w2 := with_half w1 _) in H2.
  destruct (flow_ack_ok _ (acknowledged set) (half_flow_ok w2 H2)) as (f2 & E2 & Hf2 & Hw2 & Hq2). cbn [w2 with_half w1 confirm half] in E2. rewrite E2. cbn [obind].
  pose proof (sync_half w2 f2 H2 Hf2 Hw2 Hq2) as H3. set (s3 := SendStream.set_flow (SendStream.set_flow _ _) f2) in *.
  change (half_ok (confirm w a b s3)) in H3.
  assert (Hwake : forall s b0, half_ok (confirm w a b s) ->
    returns (let! '(s', _) := Ret (if b0 : bool then SendStream.wake s no_events else (s, no_events)) in Ret (confirm w a b s')) half_ok).
  { intros s b0 Hs. pose proof (wake_half (confirm w a b s) s no_events Hs) as Hw. destruct b0; [destruct (SendStream.wake s no_events) |]; apply returns_ret; [exact Hw | exact Hs]. }
  destruct (SendStream.state s3) as [| e | e] eqn:Est; [by apply Hwake | | by apply (Hwake s3 false)].
  destruct (OnceSync.on_packet_ack (SendStream.reset_sync s3) (acknowledged set)) as [sync ready] eqn:Es.
  assert (H4 := reset_acked_half (confirm w a b s3) set a b e (sync, ready) H3 Hset Est). cbn [fst snd confirm frames confirmed half] in H4.
  specialize (H4 ltac:(intros k f Hin Hk; apply elem_of_app; right; apply list_elem_of_filter; split; [unfold within; cbn; apply Is_true_true, andb_true_intro; split; apply Z.leb_le; lia | done]) Es).
  destruct ready; [by apply (Hwake _ true) | by apply (Hwake _ false)].
Qed.

Lemma sender_lost_half w set a b : half_ok w -> ack_set_ok ApplicationData set a b ->
  returns (DataSender.on_packet_loss (SendStream.data_sender (half w)) set) (fun d => half_ok (with_half w (SendStream.set_sender (half w) d))).
Proof.
  intros H Hset. destruct (half_sender w H) as [A HA].
  destruct (exec_loss_ok capacity ApplicationData id capacity_ok (view w) A set a b HA Hset) as (W' & EW & [A' HW'] & _).
  cbn [view exec] in EW. ret_inv EW. injection EW as <-. destruct (loss_effect be _ _ _ E) as (_ & _ & Hfc & Heff). eexists. split; [reflexivity |]. split; [by exists A' |].
  apply (keep_reset w); cbn [with_half half SendStream.set_sender SendStream.data_sender SendStream.state SendStream.reset_sync frames confirmed]; try done; [apply half_reset, H | |].
  - destruct (st (half w)); [by rewrite Heff | by destruct Heff as [? ->] | by rewrite Heff | by rewrite Heff].
  - intros e He Hq. rewrite He in Heff. unfold ended, SendStream.flow in *. cbn [with_half half SendStream.set_sender SendStream.data_sender] in *. rewrite Heff.
    destruct Hfc as [-> | ->]; [done |]. split; [split; [done | by apply clear_quiet] |]. unfold StreamFlow.clear_blocked. by destruct (StreamFlow.is_finished _).
Qed.

Lemma step_missing w set a b : half_ok w -> ack_set_ok ApplicationData set a b -> returns (half_step w (Missing set a b)) half_ok.
Proof.
  intros H Hset. cbn [half_step]. unfold SendStream.on_packet_loss. change (SendStream.the_writer be) with (the_writer be).
  destruct (sender_lost_half w set a b H Hset) as (d & -> & H1). cbn [obind]. set (w1 := with_half w _) in H1.
  destruct (flow_loss_ok _ (acknowledged set) (half_flow_ok w1 H1)) as (Hf & Hw & Hq). pose proof (sync_half w1 _ H1 Hf Hw Hq) as [Hs Hr]. apply returns_ret.
  split; [exact Hs |]. clear Hs Hf Hw Hq. set (s2 := SendStream.set_flow _ _) in *. change (reset_ok (with_half w s2)) in Hr.
  unfold reset_ok in *. cbn [with_half half SendStream.set_reset SendStream.state SendStream.reset_sync frames confirmed] in *. destruct (SendStream.state s2) as [| e | e].
  - destruct Hr as (Hc & Hd & Hn). unfold OnceSync.on_packet_loss. by rewrite Hd.
  - destruct Hr as [Hend (data & -> & Ho & Hd)]. split; [exact Hend |]. exists data. split; [done |]. split; [exact Ho |]. unfold OnceSync.on_packet_loss.
    destruct Hd as [Hd | [Hd | (k & t & Hd & Hk & Hin)]]; rewrite Hd; [by left | by right; left |].
    destruct (acknowledged set _); [by right; left | right; right; by exists k, t].
  - destruct Hr as [Hend Hd]. split; [exact Hend |]. unfold OnceSync.on_packet_loss.
    destruct Hd as [[[v Hd] Hn] | (data & ? & ? & Hd & ?)]; rewrite Hd; [left; by split; [exists v |] | right; by exists data].
Qed.

(** ** Packets *)

Definition sent_in (w : half_world) (n : Z) (fs : list frame) (s : stream_half) : half_world :=
  mk_half s (accepted w) (frames w ++ ((fun f => (n, f)) <$> fs)) (confirmed w) n.

Lemma sent_in_twice w n fs s gs s' : sent_in (sent_in w n fs s) n gs s' = sent_in w n (fs ++ gs) s'.
Proof. unfold sent_in. cbn. by rewrite fmap_app, (assoc_L (++)). Qed.

Lemma newest_world (W : world) A n : world_ok ApplicationData id W A -> last W <= n ->
  world_ok ApplicationData id (mk_world (sender W) (stream W) (sent W) (delivered W) n) A.
Proof.
  intros [] Hn. split; cbn [sender stream sent delivered last]; try done; [by apply (sender_ok_last ApplicationData _ _ _ (last W)) |].
  intros m f Hm. destruct (wo_sent m f Hm). split; [lia | done].
Qed.

(** Frames that are not data change nothing for the data sender. *)
Lemma view_other w n fs s :
  (forall f, f ∈ fs -> is_data (n, f) = false) ->
  view (sent_in w n fs s) = mk_world (SendStream.data_sender s) (accepted w) (sent (view w)) (delivered (view w)) n.
Proof.
  intros H. unfold view. cbn [sent_in half accepted frames confirmed newest sent delivered]. f_equal. rewrite filter_app.
  replace (filter (fun p => Is_true (is_data p)) ((fun f => (n, f)) <$> fs)) with (@nil (Z * frame)); [by rewrite app_nil_r |].
  symmetry. induction fs as [| f fs IH]; [done |]. rewrite fmap_cons, filter_cons_False; [apply IH; intros g Hg; apply H; by right |].
  rewrite (H f); [auto | by left].
Qed.

Lemma reset_frame_short data : frame_ok (reset_frame data) -> blen (frame_wire (reset_frame data)) < 2 ^ 64.
Proof.
  intros (H1 & H2 & H3). unfold frame_wire. cbn [reset_stream_writer]. rewrite blen_cons, !blen_app.
  assert (Hw : forall v, varint_ok v -> blen (VarIntCodec.wire v) <= 8) by (intros v [? ?]; apply (blen_wire_mono v v); lia).
  pose proof (Hw _ H1). pose proof (Hw _ H2). pose proof (Hw _ H3). lia.
Qed.

(** The reset comes first, if there is one. *)
Lemma packet_reset w c n sync res fs :
  half_ok w -> sending_ok c -> varint_ok n -> packet_number c = pn n -> newest w <= n ->
  OnceSync.on_transmit reset_stream_writer (SendStream.reset_sync (half w)) id c = (sync, res, fs) ->
  half_ok (sent_in w n fs (SendStream.set_reset (half w) sync)) /\ packet_ok c fs.
Proof.
  intros [[A HA] Hr] Hc Hn Ep Hle E. pose proof (packet_ok_nil c (sending_writer c Hc)) as Hnil.
  assert (Hview : forall s fs, SendStream.data_sender s = SendStream.data_sender (half w) -> (forall f, f ∈ fs -> is_data (n, f) = false) ->
    exists A, world_ok ApplicationData id (view (sent_in w n fs s)) A).
  { intros s gs Es Hg. exists A. rewrite (view_other w n gs s Hg), Es. by apply (newest_world (view w)). }
  assert (Hsame : half_ok (sent_in w n [] (SendStream.set_reset (half w) (SendStream.reset_sync (half w))))).
  { split; [apply Hview; [done | by intros f ?%not_elem_of_nil] |]. apply (keep_reset w); cbn [sent_in frames half]; try done. by rewrite app_nil_r. }
  unfold OnceSync.on_transmit in E. destruct (Delivery.try_transmit _ _) as [data |] eqn:Et; [| injection E as <- <- <-; done].
  destruct (write_frame c [] (reset_frame data)) as [p |] eqn:Ew; [| injection E as <- <- <-; done]. injection E as <- <- <-. clear Hsame.
  unfold reset_ok in Hr. unfold Delivery.try_transmit in Et.
  destruct (SendStream.state (half w)) as [| e | e] eqn:Est; [destruct Hr as (_ & Hd & _); by rewrite Hd in Et | | destruct Hr as [_ [[[v Hd] _] | (? & _ & _ & Hd & _)]]; by rewrite Hd in Et].
  destruct Hr as [Hend (data' & -> & (Esz & Hcode & before & after & Ef & Hb & Ha) & Hd)].
  assert (data' = data) as -> by (destruct Hd as [Hd | [Hd | (k & t & Hd & _)]]; rewrite Hd in Et; [destruct (ConstraintOps.can_transmit _) | destruct (ConstraintOps.can_retransmit _) |]; by simplify_eq).
  assert (Hf : frame_ok (reset_frame data)).
  { cbn. rewrite Esz. split; [done |]. split; [done |]. destruct (half_flow_ok w) as [_ Hw Hh _ _]; [split; [by exists A | unfold reset_ok; rewrite Est] |].
    - split; [done |]. exists data. split; [done |]. split; [by split; [| split; [| exists before, after]] | done].
    - unfold SendStream.flow in *. unfold varint_ok, VarInt.MAX in *. lia. }
  destruct (sending_frame c Hc [] _ p Hnil Hf (reset_frame_short data Hf) Ew) as [-> Hroom]. split.
  - split; [apply Hview; [done | by intros f ->%list_elem_of_singleton] |]. unfold reset_ok. cbn [sent_in half SendStream.set_reset SendStream.state]. rewrite Est.
    split; [exact Hend |]. exists data. split; [done |]. split.
    + split; [done |]. split; [done |]. exists before, (after ++ [(n, reset_frame data)]). cbn [frames sent_in fmap list_fmap]. rewrite Ef, (assoc_L (++)). split; [done |]. split; [done |].
      intros q [Hq | ->%list_elem_of_singleton]%elem_of_app; [by apply Ha | done].
    + right. right. exists n, (current_time c). cbn. rewrite Ep. split; [done |]. split; [done |]. apply elem_of_app. right. by apply list_elem_of_singleton.
  - change [reset_frame data] with ([] ++ [reset_frame data]). by apply packet_ok_snoc; [apply Hc | | |].
Qed.

(** The frames of the data sender are data. *)
Lemma data_frames (w : world) A n fs L : world_ok ApplicationData id w A -> sent w = L ++ ((fun f => (n, f)) <$> fs) ->
  filter (fun p => Is_true (is_data p)) ((fun f => (n, f)) <$> fs) = (fun f => (n, f)) <$> fs.
Proof.
  intros Hw E. assert (H : forall f, f ∈ fs -> is_data (n, f) = true).
  { intros f Hf. destruct (wo_sent _ _ _ _ Hw n f) as [_ (x & len & fin & [l ->] & _)]; [| done]. rewrite E. apply elem_of_app. right. apply list_elem_of_fmap. by exists f. }
  clear E Hw. induction fs as [| f fs IH]; [done |]. rewrite fmap_cons, filter_cons_True by (rewrite (H f); [done | by left]). f_equal. apply IH. intros g Hg. apply H. by right.
Qed.

Lemma packet_data w c n :
  half_ok w -> writer_ok c -> varint_ok n -> packet_number c = pn n -> newest w <= n ->
  returns (DataSender.on_transmit capacity (SendStream.data_sender (half w)) id c) (fun '(_, d, fs) => half_ok (sent_in w n fs (SendStream.set_sender (half w) d))
    /\ (forall e, st (half w) = SenderState.Cancelled e -> fs = [])).
Proof.
  intros H Hc Hn Ep Hle. destruct (half_sender w H) as [A HA]. assert (Hv : valid ApplicationData (Transmit c n) (view w)) by done.
  destruct (transmit_effect be capacity capacity_ok id (view w) A c n HA id_ok Hv) as ([[res d] fs] & E & Hbuf & Hmax & Heff).
  destruct (exec_transmit_ok capacity ApplicationData id capacity_ok (stream_context_ok be id id_ok) (view w) A c n HA Hv) as (W' & EW & [A' HW'] & _).
  cbn [view sender] in E. cbn [view exec] in EW. rewrite E in EW. cbn [obind] in EW. injection EW as <-. exists (res, d, fs). split; [exact E |]. cbn [view sender] in Heff. split; [split |].
  - exists A'. unfold view. cbn [sent_in half accepted frames confirmed newest SendStream.set_sender SendStream.data_sender]. rewrite filter_app.
    rewrite (data_frames _ A' n fs _ HW' eq_refl). exact HW'.
  - assert (Hnoreset : forall p, p ∈ (fun f => (n, f)) <$> fs -> is_reset p = false).
    { intros p Hp. rewrite <- (data_frames _ A' n fs _ HW' eq_refl) in Hp. apply list_elem_of_filter in Hp as [Hp _]. unfold is_data, is_reset in *. by destruct p as [m [| | | | | | | | | | | | | | | | | | | | | |]]. }
    pose proof (half_reset w H) as Hr. destruct (st (half w)) as [| fin | | e] eqn:Est.
    3, 4: (destruct Heff as [-> ->]; apply (keep_reset w); unfold ended, SendStream.flow; cbn [sent_in half frames fmap list_fmap SendStream.set_sender SendStream.data_sender]; rewrite ?app_nil_r; try done; by intros e' [= <-]).
    all: unfold reset_ok, ended in Hr |- *; cbn [sent_in half SendStream.set_sender SendStream.state SendStream.reset_sync SendStream.data_sender] in *; rewrite Est in Hr.
    all: destruct (SendStream.state (half w)) as [| e | e]; [| by destruct Hr as [[? _] _]..].
    all: destruct Hr as (_ & Hd & Hnr); split; [first [by rewrite Heff | by destruct Heff as [? ->]] |]; split; [done |]; intros p [Hp | Hp]%elem_of_app; [by apply Hnr | by apply Hnoreset].
  - intros e He. rewrite He in Heff. by destruct Heff.
Qed.

Lemma packet_blocked w c n :
  half_ok w -> timestamp_ok (current_time c) -> newest w = n ->
  returns (StreamFlow.on_transmit (SendStream.flow (half w)) id c) (fun '(f, _, fs) => half_ok (sent_in w n fs (SendStream.set_flow (half w) f))).
Proof.
  intros H Hc En. destruct (flow_transmit_ok _ id c (half_flow_ok w H) Hc) as ([[f res] fs] & -> & Hf & Hw & Hq & Hfs). eexists. split; [reflexivity |].
  assert (Hother : forall g, g ∈ fs -> is_data (n, g) = false /\ is_reset (n, g) = false) by (intros g Hg; by destruct (Hfs g Hg) as [v ->]).
  pose proof (sync_half w f H Hf Hw (fun q => proj1 (Hq q))) as [[A HA] Hr]. split.
  - exists A. rewrite view_other by (intros g Hg; by apply Hother). subst n. exact HA.
  - destruct fs as [| g fs].
    { apply (keep_reset (with_half w (SendStream.set_flow (half w) f))); cbn [sent_in frames with_half half fmap list_fmap]; rewrite ?app_nil_r; done. }
    assert (Hnq : ~ quiet (SendStream.flow (half w))) by (intros Hqu; by destruct (Hq Hqu)).
    pose proof (half_reset w H) as Hr'. unfold reset_ok in Hr, Hr' |- *. cbn [with_half sent_in half SendStream.set_flow SendStream.set_sender SendStream.state] in *.
    destruct (SendStream.state (half w)) as [| e | e]; [| by destruct Hr' as [[_ ?] _]..]. destruct Hr as (Hc1 & Hd & Hn). split; [exact Hc1 |]. split; [exact Hd |].
    intros p [Hp | Hp]%elem_of_app; [by apply Hn |]. apply list_elem_of_fmap in Hp as (g' & -> & Hg'). by apply Hother.
Qed.

Lemma step_packet w c n : half_ok w -> half_possible w (Packet c n) -> returns (half_step w (Packet c n)) half_ok.
Proof.
  intros H (Hc & Hn & Ep & Hle). cbn [half_step]. unfold SendStream.on_transmit. change (SendStream.the_writer be) with (the_writer be).
  destruct (OnceSync.on_transmit reset_stream_writer _ id c) as [[sync res] fs1] eqn:E1.
  destruct (packet_reset w c n sync res fs1 H Hc Hn Ep Hle E1) as [H1 Hfs1]. destruct res; [| by apply returns_ret].
  set (w1 := sent_in w n fs1 _) in H1. pose proof (resume_ok c fs1 (sending_writer c Hc) Hfs1) as Hc1.
  destruct (packet_data w1 (resume c fs1) n H1 Hc1 Hn Ep) as ([[res2 d] fs2] & E2 & H2 & _); [done |]. cbn [w1 sent_in half] in E2. rewrite E2. cbn [obind].
  unfold w1 in H2. rewrite sent_in_twice in H2. destruct res2; [| by apply returns_ret]. set (w2 := sent_in w n (fs1 ++ fs2) _) in H2.
  destruct (packet_blocked w2 (resume c (fs1 ++ fs2)) n H2 (sending_time c Hc) eq_refl) as ([[f res3] fs3] & E3 & H3). cbn [w2 sent_in half] in E3. rewrite E3. cbn [obind].
  apply returns_ret. unfold w2 in H3. rewrite sent_in_twice, <- (assoc_L (++)) in H3. exact H3.
Qed.

(** ** Requests *)

Definition grown (w : half_world) (s : stream_half) (data : list Z) : half_world :=
  mk_half s (accepted w ++ data) (frames w) (confirmed w) (newest w).

Lemma grown_nil w s : grown w s [] = with_half w s.
Proof. unfold grown. by rewrite app_nil_r. Qed.

Lemma total_len_half w : half_ok w -> is_cancelled (st (half w)) = false ->
  Buffer.total_len (DataSender.buffer (SendStream.data_sender (half w))) = Ret (blen (accepted w)).
Proof.
  intros [[A HA] _] Hc. pose proof (so_buffer _ _ _ _ _ (wo_sender _ _ _ _ HA)) as Hb. rewrite (live_stream (view w)) in Hb by done. by apply total_len_ok.
Qed.

(** A valid push. *)
Lemma validate_push_half w len : half_ok w -> is_cancelled (st (half w)) = false -> 0 <= len ->
  returns (SendStream.validate_push (half w) len) (fun r => match r with
    | Ok _ => st (half w) = SenderState.Sending /\ blen (accepted w) + len <= VarInt.MAX
    | Err e => e = SendAfterFinish \/ e = MaxStreamDataSizeExceeded
    end).
Proof.
  intros H Hc Hl. unfold SendStream.validate_push. destruct (st (half w)) eqn:Est; cbn [SenderState.is_sending negb]; try (apply returns_ret; by left).
  unfold DataSender.total_enqueued_len. rewrite (total_len_half w H) by (by rewrite Est). pose proof (blen_nonneg (accepted w)).
  unfold VarInt.checked_add, checked_add, VarInt.new, VarInt.MAX. destruct (Z.ltb_spec MAX_VARINT_VALUE len); cbn [VarInt.ok obind]; apply returns_ret; [by right |].
  destruct (Z.ltb_spec (blen (accepted w) + len) (2 ^ 64)); [| by right]. destruct (Z.ltb_spec MAX_VARINT_VALUE (blen (accepted w) + len)); cbn; [by right |]. split; [done | lia].
Qed.

Lemma push_half w chunk :
  half_ok w -> SendStream.state (half w) = SendStream.Sending -> st (half w) = SenderState.Sending -> chunk_len chunk <= umax 32 ->
  blen (accepted w) + chunk_len chunk <= VarInt.MAX ->
  returns (DataSender.push (SendStream.data_sender (half w)) chunk) (fun d => half_ok (grown w (SendStream.set_sender (half w) d) (bytes_slice chunk)) /\ DataSender.state d = SenderState.Sending).
Proof.
  intros H Est Es Hl Hmax. destruct (half_sender w H) as [A HA].
  destruct (exec_push_ok capacity ApplicationData id capacity_ok (view w) A chunk HA) as (W' & EW & [A' HW'] & _); [cbn; by rewrite Es |].
  cbn [view exec] in EW. ret_inv EW. injection EW as <-. destruct (push_effect be _ _ _ E) as (Ef & Est' & _). eexists. split; [reflexivity |].
  split; [split; [by exists A' |] | by rewrite Est', Es].
  apply (keep_reset w); cbn [grown half SendStream.set_sender SendStream.data_sender SendStream.state SendStream.reset_sync frames confirmed]; try done; [apply half_reset, H | by rewrite Est' |].
  by rewrite Es.
Qed.

Local Abbreviation flow_of := (SendStream.flow_of_request (CE := CE) (B := B)).
Definition part (g : flow_of) : stream_half := match g with SendStream.Go s _ | SendStream.Stop _ s => s end.

Lemma sending_not_cancelled w : half_ok w -> SendStream.state (half w) = SendStream.Sending -> is_cancelled (st (half w)) = false.
Proof. intros [_ Hr] Es. unfold reset_ok in Hr. rewrite Es in Hr. apply Hr. Qed.

Lemma store_waker_core s r context flush : same_core s (SendStream.store_waker s r context flush).1.
Proof. by destruct context. Qed.

(** The state of the stream after a part of a request that added [data]. *)
Definition part_ok (w : half_world) (data : list Z) (g : flow_of) : Prop :=
  half_ok (grown w (part g) data) /\ SendStream.state (part g) = SendStream.Sending.

Lemma part_core w g : half_ok w -> SendStream.state (half w) = SendStream.Sending -> same_core (half w) (part g) -> part_ok w [] g.
Proof. intros H Es Hc. split; [| destruct Hc as [Hc _]; by rewrite Hc]. rewrite grown_nil. by apply core_half. Qed.

Lemma push_chunks_half context chunks : forall w r, half_ok w -> SendStream.state (half w) = SendStream.Sending ->
  Forall (fun chunk => chunk_len chunk <= umax 32) chunks ->
  returns (SendStream.push_chunks be (half w) r context chunks) (fun g => exists data rest, concat (bytes_slice <$> chunks) = data ++ rest /\ part_ok w data g).
Proof.
  induction chunks as [| chunk chunks IH]; intros w r H Es Hlen.
  { apply returns_ret. exists [], []. split; [done |]. split; [rewrite grown_nil; by destruct w | done]. }
  apply Forall_cons in Hlen as [Hl Hlen]. cbn [SendStream.push_chunks]. destruct (Z.eqb_spec (chunk_len chunk) 0) as [E0 | E0].
  { eapply returns_mono; [by apply (IH w) |]. intros g (data & rest & E & Hg). exists data, rest. split; [| done]. cbn. rewrite <- E. unfold chunk_len, blen in E0.
    by destruct (bytes_slice chunk). }
  rstep (validate_push_half w (chunk_len chunk) H (sending_not_cancelled w H Es)); [apply blen_nonneg |]. intros [[] | e].
  2: { intros _. apply returns_ret. exists [], (concat (bytes_slice <$> chunk :: chunks)). split; [done |]. split; [rewrite grown_nil; by destruct w | done]. }
  intros [Est Hmax]. destruct (negb (SendStream.can_push (half w))).
  { pose proof (store_waker_core (half w) r context false) as Hc. destruct (SendStream.store_waker (half w) r context false) as [s' r']. apply returns_ret.
    exists [], (concat (bytes_slice <$> chunk :: chunks)). split; [done |]. by apply part_core. }
  change (SendStream.the_writer be) with (the_writer be). destruct (push_half w chunk H Es Est Hl Hmax) as (d & -> & H1 & _). cbn [obind].
  eapply returns_mono; [apply (IH (grown w (SendStream.set_sender (half w) d) (bytes_slice chunk))); done |]. intros g (data & rest & E & Hg & Hsg).
  exists (bytes_slice chunk ++ data), rest. split; [cbn; by rewrite E, (assoc_L (++)) |]. split; [| done].
  unfold grown in *. cbn [accepted frames confirmed newest] in Hg. by rewrite <- (assoc_L (++)) in Hg.
Qed.

Lemma poll_chunks_half w request context : half_ok w -> half_possible w (Request request context) -> SendStream.state (half w) = SendStream.Sending ->
  returns (SendStream.poll_chunks be (half w) request context) (fun g => exists data rest,
    concat (bytes_slice <$> default [] (Tx_.chunks request)) = data ++ rest /\ part_ok w data g).
Proof.
  intros H [Hlen _] Es. unfold SendStream.poll_chunks.
  assert (Hnone : forall g chunks, same_core (half w) (part g) -> exists data rest, concat (bytes_slice (B := B) <$> chunks) = data ++ rest /\ part_ok w data g).
  { intros g chunks Hc. exists [], (concat (bytes_slice <$> chunks)). split; [done |]. by apply part_core. }
  assert (Hidle : returns (if negb (Tx_.finish request) && negb (Tx_.flush request) && match context with Some _ => true | None => false end then
      let! valid := SendStream.validate_push (half w) 1 in
      match valid with
      | Err e => Ret (SendStream.Stop (Err e) (half w))
      | Ok _ =>
          if negb (SendStream.can_push (half w)) then
            let '(self, r) := SendStream.store_waker (half w) Rx.default context false in Ret (SendStream.Stop (Ok r) self)
          else Ret (SendStream.Go (half w) Rx.default)
      end
    else Ret (SendStream.Go (half w) Rx.default)) (fun g => exists data rest, concat (bytes_slice <$> default [] (Tx_.chunks request)) = data ++ rest /\ part_ok w data g)).
  { destruct (_ && _ && _); [| apply returns_ret; by apply Hnone]. rstep (validate_push_half w 1 H (sending_not_cancelled w H Es)); [done |].
    intros [[] | e] _; [| apply returns_ret; by apply Hnone]. destruct (negb _); [| apply returns_ret; by apply Hnone].
    pose proof (store_waker_core (half w) Rx.default context false) as Hc. destruct (SendStream.store_waker _ _ context false). apply returns_ret. by apply Hnone. }
  destruct (Tx_.chunks request) as [[| chunk chunks] |]; [exact Hidle | | exact Hidle]. by apply (push_chunks_half context (chunk :: chunks) w).
Qed.

Lemma poll_finish_half w r request context : half_ok w -> SendStream.state (half w) = SendStream.Sending ->
  returns (SendStream.poll_finish be (half w) r request context) (part_ok w []).
Proof.
  intros H Es. unfold SendStream.poll_finish. destruct (Tx_.finish request).
  2: { destruct (Tx_.flush request && _); [| apply returns_ret; by apply part_core].
       pose proof (store_waker_core (half w) r context true) as Hc. destruct (SendStream.store_waker (half w) r context true). apply returns_ret. by apply part_core. }
  destruct (SenderState.is_finished (st (half w))); [apply returns_ret; by apply part_core |]. change (SendStream.the_writer be) with (the_writer be).
  destruct (half_sender w H) as [A HA]. destruct (exec_finish_ok capacity ApplicationData id capacity_ok (view w) A HA) as (W' & EW & [A' HW'] & _).
  cbn [view exec] in EW. ret_inv EW. injection EW as <-. destruct (finish_effect be _ _ E) as (Ef & _ & _ & Hst). cbn [obind].
  assert (H1 : half_ok (with_half w (SendStream.set_sender (half w) a))).
  { split; [by exists A' |]. apply (keep_reset w); cbn [with_half half SendStream.set_sender SendStream.data_sender SendStream.state SendStream.reset_sync frames confirmed]; try done; [apply half_reset, H | |].
    - destruct Hst as [-> | [-> ->]]; done.
    - intros e He Hq. pose proof (sending_not_cancelled w H Es) as Hc. by rewrite He in Hc. }
  set (s1 := SendStream.set_sender (half w) a) in *. assert (Hfin : forall g, same_core s1 (part g) -> part_ok w [] g).
  { intros g Hc. destruct (part_core (with_half w s1) g H1 Es Hc) as [Hg Hsg]. split; [| done]. unfold grown in *. exact Hg. }
  destruct (Tx_.flush request); [| apply returns_ret; by apply Hfin].
  pose proof (store_waker_core s1 (SendStream.set_status r Finishing) context true) as Hc. destruct (SendStream.store_waker s1 _ context true). apply returns_ret. by apply Hfin.
Qed.

Lemma poll_reset_half w code flush context : half_ok w -> varint_ok code ->
  returns (SendStream.poll_reset be (half w) code flush context) (fun '(_, s) => half_ok (with_half w s)).
Proof.
  intros H Hcode. unfold SendStream.poll_reset. rstep (reset_half w LocalApplication (StreamReset code) H); [by exists code |]. intros [res s] Hs.
  assert (Hcore : forall s', same_core s s' -> half_ok (with_half w s')) by (intros s' Hc; by apply (core_half (with_half w s))).
  destruct (flush && _).
  - pose proof (store_waker_core s (SendStream.set_status Rx.default Resetting) context true) as Hc. destruct (SendStream.store_waker s _ context true). apply returns_ret. by apply Hcore.
  - apply returns_ret. by apply Hcore.
Qed.

Lemma pushed_ok w s data rest request : half_ok w -> half_ok (grown w s data) -> SendStream.state (half w) = SendStream.Sending -> SendStream.state s = SendStream.Sending ->
  Tx_.reset request = None -> concat (bytes_slice <$> default [] (Tx_.chunks request)) = data ++ rest -> pushed (half w) s request = data.
Proof.
  intros H H' Es Es' Er E. unfold pushed, total_len. rewrite Er, E, (total_len_half w H (sending_not_cancelled w H Es)).
  pose proof (total_len_half _ H' (sending_not_cancelled _ H' Es')) as Et. cbn [grown half accepted] in Et. rewrite Et, blen_app.
  replace (Z.to_nat (blen (accepted w) + blen data - blen (accepted w))) with (length data) by (unfold blen; lia). apply take_app_length.
Qed.

Lemma step_request w request context : half_ok w -> half_possible w (Request request context) -> returns (half_step w (Request request context)) half_ok.
Proof.
  intros H Hp. cbn [half_step]. unfold SendStream.poll_request. set (s0 := if Tx_.detached request then _ else _).
  assert (Hc0 : same_core (half w) s0) by (unfold s0; destruct (Tx_.detached request); [apply detach_core | done]).
  assert (H0 : half_ok (with_half w s0)) by (by apply core_half). set (w0 := with_half w s0) in H0.
  destruct (Tx_.reset request) as [code |] eqn:Er.
  { destruct (poll_reset_half w0 code (Tx_.flush request) context H0) as ([res s] & E & Hs); [by apply Hp |]. cbn [w0 with_half half] in E. rewrite E. cbn [obind].
    apply returns_ret. unfold pushed. rewrite Er, app_nil_r. exact Hs. }
  assert (Hpush : forall s, total_len s0 = total_len (half w) -> pushed (half w) s request = pushed s0 s request) by (intros s E; unfold pushed; by rewrite E).
  assert (Et : total_len s0 = total_len (half w)) by (unfold total_len; by destruct Hc0 as (_ & -> & _)).
  assert (Hsame : forall s, same_core s0 s -> half_ok (mk_half s (accepted w ++ pushed (half w) s request) (frames w) (confirmed w) (newest w))).
  { intros s Hc. assert (total_len s = total_len (half w)) as Es by (rewrite <- Et; unfold total_len; by destruct Hc as (_ & -> & _)).
    unfold pushed. rewrite Er, Es, Z.sub_diag. cbn [Z.to_nat take]. rewrite app_nil_r. by apply (core_half w0). }
  destruct (SendStream.state s0) as [| e | e] eqn:Es; [| apply returns_ret; by apply Hsame..].
  destruct (poll_chunks_half w0 request context H0 Hp Es) as (g & E1 & data & rest & Ed & Hg & Hsg). cbn [w0 with_half half] in E1. rewrite E1. cbn [obind].
  assert (Hdone : forall s, half_ok (grown w0 s data) -> SendStream.state s = SendStream.Sending ->
    half_ok (mk_half s (accepted w ++ pushed (half w) s request) (frames w) (confirmed w) (newest w))).
  { intros s Hs Hst. rewrite (Hpush s Et). pose proof (pushed_ok w0 s data rest request H0 Hs Es Hst Er Ed) as Ep. cbn [w0 with_half half] in Ep. rewrite Ep. exact Hs. }
  destruct g as [s r | res s]; [| apply returns_ret; by apply Hdone]. cbn [part] in Hg, Hsg.
  destruct (poll_finish_half (grown w0 s data) r request context Hg Hsg) as (g & E2 & Hg2 & Hsg2). cbn [grown half] in E2. rewrite E2. cbn [obind].
  assert (Hg3 : half_ok (grown w0 (part g) data)) by (rewrite grown_nil in Hg2; exact Hg2).
  destruct g as [s' r' | res s']; apply returns_ret; by apply Hdone.
Qed.

Lemma half_step_ok w ev : half_ok w -> half_possible w ev -> returns (half_step w ev) half_ok.
Proof.
  intros H Hp. destruct ev; [by apply step_request | by apply step_packet | by apply step_acked | by apply step_missing | by apply step_max_stream | by apply step_stop
    | by apply step_expired | by apply step_period | by apply step_closed | by apply step_flushed | by apply step_window | by apply step_shared].
Qed.

Lemma half_run_ok evs : forall w, half_ok w -> half_possible_run w evs -> returns (half_run w evs) half_ok.
Proof.
  induction evs as [| ev evs IH]; intros w H Hp; [by apply returns_ret |]. destruct Hp as [Hp Hrest]. cbn [half_run].
  destruct (half_step_ok w ev H Hp) as (w' & E & H'). rewrite E. cbn [obind]. apply IH; [done |]. by apply Hrest.
Qed.

Lemma half_start_ok o initial_window max_buffer : connection_ok o -> varint_ok initial_window -> half_ok (half_start o initial_window max_buffer).
Proof.
  intros Ho Hi. assert (Hf : stream_flow_ok (StreamFlow.new o initial_window)).
  { split; cbn; try done. exists 0. split; [apply Hi |]. by apply ps_new_ok. }
  pose proof (start_ok capacity ApplicationData id capacity_ok (E := error) (StreamFlow.new o initial_window) max_buffer Hf) as Hst. split; [eexists; by apply Hst |].
  unfold reset_ok. cbn. split; [done |]. split; [done |]. by intros p ?%not_elem_of_nil.
Qed.

(** ** What the peer sees *)

Local Abbreviation reset_stream code size := (Frame.ResetStream (ResetStream.mk id code size)).

(** Once a reset was sent nothing else is, and the final size in it, always the
    same, is not below the end of any data that was sent. *)
Definition resets_last (w : half_world) : Prop :=
  exists before after, frames w = before ++ after /\ (forall p, p ∈ before -> is_reset p = false)
    /\ (after = [] \/ exists code size, (forall p, p ∈ after -> p.2 = reset_stream code size) /\ forall p, p ∈ before -> frame_end p.2 <= size).

(** The reset is sent until the peer has acknowledged it. *)
Definition reset_delivered (w : half_world) : Prop :=
  match SendStream.state (half w) with
  | SendStream.Sending => no_resets w
  | SendStream.ResetSent e => exists code, e = StreamReset code
      /\ (OnceSync.transmission_interest (SendStream.reset_sync (half w)) <> []
          \/ OnceSync.is_inflight (SendStream.reset_sync (half w)) = true /\ exists k size, (k, reset_stream code size) ∈ frames w)
  | SendStream.ResetAcknowledged e => no_resets w \/ exists k code size, e = StreamReset code /\ (k, reset_stream code size) ∈ confirmed w
  end.

Lemma sent_below w p : half_ok w -> p ∈ frames w -> frame_end p.2 <= size_of w.
Proof.
  intros H Hp. destruct (half_sender w H) as [A HA]. pose proof (half_flow_ok w H) as [_ [Hw _] _ _ _]. destruct p as [m f]. destruct (is_data (m, f)) eqn:Ed.
  - destruct (wo_sent _ _ _ _ HA m f) as [_ Hg]; [apply list_elem_of_filter; by rewrite Ed |]. apply genuine_end in Hg. cbn [snd]. etransitivity; [exact Hg |].
    change (StreamFlow.available_window (SendStream.flow (half w)) <= size_of w). unfold StreamFlow.available_window. lia.
  - unfold is_data in Ed. cbn [snd] in *. by destruct f.
Qed.

Lemma only_resets_last w data : half_ok w -> only_resets w data -> resets_last w.
Proof.
  intros H (Esz & _ & before & after & E & Hb & Ha). exists before, after. split; [done |]. split; [done |]. right. exists (application_error_code data), (final_size data).
  split; [exact Ha |]. intros p Hp. rewrite Esz. apply sent_below; [done |]. rewrite E. apply elem_of_app. by left.
Qed.

Lemma half_resets_last w : half_ok w -> resets_last w.
Proof.
  intros H. assert (Hno : no_resets w -> resets_last w) by (intros Hn; exists (frames w), []; rewrite app_nil_r; split; [done |]; split; [done | by left]).
  pose proof (half_reset w H) as Hr. unfold reset_ok in Hr. destruct (SendStream.state (half w)).
  - apply Hno, Hr.
  - destruct Hr as [_ (data & _ & Ho & _)]. by eapply only_resets_last.
  - destruct Hr as [_ [[_ Hn] | (data & _ & Ho & _)]]; [by apply Hno | by eapply only_resets_last].
Qed.

Lemma half_reset_delivered w : half_ok w -> reset_delivered w.
Proof.
  intros H. pose proof (half_reset w H) as Hr. unfold reset_ok, reset_delivered in *. destruct (SendStream.state (half w)); [apply Hr | |].
  - destruct Hr as [_ (data & -> & _ & Hd)]. exists (application_error_code data). split; [done |]. unfold OnceSync.transmission_interest, OnceSync.is_inflight.
    destruct Hd as [-> | [-> | (k & t & -> & _ & Hin)]]; [by left | by left | right]. split; [done |]. by exists k, (final_size data).
  - destruct Hr as [_ [[_ Hn] | (data & -> & _ & _ & k & Hin)]]; [by left | right]. by exists k, (application_error_code data), (final_size data).
Qed.

End Life.

(** ** A stream that is stopped by the peer *)

Definition stopped_writer (n time : Z) : Writer :=
  Context.writer true (Context.mk (mk_eb (replicate 64 0) 0) Frame.NonEliciting false (PacketNumber.from_varint n ApplicationData) Unconstrained Normal time 0 16).
Lemma stopped_writer_ok n time : timestamp_ok time -> sending_ok (stopped_writer n time).
Proof. intros Ht. apply context_sending_ok; [split; [done | by vm_compute] | by vm_compute | done | done | exact Ht]. Qed.

Definition write_request (chunk : list Z) : Tx_.Request (list Z) := Tx_.mk_request (Some [chunk]) None false false false.

Local Abbreviation set_of n := (packet_number_set (PacketNumber.from_varint n ApplicationData)).
Definition stopped_history : list (half_event (CE := unit) (B := list Z)) :=
  [Request (write_request [1; 2; 3]) (Some 7); Packet (stopped_writer 0 1000) 0; StopSendingFrom 42; Packet (stopped_writer 1 2000) 1;
   Missing (set_of 1) 1 1; Packet (stopped_writer 2 3000) 2; Acked (set_of 2) 2 2].

Lemma half_possible_cons ev evs (w w' : half_world (CE := unit) (B := list Z)) :
  half_possible w ev -> half_step true (fun n => n) 4 w ev = Ret w' -> half_possible_run true (fun n => n) 4 w' evs ->
  half_possible_run true (fun n => n) 4 w (ev :: evs).
Proof. intros Hp E Hr. split; [done |]. intros w0 E0. by assert (w0 = w') as -> by congruence. Qed.

Ltac next_half :=
  eapply half_possible_cons;
    [lazymatch goal with
     | |- half_possible _ (Request _ _) => split; [repeat constructor; by vm_compute | intros ? [=]]
     | |- half_possible _ (Packet _ _) => split; [apply stopped_writer_ok; by vm_compute | split; [by vm_compute | split; [reflexivity | by vm_compute]]]
     | |- half_possible _ (Acked _ _ _) => apply packet_number_set_ok; by vm_compute
     | |- half_possible _ (Missing _ _ _) => apply packet_number_set_ok; by vm_compute
     | |- _ => by vm_compute
     end
    | vm_compute; reflexivity |].

