(* ===== verification/SendStreamWake.v ===== *)
(** * Waiting for a sending stream

    A writer waits for a sending stream only while there is something to wait
    for, and a stream the application has let go of is let go of as soon as its
    end is known. *)
From stdpp Require Import gmap sets list.
From S2P Require Import Prelude Codec VarInt PacketNumber MapInterface PacketMap PacketMapThm Interval IntervalInsert IntervalSet VarIntSet FrameAck Frames FrameCodec Time Transmission TransmissionContext Recovery Sync FlowControl FlowControlThm SendBuffer SendBufferThm Transmissions TransmissionsThm DataSender DataWriter TransmitThm DataSenderThm DataSenderTransmit DataSenderReliable StreamFlow StreamFlowThm StreamOps SendStream SendStreams SendStreamThm SendStreamLife.

Section Wake.
Context {CE B : Type} `{HB : Bytes B, !BytesSpec B} (be : bool) (capacity : Z -> Z) (id : Z).
#[local] Existing Instance stream_flow_controller.
#[local] Existing Instance stream_flow_spec.
#[local] Hint Extern 0 (ChunkWriter _ B) => exact (the_writer be) : typeclass_instances.
#[local] Hint Extern 0 (ChunkWriterSpec _ B) => exact (the_writer_spec be) : typeclass_instances.
Hypothesis capacity_ok : forall n, 0 < n < 2 ^ 63 -> n <= capacity n < 2 ^ 63.
Hypothesis id_ok : varint_ok id.

Local Abbreviation error := (StreamError CE).
Local Abbreviation stream_half := (SendStream.t CE B).
Local Abbreviation half_world := (half_world (CE := CE) (B := B)).
Local Abbreviation half_event := (half_event (CE := CE) (B := B)).
Local Abbreviation st s := (DataSender.state (SendStream.data_sender s)).
Local Abbreviation no_events := (mk_events None None).
Local Abbreviation waiter := SendStream.write_waiter.
Local Abbreviation is_empty s := (DataSender.is_empty (SendStream.data_sender s)).

(** ** What a writer waits for *)

(** Space in the buffer, or for a flush that the buffer is empty; that the peer has
    acknowledged the end of the stream; or that it has acknowledged the reset. *)
Definition waits (s : stream_half) : Prop :=
  forall waker flush, waiter s = Some (waker, flush) ->
    match SendStream.state s with
    | SendStream.Sending =>
        match st s with
        | SenderState.Sending => SendStream.can_push s = false \/ (flush = true /\ is_empty s = false)
        | SenderState.Finishing _ => True
        | _ => False
        end
    | SendStream.ResetSent _ => True
    | SendStream.ResetAcknowledged _ => False
    end.

(** The peer knows all of the stream, or of the reset. *)
Definition concluded (s : stream_half) : bool :=
  match SendStream.state s with
  | SendStream.Sending => SenderState.is_finished (st s)
  | SendStream.ResetSent _ => false
  | SendStream.ResetAcknowledged _ => true
  end.
Definition released (s : stream_half) : Prop :=
  SendStream.detached s = true -> waiter s = None /\ (concluded s = true -> SendStream.final_state_observed s = true).

(** The waker a step wakes. *)
Definition woken (w : half_world) (ev : half_event) : option Z :=
  let waker_of (r : outcome (stream_half * StreamEvents)) := match r with Ret (_, events) => write_wake events | Panic => None end in
  match ev with
  | Acked set _ _ => waker_of (SendStream.on_packet_ack be (half w) set no_events)
  | MaxStream v => write_wake (SendStream.on_max_stream_data (half w) (MaxStreamData.mk id v) no_events).2
  | StopSendingFrom code => waker_of (SendStream.on_stop_sending be (half w) (StopSending.mk id code) no_events)
  | ConnectionClosed e => waker_of (SendStream.on_internal_reset be (half w) e no_events)
  | ConnectionFlushed e => waker_of (SendStream.on_flush be (half w) e no_events)
  | _ => None
  end.

(** A waker is given up only by waking it; a request may replace it. *)
Definition kept_or_woken (w : half_world) (ev : half_event) (w' : half_world) : Prop :=
  match ev with
  | Request _ _ => True
  | _ => waiter (half w') = waiter (half w) \/ (waiter (half w') = None /\ woken w ev = fst <$> waiter (half w))
  end.

(** The application does not wait for a stream it let go of, nor for the reset of
    a stream that is already finished. *)
Definition waker_possible (w : half_world) (ev : half_event) : Prop :=
  match ev with
  | Request request context =>
      (SendStream.detached (half w) || Tx_.detached request = true -> context = None)
      /\ (is_Some (Tx_.reset request) -> Tx_.flush request = true -> st (half w) = SenderState.Finished -> context = None)
  | _ => True
  end.

(** ** The parts of an operation *)

(** The data sender and the state have not changed for a writer. *)
Definition same_waits (s s' : stream_half) : Prop :=
  waiter s' = waiter s /\ SendStream.state s' = SendStream.state s /\ SendStream.detached s' = SendStream.detached s
  /\ SendStream.final_state_observed s' = SendStream.final_state_observed s
  /\ SendStream.can_push s' = SendStream.can_push s /\ is_empty s' = is_empty s
  /\ match st s with SenderState.Finishing _ => exists fin, st s' = SenderState.Finishing fin | other => st s' = other end.

Lemma same_waits_keeps s s' : same_waits s s' -> waits s -> released s -> waits s' /\ released s'.
Proof.
  intros (Ew & Es & Ed & Eo & Ec & Ee & Hst) Hw Hr. unfold waits, released, concluded in *. rewrite Ew, Es, Ed, Eo, Ec, Ee. split.
  - intros waker flush E. specialize (Hw waker flush E). destruct (SendStream.state s); [| done..]. destruct (st s); [by rewrite Hst | by destruct Hst as [? ->] | by rewrite Hst..].
  - intros Hd. destruct (Hr Hd) as [? Hc]. split; [done |]. destruct (SendStream.state s); [| done..]. destruct (st s); [by rewrite Hst | by destruct Hst as [? ->] | by rewrite Hst..].
Qed.

Lemma set_flow_waits s f : same_waits s (SendStream.set_flow s f).
Proof. split_and!; try done. cbn. by destruct (st s); try eexists. Qed.

Lemma same_waits_refl s : same_waits s s.
Proof. split_and!; try done. by destruct (st s); try eexists. Qed.
Lemma same_waits_trans s1 s2 s3 : same_waits s1 s2 -> same_waits s2 s3 -> same_waits s1 s3.
Proof.
  intros (E1 & E2 & E3 & E4 & E5 & E6 & H1) (F1 & F2 & F3 & F4 & F5 & F6 & H2). split_and!; try congruence.
  destruct (st s1); [by rewrite H1 in H2 | by destruct H1 as [? H1]; rewrite H1 in H2 | by rewrite H1 in H2..].
Qed.
Lemma set_reset_waits s sync : same_waits s (SendStream.set_reset s sync).
Proof. split_and!; try done. cbn. by destruct (st s); try eexists. Qed.
(** The buffer and the kind of state of the data sender are the same. *)
Lemma set_sender_waits s d :
  DataSender.buffer d = DataSender.buffer (SendStream.data_sender s) -> DataSender.max_buffer_capacity d = DataSender.max_buffer_capacity (SendStream.data_sender s) ->
  match st s with SenderState.Finishing _ => exists fin, DataSender.state d = SenderState.Finishing fin | other => DataSender.state d = other end ->
  same_waits s (SendStream.set_sender s d).
Proof.
  intros Eb Em Hs. split_and!; try done; unfold SendStream.can_push, DataSender.available_buffer_space, DataSender.is_empty; cbn; by rewrite ?Em, ?Eb.
Qed.

Lemma detach_released s : released (SendStream.detach s).
Proof.
  intros _. unfold SendStream.detach, concluded. destruct (SendStream.state s) eqn:E; cbn; rewrite ?E; cbn; (split; [done |]); try done. intros ->. apply orb_true_r.
Qed.
Lemma detach_waiter (s : stream_half) : waiter (SendStream.detach s) = None.
Proof. by destruct s as [[| e | e] ? ? ? ? ?]. Qed.

(** Waking gives the writer up, and makes progress for the application if it is gone. *)
Lemma wake_facts (s : stream_half) :
  (SendStream.detached s = true -> waiter s = None) ->
  let '(s', events) := SendStream.wake s no_events in waiter s' = None /\ write_wake events = fst <$> waiter s /\ released s'.
Proof.
  intros Hw. unfold SendStream.wake. destruct (waiter s) as [[waker flush] |] eqn:E.
  - split_and!; [done | done |]. intros Hdet. cbn in Hdet. by specialize (Hw Hdet).
  - destruct (SendStream.detached s) eqn:Edet; (split_and!; [| done |]); [apply detach_waiter | apply detach_released | done |]. intros H. by rewrite H in Edet.
Qed.

(** A step leaves the writer alone, or wakes it. *)
Definition settled (s s' : stream_half) (wake : option Z) : Prop :=
  waits s' /\ released s' /\ (waiter s' = waiter s \/ (waiter s' = None /\ wake = fst <$> waiter s)).

Lemma settled_wake s s1 : released s -> waiter s1 = waiter s -> SendStream.detached s1 = SendStream.detached s ->
  settled s (SendStream.wake s1 no_events).1 (write_wake (SendStream.wake s1 no_events).2).
Proof.
  intros Hr Ew Ed. pose proof (wake_facts s1) as H. destruct (SendStream.wake s1 no_events) as [s' events]. cbn [fst snd].
  destruct H as (Hn & He & Hrel); [rewrite Ed, Ew; intros Hd; by apply Hr |]. split_and!; [intros waker flush E; by rewrite Hn in E | done |]. right. by rewrite He, Ew.
Qed.
Lemma settled_same s s' : waits s -> released s -> same_waits s s' -> settled s s' None.
Proof. intros Hw Hr H. destruct (same_waits_keeps s s' H Hw Hr). split_and!; [done | done |]. left. apply H. Qed.

(** ** From the network *)

Lemma packet_waits w c n : half_ok be id w -> half_possible w (Packet c n) -> returns (half_step be capacity id w (Packet c n)) (fun w' => same_waits (half w) (half w')).
Proof.
  intros H (Hc & Hn & Ep & Hle). cbn [half_step]. unfold SendStream.on_transmit. change (SendStream.the_writer be) with (the_writer be).
  destruct (OnceSync.on_transmit reset_stream_writer _ id c) as [[sync res] fs1] eqn:E1.
  destruct (packet_reset be id id_ok w c n sync res fs1 H Hc Hn Ep Hle E1) as [H1 Hfs1]. destruct res; [| apply returns_ret; apply set_reset_waits].
  set (w1 := sent_in w n fs1 _) in H1. pose proof (resume_ok c fs1 (sending_writer c Hc) Hfs1) as Hc1. destruct (half_sender _ _ _ H1) as [A HA].
  destruct (transmit_effect be capacity capacity_ok id (view w1) A (resume c fs1) n HA id_ok) as ([[res2 d] fs2] & E2 & Hb & Hm & Hst); [done |].
  cbn [w1 sent_in half view sender] in E2, Hb, Hm, Hst. rewrite E2. cbn [obind].
  assert (Hs1 : same_waits (half w) (SendStream.set_sender (SendStream.set_reset (half w) sync) d)).
  { eapply same_waits_trans; [apply (set_reset_waits _ sync) |]. apply set_sender_waits; [done | done |]. cbn in *.
    destruct (st (half w)) eqn:Est; [exact Hst | exact Hst | destruct Hst as [-> _]; exact Est..]. }
  destruct res2; [| by apply returns_ret].
  destruct (packet_data be capacity id capacity_ok id_ok w1 (resume c fs1) n H1 Hc1 Hn Ep) as ([[res2' d'] fs2'] & E2' & H2 & _); [done |].
  cbn [w1 sent_in half] in E2'. rewrite E2 in E2'. injection E2' as <- <- <-. unfold w1 in H2. rewrite sent_in_twice in H2.
  destruct (packet_blocked be capacity id _ (resume c (fs1 ++ fs2)) n H2 (sending_time c Hc) eq_refl) as ([[f res3] fs3] & E3 & _). cbn [sent_in half] in E3. rewrite E3. cbn [obind].
  apply returns_ret. eapply same_waits_trans; [exact Hs1 | apply set_flow_waits].
Qed.

Lemma missing_waits w set a b w' : half_step be capacity id w (Missing set a b) = Ret w' -> same_waits (half w) (half w').
Proof.
  cbn [half_step]. unfold SendStream.on_packet_loss. change (SendStream.the_writer be) with (the_writer be). intros E. ret_inv E. ret_inv E0. simplify_eq.
  match goal with E : DataSender.on_packet_loss _ _ = Ret _ |- _ => destruct (loss_effect be _ _ _ E) as (Hb & Hm & _ & Hst) end.
  cbn [with_half half]. eapply same_waits_trans; [by apply set_sender_waits |]. eapply same_waits_trans; [apply set_flow_waits | apply set_reset_waits].
Qed.

Lemma init_reset_inv (s : stream_half) reason e res s' : SendStream.init_reset be s reason e = Ret (res, s') ->
  (res = ResetNotNecessary /\ s' = s /\ (SendStream.state s = SendStream.Sending -> st s = SenderState.Finished))
  \/ (res = ResetInitiated /\ waiter s' = waiter s /\ SendStream.detached s' = SendStream.detached s
      /\ SendStream.state s' = (if is_internal reason then SendStream.ResetAcknowledged e else SendStream.ResetSent e)
      /\ (is_local_application reason = true -> SendStream.final_state_observed s' = true)).
Proof.
  unfold SendStream.init_reset. destruct (SendStream.state s) eqn:Es; try (intros [= <- <-]; by left).
  destruct (SenderState.is_finished (st s)) eqn:Ef; [intros [= <- <-]; left; split_and!; [done | done |]; by destruct (st s) |].
  intros E. right. ret_inv E. destruct (is_internal reason) eqn:Ei; [| destruct e; try discriminate E]; injection E as <- <-; cbn;
    by destruct (is_local_application reason) eqn:El; cbn; rewrite ?Ei.
Qed.

Lemma waiter_none_settled s s' wake : waits s -> released s -> s' = s -> settled s s' wake.
Proof. intros Hw Hr ->. split_and!; [done | done | by left]. Qed.

Lemma stop_settled w code w' : waits (half w) -> released (half w) ->
  half_step be capacity id w (StopSendingFrom code) = Ret w' -> settled (half w) (half w') (woken w (StopSendingFrom code)).
Proof.
  intros Hw Hr. cbn [half_step woken]. unfold SendStream.on_stop_sending. intros E. destruct (SendStream.init_reset be (half w) _ _) as [[res s1] |] eqn:E1; [| done].
  cbn [obind] in *. destruct (init_reset_inv _ _ _ _ _ E1) as [(-> & -> & _) | (-> & Ew & Ed & _)].
  - injection E as <-. by apply waiter_none_settled.
  - pose proof (settled_wake (half w) s1 Hr Ew Ed) as H. destruct (SendStream.wake s1 no_events) as [s' events]. injection E as <-. exact H.
Qed.

Lemma closed_settled w e w' : waits (half w) -> released (half w) ->
  half_step be capacity id w (ConnectionClosed e) = Ret w' -> settled (half w) (half w') (woken w (ConnectionClosed e)).
Proof.
  intros Hw Hr. cbn [half_step woken]. unfold SendStream.on_internal_reset. intros E. destruct (SendStream.init_reset be (half w) _ _) as [[res s1] |] eqn:E1; [| done].
  cbn [obind] in *. assert (H1 : waiter s1 = waiter (half w) /\ SendStream.detached s1 = SendStream.detached (half w)).
  { destruct (init_reset_inv _ _ _ _ _ E1) as [(_ & -> & _) | (_ & Ew & Ed & _)]; done. }
  pose proof (settled_wake (half w) s1 Hr (proj1 H1) (proj2 H1)) as H. destruct (SendStream.wake s1 no_events) as [s' events]. injection E as <-. exact H.
Qed.

Lemma flushed_settled w e w' : waits (half w) -> released (half w) ->
  half_step be capacity id w (ConnectionFlushed e) = Ret w' -> settled (half w) (half w') (woken w (ConnectionFlushed e)).
Proof.
  intros Hw Hr E. pose proof (closed_settled w e) as Hc. cbn [half_step woken] in *. unfold SendStream.on_flush in *.
  destruct (st (half w)); try (by apply Hc). injection E as <-. by apply waiter_none_settled.
Qed.

Lemma max_stream_settled w v w' : waits (half w) -> released (half w) ->
  half_step be capacity id w (MaxStream v) = Ret w' -> settled (half w) (half w') (woken w (MaxStream v)).
Proof.
  intros Hw Hr. cbn [half_step woken]. intros [= <-]. cbn [with_half half]. unfold SendStream.on_max_stream_data.
  destruct (SendStream.state (half w)); try (by apply waiter_none_settled).
  match goal with |- context [if ?b then _ else _] => destruct b end; [by apply settled_wake |]. apply settled_same; [done | done | apply set_flow_waits].
Qed.

Lemma acked_settled w set a b w' : half_ok be id w -> waits (half w) -> released (half w) ->
  half_step be capacity id w (Acked set a b) = Ret w' -> settled (half w) (half w') (woken w (Acked set a b)).
Proof.
  intros Hok Hw Hr. cbn [half_step woken]. unfold SendStream.on_packet_ack. change (SendStream.the_writer be) with (the_writer be). intros E.
  destruct (DataSender.on_packet_ack _ set) as [d |] eqn:E1; [| done]. cbn [obind] in *. destruct (StreamFlow.on_packet_ack _ _) as [f1 |]; [| done]. cbn [obind] in *.
  destruct (StreamFlow.on_packet_ack _ _) as [f2 |]; [| done]. cbn [obind] in *. set (s3 := SendStream.set_flow (SendStream.set_flow _ f1) f2) in *.
  assert (Hlive : SendStream.state s3 = SendStream.Sending -> is_cancelled (st s3) = false).
  { intros Es. pose proof (sending_not_cancelled be id w Hok Es) as Hc. destruct (ack_effect be _ _ _ E1) as [_ Hst]. unfold s3. cbn.
    destruct (st (half w)); [by destruct Hst as [-> _] | by destruct Hst as [(? & -> & _) | [-> _]] | by destruct Hst as [-> _] | done]. }
  assert (H3 : waiter s3 = waiter (half w) /\ SendStream.detached s3 = SendStream.detached (half w) /\ SendStream.state s3 = SendStream.state (half w)
    /\ SendStream.final_state_observed s3 = SendStream.final_state_observed (half w)) by done. destruct H3 as (Ew & Ed & Es & Eo).
  change (match waiter _ with Some (_, should_flush) => should_flush | None => false end) with (match waiter s3 with Some (_, should_flush) => should_flush | None => false end) in E |- *.
  clearbody s3. unfold settled.
  assert (Hkeep : forall s, waiter s = waiter (half w) -> SendStream.detached s = SendStream.detached (half w) -> concluded s = false -> waits s -> waits s /\ released s /\ (waiter s = waiter (half w) \/ waiter s = None /\ None = fst <$> waiter (half w))).
  { intros s Ew' Ed' Hc Hws. split_and!; [done | | by left]. intros Hd. rewrite Ew'. split; [apply Hr; by rewrite <- Ed' | by rewrite Hc]. }
  destruct (SendStream.state s3) as [| e | e] eqn:Es3.
  - destruct (SendStream.wake_on_ack s3 _) eqn:Ewake.
    + pose proof (settled_wake (half w) s3 Hr Ew Ed) as H. destruct (SendStream.wake s3 no_events) as [s' events]. injection E as <-. exact H.
    + injection E as <-. cbn [half snd write_wake]. unfold SendStream.wake_on_ack in Ewake. apply Hkeep; [done | done | unfold concluded; rewrite Es3; by destruct (st s3) |].
      specialize (Hlive eq_refl). intros waker flush Ewt. rewrite Es3. rewrite Ewt in Ewake. destruct (st s3); [| done..].
      destruct flush; [apply andb_false_iff in Ewake as [? | ?]; auto | by left].
  - destruct (OnceSync.on_packet_ack _ _) as [sync ready]. destruct ready.
    + pose proof (settled_wake (half w) (SendStream.set_state (SendStream.set_reset s3 sync) (SendStream.ResetAcknowledged e)) Hr Ew Ed) as H. destruct (SendStream.wake _ no_events) as [s' events]. injection E as <-. exact H.
    + injection E as <-. cbn [half snd write_wake]. apply Hkeep; [done | done | unfold concluded; cbn; by rewrite Es3 |]. intros waker flush _. cbn. by rewrite Es3.
  - injection E as <-. cbn [half snd write_wake]. split_and!; [| | by left].
    + intros waker flush Ewt. rewrite Es3. rewrite Ew in Ewt. specialize (Hw _ _ Ewt). by rewrite <- Es in Hw.
    + intros Hd. rewrite Ed in Hd. destruct (Hr Hd) as [? Hc]. rewrite Ew, Eo. split; [done |]. intros _. apply Hc. unfold concluded. by rewrite <- Es.
Qed.

(** ** From the application *)

Lemma set_waiter_none s : released s -> waits (SendStream.set_waiter s None) /\ released (SendStream.set_waiter s None).
Proof. intros Hr. split; [done |]. intros Hd. split; [done |]. by apply Hr. Qed.

Lemma store_waker_settled s r context flush :
  (SendStream.detached s = true -> context = None) -> waits s -> released s ->
  (forall waker f, context = Some waker -> waits (SendStream.set_waiter s (Some (waker, flush || f)))) ->
  waits (SendStream.store_waker s r context flush).1 /\ released (SendStream.store_waker s r context flush).1.
Proof.
  intros Hd Hw Hr Hs. destruct context as [waker |]; [| done]. cbn [SendStream.store_waker fst]. split; [by apply Hs |]. intros Hdet. by specialize (Hd Hdet).
Qed.

Lemma poll_reset_settled s code flush context res s' :
  (SendStream.detached s = true -> context = None) -> (flush = true -> st s = SenderState.Finished -> context = None) ->
  waits s -> released s -> SendStream.poll_reset be s code flush context = Ret (res, s') -> waits s' /\ released s'.
Proof.
  intros Hd Hf Hw Hr. unfold SendStream.poll_reset. destruct (SendStream.init_reset be s _ _) as [[res1 s1] |] eqn:E1; [| done]. cbn [obind].
  assert (H1 : waits s1 /\ released s1 /\ (SendStream.detached s1 = true -> context = None)
    /\ (flush = true -> forall e, context = Some e -> SendStream.state s1 <> SendStream.Sending)).
  { destruct (init_reset_inv _ _ _ _ _ E1) as [(_ & -> & Hfin) | (_ & Ew & Ed & Es & _)].
    - split_and!; [done | done | done |]. intros -> e -> Es. by specialize (Hf eq_refl (Hfin Es)).
    - cbn in Es. split_and!; [intros waker f _; by rewrite Es | | by rewrite Ed | by rewrite Es]. intros Hdet. rewrite Ed in Hdet. rewrite Ew.
      split; [by apply Hr |]. unfold concluded. by rewrite Es. }
  destruct H1 as (Hw1 & Hr1 & Hd1 & Hs1). destruct (flush && negb (SendStream.is_reset_acknowledged s1)) eqn:Eb.
  - apply andb_true_iff in Eb as [-> Ea]. pose proof (store_waker_settled s1 (SendStream.set_status Rx.default Resetting) context true Hd1 Hw1 Hr1) as H.
    destruct (SendStream.store_waker s1 _ context true) as [s2 r2]. intros [= _ <-]. apply H. intros waker f Ec waker' f' _. cbn.
    unfold SendStream.is_reset_acknowledged in Ea. destruct (SendStream.state s1) eqn:Es; [by destruct (Hs1 eq_refl waker Ec) | done | done].
  - intros [= _ <-]. by apply set_waiter_none.
Qed.

Lemma checked_add_sum a b c : VarInt.add a b = Ret c -> c = a + b.
Proof.
  unfold VarInt.add, VarInt.checked_add, Prelude.checked_add. destruct (a + b <? _); [| done]. unfold VarInt.new. destruct (_ <? a + b); [done |]. by intros [= <-].
Qed.

Lemma push_enqueued (s : stream_half) chunk d : 0 <= Buffer.enqueued_len (DataSender.buffer (SendStream.data_sender s)) -> chunk_len chunk <> 0 ->
  DataSender.push (SendStream.data_sender s) chunk = Ret d -> 0 < Buffer.enqueued_len (DataSender.buffer d).
Proof.
  intros H0 Hc. unfold DataSender.push, Buffer.push. intros E. ret_inv E. destruct (Z.eqb_spec (chunk_len chunk) 0) as [| _]; [done |]. ret_inv E. ret_inv E2. simplify_eq.
  assert (a6 = chunk_len chunk) as ->.
  { unfold VarInt.new in E9. destruct (_ <? chunk_len chunk); [done |]. by injection E9. }
  rewrite (checked_add_sum _ _ _ E10). unfold Buffer.enqueued_len in *. cbn. pose proof (blen_nonneg (bytes_slice chunk)). unfold chunk_len in *. lia.
Qed.

(** A part of a request: the application waits for the right thing after it. *)
Definition part_settled (s : stream_half) (g : SendStream.flow_of_request (CE := CE) (B := B)) : Prop :=
  waits (part g) /\ released (part g) /\ SendStream.detached (part g) = SendStream.detached s.

Lemma store_waker_detached (s : stream_half) r context flush : SendStream.detached (SendStream.store_waker s r context flush).1 = SendStream.detached s.
Proof. by destruct context. Qed.

Lemma waits_for_space (s : stream_half) r context g :
  (SendStream.detached s = true -> context = None) -> waits s -> released s -> SendStream.state s = SendStream.Sending -> st s = SenderState.Sending -> SendStream.can_push s = false ->
  (let '(s', r) := SendStream.store_waker s r context false in Ret (SendStream.Stop (Ok r) s')) = Ret g -> part_settled s g.
Proof.
  intros Hd Hw Hr Es Est Hc E. pose proof (store_waker_settled s r context false Hd Hw Hr) as H. pose proof (store_waker_detached s r context false) as Hdet.
  destruct (SendStream.store_waker s r context false) as [s' r']. injection E as <-. destruct H; [| by split_and!].
  intros waker f Ec waker' f' _. cbn. rewrite Es, Est. by left.
Qed.

Lemma validate_sending (s : stream_half) len x : SendStream.validate_push s len = Ret (Ok x) -> st s = SenderState.Sending.
Proof. unfold SendStream.validate_push. by destruct (st s). Qed.

Lemma push_waits (s : stream_half) d chunk : waits s -> released s -> SendStream.state s = SendStream.Sending -> SendStream.can_push s = true -> st s = SenderState.Sending ->
  DataSender.push (SendStream.data_sender s) chunk = Ret d -> 0 < Buffer.enqueued_len (DataSender.buffer d) ->
  waits (SendStream.set_sender s d) /\ released (SendStream.set_sender s d).
Proof.
  intros Hw Hr Es Hc Est E Hpos. destruct (push_effect be _ _ _ E) as (_ & Est' & _). split.
  - intros waker f Ew. specialize (Hw waker f Ew). cbn in *. rewrite Es in *. rewrite Est', Est in *. destruct Hw as [Hw | [-> _]]; [by rewrite Hc in Hw |].
    right. split; [done |]. unfold DataSender.is_empty, Buffer.is_empty, Buffer.enqueued_len in *. zcases.
  - intros Hd. split; [by apply Hr |]. unfold concluded. cbn in *. by rewrite Es, Est', Est.
Qed.

Lemma push_chunks_settled context chunks : forall (s : stream_half) r g,
  (SendStream.detached s = true -> context = None) -> SendStream.state s = SendStream.Sending -> 0 <= Buffer.enqueued_len (DataSender.buffer (SendStream.data_sender s)) ->
  waits s -> released s -> SendStream.push_chunks be s r context chunks = Ret g -> part_settled s g.
Proof.
  induction chunks as [| chunk chunks IH]; intros s r g Hd Es H0 Hw Hr; [intros [= <-]; by split_and! |]. cbn [SendStream.push_chunks].
  destruct (Z.eqb_spec (chunk_len chunk) 0) as [_ | Hne]; [by apply IH |].
  destruct (SendStream.validate_push s _) as [[x | e] |] eqn:Ev; [| by intros [= <-]; split_and! | done]. cbn [obind].
  pose proof (validate_sending _ _ _ Ev) as Est. destruct (SendStream.can_push s) eqn:Ec; cbn [negb]; [| by apply waits_for_space].
  change (SendStream.the_writer be) with (the_writer be). destruct (DataSender.push _ chunk) as [d |] eqn:Ep; [| done]. cbn [obind]. intros E.
  pose proof (push_enqueued s chunk d H0 Hne Ep) as Hpos. destruct (push_waits s d chunk Hw Hr Es Ec Est Ep Hpos) as [Hw' Hr'].
  eapply IH in E; [exact E | exact Hd | exact Es | cbn; lia | done | done].
Qed.

Lemma poll_chunks_settled (s : stream_half) request context g :
  (SendStream.detached s = true -> context = None) -> SendStream.state s = SendStream.Sending -> 0 <= Buffer.enqueued_len (DataSender.buffer (SendStream.data_sender s)) ->
  waits s -> released s -> SendStream.poll_chunks be s request context = Ret g -> part_settled s g.
Proof.
  intros Hd Es H0 Hw Hr. unfold SendStream.poll_chunks. assert (Hsame : forall r, part_settled s (SendStream.Go s r)) by (by intros r; split_and!).
  destruct (Tx_.chunks request) as [[| chunk chunks] |]; [| by apply push_chunks_settled |].
  all: destruct (_ && _ && _); [| by intros [= <-]]; destruct (SendStream.validate_push s 1) as [[x | e] |] eqn:Ev; [| by intros [= <-]; split_and! | done]; cbn [obind].
  all: pose proof (validate_sending _ _ _ Ev) as Est; destruct (SendStream.can_push s) eqn:Ec; cbn [negb]; [by intros [= <-] | by apply waits_for_space].
Qed.

(** The buffer of a stream that is finished is empty. *)
Lemma finished_empty (w : half_world) : half_ok be id w -> 0 <= Buffer.enqueued_len (DataSender.buffer (SendStream.data_sender (half w)))
  /\ (st (half w) = SenderState.Finished -> is_empty (half w) = true).
Proof.
  intros H. destruct (half_sender _ _ _ H) as [A HA]. pose proof (wo_sender _ _ _ _ HA) as Hs. pose proof (so_buffer _ _ _ _ _ Hs) as Hb. destruct (buffer_head _ _ Hb).
  pose proof (buffer_pending _ _ Hb) as Hp. unfold Buffer.enqueued_len. cbn [view sender] in *. split; [lia |]. intros Est.
  destruct (sender_idle _ _ _ _ _ Hs (wo_finished _ _ _ _ HA Est)) as [Eh _]. unfold DataSender.is_empty, Buffer.is_empty. cbn [view sender] in *. apply Z.eqb_eq. lia.
Qed.

Lemma poll_finish_settled w r request context g : half_ok be id w -> SendStream.state (half w) = SendStream.Sending ->
  (SendStream.detached (half w) = true -> context = None) -> waits (half w) -> released (half w) ->
  SendStream.poll_finish be (half w) r request context = Ret g -> waits (part g) /\ released (part g).
Proof.
  intros H Es Hd Hw Hr. unfold SendStream.poll_finish. pose proof (sending_not_cancelled be id w H Es) as Hnc. destruct (Tx_.finish request).
  - destruct (SenderState.is_finished (st (half w))) eqn:Ef; [intros [= <-]; split; [done | intros _; done] |].
    change (SendStream.the_writer be) with (the_writer be). destruct (DataSender.finish _) as [d |] eqn:E; [| done]. cbn [obind].
    destruct (finish_effect be _ _ E) as (_ & _ & _ & Hst).
    assert (Hfin : exists fin, DataSender.state d = SenderState.Finishing fin).
    { destruct Hst as [Hst | [_ Hst]]; [| by eexists]. unfold DataSender.finish in E. destruct (st (half w)) eqn:Est; try done; [| by rewrite Hst; eexists].
      cbn in E. ret_inv E. simplify_eq. }
    destruct Hfin as [fin Efin]. set (s1 := SendStream.set_sender (half w) d).
    assert (Hw1 : forall wt, waits (SendStream.set_waiter s1 wt)) by (intros wt waker f _; cbn; by rewrite Es, Efin).
    assert (Hr1 : released s1) by (intros Hdet; split; [by apply Hr | unfold concluded; cbn; by rewrite Es, Efin]).
    destruct (Tx_.flush request); [| intros [= <-]; by apply set_waiter_none].
    pose proof (store_waker_settled s1 (SendStream.set_status r Finishing) context true) as Hs. destruct (SendStream.store_waker s1 _ context true) as [s' r'].
    intros [= <-]. apply Hs; [exact Hd | exact (Hw1 (waiter s1)) | done | intros; apply Hw1].
  - destruct (Tx_.flush request && negb (is_empty (half w))) eqn:Eb; [| intros [= <-]; by split]. apply andb_true_iff in Eb as [_ Ee]. apply negb_true_iff in Ee.
    pose proof (store_waker_settled (half w) r context true Hd Hw Hr) as Hs. destruct (SendStream.store_waker (half w) _ context true) as [s' r'].
    intros [= <-]. apply Hs. intros waker f _ waker' f' [= _ <-]. cbn. rewrite Es. destruct (finished_empty w H) as [_ Hemp].
    destruct (st (half w)); [by right | done | by rewrite Hemp in Ee | done].
Qed.

Lemma detached_request (s : stream_half) (request : Tx_.Request B) : waits s -> released s ->
  let s0 := if Tx_.detached request then SendStream.detach s else s in
  waits s0 /\ released s0 /\ same_core s s0 /\ SendStream.detached s0 = SendStream.detached s || Tx_.detached request.
Proof.
  intros Hw Hr. destruct (Tx_.detached request); [| by rewrite orb_false_r]. split_and!.
  - intros waker f E. by rewrite detach_waiter in E.
  - apply detach_released.
  - apply detach_core.
  - rewrite orb_true_r. by destruct s as [[| |] ? ? ? ? ?].
Qed.

Lemma request_settled w request context w' :
  half_ok be id w -> half_possible w (Request request context) -> waker_possible w (Request request context) -> waits (half w) -> released (half w) ->
  half_step be capacity id w (Request request context) = Ret w' -> waits (half w') /\ released (half w').
Proof.
  intros H Hp [Hd Hf] Hw Hr. cbn [half_step]. unfold SendStream.poll_request. destruct (detached_request (half w) request Hw Hr) as (Hw0 & Hr0 & Hc0 & Ed0).
  set (s0 := if Tx_.detached request then _ else _) in *. clearbody s0. rewrite <- Ed0 in Hd. assert (H0 : half_ok be id (with_half w s0)) by (by apply core_half).
  destruct (Tx_.reset request) as [code |] eqn:Er.
  { destruct (SendStream.poll_reset _ _ _ _ _) as [[res s1] |] eqn:E1; [| done]. intros [= <-]. cbn [half]. eapply poll_reset_settled; [exact Hd | | done | done | exact E1].
    destruct Hc0 as (_ & -> & _). by apply Hf. }
  destruct (SendStream.state s0) as [| e | e] eqn:Es.
  2,3: intros [= <-]; split; [done | intros _; done].
  destruct (poll_chunks_half be capacity id capacity_ok (with_half w s0) request context H0 Hp Es) as (g & E1 & data & rest & _ & Hg & Hsg). cbn [with_half half] in E1. rewrite E1. cbn [obind].
  destruct (poll_chunks_settled s0 request context g Hd Es (proj1 (finished_empty _ H0)) Hw0 Hr0 E1) as (Hw1 & Hr1 & Ed1).
  destruct g as [s1 r | res s1]; cbn [part] in *; [| by intros [= <-]]. rewrite <- Ed1 in Hd.
  destruct (SendStream.poll_finish _ _ _ _ _) as [g |] eqn:E2; [| done]. cbn [obind]. intros E.
  destruct (poll_finish_settled (grown (with_half w s0) s1 data) r request context g Hg Hsg Hd Hw1 Hr1 E2) as [Hw2 Hr2].
  destruct g; injection E as <-; by split.
Qed.

(** ** Every event *)

Lemma step_settled w ev w' :
  half_ok be id w -> half_possible w ev -> waker_possible w ev -> waits (half w) -> released (half w) -> half_step be capacity id w ev = Ret w' ->
  waits (half w') /\ released (half w') /\ kept_or_woken w ev w'.
Proof.
  intros H Hp Hwp Hw Hr E. assert (Hsame : same_waits (half w) (half w') -> settled (half w) (half w') None) by (by apply settled_same).
  destruct ev as [request context | c n | set a b | set a b | v | code | now | p | e | e | | o].
  - destruct (request_settled w request context w' H Hp Hwp Hw Hr E). by split_and!.
  - apply Hsame. destruct (packet_waits w c n H Hp) as (w1 & E1 & Hs). by assert (w' = w1) as -> by congruence.
  - by apply acked_settled.
  - apply Hsame. by eapply missing_waits.
  - by apply max_stream_settled.
  - by apply stop_settled.
  - apply Hsame. cbn [half_step] in E. unfold SendStream.on_timeout in E. ret_inv E. ret_inv E0. simplify_eq. apply set_flow_waits.
  - injection E as <-. apply Hsame, set_flow_waits.
  - by apply closed_settled.
  - by apply flushed_settled.
  - apply Hsame. cbn [half_step] in E. unfold SendStream.on_connection_window_available in E.
    destruct (SendStream.state (half w)); ret_inv E; try ret_inv E0; simplify_eq; try apply set_flow_waits; apply same_waits_refl.
  - injection E as <-. apply Hsame, set_flow_waits.
Qed.

Fixpoint waker_possible_run (w : half_world) (evs : list half_event) : Prop :=
  match evs with
  | [] => True
  | ev :: evs => half_possible w ev /\ waker_possible w ev /\ forall w', half_step be capacity id w ev = Ret w' -> waker_possible_run w' evs
  end.

Lemma run_settled evs : forall w, half_ok be id w -> waits (half w) -> released (half w) -> waker_possible_run w evs ->
  returns (half_run be capacity id w evs) (fun w' => half_ok be id w' /\ waits (half w') /\ released (half w')).
Proof.
  induction evs as [| ev evs IH]; intros w H Hw Hr Hp; [by apply returns_ret |]. destruct Hp as (Hp & Hwp & Hnext).
  destruct (half_step_ok be capacity id capacity_ok id_ok w ev H Hp) as (w1 & E & H1). cbn [half_run]. rewrite E. cbn [obind].
  destruct (step_settled w ev w1 H Hp Hwp Hw Hr E) as (Hw1 & Hr1 & _). by apply IH; auto.
Qed.

(** The stream asks for nothing any more, not even to be kept. *)
Lemma released_interests (s : stream_half) interests : released s -> SendStream.detached s = true -> concluded s = true -> SendStream.stream_interests be s interests = Ret interests.
Proof.
  intros Hr Hd Hc. destruct (Hr Hd) as [_ Ho]. specialize (Ho Hc). unfold SendStream.stream_interests, concluded in *. rewrite Ho. by destruct (SendStream.state s).
Qed.

End Wake.

(** ** A writer that waits for a flush *)

Definition flush_request (chunk : list Z) : Tx_.Request (list Z) := Tx_.mk_request (Some [chunk]) None true false false.
Local Abbreviation set_of n := (packet_number_set (PacketNumber.from_varint n ApplicationData)).
Definition flush_history : list (half_event (CE := unit) (B := list Z)) := [Request (flush_request [1; 2; 3]) (Some 7); Packet (stopped_writer 0 1000) 0].


(** The exception is real: a writer that resets a stream whose end the peer has
    acknowledged, and asks to wait for the reset, is promised to be woken although
    no reset is sent and nothing is in flight. *)
Definition finish_request : Tx_.Request (list Z) := Tx_.mk_request None None false true false.
Definition reset_request : Tx_.Request (list Z) := Tx_.mk_request None (Some 9) true false false.
Definition late_reset_history : list (half_event (CE := unit) (B := list Z)) :=
  [Request (write_request [1; 2; 3]) (Some 7); Request finish_request (Some 7); Packet (stopped_writer 0 1000) 0; Acked (set_of 0) 0 0; Request reset_request (Some 7)].
Example reset_after_finish_waits :
  match half_run true (fun n => n) 4 (half_start (fun n => n) (Outgoing.new 100) 50 1000) late_reset_history with
  | Ret w => SendStream.state (half w) = SendStream.Sending /\ SendStream.write_waiter (half w) = Some (7, true)
             /\ DataSender.is_inflight (SendStream.data_sender (half w)) = false /\ OnceSync.is_inflight (SendStream.reset_sync (half w)) = false
  | Panic => False
  end.
Proof. vm_compute. repeat split. Qed.
