(* ===== verification/CryptoStream.v ===== *)
(** * Handshake data

    [space/crypto_stream.rs]: the stream of CRYPTO frames of one encryption
    level, and how [space/session_context.rs] sends and receives with it. *)
From S2P Require Import Prelude Codec VarInt Frames Transmission TransmissionContext Transmissions SendBuffer DataSender ReassemblerSlot Reassembler.

(** [transport::Error]: the codes a crypto stream uses. *)
Inductive CryptoError := PROTOCOL_VIOLATION | CRYPTO_BUFFER_EXCEEDED.

Definition TX_MAX_BUFFER_CAPACITY : Z := 4096.
Definition MAX_CRYPTO_BUFFER_SIZE : Z := 128 * 1024.

Module CryptoStream.
Section Ops.
Context {E B BM : Type} `{HB : Bytes B} {HM : BytesMut BM} (be : bool) (capacity : Z -> Z) (alloc : Z -> Z -> BM).
#[local] Instance the_writer : ChunkWriter unit B := crypto_writer be.
#[local] Existing Instance crypto_flow_controller.

Record t := mk {
  tx : DataSender.t (E := E) (F := unit) (B := B);
  rx : Reassembler BM;
  is_finished : bool
}.

Definition new : t := mk (DataSender.new capacity tt TX_MAX_BUFFER_CAPACITY) ra_default false.

Definition set_tx (self : t) (d : DataSender.t) : t := mk d (rx self) (is_finished self).
Definition set_rx (self : t) (r : Reassembler BM) : t := mk (tx self) r (is_finished self).

Definition can_send (self : t) : bool := negb (is_finished self) && (0 <? DataSender.available_buffer_space (tx self)).

Definition finish (self : t) : outcome (t * result unit CryptoError) :=
  let! d := DataSender.finish (tx self) in
  let self := mk d (rx self) true in
  Ret (self, if ra_is_empty (rx self) then Ok tt else Err PROTOCOL_VIOLATION).

Definition on_crypto_frame (self : t) (frame : Crypto.t) : outcome (t * result unit CryptoError) :=
  let! past_the_end :=
    if is_finished self then
      let! end_ := VarInt.add_usize (Crypto.offset frame) (blen (Crypto.data frame)) in
      Ret (total_received_len (rx self) <? end_)
    else Ret false in
  if past_the_end then Ret (self, Err PROTOCOL_VIOLATION) else
  match VarInt.checked_add_usize (Crypto.offset frame) (blen (Crypto.data frame)) with
  | None => Ret (self, Err CRYPTO_BUFFER_EXCEEDED)
  | Some end_offset =>
      let buffered := saturating_sub end_offset (consumed_len (rx self)) in
      if MAX_CRYPTO_BUFFER_SIZE <? buffered then Ret (self, Err CRYPTO_BUFFER_EXCEEDED) else
      let! '(res, r) := write_at alloc (rx self) (Crypto.offset frame) (Crypto.data frame) in
      Ret (set_rx self r, match res with Ok _ => Ok tt | Err _ => Err CRYPTO_BUFFER_EXCEEDED end)
  end.

Definition on_packet_ack (self : t) (ack_set : AckSet) : outcome t :=
  let! d := DataSender.on_packet_ack (tx self) ack_set in Ret (set_tx self d).
Definition on_packet_loss (self : t) (ack_set : AckSet) : outcome t :=
  let! d := DataSender.on_packet_loss (tx self) ack_set in Ret (set_tx self d).
Definition on_retry_packet (self : t) : outcome t :=
  let! d := DataSender.on_all_lost (tx self) in Ret (set_tx self d).
Definition transmission_interest (self : t) : outcome (list Interest) := DataSender.transmission_interest (tx self).

(** [crypto_stream.tx.on_transmit], as the payloads of the packets call it. *)
Definition on_transmit (self : t) (context : Writer) : outcome (t * list frame) :=
  let! '(_, d, fs) := DataSender.on_transmit capacity (tx self) tt context in Ret (set_tx self d, fs).

(** [send_handshake], and its like for the other levels, of a session context. *)
Definition send_handshake (self : t) (transmission : B) : outcome t :=
  let! d := DataSender.push (tx self) transmission in Ret (set_tx self d).
(** [receive_handshake] and [receive_application]. *)
Definition receive_handshake (self : t) (max_len : option Z) : outcome (option BM * t) :=
  let! '(bytes, r) := pop_watermarked (rx self) (match max_len with Some n => n | None => umax 64 end) in
  Ret (bytes, set_rx self r).
End Ops.
Arguments t : clear implicits.
End CryptoStream.
