(* ===== verification/ReceiveStream.v ===== *)
(** * The receiving half of a stream

    [stream/receive_stream.rs]: the flow controller of a stream that receives
    data, and the stream with its reassembly buffer.  The connection's flow
    controller, shared behind [Rc<RefCell<..>>], is passed in and given back as a
    part of the state; a waker is its identity. *)
From S2P Require Import Prelude Codec VarInt PacketNumber FrameAck Frames Transmission Recovery Sync FlowControl ReassemblerSlot Reassembler StreamOps.

Module MissingData.
Record t := mk { start : Z; end_ : Z }.

Definition new (start : Z) : t := mk start (umax 64).

Definition range_contains (from to x : Z) : bool := (from <=? x) && (x <? to).
(** [Poll::Ready] is [true]. *)
Definition on_data (self : t) (frame : Stream.t) : outcome (t * bool) :=
  let frame_start := Stream.offset frame in
  let! frame_end := VarInt.add_usize (Stream.offset frame) (blen (Stream.data frame)) in
  let contains := range_contains frame_start frame_end in
  let start := if contains (start self) then frame_end else start self in
  let end_ := if Stream.is_fin frame || contains (end_ self) then Z.min (end_ self) frame_start else end_ self in
  Ret (mk start end_, end_ <=? start).
End MissingData.

Definition max_stream_data_writer : FrameWriter Z := fun value stream_id =>
  Frame.MaxStreamData (MaxStreamData.mk stream_id value).
Definition stop_sending_writer : FrameWriter Z := fun value stream_id => Frame.StopSending (StopSending.mk stream_id value).

(** [ReceiveStreamFlowController]. *)
Module ReceiveFlow.
Record t := mk {
  connection_flow_controller : Incoming.t;
  read_window_sync : IncrementalValueSync.t;
  desired_flow_control_window : Z;
  acquired_connection_window : Z;
  released_connection_window : Z
}.

Definition new (connection_flow_controller : Incoming.t) (initial_window desired_flow_control_window : Z) : outcome t :=
  let! sync := IncrementalValueSync.new desired_flow_control_window initial_window (desired_flow_control_window / 10) in
  Ret (mk connection_flow_controller sync desired_flow_control_window 0 0).

Definition set_sync (self : t) (s : IncrementalValueSync.t) : t :=
  mk (connection_flow_controller self) s (desired_flow_control_window self) (acquired_connection_window self)
    (released_connection_window self).

Definition acquire_window_up_to (self : t) (offset : Z) : outcome (t * result unit TransportError) :=
  if IncrementalValueSync.latest_value (read_window_sync self) <? offset then Ret (self, Err FLOW_CONTROL_ERROR) else
  let additional_connection_window := VarInt.saturating_sub offset (acquired_connection_window self) in
  if 0 <? additional_connection_window then
    let! '(connection, res) := Incoming.acquire_window (connection_flow_controller self) additional_connection_window in
    match res with
    | Err e =>
        Ret (mk connection (read_window_sync self) (desired_flow_control_window self) (acquired_connection_window self)
               (released_connection_window self), Err e)
    | Ok _ =>
        let! acquired := VarInt.add (acquired_connection_window self) additional_connection_window in
        Ret (mk connection (read_window_sync self) (desired_flow_control_window self) acquired
               (released_connection_window self), Ok tt)
    end
  else Ret (self, Ok tt).

Definition release_window (self : t) (amount : Z) : outcome t :=
  let! released := VarInt.add (released_connection_window self) amount in
  let! sync := IncrementalValueSync.update_latest_value (read_window_sync self)
                 (VarInt.saturating_add released (desired_flow_control_window self)) in
  let! connection := Incoming.release_window (connection_flow_controller self) amount in
  Ret (mk connection sync (desired_flow_control_window self) (acquired_connection_window self) released).

Definition release_outstanding_window (self : t) : outcome t :=
  let! unreleased := VarInt.sub (acquired_connection_window self) (released_connection_window self) in
  release_window self unreleased.

Definition stop_sync (self : t) : t := set_sync self (IncrementalValueSync.stop_sync (read_window_sync self)).
Definition watermark (self : t) : Z := desired_flow_control_window self / 2.
End ReceiveFlow.

Module ReceiveStream.
Section Ops.
Context {CE B : Type} `{BytesMut B} (alloc : Z -> Z -> B).

Inductive State :=
| Receiving
| DataRead
| Stopping (error : StreamError CE) (missing_data : MissingData.t)
| WasReset (error : StreamError CE).

Record t := mk {
  state : State;
  receive_buffer : Reassembler B;
  flow_controller : ReceiveFlow.t;
  stop_sending_sync : OnceSync.t Z;
  read_waiter : option (Z * Z);
  final_state_observed : bool;
  detached : bool
}.

Definition new (is_closed : bool) (connection_flow_controller : Incoming.t) (initial_window desired_flow_control_window : Z)
    : outcome t :=
  let! flow := ReceiveFlow.new connection_flow_controller initial_window desired_flow_control_window in
  Ret (mk (if is_closed then DataRead else Receiving) ra_new
         (if is_closed then ReceiveFlow.stop_sync flow else flow)
         (if is_closed then OnceSync.stop_sync OnceSync.new else OnceSync.new) None is_closed is_closed).

Definition set_state (self : t) (s : State) : t :=
  mk s (receive_buffer self) (flow_controller self) (stop_sending_sync self) (read_waiter self)
    (final_state_observed self) (detached self).
Definition set_buffer (self : t) (b : Reassembler B) : t :=
  mk (state self) b (flow_controller self) (stop_sending_sync self) (read_waiter self)
    (final_state_observed self) (detached self).
Definition set_flow (self : t) (f : ReceiveFlow.t) : t :=
  mk (state self) (receive_buffer self) f (stop_sending_sync self) (read_waiter self)
    (final_state_observed self) (detached self).
Definition set_stop_sending (self : t) (s : OnceSync.t Z) : t :=
  mk (state self) (receive_buffer self) (flow_controller self) s (read_waiter self)
    (final_state_observed self) (detached self).
Definition set_waiter (self : t) (w : option (Z * Z)) : t :=
  mk (state self) (receive_buffer self) (flow_controller self) (stop_sending_sync self) w
    (final_state_observed self) (detached self).
Definition set_observed (self : t) : t :=
  mk (state self) (receive_buffer self) (flow_controller self) (stop_sending_sync self) (read_waiter self)
    true (detached self).

Definition detach (self : t) : outcome t :=
  let! _ := rassert (match state self with Receiving => false | _ => true end) in
  let observed := match state self with DataRead | WasReset _ => true | _ => final_state_observed self end in
  Ret (mk (state self) (receive_buffer self) (flow_controller self) (stop_sending_sync self) None observed true).

Definition wake (self : t) (events : StreamEvents) : outcome (t * StreamEvents) :=
  match read_waiter self with
  | Some (waker, _) => Ret (set_waiter self None, store_read_waker events waker)
  | None => if detached self then let! self := detach self in Ret (self, events) else Ret (self, events)
  end.

(** The reader is to be woken: data is there, and enough of it. *)
Definition crossed_watermark (self : t) : bool :=
  match read_waiter self with
  | Some (_, low_watermark) =>
      let len := ra_len (receive_buffer self) in
      if len =? 0 then false else Z.min low_watermark (ReceiveFlow.watermark (flow_controller self)) <=? len
  | None => false
  end.

(** [on_data], where the final size is known: all data may have arrived, and all
    of it may have been read. *)
Definition check_end (self : t) (frame : Stream.t) (should_wake : bool) : t * bool :=
  match final_size (receive_buffer self) with
  | None => (self, should_wake)
  | Some total_size =>
      let '(self, should_wake) :=
        if total_received_len (receive_buffer self) =? total_size
        then (set_stop_sending self (OnceSync.stop_sync (stop_sending_sync self)), true) else (self, should_wake) in
      (if Stream.is_fin frame && (consumed_len (receive_buffer self) =? total_size)
       then set_state (set_buffer self (ra_reset (receive_buffer self))) DataRead else self, should_wake)
  end.
(** The end of [on_data], once the data is in the buffer. *)
Definition on_data_written (self : t) (frame : Stream.t) (events : StreamEvents) : outcome (t * StreamEvents) :=
  let should_wake := crossed_watermark self in
  let self := if Stream.is_fin frame then set_flow self (ReceiveFlow.stop_sync (flow_controller self)) else self in
  let '(self, should_wake) := check_end self frame should_wake in
  if should_wake then wake self events else Ret (self, events).

Definition on_data (self : t) (frame : Stream.t) (events : StreamEvents)
    : outcome (t * StreamEvents * result unit TransportError) :=
  match state self with
  | WasReset _ | DataRead => Ret (self, events, Ok tt)
  | Stopping error missing_data =>
      let! '(missing_data, ready) := MissingData.on_data missing_data frame in
      let self := set_state self (Stopping error missing_data) in
      Ret (if ready then set_observed (set_stop_sending self (OnceSync.stop_sync (stop_sending_sync self))) else self,
           events, Ok tt)
  | Receiving =>
      match VarInt.checked_add_usize (Stream.offset frame) (blen (Stream.data frame)) with
      | None => Ret (self, events, Err FLOW_CONTROL_ERROR)
      | Some data_end =>
          let! '(flow, res) :=
            match final_size (receive_buffer self) with
            | None => ReceiveFlow.acquire_window_up_to (flow_controller self) data_end
            | Some _ => Ret (flow_controller self, Ok tt)
            end in
          let self := set_flow self flow in
          match res with
          | Err e => Ret (self, events, Err e)
          | Ok _ =>
              let! '(res, buffer) :=
                if Stream.is_fin frame
                then write_at_fin alloc (receive_buffer self) (Stream.offset frame) (Stream.data frame)
                else write_at alloc (receive_buffer self) (Stream.offset frame) (Stream.data frame) in
              let self := set_buffer self buffer in
              match res with
              | Err OutOfRange => Ret (self, events, Err FLOW_CONTROL_ERROR)
              | Err InvalidFin => Ret (self, events, Err FINAL_SIZE_ERROR)
              | Ok _ => let! '(self, events) := on_data_written self frame events in Ret (self, events, Ok tt)
              end
          end
      end
  end.

Definition on_stream_data_blocked (self : t) : result unit TransportError := Ok tt.

(** [init_reset], once the final size is accepted. *)
Definition discard (self : t) (error : StreamError CE) : outcome t :=
  let! flow := ReceiveFlow.release_outstanding_window (ReceiveFlow.stop_sync (flow_controller self)) in
  Ret (set_state (set_flow (set_buffer self (ra_reset (receive_buffer self))) flow) (WasReset error)).

Definition init_reset (self : t) (error : StreamError CE) (actual_size : option Z)
    : outcome (t * result unit TransportError) :=
  let acquire :=
    match actual_size with
    | Some actual_size =>
        let! '(flow, res) := ReceiveFlow.acquire_window_up_to (flow_controller self) actual_size in
        let self := set_flow self flow in
        match res with Err e => Ret (self, Err e) | Ok _ => let! self := discard self error in Ret (self, Ok tt) end
    | None => let! self := discard self error in Ret (self, Ok tt)
    end in
  match state self with
  | WasReset _ | DataRead => Ret (self, Ok tt)
  | Stopping _ _ => acquire
  | Receiving =>
      match final_size (receive_buffer self) with
      | None => acquire
      | Some total_size =>
          if match actual_size with Some actual_size => negb (actual_size =? total_size) | None => false end
          then Ret (self, Err FINAL_SIZE_ERROR) else
          if total_received_len (receive_buffer self) =? total_size then Ret (self, Ok tt) else
          let! self := discard self error in Ret (self, Ok tt)
      end
  end.

Definition on_internal_reset (self : t) (error : StreamError CE) (events : StreamEvents) : outcome (t * StreamEvents) :=
  let! '(self, res) := init_reset self error None in
  let! _ := rassert (match res with Ok _ => true | Err _ => false end) in
  wake self events.

Definition on_reset (self : t) (frame : ResetStream.t) (events : StreamEvents)
    : outcome (t * StreamEvents * result unit TransportError) :=
  let! '(self, res) :=
    init_reset self (StreamReset (ResetStream.application_error_code frame)) (Some (ResetStream.final_size frame)) in
  match res with
  | Err e => Ret (self, events, Err e)
  | Ok _ =>
      let! '(self, events) := wake (set_stop_sending self (OnceSync.stop_sync (stop_sending_sync self))) events in
      Ret (self, events, Ok tt)
  end.

Definition on_packet_ack (self : t) (contains : Z -> bool) : t :=
  let flow := flow_controller self in
  let self := set_flow self (ReceiveFlow.set_sync flow (IncrementalValueSync.on_packet_ack (ReceiveFlow.read_window_sync flow) contains)) in
  set_stop_sending self (OnceSync.on_packet_ack (stop_sending_sync self) contains).1.
Definition on_packet_loss (self : t) (contains : Z -> bool) : t :=
  let flow := flow_controller self in
  let self := set_flow self (ReceiveFlow.set_sync flow (IncrementalValueSync.on_packet_loss (ReceiveFlow.read_window_sync flow) contains)) in
  set_stop_sending self (OnceSync.on_packet_loss (stop_sending_sync self) contains).

Definition on_transmit (self : t) (stream_id : Z) (context : Writer) : transmitted t :=
  let '(stop_sending, res, written) := OnceSync.on_transmit stop_sending_writer (stop_sending_sync self) stream_id context in
  let self := set_stop_sending self stop_sending in
  match res with
  | Err e => (self, Err e, written)
  | Ok _ =>
      let flow := flow_controller self in
      let '(sync, res, fs) :=
        IncrementalValueSync.on_transmit max_stream_data_writer (ReceiveFlow.read_window_sync flow) stream_id
          (resume context written) in
      (set_flow self (ReceiveFlow.set_sync flow sync), res, written ++ fs)
  end.

(** [poll_request] with a request to stop sending. *)
Definition poll_stop_sending (self : t) (error_code : Z) : outcome (t * Rx.Response CE) :=
  let respond (s : Status CE) := Rx.mk_response (mk_amount 0 0) (mk_amount 0 0) false s in
  let stop :=
    let error := StreamReset error_code in
    let self := set_stop_sending self (OnceSync.request_delivery (stop_sending_sync self) error_code) in
    let missing_data := MissingData.new (total_received_len (receive_buffer self)) in
    let! self := detach (set_state self (Stopping error missing_data)) in
    Ret (set_buffer self (ra_reset (receive_buffer self)), respond (Reset error)) in
  match state self with
  | WasReset error | Stopping error _ => Ret (self, respond (Reset error))
  | DataRead => Ret (set_observed (set_state self DataRead), respond Finished)
  | Receiving =>
      if is_writing_complete (receive_buffer self) then Ret (set_observed (set_state self DataRead), respond Finished) else stop
  end.

(** What the loop of [poll_request] changes. *)
Record Reading := mk_reading {
  rd_buffer : Reassembler B;
  rd_flow : ReceiveFlow.t;
  rd_low : Z;
  rd_high : Z;
  rd_bytes : Z;
  rd_chunks : Z
}.

(** The loop over the placeholders that are left: the placeholders afterwards,
    and whether the data ran out before anything was read. *)
Fixpoint read_chunks (placeholders : list (list Z)) (s : Reading) : outcome (list (list Z) * bool * Reading) :=
  match placeholders with
  | [] => Ret ([], false, s)
  | placeholder :: rest =>
      let! '(chunk, buffer) := pop_watermarked (rd_buffer s) (rd_high s) in
      match chunk with
      | None =>
          Ret (placeholders, rd_chunks s =? 0,
               mk_reading buffer (rd_flow s) (rd_low s) (rd_high s) (rd_bytes s) (rd_chunks s))
      | Some data =>
          let data_len := b_len data in
          let! amount := unwrap (VarInt.ok (VarInt.new data_len)) in
          let! flow := ReceiveFlow.release_window (rd_flow s) amount in
          let! _ := rassert (blen placeholder =? 0) in
          let! bytes := add_c 64 (rd_bytes s) data_len in
          let! count := add_c 64 (rd_chunks s) 1 in
          let! '(rest, ran_out, s) :=
            read_chunks rest (mk_reading buffer flow (saturating_sub (rd_low s) data_len) (saturating_sub (rd_high s) data_len)
                                bytes count) in
          Ret (b_as_slice data :: rest, ran_out, s)
      end
  end.

(** [poll_request] in the state [Receiving]: the stream, the request and the
    response so far, and whether the reader is to be woken. *)
Definition poll_data (self : t) (request : Rx.Request)
    : outcome (t * Rx.Request * result (Z * Z * bool) (StreamError CE)) :=
  if Z.min (ReceiveFlow.watermark (flow_controller self)) (Rx.low_watermark request) <=? ra_len (receive_buffer self) then
    match Rx.chunks request with
    | Some ((_ :: _) as chunks) =>
        if existsb (fun chunk => negb (blen chunk =? 0)) chunks then Ret (self, request, Err NonEmptyOutput) else
        let! '(chunks, ran_out, s) :=
          read_chunks chunks (mk_reading (receive_buffer self) (flow_controller self) (Rx.low_watermark request)
                                (Rx.high_watermark request) 0 0) in
        Ret (set_flow (set_buffer self (rd_buffer s)) (rd_flow s),
             Rx.mk_request (Some chunks) (rd_low s) (rd_high s) (Rx.stop_sending request) (Rx.detached request),
             Ok (rd_bytes s, rd_chunks s, ran_out))
    | _ => Ret (self, request, Ok (0, 0, false))
    end
  else Ret (self, request, Ok (0, 0, true)).

(** The end of the stream, where its size was known before the data was read. *)
Definition poll_end (self : t) (total_size : option Z) : outcome (t * Status CE) :=
  match total_size with
  | None => Ret (self, Open)
  | Some total_size =>
      if total_size =? consumed_len (receive_buffer self) then
        let! _ := rassert (OnceSync.is_cancelled (stop_sending_sync self)) in
        let! _ := rassert (IncrementalValueSync.is_cancelled (ReceiveFlow.read_window_sync (flow_controller self))) in
        Ret (set_observed (set_waiter (set_buffer (set_state self DataRead) (ra_reset (receive_buffer self))) None), Finished)
      else if total_size =? total_received_len (receive_buffer self) then Ret (self, Finishing)
      else Ret (self, Open)
  end.

(** [context] is the waker of the caller, if there is one. *)
Definition poll_request (self : t) (request : Rx.Request) (context : option Z)
    : outcome (t * Rx.Request * result (Rx.Response CE) (StreamError CE)) :=
  match Rx.stop_sending request with
  | Some error_code => let! '(self, response) := poll_stop_sending self error_code in Ret (self, request, Ok response)
  | None =>
      let! self := if Rx.detached request then detach self else Ret self in
      match state self with
      | WasReset error => Ret (set_waiter (set_observed self) None, request, Err error)
      | Stopping error _ => Ret (set_waiter self None, request, Err error)
      | DataRead =>
          Ret (set_waiter (set_observed self) None, request,
               Ok (Rx.mk_response (mk_amount 0 0) (mk_amount 0 0) false Finished))
      | Receiving =>
          let total_size := final_size (receive_buffer self) in
          let! '(self, request, res) := poll_data self request in
          match res with
          | Err e => Ret (self, request, Err e)
          | Ok (bytes, chunks, should_wake) =>
              let! '(self, status) := poll_end self total_size in
              let '(available_bytes, available_chunks) := report (receive_buffer self) in
              let '(self, will_wake) :=
                match context with
                | Some waker => if should_wake then (set_waiter self (Some (waker, Rx.low_watermark request)), true) else (self, false)
                | None => (self, false)
                end in
              Ret (self, request,
                   Ok (Rx.mk_response (mk_amount bytes available_bytes) (mk_amount chunks available_chunks) will_wake status))
          end
      end
  end.

Definition stream_interests (self : t) (interests : StreamInterests) : outcome StreamInterests :=
  if final_state_observed self then Ret interests else
  let! transmission :=
    with_transmission (transmission interests)
      (OnceSync.transmission_interest (stop_sending_sync self)
       ++ IncrementalValueSync.transmission_interest (ReceiveFlow.read_window_sync (flow_controller self))) in
  Ret (mk_interests (connection_flow_control_credits interests) (stream_flow_control_credits interests) true
         (delivery_notifications interests || OnceSync.is_inflight (stop_sending_sync self)
          || IncrementalValueSync.is_inflight (ReceiveFlow.read_window_sync (flow_controller self))) transmission).
End Ops.
Arguments State : clear implicits.
Arguments t : clear implicits.
End ReceiveStream.
