(* ===== verification/ReceiveFlowThm.v ===== *)
(** * Properties of receive flow control

    The credit of the connection that the streams of a connection share, and the
    data a stream may read. *)
From S2P Require Import Prelude Codec VarInt PacketNumber FrameAck Frames Time Transmission Recovery Sync FlowControl FlowControlThm ReassemblerSlot Reassembler ReassemblerSpec ReassemblerWrite ReassemblerOps ReassemblerRead ReassemblerThm StreamOps ReceiveStream.

(** ** The data that has arrived without a gap *)
Section Received.
Context {B : Type} {HB : BytesMut B} {HS : BytesMutSpec B}.

Lemma received_end_get (l : list (Slot B)) : forall o, chain l -> from o l ->
  (forall x, o <= x < received_end l o -> rx l x <> None) /\ rx l (received_end l o) = None.
Proof.
  induction l as [| s l IH]; intros o Hc Hf; cbn [received_end rx]; [split; [lia | done] |].
  pose proof (chain_from _ _ Hc) as Hfr. pose proof Hc as ((_ & Hs & Hw) & _ & Hc'). unfold from in Hf. cbn in Hf. pose proof (slot_end_eq s). pose proof (sl_len_ok s).
  destruct (slot_is_occupied s o) eqn:Eo.
  - apply slot_is_occupied_spec in Eo as [Hlen <-].
    assert (Hfe : from (slot_end s) l) by (unfold from in *; destruct (head l); [lia | done]).
    destruct (IH (slot_end s) Hc' Hfe) as [Hin Hend].
    assert (Hge : slot_end s <= received_end l (slot_end s)).
    { rewrite received_end_total. pose proof (total_nonneg (iter_chunks l (slot_end s))). lia. }
    split; [| assert (slot_get s (received_end l (slot_end s)) = None) as -> by (apply slot_get_None; lia); done].
    intros x Hx. destruct (slot_get s x) eqn:Eg; [done |]. apply slot_get_None in Eg. apply Hin. lia.
  - split; [lia |]. assert (slot_get s o = None) as ->.
    { apply slot_get_None. intros ?. apply not_true_iff_false in Eo. apply Eo, slot_is_occupied_spec. lia. }
    apply (rx_below l (slot_end_allocated s)); [done | done | lia].
Qed.

(** [total_received_len]: the first offset whose byte is missing. *)
Lemma total_received_ok (st : Reassembler B) :
  ra_ok st ->
  let so := start_offset (cursors st) in let n := total_received_len st in
  so <= n <= max_recv_offset (cursors st) /\ (forall x, so <= x < n -> ra_get st x <> None) /\ ra_get st n = None
  /\ ra_len st = n - so.
Proof.
  intros [(Hc1 & _) (Hc & _ & _ & Hh & Hb)]. cbv zeta. unfold total_received_len.
  pose proof (received_end_bound (slots st) (start_offset (cursors st)) (max_recv_offset (cursors st)) ltac:(lia) (bounded_ends _ _ Hb)).
  destruct (received_end_get (slots st) (start_offset (cursors st)) Hc (head_ok_from _ _ Hh)) as [Hin Hend].
  split_and!; [lia | lia | exact Hin | exact Hend |].
  rewrite received_end_total. unfold ra_len, report, ra_iter. cbn [fst]. change (fold_left _ ?c 0) with (total c). lia.
Qed.

Lemma is_writing_complete_spec (st : Reassembler B) :
  is_writing_complete st = match final_size st with Some n => total_received_len st =? n | None => false end.
Proof. done. Qed.
End Received.

(** ** The window of a stream *)
Section Window.
Import IncrementalValueSync.

(** The window is announced, or no longer needs to be. *)
Definition window_ok (s : t) : Prop := 0 <= latest_value s /\ (is_cancelled s = true \/ ivs_ok s).

Lemma window_update_ok s v :
  window_ok s -> latest_value s <= v ->
  returns (update_latest_value s v) (fun s' => window_ok s' /\ latest_value s' = v /\ threshold s' = threshold s
    /\ is_cancelled s' = is_cancelled s).
Proof.
  intros [H0 H] Hv. destruct (is_cancelled s) eqn:Ec.
  - unfold update_latest_value. rewrite (proj2 (Z.leb_le _ _)) by lia. cbn [rassert obind].
    unfold request_delivery_if_necessary, should_send_update. cbn [delivery]. unfold is_cancelled in Ec. rewrite Ec. cbn [obind].
    apply returns_ret. cbn. unfold window_ok, is_cancelled. cbn. split_and!; try done; [lia | by left].
  - destruct H as [? | H]; [done |]. destruct (update_latest_ok s v H Hv) as (s' & -> & Hs' & Hl & _ & Ht & Hd). apply returns_ret.
    split_and!; try done; [split; [lia | by right] |]. unfold is_cancelled in *. destruct Hd as [-> | ->]; done.
Qed.

Lemma window_stop_ok s : window_ok s -> window_ok (stop_sync s) /\ is_cancelled (stop_sync s) = true.
Proof. intros [H0 _]. assert (is_cancelled (stop_sync s) = true) by (unfold is_cancelled; cbn; by destruct (delivery s)). split; [| done]. split; [done | by left]. Qed.

Lemma cancelled_inert s : is_cancelled s = true ->
  (forall c, on_packet_ack s c = s) /\ (forall c, on_packet_loss s c = s) /\ forall wr id w, on_transmit wr s id w = (s, Ok tt, []).
Proof.
  unfold is_cancelled, on_packet_ack, on_packet_loss, on_transmit. destruct s as [l a th d]. cbn. by destruct d.
Qed.

Lemma window_ack_ok s c : window_ok s -> window_ok (on_packet_ack s c) /\ latest_value (on_packet_ack s c) = latest_value s
  /\ is_cancelled (on_packet_ack s c) = is_cancelled s.
Proof.
  intros [H0 H]. destruct (is_cancelled s) eqn:Ec; [rewrite (proj1 (cancelled_inert s Ec)); split_and!; try done; split; [done | by left] |].
  destruct H as [? | H]; [done |]. destruct (ivs_ack_ok s c H) as (H1 & H2 & _ & H3). split_and!; [split; [lia | by right] | done |].
  unfold is_cancelled in *. destruct H3 as [-> | (d & _ & -> & _)]; done.
Qed.

Lemma window_loss_ok s c : window_ok s -> window_ok (on_packet_loss s c) /\ latest_value (on_packet_loss s c) = latest_value s
  /\ is_cancelled (on_packet_loss s c) = is_cancelled s.
Proof.
  intros [H0 H]. destruct (is_cancelled s) eqn:Ec; [rewrite (proj1 (proj2 (cancelled_inert s Ec))); split_and!; try done; split; [done | by left] |].
  destruct H as [? | H]; [done |]. destruct (ivs_loss_ok s c H) as (H1 & H2 & _ & _ & H3). split_and!; [split; [lia | by right] | done |].
  unfold is_cancelled in *. destruct H3 as [-> | (d & _ & ->)]; done.
Qed.

Lemma window_transmit_ok wr s id w :
  window_ok s ->
  let '(s', _, fs) := on_transmit wr s id w in
  window_ok s' /\ latest_value s' = latest_value s /\ is_cancelled s' = is_cancelled s /\ (fs = [] \/ fs = [wr (latest_value s) id]).
Proof.
  intros [H0 H]. destruct (is_cancelled s) eqn:Ec.
  { rewrite (proj2 (proj2 (cancelled_inert s Ec))). split_and!; try done; [split; [done | by left] | by left]. }
  destruct H as [? | H]; [done |]. pose proof (ivs_transmit_ok wr s id w H) as Ht.
  destruct (on_transmit wr s id w) as [[s' r] fs]. destruct Ht as (H1 & H2 & _ & _ & H3 & _). split_and!; [split; [lia | by right] | done | |].
  - unfold is_cancelled in *. destruct H3 as [[-> _] | (_ & pk & ->)]; done.
  - destruct H3 as [[_ ->] | [-> _]]; [by left | by right].
Qed.
End Window.

(** ** The credit of the connection *)

Record incoming_ok (c : Incoming.t) : Prop := {
  in_sync : ivs_ok (Incoming.read_window_sync c);
  in_desired : 0 <= Incoming.desired_flow_control_window c < 2 ^ 32;
  in_consumed : 0 <= Incoming.consumed_window c <= Incoming.acquired_window c;
  in_acquired : Incoming.acquired_window c <= IncrementalValueSync.latest_value (Incoming.read_window_sync c);
  in_latest : IncrementalValueSync.latest_value (Incoming.read_window_sync c)
    = Z.min MAX_VARINT_VALUE (Incoming.consumed_window c + Incoming.desired_flow_control_window c)
}.

Local Abbreviation in_limit c := (IncrementalValueSync.latest_value (Incoming.read_window_sync c)).

Lemma incoming_acquire_ok c k :
  incoming_ok c -> 0 <= k ->
  returns (Incoming.acquire_window c k) (fun '(c', res) => incoming_ok c' /\
    match res with
    | Ok _ => Incoming.acquired_window c + k <= in_limit c
        /\ c' = Incoming.mk (Incoming.read_window_sync c) (Incoming.desired_flow_control_window c) (Incoming.acquired_window c + k)
                  (Incoming.consumed_window c)
    | Err e => e = FLOW_CONTROL_ERROR /\ in_limit c < Incoming.acquired_window c + k /\ c' = c
    end).
Proof.
  intros [H1 H2 H3 H4 H5] Hk. unfold Incoming.acquire_window, Incoming.remaining_window. rewrite varint_sub_Ret by lia. cbn [obind].
  destruct (Z.ltb_spec (in_limit c - Incoming.acquired_window c) k); [apply returns_ret; split; [by split | split_and!; done || lia] |].
  rewrite varint_add_Ret by lia. apply returns_ret. split; [split; cbn; done || lia |]. split; [lia | done].
Qed.

Lemma incoming_release_ok c k :
  incoming_ok c -> 0 <= k <= Incoming.acquired_window c - Incoming.consumed_window c ->
  returns (Incoming.release_window c k) (fun c' => incoming_ok c' /\ Incoming.consumed_window c' = Incoming.consumed_window c + k
    /\ Incoming.acquired_window c' = Incoming.acquired_window c
    /\ Incoming.desired_flow_control_window c' = Incoming.desired_flow_control_window c).
Proof.
  intros [H1 H2 H3 H4 H5] Hk. unfold Incoming.release_window. rewrite varint_add_Ret by lia. cbn [obind].
  rewrite (proj2 (Z.leb_le _ _)) by lia. cbn [rassert obind]. rewrite saturating_add_spec by lia.
  destruct (update_latest_ok (Incoming.read_window_sync c)
    (Z.min MAX_VARINT_VALUE (Incoming.consumed_window c + k + Incoming.desired_flow_control_window c))) as (s' & -> & Hs & Hl & _); [done | lia |].
  apply returns_ret. cbn. split_and!; try done. split; cbn; rewrite ?Hl; try done; lia.
Qed.

(** ** The flow controller of a stream *)

Record receive_flow_ok (f : ReceiveFlow.t) : Prop := {
  rf_connection : incoming_ok (ReceiveFlow.connection_flow_controller f);
  rf_sync : window_ok (ReceiveFlow.read_window_sync f);
  rf_desired : 0 <= ReceiveFlow.desired_flow_control_window f < 2 ^ 32;
  rf_released : 0 <= ReceiveFlow.released_connection_window f <= ReceiveFlow.acquired_connection_window f;
  rf_acquired : ReceiveFlow.acquired_connection_window f <= IncrementalValueSync.latest_value (ReceiveFlow.read_window_sync f);
  rf_latest : IncrementalValueSync.latest_value (ReceiveFlow.read_window_sync f)
    = Z.min MAX_VARINT_VALUE (ReceiveFlow.released_connection_window f + ReceiveFlow.desired_flow_control_window f);
  (** The credit the stream holds is a part of the credit handed out. *)
  rf_share : ReceiveFlow.acquired_connection_window f - ReceiveFlow.released_connection_window f
    <= Incoming.acquired_window (ReceiveFlow.connection_flow_controller f)
       - Incoming.consumed_window (ReceiveFlow.connection_flow_controller f)
}.

Definition stream_limit (f : ReceiveFlow.t) : Z := IncrementalValueSync.latest_value (ReceiveFlow.read_window_sync f).
Definition connection_limit (f : ReceiveFlow.t) : Z := in_limit (ReceiveFlow.connection_flow_controller f).
(** The credit that data up to [offset] takes. *)
Definition needed (f : ReceiveFlow.t) (offset : Z) : Z := Z.max 0 (offset - ReceiveFlow.acquired_connection_window f).
(** Data up to [offset] is within the limits. *)
Definition admitted (f : ReceiveFlow.t) (offset : Z) : Prop :=
  offset <= stream_limit f
  /\ Incoming.acquired_window (ReceiveFlow.connection_flow_controller f) + needed f offset <= connection_limit f.

(** What becomes of the flow controller: credit moves between the stream and the
    connection, none is lost. *)
Record credited (f f' : ReceiveFlow.t) : Prop := {
  cr_acquired : Incoming.acquired_window (ReceiveFlow.connection_flow_controller f') - ReceiveFlow.acquired_connection_window f'
    = Incoming.acquired_window (ReceiveFlow.connection_flow_controller f) - ReceiveFlow.acquired_connection_window f;
  cr_released : Incoming.consumed_window (ReceiveFlow.connection_flow_controller f') - ReceiveFlow.released_connection_window f'
    = Incoming.consumed_window (ReceiveFlow.connection_flow_controller f) - ReceiveFlow.released_connection_window f;
  cr_up : ReceiveFlow.acquired_connection_window f <= ReceiveFlow.acquired_connection_window f'
    /\ ReceiveFlow.released_connection_window f <= ReceiveFlow.released_connection_window f';
  cr_desired : ReceiveFlow.desired_flow_control_window f' = ReceiveFlow.desired_flow_control_window f
    /\ Incoming.desired_flow_control_window (ReceiveFlow.connection_flow_controller f')
       = Incoming.desired_flow_control_window (ReceiveFlow.connection_flow_controller f)
}.

Lemma credited_refl f : credited f f.
Proof. split; done || lia. Qed.
Lemma credited_trans f g h : credited f g -> credited g h -> credited f h.
Proof. intros [? ? [? ?] [? ?]] [? ? [? ?] [? ?]]. split; lia || (split; congruence || lia). Qed.

Local Abbreviation sync_cancelled f := (IncrementalValueSync.is_cancelled (ReceiveFlow.read_window_sync f)).

Lemma receive_acquire_ok f offset :
  receive_flow_ok f -> 0 <= offset ->
  returns (ReceiveFlow.acquire_window_up_to f offset) (fun '(f', res) => receive_flow_ok f' /\ credited f f' /\
    match res with
    | Ok _ => admitted f offset /\ ReceiveFlow.acquired_connection_window f' = Z.max (ReceiveFlow.acquired_connection_window f) offset
        /\ ReceiveFlow.released_connection_window f' = ReceiveFlow.released_connection_window f
        /\ ReceiveFlow.read_window_sync f' = ReceiveFlow.read_window_sync f
    | Err e => e = FLOW_CONTROL_ERROR /\ ~ admitted f offset /\ f' = f
    end).
Proof.
  intros H Ho. pose proof H as [Hc Hs Hd Hr Ha Hl Hsh]. unfold ReceiveFlow.acquire_window_up_to, admitted, needed, stream_limit, connection_limit.
  destruct (Z.ltb_spec (IncrementalValueSync.latest_value (ReceiveFlow.read_window_sync f)) offset).
  { apply returns_ret. split_and!; [done | apply credited_refl | done | lia | done]. }
  assert (Hsat : VarInt.saturating_sub offset (ReceiveFlow.acquired_connection_window f) = Z.max 0 (offset - ReceiveFlow.acquired_connection_window f)).
  { unfold VarInt.saturating_sub, Prelude.saturating_sub. lia. }
  rewrite Hsat. destruct (Z.ltb_spec 0 (Z.max 0 (offset - ReceiveFlow.acquired_connection_window f))).
  - rstep (incoming_acquire_ok _ _ Hc (Z.le_max_l 0 (offset - ReceiveFlow.acquired_connection_window f))). intros [c' res] [Hc' Hres].
    destruct res as [u | e].
    + destruct Hres as [Hle ->]. rewrite varint_add_Ret by lia. apply returns_ret. cbn.
      split_and!; try done; try lia; [split; cbn; done || lia | split; cbn; done || lia].
    + destruct Hres as (-> & Hgt & ->). apply returns_ret. split_and!; [by destruct f | destruct f; apply credited_refl | done | lia | by destruct f].
  - apply returns_ret. pose proof (in_acquired _ Hc). split_and!; try done; lia.
Qed.

Lemma receive_release_ok f k :
  receive_flow_ok f -> 0 <= k <= ReceiveFlow.acquired_connection_window f - ReceiveFlow.released_connection_window f ->
  returns (ReceiveFlow.release_window f k) (fun f' => receive_flow_ok f' /\ credited f f'
    /\ ReceiveFlow.acquired_connection_window f' = ReceiveFlow.acquired_connection_window f
    /\ ReceiveFlow.released_connection_window f' = ReceiveFlow.released_connection_window f + k
    /\ sync_cancelled f' = sync_cancelled f).
Proof.
  intros H Hk. pose proof H as [Hc Hs Hd Hr Ha Hl Hsh]. unfold ReceiveFlow.release_window. rewrite varint_add_Ret by lia. cbn [obind].
  rewrite saturating_add_spec by lia.
  rstep (window_update_ok (ReceiveFlow.read_window_sync f)
    (Z.min MAX_VARINT_VALUE (ReceiveFlow.released_connection_window f + k + ReceiveFlow.desired_flow_control_window f)) Hs ltac:(lia)).
  intros s' (Hs' & Hl' & _ & Hcan). rstep (incoming_release_ok _ k Hc ltac:(lia)). intros c' (Hc' & E1 & E2 & E3).
  apply returns_ret. cbn. split_and!; try done; split; cbn; done || lia.
Qed.

Lemma receive_stop_ok f : receive_flow_ok f -> receive_flow_ok (ReceiveFlow.stop_sync f) /\ sync_cancelled (ReceiveFlow.stop_sync f) = true.
Proof. intros []. destruct (window_stop_ok _ rf_sync0) as [? ?]. split; [by split | done]. Qed.

Lemma receive_sync_ok f s :
  receive_flow_ok f -> window_ok s -> IncrementalValueSync.latest_value s = stream_limit f -> receive_flow_ok (ReceiveFlow.set_sync f s).
Proof. unfold stream_limit. intros [] Hs Hl. split; cbn; rewrite ?Hl; done. Qed.
