(* ===== verification/ReceiveStreamThm.v ===== *)
(** * Properties of the receiving half of a stream

    Its operations never panic and keep the credit of the connection balanced;
    what the application reads is the stream. *)
From S2P Require Import Prelude Codec VarInt PacketNumber FrameAck Frames Time Transmission Recovery Sync FlowControl FlowControlThm ReassemblerSlot Reassembler ReassemblerSpec ReassemblerWrite ReassemblerOps ReassemblerRead ReassemblerThm StreamOps ReceiveStream ReceiveFlowThm.

(** Reading does not change what has arrived. *)
Lemma took_received {B} {HB : BytesMut B} {HS : BytesMutSpec B} (st st' : Reassembler B) bs :
  ra_ok st -> took st bs st' -> total_received_len st' = total_received_len st.
Proof.
  intros Hok (Hok' & Hcur & Hbs & Hget). destruct (total_received_ok st Hok) as (Hr & Hin & Hend & _).
  destruct (total_received_ok st' Hok') as (Hr' & Hin' & Hend' & _). rewrite Hcur in *. cbn [start_offset max_recv_offset] in *.
  set (so := start_offset (cursors st)) in *. set (n := total_received_len st) in *. set (n' := total_received_len st') in *.
  pose proof (blen_nonneg bs). rewrite Hget in Hend'. destruct (Z.ltb_spec n' (so + blen bs)); [lia |].
  destruct (Z.lt_trichotomy n n') as [Hlt | [? | Hgt]]; [| done |].
  - exfalso. destruct (Z.lt_ge_cases n (so + blen bs)).
    + destruct (bs !! Z.to_nat (n - so)) as [b |] eqn:Eb; [| apply lookup_ge_None in Eb; unfold blen in *; lia].
      apply Hbs in Eb. replace (so + Z.of_nat (Z.to_nat (n - so))) with n in Eb by lia. congruence.
    + apply (Hin' n); [lia |]. rewrite Hget. destruct (Z.ltb_spec n (so + blen bs)); [done | exact Hend].
  - exfalso. apply (Hin n'); [lia | done].
Qed.

Section Stream.
Context {CE B : Type} {HB : BytesMut B} {HS : BytesMutSpec B} (alloc : Z -> Z -> B).
Hypothesis alloc_ok : alloc_exact alloc.
Import ReceiveStream.

Local Abbreviation stream := (ReceiveStream.t CE B).
Local Abbreviation acquired s := (ReceiveFlow.acquired_connection_window (flow_controller s)).
Local Abbreviation released s := (ReceiveFlow.released_connection_window (flow_controller s)).
Local Abbreviation window_stopped s := (IncrementalValueSync.is_cancelled (ReceiveFlow.read_window_sync (flow_controller s))).

(** A stream that still receives has credit for all it has received, and gave
    back the credit for all that was read. *)
Record receiving_ok (s : stream) : Prop := {
  rc_detached : detached s = false;
  rc_released : released s = consumed_len (receive_buffer s);
  rc_acquired : max_recv_offset (cursors (receive_buffer s)) <= acquired s;
  rc_final n : final_size (receive_buffer s) = Some n -> n <= acquired s /\ window_stopped s = true;
  rc_complete : is_writing_complete (receive_buffer s) = true -> OnceSync.is_cancelled (stop_sending_sync s) = true
}.

Record rs_ok (s : stream) : Prop := {
  rs_buffer : ra_ok (receive_buffer s);
  rs_flow : receive_flow_ok (flow_controller s);
  rs_receiving : state s = Receiving -> receiving_ok s
}.

(** The same but for who waits and who has seen the end. *)
Definition alike (s s' : stream) : Prop :=
  state s' = state s /\ receive_buffer s' = receive_buffer s /\ flow_controller s' = flow_controller s
  /\ stop_sending_sync s' = stop_sending_sync s /\ detached s' = detached s.

Lemma alike_ok s s' : alike s s' -> rs_ok s -> rs_ok s'.
Proof.
  intros (E1 & E2 & E3 & E4 & E5) [H1 H2 H3]. split; rewrite ?E1, ?E2, ?E3; try done. intros Hr. destruct (H3 Hr).
  split; rewrite ?E2, ?E3, ?E4, ?E5; done.
Qed.

Lemma wake_ok s ev : (state s = Receiving -> detached s = false) -> returns (wake s ev) (fun '(s', _) => alike s s').
Proof.
  intros Hd. unfold wake. destruct (read_waiter s) as [[w ?] |]; [by apply returns_ret |].
  destruct (detached s) eqn:Ed; [| by apply returns_ret]. unfold detach.
  destruct (state s) eqn:Est; [by specialize (Hd eq_refl) | ..]; cbn [rassert obind]; apply returns_ret; unfold alike; cbn; by rewrite ?Est, ?Ed.
Qed.

Lemma once_stop_cancelled {T} (o : OnceSync.t T) : OnceSync.is_cancelled (OnceSync.stop_sync o) = true.
Proof. by destruct o as [[]]. Qed.

Lemma check_end_ok s frame w :
  ra_ok (receive_buffer s) -> receive_flow_ok (flow_controller s) -> state s = Receiving -> detached s = false ->
  released s = consumed_len (receive_buffer s) -> max_recv_offset (cursors (receive_buffer s)) <= acquired s ->
  (forall n, final_size (receive_buffer s) = Some n -> n <= acquired s /\ window_stopped s = true) ->
  let s' := (check_end s frame w).1 in
  rs_ok s' /\ flow_controller s' = flow_controller s /\ detached s' = false
  /\ (state s' = Receiving /\ receive_buffer s' = receive_buffer s
      \/ state s' = DataRead /\ Stream.is_fin frame = true
         /\ final_size (receive_buffer s) = Some (consumed_len (receive_buffer s))).
Proof.
  intros Hb Hf Hst Hd Hrel Hacq Hfin. unfold check_end. destruct (final_size (receive_buffer s)) as [n |] eqn:Efin.
  2: { cbn. split_and!; try done; [| by left]. split; try done. intros _. split; try done; [by rewrite Efin |].
       unfold is_writing_complete. by rewrite Efin. }
  set (s1 := if total_received_len (receive_buffer s) =? n then (set_stop_sending s _, true) else (s, w)).
  assert (H1 : rs_ok s1.1 /\ flow_controller s1.1 = flow_controller s /\ detached s1.1 = false /\ receive_buffer s1.1 = receive_buffer s
    /\ state s1.1 = Receiving).
  { unfold s1. destruct (Z.eqb_spec (total_received_len (receive_buffer s)) n) as [_ | Hne]; cbn; split_and!; try done; split; try done;
      intros _; split; cbn; try done; intros; try (by apply Hfin; congruence).
    - apply once_stop_cancelled.
    - exfalso. unfold is_writing_complete in *. rewrite Efin in *. by apply Z.eqb_eq in H. }
  destruct s1 as [s1 w1]. cbn [fst] in H1. destruct H1 as (Hok1 & Ef1 & Ed1 & Eb1 & Est1). rewrite Eb1.
  destruct (Stream.is_fin frame && (consumed_len (receive_buffer s) =? n)) eqn:Eend; cbn; [| split_and!; try done; by left].
  apply andb_true_iff in Eend as [Hfr Hc%Z.eqb_eq]. split_and!; try done; [split; cbn; [apply ra_new_ok | apply Hok1 | done] |].
  right. by rewrite Hc.
Qed.

(** [on_data] once the data is in the buffer. *)
Lemma on_data_written_ok s frame ev :
  ra_ok (receive_buffer s) -> receive_flow_ok (flow_controller s) -> state s = Receiving -> detached s = false ->
  released s = consumed_len (receive_buffer s) -> max_recv_offset (cursors (receive_buffer s)) <= acquired s ->
  (forall n, final_size (receive_buffer s) = Some n -> n <= acquired s /\ (Stream.is_fin frame = true \/ window_stopped s = true)) ->
  returns (on_data_written s frame ev) (fun '(s', _) => rs_ok s'
    /\ (exists sync, flow_controller s' = ReceiveFlow.set_sync (flow_controller s) sync)
    /\ (state s' = Receiving /\ receive_buffer s' = receive_buffer s
        \/ state s' = DataRead /\ Stream.is_fin frame = true
           /\ final_size (receive_buffer s) = Some (consumed_len (receive_buffer s)))).
Proof.
  intros Hb Hf Hst Hd Hrel Hacq Hfin. unfold on_data_written.
  set (s1 := if Stream.is_fin frame then _ else s).
  assert (H1 : receive_flow_ok (flow_controller s1) /\ (exists sync, flow_controller s1 = ReceiveFlow.set_sync (flow_controller s) sync)
    /\ (Stream.is_fin frame = true \/ window_stopped s = true -> window_stopped s1 = true) /\ receive_buffer s1 = receive_buffer s
    /\ state s1 = Receiving /\ detached s1 = false /\ acquired s1 = acquired s /\ released s1 = released s).
  { destruct (receive_stop_ok _ Hf) as [Hf' Hc']. unfold s1. destruct (Stream.is_fin frame).
    - cbn. split_and!; try done. by eexists.
    - split_and!; try done; [exists (ReceiveFlow.read_window_sync (flow_controller s)); by destruct (flow_controller s) | by intros [|]]. }
  destruct H1 as (Hf1 & Hsync & Hc1 & Eb & Est1 & Ed1 & Ea & Er). clearbody s1.
  pose proof (check_end_ok s1 frame (crossed_watermark s)) as H2. rewrite Eb, Ea, Er in H2. specialize (H2 Hb Hf1 Est1 Ed1 Hrel Hacq).
  destruct (check_end s1 frame (crossed_watermark s)) as [s2 w]. cbn [fst] in H2.
  destruct H2 as (Hok2 & Ef2 & Ed2 & Hst2); [intros n Hn; destruct (Hfin n Hn); auto |]. rewrite <- Ef2 in Hsync.
  destruct w; [| by apply returns_ret].
  eapply returns_mono; [apply (wake_ok s2 ev); done |]. intros [s3 ev3] Hal. pose proof Hal as (E1 & E2 & E3 & _).
  rewrite E1, E2, E3. split_and!; try done. by apply (alike_ok s2).
Qed.
(** The data of the frame is in the buffer. *)
Definition stored (st st' : Reassembler B) (frame : Stream.t) (final : Z) : Prop :=
  let e := Stream.offset frame + blen (Stream.data frame) in
  let so := start_offset (cursors st) in
  final_after (cursors st) e (Stream.is_fin frame) = Ok final
  /\ cursors st' = mk_cursors so (Z.max (max_recv_offset (cursors st)) e) final
  /\ forall x, ra_get st' x
       = match ra_get st x with
         | Some b => Some b
         | None => if x <? Z.max so (Stream.offset frame) then None else Stream.data frame !! Z.to_nat (x - Stream.offset frame)
         end.

(** Why data is refused. *)
Definition refused (s : stream) (frame : Stream.t) (e : TransportError) : Prop :=
  let data_end := Stream.offset frame + blen (Stream.data frame) in
  match e with
  | FLOW_CONTROL_ERROR =>
      MAX_VARINT_VALUE < data_end \/ (final_size (receive_buffer s) = None /\ ~ admitted (flow_controller s) data_end)
  | FINAL_SIZE_ERROR => final_after (cursors (receive_buffer s)) data_end (Stream.is_fin frame) = Err InvalidFin
  end.

(** The final size is the end of the data that ends the stream. *)
Lemma final_after_acquired cur e fin f :
  final_after cur e fin = Ok f ->
  e <= MAX_VARINT_VALUE /\
  match CursorsOps.final_size cur with
  | Some n => f = n /\ e <= n
  | None => if fin then f = e /\ max_recv_offset cur <= e else f = UNKNOWN_FINAL_SIZE
  end.
Proof.
  unfold final_after. destruct (Z.ltb_spec MAX_VARINT_VALUE e); [done |]. intros Hf. split; [done |].
  destruct (CursorsOps.final_size cur), fin; repeat case_match; simplify_eq; try done; lia.
Qed.

(** The credit for data up to [e], if the final size does not cover it. *)
Lemma data_credit_ok (s : stream) e :
  receive_flow_ok (flow_controller s) -> 0 <= e ->
  returns (match final_size (receive_buffer s) with
           | None => ReceiveFlow.acquire_window_up_to (flow_controller s) e
           | Some _ => Ret (flow_controller s, Ok tt)
           end) (fun '(f', res) => receive_flow_ok f' /\ credited (flow_controller s) f' /\
    ReceiveFlow.read_window_sync f' = ReceiveFlow.read_window_sync (flow_controller s) /\
    ReceiveFlow.released_connection_window f' = released s /\ acquired s <= ReceiveFlow.acquired_connection_window f' /\
    ReceiveFlow.acquired_connection_window f' <= Z.max (acquired s) e /\
    match res with
    | Ok _ => (final_size (receive_buffer s) = None -> admitted (flow_controller s) e /\ e <= ReceiveFlow.acquired_connection_window f')
    | Err x => x = FLOW_CONTROL_ERROR /\ f' = flow_controller s /\ final_size (receive_buffer s) = None /\ ~ admitted (flow_controller s) e
    end).
Proof.
  intros Hf He. destruct (final_size (receive_buffer s)); [apply returns_ret; split_and!; try done; lia |].
  eapply returns_mono; [by apply (receive_acquire_ok _ e Hf) |]. intros [f' res] (Hf' & Hcr & Hres). destruct res as [u | x].
  - destruct Hres as (Had & Ea & Er & Es). split_and!; try done; try lia. intros _. split; [done | lia].
  - destruct Hres as (-> & Hn & ->). split_and!; try done. lia.
Qed.

Lemma on_data_receiving s frame ev :
  rs_ok s -> state s = Receiving -> 0 <= Stream.offset frame ->
  returns (on_data alloc s frame ev) (fun '(s', _, res) => rs_ok s' /\ credited (flow_controller s) (flow_controller s') /\
    match res with
    | Err e => refused s frame e /\ state s' = Receiving /\ receive_buffer s' = receive_buffer s
    | Ok _ => (forall e, ~ refused s frame e)
        /\ acquired s' <= Z.max (acquired s) (Stream.offset frame + blen (Stream.data frame))
        /\ exists buf final, ra_ok buf /\ stored (receive_buffer s) buf frame final
        /\ (state s' = Receiving /\ receive_buffer s' = buf
            \/ state s' = DataRead /\ Stream.is_fin frame = true /\ final_size buf = Some (consumed_len buf))
    end).
Proof.
  intros Hok Hst Ho. pose proof Hok as [Hb Hf Hr]. destruct (Hr Hst) as [Hd Hrel Hacq Hfin Hcomp]. unfold on_data. rewrite Hst.
  pose proof (blen_nonneg (Stream.data frame)). rewrite checked_add_usize_spec by lia. set (e := Stream.offset frame + blen (Stream.data frame)).
  destruct (Z.ltb_spec MAX_VARINT_VALUE e).
  { apply returns_ret. split_and!; try done. by left. }
  rstep (data_credit_ok s e Hf ltac:(lia)). intros [f' res] (Hf' & Hcr & Es & Er & Ea & Eb & Hres). destruct res as [u | x].
  2: { destruct Hres as (-> & -> & Hnone & Hnot). apply returns_ret.
       assert (E : set_flow s (flow_controller s) = s) by (by destruct s). rewrite E. split_and!; try done. by right. }
  cbn [set_flow receive_buffer]. change (if Stream.is_fin frame then write_at_fin alloc ?b ?o ?d else _) with (write_any alloc b o d (Stream.is_fin frame)).
  destruct (write_any_ok alloc (receive_buffer s) (Stream.offset frame) (Stream.data frame) (Stream.is_fin frame) alloc_ok Hb Ho)
    as (buf & -> & Hbuf & Hverdict). cbn [obind]. fold e in Hverdict |- *.
  destruct (final_after (cursors (receive_buffer s)) e (Stream.is_fin frame)) as [fo | err] eqn:Efin.
  2: { subst buf. assert (err = InvalidFin) as ->.
       { unfold final_after in Efin. destruct (Z.ltb_spec MAX_VARINT_VALUE e); [lia |].
         destruct (CursorsOps.final_size _), (Stream.is_fin frame); repeat case_match; congruence. }
       apply returns_ret. split_and!; try done. split; cbn; try done. intros _. split; cbn; try done; [by rewrite Er | lia |].
       rewrite Es. intros n Hn. destruct (Hfin n Hn). split; [lia | done]. }
  destruct Hverdict as [Hcur Hget].
  assert (Hstored : stored (receive_buffer s) buf frame fo) by (split_and!; done).
  pose proof (final_after_acquired _ _ _ _ Efin) as Hfo.
  destruct Hfo as [_ Hfo]. change (CursorsOps.final_size (cursors (receive_buffer s))) with (final_size (receive_buffer s)) in Hfo.
  assert (He : e <= ReceiveFlow.acquired_connection_window f').
  { destruct (final_size (receive_buffer s)) as [n |]; [destruct (Hfin n eq_refl); lia | by apply Hres]. }
  rstep (on_data_written_ok (set_buffer (set_flow s f') buf) frame ev); try done.
  - cbn. rewrite Er. unfold consumed_len. by rewrite Hcur.
  - cbn. rewrite Hcur. cbn. lia.
  - cbn. intros n. unfold final_size, CursorsOps.final_size. rewrite Hcur. cbn. rewrite Es.
    destruct (final_size (receive_buffer s)) as [m |].
    + destruct Hfo as [-> _], (Hfin m eq_refl). destruct (m =? _); [done |]. intros [= <-]. split; [lia | by right].
    + destruct (Stream.is_fin frame); [| by rewrite Hfo]. destruct Hfo as [-> _]. destruct (e =? _); [done |]. intros [= <-]. split; [done | by left].
  - intros [s' ev'] (Hok' & [sync Esync] & Hst'). apply returns_ret. split; [done |]. split.
    { rewrite Esync. cbn. destruct Hcr. by split. }
    split; [| split; [by rewrite Esync | by exists buf, fo]].
    intros [|] Href; cbn in Href; fold e in Href; [| congruence]. destruct Href as [? | [Hn Hna]]; [lia |]. by destruct (Hres Hn).
Qed.
(** ** Data for a stream that no longer receives *)

Lemma set_stop_ok s o :
  rs_ok s -> (state s = Receiving -> is_writing_complete (receive_buffer s) = true -> OnceSync.is_cancelled o = true) ->
  rs_ok (set_stop_sending s o).
Proof. intros [H1 H2 H3] Ho. split; try done. intros Hr. destruct (H3 Hr). split; try done. by apply Ho. Qed.

Lemma on_data_ignored s frame ev :
  rs_ok s -> state s <> Receiving -> 0 <= Stream.offset frame ->
  (forall e m, state s = Stopping e m -> Stream.offset frame + blen (Stream.data frame) <= MAX_VARINT_VALUE) ->
  returns (on_data alloc s frame ev) (fun '(s', _, res) => rs_ok s' /\ flow_controller s' = flow_controller s
    /\ receive_buffer s' = receive_buffer s /\ res = Ok tt
    /\ match state s with Stopping e _ => exists m, state s' = Stopping e m | st => state s' = st end).
Proof.
  intros Hok Hst Ho He. unfold on_data. destruct (state s) as [| | e m | e] eqn:Est; try done; try (by apply returns_ret; rewrite Est).
  unfold MissingData.on_data. specialize (He e m eq_refl). rewrite varint_add_usize_Ret by done. cbn [obind].
  apply returns_ret. destruct Hok as [H1 H2 _]. destruct (Z.leb _ _); cbn; split_and!; try done; try by eexists.
Qed.

(** ** Resets *)

Lemma discard_ok s error :
  rs_ok s ->
  returns (discard s error) (fun s' => rs_ok s' /\ credited (flow_controller s) (flow_controller s') /\ state s' = WasReset error
    /\ released s' = acquired s' /\ acquired s' = acquired s).
Proof.
  intros [Hb Hf Hr]. unfold discard, ReceiveFlow.release_outstanding_window. destruct (receive_stop_ok _ Hf) as [Hf' _].
  pose proof (rf_released _ Hf) as Hrel. cbn [ReceiveFlow.stop_sync ReceiveFlow.set_sync ReceiveFlow.acquired_connection_window ReceiveFlow.released_connection_window].
  rewrite varint_sub_Ret by lia. cbn [obind].
  rstep (receive_release_ok (ReceiveFlow.stop_sync (flow_controller s)) (acquired s - released s) Hf' ltac:(cbn; lia)). intros f (Hfo & Hcr & Ea & Er & _). apply returns_ret. cbn in *.
  split_and!; try done; [split; try done; apply ra_new_ok | destruct Hcr; by split | lia].
Qed.

(** A reset is refused if the final size is beyond the limits or not the one
    that was announced. *)
Definition reset_refused (s : stream) (size : option Z) (e : TransportError) : Prop :=
  match e, size with
  | FINAL_SIZE_ERROR, Some size => state s = Receiving /\ exists n, final_size (receive_buffer s) = Some n /\ n <> size
  | FLOW_CONTROL_ERROR, Some size =>
      ~ admitted (flow_controller s) size
      /\ match state s with Receiving => final_size (receive_buffer s) = None | Stopping _ _ => True | _ => False end
  | _, None => False
  end.

Lemma set_flow_self (s : stream) : set_flow s (flow_controller s) = s.
Proof. by destruct s. Qed.

Lemma init_reset_ok s error size :
  rs_ok s -> (forall n, size = Some n -> 0 <= n) ->
  returns (init_reset s error size) (fun '(s', res) => rs_ok s' /\ credited (flow_controller s) (flow_controller s') /\
    match res with
    | Err e => reset_refused s size e /\ s' = s
    | Ok _ => (s' = s /\ match state s with Receiving => is_writing_complete (receive_buffer s) = true | Stopping _ _ => False | _ => True end)
        \/ (state s' = WasReset error /\ released s' = acquired s'
            /\ acquired s' <= Z.max (acquired s) (match size with Some n => n | None => 0 end))
    end).
Proof.
  intros Hok Hsize. unfold init_reset.
  assert (Hdis : forall s0, rs_ok s0 -> credited (flow_controller s) (flow_controller s0) ->
    returns (let! self := discard s0 error in Ret (self, @Ok unit TransportError tt)) (fun '(s', res) =>
      rs_ok s' /\ credited (flow_controller s) (flow_controller s') /\ res = Ok tt /\ state s' = WasReset error /\ released s' = acquired s'
      /\ acquired s' = acquired s0)).
  { intros s0 Hs0 Hc0. rstep (discard_ok s0 error Hs0). intros s' (H1 & H2 & H3 & H4 & H5). apply returns_ret. split_and!; try done.
    by eapply credited_trans. }
  set (acquire := match size with Some _ => _ | None => _ end).
  assert (Hacq : match state s with Receiving => final_size (receive_buffer s) = None | Stopping _ _ => True | _ => False end ->
    returns acquire (fun '(s', res) => rs_ok s' /\ credited (flow_controller s) (flow_controller s') /\
      match res with
      | Err e => reset_refused s size e /\ s' = s
      | Ok _ => state s' = WasReset error /\ released s' = acquired s' /\ acquired s' <= Z.max (acquired s) (match size with Some n => n | None => 0 end)
      end)).
  { intros Hst. unfold acquire. destruct size as [n |].
    - rstep (receive_acquire_ok _ n (rs_flow _ Hok) (Hsize n eq_refl)). intros [f' res] (Hf' & Hcr & Hres). destruct res as [u | e].
      + eapply returns_mono; [apply (Hdis (set_flow s f')); [| done] | intros [s' res] (? & ? & -> & ? & ? & Es); cbn in Es; split_and!; done || lia].
        destruct Hok as [H1 H2 H3]. split; try done. cbn. intros Hr. destruct (H3 Hr). destruct Hres as (_ & Ea & Er & Es).
        split; cbn; rewrite ?Es, ?Er; try done; [lia |]. intros m Hm. destruct (rc_final0 m Hm). split; [lia | done].
      + destruct Hres as (-> & Hn & ->). apply returns_ret. rewrite set_flow_self. split_and!; try done.
    - eapply returns_mono; [apply (Hdis s Hok), credited_refl |]. intros [s' res] (? & ? & -> & ? & ? & Es). split_and!; done || lia. }
  destruct (state s) eqn:Est.
  - destruct (final_size (receive_buffer s)) as [n |] eqn:En.
    + destruct (match size with Some size => negb (size =? n) | None => false end) eqn:Esz.
      { destruct size as [m |]; [| done]. apply negb_true_iff, Z.eqb_neq in Esz. apply returns_ret. split_and!; try done. split; [done |]. exists n. split; [done | lia]. }
      destruct (Z.eqb_spec (total_received_len (receive_buffer s)) n) as [Ecomp | _].
      { apply returns_ret. split_and!; try done. left. split; [done |]. unfold is_writing_complete. rewrite En. by apply Z.eqb_eq. }
      eapply returns_mono; [apply (Hdis s Hok), credited_refl |]. intros [s' res] (? & ? & -> & ? & ? & Es). split; [done |]. split; [done |]. right. split_and!; done || lia.
    + eapply returns_mono; [by apply Hacq |]. intros [s' [u | e]] (? & ? & ?); [split; [done |]; split; [done | by right] | done].
  - apply returns_ret. split_and!; try done. by left.
  - eapply returns_mono; [by apply Hacq |]. intros [s' [u | e']] (? & ? & ?); [split; [done |]; split; [done | by right] | done].
  - apply returns_ret. split_and!; try done. by left.
Qed.
(** ** Reading *)

Lemma pop_ok (st : Reassembler B) w :
  ra_ok st -> 0 <= w ->
  returns (pop_watermarked st w) (fun '(chunk, st') =>
    match chunk with
    | Some c => took st (b_as_slice c) st' /\ b_len c = blen (b_as_slice c) /\ 0 < b_len c <= w
    | None => took st [] st' /\ (w = 0 \/ ra_get st (start_offset (cursors st)) = None)
    end).
Proof.
  intros Hok Hw. unfold pop_watermarked. destruct (read_chunk_ok st w Hok Hw) as (c & st' & -> & Ht & Hle & Hz). cbn [obind]. apply returns_ret.
  pose proof (blen_as_slice c) as Hl. pose proof (blen_nonneg (b_as_slice c)).
  destruct (Z.eqb_spec (b_len c) 0) as [E0 | Hne].
  - assert (b_as_slice c = []) as E by (apply nil_length_inv; unfold blen in *; lia). rewrite E in Ht. auto.
  - split_and!; try done; lia.
Qed.

(** What reading keeps. *)
Definition readable (st : Reassembler B) (f : ReceiveFlow.t) : Prop :=
  ra_ok st /\ receive_flow_ok f /\ ReceiveFlow.released_connection_window f = consumed_len st
  /\ max_recv_offset (cursors st) <= ReceiveFlow.acquired_connection_window f.

(** The bytes [bs] were read, and the credit for them given back. *)
Definition consumed_by (st : Reassembler B) (f : ReceiveFlow.t) (bs : list Z) (st' : Reassembler B) (f' : ReceiveFlow.t) : Prop :=
  took st bs st' /\ readable st' f' /\ credited f f'
  /\ ReceiveFlow.acquired_connection_window f' = ReceiveFlow.acquired_connection_window f
  /\ IncrementalValueSync.is_cancelled (ReceiveFlow.read_window_sync f') = IncrementalValueSync.is_cancelled (ReceiveFlow.read_window_sync f).

Lemma consumed_trans st f a st1 f1 b st2 f2 :
  consumed_by st f a st1 f1 -> consumed_by st1 f1 b st2 f2 -> consumed_by st f (a ++ b) st2 f2.
Proof.
  intros (Ht1 & _ & Hc1 & Ha1 & Hs1) (Ht2 & Hr2 & Hc2 & Ha2 & Hs2). split_and!; [by eapply took_app | done | by eapply credited_trans | congruence | congruence].
Qed.

Lemma consume_nothing st f st' : readable st f -> took st [] st' -> consumed_by st f [] st' f.
Proof.
  intros (H1 & H2 & H3 & H4) Ht. pose proof Ht as (Hok' & Hcur & _). change (blen []) with 0 in Hcur. rewrite Z.add_0_r in Hcur.
  split_and!; try done; try apply credited_refl; unfold readable, consumed_len in *; rewrite Hcur; done.
Qed.

(** Giving back the credit for a chunk. *)
Lemma consume_chunk_ok st f bs st' :
  readable st f -> took st bs st' -> returns (ReceiveFlow.release_window f (blen bs)) (fun f' => consumed_by st f bs st' f').
Proof.
  intros (H1 & H2 & H3 & H4) Ht. pose proof Ht as (Hok' & Hcur & _). unfold consumed_len in *. pose proof Hok' as [(Hc & _) _]. rewrite Hcur in Hc. cbn in Hc.
  pose proof (blen_nonneg bs). eapply returns_mono; [apply (receive_release_ok f (blen bs) H2); lia |].
  intros f' (Hf' & Hcr & Ha & Hr & Hs). split_and!; try done. unfold readable, consumed_len. rewrite Hcur. cbn. split_and!; done || lia.
Qed.

(** The loop fills placeholders with the bytes at the front of the stream. *)
Lemma read_chunks_ok ph : forall s,
  readable (rd_buffer s) (rd_flow s) -> 0 <= rd_high s -> Forall (fun c => c = []) ph ->
  0 <= rd_bytes s -> rd_bytes s + (max_recv_offset (cursors (rd_buffer s)) - consumed_len (rd_buffer s)) <= MAX_VARINT_VALUE ->
  0 <= rd_chunks s -> rd_chunks s + vlen ph < 2 ^ 64 ->
  returns (read_chunks ph s) (fun '(chunks, ran_out, s') => exists bs, concat chunks = bs
    /\ consumed_by (rd_buffer s) (rd_flow s) bs (rd_buffer s') (rd_flow s') /\ blen bs <= rd_high s
    /\ rd_bytes s' = rd_bytes s + blen bs
    /\ (ran_out = true -> rd_chunks s = 0 /\ bs = [] /\ (rd_high s = 0 \/ ra_get (rd_buffer s) (consumed_len (rd_buffer s)) = None))).
Proof.
  induction ph as [| p ph IH]; intros s Hr Hh Hph Hb0 Hb Hc0 Hc; cbn [read_chunks].
  { apply returns_ret. exists []. change (blen []) with 0. split_and!; try done; [| lia]. apply consume_nothing; [done | apply took_nothing, Hr]. }
  apply Forall_cons in Hph as [-> Hph]. rstep (pop_ok (rd_buffer s) (rd_high s) (proj1 Hr) Hh). intros [chunk st'] Hpop. destruct chunk as [c |].
  2: { destruct Hpop as [Ht Hnone]. apply returns_ret. cbn. exists []. change (blen []) with 0. split_and!; try done; [| by apply consume_nothing | lia | by intros ?%Z.eqb_eq].
       clear -Hph. induction Hph as [| x l -> _ IHl]; [done | exact IHl]. }
  destruct Hpop as (Ht & Hlen & Hpos). rewrite Hlen.
  assert (Hmx : blen (b_as_slice c) <= max_recv_offset (cursors (rd_buffer s)) - consumed_len (rd_buffer s)).
  { destruct Ht as (Hok' & Hcur & _). destruct Hok' as [(Hc' & _) _]. rewrite Hcur in Hc'. unfold consumed_len. cbn in Hc'. lia. }
  unfold VarInt.new. rewrite (proj2 (Z.ltb_ge _ _)) by lia. cbn [VarInt.ok unwrap obind].
  rstep (consume_chunk_ok _ _ _ _ Hr Ht). intros f' Hcons. change (blen [] =? 0) with true. cbn [rassert obind].
  change (vlen ([] :: ph)) with (Z.of_nat (S (length ph))) in Hc. unfold MAX_VARINT_VALUE in Hb. rewrite !add_c_Ret by lia. cbn [obind].
  pose proof Hcons as (_ & Hr' & _). pose proof Ht as (_ & Hcur & _).
  rstep (IH (mk_reading st' f' (saturating_sub (rd_low s) (blen (b_as_slice c))) (saturating_sub (rd_high s) (blen (b_as_slice c)))
    (rd_bytes s + blen (b_as_slice c)) (rd_chunks s + 1))); cbn [rd_buffer rd_flow rd_high rd_bytes rd_chunks]; try done; try lia.
  - unfold saturating_sub. lia.
  - unfold consumed_len in *. rewrite Hcur. cbn. unfold MAX_VARINT_VALUE. lia.
  - unfold vlen. lia.
  - intros [[chunks ran_out] s'] (bs & <- & Hcons' & Hle & Hbytes & Hran). apply returns_ret. exists (b_as_slice c ++ concat chunks).
    rewrite blen_app. unfold saturating_sub in Hle. split_and!; [done | by eapply consumed_trans | lia | lia |].
    intros Hrun. destruct (Hran Hrun). lia.
Qed.
(** What the application gets: nothing, or the bytes in its placeholders. *)
Definition handed (request request' : Rx.Request) (bs : list Z) : Prop :=
  (bs = [] /\ Rx.chunks request' = Rx.chunks request) \/ exists chunks, Rx.chunks request' = Some chunks /\ concat chunks = bs.

Definition request_ok (request : Rx.Request) : Prop :=
  0 <= Rx.high_watermark request /\ forall chunks, Rx.chunks request = Some chunks -> vlen chunks < 2 ^ 64.

Lemma receiving_readable s : rs_ok s -> state s = Receiving -> readable (receive_buffer s) (flow_controller s).
Proof. intros [H1 H2 H3] Hst. destruct (H3 Hst). by split_and!. Qed.

Lemma poll_data_ok s request :
  rs_ok s -> state s = Receiving -> request_ok request ->
  returns (poll_data s request) (fun '(s', request', res) =>
    match res with
    | Err e => e = NonEmptyOutput /\ s' = s /\ request' = request
        /\ exists chunks, Rx.chunks request = Some chunks /\ Exists (fun c => c <> []) chunks
    | Ok (bytes, _, should_wake) => exists bs st f, handed request request' bs
        /\ consumed_by (receive_buffer s) (flow_controller s) bs st f /\ s' = set_flow (set_buffer s st) f
        /\ bytes = blen bs /\ blen bs <= Rx.high_watermark request /\ (should_wake = true -> bs = [])
    end).
Proof.
  intros Hok Hst [Hh Hch]. unfold poll_data. pose proof (receiving_readable s Hok Hst) as Hr.
  assert (Hnothing : forall w, exists bs st f, handed request request bs
    /\ consumed_by (receive_buffer s) (flow_controller s) bs st f /\ s = set_flow (set_buffer s st) f
    /\ 0 = blen bs /\ blen bs <= Rx.high_watermark request /\ (w = true -> bs = [])).
  { intros w. exists [], (receive_buffer s), (flow_controller s). split_and!; try done; [by left | | by destruct s].
    apply consume_nothing; [done | apply took_nothing, Hr]. }
  destruct (Z.leb _ _); [| by apply returns_ret]. destruct (Rx.chunks request) as [[| c cs] |] eqn:Ech; try by apply returns_ret.
  set (chunks := c :: cs) in *. destruct (existsb _ chunks) eqn:Eex.
  { apply returns_ret. split_and!; try done. exists chunks. split; [done |]. apply existsb_exists in Eex as (x & Hx & Hne).
    apply Exists_exists. exists x. split; [by apply list_elem_of_In | by intros ->]. }
  assert (Hempty : Forall (fun c => c = []) chunks).
  { apply Forall_forall. intros x Hx. destruct x as [| b x]; [done |]. exfalso. apply not_true_iff_false in Eex. apply Eex, existsb_exists.
    exists (b :: x). split; [by apply list_elem_of_In |]. unfold blen. cbn [length]. destruct (Z.eqb_spec (Z.of_nat (S (length x))) 0); [lia | done]. }
  pose proof (Hch chunks eq_refl). pose proof (proj1 (rs_buffer _ Hok)) as (? & ? & _).
  rstep (read_chunks_ok chunks (mk_reading (receive_buffer s) (flow_controller s) (Rx.low_watermark request) (Rx.high_watermark request) 0 0));
    cbn [rd_buffer rd_flow rd_high rd_bytes rd_chunks]; try done; try lia.
  { unfold consumed_len. lia. }
  intros [[chunks' ran_out] s'] (bs & Ebs & Hcons & Hle & Hbytes & Hran). apply returns_ret.
  exists bs, (rd_buffer s'), (rd_flow s'). split_and!; try done; [right; by exists chunks' | intros Hw; apply (Hran Hw)].
Qed.

(** The stream after its data was read, and the end of the stream. *)
Lemma poll_end_ok s bs st f :
  rs_ok s -> state s = Receiving -> consumed_by (receive_buffer s) (flow_controller s) bs st f ->
  returns (poll_end (set_flow (set_buffer s st) f) (final_size (receive_buffer s))) (fun '(s', status) => rs_ok s' /\ flow_controller s' = f /\
    match status with
    | Finished => state s' = DataRead /\ final_size (receive_buffer s) = Some (consumed_len st)
    | Finishing => s' = set_flow (set_buffer s st) f /\ is_writing_complete (receive_buffer s) = true
    | Open => s' = set_flow (set_buffer s st) f /\ is_writing_complete (receive_buffer s) = false
    | _ => False
    end).
Proof.
  intros Hok Hst (Ht & (Hst' & Hf & Hrel & Hacq) & _ & Ha & Hs). destruct Hok as [Hb Hfl Hr]. destruct (Hr Hst) as [Hd _ _ Hfin Hcomp].
  pose proof (took_received _ _ _ Hb Ht) as Hrec. pose proof Ht as (_ & Hcur & _).
  assert (Efin : final_size st = final_size (receive_buffer s)) by (unfold final_size, CursorsOps.final_size; by rewrite Hcur).
  assert (Ecomp : is_writing_complete st = is_writing_complete (receive_buffer s)) by (unfold is_writing_complete; by rewrite Efin, Hrec).
  assert (Hok' : rs_ok (set_flow (set_buffer s st) f)).
  { split; cbn; try done. intros _. split; cbn; try done; rewrite ?Efin, ?Ecomp; try done. intros n Hn. destruct (Hfin n Hn). split; [lia | by rewrite Hs]. }
  unfold poll_end. unfold is_writing_complete in *. destruct (final_size (receive_buffer s)) as [n |] eqn:En; [| by apply returns_ret].
  cbn [set_flow set_buffer receive_buffer stop_sending_sync flow_controller]. destruct (Hfin n eq_refl) as [_ Hstop].
  destruct (Z.eqb_spec n (consumed_len st)) as [Ec | _].
  - destruct (total_received_ok st Hst') as (Hr1 & _). unfold consumed_len in Ec.
    assert (Hn : total_received_len (receive_buffer s) = n).
    { pose proof Hst' as [(_ & _ & Hmx & _) _]. rewrite Hcur in Hmx, Hr1, Ec. cbn in Hmx, Hr1, Ec.
      unfold final_size, CursorsOps.final_size in En. destruct (_ =? _); [done |]. injection En as En. lia. }
    rewrite Hcomp by (by rewrite Hn, Z.eqb_refl). rewrite Hs, Hstop. cbn [rassert obind]. apply returns_ret. cbn.
    split_and!; try done; [split; cbn; try done; apply ra_new_ok | by rewrite Ec].
  - rewrite Hrec. destruct (Z.eqb_spec n (total_received_len (receive_buffer s))) as [-> | Hne]; apply returns_ret; split_and!; try done.
    + apply Z.eqb_refl.
    + apply Z.eqb_neq. congruence.
Qed.
Lemma set_waiter_ok (s : stream) w : alike s (set_waiter s w).
Proof. done. Qed.

(** A read from a stream that receives. *)
Lemma poll_receiving s request context :
  rs_ok s -> state s = Receiving -> request_ok request -> Rx.stop_sending request = None -> Rx.detached request = false ->
  returns (poll_request s request context) (fun '(s', request', res) =>
    rs_ok s' /\ credited (flow_controller s) (flow_controller s') /\ acquired s' = acquired s /\
    match res with
    | Err e => e = NonEmptyOutput /\ s' = s /\ request' = request
        /\ exists chunks, Rx.chunks request = Some chunks /\ Exists (fun c => c <> []) chunks
    | Ok response => exists bs st, handed request request' bs /\ took (receive_buffer s) bs st
        /\ consumed (Rx.r_bytes response) = blen bs /\ blen bs <= Rx.high_watermark request
        /\ (Rx.will_wake response = true -> bs = [])
        /\ match Rx.status response with
           | Finished => state s' = DataRead /\ final_size (receive_buffer s) = Some (consumed_len st)
           | status => state s' = Receiving /\ receive_buffer s' = st
               /\ status = (if is_writing_complete (receive_buffer s) then Finishing else Open)
           end
    end).
Proof.
  intros Hok Hst Hreq Hss Hdet. unfold poll_request. rewrite Hss, Hdet. cbn [obind]. rewrite Hst.
  rstep (poll_data_ok s request Hok Hst Hreq). intros [[s1 req1] res]. destruct res as [[[bytes chunks] should_wake] | e].
  2: { intros (-> & -> & -> & Hne). apply returns_ret. split_and!; try done. }
  intros (bs & st & f & Hh & Hcons & -> & -> & Hle & Hw). rstep (poll_end_ok s bs st f Hok Hst Hcons). intros [s2 status] (Hok2 & Ef & Hstatus).
  pose proof Hcons as (Ht & _ & Hcr & Hacq & _). destruct (report (receive_buffer s2)) as [ab ac].
  set (s3 := match context with Some _ => _ | None => _ end).
  assert (H3 : alike s2 s3.1 /\ (s3.2 = true -> should_wake = true)).
  { unfold s3. destruct context as [waker |]; [destruct should_wake |]; by split. }
  destruct s3 as [s3 ww]. cbn [fst snd] in H3. destruct H3 as [Hal Hww]. apply returns_ret.
  pose proof Hal as (E1 & E2 & E3 & _). rewrite E3, Ef. split; [by apply (alike_ok s2) |]. split; [done |]. split; [done |].
  exists bs, st. cbn [Rx.r_bytes Rx.will_wake Rx.status StreamOps.consumed]. split_and!; try done; [auto |]. rewrite E1, E2.
  destruct status; try done; destruct Hstatus as [-> ->]; split_and!; done.
Qed.

(** A read from any other stream. *)
Lemma poll_closed s request context :
  rs_ok s -> state s <> Receiving -> Rx.stop_sending request = None ->
  returns (poll_request s request context) (fun '(s', request', res) =>
    rs_ok s' /\ flow_controller s' = flow_controller s /\ state s' = state s /\ request' = request /\
    match state s, res with
    | DataRead, Ok response => Rx.status response = Finished /\ consumed (Rx.r_bytes response) = 0
    | (Stopping e _ | WasReset e), Err e' => e' = e
    | _, _ => False
    end).
Proof.
  intros [H1 H2 H3] Hst Hss. unfold poll_request. rewrite Hss.
  assert (Hdet : returns (if Rx.detached request then detach s else Ret s) (fun s' =>
    state s' = state s /\ receive_buffer s' = receive_buffer s /\ flow_controller s' = flow_controller s)).
  { destruct (Rx.detached request); [| by apply returns_ret]. unfold detach. destruct (state s) eqn:Est; try done; cbn [rassert obind]; apply returns_ret; cbn; by rewrite ?Est. }
  rstep Hdet. intros s1 (E1 & E2 & E3). rewrite E1.
  destruct (state s) as [| | e m | e] eqn:Est; try done; apply returns_ret; cbn; (split_and!; [split; cbn; rewrite ?E1, ?E2, ?E3; done | done..]).
Qed.

(** A request to stop sending: no more data is handed out. *)
Lemma poll_stop_ok s request context code :
  rs_ok s -> Rx.stop_sending request = Some code ->
  returns (poll_request s request context) (fun '(s', request', res) =>
    rs_ok s' /\ flow_controller s' = flow_controller s /\ state s' <> Receiving /\ request' = request
    /\ exists response, res = Ok response /\ consumed (Rx.r_bytes response) = 0 /\ Rx.will_wake response = false
       /\ Rx.status response = match state s with
                               | Receiving => if is_writing_complete (receive_buffer s) then Finished else Reset (StreamReset code)
                               | DataRead => Finished
                               | Stopping e _ | WasReset e => Reset e
                               end).
Proof.
  intros [H1 H2 H3] Hss. unfold poll_request, poll_stop_sending. rewrite Hss.
  destruct (state s) as [| | e m | e] eqn:Est; cbn [obind];
    try (apply returns_ret; cbn; rewrite ?Est; (split_and!; [by split; cbn; rewrite ?Est | done.. | by eexists])).
  destruct (is_writing_complete (receive_buffer s)); cbn [obind].
  - apply returns_ret. cbn. split_and!; [by split | done.. | by eexists].
  - unfold detach. cbn. apply returns_ret. cbn. split_and!; [split; cbn; try done; apply ra_new_ok | done.. | by eexists].
Qed.
End Stream.
