(* ===== verification/ReceiveStreams.v ===== *)
(** * The receiving streams of a connection

    Receiving streams that share the connection's flow controller: the credit
    they take and give back, and the bytes the application gets. *)
From stdpp Require Import gmap.
From S2P Require Import Prelude Codec VarInt PacketNumber FrameAck Frames Time Transmission Recovery Sync FlowControl FlowControlThm ReassemblerSlot Reassembler ReassemblerSpec ReassemblerWrite ReassemblerOps ReassemblerRead ReassemblerThm SendStreams StreamOps ReceiveStream ReceiveFlowThm ReceiveStreamThm.

Section Endpoint.
Context {CE B : Type} {HB : BytesMut B} {HS : BytesMutSpec B} (alloc : Z -> Z -> B).

(** ** The endpoint *)

(** A stream, the bytes the application got from it, and whether it was told to
    stop or reset. *)
Record receiver := mk_receiver { rstream : ReceiveStream.t CE B; got : list Z; stopped : bool }.
Record endpoint := mk_endpoint { incoming : Incoming.t; receivers : gmap Z receiver }.

(** What happens to a stream. *)
Inductive stream_event :=
| Data (frame : Stream.t)
| ResetData (frame : ResetStream.t)
| InternalReset (error : StreamError CE)
| Read (request : Rx.Request) (context : option Z)
| StreamAck (contains : Z -> bool)
| StreamLoss (contains : Z -> bool)
| StreamTransmit (context : Writer).

Inductive arrival :=
| Accept (id initial_window desired_flow_control_window : Z)
| ForStream (id : Z) (ev : stream_event)
| ConnectionAck (contains : Z -> bool)
| ConnectionLoss (contains : Z -> bool)
| ConnectionTransmit (context : Writer).

Local Abbreviation flow r := (ReceiveStream.flow_controller (rstream r)).
Definition taken (r : receiver) : Z := ReceiveFlow.acquired_connection_window (flow r).
Definition returned (r : receiver) : Z := ReceiveFlow.released_connection_window (flow r).

(** The stream sees the connection's flow controller as it is now. *)
Definition with_incoming (c : Incoming.t) (r : receiver) : receiver :=
  let f := flow r in
  mk_receiver (ReceiveStream.set_flow (rstream r)
    (ReceiveFlow.mk c (ReceiveFlow.read_window_sync f) (ReceiveFlow.desired_flow_control_window f)
       (ReceiveFlow.acquired_connection_window f) (ReceiveFlow.released_connection_window f))) (got r) (stopped r).
(** It gives it back. *)
Definition store (K : endpoint) (id : Z) (r : receiver) : endpoint :=
  mk_endpoint (ReceiveFlow.connection_flow_controller (flow r)) (<[id:=r]> (receivers K)).

Definition chunk_bytes (request : Rx.Request) : list Z :=
  match Rx.chunks request with Some chunks => concat chunks | None => [] end.

(** The stream afterwards and the frames it sends, or why the connection is
    closed. *)
Definition react (id : Z) (ev : stream_event) (r : receiver) : outcome (result (receiver * list frame) TransportError) :=
  let events := mk_events None None in
  match ev with
  | Data frame =>
      let! '(s, _, res) := ReceiveStream.on_data alloc (rstream r) frame events in
      Ret (match res with Ok _ => Ok (mk_receiver s (got r) (stopped r), []) | Err e => Err e end)
  | ResetData frame =>
      let! '(s, _, res) := ReceiveStream.on_reset (rstream r) frame events in
      Ret (match res with Ok _ => Ok (mk_receiver s (got r) true, []) | Err e => Err e end)
  | InternalReset error =>
      let! '(s, _) := ReceiveStream.on_internal_reset (rstream r) error events in
      Ret (Ok (mk_receiver s (got r) true, []))
  | Read request context =>
      let! '(s, request', res) := ReceiveStream.poll_request (rstream r) request context in
      let stop := match Rx.stop_sending request with Some _ => true | None => stopped r end in
      let bytes :=
        match res with
        | Ok response => if 0 <? consumed (Rx.r_bytes response) then chunk_bytes request' else []
        | Err _ => []
        end in
      Ret (Ok (mk_receiver s (got r ++ bytes) stop, []))
  | StreamAck contains => Ret (Ok (mk_receiver (ReceiveStream.on_packet_ack (rstream r) contains) (got r) (stopped r), []))
  | StreamLoss contains => Ret (Ok (mk_receiver (ReceiveStream.on_packet_loss (rstream r) contains) (got r) (stopped r), []))
  | StreamTransmit context =>
      let '(s, _, fs) := ReceiveStream.on_transmit (rstream r) id context in
      Ret (Ok (mk_receiver s (got r) (stopped r), fs))
  end.

Definition receive_step (i : arrival) (K : endpoint) : outcome (result (endpoint * list frame) TransportError) :=
  match i with
  | Accept id initial_window desired =>
      let! s := ReceiveStream.new false (incoming K) initial_window desired in
      Ret (Ok (store K id (mk_receiver s [] false), []))
  | ForStream id ev =>
      match receivers K !! id with
      | None => Ret (Ok (K, []))
      | Some r =>
          let! res := react id ev (with_incoming (incoming K) r) in
          Ret (match res with Ok (r, fs) => Ok (store K id r, fs) | Err e => Err e end)
      end
  | ConnectionAck contains => Ret (Ok (mk_endpoint (Incoming.on_packet_ack (incoming K) contains) (receivers K), []))
  | ConnectionLoss contains => Ret (Ok (mk_endpoint (Incoming.on_packet_loss (incoming K) contains) (receivers K), []))
  | ConnectionTransmit context =>
      let '(c, _, fs) := Incoming.on_transmit (incoming K) context in Ret (Ok (mk_endpoint c (receivers K), fs))
  end.

(** What the caller and the codec promise. *)
Definition event_ok (ev : stream_event) (s : ReceiveStream.t CE B) : Prop :=
  match ev with
  | Data frame => 0 <= Stream.offset frame
      /\ forall e m, ReceiveStream.state s = ReceiveStream.Stopping e m ->
           Stream.offset frame + blen (Stream.data frame) <= MAX_VARINT_VALUE
  | ResetData frame => 0 <= ResetStream.final_size frame
  | Read request _ => request_ok request
      /\ (Rx.detached request = true -> Rx.stop_sending request = None -> ReceiveStream.state s <> ReceiveStream.Receiving)
  | _ => True
  end.
Definition arrival_ok (i : arrival) (K : endpoint) : Prop :=
  match i with
  | Accept id initial desired => receivers K !! id = None /\ 0 <= initial <= desired /\ desired < 2 ^ 32
  | ForStream id ev => forall r, receivers K !! id = Some r -> event_ok ev (rstream r)
  | _ => True
  end.

(** What the application and the codec promise, whatever the peer sends: offsets
    are not negative, and the application does not let go of a stream that still
    receives without stopping it. *)
Definition caller_ok (ev : stream_event) (s : ReceiveStream.t CE B) : Prop :=
  match ev with
  | Data frame => 0 <= Stream.offset frame
  | _ => event_ok ev s
  end.
Definition caller_arrival_ok (i : arrival) (K : endpoint) : Prop :=
  match i with
  | ForStream id ev => forall r, receivers K !! id = Some r -> caller_ok ev (rstream r)
  | _ => arrival_ok i K
  end.
(** A frame past the largest offset for a stream that was stopped. *)
Definition overflows (ev : stream_event) (s : ReceiveStream.t CE B) : Prop :=
  match ev with
  | Data frame => (exists e m, ReceiveStream.state s = ReceiveStream.Stopping e m) /\ 0 <= Stream.offset frame
      /\ MAX_VARINT_VALUE < Stream.offset frame + blen (Stream.data frame)
  | _ => False
  end.
Definition overflowing_arrival (i : arrival) (K : endpoint) : Prop :=
  match i with
  | ForStream id ev => exists r, receivers K !! id = Some r /\ overflows ev (rstream r)
  | _ => False
  end.

Lemma caller_event_ok ev s : caller_ok ev s -> event_ok ev s \/ overflows ev s.
Proof.
  destruct ev as [frame | | | | | |]; auto. intros Ho. cbn in *. destruct (ReceiveStream.state s) as [| | e m |]; try (left; by split).
  destruct (Z.le_gt_cases (Stream.offset frame + blen (Stream.data frame)) MAX_VARINT_VALUE); [left; by split | right; eauto].
Qed.
Lemma caller_arrival i K : caller_arrival_ok i K -> arrival_ok i K \/ overflowing_arrival i K.
Proof.
  destruct i as [| id ev | | |]; auto. cbn. intros H. destruct (receivers K !! id) as [r |]; [| by left].
  destruct (caller_event_ok ev (rstream r) (H r eq_refl)); [left; by intros ? [= <-] | right; eauto].
Qed.

(** ** The invariant *)

Record endpoint_ok (K : endpoint) : Prop := {
  ep_incoming : incoming_ok (incoming K);
  ep_streams id r : receivers K !! id = Some r -> rs_ok (rstream r);
  ep_taken : total (receivers K) taken = Incoming.acquired_window (incoming K);
  ep_returned : total (receivers K) returned = Incoming.consumed_window (incoming K)
}.

Lemma attached_ok K id r : endpoint_ok K -> receivers K !! id = Some r -> rs_ok (rstream (with_incoming (incoming K) r)).
Proof.
  intros [Hc Hs Ht Hr] Hid. pose proof (Hs id r Hid) as [Hb [F1 F2 F3 F4 F5 F6 F7] Hrc]. split; [done | | cbn; intros Hst; destruct (Hrc Hst); by split].
  split; try done. cbn. fold (taken r) (returned r).
  rewrite <- Ht, <- Hr, (total_delete _ taken id r Hid), (total_delete _ returned id r Hid).
  enough (total (delete id (receivers K)) returned <= total (delete id (receivers K)) taken) by lia.
  apply total_le. intros id' r' Hid'. apply lookup_delete_Some in Hid' as [_ Hid'].
  apply (rf_released _ (rs_flow _ (Hs id' r' Hid'))).
Qed.

Lemma store_ok K id r r' :
  endpoint_ok K -> receivers K !! id = Some r -> rs_ok (rstream r') -> credited (flow (with_incoming (incoming K) r)) (flow r') ->
  endpoint_ok (store K id r').
Proof.
  intros [Hc Hs Ht Hr] Hid Hok [Hca Hcr _ _]. cbn in Hca, Hcr. split; cbn [store incoming receivers].
  - apply (rs_flow _ Hok).
  - intros id' r0. destruct (decide (id' = id)) as [-> |]; [rewrite lookup_insert_eq; by intros [= <-] |].
    rewrite lookup_insert_ne by done. apply Hs.
  - rewrite total_update, Hid. cbn. unfold taken at 2 3. lia.
  - rewrite total_update, Hid. cbn. unfold returned at 2 3. lia.
Qed.

Local Abbreviation buf r := (ReceiveStream.receive_buffer (rstream r)).
Local Abbreviation state r := (ReceiveStream.state (rstream r)).

Lemma receiving_dec (s : ReceiveStream.t CE B) :
  ReceiveStream.state s = ReceiveStream.Receiving \/ ReceiveStream.state s <> ReceiveStream.Receiving.
Proof. destruct (ReceiveStream.state s); auto. Qed.

(** ** What an event does to a stream *)

Definition data_end (frame : Stream.t) : Z := Stream.offset frame + blen (Stream.data frame).

(** Data is stored while the stream receives; the frame with its end may find
    everything read. *)
Definition data_stored (frame : Stream.t) (r r' : receiver) : Prop :=
  taken r' <= Z.max (taken r) (data_end frame)
  /\ exists b final, stored (buf r) b frame final
     /\ (state r' = ReceiveStream.Receiving /\ buf r' = b
         \/ state r' = ReceiveStream.DataRead /\ Stream.is_fin frame = true /\ final_size b = Some (consumed_len b)).

(** [bs] was read. *)
Definition data_read (bs : list Z) (r r' : receiver) : Prop :=
  exists b, took (buf r) bs b
    /\ (state r' = ReceiveStream.Receiving /\ buf r' = b
        \/ state r' = ReceiveStream.DataRead /\ final_size (buf r) = Some (consumed_len b)).

(** The stream was stopped or reset. *)
Definition closed (r : receiver) : Prop := state r <> ReceiveStream.Receiving /\ state r <> ReceiveStream.DataRead.

(** Nothing of the data changes, but the stream may have been closed. *)
Definition data_kept (r r' : receiver) : Prop :=
  got r' = got r
  /\ (state r' = ReceiveStream.Receiving -> state r = ReceiveStream.Receiving /\ buf r' = buf r)
  /\ (state r' = ReceiveStream.DataRead -> state r = ReceiveStream.DataRead \/ stopped r' = true)
  /\ (closed r' -> closed r \/ stopped r' = true).

Definition evolves (ev : stream_event) (r r' : receiver) : Prop :=
  match ev with
  | Data frame =>
      (state r = ReceiveStream.Receiving /\ (forall e, ~ refused (rstream r) frame e) /\ got r' = got r /\ stopped r' = stopped r
       /\ data_stored frame r r')
      \/ (state r <> ReceiveStream.Receiving /\ data_kept r r' /\ taken r' = taken r /\ stopped r' = stopped r)
  | ResetData frame => data_kept r r' /\ stopped r' = true
  | InternalReset _ => data_kept r r' /\ taken r' <= Z.max (taken r) 0 /\ stopped r' = true
  | Read request _ =>
      taken r' = taken r /\ (stopped r = true -> stopped r' = true) /\
      ((data_kept r r' /\ (state r <> ReceiveStream.Receiving \/ stopped r' = true))
       \/ (state r = ReceiveStream.Receiving /\ stopped r' = stopped r /\ exists bs, got r' = got r ++ bs /\ data_read bs r r'))
  | _ => data_kept r r' /\ state r' = state r /\ taken r' = taken r /\ stopped r' = stopped r
  end.

Hypothesis alloc_ok : alloc_exact alloc.

Lemma react_data_ok id r frame :
  rs_ok (rstream r) -> event_ok (Data frame) (rstream r) ->
  returns (react id (Data frame) r) (fun res =>
    match res with
    | Err e => state r = ReceiveStream.Receiving /\ refused (rstream r) frame e
    | Ok (r', _) => rs_ok (rstream r') /\ credited (flow r) (flow r') /\ evolves (Data frame) r r'
    end).
Proof.
  intros Hok [Ho He]. cbn [react]. set (ev := mk_events None None).
  destruct (receiving_dec (rstream r)) as [Est | Est].
  - rstep (on_data_receiving alloc alloc_ok (rstream r) frame ev Hok Est Ho). intros [[s' ev'] res] (Hok' & Hcr & Hres). apply returns_ret.
    destruct res as [u | e]; [| by destruct Hres].
    destruct Hres as (Href & Htk & b & final & Hb & Hst & Hcase). split_and!; try done. left. split_and!; try done. split; [exact Htk | by exists b, final].
  - rstep (on_data_ignored alloc (rstream r) frame ev Hok Est Ho He). intros [[s' ev'] res] (Hok' & Ef & Eb & -> & Hst). apply returns_ret.
    split; [done |]. cbn [rstream]. split; [rewrite Ef; apply credited_refl |]. right. unfold taken, data_kept. cbn. rewrite Ef, Eb. split_and!; try done.
    + intros E. rewrite E in Hst. destruct (state r); try done. by destruct Hst.
    + intros E. rewrite E in Hst. destruct (state r); try done; [by left | by destruct Hst].
    + intros [_ Hne]. left. split; [done |]. intros E. rewrite E in Hst. by apply Hne.
Qed.

(** A reset, once [init_reset] took it. *)
Lemma reset_woken s s1 o g b ev :
  rs_ok s1 ->
  (ReceiveStream.state s1 = ReceiveStream.Receiving -> is_writing_complete (ReceiveStream.receive_buffer s1) = true -> OnceSync.is_cancelled o = true) ->
  credited (ReceiveStream.flow_controller s) (ReceiveStream.flow_controller s1) ->
  s1 = s \/ (exists error, ReceiveStream.state s1 = ReceiveStream.WasReset error) ->
  returns (ReceiveStream.wake (ReceiveStream.set_stop_sending s1 o) ev) (fun '(s', _) =>
    rs_ok s' /\ credited (ReceiveStream.flow_controller s) (ReceiveStream.flow_controller s')
    /\ ReceiveStream.flow_controller s' = ReceiveStream.flow_controller s1 /\ data_kept (mk_receiver s g b) (mk_receiver s' g true)).
Proof.
  intros Hok Ho Hcr Hcase. pose proof (set_stop_ok s1 o Hok Ho) as Hok1.
  eapply returns_mono; [apply wake_ok; intros Hst; by apply (rs_receiving _ Hok1 Hst) |].
  intros [s' ev'] Hal. pose proof Hal as (E1 & E2 & E3 & _). cbn in E1, E2, E3. split; [by eapply alike_ok |]. rewrite E3.
  split; [done |]. split; [done |]. unfold data_kept. cbn. rewrite E1, E2. split_and!; [done | | by right | by right].
  intros Hst. destruct Hcase as [-> | [error E]]; [done | congruence].
Qed.

Lemma react_reset_ok id r frame :
  rs_ok (rstream r) -> event_ok (ResetData frame) (rstream r) ->
  returns (react id (ResetData frame) r) (fun res =>
    match res with
    | Err e => reset_refused (rstream r) (Some (ResetStream.final_size frame)) e
    | Ok (r', _) => rs_ok (rstream r') /\ credited (flow r) (flow r') /\ evolves (ResetData frame) r r'
    end).
Proof.
  intros Hok Ho. destruct r as [s g b]. cbn [react rstream got] in *. unfold ReceiveStream.on_reset.
  destruct (init_reset_ok s (StreamReset (ResetStream.application_error_code frame)) (Some (ResetStream.final_size frame)) Hok) as ([s1 res] & -> & Hok1 & Hcr & Hres);
    [by intros n [= <-] |]. cbn [obind]. destruct res as [u | e]; [| by apply returns_ret; destruct Hres].
  destruct (reset_woken s s1 (OnceSync.stop_sync (ReceiveStream.stop_sending_sync s1)) g b (mk_events None None) Hok1) as ([s' ev'] & -> & Hok' & Hcr' & _ & Hk).
  { intros _ _. apply once_stop_cancelled. }
  { done. }
  { destruct Hres as [[-> _] | (E & _)]; [by left | right; by eexists]. }
  cbn [obind]. by apply returns_ret.
Qed.

Lemma react_internal_ok id r error :
  rs_ok (rstream r) ->
  returns (react id (InternalReset error) r) (fun res =>
    match res with
    | Err e => False
    | Ok (r', _) => rs_ok (rstream r') /\ credited (flow r) (flow r') /\ evolves (InternalReset error) r r'
    end).
Proof.
  intros Hok. destruct r as [s g b]. cbn [react rstream got] in *. unfold ReceiveStream.on_internal_reset.
  destruct (init_reset_ok s error None Hok) as ([s1 res] & -> & Hok1 & Hcr & Hres); [done |]. cbn [obind].
  destruct res as [u | e]; [| destruct Hres as [Hr _]; by destruct e]. cbn [rassert obind].
  destruct (reset_woken s s1 (ReceiveStream.stop_sending_sync s1) g b (mk_events None None) Hok1) as ([s' ev'] & E & Hok' & Hcr' & Ef & Hk).
  { intros Hst. by apply (rs_receiving _ Hok1). }
  { done. }
  { destruct Hres as [[-> _] | (E & _)]; [by left | right; by eexists]. }
  replace (ReceiveStream.set_stop_sending s1 (ReceiveStream.stop_sending_sync s1)) with s1 in E by (by destruct s1). rewrite E.
  cbn [obind]. apply returns_ret. split_and!; try done. split; [done |]. unfold taken. cbn. rewrite Ef. split; [| done].
  destruct Hres as [[-> _] | (_ & _ & Ha)]; [lia | done].
Qed.

(** The bytes in the placeholders are those that were read. *)
Lemma handed_bytes request request' bs :
  handed request request' bs -> (if 0 <? blen bs then chunk_bytes request' else []) = bs.
Proof.
  intros H. pose proof (blen_nonneg bs). destruct (Z.ltb_spec 0 (blen bs)) as [Hp | Hz].
  - destruct H as [[-> _] | (chunks & E & <-)]; [done |]. unfold chunk_bytes. by rewrite E.
  - symmetry. apply nil_length_inv. unfold blen in *. lia.
Qed.

Lemma react_read_ok id r request context :
  rs_ok (rstream r) -> event_ok (Read request context) (rstream r) ->
  returns (react id (Read request context) r) (fun res =>
    match res with
    | Err e => False
    | Ok (r', _) => rs_ok (rstream r') /\ credited (flow r) (flow r') /\ evolves (Read request context) r r'
    end).
Proof.
  intros Hok [Hreq Hdet]. cbn [react].
  destruct (Rx.stop_sending request) as [code |] eqn:Ess.
  { rstep (poll_stop_ok (rstream r) request context code Hok Ess). intros [[s' req'] res] (Hok' & Ef & Hst & -> & response & -> & Hz & _).
    apply returns_ret. rewrite Hz. cbn. rewrite Ef, app_nil_r. split_and!; try done; [unfold taken; cbn; by rewrite Ef |].
    left. split; [| by right]. unfold data_kept. cbn. split_and!; try done; by right. }
  destruct (receiving_dec (rstream r)) as [Est | Est].
  - assert (Hd : Rx.detached request = false) by (destruct (Rx.detached request); [by destruct (Hdet eq_refl eq_refl) | done]).
    rstep (poll_receiving (rstream r) request context Hok Est Hreq Ess Hd). intros [[s' req'] res] (Hok' & Hcr & Ha & Hres). apply returns_ret.
    split; [done |]. split; [done |]. split; [done |]. split; [done |]. right. split; [done |]. split; [done |]. destruct res as [response | e].
    + destruct Hres as (bs & b & Hh & Ht & Hlen & _ & _ & Hcase). exists bs. cbn [got rstream]. rewrite Hlen, (handed_bytes _ _ _ Hh).
      split; [done |]. exists b. split; [done |]. destruct (Rx.status response); try (left; by destruct Hcase as (? & ? & _)). by right.
    + destruct Hres as (-> & -> & _). exists []. split; [done |]. exists (buf r). split; [apply took_nothing, Hok | by left].
  - rstep (poll_closed (rstream r) request context Hok Est Ess). intros [[s' req'] res] (Hok' & Ef & Es & -> & Hres). apply returns_ret.
    assert (Hbytes : match res with Ok response => if 0 <? consumed (Rx.r_bytes response) then chunk_bytes request else [] | Err _ => [] end = []).
    { destruct res as [response |]; [| done]. destruct (state r); try done. by destruct Hres as [_ ->]. }
    rewrite Hbytes, app_nil_r. cbn. rewrite Ef. split_and!; try done; [unfold taken; cbn; by rewrite Ef |].
    left. split; [| by left]. unfold data_kept, closed. cbn. rewrite Es. split_and!; try done; by left.
Qed.

(** What is sent to the peer: the window of the stream. *)
Definition announced (id : Z) (r : receiver) (f : frame) : Prop :=
  (exists code, f = Frame.StopSending (StopSending.mk id code)) \/ f = Frame.MaxStreamData (MaxStreamData.mk id (stream_limit (flow r))).

(** The window of the stream is announced, acknowledged or lost. *)
Lemma sync_kept r sync o :
  rs_ok (rstream r) -> window_ok sync -> IncrementalValueSync.latest_value sync = stream_limit (flow r) ->
  IncrementalValueSync.is_cancelled sync = IncrementalValueSync.is_cancelled (ReceiveFlow.read_window_sync (flow r)) ->
  (OnceSync.is_cancelled (ReceiveStream.stop_sending_sync (rstream r)) = true -> OnceSync.is_cancelled o = true) ->
  let r' := mk_receiver (ReceiveStream.set_stop_sending (ReceiveStream.set_flow (rstream r) (ReceiveFlow.set_sync (flow r) sync)) o) (got r) (stopped r) in
  rs_ok (rstream r') /\ credited (flow r) (flow r') /\ data_kept r r' /\ state r' = state r /\ taken r' = taken r /\ stopped r' = stopped r.
Proof.
  intros [Hb Hf Hr] Hs Hl Hc Ho r'. split; [split; cbn; [done | by apply receive_sync_ok |] |].
  - intros Hst. destruct (Hr Hst) as [H1 H2 H3 H4 H5]. split; cbn; try done; [rewrite Hc; apply H4 |]. intros Hcomp. by apply Ho, H5.
  - split_and!; try done. unfold data_kept, closed. cbn. split_and!; try done; by left.
Qed.

Lemma once_sync_cancelled {T} (o : OnceSync.t T) : OnceSync.is_cancelled o = true ->
  (forall c, OnceSync.on_packet_ack o c = (o, false)) /\ (forall c, OnceSync.on_packet_loss o c = o)
  /\ forall wr id w, OnceSync.on_transmit wr o id w = (o, Ok tt, []).
Proof. by destruct o as [[]]. Qed.

Lemma once_transmit_frames {T} wr (o : OnceSync.t T) id w :
  let '(_, _, fs) := OnceSync.on_transmit wr o id w in fs = [] \/ exists v, fs = [wr v id].
Proof.
  unfold OnceSync.on_transmit. destruct (Delivery.try_transmit _ _) as [v |]; [| by left].
  destruct (write_frame _ _ _); [right; by exists v | by left].
Qed.

Lemma react_sync_ok id r ev :
  rs_ok (rstream r) -> match ev with StreamAck _ | StreamLoss _ | StreamTransmit _ => True | _ => False end ->
  returns (react id ev r) (fun res =>
    match res with
    | Err e => False
    | Ok (r', fs) => rs_ok (rstream r') /\ credited (flow r) (flow r') /\ evolves ev r r' /\ Forall (announced id r) fs
    end).
Proof.
  intros Hok Hev. pose proof (rf_sync _ (rs_flow _ Hok)) as Hw. pose proof (once_sync_cancelled (ReceiveStream.stop_sending_sync (rstream r))) as Hinert.
  destruct ev as [| | | | c | c | w]; try done; cbn [react].
  - apply returns_ret. destruct (window_ack_ok _ c Hw) as (H1 & H2 & H3).
    destruct (sync_kept r _ (OnceSync.on_packet_ack (ReceiveStream.stop_sending_sync (rstream r)) c).1 Hok H1 H2 H3) as (? & ? & ?); [| by split_and!].
    intros Hc. by rewrite (proj1 (Hinert Hc)).
  - apply returns_ret. destruct (window_loss_ok _ c Hw) as (H1 & H2 & H3).
    destruct (sync_kept r _ (OnceSync.on_packet_loss (ReceiveStream.stop_sending_sync (rstream r)) c) Hok H1 H2 H3) as (? & ? & ?); [| by split_and!].
    intros Hc. by rewrite (proj1 (proj2 (Hinert Hc))).
  - unfold ReceiveStream.on_transmit.
    pose proof (once_transmit_frames stop_sending_writer (ReceiveStream.stop_sending_sync (rstream r)) id w) as Hfs.
    destruct (OnceSync.on_transmit stop_sending_writer (ReceiveStream.stop_sending_sync (rstream r)) id w) as [[o res] fs] eqn:Eo.
    assert (Ho : OnceSync.is_cancelled (ReceiveStream.stop_sending_sync (rstream r)) = true -> OnceSync.is_cancelled o = true).
    { intros Hc. pose proof (proj2 (proj2 (Hinert Hc)) stop_sending_writer id w) as E. rewrite Eo in E. by injection E as -> _ _. }
    assert (Hstop : Forall (announced id r) fs) by (destruct Hfs as [-> | [v ->]]; [constructor | constructor; [left; by exists v | constructor]]).
    destruct res as [u | e].
    + pose proof (window_transmit_ok max_stream_data_writer (ReceiveFlow.read_window_sync (flow r)) id (resume w fs) Hw) as Ht. cbn [ReceiveStream.set_stop_sending ReceiveStream.flow_controller].
      destruct (IncrementalValueSync.on_transmit _ _ _ _) as [[sync res] fs']. destruct Ht as (H1 & H2 & H3 & Hfs').
      destruct (sync_kept r sync o Hok H1 H2 H3 Ho) as (? & ? & ?). apply returns_ret. split_and!; try done. apply Forall_app. split; [done |].
      destruct Hfs' as [-> | ->]; [constructor | constructor; [by right | constructor]].
    + apply returns_ret. destruct (sync_kept r (ReceiveFlow.read_window_sync (flow r)) o Hok Hw eq_refl eq_refl Ho) as (H1 & H2 & H3).
      replace (ReceiveStream.set_stop_sending (rstream r) o)
        with (ReceiveStream.set_stop_sending (ReceiveStream.set_flow (rstream r) (ReceiveFlow.set_sync (flow r) (ReceiveFlow.read_window_sync (flow r)))) o)
        by (by destruct (rstream r) as [? ? [] ? ? ? ?]).
      by split_and!.
Qed.

(** ** Any stream event *)

(** Why the connection is closed: the peer broke a limit or changed the size. *)
Definition faulty (ev : stream_event) (r : receiver) (e : TransportError) : Prop :=
  match ev with
  | Data frame => state r = ReceiveStream.Receiving /\ refused (rstream r) frame e
  | ResetData frame => reset_refused (rstream r) (Some (ResetStream.final_size frame)) e
  | _ => False
  end.

Lemma react_ok id ev r :
  rs_ok (rstream r) -> event_ok ev (rstream r) ->
  returns (react id ev r) (fun res =>
    match res with
    | Err e => faulty ev r e
    | Ok (r', _) => rs_ok (rstream r') /\ credited (flow r) (flow r') /\ evolves ev r r'
    end).
Proof.
  intros Hok Hev. destruct ev.
  - by apply react_data_ok.
  - by apply react_reset_ok.
  - eapply returns_mono; [by apply react_internal_ok |]. by intros [[r' fs] |].
  - eapply returns_mono; [by apply react_read_ok |]. by intros [[r' fs] |].
  - eapply returns_mono; [by apply react_sync_ok |]. intros [[r' fs] |]; [by intros (? & ? & ? & _) | done].
  - eapply returns_mono; [by apply react_sync_ok |]. intros [[r' fs] |]; [by intros (? & ? & ? & _) | done].
  - eapply returns_mono; [by apply react_sync_ok |]. intros [[r' fs] |]; [by intros (? & ? & ? & _) | done].
Qed.

Lemma incoming_sync_ok c sync :
  incoming_ok c -> ivs_ok sync -> IncrementalValueSync.latest_value sync = IncrementalValueSync.latest_value (Incoming.read_window_sync c) ->
  incoming_ok (Incoming.set_sync c sync).
Proof. intros [] Hs Hl. split; cbn; rewrite ?Hl; done. Qed.

Lemma endpoint_sync_ok K sync :
  endpoint_ok K -> ivs_ok sync -> IncrementalValueSync.latest_value sync = IncrementalValueSync.latest_value (Incoming.read_window_sync (incoming K)) ->
  endpoint_ok (mk_endpoint (Incoming.set_sync (incoming K) sync) (receivers K)).
Proof. intros [Hi Hs Ht Hr] H1 H2. split; try done. by apply incoming_sync_ok. Qed.

Lemma accept_ok K id initial desired :
  endpoint_ok K -> arrival_ok (Accept id initial desired) K ->
  returns (ReceiveStream.new false (incoming K) initial desired) (fun s : ReceiveStream.t CE B => rs_ok s
    /\ s = ReceiveStream.mk ReceiveStream.Receiving ra_new (ReceiveStream.flow_controller s) OnceSync.new None false false
    /\ ReceiveFlow.connection_flow_controller (ReceiveStream.flow_controller s) = incoming K
    /\ ReceiveFlow.acquired_connection_window (ReceiveStream.flow_controller s) = 0
    /\ ReceiveFlow.released_connection_window (ReceiveStream.flow_controller s) = 0
    /\ stream_limit (ReceiveStream.flow_controller s) = desired).
Proof.
  intros [Hc Hs Ht Hr] (Hid & Hi & Hd). unfold ReceiveStream.new, ReceiveFlow.new, IncrementalValueSync.new.
  rewrite (proj2 (Z.leb_le _ _)) by lia. cbn [rassert obind].
  destruct (request_delivery_ok (IncrementalValueSync.mk desired initial (desired / 10) NotRequested)) as (sync & -> & Hsync & Hl & _); [cbn; lia | done |].
  cbn [obind]. apply returns_ret. cbn in Hl. cbn. split_and!; try done. split; cbn; [apply ra_new_ok | | by intros _; split].
  pose proof (in_consumed _ Hc). split; cbn; rewrite ?Hl; try done; try lia; [split; [lia | by right] |]. unfold MAX_VARINT_VALUE. lia.
Qed.

Lemma store_new_ok K id (s : ReceiveStream.t CE B) g b :
  endpoint_ok K -> receivers K !! id = None -> rs_ok s ->
  ReceiveFlow.connection_flow_controller (ReceiveStream.flow_controller s) = incoming K ->
  ReceiveFlow.acquired_connection_window (ReceiveStream.flow_controller s) = 0 ->
  ReceiveFlow.released_connection_window (ReceiveStream.flow_controller s) = 0 ->
  endpoint_ok (store K id (mk_receiver s g b)).
Proof.
  intros [Hc Hs Ht Hr] Hid Hok Ec Ea Er. split; cbn [store incoming receivers rstream]; rewrite ?Ec.
  - done.
  - intros id' r'. destruct (decide (id' = id)) as [-> |]; [rewrite lookup_insert_eq; by intros [= <-] |].
    rewrite lookup_insert_ne by done. apply Hs.
  - rewrite total_insert by done. unfold taken at 1. cbn. lia.
  - rewrite total_insert by done. unfold returned at 1. cbn. lia.
Qed.

(** The stream of the arrival broke the rules. *)
Definition faulty_arrival (i : arrival) (K : endpoint) (e : TransportError) : Prop :=
  match i with
  | ForStream id ev => exists r, receivers K !! id = Some r /\ faulty ev (with_incoming (incoming K) r) e
  | _ => False
  end.

Lemma receive_step_ok i K :
  endpoint_ok K -> arrival_ok i K ->
  returns (receive_step i K) (fun res => match res with Ok (K', _) => endpoint_ok K' | Err e => faulty_arrival i K e end).
Proof.
  intros HK Hi. destruct i as [id initial desired | id ev | c | c | w]; cbn [receive_step].
  - rstep (accept_ok K id initial desired HK Hi). intros s (Hok & _ & Ec & Ea & Er & _). apply returns_ret. apply store_new_ok; try done. apply Hi.
  - destruct (receivers K !! id) as [r |] eqn:Eid; [| by apply returns_ret].
    rstep (react_ok id ev (with_incoming (incoming K) r) (attached_ok K id r HK Eid)); [destruct ev; try done; apply (Hi r Eid) |].
    intros [[r' fs] | e] Hres; apply returns_ret; [destruct Hres as (? & ? & _); by apply (store_ok K id r) | by exists r].
  - apply returns_ret. destruct (ivs_ack_ok _ c (in_sync _ (ep_incoming _ HK))) as (? & ? & _). by apply endpoint_sync_ok.
  - apply returns_ret. destruct (ivs_loss_ok _ c (in_sync _ (ep_incoming _ HK))) as (? & ? & _). by apply endpoint_sync_ok.
  - unfold Incoming.on_transmit. pose proof (ivs_transmit_ok Incoming.max_data_writer _ 0 w (in_sync _ (ep_incoming _ HK))) as Ht.
    destruct (IncrementalValueSync.on_transmit _ _ _ _) as [[sync res] fs]. destruct Ht as (? & ? & _). apply returns_ret. by apply endpoint_sync_ok.
Qed.

(** A stopped stream adds up the offset and the length of what it ignores. *)
Lemma overflow_panics i K r : overflowing_arrival i K -> receive_step i K <> Ret r.
Proof.
  destruct i as [| id ev | | |]; [done | | done..]. intros (r0 & Er & Hov). destruct ev as [frame | | | | | |]; [| done..]. destruct Hov as [(e & m & Est) [Ho Hbig]].
  cbn [receive_step react]. rewrite Er. unfold ReceiveStream.on_data. cbn [with_incoming rstream ReceiveStream.set_flow ReceiveStream.state]. rewrite Est.
  unfold MissingData.on_data. pose proof (blen_nonneg (Stream.data frame)). by rewrite add_usize_spec, (proj2 (Z.ltb_lt _ _) Hbig) by lia.
Qed.

(** ** A whole connection, with any peer *)

Fixpoint receive_run (is_ : list arrival) (K : endpoint) : outcome (result endpoint TransportError) :=
  match is_ with
  | [] => Ret (Ok K)
  | i :: is_ =>
      let! res := receive_step i K in
      match res with Ok (K, _) => receive_run is_ K | Err e => Ret (Err e) end
  end.
Fixpoint arrivals_ok (is_ : list arrival) (K : endpoint) : Prop :=
  match is_ with
  | [] => True
  | i :: is_ => caller_arrival_ok i K /\ forall K' fs, receive_step i K = Ret (Ok (K', fs)) -> arrivals_ok is_ K'
  end.

(** The arrival [i] finds the connection in the state [K]. *)
Definition finds (is_ : list arrival) (K0 : endpoint) (i : arrival) (K : endpoint) : Prop :=
  exists before after, is_ = before ++ i :: after /\ receive_run before K0 = Ret (Ok K).

Lemma finds_later i is_ K0 K1 fs j K : receive_step i K0 = Ret (Ok (K1, fs)) -> finds is_ K1 j K -> finds (i :: is_) K0 j K.
Proof. intros E (before & after & -> & Er). exists (i :: before), after. split; [done |]. cbn [receive_run]. by rewrite E. Qed.

Lemma receive_run_ok is_ : forall K,
  endpoint_ok K -> arrivals_ok is_ K ->
  match receive_run is_ K with
  | Panic => exists i K', finds is_ K i K' /\ overflowing_arrival i K'
  | Ret (Err e) => exists i K', finds is_ K i K' /\ faulty_arrival i K' e
  | Ret (Ok K') => endpoint_ok K'
  end.
Proof.
  induction is_ as [| i is_ IH]; intros K HK Hv; [done |]. destruct Hv as [Hi Hrest]. cbn [receive_run].
  assert (Hnow : finds (i :: is_) K i K) by (by exists [], is_). destruct (caller_arrival i K Hi) as [Hok | Hover].
  - destruct (receive_step_ok i K HK Hok) as (res & E & Hres). rewrite E. cbn [obind]. destruct res as [[K1 fs] | e]; [| by exists i, K].
    specialize (IH K1 Hres (Hrest K1 fs E)). destruct (receive_run is_ K1) as [[K' | e] |]; [done | |].
    all: destruct IH as (j & K' & Hj & ?); exists j, K'; split; [by eapply finds_later | done].
  - destruct (receive_step i K) as [[[K1 fs] | e] |] eqn:E; cbn [obind]; [| | by exists i, K].
    all: exfalso; by apply (overflow_panics i K _ Hover) in E.
Qed.

(** A connection before the first stream. *)
Definition fresh (initial_window desired : Z) : outcome endpoint :=
  let! c := Incoming.new initial_window desired in Ret (mk_endpoint c ∅).
Lemma fresh_ok initial_window desired :
  0 <= initial_window <= desired -> desired < 2 ^ 32 ->
  returns (fresh initial_window desired) (fun K => endpoint_ok K /\ receivers K = ∅
    /\ Incoming.desired_flow_control_window (incoming K) = desired
    /\ IncrementalValueSync.latest_value (Incoming.read_window_sync (incoming K)) = desired).
Proof.
  intros Hi Hd. unfold fresh, Incoming.new, IncrementalValueSync.new. rewrite (proj2 (Z.leb_le _ _)) by lia. cbn [rassert obind].
  destruct (request_delivery_ok (IncrementalValueSync.mk desired initial_window (desired / 10) NotRequested)) as (sync & -> & Hsync & Hl & _); [cbn; lia | done |].
  cbn [obind]. apply returns_ret. cbn in Hl. split_and!; try done. split; cbn; try done; [split; cbn; rewrite ?Hl; try done; try lia; unfold MAX_VARINT_VALUE; lia | ..].
Qed.

(** C4: whatever the peer sends and the application reads, the credit of the
    receiving streams of a connection is conserved: the credit the streams took is
    exactly the credit the connection gave, within the limit that was announced; a
    stream holds credit for all it received, within its own limit; and the credit
    for all that was read was given back.  The connection is closed only by a
    frame that, in the state it found the connection in, broke a limit or the
    final size of its stream.  A panic has one cause only: data past the largest
    offset for a stream that was stopped. *)
Theorem receive_streams_credit initial_window desired arrivals :
  0 <= initial_window <= desired -> desired < 2 ^ 32 ->
  (forall K, fresh initial_window desired = Ret K -> arrivals_ok arrivals K) ->
  returns (fresh initial_window desired) (fun K0 =>
    match receive_run arrivals K0 with
    | Panic => exists i K, finds arrivals K0 i K /\ overflowing_arrival i K
    | Ret (Err e) => exists i K, finds arrivals K0 i K /\ faulty_arrival i K e
    | Ret (Ok K) =>
        total (receivers K) taken = Incoming.acquired_window (incoming K)
        /\ total (receivers K) returned = Incoming.consumed_window (incoming K)
        /\ Incoming.acquired_window (incoming K) <= IncrementalValueSync.latest_value (Incoming.read_window_sync (incoming K))
        /\ IncrementalValueSync.latest_value (Incoming.read_window_sync (incoming K))
           = Z.min MAX_VARINT_VALUE (Incoming.consumed_window (incoming K) + Incoming.desired_flow_control_window (incoming K))
        /\ forall id r, receivers K !! id = Some r -> taken r <= stream_limit (flow r)
             /\ (state r = ReceiveStream.Receiving -> max_recv_offset (cursors (buf r)) <= taken r /\ returned r = consumed_len (buf r))
    end).
Proof.
  intros Hi Hd Hv. destruct (fresh_ok initial_window desired Hi Hd) as (K & E & HK & _). exists K. split; [done |].
  pose proof (receive_run_ok arrivals K HK (Hv K E)) as H. destruct (receive_run arrivals K) as [[K' | e] |]; [| done | done].
  destruct H as [Hin Hs Ht Hr]. split_and!; try done; [apply Hin | apply Hin |]. intros id r Hid. destruct (Hs id r Hid) as [_ Hf Hrc].
  split; [apply (rf_acquired _ Hf) |]. intros Hst. by destruct (Hrc Hst).
Qed.
End Endpoint.

(** ** Two streams of which one is reset *)

Local Abbreviation the_arrival := (arrival (CE := unit)).
Definition read_all : Rx.Request := Rx.mk_request (Some [[]; []; []]) 0 (umax 64) None false.
Definition sample_arrivals : list the_arrival :=
  [Accept 0 4 10; Accept 4 4 6; ForStream 0 (Data (Stream.mk 0 2 false false [3; 4])); ForStream 4 (Data (Stream.mk 4 0 false false [1; 2; 3]));
   ForStream 0 (Data (Stream.mk 0 0 false false [1; 2; 3])); ForStream 0 (Read read_all None);
   ForStream 4 (ResetData (ResetStream.mk 4 7 5))].

Lemma read_all_ok : request_ok read_all.
Proof. split; [by vm_compute |]. by intros chunks [= <-]. Qed.

Lemma sample_arrivals_ok (i : the_arrival) is_ K K' fs :
  caller_arrival_ok i K -> receive_step Plain.with_capacity i K = Ret (Ok (K', fs)) -> arrivals_ok Plain.with_capacity is_ K' ->
  arrivals_ok Plain.with_capacity (i :: is_) K.
Proof. intros Hi HK Hrest. split; [done |]. intros K0 fs0 HK0. by assert (K0 = K') as -> by congruence. Qed.

Ltac event_possible := first [exact I | split; [apply read_all_ok | discriminate] | split; [by vm_compute | discriminate] | by vm_compute].
Ltac next_arrival :=
  eapply sample_arrivals_ok;
    [lazymatch goal with
     | |- caller_arrival_ok (ForStream _ _) _ => let Hr := fresh "Hr" in intros ? Hr; vm_compute in Hr; injection Hr as <-; event_possible
     | |- _ => by vm_compute
     end
    | vm_compute; reflexivity |].

Lemma receive_streams_credit_witness :
  exists K, (let! K := fresh 20 20 in receive_run Plain.with_capacity sample_arrivals K) = Ret (Ok K)
    /\ total (receivers K) taken = 9 /\ total (receivers K) taken = Incoming.acquired_window (incoming K)
    /\ total (receivers K) returned = Incoming.consumed_window (incoming K)
    /\ (got <$> receivers K !! 0) = Some [1; 2; 3; 4].
Proof.
  destruct (receive_streams_credit (CE := unit) Plain.with_capacity Plain.with_capacity_exact 20 20 sample_arrivals ltac:(lia) ltac:(lia)) as (K0 & E0 & Hres).
  - intros K HK. vm_compute in HK. injection HK as <-. unfold sample_arrivals. do 7 next_arrival. exact I.
  - rewrite E0. cbn [obind]. destruct (receive_run Plain.with_capacity sample_arrivals K0) as [[K | e] |] eqn:E1.
    + destruct Hres as (H1 & H2 & _). exists K. split; [reflexivity |]. split; [| split; [exact H1 | split; [exact H2 |]]].
      all: vm_compute in E0; injection E0 as <-; vm_compute in E1; injection E1 as <-; vm_compute; reflexivity.
    + exfalso. vm_compute in E0. injection E0 as <-. vm_compute in E1. discriminate E1.
    + exfalso. vm_compute in E0. injection E0 as <-. vm_compute in E1. discriminate E1.
Defined.
