(* ===== verification/ReceiveCredit.v ===== *)
(** * Credit that is not given back, and data that is not handed out

    Two states of a receiving stream that it does not leave. *)
From stdpp Require Import gmap.
From S2P Require Import Prelude Codec VarInt PacketNumber FrameAck Frames Time Transmission Recovery Sync FlowControl FlowControlThm ReassemblerSlot Reassembler ReassemblerSpec ReassemblerWrite ReassemblerOps ReassemblerRead ReassemblerThm SendStreams StreamOps ReceiveStream ReceiveFlowThm ReceiveStreamThm ReceiveStreams.

Section Credit.
Context {CE B : Type} {HB : BytesMut B} {HS : BytesMutSpec B} (alloc : Z -> Z -> B).

Local Abbreviation receiver := (receiver (CE := CE) (B := B)).
Local Abbreviation stream_event := (stream_event (CE := CE)).
Local Abbreviation state r := (ReceiveStream.state (rstream r)).
Local Abbreviation buf r := (ReceiveStream.receive_buffer (rstream r)).

(** ** A stream that is stopped when all its data arrived *)

Fixpoint reacts (id : Z) (evs : list stream_event) (r : receiver) : outcome (result receiver TransportError) :=
  match evs with
  | [] => Ret (Ok r)
  | ev :: evs =>
      let! res := react alloc id ev r in
      match res with Ok (r, _) => reacts id evs r | Err e => Ret (Err e) end
  end.

(** The credit stays as it is. *)
Definition frozen (r r' : receiver) : Prop :=
  rs_ok (rstream r') /\ state r' = ReceiveStream.DataRead /\ taken r' = taken r /\ returned r' = returned r.

Lemma wake_frozen (s : ReceiveStream.t CE B) ev g b :
  rs_ok s -> ReceiveStream.state s = ReceiveStream.DataRead ->
  returns (ReceiveStream.wake s ev) (fun '(s', _) => frozen (mk_receiver s g b) (mk_receiver s' g true)).
Proof.
  intros Hok Hst. eapply returns_mono; [apply wake_ok; congruence |]. intros [s' ev'] Hal. pose proof Hal as (E1 & E2 & E3 & _).
  split; [by eapply alike_ok |]. unfold taken, returned. cbn. rewrite E1, E3. by split_and!.
Qed.

Lemma sync_frozen (r : receiver) sync o g b :
  rs_ok (rstream r) -> state r = ReceiveStream.DataRead -> window_ok sync ->
  IncrementalValueSync.latest_value sync = stream_limit (ReceiveStream.flow_controller (rstream r)) ->
  frozen r (mk_receiver (ReceiveStream.set_stop_sending (ReceiveStream.set_flow (rstream r)
    (ReceiveFlow.set_sync (ReceiveStream.flow_controller (rstream r)) sync)) o) g b).
Proof.
  intros [H1 H2 H3] Hst Hs Hl. split_and!; try done. split; cbn; [done | by apply receive_sync_ok | congruence].
Qed.

Lemma react_frozen id ev (r : receiver) :
  rs_ok (rstream r) -> state r = ReceiveStream.DataRead -> event_ok ev (rstream r) ->
  returns (react alloc id ev r) (fun res => exists r' fs, res = Ok (r', fs) /\ frozen r r').
Proof.
  intros Hok Hst Hev. pose proof (rf_sync _ (rs_flow _ Hok)) as Hw. destruct ev as [frame | frame | error | request context | c | c | w]; cbn [react].
  - rstep (on_data_ignored alloc (rstream r) frame (mk_events None None) Hok ltac:(congruence) (proj1 Hev) (proj2 Hev)).
    intros [[s' ev'] res] (Hok' & Ef & _ & -> & Hs). apply returns_ret. eexists _, _. split; [done |]. rewrite Hst in Hs. unfold frozen, taken, returned. cbn. by rewrite Ef.
  - unfold ReceiveStream.on_reset, ReceiveStream.init_reset. rewrite Hst. cbn [obind].
    destruct (wake_frozen (ReceiveStream.set_stop_sending (rstream r) (OnceSync.stop_sync (ReceiveStream.stop_sending_sync (rstream r)))) (mk_events None None) (got r) (stopped r))
      as ([s' ev'] & -> & Hfr); [split; cbn; try apply Hok; congruence | done |].
    cbn [obind]. apply returns_ret. by eexists _, _.
  - unfold ReceiveStream.on_internal_reset, ReceiveStream.init_reset. rewrite Hst. cbn [obind rassert].
    destruct (wake_frozen (rstream r) (mk_events None None) (got r) (stopped r) Hok Hst) as ([s' ev'] & -> & Hfr).
    cbn [obind]. apply returns_ret. by eexists _, _.
  - destruct (Rx.stop_sending request) as [code |] eqn:Ess.
    + unfold ReceiveStream.poll_request. rewrite Ess. unfold ReceiveStream.poll_stop_sending. rewrite Hst. cbn [obind]. apply returns_ret.
      eexists _, _. split; [done |]. split_and!; try done. split; cbn; try apply Hok; done.
    + rstep (poll_closed (rstream r) request context Hok ltac:(congruence) Ess). intros [[s' req'] res] (Hok' & Ef & Es & -> & _). apply returns_ret.
      eexists _, _. split; [done |]. unfold frozen, taken, returned. cbn. rewrite Ef, Es. by split_and!.
  - apply returns_ret. eexists _, _. split; [done |]. destruct (window_ack_ok _ c Hw) as (H1 & H2 & _). by apply sync_frozen.
  - apply returns_ret. eexists _, _. split; [done |]. destruct (window_loss_ok _ c Hw) as (H1 & H2 & _). by apply sync_frozen.
  - unfold ReceiveStream.on_transmit. destruct (OnceSync.on_transmit _ _ _ _) as [[o res] fs]. destruct res as [u | e].
    + pose proof (window_transmit_ok max_stream_data_writer _ id (resume w fs) Hw) as Ht. cbn [ReceiveStream.set_stop_sending ReceiveStream.flow_controller].
      destruct (IncrementalValueSync.on_transmit _ _ _ _) as [[sync res] fs']. destruct Ht as (H1 & H2 & _). apply returns_ret.
      eexists _, _. split; [done |]. by apply sync_frozen.
    + apply returns_ret. eexists _, _. split; [done |]. split_and!; try done. split; cbn; try apply Hok. congruence.
Qed.

Lemma reacts_frozen id evs : forall r : receiver,
  rs_ok (rstream r) -> state r = ReceiveStream.DataRead ->
  Forall (fun ev => forall s : ReceiveStream.t CE B, ReceiveStream.state s = ReceiveStream.DataRead -> event_ok ev s) evs ->
  returns (reacts id evs r) (fun res => exists r', res = Ok r' /\ frozen r r').
Proof.
  induction evs as [| ev evs IH]; intros r Hok Hst Hev; [apply returns_ret; exists r; split; [done | by split_and!] |].
  inversion Hev as [| ? ? H1 H2]; subst. cbn [reacts]. rstep (react_frozen id ev r Hok Hst (H1 _ Hst)). intros res (r1 & fs & -> & Hok1 & Hst1 & E1 & E2).
  eapply returns_mono; [by apply IH |]. intros res (r' & -> & Hok' & Hst' & E3 & E4). exists r'. split; [done |]. split_and!; try done; congruence.
Qed.

(** C40: when the application stops a stream whose data has all arrived, the credit
    of the connection for the data it has not read is never given back: whatever
    happens to the stream afterwards, the credit it holds stays the same. *)
Theorem stopped_stream_credit id (r : receiver) request context code evs :
  rs_ok (rstream r) -> state r = ReceiveStream.Receiving -> is_writing_complete (buf r) = true -> Rx.stop_sending request = Some code ->
  Forall (fun ev => forall s : ReceiveStream.t CE B, ReceiveStream.state s = ReceiveStream.DataRead -> event_ok ev s) evs ->
  returns (reacts id (Read request context :: evs) r) (fun res => exists r', res = Ok r'
    /\ taken r' - returned r' = taken r - consumed_len (buf r)).
Proof.
  intros Hok Hst Hc Hss Hev. cbn [reacts react]. unfold ReceiveStream.poll_request, ReceiveStream.poll_stop_sending. rewrite Hss, Hst, Hc. cbn [obind].
  set (r1 := mk_receiver _ _ _). destruct (reacts_frozen id evs r1) as (res & -> & r' & -> & _ & _ & E1 & E2); [split; cbn; try apply Hok; done | done | done |].
  apply returns_ret. exists r'. split; [done |]. rewrite E1, E2. rewrite <- (rc_released _ (rs_receiving _ Hok Hst)). done.
Qed.

(** ** A stream that ends below the low watermark *)

(** The stream is polled [n] times with the same request: what the caller is
    told. *)
Fixpoint polls (n : nat) (s : ReceiveStream.t CE B) (request : Rx.Request) (waker : Z)
    : outcome (ReceiveStream.t CE B * list (result (Rx.Response CE) (StreamError CE))) :=
  match n with
  | O => Ret (s, [])
  | S n =>
      let! '(s, _, res) := ReceiveStream.poll_request s request (Some waker) in
      let! '(s, ress) := polls n s request waker in Ret (s, res :: ress)
  end.

Local Abbreviation low s request := (Z.min (ReceiveFlow.watermark (ReceiveStream.flow_controller s)) (Rx.low_watermark request)).

Lemma poll_below_watermark (s : ReceiveStream.t CE B) request waker :
  rs_ok s -> ReceiveStream.state s = ReceiveStream.Receiving -> is_writing_complete (ReceiveStream.receive_buffer s) = true ->
  0 < ra_len (ReceiveStream.receive_buffer s) < low s request -> Rx.stop_sending request = None -> Rx.detached request = false ->
  ReceiveStream.poll_request s request (Some waker)
  = Ret (ReceiveStream.set_waiter s (Some (waker, Rx.low_watermark request)), request,
         Ok (Rx.mk_response (mk_amount 0 (report (ReceiveStream.receive_buffer s)).1) (mk_amount 0 (report (ReceiveStream.receive_buffer s)).2) true Finishing)).
Proof.
  intros Hok Hst Hc Hlow Hss Hd. unfold ReceiveStream.poll_request. rewrite Hss, Hd. cbn [obind]. rewrite Hst.
  unfold ReceiveStream.poll_data. rewrite (proj2 (Z.leb_gt _ _)) by apply Hlow. cbn [obind]. unfold ReceiveStream.poll_end.
  destruct (total_received_ok _ (rs_buffer _ Hok)) as (_ & _ & _ & Hr). unfold is_writing_complete in Hc.
  destruct (final_size (ReceiveStream.receive_buffer s)) as [n |]; [| done]. apply Z.eqb_eq in Hc.
  rewrite (proj2 (Z.eqb_neq _ _)) by (unfold consumed_len; lia). rewrite (proj2 (Z.eqb_eq _ _)) by done. cbn [obind]. by destruct (report _).
Qed.

(** When a stream has ended with some unread bytes, but fewer than both the
    low watermark of the reader and half of the stream's flow control window, the
    reader is never given them: however often it polls, it gets no bytes and is
    told to wait for more, though all of the stream has arrived. *)
Theorem low_watermark_starves n : forall (s : ReceiveStream.t CE B) request waker,
  rs_ok s -> ReceiveStream.state s = ReceiveStream.Receiving -> is_writing_complete (ReceiveStream.receive_buffer s) = true ->
  0 < ra_len (ReceiveStream.receive_buffer s) < low s request -> Rx.stop_sending request = None -> Rx.detached request = false ->
  returns (polls n s request waker) (fun '(s', ress) => ReceiveStream.receive_buffer s' = ReceiveStream.receive_buffer s /\ length ress = n
    /\ Forall (fun res => exists response, res = Ok response /\ consumed (Rx.r_bytes response) = 0
         /\ available (Rx.r_bytes response) = ra_len (ReceiveStream.receive_buffer s) /\ Rx.will_wake response = true) ress).
Proof.
  induction n as [| n IH]; intros s request waker Hok Hst Hc Hlow Hss Hd; [by apply returns_ret |].
  cbn [polls]. rewrite poll_below_watermark by done. cbn [obind].
  rstep (IH (ReceiveStream.set_waiter s (Some (waker, Rx.low_watermark request))) request waker); try done.
  { by apply (alike_ok s). }
  intros [s' ress] (E1 & E2 & Hress). apply returns_ret. split_and!; [done | cbn; by rewrite E2 |]. constructor; [| done]. by eexists.
Qed.
End Credit.

(** ** A stream of three bytes *)

Definition three_bytes : outcome (ReceiveStream.t unit Plain.t) :=
  let! c := Incoming.new 20 20 in
  let! s := ReceiveStream.new false c 10 10 in
  let! '(s, _, _) := ReceiveStream.on_data Plain.with_capacity s (Stream.mk 0 0 false true [1; 2; 3]) (mk_events None None) in
  Ret s.

Lemma three_bytes_ok : returns three_bytes rs_ok.
Proof.
  unfold three_bytes. destruct (fresh_ok (CE := unit) (B := Plain.t) 20 20) as (K & E1 & HK & Er & _); [lia | lia |].
  unfold fresh in E1. destruct (Incoming.new 20 20) as [c |]; [| done]. cbn [obind] in *. injection E1 as <-.
  rstep (accept_ok (mk_endpoint c ∅) 0 10 10 HK); [split_and!; done || lia |]. intros s (Hok & Es & _).
  rstep (on_data_receiving Plain.with_capacity Plain.with_capacity_exact s (Stream.mk 0 0 false true [1; 2; 3]) (mk_events None None) Hok); [by rewrite Es | done |].
  intros [[s' ev'] res] H. apply returns_ret. apply H.
Qed.

Lemma stopped_stream_credit_witness :
  exists s r, three_bytes = Ret s
    /\ reacts Plain.with_capacity 0 [Read (Rx.mk_request None 0 0 (Some 7) false) None; Data (Stream.mk 0 0 false true [1; 2; 3])] (mk_receiver s [] false) = Ret (Ok r)
    /\ taken r - returned r = 3.
Proof.
  destruct three_bytes_ok as (s & E1 & Hok). pose proof E1 as E2. vm_compute in E2. injection E2 as E2.
  destruct (stopped_stream_credit Plain.with_capacity 0 (mk_receiver s [] false) (Rx.mk_request None 0 0 (Some 7) false) None 7
    [Data (Stream.mk 0 0 false true [1; 2; 3])] Hok) as (res & E3 & r & -> & Hr);
    [subst s; reflexivity | subst s; vm_compute; reflexivity | reflexivity | |].
  - constructor; [| constructor]. intros s0 Hs0. split; [cbn; lia |]. rewrite Hs0. discriminate.
  - exists s, r. split; [exact E1 |]. split; [exact E3 |]. rewrite Hr. subst s. vm_compute. reflexivity.
Defined.

(** A stream that was stopped does not expect a frame past the largest offset,
    which a stream that receives refuses. *)
Definition past_the_end : Stream.t := Stream.mk 0 MAX_VARINT_VALUE false false [1].
Definition two_bytes (stop : bool) : outcome (ReceiveStream.t unit Plain.t) :=
  let! c := Incoming.new 20 20 in
  let! s := ReceiveStream.new false c 10 10 in
  let! '(s, _, _) := ReceiveStream.on_data Plain.with_capacity s (Stream.mk 0 0 false false [1; 2]) (mk_events None None) in
  if stop then let! '(s, _, _) := ReceiveStream.poll_request s (Rx.mk_request None 0 0 (Some 7) false) None in Ret s else Ret s.
Example frame_past_the_end :
  (let! s := two_bytes false in
   let! '(_, _, res) := ReceiveStream.on_data Plain.with_capacity s past_the_end (mk_events None None) in Ret res) = Ret (Err FLOW_CONTROL_ERROR)
  /\ (let! s := two_bytes true in ReceiveStream.on_data Plain.with_capacity s past_the_end (mk_events None None)) = Panic.
Proof. split; vm_compute; reflexivity. Qed.
