(* ===== verification/ReceiveContent.v ===== *)
(** * The bytes a stream receives

    While the frames of a stream arrive in any order, more than once or in part,
    the application reads the stream from its front. *)
From stdpp Require Import gmap.
From S2P Require Import Prelude Codec VarInt PacketNumber FrameAck Frames Time Transmission Recovery Sync FlowControl FlowControlThm ReassemblerSlot Reassembler ReassemblerSpec ReassemblerWrite ReassemblerOps ReassemblerRead ReassemblerThm DataWriter StreamOps ReceiveStream ReceiveFlowThm ReceiveStreamThm ReceiveStreams.

Section Content.
Context {CE B : Type} {HB : BytesMut B} {HS : BytesMutSpec B}.

Local Abbreviation receiver := (receiver (CE := CE) (B := B)).
Local Abbreviation flow r := (ReceiveStream.flow_controller (rstream r)).
Local Abbreviation buf r := (ReceiveStream.receive_buffer (rstream r)).
Local Abbreviation state r := (ReceiveStream.state (rstream r)).

(** The byte is there, or the application has it already. *)
Definition has (r : receiver) (x : Z) : Prop := x < blen (got r) \/ ra_get (buf r) x <> None.

(** What the buffer of a stream that receives has of it. *)
Definition arrived (D : list Z) (limit : Z) (finished : Prop) (st : Reassembler B) : Prop :=
  max_recv_offset (cursors st) <= limit
  /\ (forall x b, ra_get st x = Some b -> D !! Z.to_nat x = Some b)
  /\ forall n, final_size st = Some n -> finished /\ n = blen D.

(** The stream [D] arrives: [limit] is the end of what was sent, [finished] that
    its end was. *)
Record content (D : list Z) (limit : Z) (finished : Prop) (r : receiver) : Prop := {
  ct_got : got r `prefix_of` D;
  ct_taken : taken r <= limit;
  ct_receiving : state r = ReceiveStream.Receiving ->
    consumed_len (buf r) = blen (got r) /\ arrived D limit finished (buf r);
  ct_read : state r = ReceiveStream.DataRead -> stopped r = false -> finished /\ got r = D;
  ct_stopped : state r <> ReceiveStream.Receiving -> state r <> ReceiveStream.DataRead -> stopped r = true
}.

(** A frame with a part of the stream. *)
Definition honest (D : list Z) (limit : Z) (finished : Prop) (frame : Stream.t) : Prop :=
  exists a len, Stream.offset frame = a /\ Stream.data frame = slice D a len /\ 0 <= a /\ 0 <= len /\ a + len <= limit
    /\ limit <= blen D /\ (Stream.is_fin frame = true -> finished /\ a + len = blen D).

(** ** The stream grows *)

Lemma content_mono (D D' : list Z) limit limit' (finished finished' : Prop) (r : receiver) :
  content D limit finished r -> D `prefix_of` D' -> limit <= limit' -> (finished -> finished' /\ D' = D) -> content D' limit' finished' r.
Proof.
  intros [Hg Ht Hr Hd Hs] Hp Hl Hf. split; [by etransitivity | lia | | | done].
  - intros Hst. destruct (Hr Hst) as (H1 & H2 & H3 & H4). unfold arrived. split_and!; [done | lia | |].
    + intros x b Hx%H3. by eapply prefix_lookup_Some.
    + intros n [Hfin ->]%H4. by destruct (Hf Hfin) as [? ->].
  - intros Hst Hns. destruct (Hd Hst Hns) as [Hfin ->]. by destruct (Hf Hfin) as [? ->].
Qed.

(** ** Data arrives *)

Lemma slice_byte D a len x : 0 <= a -> a <= x < a + len -> a + len <= blen D -> slice D a len !! Z.to_nat (x - a) = D !! Z.to_nat x.
Proof. intros. rewrite slice_lookup by lia. do 2 f_equal. lia. Qed.

Lemma stored_arrived D limit finished frame st st' final :
  arrived D limit finished st -> honest D limit finished frame -> stored st st' frame final -> arrived D limit finished st'.
Proof.
  intros (H2 & H3 & H4) (a & len & Ea & Ed & Ha & Hlen & Hal & Hlim & Hfin) (Hfa & Hcur & Hget).
  rewrite Ea, Ed in *. rewrite blen_slice in * by lia. destruct (final_after_acquired _ _ _ _ Hfa) as [_ Hfinal]. unfold arrived. rewrite Hcur. cbn. split_and!.
  - lia.
  - intros x c. rewrite Hget. destruct (ra_get st x) as [c' |] eqn:Eg'; [intros [= <-]; by apply H3 |].
    destruct (Z.ltb_spec x (Z.max (start_offset (cursors st)) a)); [done |]. intros Hl. pose proof (lookup_lt_Some _ _ _ Hl) as Hlt.
    pose proof (blen_slice D a len ltac:(lia) ltac:(lia) ltac:(lia)) as Hbl. unfold blen in Hbl. rewrite slice_byte in Hl by (unfold blen in *; lia). done.
  - intros n. unfold final_size, CursorsOps.final_size. rewrite Hcur. cbn. destruct (final =? UNKNOWN_FINAL_SIZE) eqn:Eu; [done |]. intros [= <-].
    change (CursorsOps.final_size (cursors st)) with (final_size st) in Hfinal. destruct (final_size st) as [n |].
    + destruct Hfinal as [-> _]. by apply H4.
    + destruct (Stream.is_fin frame); [destruct Hfinal as [-> _]; by apply Hfin | subst final; by rewrite Z.eqb_refl in Eu].
Qed.

(** All of a list that is as long. *)
Lemma prefix_all (l D : list Z) : l `prefix_of` D -> blen l = blen D -> l = D.
Proof. intros [k ->] H. rewrite blen_app in H. destruct k; [by rewrite app_nil_r | unfold blen in H; cbn in H; lia]. Qed.

Lemma content_data D limit finished frame (r r' : receiver) :
  content D limit finished r -> honest D limit finished frame -> state r = ReceiveStream.Receiving ->
  got r' = got r -> stopped r' = stopped r -> data_stored frame r r' -> content D limit finished r'.
Proof.
  intros [Hg Ht Hr Hd Hs] Hh Hst Eg Es (Htk & b & final & Hstored & Hcase). destruct (Hr Hst) as [H1 H2].
  pose proof (stored_arrived _ _ _ _ _ _ _ H2 Hh Hstored) as Hb. pose proof Hstored as (_ & Hcur & _).
  assert (Hc : consumed_len b = blen (got r)) by (rewrite <- H1; unfold consumed_len; by rewrite Hcur).
  split; rewrite ?Eg, ?Es.
  - done.
  - destruct Hh as (a & len & Ea & Ed & Hh). unfold data_end in Htk. rewrite Ea, Ed, blen_slice in Htk by lia. lia.
  - intros Hst'. destruct Hcase as [[_ ->] | (E & _)]; [done | congruence].
  - intros Hst' _. destruct Hcase as [[E _] | (_ & _ & Hn)]; [congruence |].
    destruct Hb as (_ & _ & Hb). destruct (Hb _ Hn) as [? E]. split; [done |]. apply prefix_all; [done | congruence].
  - intros Hn1 Hn2. destruct Hcase as [[E _] | (E & _)]; congruence.
Qed.

(** ** Data is read *)

(** The bytes at the front of the buffer continue what was read. *)
Lemma took_prefix D g st bs st' :
  g `prefix_of` D -> start_offset (cursors st) = blen g -> (forall x b, ra_get st x = Some b -> D !! Z.to_nat x = Some b) ->
  took st bs st' -> (g ++ bs) `prefix_of` D.
Proof.
  intros [k ->] Hso Hget (_ & _ & Hbs & _). apply prefix_app.
  assert (Hk : forall i b, bs !! i = Some b -> k !! i = Some b).
  { intros i b Hi. apply Hbs, Hget in Hi. rewrite Hso in Hi. unfold blen in Hi. rewrite lookup_app_r in Hi by lia.
    rewrite <- Hi. f_equal. lia. }
  clear -Hk. revert k Hk. induction bs as [| c bs IH]; intros k Hk; [apply prefix_nil |].
  destruct k as [| c' k]; [by specialize (Hk 0%nat c eq_refl) |]. specialize (Hk 0%nat c eq_refl) as E. injection E as ->.
  apply prefix_cons, IH. intros i b Hi. apply (Hk (S i) b Hi).
Qed.

Lemma content_read D limit finished bs (r r' : receiver) :
  content D limit finished r -> state r = ReceiveStream.Receiving -> got r' = got r ++ bs -> taken r' = taken r -> stopped r' = stopped r ->
  data_read bs r r' -> content D limit finished r'.
Proof.
  intros [Hg Ht Hr Hd Hs] Hst Eg Et Es (b & Htook & Hcase). destruct (Hr Hst) as (H1 & H2 & H3 & H4).
  pose proof (took_prefix D (got r) (buf r) bs b Hg H1 H3 Htook) as Hp. pose proof Htook as (_ & Hcur & _ & Hget).
  assert (Hc : consumed_len b = blen (got r ++ bs)) by (unfold consumed_len in *; rewrite Hcur, blen_app; cbn; lia).
  split; rewrite ?Eg, ?Es, ?Et; try done.
  - intros Hst'. destruct Hcase as [[_ ->] | (E & _)]; [| congruence]. unfold arrived. split_and!; [done | by rewrite Hcur | |].
    + intros x c. rewrite Hget. destruct (Z.ltb _ _); [done | apply H3].
    + intros n. unfold final_size, CursorsOps.final_size. rewrite Hcur. apply H4.
  - intros Hst' _. destruct Hcase as [[E _] | (_ & Hn)]; [congruence |]. destruct (H4 _ Hn) as [? E]. split; [done |].
    apply prefix_all; [done | congruence].
  - intros Hn1 Hn2. destruct Hcase as [[E _] | (E & _)]; congruence.
Qed.

(** Nothing of it changes. *)
Lemma content_kept D limit finished (r r' : receiver) :
  content D limit finished r -> data_kept r r' -> taken r' <= limit -> (stopped r = true -> stopped r' = true) -> content D limit finished r'.
Proof.
  intros [Hg Ht Hr Hd Hs] (Eg & H1 & H2 & H3) Htk Hstop. split; rewrite ?Eg; try done.
  - intros Hst. destruct (H1 Hst) as [Hst0 ->]. by apply Hr.
  - intros Hst Hns. destruct (H2 Hst) as [Hst0 | ?]; [| congruence]. apply Hd; [done |]. destruct (stopped r); [| done]. specialize (Hstop eq_refl). congruence.
  - intros Hn1 Hn2. destruct (H3 (conj Hn1 Hn2)) as [[? ?] | ?]; [by apply Hstop, Hs | done].
Qed.

(** ** Any event *)

Definition fair (D : list Z) (limit : Z) (finished : Prop) (ev : stream_event (CE := CE)) : Prop :=
  match ev with Data frame => honest D limit finished frame | ResetData _ => False | _ => True end.

Lemma content_evolves D limit finished ev (r r' : receiver) :
  0 <= limit -> content D limit finished r -> fair D limit finished ev -> evolves ev r r' -> content D limit finished r'.
Proof.
  intros Hl Hc Hev H. pose proof (ct_taken _ _ _ _ Hc). destruct ev; cbn in Hev, H; try done.
  - destruct H as [(Hst & _ & Eg & Es & H) | (_ & H & Et & Es)]; [by eapply content_data |].
    eapply content_kept; [done | done | lia | congruence].
  - destruct H as (H & Ht & Es). eapply content_kept; [done | done | lia | done].
  - destruct H as (Et & Hs & [[H _] | (Hst & Es & bs & Eg & H)]); [| by eapply content_read].
    eapply content_kept; [done | done | lia | done].
  - destruct H as (H & _ & Et & Es). eapply content_kept; [done | done | lia | congruence].
  - destruct H as (H & _ & Et & Es). eapply content_kept; [done | done | lia | congruence].
  - destruct H as (H & _ & Et & Es). eapply content_kept; [done | done | lia | congruence].
Qed.

(** ** What is there stays there *)

Definition knows_end (r : receiver) : Prop := final_size (buf r) <> None.
Definition holds (r : receiver) (frame : Stream.t) : Prop :=
  (forall x, Stream.offset frame <= x < data_end frame -> has r x) /\ (Stream.is_fin frame = true -> knows_end r).

Lemma stored_end st st' frame final : stored st st' frame final ->
  (final_size st <> None \/ Stream.is_fin frame = true) -> final_size st' <> None.
Proof.
  intros (Hfa & Hcur & _) H. destruct (final_after_acquired _ _ _ _ Hfa) as [He Hf]. unfold final_size, CursorsOps.final_size in *. rewrite Hcur. cbn.
  destruct (final_offset (cursors st) =? UNKNOWN_FINAL_SIZE) eqn:Eu.
  - destruct H as [? | E]; [done |]. rewrite E in Hf. destruct Hf as [-> _]. unfold UNKNOWN_FINAL_SIZE, MAX_VARINT_VALUE in *.
    destruct (Z.eqb_spec (Stream.offset frame + blen (Stream.data frame)) 18446744073709551615); [lia | done].
  - destruct Hf as [-> _]. by rewrite Eu.
Qed.

Lemma holds_data frame (r r' : receiver) :
  consumed_len (buf r) = blen (got r) -> got r' = got r -> state r' = ReceiveStream.Receiving -> data_stored frame r r' ->
  (forall x, has r x -> has r' x) /\ (knows_end r -> knows_end r') /\ holds r' frame.
Proof.
  intros Hc Eg Hst (_ & b & final & Hs & Hcase). assert (Eb : buf r' = b) by (destruct Hcase as [[_ ?] | (? & _)]; [done | congruence]).
  pose proof (stored_end _ _ _ _ Hs) as Hend. destruct Hs as (_ & _ & Hget). unfold holds, has, knows_end. rewrite Eg, Eb. split_and!.
  - intros x [? | Hx]; [by left |]. right. rewrite Hget. by destruct (ra_get (buf r) x).
  - auto.
  - intros x [H1 H2]. destruct (Z.lt_ge_cases x (blen (got r))); [by left |]. right. rewrite Hget. destruct (ra_get (buf r) x); [done |].
    destruct (Z.ltb_spec x (Z.max (start_offset (cursors (buf r))) (Stream.offset frame))); [unfold consumed_len in Hc; lia |].
    unfold data_end, blen in H2. intros En. apply lookup_ge_None in En. lia.
  - auto.
Qed.

Lemma holds_read bs (r r' : receiver) :
  consumed_len (buf r) = blen (got r) -> got r' = got r ++ bs -> state r' = ReceiveStream.Receiving -> data_read bs r r' ->
  (forall x, has r x -> has r' x) /\ (knows_end r -> knows_end r').
Proof.
  intros Hc Eg Hst (b & Ht & Hcase). assert (Eb : buf r' = b) by (destruct Hcase as [[_ ?] | (? & _)]; [done | congruence]).
  destruct Ht as (_ & Hcur & _ & Hget). unfold has, knows_end. rewrite Eg, Eb. split.
  - intros x Hx. rewrite blen_app, Hget. pose proof (blen_nonneg bs). unfold consumed_len in Hc.
    destruct (Z.ltb_spec x (start_offset (cursors (buf r)) + blen bs)); [left; lia |]. destruct Hx as [? | Hx]; [left; lia | by right].
  - unfold final_size, CursorsOps.final_size. by rewrite Hcur.
Qed.

Lemma holds_kept (r r' : receiver) :
  state r' = ReceiveStream.Receiving -> data_kept r r' ->
  state r = ReceiveStream.Receiving /\ (forall x, has r x -> has r' x) /\ (knows_end r -> knows_end r').
Proof. intros Hst (Eg & H & _). destruct (H Hst) as [? Eb]. unfold has, knows_end. rewrite Eg, Eb. done. Qed.

Lemma holds_evolves D limit finished ev (r r' : receiver) :
  content D limit finished r -> evolves ev r r' -> state r' = ReceiveStream.Receiving ->
  state r = ReceiveStream.Receiving /\ (forall x, has r x -> has r' x) /\ (knows_end r -> knows_end r')
  /\ match ev with Data frame => holds r' frame | _ => True end.
Proof.
  intros Hc H Hst. destruct ev; cbn in H.
  - destruct H as [(Hst0 & _ & Eg & Es & H) | (Hn & H & _)]; [| by destruct (holds_kept r r' Hst H)].
    destruct (holds_data frame r r') as (? & ? & ?); try done. apply (ct_receiving _ _ _ _ Hc Hst0).
  - destruct (holds_kept r r' Hst (proj1 H)) as (? & ? & ?). done.
  - destruct (holds_kept r r' Hst (proj1 H)) as (? & ? & ?). done.
  - destruct H as (_ & _ & [[H _] | (Hst0 & _ & bs & Eg & H)]); [by destruct (holds_kept r r' Hst H) as (? & ? & ?) |].
    destruct (holds_read bs r r') as (? & ?); try done. apply (ct_receiving _ _ _ _ Hc Hst0).
  - destruct (holds_kept r r' Hst (proj1 H)) as (? & ? & ?). done.
  - destruct (holds_kept r r' Hst (proj1 H)) as (? & ? & ?). done.
  - destruct (holds_kept r r' Hst (proj1 H)) as (? & ? & ?). done.
Qed.
End Content.
