(* ===== verification/CryptoStreamThm.v ===== *)
(** * Handshake data from one end to the other

    One endpoint sends handshake data of an encryption level, the other receives
    it.  Packets are lost, arrive late, more than once and in any order. *)
From stdpp Require Import gmap sets list.
From S2P Require Import Prelude Codec VarInt PacketNumber MapInterface PacketMap PacketMapThm Interval IntervalInsert IntervalSet VarIntSet FrameAck Frames FrameCodec Time Transmission TransmissionContext Recovery Sync SendBuffer SendBufferThm Transmissions TransmissionsThm DataSender DataWriter TransmitThm DataSenderThm DataSenderTransmit DataSenderReliable ReassemblerSlot Reassembler ReassemblerSpec ReassemblerWrite ReassemblerOps ReassemblerRead ReassemblerThm ReceiveStream ReceiveStreamThm ReceiveContent CryptoStream.

Section Transfer.
Context {E B BM : Type} `{HB : Bytes B, !BytesSpec B} {HM : BytesMut BM} {HMS : BytesMutSpec BM}.
Context (be : bool) (capacity : Z -> Z) (alloc : Z -> Z -> BM) (sp : PacketNumberSpace).
Hypothesis capacity_ok : forall n, 0 < n < 2 ^ 63 -> n <= capacity n < 2 ^ 63.
Hypothesis alloc_ok : alloc_exact alloc.

#[local] Existing Instance crypto_flow_controller.
#[local] Existing Instance crypto_flow_spec.
#[local] Hint Extern 0 (ChunkWriter _ B) => exact (crypto_writer be) : typeclass_instances.
#[local] Hint Extern 0 (ChunkWriterSpec _ B) => exact (crypto_writer_spec be) : typeclass_instances.

Local Abbreviation crypto := (CryptoStream.t E B BM).
Local Abbreviation world := (DataSenderReliable.world (E := E) (F := unit) (B := B)).
Local Abbreviation pn := (fun n => PacketNumber.from_varint n sp).
Local Abbreviation fend f := (Crypto.offset f + blen (Crypto.data f)).

(** ** One frame *)

(** Where the frame is refused, and why. *)
Definition frame_refused (s : crypto) (f : Crypto.t) (e : CryptoError) : Prop :=
  (e = PROTOCOL_VIOLATION /\ CryptoStream.is_finished s = true /\ total_received_len (CryptoStream.rx s) < fend f)
  \/ (e = CRYPTO_BUFFER_EXCEEDED /\ (MAX_VARINT_VALUE < fend f \/ consumed_len (CryptoStream.rx s) + MAX_CRYPTO_BUFFER_SIZE < fend f)).

(** What a receiver that nothing has ended yet holds. *)
Definition rx_ok (r : Reassembler BM) : Prop :=
  ra_ok r /\ final_offset (cursors r) = UNKNOWN_FINAL_SIZE
  /\ forall x, ra_get r x <> None -> start_offset (cursors r) <= x < start_offset (cursors r) + MAX_CRYPTO_BUFFER_SIZE.

Lemma ra_get_read r x : ra_ok r -> x < start_offset (cursors r) -> ra_get r x = None.
Proof.
  intros H Hx. destruct (took_nothing r H) as (_ & _ & _ & Hg). rewrite Hg. change (blen []) with 0. by rewrite (proj2 (Z.ltb_lt _ _)) by lia.
Qed.

Lemma on_crypto_frame_ok (s : crypto) f :
  rx_ok (CryptoStream.rx s) -> 0 <= Crypto.offset f -> (CryptoStream.is_finished s = true -> fend f <= MAX_VARINT_VALUE) ->
  returns (CryptoStream.on_crypto_frame alloc s f) (fun '(s', res) =>
    match res with
    | Err e => frame_refused s f e
    | Ok _ => exists r, s' = CryptoStream.set_rx s r /\ rx_ok r /\ start_offset (cursors r) = start_offset (cursors (CryptoStream.rx s))
        /\ forall x, ra_get r x = match ra_get (CryptoStream.rx s) x with
             | Some b => Some b
             | None => if x <? Z.max (start_offset (cursors r)) (Crypto.offset f) then None else Crypto.data f !! Z.to_nat (x - Crypto.offset f)
             end
    end).
Proof.
  intros (Hra & Hfin & Hbuf) Ho Hmax. unfold CryptoStream.on_crypto_frame. set (r0 := CryptoStream.rx s) in *. pose proof (blen_nonneg (Crypto.data f)) as Hl.
  assert (H1 : returns (if CryptoStream.is_finished s then let! end_ := VarInt.add_usize (Crypto.offset f) (blen (Crypto.data f)) in Ret (total_received_len r0 <? end_) else Ret false)
    (fun past => if past then CryptoStream.is_finished s = true /\ total_received_len r0 < fend f else True)).
  { destruct (CryptoStream.is_finished s) eqn:Ef; [| by apply returns_ret]. specialize (Hmax eq_refl).
    rewrite add_usize_spec by lia. rewrite (proj2 (Z.ltb_ge _ _) Hmax). cbn [obind]. apply returns_ret.
    destruct (Z.ltb_spec (total_received_len r0) (fend f)); auto. }
  destruct H1 as (past & -> & Hpast). cbn [obind]. destruct past; [apply returns_ret; by left |].
  rewrite checked_add_usize_spec by lia. destruct (Z.ltb_spec MAX_VARINT_VALUE (fend f)) as [Hbig | Hsm]; [apply returns_ret; right; auto |].
  destruct (Z.ltb_spec MAX_CRYPTO_BUFFER_SIZE (saturating_sub (fend f) (consumed_len r0))) as [Hex | Hin].
  { apply returns_ret. right. split; [done |]. right. unfold saturating_sub, MAX_CRYPTO_BUFFER_SIZE in *. fold r0. lia. }
  destruct (write_any_ok alloc r0 (Crypto.offset f) (Crypto.data f) false alloc_ok Hra Ho) as (r & Ew & Hr & Hst). cbn [write_any] in Ew. rewrite Ew. cbn [obind].
  apply returns_ret. unfold final_after, CursorsOps.final_size in Hst |- *. rewrite (proj2 (Z.ltb_ge _ _) Hsm), Hfin in Hst |- *. rewrite Z.eqb_refl in Hst |- *.
  destruct Hst as [Hcur Hget]. exists r. rewrite Hcur in *. cbn [start_offset] in *. split_and!; [done | | done | exact Hget].
  split; [done |]. rewrite Hcur. cbn [start_offset final_offset]. split; [done |]. intros x Hx. rewrite Hget in Hx.
  destruct (ra_get r0 x) eqn:Eg; [by apply Hbuf; rewrite Eg |]. destruct (Z.ltb_spec x (Z.max (start_offset (cursors r0)) (Crypto.offset f))); [done |].
  apply not_eq_None_Some in Hx as [b Hb]. apply lookup_lt_Some in Hb. unfold saturating_sub, consumed_len, blen in *. lia.
Qed.

(** Beyond the largest offset, a finished stream panics instead. *)
Lemma on_crypto_frame_overflow (s : crypto) f : CryptoStream.is_finished s = true -> 0 <= Crypto.offset f -> MAX_VARINT_VALUE < fend f ->
  CryptoStream.on_crypto_frame alloc s f = Panic.
Proof.
  intros Ef Ho Hbig. unfold CryptoStream.on_crypto_frame. pose proof (blen_nonneg (Crypto.data f)). rewrite Ef, add_usize_spec by lia.
  by rewrite (proj2 (Z.ltb_lt _ _) Hbig).
Qed.

(** ** Two endpoints *)

(** The sending and the receiving end, the data the session wrote and read, the
    frames that were sent, those that were acknowledged, those the receiver took,
    and the last packet number. *)
Record handshake := mk_handshake {
  near : crypto;
  far : crypto;
  written : list Z;
  read : list Z;
  sent_frames : list (Z * frame);
  confirmed : list (Z * frame);
  taken : list (Z * frame);
  newest : Z
}.

Inductive handshake_event :=
| Send (data : B)
| Packet (context : Writer) (n : Z)
| Acked (ack_set : AckSet) (a b : Z)
| Missing (ack_set : AckSet) (a b : Z)
| Retry
| SenderFinished
| Arrives (n : Z) (f : Crypto.t)
| Receive (max_len : option Z)
| ReceiverFinished.

Definition set_near (w : handshake) (s : crypto) : handshake :=
  mk_handshake s (far w) (written w) (read w) (sent_frames w) (confirmed w) (taken w) (newest w).
Definition set_far (w : handshake) (s : crypto) (more : list Z) (frames : list (Z * frame)) : handshake :=
  mk_handshake (near w) s (written w) (read w ++ more) (sent_frames w) (confirmed w) (taken w ++ frames) (newest w).

(** An error closes the connection. *)
Definition handshake_step (w : handshake) (ev : handshake_event) : outcome (result handshake CryptoError) :=
  match ev with
  | Send data =>
      let! s := CryptoStream.send_handshake be (near w) data in
      Ret (Ok (mk_handshake s (far w) (written w ++ bytes_slice data) (read w) (sent_frames w) (confirmed w) (taken w) (newest w)))
  | Packet context n =>
      let! '(s, fs) := CryptoStream.on_transmit be capacity (near w) context in
      Ret (Ok (mk_handshake s (far w) (written w) (read w) (sent_frames w ++ ((fun f => (n, f)) <$> fs)) (confirmed w) (taken w) n))
  | Acked set a b =>
      let! s := CryptoStream.on_packet_ack be (near w) set in
      Ret (Ok (mk_handshake s (far w) (written w) (read w) (sent_frames w)
        (confirmed w ++ filter (fun p => Is_true (DataSenderReliable.within a b p)) (sent_frames w)) (taken w) (newest w)))
  | Missing set a b => let! s := CryptoStream.on_packet_loss be (near w) set in Ret (Ok (set_near w s))
  | Retry => let! s := CryptoStream.on_retry_packet be (near w) in Ret (Ok (set_near w s))
  | SenderFinished =>
      let! '(s, res) := CryptoStream.finish be (near w) in
      Ret (match res with Ok _ => Ok (set_near w s) | Err e => Err e end)
  | Arrives n f =>
      let! '(s, res) := CryptoStream.on_crypto_frame alloc (far w) f in
      Ret (match res with Ok _ => Ok (set_far w s [] [(n, Frame.Crypto f)]) | Err e => Err e end)
  | Receive max_len =>
      let! '(bytes, s) := CryptoStream.receive_handshake (far w) max_len in
      Ret (Ok (set_far w s (match bytes with Some c => b_as_slice c | None => [] end) []))
  | ReceiverFinished =>
      let! '(s, res) := CryptoStream.finish be (far w) in
      Ret (match res with Ok _ => Ok (set_far w s [] []) | Err e => Err e end)
  end.
Fixpoint handshake_run (w : handshake) (evs : list handshake_event) : outcome (result handshake CryptoError) :=
  match evs with
  | [] => Ret (Ok w)
  | ev :: evs => let! res := handshake_step w ev in match res with Ok w => handshake_run w evs | Err e => Ret (Err e) end
  end.

(** The session sends when it can; the receiver gets frames that were sent, and
    acknowledges packets with frames it took. *)
Definition handshake_possible (w : handshake) (ev : handshake_event) : Prop :=
  match ev with
  | Send data => CryptoStream.can_send (near w) = true /\ chunk_len data <= umax 32 /\ blen (written w) + chunk_len data <= VarInt.MAX
  | Packet context n => writer_ok context /\ varint_ok n /\ packet_number context = pn n /\ newest w <= n
  | Acked set a b => ack_set_ok sp set a b /\ forall p, p ∈ sent_frames w -> DataSenderReliable.within a b p = true -> p ∈ taken w
  | Missing set a b => ack_set_ok sp set a b
  | Retry => Set_.is_empty (DataSender.transmissions (CryptoStream.tx (near w))) = false
  | Arrives n f => (n, Frame.Crypto f) ∈ sent_frames w
  | Receive max_len => forall n, max_len = Some n -> 0 <= n
  | SenderFinished | ReceiverFinished => True
  end.
Fixpoint handshake_possible_run (w : handshake) (evs : list handshake_event) : Prop :=
  match evs with
  | [] => True
  | ev :: evs => handshake_possible w ev /\ forall w', handshake_step w ev = Ret (Ok w') -> handshake_possible_run w' evs
  end.
Definition handshake_start : handshake := mk_handshake (CryptoStream.new capacity) (CryptoStream.new capacity) [] [] [] [] [] 0.

(** ** The invariant *)

Definition view (w : handshake) : world := mk_world (CryptoStream.tx (near w)) (written w) (sent_frames w) (confirmed w) (newest w).

Record handshake_ok (w : handshake) : Prop := {
  ho_sender : exists A, world_ok sp tt (view w) A;
  ho_sending : CryptoStream.is_finished (near w) = false -> DataSender.state (CryptoStream.tx (near w)) = SenderState.Sending;
  ho_alive : is_cancelled (DataSender.state (CryptoStream.tx (near w))) = false;
  ho_unused : CryptoStream.rx (near w) = ra_default;
  ho_peer : exists d, DataSender.finish (CryptoStream.tx (far w)) = Ret d;
  ho_receiver : rx_ok (CryptoStream.rx (far w));
  ho_read : start_offset (cursors (CryptoStream.rx (far w))) = blen (read w) /\ read w `prefix_of` written w;
  ho_content x b : ra_get (CryptoStream.rx (far w)) x = Some b -> written w !! Z.to_nat x = Some b;
  ho_taken m f x : (m, Frame.Crypto f) ∈ taken w -> Crypto.offset f <= x < fend f ->
    x < blen (read w) \/ ra_get (CryptoStream.rx (far w)) x <> None;
  ho_confirmed p : p ∈ confirmed w -> p ∈ taken w
}.

(** ** The sending end *)

Local Abbreviation st d := (DataSender.state d).
Local Abbreviation sender := (DataSender.t (E := E) (F := unit) (B := B)).

(** The state of the sender moves on only when it is finished. *)
Definition onward (d d' : sender) : Prop := st d' = st d \/ (SenderState.is_finishing (st d) = true /\ is_cancelled (st d') = false).

Lemma push_onward (d : sender) x d' : DataSender.push d x = Ret d' -> onward d d'.
Proof. unfold DataSender.push. intros H. left. ret_inv H. destruct (chunk_len x =? 0); ret_inv H; by simplify_eq. Qed.
Lemma ack_onward (d : sender) s d' : DataSender.on_packet_ack d s = Ret d' -> onward d d'.
Proof.
  unfold DataSender.on_packet_ack, onward. change WRITES_FIN with false. intros H. ret_inv H. simplify_eq.
  destruct (st d) as [| fin | | e] eqn:Est; simplify_eq; cbn; auto. right. split; [done |].
  match goal with E : (match fin with _ => _ end) = Ret d' |- _ => destruct fin; simplify_eq; cbn; try done; destruct (DataSender.is_idle _); ret_inv E; by simplify_eq end.
Qed.
Lemma loss_onward (d : sender) s d' : DataSender.on_packet_loss d s = Ret d' -> onward d d'.
Proof. unfold DataSender.on_packet_loss, onward. change WRITES_FIN with false. intros H. ret_inv H. simplify_eq. by left. Qed.

Lemma near_keeps w s' written' sent' confirmed' newest' :
  handshake_ok w -> (exists A, world_ok sp tt (mk_world (CryptoStream.tx s') written' sent' confirmed' newest') A) ->
  onward (CryptoStream.tx (near w)) (CryptoStream.tx s') -> CryptoStream.is_finished s' = CryptoStream.is_finished (near w) -> CryptoStream.rx s' = CryptoStream.rx (near w) ->
  written w `prefix_of` written' -> (forall p, p ∈ confirmed' -> p ∈ taken w) ->
  handshake_ok (mk_handshake s' (far w) written' (read w) sent' confirmed' (taken w) newest').
Proof.
  intros [] HA Ho Ef Er Hp Hc. split; cbn [near far written read sent_frames confirmed taken newest view]; try done.
  - rewrite Ef. intros Hf. specialize (ho_sending0 Hf). destruct Ho as [-> | [Hfin _]]; [done |]. by rewrite ho_sending0 in Hfin.
  - destruct Ho as [-> | [_ ?]]; done.
  - by rewrite Er.
  - split; [apply ho_read0 |]. etransitivity; [apply ho_read0 | done].
  - intros x b Hx. destruct Hp as [more ->]. apply lookup_app_l_Some. by apply ho_content0.
Qed.

Lemma near_exec w ev : handshake_ok w -> valid sp ev (view w) ->
  returns (exec capacity tt ev (view w)) (fun W' => exists A', world_ok sp tt W' A').
Proof.
  intros H Hv. destruct (ho_sender _ H) as [A HA].
  assert (Hc : context_ok (ChunkWriterSpec := crypto_writer_spec be) tt) by exact I.
  eapply returns_mono; [apply (world_exec_ok capacity sp tt capacity_ok Hc ev (view w) A HA Hv) |].
  intros W' HW. destruct ev; apply HW.
Qed.

(** What becomes of an event: the invariant, or an error with its reason. *)
Definition handshake_refused (w : handshake) (ev : handshake_event) (e : CryptoError) : Prop :=
  match ev with
  | Arrives _ f => frame_refused (far w) f e
  | ReceiverFinished => e = PROTOCOL_VIOLATION /\ ra_is_empty (CryptoStream.rx (far w)) = false
  | _ => False
  end.
Definition handshake_outcome (w : handshake) (ev : handshake_event) (res : result handshake CryptoError) : Prop :=
  match res with Ok w' => handshake_ok w' | Err e => handshake_refused w ev e end.

Lemma send_step w data : handshake_ok w -> handshake_possible w (Send data) ->
  returns (handshake_step w (Send data)) (handshake_outcome w (Send data)).
Proof.
  intros H (Hcan & Hl & Hm). apply andb_true_iff in Hcan as [Hfin%negb_true_iff _].
  destruct (near_exec w (Push data) H) as (W' & E0 & HW).
  { cbn. by rewrite (ho_sending _ H Hfin). }
  unfold exec, view in E0. ret_inv E0. injection E0 as <-. cbn [handshake_step]. unfold CryptoStream.send_handshake, CryptoStream.the_writer. rewrite E1. cbn [obind].
  apply returns_ret. apply (near_keeps w); try done; [by eapply push_onward | by eexists | by apply (ho_confirmed _ H)].
Qed.

Lemma packet_step w context n : handshake_ok w -> handshake_possible w (Packet context n) ->
  returns (handshake_step w (Packet context n)) (handshake_outcome w (Packet context n)).
Proof.
  intros H Hv. destruct (near_exec w (Transmit context n) H Hv) as (W' & E0 & HW).
  assert (Hc : context_ok (ChunkWriterSpec := crypto_writer_spec be) tt) by exact I. destruct (ho_sender _ H) as [A HA].
  destruct (transmit_keeps capacity sp tt capacity_ok Hc (view w) A context n HA Hv) as ([[res d'] fs] & E1 & _ & _ & Hst).
  unfold exec, view in E0. cbn [DataSenderReliable.sender view] in E1, Hst. rewrite E1 in E0. cbn [obind] in E0. injection E0 as <-.
  cbn [handshake_step]. unfold CryptoStream.on_transmit, CryptoStream.the_writer. rewrite E1. cbn [obind].
  apply returns_ret. apply (near_keeps w); try done; [| by apply (ho_confirmed _ H)].
  unfold onward. cbn [CryptoStream.set_tx CryptoStream.tx]. destruct (st (CryptoStream.tx (near w))) eqn:Est.
  - by left.
  - right. destruct Hst as [fin' ->]. done.
  - left. by destruct Hst as [-> _].
  - left. by destruct Hst as [-> _].
Qed.

Lemma acked_step w set a b : handshake_ok w -> handshake_possible w (Acked set a b) ->
  returns (handshake_step w (Acked set a b)) (handshake_outcome w (Acked set a b)).
Proof.
  intros H [Hv Ht]. destruct (near_exec w (Ack set a b) H Hv) as (W' & E0 & HW).
  unfold exec, view in E0. ret_inv E0. injection E0 as <-. cbn [handshake_step]. unfold CryptoStream.on_packet_ack, CryptoStream.the_writer. rewrite E1. cbn [obind].
  apply returns_ret. apply (near_keeps w); try done; [by eapply ack_onward |].
  intros p [Hp | [Hp1 Hp2]%list_elem_of_filter]%elem_of_app; [by apply (ho_confirmed _ H) | apply Ht; [done | by apply Is_true_true]].
Qed.

Lemma missing_step w set a b : handshake_ok w -> handshake_possible w (Missing set a b) ->
  returns (handshake_step w (Missing set a b)) (handshake_outcome w (Missing set a b)).
Proof.
  intros H Hv. destruct (near_exec w (Loss set a b) H Hv) as (W' & E0 & HW).
  unfold exec, view in E0. ret_inv E0. injection E0 as <-. cbn [handshake_step]. unfold CryptoStream.on_packet_loss, CryptoStream.the_writer. rewrite E1. cbn [obind].
  apply returns_ret. apply (near_keeps w); try done; [by eapply loss_onward | by apply (ho_confirmed _ H)].
Qed.

Lemma retry_step w : handshake_ok w -> handshake_possible w Retry ->
  returns (handshake_step w Retry) (handshake_outcome w Retry).
Proof.
  intros H Hv. destruct (near_exec w AllLost H) as (W' & E0 & HW); [by split |].
  unfold exec, view in E0. ret_inv E0. injection E0 as <-. cbn [handshake_step]. unfold CryptoStream.on_retry_packet, CryptoStream.the_writer. rewrite E1. cbn [obind].
  apply returns_ret. apply (near_keeps w); try done; [| by apply (ho_confirmed _ H)].
  unfold DataSender.on_all_lost in E1. ret_inv E1. by eapply loss_onward.
Qed.

Lemma finish_state (d d' : sender) : DataSender.finish d = Ret d' ->
  is_cancelled (st d') = is_cancelled (st d) /\ exists d'', DataSender.finish d' = Ret d''.
Proof.
  unfold DataSender.finish. change WRITES_FIN with false. destruct (st d) eqn:Est; cbn [SenderState.is_sending negb]; intros H;
    try (injection H as <-; rewrite Est; by split; [| eexists]).
  ret_inv H. injection H as <-. by split; [| eexists].
Qed.

Lemma sender_finished_step w : handshake_ok w -> returns (handshake_step w SenderFinished) (handshake_outcome w SenderFinished).
Proof.
  intros H. destruct (near_exec w Finish H) as (W' & E0 & HW); [done |].
  unfold exec, view in E0. ret_inv E0. injection E0 as <-. cbn [handshake_step]. unfold CryptoStream.finish, CryptoStream.the_writer. rewrite E1. cbn [obind].
  rewrite (ho_unused _ H). apply returns_ret. cbn [ra_is_empty ra_default slots handshake_outcome]. apply finish_state in E1 as [Hcan _].
  destruct H. split; cbn [set_near near far written read sent_frames confirmed taken newest view CryptoStream.tx CryptoStream.rx CryptoStream.is_finished]; try done.
  by rewrite Hcan.
Qed.

(** ** The receiving end *)

Lemma sent_part w n f : handshake_ok w -> (n, Frame.Crypto f) ∈ sent_frames w ->
  exists len, Crypto.data f = slice (written w) (Crypto.offset f) len /\ 0 <= Crypto.offset f /\ 0 <= len
    /\ Crypto.offset f + len <= blen (written w) /\ blen (written w) <= MAX_VARINT_VALUE.
Proof.
  intros H Hf. destruct (ho_sender _ H) as [A HA]. destruct (wo_sent _ _ _ _ HA n _ Hf) as [_ (a & len & fin & Hc & _ & Ha & Hlen & He & _)].
  cbn in Hc. injection Hc as ->. exists len. pose proof (wo_stream _ _ _ _ HA) as Hm. cbn in Hm, He |- *. split_and!; try done; lia.
Qed.

Lemma far_data x d off so len D b :
  d = slice D off len -> 0 <= off -> 0 <= len -> off + len <= blen D ->
  (if x <? Z.max so off then None else d !! Z.to_nat (x - off)) = Some b -> D !! Z.to_nat x = Some b.
Proof.
  intros -> Ho Hlen He. destruct (Z.ltb_spec x (Z.max so off)); [done |]. intros Hl. pose proof (lookup_lt_Some _ _ _ Hl) as Hlt.
  pose proof (blen_slice D off len Ho Hlen He) as Hb. unfold blen in Hb. rewrite slice_byte in Hl by (unfold blen in *; lia). done.
Qed.

Lemma arrives_step w n f : handshake_ok w -> handshake_possible w (Arrives n f) ->
  returns (handshake_step w (Arrives n f)) (handshake_outcome w (Arrives n f)).
Proof.
  intros H Hf. destruct (sent_part w n f H Hf) as (len & Hd & Ho & Hlen & He & Hm).
  assert (Hfe : blen (Crypto.data f) = len) by (rewrite Hd; by apply blen_slice).
  cbn [handshake_step]. destruct (on_crypto_frame_ok (far w) f (ho_receiver _ H) Ho ltac:(lia)) as ([s' res] & -> & Hres). cbn [obind].
  apply returns_ret. destruct res as [u | e]; [| exact Hres]. destruct Hres as (r & -> & Hr & Hso & Hget). cbn [handshake_outcome].
  assert (Hold : forall x, ra_get (CryptoStream.rx (far w)) x <> None -> ra_get r x <> None).
  { intros x Hx. rewrite Hget. by destruct (ra_get (CryptoStream.rx (far w)) x). }
  destruct H. split; cbn [set_far near far written read sent_frames confirmed taken newest view CryptoStream.set_rx CryptoStream.tx CryptoStream.rx]; rewrite ?app_nil_r; try done.
  - rewrite Hso. exact ho_read0.
  - intros x b. rewrite Hget. destruct (ra_get (CryptoStream.rx (far w)) x) eqn:Eg; [intros [= <-]; by apply ho_content0 | by eapply far_data].
  - intros m g x [Hg | [= -> ->]%list_elem_of_singleton]%elem_of_app Hx.
    + destruct (ho_taken0 m g x Hg Hx); [by left | right; by apply Hold].
    + destruct (Z.lt_ge_cases x (blen (read w))); [by left | right]. destruct (ra_get (CryptoStream.rx (far w)) x) eqn:Eg; [apply Hold; by rewrite Eg |].
      rewrite Hget, Eg, (proj2 (Z.ltb_ge _ _)) by (destruct ho_read0; lia). apply lookup_lt_is_Some_2 || apply not_eq_None_Some, lookup_lt_is_Some_2. unfold blen in *. lia.
  - intros p Hp. apply elem_of_app. left. by apply ho_confirmed0.
Qed.

Lemma receive_step w max_len : handshake_ok w -> handshake_possible w (Receive max_len) ->
  returns (handshake_step w (Receive max_len)) (handshake_outcome w (Receive max_len)).
Proof.
  intros H Hv. cbn [handshake_step]. unfold CryptoStream.receive_handshake.
  assert (Hw : 0 <= match max_len with Some n => n | None => umax 64 end) by (destruct max_len; [by apply Hv | done]).
  destruct (ho_receiver _ H) as (Hra & Hfin & Hbuf). destruct (pop_ok _ _ Hra Hw) as ([chunk r] & -> & Hpop). cbn [obind]. apply returns_ret.
  set (bs := match chunk with Some c => b_as_slice c | None => [] end).
  assert (Ht : took (CryptoStream.rx (far w)) bs r) by (subst bs; destruct chunk; apply Hpop).
  pose proof Ht as (Hr & Hcur & Hbs & Hget). pose proof (ho_read _ H) as [Hso Hpre]. pose proof (blen_nonneg bs) as Hb0.
  pose proof (took_prefix _ _ _ _ _ Hpre Hso (ho_content _ H) Ht) as Hpre'. clearbody bs. clear Hpop.
  destruct H. cbn [handshake_outcome]. split; cbn [set_far near far written read sent_frames confirmed taken newest view CryptoStream.set_rx CryptoStream.tx CryptoStream.rx]; rewrite ?app_nil_r; try done.
  - split; [done |]. rewrite Hcur. cbn [start_offset final_offset]. split; [done |]. intros x Hx. rewrite Hget in Hx.
    destruct (Z.ltb_spec x (start_offset (cursors (CryptoStream.rx (far w))) + blen bs)); [done |]. specialize (Hbuf x Hx). lia.
  - rewrite Hcur. cbn [start_offset]. rewrite blen_app. split; [lia | done].
  - intros x b. rewrite Hget. destruct (_ <? _); [done | apply ho_content0].
  - intros m f x Hf Hx. rewrite blen_app, Hget. destruct (Z.ltb_spec x (start_offset (cursors (CryptoStream.rx (far w))) + blen bs)); [left; lia |].
    destruct (ho_taken0 m f x Hf Hx); [left; lia | by right].
Qed.

Lemma receiver_finished_step w : handshake_ok w -> returns (handshake_step w ReceiverFinished) (handshake_outcome w ReceiverFinished).
Proof.
  intros H. cbn [handshake_step]. unfold CryptoStream.finish, CryptoStream.the_writer. destruct (ho_peer _ H) as [d Hd]. rewrite Hd. cbn [obind CryptoStream.rx]. apply returns_ret.
  destruct (ra_is_empty (CryptoStream.rx (far w))) eqn:Ee; cbn [handshake_outcome handshake_refused]; [| done].
  apply finish_state in Hd as [_ Hd]. unfold set_far. rewrite !app_nil_r. destruct H.
  split; cbn [near far written read sent_frames confirmed taken newest view CryptoStream.tx CryptoStream.rx]; done.
Qed.

Lemma handshake_step_ok w ev : handshake_ok w -> handshake_possible w ev -> returns (handshake_step w ev) (handshake_outcome w ev).
Proof.
  intros H Hv. destruct ev.
  - by apply send_step.
  - by apply packet_step.
  - by apply acked_step.
  - by apply missing_step.
  - by apply retry_step.
  - by apply sender_finished_step.
  - by apply arrives_step.
  - by apply receive_step.
  - by apply receiver_finished_step.
Qed.

Lemma start_handshake_ok : handshake_ok handshake_start.
Proof.
  assert (Hf : flow_ok (FlowControllerSpec := crypto_flow_spec) tt) by exact I.
  destruct (new_sender_ok capacity sp capacity_ok (E := E) tt TX_MAX_BUFFER_CAPACITY Hf) as [Hs _].
  destruct (finish_ok capacity sp capacity_ok _ _ _ _ Hs) as (d & Hd & _).
  split; cbn [handshake_start near far written read sent_frames confirmed taken newest view CryptoStream.new CryptoStream.tx CryptoStream.rx CryptoStream.is_finished]; try done;
    try (by intros ? ? ? ?%not_elem_of_nil); try (by intros ? ?%not_elem_of_nil).
  - exists ∅. by apply (start_ok capacity sp tt capacity_ok).
  - by exists d.
  - split; [apply ra_new_ok | done].
Qed.

(** Where a run stops with an error. *)
Definition stopped_at (w0 : handshake) (evs : list handshake_event) (e : CryptoError) : Prop :=
  exists before ev rest w, evs = before ++ ev :: rest /\ handshake_run w0 before = Ret (Ok w) /\ handshake_refused w ev e.

Lemma handshake_run_ok evs : forall w, handshake_ok w -> handshake_possible_run w evs ->
  returns (handshake_run w evs) (fun res => match res with Ok w' => handshake_ok w' | Err e => stopped_at w evs e end).
Proof.
  induction evs as [| ev evs IH]; intros w H Hv; [by apply returns_ret |]. destruct Hv as [Hv Hrest]. cbn [handshake_run].
  destruct (handshake_step_ok w ev H Hv) as (res & E1 & Hres). rewrite E1. cbn [obind]. destruct res as [w' | e].
  - eapply returns_mono; [apply IH; [exact Hres | by apply Hrest] |]. intros [w'' | e]; [done |].
    intros (before & ev' & rest & w'' & -> & Hrun & Href). exists (ev :: before), ev', rest, w''. cbn [handshake_run app]. by rewrite E1.
  - apply returns_ret. by exists [], ev, evs, w.
Qed.

(** Once nothing is left to send, every byte is with the receiver. *)
Lemma all_there w x : handshake_ok w -> (forall y, ~ offsets (DataSender.pending (CryptoStream.tx (near w))) y) -> 0 <= x < blen (written w) ->
  x < blen (read w) \/ ra_get (CryptoStream.rx (far w)) x <> None.
Proof.
  intros H Hno Hx. destruct (ho_sender _ H) as [A HA]. destruct (wo_bytes _ _ _ _ HA x (ho_alive _ H) Hx) as [Hp | Hc]; [by destruct (Hno x) |].
  destruct Hc as (m & f & a & len & fin & Hm & Hcar & Ha & Hax & He). cbn in Hcar. subst f. cbn in He.
  eapply (ho_taken _ H m); [by apply (ho_confirmed _ H) |]. cbn [Crypto.offset Crypto.data]. rewrite blen_slice by lia. lia.
Qed.

Lemma receive_more w x : handshake_ok w -> x = blen (read w) -> ra_get (CryptoStream.rx (far w)) x <> None ->
  exists w', handshake_step w (Receive None) = Ret (Ok w') /\ blen (read w) < blen (read w').
Proof.
  intros H -> Hx. destruct (ho_receiver _ H) as (Hra & _). pose proof (ho_read _ H) as [Hso _].
  cbn [handshake_step]. unfold CryptoStream.receive_handshake. destruct (pop_ok _ (umax 64) Hra ltac:(done)) as ([chunk r] & -> & Hpop). cbn [obind].
  destruct chunk as [c |]; [| destruct Hpop as [_ [? | Hn]]; [done | by rewrite Hso in Hn]].
  eexists. split; [reflexivity |]. cbn [set_far read]. rewrite blen_app. destruct Hpop as (_ & <- & ?). lia.
Qed.

(** What the two ends of the handshake have of each other. *)
Record delivers (w : handshake) : Prop := {
  dl_read : read w `prefix_of` written w;
  dl_held x b : ra_get (CryptoStream.rx (far w)) x = Some b ->
    blen (read w) <= x < blen (read w) + MAX_CRYPTO_BUFFER_SIZE /\ written w !! Z.to_nat x = Some b;
  dl_more : (forall y, ~ offsets (DataSender.pending (CryptoStream.tx (near w))) y) -> blen (read w) < blen (written w) ->
    exists w', handshake_step w (Receive None) = Ret (Ok w') /\ blen (read w) < blen (read w')
}.

(** C6: handshake data crosses a network that loses, repeats and reorders packets:
    neither end panics, whatever is sent, lost, acknowledged or read.  What the
    receiver reads is a prefix of what the sender wrote; it holds no more than
    128 KiB past what was read, all of it the sender's; and once nothing is left to
    send, reading goes on until everything is read.  The connection is closed with
    an error only when a frame reaches past the 128 KiB or, after the handshake has
    ended, past what was received, or when the handshake ends with data unread. *)
Theorem crypto_stream_transfer evs :
  handshake_possible_run handshake_start evs ->
  returns (handshake_run handshake_start evs) (fun res =>
    match res with Ok w => delivers w | Err e => stopped_at handshake_start evs e end).
Proof.
  intros Hv. eapply returns_mono; [apply (handshake_run_ok evs handshake_start start_handshake_ok Hv) |]. intros [w | e]; [| done].
  intros H. split.
  - apply (ho_read _ H).
  - intros x b Hx. split; [| by apply (ho_content _ H)]. destruct (ho_receiver _ H) as (_ & _ & Hb). destruct (ho_read _ H) as [<- _].
    apply Hb. by rewrite Hx.
  - intros Hno Hlt. apply (receive_more w (blen (read w))); [done | done |].
    destruct (all_there w (blen (read w)) H Hno) as [? | ?]; [pose proof (blen_nonneg (read w)); lia | lia | done].
Qed.
End Transfer.

(** ** A handshake over a bad network *)

Local Abbreviation the_handshake := (handshake (E := unit) (B := list Z) (BM := Plain.t)).
Local Abbreviation the_event := (handshake_event (B := list Z)).
Local Abbreviation the_step := (handshake_step (E := unit) true (fun n => n) Plain.with_capacity).
Local Abbreviation the_possible_run := (handshake_possible_run (E := unit) true (fun n => n) Plain.with_capacity Handshake).

Definition hello : Crypto.t := Crypto.mk 0 [1; 2; 3].
Definition finished_message : Crypto.t := Crypto.mk 3 [4; 5].
(** The second packet arrives first, the first one is lost and sent again. *)
Definition sample_handshake : list the_event :=
  [Send [1; 2; 3]; Packet (packet_writer Handshake 0) 0; Send [4; 5]; Packet (packet_writer Handshake 1) 1;
   Arrives 1 finished_message; Receive None; Missing (packet_number_set (PacketNumber.from_varint 0 Handshake)) 0 0;
   Packet (packet_writer Handshake 2) 2; Arrives 2 hello; Arrives 2 hello; Receive (Some 2);
   Acked (range_set (range Handshake 1 2)) 1 2; SenderFinished; Receive None; ReceiverFinished].

Lemma sample_handshake_step (ev : the_event) evs (w w' : the_handshake) :
  handshake_possible Handshake w ev -> the_step w ev = Ret (Ok w') -> the_possible_run w' evs -> the_possible_run w (ev :: evs).
Proof. intros Hv HW Hrest. split; [done |]. intros w0 Hw0. by assert (w0 = w') as -> by congruence. Qed.

Ltac in_list := vm_compute; repeat (first [apply list_elem_of_here | apply list_elem_of_further]).
Ltac possible_event :=
  lazymatch goal with
  | |- handshake_possible _ _ (Packet _ _) => split_and!; [apply packet_writer_ok | by vm_compute | reflexivity | by vm_compute]
  | |- handshake_possible _ _ (Send _) => split_and!; by vm_compute
  | |- handshake_possible _ _ (Missing _ _ _) => apply packet_number_set_ok; by vm_compute
  | |- handshake_possible _ _ (Acked _ _ _) =>
      split; [apply range_set_ok; by vm_compute |]; cbn [sent_frames];
      let Hp := fresh "Hp" in intros ? Hp Hw; repeat (apply elem_of_cons in Hp as [-> | Hp]; [first [discriminate Hw | in_list] |]); by apply not_elem_of_nil in Hp
  | |- handshake_possible _ _ (Arrives _ _) => in_list
  | |- handshake_possible _ _ (Receive _) => intros ? [= <-]; by vm_compute
  | |- _ => exact I
  end.
Ltac next_handshake := eapply sample_handshake_step; [possible_event | vm_compute; reflexivity |].

Lemma crypto_stream_transfer_witness :
  exists w, handshake_run (E := unit) true (fun n => n) Plain.with_capacity (handshake_start (fun n => n)) sample_handshake = Ret (Ok w)
    /\ read w = [1; 2; 3; 4; 5] /\ read w `prefix_of` written w.
Proof.
  assert (Hp : the_possible_run (handshake_start (fun n => n)) sample_handshake).
  { unfold sample_handshake. do 15 next_handshake. exact I. }
  destruct (crypto_stream_transfer (E := unit) true (fun n => n) Plain.with_capacity Handshake ltac:(intros; lia) Plain.with_capacity_exact
    sample_handshake Hp) as (res & E1 & Hres).
  pose proof E1 as E2. vm_compute in E2. injection E2 as <-. eexists. split; [exact E1 |]. split; [reflexivity |]. apply Hres.
Defined.
