(* ===== verification/StreamTransfer.v ===== *)
(** * What a receiver makes of the frames of a sender

    The frames of a sender are parts of its stream, within the limits of the
    receiver, and the receiver takes them. *)
From stdpp Require Import gmap sets list.
From S2P Require Import Prelude Codec VarInt PacketNumber MapInterface PacketMap PacketMapThm Interval IntervalInsert IntervalSet VarIntSet FrameAck Frames FrameCodec Time Transmission TransmissionContext Recovery Sync FlowControl FlowControlThm SendBuffer SendBufferThm Transmissions TransmissionsThm DataSender DataWriter TransmitThm DataSenderThm DataSenderTransmit DataSenderReliable StreamFlow StreamFlowThm ReassemblerSlot Reassembler ReassemblerSpec ReassemblerWrite ReassemblerOps ReassemblerRead ReassemblerThm SendStreams StreamOps ReceiveStream ReceiveFlowThm ReceiveStreamThm ReceiveStreams ReceiveContent.

(** Sums over two maps with the same keys. *)
Lemma total_le_maps {A A'} (m : gmap Z A) g h : forall m' : gmap Z A',
  (forall id, option_Forall2 (fun x y => g x <= h y) (m !! id) (m' !! id)) -> total m g <= total m' h.
Proof.
  induction m as [| id x m Hid IH] using map_ind; intros m' H.
  - assert (m' = ∅) as ->; [| done]. apply map_empty. intros id. specialize (H id). rewrite lookup_empty in H. by inversion H.
  - pose proof (H id) as Hx. rewrite lookup_insert_eq in Hx. inversion Hx as [? y Hxy E1 E2 |]; subst. symmetry in E2.
    rewrite total_insert by done. rewrite (total_delete m' h id y E2). enough (total m g <= total (delete id m') h) by lia.
    apply IH. intros id'. destruct (decide (id' = id)) as [-> | Hne]; [rewrite Hid, lookup_delete_eq; constructor |].
    specialize (H id'). by rewrite lookup_insert_ne, lookup_delete_ne in * by done.
Qed.

Section Transfer.
Context {E CE B BM : Type} `{HB : Bytes B, !BytesSpec B} {HM : BytesMut BM} {HMS : BytesMutSpec BM}.
Context (be : bool) (capacity : Z -> Z) (alloc : Z -> Z -> BM).

#[local] Existing Instance stream_flow_controller.
#[local] Existing Instance stream_flow_spec.
#[local] Hint Extern 0 (ChunkWriter Z B) => exact (the_writer be) : typeclass_instances.
#[local] Hint Extern 0 (ChunkWriterSpec Z B) => exact (the_writer_spec be) : typeclass_instances.

Local Abbreviation world := (DataSenderReliable.world (E := E) (F := StreamFlow.t) (B := B)).
Local Abbreviation connection := (SendStreams.connection (E := E) (B := B)).
Local Abbreviation input := (SendStreams.input (E := E) (B := B)).
Local Abbreviation receiver := (ReceiveStreams.receiver (CE := CE) (B := BM)).
Local Abbreviation endpoint := (ReceiveStreams.endpoint (CE := CE) (B := BM)).
Local Abbreviation arrival := (ReceiveStreams.arrival (CE := CE)).
Local Abbreviation rflow r := (ReceiveStream.flow_controller (rstream r)).
Local Abbreviation rstate r := (ReceiveStream.state (rstream r)).
Local Abbreviation rbuf r := (ReceiveStream.receive_buffer (rstream r)).
Local Abbreviation in_limit K := (IncrementalValueSync.latest_value (Incoming.read_window_sync (incoming K))).

(** ** The sender of a stream only adds to it *)

(** A packet with the end of the stream was sent. *)
Definition fin_sent (W : world) : Prop := exists m s, (m, Frame.Stream s) ∈ sent W /\ Stream.is_fin s = true.

Definition grows (i : input) (id : Z) (W W' : world) : Prop :=
  stream W `prefix_of` stream W' /\ sent W ⊆ sent W'
  /\ forall p, p ∈ delivered W' -> p ∈ delivered W
       \/ exists set a b, i = OnStream id (Ack set a b) /\ p ∈ sent W /\ a <= p.1 <= b.

Lemma grows_refl i id W : grows i id W W.
Proof. split_and!; [done | done | auto]. Qed.

Lemma exec_grows id ev (W W' : world) : exec capacity id ev W = Ret W' -> grows (OnStream id ev) id W W'.
Proof.
  destruct W as [self D L Ld n]. unfold exec, grows.
  destruct ev; intros Eq; repeat obind_inv; repeat case_match; simplify_eq; cbn [stream sent delivered];
    split_and!; try done; auto.
  - by eexists.
  - intros p Hp. apply elem_of_app. by left.
  - intros p [Hp | Hp]%elem_of_app; [by left | right]. apply list_elem_of_filter in Hp as [Hw Hp]. exists ack_set, a, b. split_and!; try done.
    all: unfold within in Hw; apply Is_true_true, andb_true_iff in Hw as [?%Z.leb_le ?%Z.leb_le]; lia.
Qed.

Definition opens (i : input) : bool := match i with OpenStream _ _ _ => true | _ => false end.

Lemma put_grows i (K : connection) id W W' o :
  streams K !! id = Some W -> grows i id W W' ->
  forall id', option_Forall2 (grows i id') (streams K !! id') (streams (mk_connection o (<[id:=W']> (streams K))) !! id').
Proof.
  intros EW Hg id'. cbn. destruct (decide (id' = id)) as [-> | Hne]; [rewrite EW, lookup_insert_eq; by constructor |].
  rewrite lookup_insert_ne by done. destruct (streams K !! id'); constructor. apply grows_refl.
Qed.

Lemma step_grows i (K K' : connection) : step be capacity i K = Ret K' -> opens i = false ->
  forall id, option_Forall2 (grows i id) (streams K !! id) (streams K' !! id).
Proof.
  assert (Hsame : forall i id, option_Forall2 (grows i id) (streams K !! id) (streams K !! id)).
  { intros j id. destruct (streams K !! id); constructor. apply grows_refl. }
  destruct i as [| id ev | v | id v | id]; intros Hs Ho; try done; cbn [step] in Hs.
  - destruct (streams K !! id) as [W |] eqn:EW; [| injection Hs as <-; auto].
    obind_inv. injection Hs as <-. apply (put_grows _ K id W); [done |]. by eapply exec_grows in E0.
  - obind_inv. injection Hs as <-. auto.
  - destruct (streams K !! id) as [W |] eqn:EW; injection Hs as <-; [| auto]. apply (put_grows _ K id W); [done |]. split_and!; cbn; auto.
  - destruct (streams K !! id) as [W |] eqn:EW; [| injection Hs as <-; auto].
    obind_inv. injection Hs as <-. apply (put_grows _ K id W); [done |]. split_and!; cbn; auto.
Qed.

(** ** The frames of a sender are honest *)

Local Abbreviation sender_world_ok id W A := (world_ok ApplicationData (id : Z) (W : world) A).

Lemma sent_end_nonneg (W : world) : 0 <= sent_end W.
Proof. unfold sent_end. induction (sent W); cbn; lia. Qed.
Lemma sent_end_ge (W : world) m f : (m, f) ∈ sent W -> frame_end f <= sent_end W.
Proof.
  unfold sent_end. induction (sent W) as [| [m' f'] L IH]; [by intros ?%not_elem_of_nil |].
  intros [E' | H]%elem_of_cons; cbn; [injection E' as <- <-; lia | specialize (IH H); lia].
Qed.

Lemma sent_end_stream id W A : sender_world_ok id W A -> 0 <= sent_end W <= blen (stream W).
Proof.
  intros HW. split; [apply sent_end_nonneg |]. apply sent_end_le; [apply blen_nonneg |].
  intros m f Hm. destruct (wo_sent _ _ _ _ HW m f Hm) as [_ (a & len & fin & [last ->] & _ & Ha & Hl & He & _)]. cbn. by rewrite blen_slice.
Qed.

Lemma sent_honest id W A m s : sender_world_ok id W A -> (m, Frame.Stream s) ∈ sent W ->
  honest (stream W) (sent_end W) (fin_sent W) s.
Proof.
  intros HW Hm. pose proof (sent_end_ge W m _ Hm) as Hge. pose proof (sent_end_stream id W A HW) as Hse.
  destruct (wo_sent _ _ _ _ HW m _ Hm) as [_ (a & len & fin & [last [= ->]] & _ & Ha & Hl & He & _ & Hfin)].
  cbn in Hge. rewrite blen_slice in Hge by done. exists a, len. cbn. split_and!; try done; [lia |].
  intros ->. split; [by eexists _, _ | by apply Hfin].
Qed.

(** Once its end was sent, a stream does not grow. *)
Lemma fin_fixed i id W W' A A' : sender_world_ok id W A -> sender_world_ok id W' A' -> grows i id W W' -> fin_sent W ->
  fin_sent W' /\ stream W' = stream W.
Proof.
  intros HW HW' (Hp & Hsub & _) (m & s & Hm & Hf). split; [exists m, s; split; [by apply Hsub | done] |].
  destruct (sent_honest id W A m s HW Hm) as (a & len & Ea & Ed & H1 & H2 & H3 & H4 & H5).
  destruct (sent_honest id W' A' m s HW' ltac:(by apply Hsub)) as (a' & len' & Ea' & Ed' & H1' & H2' & H3' & H4' & H5').
  destruct (H5 Hf) as [_ El]. destruct (H5' Hf) as [_ El']. symmetry. apply prefix_all; [done |].
  pose proof (blen_slice (stream W) a len ltac:(lia) ltac:(lia) ltac:(lia)) as Hb. rewrite <- Ed, Ed' in Hb. rewrite blen_slice in Hb by lia. lia.
Qed.

Lemma sent_end_mono (W W' : world) : sent W ⊆ sent W' -> sent_end W <= sent_end W'.
Proof. intros Hsub. apply sent_end_le; [apply sent_end_nonneg |]. intros m f Hm%Hsub. by eapply sent_end_ge. Qed.

Lemma content_grows i id W W' A A' (r : receiver) :
  sender_world_ok id W A -> sender_world_ok id W' A' -> grows i id W W' ->
  content (stream W) (sent_end W) (fin_sent W) r -> content (stream W') (sent_end W') (fin_sent W') r.
Proof.
  intros HW HW' Hg Hc. pose proof Hg as (Hp & Hsub & _). eapply content_mono; [done | done | by apply sent_end_mono |].
  by eapply fin_fixed.
Qed.

(** ** They are within the limits and have the same end *)

Lemma honest_final D limit finished s (st : Reassembler BM) :
  arrived D limit finished st -> honest D limit finished s -> blen D <= MAX_VARINT_VALUE ->
  final_after (cursors st) (data_end s) (Stream.is_fin s) <> Err InvalidFin.
Proof.
  intros (H1 & _ & H2) (a & len & Ea & Ed & Ha & Hl & Hal & Hlim & Hfin) HD. unfold data_end, final_after. rewrite Ed, Ea, blen_slice by lia.
  destruct (Z.ltb_spec MAX_VARINT_VALUE (a + len)); [done |]. change (CursorsOps.final_size (cursors st)) with (final_size st).
  destruct (final_size st) as [n |] eqn:En.
  - destruct (H2 n eq_refl) as [_ ->]. destruct (Stream.is_fin s).
    + destruct (Hfin eq_refl) as [_ ->]. by rewrite Z.eqb_refl.
    + by rewrite (proj2 (Z.leb_le _ _)) by lia.
  - destruct (Stream.is_fin s); [| done]. destruct (Hfin eq_refl) as [_ ->]. by rewrite (proj2 (Z.leb_le _ _)) by lia.
Qed.

Lemma total_taken_le (m : gmap Z receiver) (m' : gmap Z world) id r W e :
  (forall id, option_Forall2 (fun r W => taken r <= sent_end W) (m !! id) (m' !! id)) ->
  m !! id = Some r -> m' !! id = Some W -> e <= sent_end W -> total m taken + Z.max 0 (e - taken r) <= total m' sent_end.
Proof.
  intros H Hr HW He. rewrite (total_delete m taken id r Hr), (total_delete m' sent_end id W HW).
  enough (total (delete id m) taken <= total (delete id m') sent_end) by (specialize (H id); rewrite Hr, HW in H; inversion H; subst; lia).
  apply total_le_maps. intros id'. destruct (decide (id' = id)) as [-> | Hne]; [rewrite !lookup_delete_eq; constructor |].
  rewrite !lookup_delete_ne by done. apply H.
Qed.

Lemma total_sent_le (K : connection) : streams_ok be K -> total (streams K) sent_end <= Outgoing.total_available_window (outgoing K).
Proof.
  intros HK. rewrite <- (ss_total _ _ HK). destruct (ss_outgoing _ _ HK) as (? & _). etransitivity; [apply (total_le _ _ acquired) | lia].
  intros id W HW. destruct (ss_streams _ _ HK id W HW) as [_ [A Hok]]. apply (stream_sent_ok be id W A Hok).
Qed.

(** ** What the receiver does with an arrival *)

Hypothesis alloc_ok : alloc_exact alloc.

Lemma react_frames id ev (r r' : receiver) fs :
  react alloc id ev r = Ret (Ok (r', fs)) -> match ev with StreamTransmit _ => True | _ => fs = [] end.
Proof. destruct ev; cbn [react]; intros H; repeat obind_inv; repeat case_match; simplify_eq; done. Qed.

Lemma credited_limits f f' : receive_flow_ok f -> receive_flow_ok f' -> credited f f' ->
  stream_limit f <= stream_limit f' /\ connection_limit f <= connection_limit f'.
Proof.
  intros Hf Hf' [_ Hr [_ Hup] [Ed Edc]]. pose proof (rf_latest _ Hf). pose proof (rf_latest _ Hf').
  pose proof (in_latest _ (rf_connection _ Hf)). pose proof (in_latest _ (rf_connection _ Hf')). unfold stream_limit, connection_limit. lia.
Qed.

Lemma receive_stream_ok (K : endpoint) id ev (r : receiver) :
  endpoint_ok K -> receivers K !! id = Some r -> event_ok ev (rstream r) ->
  returns (receive_step alloc (ForStream id ev) K) (fun res =>
    match res with
    | Err e => faulty ev (with_incoming (incoming K) r) e
    | Ok (K', fs) => endpoint_ok K' /\ in_limit K <= in_limit K' /\ Forall (announced id r) fs
        /\ exists r', receivers K' = <[id:=r']> (receivers K) /\ evolves ev (with_incoming (incoming K) r) r'
             /\ stream_limit (rflow r) <= stream_limit (rflow r')
    end).
Proof.
  intros HK Eid Hev. cbn [receive_step]. rewrite Eid. pose proof (attached_ok K id r HK Eid) as Hok.
  destruct (react_ok alloc alloc_ok id ev (with_incoming (incoming K) r) Hok) as (res & E1 & Hres); [by destruct ev |].
  rewrite E1. cbn [obind]. apply returns_ret. destruct res as [[r' fs] | e]; [| done]. destruct Hres as (Hok' & Hcr & Hevo).
  destruct (credited_limits _ _ (rs_flow _ Hok) (rs_flow _ Hok') Hcr) as [Hs Hc]. split_and!; [by apply (store_ok K id r) | done | | by exists r'].
  pose proof (react_frames _ _ _ _ _ E1) as Hfs. destruct ev; try (subst fs; constructor).
  destruct (react_sync_ok alloc id (with_incoming (incoming K) r) (StreamTransmit context) Hok I) as (res & E2 & Hres).
  rewrite E1 in E2. injection E2 as <-. apply Hres.
Qed.

(** A stream that has nothing yet. *)
Definition untouched (r : receiver) : Prop :=
  rstate r = ReceiveStream.Receiving /\ rbuf r = ra_new /\ got r = [] /\ stopped r = false /\ taken r = 0.

Lemma receive_accept_ok (K : endpoint) id initial desired :
  endpoint_ok K -> arrival_ok (Accept id initial desired : arrival) K ->
  returns (receive_step alloc (Accept id initial desired) K) (fun res => exists K' r, res = Ok (K', []) /\ endpoint_ok K'
    /\ in_limit K' = in_limit K /\ receivers K' = <[id:=r]> (receivers K) /\ untouched r /\ stream_limit (rflow r) = desired).
Proof.
  intros HK Hi. cbn [receive_step]. rstep (accept_ok K id initial desired HK Hi). intros s (Hok & Es & Ec & Ea & Er & Hl). apply returns_ret.
  exists (store K id (mk_receiver s [] false)), (mk_receiver s [] false). split_and!; try done.
  - apply store_new_ok; try done. apply Hi.
  - cbn. by rewrite Ec.
  - unfold untouched, taken. cbn. rewrite Es, <- Ea. cbn. by split_and!.
Qed.

Lemma receive_connection_ok (K : endpoint) (i : arrival) :
  endpoint_ok K -> match i with ConnectionAck _ | ConnectionLoss _ | ConnectionTransmit _ => True | _ => False end ->
  returns (receive_step alloc i K) (fun res => exists K' fs, res = Ok (K', fs) /\ endpoint_ok K' /\ in_limit K' = in_limit K
    /\ receivers K' = receivers K /\ Forall (fun f => f = Frame.MaxData (MaxData.mk (in_limit K))) fs).
Proof.
  intros HK Hi. pose proof (in_sync _ (ep_incoming _ HK)) as Hs. destruct i as [| | c | c | w]; try done; cbn [receive_step].
  - apply returns_ret. destruct (ivs_ack_ok _ c Hs) as (? & ? & _). eexists _, _. split_and!; try done. by apply endpoint_sync_ok.
  - apply returns_ret. destruct (ivs_loss_ok _ c Hs) as (? & ? & _). eexists _, _. split_and!; try done. by apply endpoint_sync_ok.
  - unfold Incoming.on_transmit. pose proof (ivs_transmit_ok Incoming.max_data_writer _ 0 w Hs) as Ht.
    destruct (IncrementalValueSync.on_transmit _ _ _ _) as [[sync res] fs]. destruct Ht as (? & ? & _ & _ & Hfs & _). apply returns_ret.
    eexists _, _. split_and!; try done; [by apply endpoint_sync_ok |]. destruct Hfs as [[_ ->] | [-> _]]; by repeat constructor.
Qed.
End Transfer.
