(* ===== verification/EndToEnd.v ===== *)
(** * Streams between two endpoints

    The senders of one endpoint and the receivers of the other, over a network
    that loses, repeats and reorders packets in both directions. *)
From stdpp Require Import gmap sets list.
From S2P Require Import Prelude Codec VarInt PacketNumber MapInterface PacketMap PacketMapThm Interval IntervalInsert IntervalSet VarIntSet FrameAck Frames FrameCodec Time Transmission TransmissionContext Recovery Sync FlowControl FlowControlThm SendBuffer SendBufferThm Transmissions TransmissionsThm DataSender DataWriter TransmitThm DataSenderThm DataSenderTransmit DataSenderReliable StreamFlow StreamFlowThm ReassemblerSlot Reassembler ReassemblerSpec ReassemblerWrite ReassemblerOps ReassemblerRead ReassemblerThm SendStreams StreamOps ReceiveStream ReceiveFlowThm ReceiveStreamThm ReceiveStreams ReceiveContent StreamTransfer.

Section EndToEnd.
Context {E CE B BM : Type} `{HB : Bytes B, !BytesSpec B} {HM : BytesMut BM} {HMS : BytesMutSpec BM}.
Context (be : bool) (capacity : Z -> Z) (alloc : Z -> Z -> BM).

#[local] Existing Instance stream_flow_controller.
#[local] Existing Instance stream_flow_spec.
#[local] Hint Extern 0 (ChunkWriter Z B) => exact (the_writer be) : typeclass_instances.
#[local] Hint Extern 0 (ChunkWriterSpec Z B) => exact (the_writer_spec be) : typeclass_instances.

Local Abbreviation world := (DataSenderReliable.world (E := E) (F := StreamFlow.t) (B := B)).
Local Abbreviation connection := (SendStreams.connection (E := E) (B := B)).
Local Abbreviation input := (SendStreams.input (E := E) (B := B)).
Local Abbreviation receiver := (ReceiveStreams.receiver (CE := CE) (B := BM)).
Local Abbreviation endpoint := (ReceiveStreams.endpoint (CE := CE) (B := BM)).
Local Abbreviation arrival := (ReceiveStreams.arrival (CE := CE)).
Local Abbreviation rflow r := (ReceiveStream.flow_controller (rstream r)).
Local Abbreviation rstate r := (ReceiveStream.state (rstream r)).
Local Abbreviation rbuf r := (ReceiveStream.receive_buffer (rstream r)).
Local Abbreviation in_limit K := (IncrementalValueSync.latest_value (Incoming.read_window_sync (incoming K))).
Local Abbreviation sender_world_ok id W A := (world_ok ApplicationData (id : Z) (W : world) A).

(** ** The system *)

(** The two endpoints, the MAX_DATA and MAX_STREAM_DATA the receiver sent, and the
    STREAM frames that arrived at it, with the stream and the packet. *)
Record system := mk_system {
  near : connection;
  far : endpoint;
  max_data_sent : list Z;
  max_stream_data_sent : list (Z * Z);
  arrived_frames : list (Z * (Z * Stream.t))
}.

Inductive action :=
| OpenBoth (id initial_window desired max_buffer_capacity : Z)
| AtSender (i : input)
| Arrive (id m : Z) (frame : Stream.t)
| AtReceiver (i : arrival).

Definition max_stream_data_of (f : frame) : list (Z * Z) :=
  match f with Frame.MaxStreamData m => [(MaxStreamData.stream_id m, MaxStreamData.maximum_stream_data m)] | _ => [] end.

Definition transfer_step (a : action) (Y : system) : outcome (result system TransportError) :=
  let 'mk_system K R md msd fr := Y in
  match a with
  | OpenBoth id initial_window desired max_buffer_capacity =>
      let! K := step be capacity (OpenStream id initial_window max_buffer_capacity) K in
      let! res := receive_step alloc (Accept id initial_window desired) R in
      Ret (match res with Ok (R, _) => Ok (mk_system K R md (msd ++ [(id, initial_window)]) fr) | Err e => Err e end)
  | AtSender i => let! K := step be capacity i K in Ret (Ok (mk_system K R md msd fr))
  | Arrive id m frame =>
      let! res := receive_step alloc (ForStream id (Data frame)) R in
      Ret (match res with Ok (R, _) => Ok (mk_system K R md msd (fr ++ [(id, (m, frame))])) | Err e => Err e end)
  | AtReceiver i =>
      let! res := receive_step alloc i R in
      Ret (match res with
           | Ok (R, fs) => Ok (mk_system K R (md ++ flat_map max_data_of fs) (msd ++ flat_map max_stream_data_of fs) fr)
           | Err e => Err e
           end)
  end.
Fixpoint transfer (acts : list action) (Y : system) : outcome (result system TransportError) :=
  match acts with
  | [] => Ret (Ok Y)
  | a :: acts => let! res := transfer_step a Y in match res with Ok Y => transfer acts Y | Err e => Ret (Err e) end
  end.

(** What can happen: only frames that were sent arrive, in any order and any
    number of times, and only packets that arrived are acknowledged. *)
Definition possible (a : action) (Y : system) : Prop :=
  match a with
  | OpenBoth id initial_window desired max_buffer_capacity =>
      valid_input be (OpenStream id initial_window max_buffer_capacity : input) (near Y)
      /\ 0 <= initial_window <= desired /\ desired < 2 ^ 32
  | AtSender i => valid_input be i (near Y) /\
      match i with
      | OpenStream _ _ _ => False
      | OnMaxData v => v ∈ max_data_sent Y
      | OnMaxStreamData id v => (id, v) ∈ max_stream_data_sent Y
      | OnStream id (Ack _ a b) => forall W m s, streams (near Y) !! id = Some W ->
          (m, Frame.Stream s) ∈ sent W -> a <= m <= b -> (id, (m, s)) ∈ arrived_frames Y
      | _ => True
      end
  | Arrive id m frame => exists W, streams (near Y) !! id = Some W /\ (m, Frame.Stream frame) ∈ sent W
  | AtReceiver i =>
      match i with
      | ForStream _ (Data _) | ForStream _ (ResetData _) | Accept _ _ _ => False
      | _ => arrival_ok i (far Y)
      end
  end.
Fixpoint possible_run (acts : list action) (Y : system) : Prop :=
  match acts with
  | [] => True
  | a :: acts => possible a Y /\ forall Y', transfer_step a Y = Ret (Ok Y') -> possible_run acts Y'
  end.

Definition setup (initial_window desired : Z) : outcome system :=
  let! R := fresh initial_window desired in Ret (mk_system (initial initial_window) R [] [] []).

(** ** The invariant *)

(** The two ends of a stream. *)
Record ends_ok (msd : list (Z * Z)) (fr : list (Z * (Z * Stream.t))) (id : Z) (W : world) (r : receiver) : Prop := {
  en_content : content (stream W) (sent_end W) (fin_sent W) r;
  en_window : StreamFlow.max_stream_data (flow W) <= stream_limit (rflow r);
  en_limits v : (id, v) ∈ msd -> v <= stream_limit (rflow r);
  en_arrived m s : (id, (m, s)) ∈ fr -> rstate r = ReceiveStream.Receiving -> holds r s;
  en_delivered m s : (m, Frame.Stream s) ∈ delivered W -> (id, (m, s)) ∈ fr
}.

Record transfer_ok (Y : system) : Prop := {
  tr_near : streams_ok be (near Y);
  tr_far : endpoint_ok (far Y);
  tr_window : Outgoing.total_available_window (outgoing (near Y)) <= in_limit (far Y);
  tr_limits v : v ∈ max_data_sent Y -> v <= in_limit (far Y);
  tr_streams id : option_Forall2 (ends_ok (max_stream_data_sent Y) (arrived_frames Y) id) (streams (near Y) !! id) (receivers (far Y) !! id);
  tr_named id v : (id, v) ∈ max_stream_data_sent Y -> is_Some (receivers (far Y) !! id);
  tr_frames id p : (id, p) ∈ arrived_frames Y -> is_Some (receivers (far Y) !! id)
}.

(** ** The sender *)

Hypothesis capacity_ok : forall n, 0 < n < 2 ^ 63 -> n <= capacity n < 2 ^ 63.
Hypothesis alloc_ok : alloc_exact alloc.

Definition keeps (a : action) (Y : system) : Prop :=
  transfer_ok Y -> possible a Y -> returns (transfer_step a Y) (fun res => exists Y', res = Ok Y' /\ transfer_ok Y').

Lemma ends_grow msd fr i id (W W' : world) (r : receiver) A A' :
  ends_ok msd fr id W r -> sender_world_ok id W A -> sender_world_ok id W' A' -> grows i id W W' ->
  StreamFlow.max_stream_data (flow W') <= stream_limit (rflow r) ->
  (forall set a b m s, i = OnStream id (Ack set a b) -> (m, Frame.Stream s) ∈ sent W -> a <= m <= b -> (id, (m, s)) ∈ fr) ->
  ends_ok msd fr id W' r.
Proof.
  intros [Hc _ Hl Ha Hd] HW HW' Hg Hw Hack. split; try done; [exact (content_grows be i id W W' A A' r HW HW' Hg Hc) |].
  intros m s Hm. destruct Hg as (_ & _ & Hg). destruct (Hg _ Hm) as [? | (set & a & b & Ei & Hs & Hab)]; [by apply Hd |]. by eapply Hack.
Qed.

Lemma at_sender_ok i Y : keeps (AtSender i) Y.
Proof.
  intros HY [Hv Hi]. destruct Y as [K R md msd fr]. destruct HY as [HK HR Hw Hl Hs Hn Hf]. cbn in *.
  destruct (connection_step_ok be capacity capacity_ok i K HK Hv) as (K' & E1 & HK' & Et & Em). rewrite E1. cbn [obind]. apply returns_ret.
  eexists. split; [done |]. split; cbn; try done.
  - rewrite Et. destruct i; cbn; try done. specialize (Hl _ Hi). lia.
  - intros id. assert (Hop : opens i = false) by (by destruct i). pose proof (step_grows be capacity i K K' E1 Hop id) as Hg.
    specialize (Hs id). destruct (streams K' !! id) as [W' |] eqn:EW'; inversion Hg as [W ? Hgr EW |EW]; subst; rewrite <- EW in Hs;
      inversion Hs as [? r Hends E2 E3 | E2]; subst; constructor.
    symmetry in EW. destruct (ss_streams _ _ HK id W EW) as [_ [A HA]]. destruct (ss_streams _ _ HK' id W' EW') as [_ [A' HA']].
    eapply ends_grow; try done.
    + rewrite (Em id W' EW'), EW. cbn. pose proof (en_window _ _ _ _ _ Hends). destruct i; try done. cbn. case_decide; [subst | done].
      pose proof (en_limits _ _ _ _ _ Hends _ Hi). lia.
    + intros set a b m s -> Hms Hab. by eapply Hi.
Qed.

(** ** The receiver *)

Lemma content_attach D limit finished c (r : receiver) : content D limit finished r -> content D limit finished (with_incoming c r).
Proof. intros []. by split. Qed.

Lemma ends_evolve msd msd' fr fr' id (W : world) (r r' : receiver) A c ev :
  ends_ok msd fr id W r -> sender_world_ok id W A -> fair (stream W) (sent_end W) (fin_sent W) ev ->
  evolves ev (with_incoming c r) r' -> stream_limit (rflow r) <= stream_limit (rflow r') ->
  (forall v, (id, v) ∈ msd' -> (id, v) ∈ msd \/ v = stream_limit (rflow r)) ->
  (forall m s, (id, (m, s)) ∈ fr' -> (id, (m, s)) ∈ fr \/ ev = Data s) -> fr ⊆ fr' ->
  ends_ok msd' fr' id W r'.
Proof.
  intros [Hc Hw Hl Ha Hd] HW Hfair Hev Hlim Hmsd Hfr Hsub. pose proof (content_attach _ _ _ c _ Hc) as Hc0. split.
  - eapply content_evolves; try done. apply sent_end_nonneg.
  - lia.
  - intros v [Hv | ->]%Hmsd; [specialize (Hl v Hv); lia | done].
  - intros m s Hms Hst. destruct (holds_evolves _ _ _ _ _ _ Hc0 Hev Hst) as (Hst0 & Hh & He & Hdata).
    destruct (Hfr m s Hms) as [Hold | ->]; [| done]. destruct (Ha m s Hold Hst0) as [H1 H2]. split; [| by intros ?%H2%He].
    intros x Hx. apply Hh, H1, Hx.
  - intros m s Hm. by apply Hsub, Hd.
Qed.

Lemma ends_other msd msd' fr fr' id (W : world) (r : receiver) :
  ends_ok msd fr id W r -> (forall v, (id, v) ∈ msd' -> (id, v) ∈ msd) -> (forall p, (id, p) ∈ fr' -> (id, p) ∈ fr) -> fr ⊆ fr' ->
  ends_ok msd' fr' id W r.
Proof. intros [] Hm Hf Hsub. split; try done; [by intros v ?%Hm; auto | by intros m s ?%Hf; eauto | intros m s Hd; by apply Hsub, en_delivered0]. Qed.

(** Something happened to a stream of the receiver. *)
Lemma far_stream_ok (K : connection) R R' md md' msd msd' fr fr' id ev (r r' : receiver) :
  transfer_ok (mk_system K R md msd fr) -> receivers R !! id = Some r -> endpoint_ok R' -> in_limit R <= in_limit R' ->
  (forall W, streams K !! id = Some W -> fair (stream W) (sent_end W) (fin_sent W) ev) ->
  receivers R' = <[id:=r']> (receivers R) -> evolves ev (with_incoming (incoming R) r) r' ->
  stream_limit (rflow r) <= stream_limit (rflow r') ->
  (forall v, v ∈ md' -> v ∈ md) -> (forall j v, (j, v) ∈ msd' -> (j, v) ∈ msd \/ (j = id /\ v = stream_limit (rflow r))) ->
  (forall j m s, (j, (m, s)) ∈ fr' -> (j, (m, s)) ∈ fr \/ (j = id /\ ev = Data s)) -> fr ⊆ fr' ->
  transfer_ok (mk_system K R' md' msd' fr').
Proof.
  intros [HK HR Hw Hl Hs Hn Hf] Er HR' Hin Hfair Erec Hev Hsl Hmd Hmsd Hfr Hsub. cbn in *.
  assert (Hsome : forall j, is_Some (receivers R !! j) -> is_Some (receivers R' !! j)).
  { intros j Hj. rewrite Erec. destruct (decide (j = id)) as [-> |]; [by rewrite lookup_insert_eq | by rewrite lookup_insert_ne]. }
  split; cbn; try done.
  - lia.
  - intros v Hv%Hmd. specialize (Hl v Hv). lia.
  - intros j. specialize (Hs j). rewrite Erec. destruct (decide (j = id)) as [-> | Hne].
    + rewrite lookup_insert_eq. rewrite Er in Hs. inversion Hs as [W ? Hends EW |]; subst. constructor. symmetry in EW.
      destruct (ss_streams _ _ HK id W EW) as [_ [A HA]]. eapply ends_evolve; try done; [by apply Hfair | |].
      * intros v Hv. destruct (Hmsd id v Hv) as [? | [_ ?]]; auto.
      * intros m s Hms. destruct (Hfr id m s Hms) as [? | [_ ?]]; auto.
    + rewrite lookup_insert_ne by done. inversion Hs as [W r0 Hends EW E2 | EW E2]; constructor. eapply ends_other; try done.
      * intros v Hv. destruct (Hmsd j v Hv) as [? | [? _]]; done.
      * intros [m s] Hms. destruct (Hfr j m s Hms) as [? | [? _]]; done.
  - intros j v Hv. apply Hsome. destruct (Hmsd j v Hv) as [? | [-> _]]; [by eapply Hn | by rewrite Er].
  - intros j [m s] Hms. apply Hsome. destruct (Hfr j m s Hms) as [? | [-> _]]; [by eapply Hf | by rewrite Er].
Qed.

Lemma stream_bound id (W : world) A : sender_world_ok id W A -> blen (stream W) <= MAX_VARINT_VALUE.
Proof. apply wo_stream. Qed.

(** A frame of the sender is not refused. *)
Lemma not_refused (K : connection) R md msd fr id (W : world) (r : receiver) m frame e :
  transfer_ok (mk_system K R md msd fr) -> streams K !! id = Some W -> receivers R !! id = Some r ->
  (m, Frame.Stream frame) ∈ sent W -> rstate r = ReceiveStream.Receiving -> ~ refused (rstream (with_incoming (incoming R) r)) frame e.
Proof.
  intros [HK HR Hw Hl Hs Hn Hf] EW Er Hm Hst. cbn in *. destruct (ss_streams _ _ HK id W EW) as [_ [A HA]].
  pose proof (sent_honest be id W A m frame HA Hm) as Hh. pose proof (stream_bound id W A HA) as HD. pose proof (sent_end_stream be id W A HA) as Hse.
  pose proof (sent_end_ge W m _ Hm) as Hge. cbn in Hge. pose proof (Hs id) as Hends. rewrite EW, Er in Hends. inversion Hends as [? ? [Hc Hwin _ _ _] |]; subst.
  destruct e; cbn.
  - intros [H | [_ H]]; [lia |]. apply H. split.
    + etransitivity; [exact Hge |]. etransitivity; [by apply (stream_sent_ok be id W A) |]. exact Hwin.
    + unfold connection_limit, needed. cbn. rewrite <- (ep_taken _ HR). change (ReceiveFlow.acquired_connection_window (rflow r)) with (taken r).
      etransitivity; [eapply (total_taken_le (receivers R) (streams K) id r W) |]; try done.
      * intros j. specialize (Hs j). inversion Hs as [W0 r0 Hj |]; constructor. apply (ct_taken _ _ _ _ (en_content _ _ _ _ _ Hj)).
      * etransitivity; [by apply (total_sent_le be) | done].
  - apply honest_final with (D := stream W) (limit := sent_end W) (finished := fin_sent W); try done. by apply (ct_receiving _ _ _ _ Hc).
Qed.

Lemma arrive_ok id m frame Y : keeps (Arrive id m frame) Y.
Proof.
  intros HY (W & EW & Hm). destruct Y as [K R md msd fr]. cbn in EW. pose proof HY as [HK HR _ _ Hs _ _]. cbn in HK, HR, Hs.
  destruct (ss_streams _ _ HK id W EW) as [_ [A HA]]. pose proof (sent_honest be id W A m frame HA Hm) as Hh.
  pose proof (stream_bound id W A HA) as HD. specialize (Hs id). rewrite EW in Hs. inversion Hs as [? r Hends E1 Er |]; subst. symmetry in Er.
  cbn [transfer_step]. rstep (receive_stream_ok alloc alloc_ok R id (Data frame) r HR Er).
  { destruct Hh as (a & len & Ea & Ed & H1 & H2 & H3 & H4 & _). split; [lia |]. intros _ _ _. rewrite Ea, Ed, blen_slice by lia. lia. }
  intros [[R' fs] | e] Hres; apply returns_ret.
  - destruct Hres as (HR' & Hin & _ & r' & Erec & Hev & Hsl). eexists. split; [done |]. eapply far_stream_ok; try done; auto.
    + intros W0 E0. assert (W0 = W) as -> by congruence. done.
    + intros j m0 s [? | Hx%list_elem_of_singleton]%elem_of_app; [by left |]. right. by simplify_eq.
    + intros p Hp. apply elem_of_app. by left.
  - destruct Hres as [Hst Href]. by destruct (not_refused K R md msd fr id W r m frame e).
Qed.

Lemma announced_limits id (r : receiver) fs : Forall (announced id r) fs ->
  flat_map max_data_of fs = [] /\ forall j v, (j, v) ∈ flat_map max_stream_data_of fs -> j = id /\ v = stream_limit (rflow r).
Proof.
  induction 1 as [| f fs [[code ->] | ->] _ [IH1 IH2]]; cbn; [split; [done |]; by intros ? ? ?%not_elem_of_nil | done |].
  split; [done |]. intros j v [E1 | H]%elem_of_cons; [by simplify_eq | by apply IH2].
Qed.

Lemma connection_limits l fs : Forall (fun f => f = Frame.MaxData (MaxData.mk l)) fs ->
  flat_map max_stream_data_of fs = [] /\ forall v, v ∈ flat_map max_data_of fs -> v = l.
Proof.
  induction 1 as [| f fs -> _ [IH1 IH2]]; cbn; [split; [done |]; by intros ? ?%not_elem_of_nil |].
  split; [done |]. intros v [-> | H]%elem_of_cons; [done | by apply IH2].
Qed.

Lemma at_receiver_stream_ok id ev Y : keeps (AtReceiver (ForStream id ev)) Y.
Proof.
  intros HY Hp. destruct Y as [K R md msd fr]. pose proof HY as [HK HR _ _ Hs _ _]. cbn in HK, HR, Hs.
  assert (Hev : arrival_ok (ForStream id ev) R) by (by destruct ev). assert (Hfair : forall D l f, fair (CE := CE) D l f ev) by (by destruct ev).
  cbn [transfer_step]. destruct (receivers R !! id) as [r |] eqn:Er.
  2: { cbn [receive_step]. rewrite Er. apply returns_ret. eexists. split; [done |]. cbn. by rewrite !app_nil_r. }
  rstep (receive_stream_ok alloc alloc_ok R id ev r HR Er (Hev r Er)). intros [[R' fs] | e] Hres; apply returns_ret; [| by destruct ev].
  destruct Hres as (HR' & Hin & Hfs & r' & Erec & Hevo & Hsl). destruct (announced_limits id r fs Hfs) as [-> Hmsd].
  eexists. split; [done |]. rewrite app_nil_r. eapply far_stream_ok; try done; auto.
  intros j v [? | ?]%elem_of_app; [by left | right; by apply Hmsd].
Qed.

Lemma at_receiver_connection_ok (i : arrival) Y :
  match i with ConnectionAck _ | ConnectionLoss _ | ConnectionTransmit _ => True | _ => False end -> keeps (AtReceiver i) Y.
Proof.
  intros Hi HY _. destruct Y as [K R md msd fr]. destruct HY as [HK HR Hw Hl Hs Hn Hf]. cbn in *.
  rstep (receive_connection_ok alloc R i HR Hi). intros res (R' & fs & -> & HR' & Ein & Erec & Hfs). apply returns_ret.
  destruct (connection_limits _ fs Hfs) as [-> Hmd]. eexists. split; [done |]. rewrite app_nil_r. split; cbn; rewrite ?Ein, ?Erec; try done.
  intros v [? | ->%Hmd]%elem_of_app; [by apply Hl | done].
Qed.

Lemma untouched_content (W : world) (r : receiver) : stream W = [] -> sent W = [] -> untouched r -> content (stream W) (sent_end W) (fin_sent W) r.
Proof.
  intros ED EL (H1 & H2 & H3 & H4 & H5). unfold sent_end. rewrite ED, EL. cbn. split; rewrite ?H2, ?H3; try done; [lia | congruence].
Qed.

Lemma open_ok id initial_window desired max_buffer Y : keeps (OpenBoth id initial_window desired max_buffer) Y.
Proof.
  intros HY (Hv & Hi & Hd). destruct Y as [K R md msd fr]. destruct HY as [HK HR Hw Hl Hs Hn Hf]. cbn [near far max_data_sent max_stream_data_sent arrived_frames] in *.
  pose proof Hv as (_ & _ & EW). assert (Er : receivers R !! id = None) by (specialize (Hs id); rewrite EW in Hs; by inversion Hs).
  cbn [transfer_step]. destruct (connection_step_ok be capacity capacity_ok _ K HK Hv) as (K' & E1 & HK' & Et & Em). rewrite E1. cbn [obind].
  rstep (receive_accept_ok alloc R id initial_window desired HR ltac:(done)). intros res (R' & r & -> & HR' & Ein & Erec & Hun & Hlim).
  apply returns_ret. eexists. split; [done |]. cbn in E1. injection E1 as <-.
  assert (Hsome : forall j, is_Some (receivers R !! j) -> is_Some (receivers R' !! j)).
  { intros j Hj. rewrite Erec. destruct (decide (j = id)) as [-> |]; [by rewrite lookup_insert_eq | by rewrite lookup_insert_ne]. }
  split; cbn [near far max_data_sent max_stream_data_sent arrived_frames put streams outgoing]; rewrite ?Ein; try done.
  - intros j. specialize (Hs j). rewrite Erec. destruct (decide (j = id)) as [-> | Hne].
    + rewrite !lookup_insert_eq. constructor. split.
      * by apply untouched_content.
      * cbn. lia.
      * intros v [Hx | Hx%list_elem_of_singleton]%elem_of_app; [apply Hn in Hx; rewrite Er in Hx; by destruct Hx |]. simplify_eq. lia.
      * intros m s Hms%Hf. rewrite Er in Hms. by destruct Hms.
      * by intros m s Hms%not_elem_of_nil.
    + rewrite !lookup_insert_ne by done. inversion Hs as [W r0 Hends E2 E3 | E2 E3]; constructor. eapply ends_other; try done.
      intros v [? | Hx%list_elem_of_singleton]%elem_of_app; [done | by simplify_eq].
  - intros j v [?%Hn | Hx%list_elem_of_singleton]%elem_of_app; [by apply Hsome |]. simplify_eq. rewrite Erec, lookup_insert_eq. by eexists.
  - intros j p ?%Hf. by apply Hsome.
Qed.

Lemma transfer_step_ok a Y : keeps a Y.
Proof.
  destruct a as [id iw d mb | i | id m frame | i]; [apply open_ok | apply at_sender_ok | apply arrive_ok |].
  destruct i as [| id ev | c | c | w]; [by intros _ [] | apply at_receiver_stream_ok | by apply at_receiver_connection_ok ..].
Qed.

Lemma transfer_run_ok acts : forall Y, transfer_ok Y -> possible_run acts Y ->
  returns (transfer acts Y) (fun res => exists Y', res = Ok Y' /\ transfer_ok Y').
Proof.
  induction acts as [| a acts IH]; intros Y HY Hv; [apply returns_ret; by exists Y |]. destruct Hv as [Ha Hrest]. cbn [transfer].
  destruct (transfer_step_ok a Y HY Ha) as (res & E1 & Y1 & -> & HY1). rewrite E1. cbn [obind]. by apply IH, Hrest.
Qed.

Lemma setup_ok initial_window desired : 0 <= initial_window <= desired -> desired < 2 ^ 32 ->
  returns (setup initial_window desired) transfer_ok.
Proof.
  intros Hi Hd. unfold setup. rstep (fresh_ok (CE := CE) (B := BM) initial_window desired Hi Hd). intros R (HR & Erec & _ & Hl). apply returns_ret.
  assert (Hv : varint_ok initial_window) by (unfold varint_ok, VarInt.MAX, MAX_VARINT_VALUE; lia).
  split; cbn; rewrite ?Erec, ?Hl; try done; try (by intros ? ?%not_elem_of_nil); try (by intros ? ? ?%not_elem_of_nil);
    [by apply initial_ok | lia | intros id; rewrite !lookup_empty; constructor].
Qed.

(** ** What the application gets *)

(** All the sender was told arrived. *)
Lemma finished_holds msd fr id (W : world) (r : receiver) A :
  ends_ok msd fr id W r -> sender_world_ok id W A -> DataSender.state (sender W) = SenderState.Finished -> rstate r = ReceiveStream.Receiving ->
  (forall x, 0 <= x < blen (stream W) -> has r x) /\ knows_end r.
Proof.
  intros Hends HW Hfin Hst. destruct (rel_finished _ _ (world_reliable _ _ _ _ HW) Hfin) as [Hall Hlast]. split.
  - intros x Hx. destruct (Hall x Hx) as (m & f & a & len & fin & Hm & [last ->] & Ha & Hxa & He).
    pose proof (en_arrived _ _ _ _ _ Hends m _ (en_delivered _ _ _ _ _ Hends m _ Hm) Hst) as [Hh _]. apply Hh.
    unfold data_end. cbn. rewrite blen_slice by lia. lia.
  - destruct (Hlast eq_refl) as (m & f & a & len & Hm & [last ->] & _).
    pose proof (en_arrived _ _ _ _ _ Hends m _ (en_delivered _ _ _ _ _ Hends m _ Hm) Hst) as [_ Hh]. by apply Hh.
Qed.

(** What the ends of a stream agree on. *)
Record agree (W : world) (r : receiver) : Prop := {
  ag_prefix : got r `prefix_of` stream W;
  ag_read : rstate r = ReceiveStream.DataRead -> stopped r = false -> got r = stream W;
  ag_finished : DataSender.state (sender W) = SenderState.Finished -> rstate r = ReceiveStream.Receiving ->
    final_size (rbuf r) = Some (blen (stream W))
    /\ forall x, blen (got r) <= x < blen (stream W) -> ra_get (rbuf r) x = stream W !! Z.to_nat x
}.

Lemma ends_agree msd fr id (W : world) (r : receiver) A : ends_ok msd fr id W r -> sender_world_ok id W A -> agree W r.
Proof.
  intros Hends HW. pose proof (en_content _ _ _ _ _ Hends) as [Hg _ Hr Hd _]. split; [done | by intros H1 H2; destruct (Hd H1 H2) |].
  intros Hfin Hst. destruct (finished_holds _ _ _ _ _ _ Hends HW Hfin Hst) as [Hh He]. destruct (Hr Hst) as (_ & _ & Hget & Hn). split.
  - unfold knows_end in He. destruct (final_size (rbuf r)) as [n |] eqn:En; [| done]. destruct (Hn n eq_refl) as [_ ->]. done.
  - intros x Hx. pose proof (blen_nonneg (got r)). destruct (Hh x ltac:(lia)) as [? | Hx']; [lia |].
    destruct (ra_get (rbuf r) x) as [c |] eqn:Ec; [| done]. symmetry. by apply Hget.
Qed.

(** C1: between two endpoints, streams are delivered.  The senders of one endpoint
    and the receivers of the other exchange STREAM, MAX_DATA and MAX_STREAM_DATA
    frames over a network that loses, repeats and reorders them, and packets are
    acknowledged only if they arrived.  Then whatever the two applications do, in
    any order, neither endpoint panics and the receiver never closes the
    connection with an error: the limits that are sent back are always enough for
    what was sent.  On each stream the application reads a prefix of the bytes
    the other one wrote; a stream that was read to its end gave all of them; and
    when a sender is finished, the receiver knows the end of the stream and has
    all the bytes that are still to be read. *)
Theorem streams_end_to_end initial_window desired acts :
  0 <= initial_window <= desired -> desired < 2 ^ 32 ->
  (forall Y, setup initial_window desired = Ret Y -> possible_run acts Y) ->
  returns (let! Y := setup initial_window desired in transfer acts Y) (fun res => exists Y, res = Ok Y
    /\ forall id, option_Forall2 agree (streams (near Y) !! id) (receivers (far Y) !! id)).
Proof.
  intros Hi Hd Hv. destruct (setup_ok initial_window desired Hi Hd) as (Y & E1 & HY). rewrite E1. cbn [obind].
  eapply returns_mono; [apply (transfer_run_ok acts Y HY), (Hv Y E1) |]. intros res (Y' & -> & HY'). exists Y'. split; [done |].
  intros id. pose proof (tr_streams _ HY' id) as Hs. destruct (streams (near Y') !! id) as [W |] eqn:EW; inversion Hs as [? r Hends |]; subst; constructor.
  destruct (ss_streams _ _ (tr_near _ HY') id W EW) as [_ [A HA]]. by eapply ends_agree.
Qed.
End EndToEnd.

(** ** A stream over a bad network *)

Local Abbreviation the_action := (action (E := unit) (CE := unit) (B := list Z)).
Definition first_frame : Stream.t := Stream.mk 0 0 false false [1; 2; 3; 4].
Definition last_frame : Stream.t := Stream.mk 0 4 false true [5; 6].
(** The window is too small at first; the last frame arrives first and the first
    one twice. *)
Definition sample_acts : list the_action :=
  [OpenBoth 0 4 8 100; AtSender (OnStream 0 (Push [1; 2; 3; 4; 5; 6])); AtSender (OnStream 0 Finish);
   AtSender (OnStream 0 (Transmit (packet_writer ApplicationData 0) 0));
   AtReceiver (ForStream 0 (StreamTransmit (packet_writer ApplicationData 7)));
   AtReceiver (ConnectionTransmit (packet_writer ApplicationData 8));
   AtSender (OnMaxStreamData 0 8); AtSender (OnMaxData 100); AtSender (OnConnectionWindowAvailable 0);
   AtSender (OnStream 0 (Transmit (packet_writer ApplicationData 1) 1));
   Arrive 0 1 last_frame; AtReceiver (ForStream 0 (Read read_all None)); Arrive 0 0 first_frame; Arrive 0 0 first_frame;
   AtSender (OnStream 0 (Ack (range_set (range ApplicationData 0 1)) 0 1)); AtReceiver (ForStream 0 (Read read_all None))].

Local Abbreviation the_step := (transfer_step (E := unit) (CE := unit) true (fun n => n) Plain.with_capacity).
Local Abbreviation the_run := (possible_run (E := unit) (CE := unit) true (fun n => n) Plain.with_capacity).

Lemma sample_possible (a : the_action) acts Y Y' : possible true a Y -> the_step a Y = Ret (Ok Y') -> the_run acts Y' -> the_run (a :: acts) Y.
Proof. intros Ha HY Hrest. split; [done |]. intros Y0 HY0. by assert (Y0 = Y') as -> by congruence. Qed.

Ltac find_elem := repeat (first [apply list_elem_of_here | apply list_elem_of_further]).
Ltac acked_arrived :=
  let HW := fresh "HW" in intros ? ? ? HW; vm_compute in HW; injection HW as <-; cbn [sent];
  let Hm := fresh "Hm" in intros Hm _; repeat (apply elem_of_cons in Hm as [Hm | Hm]; [injection Hm as -> ->; vm_compute; find_elem |]); by apply not_elem_of_nil in Hm.
Ltac possible_action :=
  lazymatch goal with
  | |- possible _ (AtSender (OnStream _ _)) _ =>
      split; [split; [reflexivity |]; let HW := fresh "HW" in intros ? HW; vm_compute in HW; injection HW as <-; valid_event | first [exact I | acked_arrived]]
  | |- possible _ (AtSender (OnMaxData _)) _ => split; [by vm_compute | vm_compute; find_elem]
  | |- possible _ (AtSender (OnMaxStreamData _ _)) _ => split; [by vm_compute | vm_compute; find_elem]
  | |- possible _ (AtSender _) _ => split; exact I
  | |- possible _ (Arrive _ _ _) _ => eexists; split; [vm_compute; reflexivity | vm_compute; find_elem]
  | |- possible _ (AtReceiver (ForStream _ _)) _ => let Hr := fresh "Hr" in intros ? Hr; vm_compute in Hr; injection Hr as <-; first [exact I | split; [apply read_all_ok | discriminate]]
  | |- possible _ (AtReceiver _) _ => exact I
  | |- possible _ (OpenBoth _ _ _ _) _ => by vm_compute
  end.
Ltac next_action := eapply sample_possible; [possible_action | vm_compute; reflexivity |].

Lemma streams_end_to_end_witness :
  exists Y W r, (let! Y := setup (CE := unit) (BM := Plain.t) 5 100 in transfer (E := unit) true (fun n => n) Plain.with_capacity sample_acts Y) = Ret (Ok Y)
    /\ streams (near Y) !! 0 = Some W /\ receivers (far Y) !! 0 = Some r /\ agree W r
    /\ DataSender.state (sender W) = SenderState.Finished /\ ReceiveStream.state (rstream r) = ReceiveStream.DataRead
    /\ got r = [1; 2; 3; 4; 5; 6].
Proof.
  destruct (streams_end_to_end (E := unit) (CE := unit) true (fun n => n) Plain.with_capacity ltac:(intros; lia) Plain.with_capacity_exact
    5 100 sample_acts ltac:(lia) ltac:(lia)) as (res & E1 & Y & -> & HY).
  - intros Y HY. vm_compute in HY. injection HY as <-. unfold sample_acts.
    do 16 next_action.
    exact I.
  - pose proof E1 as E2. vm_compute in E2. injection E2 as E2. specialize (HY 0).
    destruct (streams (near Y) !! 0) as [W |] eqn:EW; [| subst Y; vm_compute in EW; discriminate EW].
    inversion HY as [? r Hag E3 Er |]; subst W. symmetry in Er. exists Y. eexists _, r. split; [exact E1 |]. split; [exact EW |]. split; [exact Er |].
    split; [exact Hag |]. subst Y. vm_compute in EW, Er. injection EW as <-. injection Er as <-. split_and!; reflexivity.
Defined.
